(* ===== verification/_CoqProject ===== *)
-Q . S2P
Prelude.v
Errors.v
AtomicFile.v
GoTime.v
GoFloat.v
GoStrings.v
GoConv.v
GoText.v
GoJson.v
GoDuration.v
GoFlag.v
Config.v
Types.v
GoHeap.v
GoSort.v
GoUrl.v
Queue.v
Store.v
Authz.v
Scheduler.v
Quota.v
Sha256.v
Auth.v
AuditLog.v
UsageSeries.v
Forecast.v
Http.v
Routes.v
History.v
Session.v
ServerWorker.v
Server.v
ServerRun.v
ServerProps.v
ServerPanic.v
ServerReplies.v
HttpServer.v
AdminApi.v
RuntimeConfig.v
Boot.v
ChatApi.v
LogRing.v
UsageApi.v
FleetApi.v
Telemetry.v
Console.v
ConsoleViews.v
ConsolePages.v
Ollama.v
WorkerNode.v
GpuTools.v
LoadTest.v
ApiClient.v
ClientServer.v
Cli.v
