(* ===== verification/Prelude.v ===== *)
(** * agent-gpu: a verification development

    agent-gpu is a control plane for a fleet of GPU workers that run language models.
    Workers connect over a bidirectional stream and report their models and capacity;
    clients call an OpenAI-compatible HTTP API with API keys; the server
    authenticates, authorizes and rate-limits each request, places its job on a worker
    or queues it, streams the answer back, and keeps sessions, quotas, an audit trail
    and usage history.  Operators use an admin API and a web console.  The worker runs
    jobs on a local Ollama server.

    The files translate the Go code under src/internal (and parts of src/cmd/agentgpu)
    into executable definitions; a definition has the name of the Go function, method
    or type it translates wherever Rocq allows it.

    ** Language and standard library

    - Prelude: machine integers ([u64], [i64] wrap as Go's do), tactics, hints, lists.
    - Errors: error values with wrapping, errors.Is, and the [result] of a fallible call.
    - GoTime, GoDuration, GoFloat, GoStrings, GoText, GoConv, GoHeap, GoSort, GoUrl,
      GoFlag, Sha256: the parts of time, strconv, strings, path/filepath,
      container/heap, sort, net/url, flag, crypto/sha256 and of binary64 arithmetic
      that the sources use, computed exactly.
    - GoJson: JSON values as trees and what encoding/json reads out of them.
    - AtomicFile: the write-then-rename checkpoint sequence five packages share; the
      JSON encoding is a parameter with its round trip as hypothesis, every system call
      may fail.

    ** Services

    - Types (internal/types): jobs, results, chunks, workers and their wire conversion.
    - Queue (internal/queue): the priority queue, and [Blocking], any number of blocked
      DequeueWait callers as a step relation.
    - Store (internal/store): key records; the class [KeyStore] with the memory and file
      implementations.
    - Auth, Authz (internal/auth, internal/authz): minting, hashing, authenticating;
      roles, scopes, model lists.
    - Scheduler (internal/scheduler): the worker choice.
    - Quota (internal/quota): rolling windows; the class [CounterStore]; the engine.
    - AuditLog (internal/audit); UsageSeries, Forecast (internal/usage).
    - History, Session (internal/session): capped transcripts; the class [SessionStore];
      the manager with its per-owner tally.

    ** The control plane (internal/server/server.go)

    - ServerWorker: one worker stream, its pending waiters, buffers and channels.
    - Server: registry, eviction, placement, dispatch, submission, affinity, statistics.
    - ServerRun: everything together as one machine, whose runs interleave calls,
      streams, the placement loop, evictions, reapers and Close.  Goroutines are cut
      where they can block and where a channel operation follows a lock region on a
      channel others can still reach; which regions stay whole, and why that loses no
      behaviour of the channels, is at the top of the file.  A panic ends the run.
    - ServerProps, ServerReplies, ServerPanic: what holds of every run.

    ** The HTTP surface (internal/httpapi)

    - Http: requests, payloads, the response writer, errors, pagination, tokens.
    - HttpServer: authentication, scopes, rate limiting, idempotency.
    - AdminApi: key management and the audit trail.  FleetApi: models, workers, GPUs,
      drain, pull, unload.  UsageApi: the usage report.
    - ChatApi: chat, completions and sessions, streamed and whole.
    - RuntimeConfig: live settings, the appliers of cmd/agentgpu/config_wiring.go and
      the override file.
    - LogRing: the log ring and redaction of cmd/agentgpu, the class [LogSource], the
      log query and live tail.
    - Telemetry: metrics middleware, lock-free request statistics as interleaved atomic
      operations, the telemetry page.
    - Console: the web console's sign-in, CSRF check and forms.  ConsoleViews: the
      records and texts of its pages.  ConsolePages: every board and GET route.
    - Routes: the table of API routes with their gates, and ServeMux's matching.

    ** The process (cmd/agentgpu, internal/config)

    - Config: flags, environment variables and defaults.
    - Boot: start-up (restoring every checkpoint, wiring, settings file) and the
      graceful stop.

    ** Clients

    - ApiClient (internal/apiclient): every call of the admin client as the request it
      sends and the reading of the answer; the transport and the JSON decoders are
      parameters.
    - ClientServer: the client run against the modelled server as its transport.
    - Cli (cmd/agentgpu): exit codes and the key, quota, workers, users and config
      commands, in a small monad of files, server, output and errors.
    - LoadTest (internal/loadtest): the request mix, the closed loop, the statistics.

    ** The worker (internal/worker, internal/gpu, internal/ollama)

    - Ollama: the client of the model runtime.
    - WorkerNode: the goroutines of a connection as one step machine, reconnection,
      capacity detection, and its composition with the server's reading of the stream.
    - GpuTools: the vendor probes and the parsers of their output.

    ** What is shown

    - Jobs: with distinct job ids (which the server does not enforce) a queued job is
      never lost and Close releases every caller; whatever the ids, a call only ever
      gets a worker's result for its own id, the placement loop stops, a drained
      worker is not picked, and there is one panic only, the recorded race of a chunk
      with an eviction (ServerProps, ServerReplies, ServerPanic).  A live worker
      answers every job whose id is its own on the connection with its execution's
      result (WorkerNode.dispatched_jobs_answered).
    - Contracts: queue, quota, log ring and store implementations refine abstract
      specifications; clients are proved against the classes.
    - Access: authentication and authorization are characterized exactly; writes need
      their scope, console writes the CSRF token too; revoked keys stay out; key
      secrets reach neither responses nor audit entries, and the values of log
      attributes with a secret name do not reach the log endpoints.
    - Conversations: under the trim policy transcripts grow by exactly the completed
      turns; streaming and whole answers agree in text, finish reason and tokens, and
      in all else when their tool calls do; broken streams store no turn.
    - Operations: settings shown are settings in force and survive restarts; audit
      entries are exactly one per write; console and API have the same effects;
      statistics are exact under any interleaving; a graceful stop and start keeps
      sessions, transcripts, quotas, audit trail and usage.
    - Pages: the console shows content only to a key with the content's scope, and the
      settings page posts back what it shows (the level "warning" excepted); when a
      worker list can be rendered.
    - Clients: every request of the admin client, page by page, reaches its endpoint with
      its arguments, for names the paths can carry; the audit trail read through it is
      the audit trail, up to what JSON does to values; the command line writes
      the key file only to make the first key, and that key opens the server; flags
      and arguments may come in any order.
    - Tools: nvidia-smi output is read back exactly; the load generator's closed loop
      issues exactly the requests asked for, in the asked mix.

    ** Bounds

    Where a Go loop is not structural it runs on fuel that suffices: Itoa has 20
    digits (2^64), ParseDuration the length of its text, heap sifts the length of the
    heap, [Split] the length of the text, the byte-size loops six divisions (2^64), a
    client's walk over pages the length of the list.  The client's page loops take the
    number of pages as fuel and return [None] when it runs out; their theorem gives
    the fuel that is enough.  Counters that a run could
    only overflow after 2^63 steps carry that bound as a hypothesis.  Float results
    used as integers are exact below 2^52.  The interleaved machines have no fuel:
    their theorems are about all reachable states, and termination is proved by a
    measure.

    ** Not modelled

    Network and file I/O beyond its outcomes, JSON and CSV text, HTML templates
    (generated), panic recovery, logging calls other than the ring, Prometheus
    collectors (a library's), dialling and TLS of the worker, the read-only report
    commands (audit, usage, gpus, telemetry, logs, models: one client call and a
    table), the routing of subcommands and help texts, the load generator's open loop,
    in-process stack and report texts, test doubles, build metadata, generated protocol
    code.  Goroutines whose only content is a ticker around a modelled operation are
    represented by that operation occurring at any time. *)

From Stdlib Require Export ZArith Lia.
From stdpp Require Export base tactics option list gmap strings fin_maps sorting.

#[global] Set Default Goal Selector "!".

(** Notations of the development. *)
Declare Scope go_scope.
Delimit Scope go_scope with go.

(** ** Machine integers

    Go's [uint64] / [uint32] values are integers in [[0, 2^w)]; [int] and
    [int64] are two's complement.  Arithmetic wraps. *)
Definition u64 (x : Z) : Z := (x mod 2 ^ 64)%Z.
Definition u32 (x : Z) : Z := (x mod 2 ^ 32)%Z.
Definition i64 (x : Z) : Z := ((x + 2 ^ 63) mod 2 ^ 64 - 2 ^ 63)%Z.

Definition is_u64 (x : Z) : Prop := (0 <= x < 2 ^ 64)%Z.
Definition is_u32 (x : Z) : Prop := (0 <= x < 2 ^ 32)%Z.
Definition is_i64 (x : Z) : Prop := (- 2 ^ 63 <= x < 2 ^ 63)%Z.

Definition maxInt64 : Z := (2 ^ 63 - 1)%Z.
Definition minInt64 : Z := (- 2 ^ 63)%Z.

(** Closing tactic for linear facts about the widths above, with divisions by
    constants expanded. *)
Ltac zlia := unfold is_u64, is_u32, is_i64, maxInt64, minInt64 in *;
  Z.to_euclidean_division_equations; lia.

(** Reflect the boolean comparisons of a hypothesis context into [Prop]. *)
Ltac zbool := repeat match goal with
  | H : (_ && _)%bool = true |- _ => apply andb_true_iff in H as [? ?]
  | H : (_ && _)%bool = false |- _ => apply andb_false_iff in H as [?|?]
  | H : (_ || _)%bool = false |- _ => apply orb_false_iff in H as [? ?]
  | H : (_ || _)%bool = true |- _ => apply orb_true_iff in H as [?|?]
  | H : negb _ = true |- _ => apply negb_true_iff in H
  | H : negb _ = false |- _ => apply negb_false_iff in H
  | H : (_ <? _)%Z = true |- _ => apply Z.ltb_lt in H
  | H : (_ <? _)%Z = false |- _ => apply Z.ltb_ge in H
  | H : (_ <=? _)%Z = true |- _ => apply Z.leb_le in H
  | H : (_ <=? _)%Z = false |- _ => apply Z.leb_gt in H
  | H : (_ =? _)%Z = true |- _ => apply Z.eqb_eq in H
  | H : (_ =? _)%Z = false |- _ => apply Z.eqb_neq in H
  | H : (_ =? _)%nat = true |- _ => apply Nat.eqb_eq in H
  | H : (_ =? _)%nat = false |- _ => apply Nat.eqb_neq in H
  | H : (_ <? _)%nat = true |- _ => apply Nat.ltb_lt in H
  | H : (_ <? _)%nat = false |- _ => apply Nat.ltb_ge in H
  | H : (_ <=? _)%nat = true |- _ => apply Nat.leb_le in H
  | H : (_ <=? _)%nat = false |- _ => apply Nat.leb_gt in H
  | H : String.eqb _ _ = true |- _ => apply String.eqb_eq in H
  | H : String.eqb _ _ = false |- _ => apply String.eqb_neq in H
  | H : bool_decide _ = true |- _ => apply bool_decide_eq_true_1 in H
  | H : bool_decide _ = false |- _ => apply bool_decide_eq_false_1 in H
  end.

(** Split on every [if] and [match] of a goal, keeping the equations. *)
Ltac split_ifs := repeat (case_match; simplify_eq/=).

Create HintDb agpu.
Create Rewrite HintDb agpu_rw.

Lemma string_app_nil_r (s : string) : s +:+ "" = s.
Proof. induction s as [|a s IH]; [done|]. exact (f_equal (String a) IH). Qed.

Lemma string_app_assoc (a b c : string) : a +:+ (b +:+ c) = (a +:+ b) +:+ c.
Proof. induction a as [|x a IH]; [done|]. exact (f_equal (String x) IH). Qed.

Lemma u64_range x : is_u64 (u64 x).
Proof. unfold u64. zlia. Qed.

Lemma u64_id x : is_u64 x → u64 x = x.
Proof. unfold u64, is_u64. intros. apply Z.mod_small; lia. Qed.

Lemma i64_id x : is_i64 x → i64 x = x.
Proof. unfold i64, is_i64. intros. rewrite Z.mod_small; lia. Qed.

Lemma i64_range x : is_i64 (i64 x).
Proof. unfold i64. zlia. Qed.

#[export] Hint Resolve u64_range i64_range : agpu.
#[export] Hint Rewrite u64_id i64_id using (unfold is_u64, is_i64 in *; lia) : agpu_rw.

(** Remove the wrap-arounds that do not wrap, innermost first. *)
Ltac nowrap := repeat match goal with
  | |- context [i64 ?x] => lazymatch x with
      | context [i64 _] => fail | context [u64 _] => fail
      | _ => rewrite (i64_id x) by (unfold is_i64, is_u64, is_u32 in *; lia) end
  | |- context [u64 ?x] => lazymatch x with
      | context [i64 _] => fail | context [u64 _] => fail
      | _ => rewrite (u64_id x) by (unfold is_i64, is_u64, is_u32 in *; lia) end
  end.

(** ** Lists *)

(** [s[len(s)-n:]]: the last [n] elements of a slice. *)
Definition lastn {A} (n : nat) (l : list A) : list A := drop (length l - n) l.

Lemma length_lastn {A} n (l : list A) : length (lastn n l) = min n (length l).
Proof. unfold lastn. rewrite length_drop. lia. Qed.

Lemma lastn_all {A} n (l : list A) : length l ≤ n → lastn n l = l.
Proof. intros. unfold lastn. by replace (length l - n) with 0 by lia. Qed.

Lemma lastn_suffix {A} n (l : list A) : lastn n l `suffix_of` l.
Proof. exists (take (length l - n) l). symmetry. apply take_drop. Qed.

(** Two suffixes of one list are comparable, and equal when as long. *)
Lemma suffix_eq_length {A} (l1 l2 l : list A) :
  l1 `suffix_of` l → l2 `suffix_of` l → length l1 = length l2 → l1 = l2.
Proof.
  intros [k1 ->] [k2 E] Hlen. apply app_inj_2 in E as [_ E]; [done|].
  apply (f_equal length) in E. rewrite !length_app in E. lia.
Qed.

(** Linear membership test over a [[]string], the [contains]/[hasRole] idiom of
    the sources. *)
Fixpoint str_mem (x : string) (xs : list string) : bool :=
  match xs with
  | [] => false
  | y :: ys => if String.eqb y x then true else str_mem x ys
  end.

Lemma str_mem_spec x xs : str_mem x xs = true ↔ x ∈ xs.
Proof.
  induction xs as [|y ys IH]; simpl; [set_solver|].
  destruct (String.eqb_spec y x); set_solver.
Qed.

Lemma str_mem_false x xs : str_mem x xs = false ↔ x ∉ xs.
Proof. rewrite <- str_mem_spec. destruct (str_mem x xs); naive_solver. Qed.

(** [sort.Strings]: bytewise ascending order.  Equal strings are
    indistinguishable, so every sorting algorithm gives this list. *)
Definition sort_Strings (l : list string) : list string := merge_sort String.le l.

Lemma sort_Strings_Permutation l : sort_Strings l ≡ₚ l.
Proof. apply merge_sort_Permutation. Qed.

Lemma sort_Strings_sorted l : StronglySorted String.le (sort_Strings l).
Proof. apply StronglySorted_merge_sort; apply _. Qed.

(** Sorting forgets the order of its input. *)
Lemma sort_Strings_proper l l' : l ≡ₚ l' → sort_Strings l = sort_Strings l'.
Proof.
  intros H. apply (StronglySorted_unique String.le); try apply sort_Strings_sorted.
  by rewrite !sort_Strings_Permutation.
Qed.

(** A slice of bytes. *)
Notation bytes := (list Z).

(** ** Indexing records by a key

    [for _, a := range l { m[key(a)] = a }], the way the sources build a map from
    a slice of records. *)
Section index.
Context {A : Type} (key : A → string).

Definition index_by (l : list A) (m : gmap string A) : gmap string A :=
  fold_left (λ m a, <[key a := a]> m) l m.

Lemma index_by_notin l m id : id ∉ (key <$> l) → index_by l m !! id = m !! id.
Proof.
  revert m. unfold index_by. induction l as [|k l IH]; simpl; intros m Hni; [done|].
  rewrite IH by set_solver. apply lookup_insert_ne. set_solver.
Qed.

Lemma index_by_in l m a : NoDup (key <$> l) → a ∈ l → index_by l m !! key a = Some a.
Proof.
  revert m. unfold index_by. induction l as [|x l IH]; simpl; intros m Hnd Hin; [set_solver|].
  apply NoDup_cons in Hnd as [Hx Hnd]. apply elem_of_cons in Hin as [->|Hin]; [|by apply IH].
  change (index_by l (<[key x := x]> m) !! key x = Some x).
  rewrite index_by_notin by done. apply lookup_insert_eq.
Qed.

(** Records filed under their own keys. *)
Definition filed (m : gmap string A) : Prop := ∀ id a, m !! id = Some a → key a = id.

Lemma filed_keys m : filed m → (key <$> (map_to_list m).*2) = (map_to_list m).*1.
Proof.
  intros Hk. rewrite <- list_fmap_compose. apply list_fmap_ext.
  intros i [id a] Hi. simpl. apply Hk, elem_of_map_to_list. by eapply list_elem_of_lookup_2.
Qed.

Lemma filed_NoDup m l : filed m → l ≡ₚ (map_to_list m).*2 → NoDup (key <$> l).
Proof. intros Hk ->. rewrite filed_keys by done. apply NoDup_fst_map_to_list. Qed.

(** Filing the records of a map, in any order, gives the map back. *)
Lemma index_by_values m l : filed m → l ≡ₚ (map_to_list m).*2 → index_by l ∅ = m.
Proof.
  intros Hk Hp. pose proof (filed_NoDup m l Hk Hp) as Hnd.
  apply map_eq. intros id. destruct (m !! id) as [k|] eqn:E.
  - rewrite <- (Hk _ _ E). apply index_by_in; [done|]. rewrite Hp.
    apply list_elem_of_fmap. exists (id, k). split; [done|]. by apply elem_of_map_to_list.
  - rewrite index_by_notin; [done|]. rewrite Hp, filed_keys by done.
    intros ((id' & k) & -> & Hin)%list_elem_of_fmap. apply elem_of_map_to_list in Hin.
    simpl in E. congruence.
Qed.
End index.
