(* ===== verification/Errors.v ===== *)
(** * Errors.v: Go error values

    Every package of agent-gpu signals failure with a sentinel [error] value that
    callers match with [errors.Is]; lower-level failures are wrapped with
    [fmt.Errorf("...: %w", err)] or [errors.Join].  This file models those values,
    [errors.Is]/[errors.As], and the [(value, error)] return convention as
    [result]. *)

From S2P Require Import Prelude.

(** [types.JobError]: the structured job failure carried over the wire. *)
Record JobError := mkJobError {
  JobError_Code : string;
  JobError_Message : string }.

Inductive error :=
| ErrUnauthenticated            (* auth *)
| ErrForbidden                  (* authz *)
| ErrQuotaExceeded              (* quota *)
| ErrQueueFull                  (* queue *)
| ErrClosed                     (* queue *)
| ErrNotFound                   (* store *)
| ErrSessionNotFound            (* session *)
| ErrSessionLimitExceeded       (* session *)
| ErrModelUnavailable           (* server *)
| ErrShuttingDown               (* server *)
| ErrWorkerNotFound             (* server *)
| ErrInvalidJob                 (* types *)
| CtxDone                       (* context.Canceled / DeadlineExceeded *)
| EJob (e : JobError)           (* a *types.JobError used as an error *)
| ENew (msg : string)           (* errors.New, fmt.Errorf without %w *)
| EWrap (msg : string) (e : error)  (* fmt.Errorf("msg: %w", e) *)
| EJoin (e1 e2 : error).        (* errors.Join *)

#[export] Instance JobError_eq_dec : EqDecision JobError.
Proof. solve_decision. Defined.
#[export] Instance error_eq_dec : EqDecision error.
Proof. solve_decision. Defined.

(** [errors.Is]: equality, or equality somewhere below a wrapper. *)
Fixpoint errors_Is (e target : error) : bool :=
  bool_decide (e = target) ||
  match e with
  | EWrap _ e' => errors_Is e' target
  | EJoin e1 e2 => errors_Is e1 target || errors_Is e2 target
  | _ => false
  end.

(** [errors.As(err, **types.JobError)]: the first [JobError] of the tree. *)
Fixpoint errors_As_JobError (e : error) : option JobError :=
  match e with
  | EJob j => Some j
  | EWrap _ e' => errors_As_JobError e'
  | EJoin e1 e2 =>
      match errors_As_JobError e1 with
      | Some j => Some j
      | None => errors_As_JobError e2
      end
  | _ => None
  end.

(** [types.JobError.Error]. *)
Definition JobError_Error (e : option JobError) : string :=
  match e with
  | None => ""
  | Some e =>
      if String.eqb (JobError_Code e) "" then JobError_Message e
      else JobError_Code e +:+ ": " +:+ JobError_Message e
  end.

(** [err.Error()]. *)
Fixpoint error_string (e : error) : string :=
  match e with
  | ErrUnauthenticated => "auth: unauthenticated"
  | ErrForbidden => "authz: forbidden"
  | ErrQuotaExceeded => "quota: exceeded"
  | ErrQueueFull => "queue: full"
  | ErrClosed => "queue: closed"
  | ErrNotFound => "store: not found"
  | ErrSessionNotFound => "session: not found"
  | ErrSessionLimitExceeded => "session: limit exceeded"
  | ErrModelUnavailable => "server: no worker serves the requested model"
  | ErrShuttingDown => "server: shutting down"
  | ErrWorkerNotFound => "server: worker not found"
  | ErrInvalidJob => "invalid job"
  | CtxDone => "context canceled"
  | EJob j => JobError_Error (Some j)
  | ENew msg => msg
  | EWrap msg e' => msg +:+ ": " +:+ error_string e'
  | EJoin e1 e2 => error_string e1 +:+ String (Ascii.ascii_of_nat 10) (error_string e2)
  end.

Lemma errors_Is_refl e : errors_Is e e = true.
Proof.
  assert (bool_decide (e = e) = true) as H by by apply bool_decide_eq_true_2.
  destruct e; cbn [errors_Is]; by rewrite H.
Qed.

Lemma errors_Is_wrap msg e t : errors_Is e t = true → errors_Is (EWrap msg e) t = true.
Proof. intros H. cbn [errors_Is]. rewrite H. apply orb_true_r. Qed.

(** The [(value, error)] convention. *)
Inductive result (A : Type) :=
| Ok (a : A)
| Err (e : error).
Arguments Ok {_} _.
Arguments Err {_} _.

Definition is_Ok {A} (r : result A) : bool :=
  match r with Ok _ => true | Err _ => false end.

Notation "x ← c ;ₑ k" := (match c with Ok x => k | Err e => Err e end)
  (at level 20, c at level 100, k at level 200) : go_scope.

#[export] Hint Resolve errors_Is_refl errors_Is_wrap : agpu.
