(* ===== verification/AtomicFile.v ===== *)
(** * AtomicFile.v: the checkpoint files of the stores

    Five packages (quota, session, audit, usage and the runtime configuration)
    persist a value with the same sequence of calls: marshal to JSON, create the
    directory, write a temporary file beside the target, and rename it over the
    target; and they read it back with the same treatment of a missing or empty
    file.  They differ in the prefix of their error messages, here [pkg].

    encoding/json is the pair [marshal]/[unmarshal]; the outcome of each system
    call is an argument; the content of the target is an [option bytes]. *)

From S2P Require Import Prelude Errors.

Record checkpointIO := mkCheckpointIO {
  cio_mkdir : option error; cio_temp : option error; cio_chmod : option error;
  cio_write : option error; cio_close : option error; cio_rename : option error }.
Definition cio_good : checkpointIO := mkCheckpointIO None None None None None None.

Section json.
Context {V : Type} (pkg path : string).
Context (marshal : V → result bytes) (unmarshal : bytes → result V).

(** From the marshalling on; the temporary file is removed on every error. *)
Definition write_json (io : checkpointIO) (v : V) (disk : option bytes) : option bytes * option error :=
  match marshal v with
  | Err e => (disk, Some (EWrap (pkg +:+ ": marshal checkpoint") e))
  | Ok data =>
  match cio_mkdir io with
  | Some e => (disk, Some (EWrap (pkg +:+ ": create checkpoint dir") e))
  | None =>
  match cio_temp io with
  | Some e => (disk, Some (EWrap (pkg +:+ ": temp file") e))
  | None =>
  match cio_chmod io with
  | Some e => (disk, Some (EWrap (pkg +:+ ": chmod temp") e))
  | None =>
  match cio_write io with
  | Some e => (disk, Some (EWrap (pkg +:+ ": write temp") e))
  | None =>
  match cio_close io with
  | Some e => (disk, Some (EWrap (pkg +:+ ": close temp") e))
  | None =>
  match cio_rename io with
  | Some e => (disk, Some (EWrap (pkg +:+ ": rename checkpoint") e))
  | None => (Some data, None)
  end end end end end end end.

(** [Ok None] for a missing ([disk = None]) or empty file. *)
Definition read_json (readErr : option error) (disk : option bytes) : result (option V) :=
  match readErr with
  | Some e => Err (EWrap (pkg +:+ ": read checkpoint " +:+ path) e)
  | None =>
      match disk with
      | None => Ok None
      | Some data =>
          if (length data =? 0)%nat then Ok None
          else match unmarshal data with
               | Err e => Err (EWrap (pkg +:+ ": parse checkpoint " +:+ path) e)
               | Ok v => Ok (Some v)
               end
      end
  end.

(** What the stores rely on of encoding/json for their values. *)
Definition json_roundtrip : Prop :=
  ∀ v data, marshal v = Ok data → data ≠ [] ∧ unmarshal data = Ok v.

(** A failed write leaves the file, a successful one replaces it whole. *)
Lemma write_json_disk io v disk disk' e :
  write_json io v disk = (disk', e) →
  match e with
  | Some _ => disk' = disk
  | None => ∃ data, marshal v = Ok data ∧ disk' = Some data
  end.
Proof.
  unfold write_json. destruct (marshal v) as [data|] eqn:Em; [|by intros [= <- <-]].
  destruct io as [[] [] [] [] [] []]; intros [= <- <-]; eauto.
Qed.

Lemma read_json_data data v : data ≠ [] → unmarshal data = Ok v → read_json None (Some data) = Ok (Some v).
Proof. intros Hne Hu. destruct data; [done|]. simpl. by rewrite Hu. Qed.

(** So what was written is read back. *)
Lemma write_json_read io v disk disk' e :
  json_roundtrip → write_json io v disk = (disk', e) →
  match e with
  | Some _ => disk' = disk
  | None => read_json None disk' = Ok (Some v)
  end.
Proof.
  intros Hj Hw. apply write_json_disk in Hw. destruct e; [done|]. destruct Hw as (data & Hm & ->).
  destruct (Hj _ _ Hm). by apply read_json_data.
Qed.
End json.
