(* ===== verification/GoTime.v ===== *)
(** * GoTime.v: the parts of Go's [time] package the sources use

    A [Time] is an instant, in nanoseconds since Go's zero time
    0001-01-01T00:00:00Z (so [IsZero] is [= 0]); a [Duration] is an [int64] of
    nanoseconds.  Locations do not change the instant, so [UTC] is the identity
    here.  The civil calendar ([Year]/[Month]/[Day], [Date], [AddDate]) is the
    proleptic Gregorian calendar, computed with day numbers counted from
    0001-01-01. *)

From S2P Require Import Prelude.
Open Scope Z_scope.

Definition Time := Z.
Definition Duration := Z.

Definition Nanosecond : Duration := 1.
Definition Microsecond : Duration := 1000.
Definition Millisecond : Duration := 1000000.
Definition Second : Duration := 1000000000.
Definition Minute : Duration := 60 * Second.
Definition Hour : Duration := 60 * Minute.
Definition DayNs : Duration := 24 * Hour.

Definition UTC (t : Time) : Time := t.
Definition IsZero (t : Time) : bool := t =? 0.
Definition Equal (t u : Time) : bool := t =? u.
Definition Before (t u : Time) : bool := t <? u.
Definition After (t u : Time) : bool := u <? t.
Definition Add (t : Time) (d : Duration) : Time := t + d.

(** [t.Sub(u)] saturates at the [int64] range. *)
Definition Sub (t u : Time) : Duration := Z.max minInt64 (Z.min maxInt64 (t - u)).

(** [t.Truncate(d)] rounds down to a multiple of [d] since the zero time. *)
Definition Truncate (t : Time) (d : Duration) : Time :=
  if d <=? 0 then t else t - t mod d.

(** [d.Milliseconds()]: integer division truncated toward zero. *)
Definition Milliseconds (d : Duration) : Z := Z.quot d Millisecond.

(** [t.Unix()] and [time.Unix(n, 0)]: seconds since 1970-01-01; the instant is
    kept as an [int64] of seconds since the zero time, which wraps. *)
Definition unixToInternal : Z := 62135596800.
Definition Time_Unix (t : Time) : Z := i64 (t / Second - unixToInternal).
Definition Unix (n : Z) : Time := i64 (n + unixToInternal) * Second.

(** ** The civil calendar *)

(** Days before the March-based year [y] of an era. *)
Definition ydays (y : Z) : Z := 365 * y + y / 4 - y / 100.

(** Day number (0001-01-01 is day 0) of year [y], month [m] in 1..12, day [d]. *)
Definition days_from_civil (y m d : Z) : Z :=
  let y' := if m <=? 2 then y - 1 else y in
  let era := y' / 400 in
  let yoe := y' mod 400 in
  let mp := if m <=? 2 then m + 9 else m - 3 in
  let doy := (153 * mp + 2) / 5 + d - 1 in
  era * 146097 + ydays yoe + doy - 306.

(** Year, month and day of a day number. *)
Definition civil_from_days (n : Z) : Z * Z * Z :=
  let z := n + 306 in
  let era := z / 146097 in
  let doe := z mod 146097 in
  let yoe := (doe - doe / 1460 + doe / 36524 - doe / 146096) / 365 in
  let doy := doe - ydays yoe in
  let mp := (5 * doy + 2) / 153 in
  let d := doy - (153 * mp + 2) / 5 + 1 in
  let m := if mp <? 10 then mp + 3 else mp - 9 in
  let y := yoe + era * 400 + (if m <=? 2 then 1 else 0) in
  (y, m, d).

Definition day_number (t : Time) : Z := t / DayNs.
Definition Year (t : Time) : Z := (civil_from_days (day_number t)).1.1.
Definition Month (t : Time) : Z := (civil_from_days (day_number t)).1.2.
Definition Day (t : Time) : Z := (civil_from_days (day_number t)).2.

(** [time.Date(y, m, d, 0, 0, 0, 0, time.UTC)], with Go's normalization of an
    out-of-range month. *)
Definition Date (y m d : Z) : Time :=
  days_from_civil (y + (m - 1) / 12) ((m - 1) mod 12 + 1) d * DayNs.

(** [t.AddDate(y, m, d)]: the civil date moves, the time of day stays. *)
Definition AddDate (t : Time) (y m d : Z) : Time :=
  Date (Year t + y) (Month t + m) (Day t + d) + t mod DayNs.

Example date_unix_epoch : Date 1970 1 1 = 62135596800 * Second.
Proof. reflexivity. Qed.
Example civil_leap : civil_from_days (days_from_civil 2024 2 29) = (2024, 2, 29).
Proof. reflexivity. Qed.
Example civil_year_end : civil_from_days (days_from_civil 2023 12 31 + 1) = (2024, 1, 1).
Proof. reflexivity. Qed.

(** *** Correctness of the calendar *)

Definition yoe_of (doe : Z) : Z := (doe - doe / 1460 + doe / 36524 - doe / 146096) / 365.

Lemma yoe_of_range doe : 0 <= doe < 146097 → 0 <= yoe_of doe <= 399.
Proof. unfold yoe_of. intros. zlia. Qed.

Lemma yoe_of_lower doe : 0 <= doe < 146097 → ydays (yoe_of doe) <= doe.
Proof. unfold yoe_of, ydays. intros. zlia. Qed.

Lemma yoe_of_upper doe :
  0 <= doe < 146097 → doe < ydays (yoe_of doe + 1) ∨ yoe_of doe = 399.
Proof. unfold yoe_of, ydays. intros. zlia. Qed.

(** A day number as the March-based decomposition the conversions share. *)
Record march := March { m_era : Z; m_yoe : Z; m_mp : Z; m_dom : Z }.

Definition march_of (n : Z) : march :=
  let doe := (n + 306) mod 146097 in
  let doy := doe - ydays (yoe_of doe) in
  let mp := (5 * doy + 2) / 153 in
  March ((n + 306) / 146097) (yoe_of doe) mp (doy - (153 * mp + 2) / 5).

(** The day number of the first day of the month of [r]. *)
Definition march_month (r : march) : Z :=
  m_era r * 146097 + ydays (m_yoe r) + (153 * m_mp r + 2) / 5 - 306.

Record march_ok (r : march) : Prop := {
  mok_yoe : 0 <= m_yoe r <= 399;
  mok_mp : 0 <= m_mp r <= 11;
  mok_dom : 0 <= m_dom r <= 30 }.

Lemma doy_range doe :
  0 <= doe < 146097 → 0 <= doe - ydays (yoe_of doe) <= 365.
Proof.
  intros H. pose proof (yoe_of_lower doe H). pose proof (yoe_of_upper doe H).
  pose proof (yoe_of_range doe H). unfold ydays in *.
  destruct H1 as [H1|H1]; [zlia|rewrite H1 in *; zlia].
Qed.

Lemma march_of_ok n : march_ok (march_of n).
Proof.
  pose proof (Z.mod_pos_bound (n + 306) 146097 ltac:(lia)) as Hd.
  pose proof (doy_range _ Hd). pose proof (yoe_of_range _ Hd).
  split; simpl; try lia; zlia.
Qed.

Lemma march_of_day n : march_month (march_of n) + m_dom (march_of n) = n.
Proof. unfold march_month, march_of; simpl. zlia. Qed.

(** The civil fields are the March fields, renumbered. *)
Definition civil_of_march (r : march) : Z * Z * Z :=
  (m_yoe r + m_era r * 400 + (if (if m_mp r <? 10 then m_mp r + 3 else m_mp r - 9) <=? 2 then 1 else 0),
   (if m_mp r <? 10 then m_mp r + 3 else m_mp r - 9),
   m_dom r + 1).

Lemma civil_march n : civil_from_days n = civil_of_march (march_of n).
Proof. reflexivity. Qed.

Lemma days_from_march r d :
  march_ok r →
  let '(y, m, _) := civil_of_march r in
  days_from_civil y m d = march_month r + (d - 1).
Proof.
  intros [Hy Hm Hd]. unfold civil_of_march, days_from_civil, march_month.
  destruct (Z.ltb_spec (m_mp r) 10).
  - destruct (Z.leb_spec (m_mp r + 3) 2); [lia|].
    replace (m_yoe r + m_era r * 400 + 0) with (m_yoe r + m_era r * 400) by lia.
    rewrite Z.div_add, Z.mod_add, Z.div_small, Z.mod_small by lia.
    replace (m_mp r + 3 - 3) with (m_mp r) by lia. lia.
  - destruct (Z.leb_spec (m_mp r - 9) 2); [|lia].
    replace (m_yoe r + m_era r * 400 + 1 - 1) with (m_yoe r + m_era r * 400) by lia.
    rewrite Z.div_add, Z.mod_add, Z.div_small, Z.mod_small by lia.
    replace (m_mp r - 9 + 9) with (m_mp r) by lia. lia.
Qed.

(** Civil date and day number are inverse on every day. *)
Lemma days_civil_roundtrip n :
  let '(y, m, d) := civil_from_days n in days_from_civil y m d = n.
Proof.
  pose proof (days_from_march (march_of n) (m_dom (march_of n) + 1) (march_of_ok n)) as H.
  rewrite civil_march. pose proof (march_of_day n) as E.
  unfold civil_of_march in *. rewrite H. lia.
Qed.

(** *** Months

    Months are numbered consecutively, [12 * year + month - 1]. *)
Definition month_start (i : Z) : Z := days_from_civil (i / 12) (i mod 12 + 1) 1.
Definition month_index (n : Z) : Z :=
  12 * (civil_from_days n).1.1 + (civil_from_days n).1.2 - 1.

Lemma civil_month_range n : 1 <= (civil_from_days n).1.2 <= 12.
Proof.
  rewrite civil_march. destruct (march_of_ok n) as [_ Hm _].
  unfold civil_of_march; cbn [fst snd]. destruct (Z.ltb_spec (m_mp (march_of n)) 10); lia.
Qed.

Lemma month_start_index y m : 1 <= m <= 12 →
  month_start (12 * y + m - 1) = days_from_civil y m 1.
Proof.
  intros Hm. unfold month_start.
  replace (12 * y + m - 1) with (m - 1 + y * 12) by lia.
  rewrite Z.div_add, Z.mod_add, Z.div_small, Z.mod_small by lia.
  do 2 f_equal; lia.
Qed.

Lemma month_start_succ i : 28 <= month_start (i + 1) - month_start i <= 31.
Proof.
  unfold month_start, days_from_civil, ydays.
  destruct (Z.leb_spec (i mod 12 + 1) 2), (Z.leb_spec ((i + 1) mod 12 + 1) 2); zlia.
Qed.

Lemma month_start_mono i j : i <= j → month_start i <= month_start j.
Proof.
  intros H. replace j with (i + Z.of_nat (Z.to_nat (j - i))) by lia.
  generalize (Z.to_nat (j - i)) as k. clear. induction k as [|k IH].
  - by rewrite Z.add_0_r.
  - pose proof (month_start_succ (i + Z.of_nat k)).
    replace (i + Z.of_nat (S k)) with (i + Z.of_nat k + 1) by lia. lia.
Qed.

Lemma month_start_of_day n : month_start (month_index n) = march_month (march_of n).
Proof.
  unfold month_index. rewrite month_start_index by apply civil_month_range.
  pose proof (days_from_march (march_of n) 1 (march_of_ok n)) as H.
  rewrite civil_march. unfold civil_of_march in *. cbn [fst snd]. rewrite H. lia.
Qed.

(** Every day lies in its month. *)
Lemma month_index_spec n :
  month_start (month_index n) <= n < month_start (month_index n + 1).
Proof.
  rewrite month_start_of_day. destruct (march_of_ok n) as [Hy Hm Hd].
  pose proof (march_of_day n) as E. split; [lia|].
  unfold month_index. rewrite civil_march. unfold civil_of_march; cbn [fst snd].
  pose proof (Z.mod_pos_bound (n + 306) 146097 ltac:(lia)) as Hdoe.
  pose proof (yoe_of_upper _ Hdoe) as Hup. pose proof (yoe_of_range _ Hdoe) as Hr.
  set (r := march_of n) in *.
  assert (m_yoe r = yoe_of ((n + 306) mod 146097)) as Eyoe by done.
  assert (m_era r = (n + 306) / 146097) as Eera by done.
  assert (m_mp r = (5 * ((n + 306) mod 146097 - ydays (m_yoe r)) + 2) / 153) as Emp by done.
  clearbody r. set (doe := (n + 306) mod 146097) in *.
  assert (n + 306 = m_era r * 146097 + doe) as En by (subst doe; zlia).
  rewrite <- Eyoe in *. clearbody doe. clear Eyoe E Eera.
  destruct (Z.ltb_spec (m_mp r) 10).
  - destruct (Z.leb_spec (m_mp r + 3) 2); [lia|].
    destruct (decide (m_mp r = 9)) as [E9|].
    + replace (12 * _ + _ - 1 + 1) with (12 * (m_yoe r + m_era r * 400 + 1) + 1 - 1) by lia.
      rewrite month_start_index by lia. unfold days_from_civil; simpl.
      replace (m_yoe r + m_era r * 400 + 1 - 1) with (m_yoe r + m_era r * 400) by lia.
      rewrite Z.div_add, Z.mod_add, Z.div_small, Z.mod_small by lia. zlia.
    + replace (12 * _ + _ - 1 + 1) with (12 * (m_yoe r + m_era r * 400) + (m_mp r + 4) - 1) by lia.
      rewrite month_start_index by lia. unfold days_from_civil.
      destruct (Z.leb_spec (m_mp r + 4) 2); [lia|].
      rewrite Z.div_add, Z.mod_add, Z.div_small, Z.mod_small by lia.
      replace (m_mp r + 4 - 3) with (m_mp r + 1) by lia. zlia.
  - destruct (Z.leb_spec (m_mp r - 9) 2); [|lia].
    destruct (decide (m_mp r = 10)) as [E10|].
    + replace (12 * _ + _ - 1 + 1) with (12 * (m_yoe r + m_era r * 400 + 1) + 2 - 1) by lia.
      rewrite month_start_index by lia. unfold days_from_civil; simpl.
      replace (m_yoe r + m_era r * 400 + 1 - 1) with (m_yoe r + m_era r * 400) by lia.
      rewrite Z.div_add, Z.mod_add, Z.div_small, Z.mod_small by lia. zlia.
    + assert (m_mp r = 11) by lia.
      replace (12 * _ + _ - 1 + 1) with (12 * (m_yoe r + m_era r * 400 + 1) + 3 - 1) by lia.
      rewrite month_start_index by lia. unfold days_from_civil; simpl.
      unfold ydays in *. zlia.
Qed.

(** The month of a day is the only one whose span contains it. *)
Lemma month_index_unique n i :
  month_start i <= n < month_start (i + 1) → month_index n = i.
Proof.
  intros H. pose proof (month_index_spec n).
  destruct (Z.lt_trichotomy (month_index n) i) as [Hlt|[?|Hgt]]; [|done|].
  - pose proof (month_start_mono (month_index n + 1) i). lia.
  - pose proof (month_start_mono (i + 1) (month_index n)). lia.
Qed.
