(* ===== verification/GoFloat.v ===== *)
(** * GoFloat.v: the float64 arithmetic of the sources

    The code computes with non-negative finite float64 values of moderate size:
    seconds of a duration, tokens per day.  A value is kept as a dyadic rational
    [m * 2^-k]; an operation is the exact rational operation rounded to 53
    significant bits, to nearest with ties to even, and to multiples of 2^-1074
    near zero.  The largest magnitudes that occur (2^64 times 86400) are far from
    the overflow threshold, so infinities do not arise. *)

From S2P Require Import Prelude GoTime.
Open Scope Z_scope.

Record float := F { f_m : Z; f_k : Z }.

(** Numerator and denominator of [m * 2^-k]. *)
Definition f_num (x : float) : Z := if 0 <=? f_k x then f_m x else f_m x * 2 ^ (- f_k x).
Definition f_den (x : float) : Z := if 0 <=? f_k x then 2 ^ f_k x else 1.

(** [floor (log2 (n / d))] for positive [n] and [d]. *)
Definition ilog (n d : Z) : Z :=
  let e := Z.log2 n - Z.log2 d in
  if (if 0 <=? e then n <? d * 2 ^ e else n * 2 ^ (- e) <? d) then e - 1 else e.

(** [n / d] rounded to an integer, ties to even. *)
Definition rne (n d : Z) : Z :=
  let q := n / d in let r := n mod d in
  if 2 * r <? d then q else if d <? 2 * r then q + 1 else if Z.even q then q else q + 1.

Definition round64 (n d : Z) : float :=
  if n <=? 0 then F 0 0
  else
    let k := Z.min 1074 (52 - ilog n d) in
    if 0 <=? k then F (rne (n * 2 ^ k) d) k else F (rne n (d * 2 ^ (- k))) k.

Definition float64 (n : Z) : float := round64 n 1.
Definition fadd (x y : float) : float :=
  round64 (f_num x * f_den y + f_num y * f_den x) (f_den x * f_den y).
Definition fmul (x y : float) : float := round64 (f_num x * f_num y) (f_den x * f_den y).
Definition fdiv (x y : float) : float := round64 (f_num x * f_den y) (f_den x * f_num y).
Definition flt (x y : float) : bool := f_num x * f_den y <? f_num y * f_den x.
(** [math.Ceil] followed by [int], and [int64] of a value in range. *)
Definition fceil (x : float) : Z := - (- f_num x / f_den x).
Definition ftrunc (x : float) : Z := f_num x / f_den x.

(** [d.Seconds()] and [d.Hours()] of a duration that is not negative. *)
Definition Seconds (d : Duration) : float :=
  fadd (float64 (d / Second)) (fdiv (float64 (d mod Second)) (float64 Second)).
Definition Hours (d : Duration) : float :=
  fadd (float64 (d / Hour)) (fdiv (float64 (d mod Hour)) (float64 Hour)).

Example seconds_1 : Seconds 1500000000 = F (3 * 2 ^ 51) 52.
Proof. vm_compute. reflexivity. Qed.

(** ** Rounding error *)

Lemma rne_err n d : 0 < d → 2 * Z.abs (rne n d * d - n) <= d.
Proof.
  intros Hd. unfold rne. pose proof (Z.div_mod n d). pose proof (Z.mod_pos_bound n d).
  repeat case_match; zbool; nia.
Qed.

Lemma ilog_lower n d : 0 < n → 0 < d →
  let e := ilog n d in (0 <= e → d * 2 ^ e <= n) ∧ (e < 0 → d <= n * 2 ^ (- e)).
Proof.
  intros Hn Hd. unfold ilog. set (e := Z.log2 n - Z.log2 d).
  pose proof (Z.log2_spec n Hn) as [Hn1 Hn2]. pose proof (Z.log2_spec d Hd) as [Hd1 Hd2].
  pose proof (Z.log2_nonneg n). pose proof (Z.log2_nonneg d).
  assert (0 <= e - 1 → d * 2 ^ (e - 1) <= n) as Hlow.
  { intros He. replace (Z.log2 n) with (Z.succ (Z.log2 d) + (e - 1)) in Hn1 by lia.
    rewrite Z.pow_add_r in Hn1 by lia. pose proof (Z.pow_pos_nonneg 2 (e - 1)). nia. }
  assert (e - 1 < 0 → d <= n * 2 ^ (- (e - 1))) as Hneg.
  { intros He. apply Z.lt_le_incl. eapply Z.lt_le_trans; [exact Hd2|].
    replace (Z.succ (Z.log2 d)) with (Z.log2 n + - (e - 1)) by lia.
    rewrite Z.pow_add_r by lia. pose proof (Z.pow_pos_nonneg 2 (- (e - 1))). nia. }
  destruct (Z.leb_spec 0 e).
  - destruct (Z.ltb_spec n (d * 2 ^ e)); cbv zeta; [done|]. split; [done|lia].
  - destruct (Z.ltb_spec (n * 2 ^ (- e)) d); cbv zeta; [done|]. split; [lia|done].
Qed.

(** A value below [2^s] has an exponent below [s]. *)
Lemma ilog_upper n d s : 0 < n → 0 < d → 0 <= s → n < d * 2 ^ s → ilog n d < s.
Proof.
  intros Hn Hd Hs Hlt. destruct (ilog_lower n d Hn Hd) as [Hl _].
  destruct (Z.lt_ge_cases (ilog n d) s) as [|Hge]; [done|].
  specialize (Hl ltac:(lia)). pose proof (Z.pow_le_mono_r 2 s (ilog n d)). nia.
Qed.

(** Below [2^s] the rounding error is at most half a unit in the last place:
    a scale of at least [53 - s] binary places, off by at most half a unit. *)
Lemma round64_close n d s :
  0 < n → 0 < d → 0 <= s <= 52 → n < d * 2 ^ s →
  let x := round64 n d in
  53 - s <= f_k x ∧ f_num x = f_m x ∧ f_den x = 2 ^ f_k x ∧
  2 * Z.abs (f_num x * d - n * f_den x) <= d.
Proof.
  intros Hn Hd Hs Hlt. unfold round64. destruct (Z.leb_spec n 0); [lia|]. cbv zeta.
  pose proof (ilog_upper n d s Hn Hd ltac:(lia) Hlt).
  set (k := Z.min 1074 (52 - ilog n d)). assert (53 - s <= k) as Hk by lia.
  destruct (Z.leb_spec 0 k); [|lia]. unfold f_num, f_den. simpl.
  destruct (Z.leb_spec 0 k); [|lia]. split_and!; [done..|]. by apply rne_err.
Qed.

(** ** Exact cases *)

Lemma float64_exact n : 0 <= n < 2 ^ 52 → f_num (float64 n) = n * f_den (float64 n) ∧ 0 < f_den (float64 n).
Proof.
  intros Hn. destruct (Z.eq_dec n 0) as [->|Hne]; [done|]. unfold float64.
  destruct (round64_close n 1 52) as (Hk & Hm & Hd & He); [lia..|].
  split; [lia|]. rewrite Hd. apply Z.pow_pos_nonneg; lia.
Qed.

(** A rational that is an integer below [2^52] is not rounded. *)
Lemma round64_int n d N : 0 <= N < 2 ^ 52 → 0 < d → n = N * d →
  f_num (round64 n d) = N * f_den (round64 n d) ∧ 0 < f_den (round64 n d).
Proof.
  intros HN Hd ->. destruct (Z.eq_dec N 0) as [->|Hne]; [done|].
  destruct (round64_close (N * d) d 52) as (Hk & Hm & Hden & He); [nia..|].
  assert (0 < f_den (round64 (N * d) d)) by (rewrite Hden; apply Z.pow_pos_nonneg; lia).
  split; [|done]. set (x := round64 (N * d) d) in *.
  assert (2 * Z.abs (f_num x - N * f_den x) * d <= d) by (rewrite <- He at 2; nia). nia.
Qed.

Lemma fceil_between x N : 0 < f_den x → N * f_den x < f_num x <= (N + 1) * f_den x → fceil x = N + 1.
Proof.
  intros Hd Hn. unfold fceil. assert (- f_num x / f_den x = - (N + 1)) as ->; [|lia].
  symmetry. apply (Z.div_unique _ _ _ ((N + 1) * f_den x - f_num x)); lia.
Qed.

Lemma fceil_int x N : 0 < f_den x → f_num x = N * f_den x → fceil x = N.
Proof. intros Hd Hn. replace N with (N - 1 + 1) by lia. apply fceil_between; lia. Qed.

(** The fraction of a second, as the quotient is rounded. *)
Lemma fraction_close r :
  0 < r < Second → let x := fdiv (float64 r) (float64 Second) in
  0 < f_num x <= f_den x ∧ 2 ^ 53 <= f_den x ∧ 2 * f_den x - Second <= 2 * Second * f_num x.
Proof.
  intros Hr. unfold fdiv. unfold Second in *.
  destruct (float64_exact r ltac:(lia)) as [Ea Ha].
  destruct (float64_exact 1000000000 ltac:(lia)) as [Eb Hb].
  rewrite Ea, Eb. set (a := f_den (float64 r)) in *. set (b := f_den (float64 1000000000)) in *.
  destruct (round64_close (r * a * b) (a * (1000000000 * b)) 0) as (Hk & Hm & Hd & He); [nia..|].
  set (x := round64 _ _) in *.
  assert (2 * Z.abs (f_num x * 1000000000 - r * f_den x) <= 1000000000) as He'.
  { assert (0 < a * b) by nia.
    replace (f_num x * (a * (1000000000 * b)) - r * a * b * f_den x)
      with ((f_num x * 1000000000 - r * f_den x) * (a * b)) in He by lia.
    rewrite Z.abs_mul, (Z.abs_eq (a * b)) in He by lia. nia. }
  assert (2 ^ 53 <= f_den x) by (rewrite Hd; apply Z.pow_le_mono_r; lia).
  split_and!; nia.
Qed.

(** The number of whole seconds to wait: below about 97 days [math.Ceil] of the
    float is the exact ceiling. *)
Lemma Seconds_ceil d : 0 < d < (2 ^ 23 - 1) * Second → fceil (Seconds d) = (d + Second - 1) / Second.
Proof.
  intros Hd. unfold Seconds. pose proof (Z.div_mod d Second) as Hdm. pose proof (Z.mod_pos_bound d Second).
  set (N := d / Second) in *. set (r := d mod Second) in *.
  assert (0 <= N < 2 ^ 23 - 1) as HN by (unfold Second in *; nia).
  destruct (float64_exact N ltac:(lia)) as [Ea Ha].
  unfold fadd. rewrite Ea. set (a := f_den (float64 N)) in *.
  destruct (Z.eq_dec r 0) as [Er|Hr].
  - rewrite Er in *. change (fdiv (float64 0) (float64 Second)) with (F 0 0).
    change (f_den (F 0 0)) with 1. change (f_num (F 0 0)) with 0.
    destruct (round64_int (N * a * 1 + 0 * a) (a * 1) N) as [E1 E2]; [lia..|].
    rewrite (fceil_int _ N) by done. unfold Second in *. zlia.
  - destruct (fraction_close r) as (Hx1 & Hx2 & Hx3); [unfold Second in *; lia|].
    set (x := fdiv _ _) in *. set (g := f_den x) in *. set (m := f_num x) in *.
    destruct (round64_close (N * a * g + m * a) (a * g) 23) as (Hk & Hm & Hden & He); [nia..|].
    set (y := round64 _ _) in *.
    assert (2 ^ 30 <= f_den y) as Hg by (rewrite Hden; apply Z.pow_le_mono_r; lia).
    assert (2 * Z.abs (f_num y * g - (N * g + m) * f_den y) <= g) as He'.
    { replace (f_num y * (a * g) - (N * a * g + m * a) * f_den y)
        with ((f_num y * g - (N * g + m) * f_den y) * a) in He by lia.
      rewrite Z.abs_mul, (Z.abs_eq a) in He by lia. nia. }
    rewrite (fceil_between _ N).
    + unfold Second in *. zlia.
    + lia.
    + assert (Second * g < 2 * Second * m * f_den y).
      { eapply Z.lt_le_trans; [|apply Z.mul_le_mono_nonneg_r; [lia|exact Hx3]].
        unfold Second in *. nia. }
      unfold Second in *. split; nia.
Qed.

(** ** Rounding does not pass a representable bound *)

Lemma rne_le n d q : 0 < d → n <= q * d → rne n d <= q.
Proof.
  intros Hd Hn. unfold rne. pose proof (Z.div_mod n d). pose proof (Z.mod_pos_bound n d).
  repeat case_match; zbool; nia.
Qed.

Lemma rne_nonneg n d : 0 <= n → 0 < d → 0 <= rne n d.
Proof.
  intros Hn Hd. unfold rne. pose proof (Z.div_pos n d). repeat case_match; lia.
Qed.

Lemma f_den_pos x : 0 < f_den x.
Proof. unfold f_den. case_match; zbool; [apply Z.pow_pos_nonneg; lia|lia]. Qed.

Lemma round64_nonneg n d : 0 < d → 0 <= f_num (round64 n d).
Proof.
  intros Hd. unfold round64. destruct (Z.leb_spec n 0); [done|].
  set (k := Z.min _ _). destruct (Z.leb_spec 0 k); unfold f_num; simpl.
  - destruct (Z.leb_spec 0 k); [|lia]. apply rne_nonneg; [|done]. pose proof (Z.pow_nonneg 2 k). nia.
  - destruct (Z.leb_spec 0 k); [lia|]. pose proof (Z.pow_pos_nonneg 2 (- k)).
    pose proof (rne_nonneg n (d * 2 ^ (- k))). nia.
Qed.

(** A quotient at most [R], a multiple of 8 below [2^55], rounds to at most [R]. *)
Lemma round64_le n d R :
  0 < d → n <= R * d → 0 <= R < 2 ^ 55 → R mod 8 = 0 → f_num (round64 n d) <= R * f_den (round64 n d).
Proof.
  intros Hd Hn HR H8. unfold round64. destruct (Z.leb_spec n 0) as [|Hpos]; [change (0 <= R * 1); lia|].
  assert (ilog n d < 55) as Hl by (apply ilog_upper; nia).
  set (k := Z.min 1074 (52 - ilog n d)). assert (-2 <= k) as Hk by lia.
  destruct (Z.leb_spec 0 k); unfold f_num, f_den; simpl.
  - destruct (Z.leb_spec 0 k); [|lia]. apply rne_le; [done|]. pose proof (Z.pow_nonneg 2 k). nia.
  - destruct (Z.leb_spec 0 k); [lia|]. set (p := 2 ^ (- k)). assert (p = 2 ∨ p = 4) as Hp.
    { assert (k = -1 ∨ k = -2) as [->| ->] by lia; [left|right]; done. }
    clearbody p. assert (R / p * p = R) as E by (clear -H8 Hp; destruct Hp; subst p; zlia).
    assert (rne n (d * p) <= R / p) as Hr by (apply rne_le; [destruct Hp; nia|nia]).
    destruct Hp; nia.
Qed.

(** The same for any integer below [2^52]. *)
Lemma round64_le_int n d R :
  0 < d → n <= R * d → 0 <= R < 2 ^ 52 → f_num (round64 n d) <= R * f_den (round64 n d).
Proof.
  intros Hd Hn HR. unfold round64. destruct (Z.leb_spec n 0) as [|Hpos]; [change (0 <= R * 1); lia|].
  assert (ilog n d < 52) as Hl by (apply ilog_upper; nia).
  set (k := Z.min 1074 (52 - ilog n d)). assert (0 < k) as Hk by lia.
  destruct (Z.leb_spec 0 k); [|lia]. unfold f_num, f_den; simpl. destruct (Z.leb_spec 0 k); [|lia].
  apply rne_le; [done|]. pose proof (Z.pow_nonneg 2 k). nia.
Qed.

Lemma ftrunc_range x R : 0 <= f_num x <= R * f_den x → 0 <= ftrunc x <= R.
Proof.
  intros [H0 H1]. unfold ftrunc. pose proof (f_den_pos x). split; [by apply Z.div_pos|].
  apply Z.div_le_upper_bound; lia.
Qed.
