(* ===== verification/GoStrings.v ===== *)
(** * GoStrings.v: strings and bytes as the sources use them

    A Go string is a sequence of bytes, here Rocq's [string] of 8-bit characters.
    [len] is the number of bytes; encoding/hex, and the parts of package strings
    the components call. *)

From Stdlib Require Import Ascii.
From S2P Require Import Prelude.
Open Scope Z_scope.

Definition len (s : string) : Z := Z.of_nat (String.length s).

(** [[]byte(s)]. *)
Fixpoint bytes_of_string (s : string) : bytes :=
  match s with
  | EmptyString => []
  | String a s => Z.of_N (Ascii.N_of_ascii a) :: bytes_of_string s
  end.

(** [hex.EncodeToString]. *)
Definition hex_digit (x : Z) : Ascii.ascii :=
  match String.get (Z.to_nat x) "0123456789abcdef" with Some c => c | None => "0"%char end.
Fixpoint hex_EncodeToString (b : bytes) : string :=
  match b with
  | [] => EmptyString
  | x :: b => String (hex_digit (Z.shiftr x 4)) (String (hex_digit (Z.land x 15)) (hex_EncodeToString b))
  end.

(** [strings.Cut] on a one-byte separator, and [strings.SplitN]. *)
Fixpoint cut (sep : Ascii.ascii) (s : string) : option (string * string) :=
  match s with
  | EmptyString => None
  | String a s' =>
      if Ascii.eqb a sep then Some (EmptyString, s')
      else match cut sep s' with
           | Some (x, y) => Some (String a x, y)
           | None => None
           end
  end.
Fixpoint SplitN (s : string) (sep : Ascii.ascii) (n : nat) : list string :=
  match n with
  | O => []
  | S O => [s]
  | S n => match cut sep s with
           | None => [s]
           | Some (x, y) => x :: SplitN y sep n
           end
  end.

(** *** strings.Fields

    The number of bytes of the white-space rune (unicode.IsSpace) a byte string
    starts with, 0 when it starts with another rune.  Every white-space rune has
    a lead byte that is not a continuation byte, so scanning bytes and scanning
    runes find the same ones, in ill-formed UTF-8 too. *)
Definition space_len (l : bytes) : nat :=
  match l with
  | x :: r =>
      if ((9 <=? x) && (x <=? 13)) || (x =? 32) then 1
      else match r with
           | y :: r =>
               if (x =? 194) && ((y =? 133) || (y =? 160)) then 2
               else match r with
                    | z :: _ =>
                        if (x =? 225) && (y =? 154) && (z =? 128) then 3
                        else if (x =? 226) && (y =? 128) &&
                                (((128 <=? z) && (z <=? 138)) || (z =? 168) || (z =? 169) || (z =? 175))
                        then 3
                        else if (x =? 226) && (y =? 129) && (z =? 159) then 3
                        else if (x =? 227) && (y =? 128) && (z =? 128) then 3
                        else 0
                    | [] => 0
                    end
           | [] => 0
           end
  | [] => 0
  end.

(** [len(strings.Fields(s))]: the number of maximal runs of other runes. *)
Fixpoint fields_loop (inField : bool) (skip : nat) (l : bytes) : Z :=
  match l with
  | [] => 0
  | _ :: r =>
      match skip with
      | S skip => fields_loop inField skip r
      | O => match space_len l with
             | S n => fields_loop false n r
             | O => (if inField then 0 else 1) + fields_loop true 0 r
             end
      end
  end.
Definition Fields_count (s : string) : Z := fields_loop false 0 (bytes_of_string s).

Example fields_1 : Fields_count "  two words " = 2.
Proof. reflexivity. Qed.

Lemma fields_loop_nonneg f k l : 0 <= fields_loop f k l.
Proof.
  revert f k. induction l as [|x r IH]; intros f k; cbn [fields_loop]; [lia|].
  destruct k; [|apply IH]. destruct (space_len _); [|apply IH].
  pose proof (IH true 0%nat). destruct f; lia.
Qed.

(** *** Separators *)

Fixpoint no_sep (sep : Ascii.ascii) (s : string) : Prop :=
  match s with EmptyString => True | String a s => a ≠ sep ∧ no_sep sep s end.

Lemma cut_app sep x y : no_sep sep x → cut sep (x +:+ String sep y) = Some (x, y).
Proof.
  induction x as [|a x IH]; simpl.
  - intros _. by rewrite Ascii.eqb_refl.
  - intros [Ha Hx]. rewrite (proj2 (Ascii.eqb_neq _ _) Ha). by rewrite IH.
Qed.

Lemma cut_none sep s : no_sep sep s → cut sep s = None.
Proof.
  induction s as [|a s IH]; cbn; [done|]. intros [Ha Hs]. rewrite (proj2 (Ascii.eqb_neq _ _) Ha). by rewrite IH.
Qed.

Lemma cut_spec sep s x y : cut sep s = Some (x, y) → s = x +:+ String sep y ∧ no_sep sep x.
Proof.
  revert x y. induction s as [|a s IH]; simpl; intros x y; [done|].
  destruct (Ascii.eqb_spec a sep) as [->|Ha]; [by intros [= <- <-]|].
  destruct (cut sep s) as [[x' y']|]; [|done]. intros [= <- <-].
  destruct (IH _ _ eq_refl) as [-> H]. done.
Qed.

Lemma hex_digit_no_sep x : hex_digit x ≠ "_"%char.
Proof.
  unfold hex_digit. generalize (Z.to_nat x) as n. intros n.
  do 16 (destruct n as [|n]; [done|]). done.
Qed.

Lemma hex_no_sep b : no_sep "_" (hex_EncodeToString b).
Proof. induction b; simpl; auto using hex_digit_no_sep. Qed.

Lemma hex_nonempty b : b ≠ [] → hex_EncodeToString b ≠ "".
Proof. by destruct b. Qed.
