(* ===== verification/GoConv.v ===== *)
(** * GoConv.v: strconv and encoding/base64 as the HTTP layer uses them

    Decimal [int] and [int64] conversion ([strconv.Itoa], [strconv.Atoi],
    [strconv.ParseInt(s, 10, 64)]) and the unpadded URL alphabet of base64.  Both
    round trips are proved; the decoder accepts what Go's accepts: carriage returns
    and line feeds are skipped, stray bits of the last character are ignored. *)

From Stdlib Require Import Ascii.
From S2P Require Import Prelude GoStrings.
Open Scope Z_scope.

(** ** Decimal integers *)

Definition byte_of (c : ascii) : Z := Z.of_N (N_of_ascii c).
Definition digit_char (d : Z) : ascii := ascii_of_N (Z.to_N (48 + d)).

(** The digits of [n], written in front of [acc]; [fuel] bounds their number. *)
Fixpoint itoa_loop (fuel : nat) (n : Z) (acc : string) : string :=
  match fuel with
  | O => acc
  | S fuel =>
      let acc := String (digit_char (n mod 10)) acc in
      if n / 10 =? 0 then acc else itoa_loop fuel (n / 10) acc
  end.

(** Twenty digits hold every 64-bit magnitude. *)
Definition Itoa (n : Z) : string :=
  if n <? 0 then String "-" (itoa_loop 20 (- n) "") else itoa_loop 20 n "".

Fixpoint digits_loop (s : string) (n : Z) : option Z :=
  match s with
  | EmptyString => Some n
  | String c s =>
      let b := byte_of c in
      if (48 <=? b) && (b <=? 57) then digits_loop s (10 * n + (b - 48)) else None
  end.

Definition parse_digits (s : string) : option Z :=
  match s with EmptyString => None | _ => digits_loop s 0 end.

(** The sign is optional; a magnitude outside int64 is a range error. *)
Definition ParseInt (s : string) : option Z :=
  let '(neg, rest) :=
    match s with
    | String c r => if Ascii.eqb c "-" then (true, r)
                    else if Ascii.eqb c "+" then (false, r) else (false, s)
    | EmptyString => (false, s)
    end in
  match parse_digits rest with
  | None => None
  | Some n =>
      let v := if neg : bool then - n else n in
      if (minInt64 <=? v) && (v <=? maxInt64) then Some v else None
  end.

(** [int] is 64 bits wide. *)
Definition Atoi : string → option Z := ParseInt.

Example itoa_1 : Itoa 1204 = "1204" ∧ Itoa 0 = "0" ∧ Itoa (-7) = "-7".
Proof. done. Qed.
Example atoi_1 : Atoi "+12" = Some 12 ∧ Atoi "007" = Some 7 ∧ Atoi "" = None ∧ Atoi "1a" = None ∧
  Atoi "9223372036854775807" = Some maxInt64 ∧ Atoi "9223372036854775808" = None ∧
  Atoi "-9223372036854775808" = Some minInt64.
Proof. vm_compute. done. Qed.

Lemma byte_digit d : 0 <= d < 10 → byte_of (digit_char d) = 48 + d.
Proof.
  intros. unfold byte_of, digit_char. rewrite N_ascii_embedding; lia.
Qed.

Lemma digits_itoa fuel n acc :
  0 <= n < 10 ^ Z.of_nat fuel → digits_loop (itoa_loop fuel n acc) 0 = digits_loop acc n.
Proof.
  revert n acc. induction fuel as [|fuel IH]; intros n acc Hn.
  { replace n with 0 by (simpl in Hn; lia). done. }
  cbn [itoa_loop]. rewrite Nat2Z.inj_succ, Z.pow_succ_r in Hn by lia.
  pose proof (Z.mod_pos_bound n 10). pose proof (Z.div_mod n 10).
  assert (digits_loop (String (digit_char (n mod 10)) acc) (n / 10) = digits_loop acc n) as E.
  { cbn [digits_loop]. rewrite byte_digit by lia.
    destruct (Z.leb_spec 48 (48 + n mod 10)), (Z.leb_spec (48 + n mod 10) 57); try lia.
    simpl andb. cbv iota. f_equal. lia. }
  destruct (Z.eqb_spec (n / 10) 0) as [E0|_]; [by rewrite E0 in E|].
  rewrite IH; [done|]. split; [zlia|]. apply Z.div_lt_upper_bound; lia.
Qed.

Lemma itoa_loop_head fuel n acc : (0 < fuel)%nat →
  ∃ d s, 0 <= d < 10 ∧ itoa_loop fuel n acc = String (digit_char d) s.
Proof.
  revert n acc. induction fuel as [|fuel IH]; [lia|]. intros n acc _. cbn [itoa_loop].
  destruct (Z.eqb_spec (n / 10) 0).
  - exists (n mod 10), acc. split; [apply Z.mod_pos_bound; lia|done].
  - destruct fuel; [|apply IH; lia]. exists (n mod 10), acc.
    split; [apply Z.mod_pos_bound; lia|done].
Qed.

(** [Atoi] inverts [Itoa] on every int. *)
Lemma Atoi_Itoa n : is_i64 n → Atoi (Itoa n) = Some n.
Proof.
  unfold is_i64. intros Hn. unfold Atoi, ParseInt, Itoa.
  assert (∀ m, 0 <= m <= 2 ^ 63 → parse_digits (itoa_loop 20 m "") = Some m) as Hp.
  { intros m Hm. destruct (itoa_loop_head 20 m "") as (d & s & Hd & E); [lia|].
    assert (digits_loop (itoa_loop 20 m "") 0 = Some m) as Hl
      by (rewrite digits_itoa; [done|]; split; [lia|]; apply Z.le_lt_trans with (2 ^ 63); [lia|done]).
    rewrite E in Hl |- *. exact Hl. }
  destruct (Z.ltb_spec n 0).
  - cbn [Ascii.eqb Bool.eqb]. rewrite Hp by lia. rewrite Z.opp_involutive.
    unfold minInt64, maxInt64.
    destruct (Z.leb_spec (- 2 ^ 63) n), (Z.leb_spec n (2 ^ 63 - 1)); try lia. done.
  - destruct (itoa_loop_head 20 n "") as (d & s & Hd & E); [lia|].
    pose proof (Hp n) as Hpn. rewrite E in Hpn |- *.
    assert (∀ c, byte_of c < 48 → Ascii.eqb (digit_char d) c = false) as Hc.
    { intros c Hc. apply Ascii.eqb_neq. intros Heq. rewrite <- Heq, byte_digit in Hc; lia. }
    rewrite !Hc by (vm_compute; done). rewrite Hpn by lia.
    unfold minInt64, maxInt64.
    destruct (Z.leb_spec (- 2 ^ 63) n), (Z.leb_spec n (2 ^ 63 - 1)); try lia. done.
Qed.

(** ** base64.RawURLEncoding *)

Definition b64_alphabet : string :=
  "ABCDEFGHIJKLMNOPQRSTUVWXYZabcdefghijklmnopqrstuvwxyz0123456789-_".
Definition b64_char (v : Z) : ascii := default "A"%char (String.get (Z.to_nat v) b64_alphabet).

Fixpoint index_from (c : ascii) (s : string) (i : Z) : option Z :=
  match s with
  | EmptyString => None
  | String a s => if Ascii.eqb a c then Some i else index_from c s (i + 1)
  end.
Definition b64_index (c : ascii) : option Z := index_from c b64_alphabet 0.

(** Three bytes to four characters; a rest of one or two bytes to two or three. *)
Fixpoint b64_encode (b : bytes) : string :=
  match b with
  | [] => EmptyString
  | [x] => String (b64_char (x / 4)) (String (b64_char (x mod 4 * 16)) EmptyString)
  | [x; y] =>
      String (b64_char (x / 4)) (String (b64_char (x mod 4 * 16 + y / 16))
        (String (b64_char (y mod 16 * 4)) EmptyString))
  | x :: y :: z :: b =>
      String (b64_char (x / 4)) (String (b64_char (x mod 4 * 16 + y / 16))
        (String (b64_char (y mod 16 * 4 + z / 64)) (String (b64_char (z mod 64)) (b64_encode b))))
  end.

(** The characters' values, line breaks skipped; [None] is CorruptInputError. *)
Fixpoint b64_values (s : string) : option (list Z) :=
  match s with
  | EmptyString => Some []
  | String c s =>
      match b64_index c with
      | Some v => match b64_values s with Some l => Some (v :: l) | None => None end
      | None => if Ascii.eqb c "010" || Ascii.eqb c "013" then b64_values s else None
      end
  end.

(** Four values to three bytes; two or three left give one or two bytes, one left
    is an error. *)
Fixpoint b64_bytes (l : list Z) : option bytes :=
  match l with
  | [] => Some []
  | [_] => None
  | [a; b] => Some [a * 4 + b / 16]
  | [a; b; c] => Some [a * 4 + b / 16; b mod 16 * 16 + c / 4]
  | a :: b :: c :: d :: l =>
      match b64_bytes l with
      | Some r => Some (a * 4 + b / 16 :: b mod 16 * 16 + c / 4 :: c mod 4 * 64 + d :: r)
      | None => None
      end
  end.
Definition b64_decode (s : string) : option bytes :=
  match b64_values s with Some l => b64_bytes l | None => None end.

(** [string(b)]. *)
Fixpoint string_of_bytes (b : bytes) : string :=
  match b with
  | [] => EmptyString
  | x :: b => String (ascii_of_N (Z.to_N x)) (string_of_bytes b)
  end.

Example b64_1 : b64_encode (bytes_of_string "50") = "NTA" ∧ b64_decode ("NT" +:+ String "010" "A") = Some (bytes_of_string "50") ∧ b64_decode "N" = None ∧ b64_decode "NTA=" = None.
Proof. vm_compute. done. Qed.

Definition byte_ok (x : Z) : Prop := 0 <= x < 256.

Lemma b64_index_char v : 0 <= v < 64 → b64_index (b64_char v) = Some v.
Proof.
  intros Hv.
  assert (forallb (λ n, bool_decide (b64_index (b64_char (Z.of_nat n)) = Some (Z.of_nat n)))
            (seq 0 64) = true) as H by (vm_compute; reflexivity).
  rewrite forallb_forall in H. specialize (H (Z.to_nat v)).
  rewrite Z2Nat.id in H by lia. apply bool_decide_eq_true in H; [done|].
  apply in_seq. lia.
Qed.

Lemma b64_values_char v s : 0 <= v < 64 →
  b64_values (String (b64_char v) s) = (v ::.) <$> b64_values s.
Proof. intros. simpl. rewrite b64_index_char by done. by destruct (b64_values s). Qed.

(** Decoding inverts encoding. *)
Lemma b64_decode_encode b : Forall byte_ok b → b64_decode (b64_encode b) = Some b.
Proof.
  unfold b64_decode, byte_ok.
  induction b as [b IH] using (induction_ltof1 _ (@length Z)); unfold ltof in IH.
  intros Hb. destruct b as [|x [|y [|z b]]]; cbn [b64_encode].
  - done.
  - inversion_clear Hb. rewrite !b64_values_char by zlia. simpl. repeat f_equal; zlia.
  - inversion_clear Hb as [|? ? ? Hb']. inversion_clear Hb'.
    rewrite !b64_values_char by zlia. simpl. repeat f_equal; zlia.
  - inversion_clear Hb as [|? ? ? Hb']. inversion_clear Hb' as [|? ? ? Hb].
    inversion_clear Hb as [|? ? ? Hb'].
    rewrite !b64_values_char by zlia. specialize (IH b). simpl in IH.
    destruct (b64_values (b64_encode b)) as [l|]; [|by discriminate IH; try lia; auto].
    simpl. rewrite IH by (auto; lia). repeat f_equal; zlia.
Qed.

Lemma string_of_bytes_of s : string_of_bytes (bytes_of_string s) = s.
Proof.
  induction s as [|c s IH]; [done|]. simpl. rewrite IH, N2Z.id. f_equal. apply ascii_N_embedding.
Qed.

Lemma bytes_of_string_ok s : Forall byte_ok (bytes_of_string s).
Proof.
  induction s as [|c s IH]; constructor; [|done]. unfold byte_ok.
  pose proof (N_ascii_bounded c). lia.
Qed.
#[export] Hint Resolve bytes_of_string_ok : agpu.
