(* ===== verification/GoText.v ===== *)
(** * GoText.v: text conversions of the newer components

    The parts of strconv, strings, path/filepath, time and math that the start-up
    configuration, the vendor-tool parsers, the console pages and the load
    generator use: unsigned and boolean parsing, splitting and searching, lexical
    path cleaning (Unix separators), fixed-point printing of a binary64 value, and
    the calendar layouts. *)

From Stdlib Require Import Ascii.
From S2P Require Import Prelude Errors GoTime GoFloat GoStrings GoConv.
Open Scope Z_scope.

(** ** strconv *)

Definition maxUint64 : Z := 2 ^ 64 - 1.

(** [strconv.ParseUint(s, 10, 64)]: digits only, no sign. *)
Definition ParseUint (s : string) : option Z :=
  match parse_digits s with
  | Some n => if n <=? maxUint64 then Some n else None
  | None => None
  end.

(** [strconv.FormatUint(n, 10)]: [Itoa] on values that are not negative. *)
Definition FormatUint : Z → string := Itoa.

Definition ParseBool (s : string) : option bool :=
  if str_mem s ["1"; "t"; "T"; "true"; "TRUE"; "True"] then Some true
  else if str_mem s ["0"; "f"; "F"; "false"; "FALSE"; "False"] then Some false
  else None.

(** [strconv.FormatFloat(x, 'f', 1, 64)] of a value that is not negative: the exact
    binary value rounded to one decimal, ties to even. *)
Definition FormatFloat1 (x : float) : string :=
  let q := rne (f_num x * 10) (f_den x) in
  Itoa (q / 10) +:+ "." +:+ Itoa (q mod 10).

(** Subtraction of a smaller value. *)
Definition fsub (x y : float) : float :=
  round64 (f_num x * f_den y - f_num y * f_den x) (f_den x * f_den y).

(** [math.Round] of a value that is not negative: ties away from zero. *)
Definition fround (x : float) : Z := (2 * f_num x + f_den x) / (2 * f_den x).

(** ** strings *)

(** [strings.Split] on a one-byte separator; the length of the text bounds the
    number of separators. *)
Fixpoint split_loop (fuel : nat) (sep : ascii) (s : string) : list string :=
  match fuel with
  | O => [s]
  | S fuel => match cut sep s with
              | None => [s]
              | Some (x, y) => x :: split_loop fuel sep y
              end
  end.
Definition Split (s : string) (sep : ascii) : list string := split_loop (String.length s) sep s.

(** [strings.Contains]. *)
Fixpoint Contains (s sub : string) : bool :=
  String.prefix sub s || match s with EmptyString => false | String _ s => Contains s sub end.

(** [strings.Fields]: the maximal runs of runes that are not white space. *)
Fixpoint Fields_loop (skip : nat) (cur : bytes) (l : bytes) : list bytes :=
  let emit (rest : list bytes) := match cur with [] => rest | _ => reverse cur :: rest end in
  match l with
  | [] => emit []
  | x :: r =>
      match skip with
      | S skip => Fields_loop skip cur r
      | O => match space_len l with
             | S n => emit (Fields_loop n [] r)
             | O => Fields_loop 0 (x :: cur) r
             end
      end
  end.
Definition Fields (s : string) : list string := map string_of_bytes (Fields_loop 0 [] (bytes_of_string s)).

(** [strings.ToUpper] of text compared with ASCII words: a letter with a non-ASCII
    lower or upper case stays outside ASCII, but for the dotless i and the long s,
    which become I and S. *)
Fixpoint ToUpper_bytes (l : bytes) : bytes :=
  match l with
  | 196 :: 177 :: r => 73 :: ToUpper_bytes r
  | 197 :: 191 :: r => 83 :: ToUpper_bytes r
  | b :: r => (if (97 <=? b) && (b <=? 122) then b - 32 else b) :: ToUpper_bytes r
  | [] => []
  end.
Definition ToUpper (s : string) : string := string_of_bytes (ToUpper_bytes (bytes_of_string s)).

(** [strings.Join]. *)
Definition Join (l : list string) (sep : string) : string := String.concat sep l.

(** [strings.TrimRight(s, "/")]. *)
Fixpoint TrimRight_slash (s : string) : string :=
  match s with
  | EmptyString => EmptyString
  | String c r =>
      match TrimRight_slash r with
      | EmptyString => if Ascii.eqb c "/" then EmptyString else String c EmptyString
      | t => String c t
      end
  end.

(** ** path/filepath *)

(** The elements of a path after [.] and [..] are resolved; a rooted path has
    nothing above it. *)
Definition clean_elem (rooted : bool) (acc : list string) (e : string) : list string :=
  if String.eqb e "" || String.eqb e "." then acc
  else if String.eqb e ".." then
    match acc with
    | x :: acc' => if String.eqb x ".." then e :: acc else acc'
    | [] => if rooted then [] else [e]
    end
  else e :: acc.
Definition slash : ascii := "/"%char.
Definition Clean (path : string) : string :=
  let rooted := String.prefix "/" path in
  let elems := reverse (fold_left (clean_elem rooted) (Split path slash) []) in
  let body := Join elems "/" in
  if rooted then "/" +:+ body
  else if String.eqb body "" then "." else body.

(** [filepath.Join]: the elements from the first that is not empty. *)
Fixpoint path_Join (elem : list string) : string :=
  match elem with
  | [] => ""
  | e :: rest => if String.eqb e "" then path_Join rest else Clean (Join elem "/")
  end.

(** [filepath.Dir]: everything up to the last slash, cleaned. *)
Fixpoint dir_part (s : string) : string :=
  match s with
  | EmptyString => EmptyString
  | String c r =>
      let d := dir_part r in
      if Ascii.eqb c slash then String c d
      else match d with EmptyString => EmptyString | _ => String c d end
  end.
Definition path_Dir (path : string) : string := Clean (dir_part path).

Example clean_1 : map Clean ["/home//ada/"; "a/./b/../c"; "../../x"; "/.."; ""] = ["/home/ada"; "a/c"; "../../x"; "/"; "."].
Proof. vm_compute. reflexivity. Qed.
Example path_1 : path_Join ["/home/ada"; ".agentgpu"; "keys.json"] = "/home/ada/.agentgpu/keys.json" ∧
  path_Join [""; "a"] = "a" ∧ path_Dir "/var/lib/q.json" = "/var/lib" ∧ path_Dir "q.json" = "." ∧ path_Dir "/q" = "/".
Proof. vm_compute. done. Qed.
Example split_1 : Split "a,,b" "," = ["a"; ""; "b"] ∧ Split "" "," = [""] ∧ Fields " 8  GB" = ["8"; "GB"].
Proof. vm_compute. done. Qed.
Example float_1 : map FormatFloat1 [fdiv (float64 1250) (float64 1000); fdiv (float64 999950) (float64 1000); float64 24] =
  ["1.2"; "1000.0"; "24.0"].
Proof. vm_compute. reflexivity. Qed.

(** ** time layouts *)

(** [n] with at least [w] digits. *)
Definition pad2 (n : Z) : string := if n <? 10 then "0" +:+ Itoa n else Itoa n.
Definition pad4 (n : Z) : string :=
  (if n <? 10 then "000" else if n <? 100 then "00" else if n <? 1000 then "0" else "") +:+ Itoa n.

Definition Hour_of (t : Time) : Z := t / Hour mod 24.
Definition Minute_of (t : Time) : Z := t / Minute mod 60.
Definition Second_of (t : Time) : Z := t / Second mod 60.

(** [t.UTC().Format("15:04:05")], ["2006-01-02"] and ["2006-01-02T15:04"]. *)
Definition format_clock (t : Time) : string :=
  pad2 (Hour_of t) +:+ ":" +:+ pad2 (Minute_of t) +:+ ":" +:+ pad2 (Second_of t).
Definition format_date (t : Time) : string :=
  pad4 (Year t) +:+ "-" +:+ pad2 (Month t) +:+ "-" +:+ pad2 (Day t).
Definition format_minute (t : Time) : string :=
  format_date t +:+ "T" +:+ pad2 (Hour_of t) +:+ ":" +:+ pad2 (Minute_of t).

(** [d.Minutes()] of a duration that is not negative. *)
Definition Minutes (d : Duration) : float :=
  fadd (float64 (d / Minute)) (fdiv (float64 (d mod Minute)) (float64 Minute)).

Example layout_1 : format_minute (Date 2026 6 7 + 3 * Hour + 4 * Minute) = "2026-06-07T03:04" ∧
  format_clock (Date 2026 6 7 + 23 * Hour + 59 * Minute + 9 * Second) = "23:59:09".
Proof. vm_compute. done. Qed.

(** ** Facts *)

Lemma ParseUint_range s n : ParseUint s = Some n → is_u64 n.
Proof.
  unfold ParseUint, parse_digits. destruct s as [|c s]; [done|].
  assert (∀ s n m, 0 <= n → digits_loop s n = Some m → 0 <= m) as H.
  { clear. induction s as [|c s IH]; intros n m Hn; cbn [digits_loop]; [congruence|].
    case_match; [|done]. zbool. apply IH. lia. }
  destruct (digits_loop _ 0) eqn:E; [|done]. apply H in E; [|done].
  case_match; [|done]. intros [= <-]. zbool. unfold is_u64, maxUint64 in *. lia.
Qed.
#[export] Hint Resolve ParseUint_range : agpu.

Lemma ParseUint_Itoa n : is_u64 n → ParseUint (Itoa n) = Some n.
Proof.
  unfold is_u64, ParseUint, Itoa. intros Hn. destruct (Z.ltb_spec n 0); [lia|].
  destruct (itoa_loop_head 20 n "") as (d & s & Hd & E); [lia|].
  assert (digits_loop (itoa_loop 20 n "") 0 = Some n) as Hl.
  { rewrite digits_itoa; [done|]. split; [lia|]. eapply Z.lt_le_trans; [exact (proj2 Hn)|]. vm_compute. discriminate. }
  rewrite E in Hl |- *. unfold parse_digits. rewrite Hl. unfold maxUint64.
  destruct (Z.leb_spec n (2 ^ 64 - 1)); [done|lia].
Qed.

Lemma cut_length sep s x y : cut sep s = Some (x, y) → (String.length y < String.length s)%nat.
Proof.
  intros [-> _]%cut_spec. induction x as [|a x IH]; simpl; [lia|]. simpl in IH. lia.
Qed.

Lemma split_loop_none fuel sep s : no_sep sep s → split_loop fuel sep s = [s].
Proof.
  intros H. destruct fuel; [done|]. cbn [split_loop]. destruct (cut sep s) as [[x y]|] eqn:E; [|done].
  apply cut_spec in E as [-> _]. exfalso. clear -H. induction x as [|a x IH]; simpl in H; naive_solver.
Qed.

Lemma split_loop_fuel sep f1 f2 s : (String.length s ≤ f1)%nat → (String.length s ≤ f2)%nat →
  split_loop f1 sep s = split_loop f2 sep s.
Proof.
  revert f2 s. induction f1 as [|f1 IH]; intros f2 s H1 H2.
  - destruct s; [|simpl in H1; lia]. by destruct f2.
  - destruct f2 as [|f2]; [by destruct s; [|simpl in H2; lia]|].
    cbn [split_loop]. destruct (cut sep s) as [[x y]|] eqn:E; [|done].
    apply cut_length in E. f_equal. apply IH; lia.
Qed.

(** Splitting what was joined by the separator gives the pieces back. *)
Lemma Split_app sep x y : no_sep sep x → Split (x +:+ String sep y) sep = x :: Split y sep.
Proof.
  intros Hx. unfold Split.
  assert (String.length (x +:+ String sep y) = S (String.length x + String.length y)) as ->.
  { clear. induction x as [|a x IH]; simpl; [done|]. f_equal. exact IH. }
  cbn [split_loop]. rewrite cut_app by done. f_equal. apply split_loop_fuel; lia.
Qed.
Lemma Split_none sep x : no_sep sep x → Split x sep = [x].
Proof. intros. by apply split_loop_none. Qed.

Lemma Split_Join sep parts : parts ≠ [] → Forall (no_sep sep) parts → Split (Join parts (String sep "")) sep = parts.
Proof.
  intros Hne Hf. induction Hf as [|x l Hx Hf IH]; [done|]. destruct l as [|y l]; [by apply Split_none|].
  change (Join (x :: y :: l) (String sep "")) with (x +:+ String sep (Join (y :: l) (String sep ""))).
  rewrite Split_app by done. f_equal. by apply IH.
Qed.

Lemma no_sep_append sep s t : no_sep sep s → no_sep sep t → no_sep sep (s +:+ t).
Proof. induction s as [|a s IH]; [done|]. simpl. intros [H1 H2] H3. split; [done|]. by apply IH. Qed.

(** *** Decimal text *)

Lemma bytes_of_string_app s t : bytes_of_string (s +:+ t) = bytes_of_string s ++ bytes_of_string t.
Proof. induction s as [|a s IH]; [done|]. simpl. f_equal. exact IH. Qed.

Definition digit7 (b : Z) : Prop := 48 <= b <= 57.
Lemma itoa_loop_digits fuel : ∀ n s, Forall digit7 (bytes_of_string s) → Forall digit7 (bytes_of_string (itoa_loop fuel n s)).
Proof.
  induction fuel as [|fuel IH]; intros n s H; cbn [itoa_loop]; [done|].
  pose proof (Z.mod_pos_bound n 10 ltac:(lia)) as Hm.
  assert (Forall digit7 (bytes_of_string (String (digit_char (n mod 10)) s))).
  { cbn. constructor; [|done]. pose proof (byte_digit _ Hm) as E. unfold byte_of in E. unfold digit7. cbn in *. lia. }
  case_match; [done|]. by apply IH.
Qed.
Lemma Itoa_digits n : 0 <= n → Forall digit7 (bytes_of_string (Itoa n)) ∧ bytes_of_string (Itoa n) ≠ [].
Proof.
  intros Hn. unfold Itoa. destruct (Z.ltb_spec n 0); [lia|]. split; [by apply itoa_loop_digits|].
  destruct (itoa_loop_head 20 n "") as (d & s & _ & ->); [lia|done].
Qed.

(** A positive number starts with a digit that is not zero. *)
Lemma itoa_loop_lead fuel : ∀ n acc, 0 < n < 10 ^ Z.of_nat fuel →
  ∃ d s, 1 <= d < 10 ∧ itoa_loop fuel n acc = String (digit_char d) s.
Proof.
  induction fuel as [|fuel IH]; intros n acc Hn; [simpl in Hn; lia|]. rewrite Nat2Z.inj_succ, Z.pow_succ_r in Hn by lia.
  cbn [itoa_loop]. destruct (Z.eqb_spec (n / 10) 0) as [E|E].
  - exists (n mod 10), acc. split; [|done]. pose proof (Z.div_mod n 10). pose proof (Z.mod_pos_bound n 10). lia.
  - apply IH. pose proof (Z.div_pos n 10). split; [lia|]. apply Z.div_lt_upper_bound; lia.
Qed.
Lemma digits_Itoa n : is_u64 n → digits_loop (Itoa n) 0 = Some n.
Proof.
  unfold is_u64, Itoa. intros Hn. destruct (Z.ltb_spec n 0); [lia|]. rewrite digits_itoa; [done|]. split; [lia|].
  eapply Z.lt_le_trans; [exact (proj2 Hn)|]. vm_compute. discriminate.
Qed.
