(* ===== verification/GoJson.v ===== *)
(** * GoJson.v: decoding with encoding/json

    A document is the tree its text denotes; the step from text to tree is a
    parameter of the files that read JSON.  Decoding a tree into a Go value follows
    encoding/json: null leaves the target as it is, a value of the wrong kind is
    remembered as an error while decoding goes on, object members are assigned in
    document order, and a struct field is found by its exact name or, failing that,
    by its name up to case. *)

From S2P Require Import Prelude GoStrings GoConv GoText.
Open Scope Z_scope.

(** [JUint] is a number literal without sign, fraction and exponent. *)
Inductive json :=
| JNull | JBool (b : bool) | JUint (n : N) | JNumber (text : string) | JText (s : string)
| JArr (l : list json) | JObj (members : list (string * json)).

(** The new value of the target, and whether an error was remembered. *)
Definition decoder (A : Type) := A → json → A * bool.

Definition dec_string : decoder string := λ old j,
  match j with JNull => (old, false) | JText s => (s, false) | _ => (old, true) end.

Definition dec_uint64 : decoder Z := λ old j,
  match j with
  | JNull => (old, false)
  | JUint n => if Z.of_N n <=? maxUint64 then (Z.of_N n, false) else (old, true)
  | _ => (old, true)
  end.

(** Names are equal up to case under simple folding; the Kelvin sign and the long s
    fold to ASCII letters. *)
Fixpoint fold_key (l : bytes) : bytes :=
  match l with
  | [] => []
  | 226 :: 132 :: 170 :: r => 75 :: fold_key r
  | 197 :: 191 :: r => 83 :: fold_key r
  | b :: r => (if (97 <=? b) && (b <=? 122) then b - 32 else b) :: fold_key r
  end.
Definition foldName (s : string) : bytes := fold_key (bytes_of_string s).

Definition find_field {A} (fields : list (string * decoder A)) (key : string) : option (decoder A) :=
  match find (λ f, String.eqb f.1 key) fields with
  | Some f => Some f.2
  | None => snd <$> find (λ f : string * decoder A, bool_decide (foldName f.1 = foldName key)) fields
  end.

Definition dec_member {A} (fields : list (string * decoder A)) (acc : A * bool) (m : string * json) : A * bool :=
  match find_field fields m.1 with
  | None => acc
  | Some d => let '(a, bad) := d acc.1 m.2 in (a, acc.2 || bad)
  end.
Definition dec_struct {A} (fields : list (string * decoder A)) : decoder A := λ old j,
  match j with
  | JNull => (old, false)
  | JObj ms => fold_left (dec_member fields) ms (old, false)
  | _ => (old, true)
  end.

(** A fresh slice. *)
Definition dec_slice {A} (zero : A) (d : decoder A) (j : json) : list A * bool :=
  match j with
  | JNull => ([], false)
  | JArr l => fold_left (λ acc x, let '(a, bad) := d zero x in (acc.1 ++ [a], acc.2 || bad)) l ([], false)
  | _ => ([], true)
  end.

(** A fresh map with string keys; each member's value is decoded from zero. *)
Definition dec_map {A} (zero : A) (d : decoder A) (j : json) : gmap string A * bool :=
  match j with
  | JNull => (∅, false)
  | JObj ms => fold_left (λ acc m, let '(a, bad) := d zero m.2 in (<[m.1 := a]> acc.1, acc.2 || bad)) ms (∅, false)
  | _ => (∅, true)
  end.

Example decode_1 :
  dec_struct [("value", λ q j, let '(n, b) := dec_uint64 q.1 j in ((n, q.2), b));
              ("unit", λ q j, let '(s, b) := dec_string q.2 j in ((q.1, s), b))] (0, "")
    (JObj [("Value", JUint 16); ("unit", JText "MB"); ("x", JNull)]) = ((16, "MB"), false).
Proof. reflexivity. Qed.

(** ** Facts: what every field's decoder preserves, the whole decoder preserves *)

Definition keeps {A} (P : A → Prop) (d : decoder A) : Prop := ∀ a j, P a → P (d a j).1.

Lemma find_field_in {A} (fields : list (string * decoder A)) key d :
  find_field fields key = Some d → d ∈ fields.*2.
Proof.
  unfold find_field. destruct (find _ fields) as [f|] eqn:E; [intros [= <-]|intros H].
  - apply find_some in E as [E _]. apply list_elem_of_fmap. exists f. split; [done|]. by apply list_elem_of_In.
  - apply fmap_Some in H as (f & E' & ->). apply find_some in E' as [E' _]. apply list_elem_of_fmap. exists f. split; [done|].
    by apply list_elem_of_In.
Qed.

Lemma dec_struct_keeps {A} (P : A → Prop) fields : Forall (keeps P) (fields.*2) → keeps P (dec_struct fields).
Proof.
  intros Hf a j Ha. destruct j as [| | | | | |ms]; try done. cbn [dec_struct].
  assert (∀ acc, P acc.1 → P (fold_left (dec_member fields) ms acc).1) as H; [|by apply H].
  induction ms as [|m ms IH]; intros acc Hacc; [done|]. cbn [fold_left]. apply IH. unfold dec_member.
  destruct (find_field fields m.1) as [d|] eqn:E; [|done]. apply find_field_in in E. rewrite Forall_forall in Hf.
  specialize (Hf d E acc.1 m.2 Hacc). by destruct (d acc.1 m.2).
Qed.

Lemma dec_slice_keeps {A} (P : A → Prop) zero d j : P zero → keeps P d → Forall P (dec_slice zero d j).1.
Proof.
  intros Hz Hd. destruct j as [| | | | |l|]; try apply Forall_nil_2. cbn [dec_slice].
  match goal with |- Forall P (fold_left ?f _ _).1 => set (step := f) end.
  assert (∀ acc, Forall P acc.1 → Forall P (fold_left step l acc).1) as H; [|by apply H, Forall_nil_2].
  induction l as [|x l IH]; intros acc Hacc; [done|]. cbn [fold_left]. apply IH. unfold step.
  specialize (Hd zero x Hz). destruct (d zero x). apply Forall_app_2; [done|]. by constructor.
Qed.

Lemma dec_uint64_keeps : keeps is_u64 dec_uint64.
Proof.
  intros a j Ha. destruct j as [| |n| | | |]; try done. cbn [dec_uint64]. destruct (Z.leb_spec (Z.of_N n) maxUint64); [|done].
  unfold is_u64, maxUint64 in *. cbn. lia.
Qed.
