(* ===== verification/GoDuration.v ===== *)
(** * GoDuration.v: time.Duration.String and time.ParseDuration

    The two directions of Go's textual durations, at their 64-bit widths, and the
    round trip: parsing the printed form of a duration gives the duration back.  The
    fraction of a component goes through float64 in the parser; the printed forms
    only meet exact cases. *)

From Stdlib Require Import Ascii.
From S2P Require Import Prelude GoTime GoFloat GoStrings GoConv.
Open Scope Z_scope.

(** ** Printing *)

(** [fmtFrac]: the last [n] decimal digits of [v] without trailing zeros, in front
    of [acc], and what is left of [v]. *)
Fixpoint fmtFrac_loop (n : nat) (v : Z) (print : bool) (acc : string) : bool * string * Z :=
  match n with
  | O => (print, acc, v)
  | S n =>
      let digit := v mod 10 in
      let print := print || negb (digit =? 0) in
      fmtFrac_loop n (v / 10) print (if print then String (digit_char digit) acc else acc)
  end.
Definition fmtFrac (v : Z) (n : nat) (acc : string) : string * Z :=
  let '(print, s, v) := fmtFrac_loop n v false acc in (if print then String "." s else s, v).

(** A positive magnitude: below a second in the largest smaller unit, else hours,
    minutes and seconds. *)
Definition format (u : Z) : string :=
  if u <? Second then
    let '(prec, unit) :=
      if u <? Microsecond then (0%nat, "ns") else if u <? Millisecond then (3%nat, "µs") else (6%nat, "ms") in
    let '(s, u) := fmtFrac u prec unit in Itoa u +:+ s
  else
    let '(s, u) := fmtFrac u 9 "s" in
    let s := Itoa (u mod 60) +:+ s in
    let u := u / 60 in
    if 0 <? u then
      let s := Itoa (u mod 60) +:+ "m" +:+ s in
      let u := u / 60 in
      if 0 <? u then Itoa u +:+ "h" +:+ s else s
    else s.

Definition Duration_String (d : Duration) : string :=
  let u := u64 (if d <? 0 then - d else d) in
  let s := if u =? 0 then "0s" else format u in
  if d <? 0 then String "-" s else s.

Example string_1 : map Duration_String [0; 1; 1500; 2500000; 1800 * Second; 90 * Second + 500 * Millisecond; - Hour]
  = ["0s"; "1ns"; "1.5µs"; "2.5ms"; "30m0s"; "1m30.5s"; "-1h0m0s"].
Proof. vm_compute. reflexivity. Qed.

(** ** Parsing *)

Definition is_digit (c : ascii) : bool := (48 <=? byte_of c) && (byte_of c <=? 57).

(** [None] when the number leaves the range. *)
Fixpoint leadingInt (s : string) (x : Z) : option (Z * string) :=
  match s with
  | String c s' =>
      if is_digit c then
        if 2 ^ 63 / 10 <? x then None
        else
          let x := u64 (x * 10 + byte_of c - 48) in
          if 2 ^ 63 <? x then None else leadingInt s' x
      else Some (x, s)
  | EmptyString => Some (x, s)
  end.

(** Digits that no longer fit are consumed and dropped. *)
Fixpoint leadingFraction (s : string) (x : Z) (scale : float) (overflow : bool) : Z * float * string :=
  match s with
  | String c s' =>
      if is_digit c then
        if overflow then leadingFraction s' x scale true
        else if (2 ^ 63 - 1) / 10 <? x then leadingFraction s' x scale true
        else
          let y := u64 (x * 10 + byte_of c - 48) in
          if 2 ^ 63 <? y then leadingFraction s' x scale true
          else leadingFraction s' y (fmul scale (float64 10)) false
      else (x, scale, s)
  | EmptyString => (x, scale, s)
  end.

(** The unit runs to the next digit or point. *)
Fixpoint span_unit (s : string) : string * string :=
  match s with
  | String c s' =>
      if Ascii.eqb c "." || is_digit c then ("", s)
      else let '(u, rest) := span_unit s' in (String c u, rest)
  | EmptyString => ("", "")
  end.

Definition unitMap (u : string) : option Z :=
  if String.eqb u "ns" then Some 1
  else if String.eqb u "us" || String.eqb u "µs" || String.eqb u "μs" then Some Microsecond
  else if String.eqb u "ms" then Some Millisecond
  else if String.eqb u "s" then Some Second
  else if String.eqb u "m" then Some Minute
  else if String.eqb u "h" then Some Hour
  else None.

(** The components; each consumes at least its unit. *)
Fixpoint parse_loop (fuel : nat) (s : string) (d : Z) : option Z :=
  match s, fuel with
  | EmptyString, _ => Some d
  | _, O => None
  | String c _, S fuel =>
      if negb (Ascii.eqb c "." || is_digit c) then None
      else
        match leadingInt s 0 with
        | None => None
        | Some (v, s1) =>
            let pre := negb (String.length s1 =? String.length s)%nat in
            let '(f, scale, s2, post) :=
              match s1 with
              | String c' t =>
                  if Ascii.eqb c' "." then
                    let '(f, scale, rest) := leadingFraction t 0 (float64 1) false in
                    (f, scale, rest, negb (String.length rest =? String.length t)%nat)
                  else (0, float64 1, s1, false)
              | EmptyString => (0, float64 1, s1, false)
              end in
            if negb pre && negb post then None
            else
              let '(u, rest) := span_unit s2 in
              if String.eqb u "" then None
              else
                match unitMap u with
                | None => None
                | Some unit =>
                    if 2 ^ 63 / unit <? v then None
                    else
                      let v := u64 (v * unit) in
                      let w := u64 (v + ftrunc (fmul (float64 f) (fdiv (float64 unit) scale))) in
                      if (0 <? f) && (2 ^ 63 <? w) then None
                      else
                        let d := u64 (d + if 0 <? f then w else v) in
                        if 2 ^ 63 <? d then None else parse_loop fuel rest d
                end
        end
  end.

Definition ParseDuration (s : string) : option Duration :=
  let '(neg, s) :=
    match s with
    | String c r => if Ascii.eqb c "-" then (true, r) else if Ascii.eqb c "+" then (false, r) else (false, s)
    | EmptyString => (false, s)
    end in
  if String.eqb s "0" then Some 0
  else if String.eqb s "" then None
  else
    match parse_loop (String.length s) s 0 with
    | None => None
    | Some d => if neg : bool then Some (i64 (- d)) else if 2 ^ 63 - 1 <? d then None else Some d
    end.

Example parse_1 : map ParseDuration ["30m"; "1h30m"; "1.5h"; "-2s"; "0"; "5"; "10 s"; "1.s"; ".s"; "2562047h47m16.854775807s"]
  = [Some (1800 * Second); Some (5400 * Second); Some (5400 * Second); Some (- (2 * Second)); Some 0; None; None;
     Some Second; None; Some maxInt64].
Proof. vm_compute. reflexivity. Qed.

(** ** Exact float64 integers *)

Definition is_int (x : float) (N : Z) : Prop := f_num x = N * f_den x ∧ 0 < f_den x.

Lemma float64_is_int n : 0 <= n < 2 ^ 52 → is_int (float64 n) n.
Proof. apply float64_exact. Qed.

Lemma fmul_is_int x y N M : is_int x N → is_int y M → 0 <= N * M < 2 ^ 52 → is_int (fmul x y) (N * M).
Proof.
  intros [Ex Dx] [Ey Dy] H. apply round64_int; [done|by apply Z.mul_pos_pos|]. rewrite Ex, Ey. ring.
Qed.

Lemma fdiv_is_int x y N M : is_int x (N * M) → is_int y M → 0 < M → 0 <= N < 2 ^ 52 → is_int (fdiv x y) N.
Proof.
  intros [Ex Dx] [Ey Dy] HM H. apply round64_int; [done| |].
  - rewrite Ey. apply Z.mul_pos_pos; [done|]. by apply Z.mul_pos_pos.
  - rewrite Ex, Ey. ring.
Qed.

Lemma ftrunc_is_int x N : is_int x N → ftrunc x = N.
Proof. intros [E D]. unfold ftrunc. rewrite E. apply Z.div_mul. lia. Qed.

(** ** Digits *)

Lemma is_digit_char d : 0 <= d < 10 → is_digit (digit_char d) = true.
Proof. intros. unfold is_digit. rewrite byte_digit by lia. apply andb_true_iff. split; apply Z.leb_le; lia. Qed.

(** A text that does not go on with a digit or a point. *)
Definition stops (s : string) : bool :=
  match s with String c _ => negb (Ascii.eqb c "." || is_digit c) | EmptyString => true end.

Lemma stops_digit c s : stops (String c s) = true → Ascii.eqb c "." = false ∧ is_digit c = false.
Proof. cbn. rewrite negb_true_iff. apply orb_false_iff. Qed.

Lemma leadingInt_digit d s x :
  0 <= d < 10 → 0 <= x → x * 10 + d <= 2 ^ 63 → leadingInt (String (digit_char d) s) x = leadingInt s (x * 10 + d).
Proof.
  intros Hd Hx Hle. cbn [leadingInt]. rewrite is_digit_char, byte_digit by done.
  replace (x * 10 + (48 + d) - 48) with (x * 10 + d) by lia. rewrite u64_id by (unfold is_u64; lia).
  destruct (Z.ltb_spec (2 ^ 63 / 10) x) as [H|_]; [zlia|]. by destruct (Z.ltb_spec (2 ^ 63) (x * 10 + d)); [lia|].
Qed.

Lemma leadingInt_itoa fuel : ∀ n s,
  0 <= n < 10 ^ Z.of_nat fuel → n <= 2 ^ 63 → leadingInt (itoa_loop fuel n s) 0 = leadingInt s n.
Proof.
  induction fuel as [|fuel IH]; intros n s Hn Hm.
  { replace n with 0 by (simpl in Hn; lia). done. }
  cbn [itoa_loop]. rewrite Nat2Z.inj_succ, Z.pow_succ_r in Hn by lia.
  pose proof (Z.mod_pos_bound n 10). pose proof (Z.div_mod n 10). pose proof (Z.div_pos n 10).
  assert (E : leadingInt (String (digit_char (n mod 10)) s) (n / 10) = leadingInt s n).
  { rewrite leadingInt_digit by lia. f_equal. lia. }
  destruct (Z.eqb_spec (n / 10) 0) as [E0|_]; [by rewrite E0 in E|].
  rewrite IH; [done| |lia]. split; [lia|]. apply Z.div_lt_upper_bound; lia.
Qed.

Lemma leadingInt_stop s n : (match s with String c _ => is_digit c = false | _ => True end) →
  leadingInt s n = Some (n, s).
Proof. destruct s as [|c s]; [done|]. intros H. cbn. by rewrite H. Qed.

Lemma itoa_loop_app fuel : ∀ n a b, itoa_loop fuel n a +:+ b = itoa_loop fuel n (a +:+ b).
Proof. induction fuel as [|fuel IH]; intros n a b; [done|]. cbn [itoa_loop]. case_match; [done|]. by rewrite IH. Qed.

Lemma Itoa_app n s : 0 <= n → Itoa n +:+ s = itoa_loop 20 n s.
Proof. intros H. unfold Itoa. destruct (Z.ltb_spec n 0); [lia|]. by rewrite itoa_loop_app. Qed.

(** ** Fractions *)

Lemma leadingFraction_digit d s x scale :
  0 <= d < 10 → 0 <= x <= 10 ^ 10 →
  leadingFraction (String (digit_char d) s) x scale false
  = leadingFraction s (x * 10 + d) (fmul scale (float64 10)) false.
Proof.
  intros Hd Hx. cbn [leadingFraction]. rewrite is_digit_char, byte_digit by done.
  replace (x * 10 + (48 + d) - 48) with (x * 10 + d) by lia. rewrite u64_id by (unfold is_u64; lia).
  destruct (Z.ltb_spec ((2 ^ 63 - 1) / 10) x) as [H|_]; [zlia|].
  by destruct (Z.ltb_spec (2 ^ 63) (x * 10 + d)); [lia|].
Qed.

(** All [n] digits, once printing has begun. *)
Lemma frac_all n : ∀ v s scale K,
  0 <= v → (n ≤ 9)%nat → 0 <= K → K * 10 ^ Z.of_nat n < 2 ^ 52 → is_int scale K →
  ∃ t scale', fmtFrac_loop n v true s = (true, t, v / 10 ^ Z.of_nat n) ∧ is_int scale' (K * 10 ^ Z.of_nat n) ∧
    leadingFraction t 0 scale false = leadingFraction s (v mod 10 ^ Z.of_nat n) scale' false.
Proof.
  induction n as [|n IH]; intros v s scale K Hv Hn HK Hb Hs.
  { exists s, scale. cbn. rewrite Z.div_1_r, Z.mod_1_r, Z.mul_1_r. done. }
  cbn [fmtFrac_loop orb]. rewrite Nat2Z.inj_succ, Z.pow_succ_r in * by lia.
  assert (P : 0 < 10 ^ Z.of_nat n) by (apply Z.pow_pos_nonneg; lia).
  assert (P9 : 10 ^ Z.of_nat n <= 10 ^ 9) by (apply Z.pow_le_mono_r; lia).
  destruct (IH (v / 10) (String (digit_char (v mod 10)) s) scale K) as (t & sc & Et & Hi & El);
    [apply Z.div_pos; lia|lia|lia|nia|done|].
  exists t, (fmul sc (float64 10)). split; [|split].
  - rewrite Et. by rewrite Z.div_div by lia.
  - replace (K * (10 * 10 ^ Z.of_nat n)) with (K * 10 ^ Z.of_nat n * 10) by ring.
    apply fmul_is_int; [done|by apply float64_is_int|nia].
  - rewrite El, leadingFraction_digit; [|apply Z.mod_pos_bound; lia|].
    + f_equal. rewrite Z.rem_mul_r by lia. ring.
    + pose proof (Z.mod_pos_bound (v / 10) (10 ^ Z.of_nat n) P). lia.
Qed.

(** What [fmtFrac] prints reads back as the fraction. *)
Lemma frac_loop_spec n : ∀ v s,
  0 <= v → (n ≤ 9)%nat →
  (v mod 10 ^ Z.of_nat n = 0 ∧ fmtFrac_loop n v false s = (false, s, v / 10 ^ Z.of_nat n)) ∨
  ∃ t f k scale, fmtFrac_loop n v false s = (true, t, v / 10 ^ Z.of_nat n) ∧ (k ≤ n)%nat ∧ 0 < f ∧
    f * 10 ^ Z.of_nat (n - k) = v mod 10 ^ Z.of_nat n ∧ is_int scale (10 ^ Z.of_nat k) ∧
    leadingFraction t 0 (float64 1) false = leadingFraction s f scale false.
Proof.
  induction n as [|n IH]; intros v s Hv Hn.
  { left. cbn. rewrite Z.div_1_r, Z.mod_1_r. done. }
  cbn [fmtFrac_loop orb]. rewrite !Nat2Z.inj_succ, !Z.pow_succ_r by lia.
  assert (P : 0 < 10 ^ Z.of_nat n) by (apply Z.pow_pos_nonneg; lia).
  assert (Em : v mod (10 * 10 ^ Z.of_nat n) = v mod 10 + 10 * ((v / 10) mod 10 ^ Z.of_nat n))
    by (apply Z.rem_mul_r; lia).
  assert (Ed : v / (10 * 10 ^ Z.of_nat n) = v / 10 / 10 ^ Z.of_nat n) by (rewrite Z.div_div by lia; done).
  destruct (Z.eqb_spec (v mod 10) 0) as [E|E]; cbn [negb].
  - destruct (IH (v / 10) s) as [[Hz El]|(t & f & k & sc & El & Hk & Hf & Hm & Hi & Hl)];
      [apply Z.div_pos; lia|lia|left|right].
    + split; [lia|]. by rewrite El, Ed.
    + exists t, f, k, sc. split_and!; [by rewrite El, Ed|lia|done| |done|done].
      rewrite Nat.sub_succ_l, Nat2Z.inj_succ, Z.pow_succ_r by lia. lia.
  - right. destruct (frac_all n (v / 10) (String (digit_char (v mod 10)) s) (float64 1) 1)
      as (t & sc & Et & Hi & El); [apply Z.div_pos; lia|lia|lia| |by apply float64_is_int|].
    { rewrite Z.mul_1_l. apply Z.le_lt_trans with (10 ^ 9); [apply Z.pow_le_mono_r; lia|done]. }
    pose proof (Z.mod_pos_bound v 10). pose proof (Z.mod_pos_bound (v / 10) (10 ^ Z.of_nat n) P).
    assert (P9 : 10 ^ Z.of_nat n <= 10 ^ 9) by (apply Z.pow_le_mono_r; lia).
    exists t, (v mod (10 * 10 ^ Z.of_nat n)), (S n), (fmul sc (float64 10)). split_and!.
    + by rewrite Et, Ed.
    + lia.
    + lia.
    + rewrite Nat.sub_diag. cbn. lia.
    + rewrite Nat2Z.inj_succ, Z.pow_succ_r, Z.mul_comm by lia. rewrite Z.mul_1_l in Hi.
      apply fmul_is_int; [done|by apply float64_is_int|lia].
    + rewrite El, leadingFraction_digit by lia. f_equal. rewrite Em. ring.
Qed.

(** ** The round trip *)

Lemma leadingFraction_stop s f scale : stops s = true → leadingFraction s f scale false = (f, scale, s).
Proof. destruct s as [|c s]; [done|]. intros [_ H]%stops_digit. cbn. by rewrite H. Qed.

Lemma length_append (a b : string) : String.length (a +:+ b) = (String.length a + String.length b)%nat.
Proof. induction a as [|c a IH]; [done|]. exact (f_equal S IH). Qed.

Lemma itoa_longer v t : 0 <= v → (String.length t =? String.length (itoa_loop 20 v t))%nat = false.
Proof.
  intros Hv. apply Nat.eqb_neq. rewrite <- (Itoa_app v t), length_append by done.
  destruct (itoa_loop_head 20 v "") as (d & s & _ & E); [lia|].
  unfold Itoa. destruct (Z.ltb_spec v 0); [lia|]. rewrite E. simpl. lia.
Qed.

(** The value of a printed fraction, as the parser computes it. *)
Lemma frac_value f k n scale :
  (k ≤ n)%nat → (n ≤ 9)%nat → 0 < f → f * 10 ^ Z.of_nat (n - k) < 2 ^ 52 → is_int scale (10 ^ Z.of_nat k) →
  ftrunc (fmul (float64 f) (fdiv (float64 (10 ^ Z.of_nat n)) scale)) = f * 10 ^ Z.of_nat (n - k).
Proof.
  intros Hk Hn Hf Hb Hs. assert (0 < 10 ^ Z.of_nat (n - k)) by (apply Z.pow_pos_nonneg; lia).
  assert (10 ^ Z.of_nat (n - k) * 10 ^ Z.of_nat k = 10 ^ Z.of_nat n) as E by (rewrite <- Z.pow_add_r by lia; f_equal; lia).
  assert (10 ^ Z.of_nat n <= 10 ^ 9) by (apply Z.pow_le_mono_r; lia).
  apply ftrunc_is_int, fmul_is_int; [apply float64_is_int; nia| |nia].
  apply fdiv_is_int with (10 ^ Z.of_nat k); [|done|apply Z.pow_pos_nonneg; lia|nia].
  rewrite E. apply float64_is_int. pose proof (Z.pow_pos_nonneg 10 (Z.of_nat n)). lia.
Qed.

(** One printed component: an integer, its fraction of [n] digits and the unit. *)
Lemma parse_component fuel v w n u unit rest d :
  0 <= v <= 2 ^ 63 → 0 <= w → (n ≤ 9)%nat → n = 0%nat ∨ unit = 10 ^ Z.of_nat n →
  unitMap u = Some unit → 0 < unit < 2 ^ 52 → stops u = true → u ≠ "" → span_unit (u +:+ rest) = (u, rest) →
  0 <= d → d + v * unit + w mod 10 ^ Z.of_nat n <= 2 ^ 63 →
  parse_loop (S fuel) (Itoa v +:+ (fmtFrac w n (u +:+ rest)).1) d
  = parse_loop fuel rest (d + v * unit + w mod 10 ^ Z.of_nat n).
Proof.
  intros Hv Hw Hn Hu Hmap Hunit Hstop Hne Hspan Hd Hsum.
  rewrite Itoa_app by lia. set (s := (fmtFrac w n (u +:+ rest)).1).
  assert (Hi : leadingInt (itoa_loop 20 v s) 0 = leadingInt s v).
  { apply leadingInt_itoa; [|lia]. split; [lia|]. apply Z.le_lt_trans with (2 ^ 63); [lia|done]. }
  destruct (itoa_loop_head 20 v s) as (dg & tl & Hdg & Etl); [lia|].
  assert (Hstop' : stops (u +:+ rest) = true) by (by destruct u).
  assert (Hdiv : (2 ^ 63 / unit <? v) = false).
  { apply Z.ltb_ge. apply Z.div_le_lower_bound; [lia|]. pose proof (Z.mod_pos_bound w (10 ^ Z.of_nat n)).
    pose proof (Z.pow_pos_nonneg 10 (Z.of_nat n)). nia. }
  rewrite Etl. cbn [parse_loop]. rewrite <- Etl. rewrite is_digit_char, orb_true_r by done. cbn [negb].
  rewrite Hi. destruct (frac_loop_spec n w (u +:+ rest) Hw Hn) as [[Hz El]|(t & f & k & sc & El & Hk & Hf & Hm & Hs & Hl)].
  - assert (Es : s = u +:+ rest) by (subst s; unfold fmtFrac; by rewrite El).
    rewrite Es. destruct u as [|c u]; [done|]. change (String c u +:+ rest) with (String c (u +:+ rest)) in *.
    destruct (stops_digit _ _ Hstop) as [Hdot Hdig]. rewrite leadingInt_stop by done.
    rewrite itoa_longer, Hdot by lia. cbn [negb andb]. rewrite Hspan. cbn [String.eqb].
    rewrite Hmap, Hdiv, Hz. change (0 <? 0) with false. cbn [andb].
    rewrite (u64_id (v * unit)) by (unfold is_u64; nia). rewrite u64_id by (unfold is_u64; nia).
    rewrite Z.add_0_r. by destruct (Z.ltb_spec (2 ^ 63) (d + v * unit)); [lia|].
  - assert (Es : s = String "." t) by (subst s; unfold fmtFrac; by rewrite El).
    destruct Hu as [->|Hu].
    { exfalso. rewrite Z.mod_1_r in Hm. pose proof (Z.pow_pos_nonneg 10 (Z.of_nat (0 - k))). nia. }
    rewrite Es. rewrite leadingInt_stop by done. rewrite itoa_longer by lia. cbn [Ascii.eqb Bool.eqb].
    rewrite Hl, leadingFraction_stop by done. cbn [negb andb]. rewrite Hspan.
    apply String.eqb_neq in Hne as ->. rewrite Hmap, Hdiv.
    assert (Hv9 : w mod 10 ^ Z.of_nat n < 10 ^ 9).
    { apply Z.lt_le_trans with (10 ^ Z.of_nat n); [apply Z.mod_pos_bound, Z.pow_pos_nonneg; lia|apply Z.pow_le_mono_r; lia]. }
    assert (Hfv : ftrunc (fmul (float64 f) (fdiv (float64 unit) sc)) = w mod 10 ^ Z.of_nat n).
    { rewrite Hu, <- Hm. apply frac_value; [done..| |done]. rewrite Hm. lia. }
    rewrite Hfv. pose proof (Z.mod_pos_bound w (10 ^ Z.of_nat n) ltac:(apply Z.pow_pos_nonneg; lia)).
    rewrite (u64_id (v * unit)) by (unfold is_u64; nia). rewrite (u64_id (v * unit + _)) by (unfold is_u64; nia).
    destruct (Z.ltb_spec 0 f); [|lia]. destruct (Z.ltb_spec (2 ^ 63) (v * unit + w mod 10 ^ Z.of_nat n)); [nia|].
    cbn [andb]. rewrite u64_id by (unfold is_u64; nia). rewrite Z.add_assoc.
    by destruct (Z.ltb_spec (2 ^ 63) (d + v * unit + w mod 10 ^ Z.of_nat n)); [lia|].
Qed.

(** What follows a component starts with a digit. *)
Lemma span_unit_itoa u v t :
  0 <= v → (∀ s, stops s = false → span_unit (u +:+ s) = (u, s)) → span_unit (u +:+ Itoa v +:+ t) = (u, Itoa v +:+ t).
Proof.
  intros Hv H. apply H. rewrite Itoa_app by done. destruct (itoa_loop_head 20 v t) as (d & s & Hd & ->); [lia|].
  cbn. by rewrite is_digit_char, orb_true_r.
Qed.

Lemma fmtFrac_quot w n acc : 0 <= w → (n ≤ 9)%nat → (fmtFrac w n acc).2 = w / 10 ^ Z.of_nat n.
Proof.
  intros Hw Hn. unfold fmtFrac. destruct (frac_loop_spec n w acc Hw Hn) as [[_ ->]|(t & f & k & sc & -> & _)]; done.
Qed.

Lemma length_Itoa v : 0 <= v → (1 ≤ String.length (Itoa v))%nat.
Proof.
  intros Hv. unfold Itoa. destruct (Z.ltb_spec v 0); [lia|].
  destruct (itoa_loop_head 20 v "") as (d & s & _ & ->); [lia|]. simpl. lia.
Qed.

Lemma length_frac w n acc : 0 <= w → (n ≤ 9)%nat → acc ≠ "" → (1 ≤ String.length (fmtFrac w n acc).1)%nat.
Proof.
  intros Hw Hn Ha. unfold fmtFrac. destruct (frac_loop_spec n w acc Hw Hn) as [[_ ->]|(t & f & k & sc & -> & _)]; simpl.
  - destruct acc; [done|]. simpl. lia.
  - lia.
Qed.

(** The last component alone. *)
Lemma parse_last fuel w n u d :
  0 <= w <= 2 ^ 63 → (n ≤ 9)%nat → unitMap u = Some (10 ^ Z.of_nat n) → stops u = true → u ≠ "" →
  span_unit u = (u, "") → 0 <= d → ∀ v, 0 <= v → d + v * 10 ^ Z.of_nat n + w mod 10 ^ Z.of_nat n <= 2 ^ 63 →
  parse_loop (S fuel) (Itoa v +:+ (fmtFrac w n u).1) d = Some (d + v * 10 ^ Z.of_nat n + w mod 10 ^ Z.of_nat n).
Proof.
  intros Hw Hn Hm Hs Hne Hspan Hd v Hv Hsum.
  assert (P : 0 < 10 ^ Z.of_nat n) by (apply Z.pow_pos_nonneg; lia).
  assert (10 ^ Z.of_nat n <= 10 ^ 9) by (apply Z.pow_le_mono_r; lia).
  pose proof (Z.mod_pos_bound w _ P).
  rewrite <- (string_app_nil_r u) at 1. rewrite (parse_component fuel v w n u (10 ^ Z.of_nat n)); [by destruct fuel|
    first [done|lia|nia|by right|by rewrite string_app_nil_r]..].
Qed.

Lemma itoa_first v t : 0 <= v → ∃ c s, Itoa v +:+ t = String c s ∧ is_digit c = true.
Proof.
  intros Hv. rewrite Itoa_app by done. destruct (itoa_loop_head 20 v t) as (d & s & Hd & ->); [lia|].
  exists (digit_char d), s. split; [done|]. by apply is_digit_char.
Qed.

(** A text of at least [k] characters gives the parser [k] rounds. *)
Lemma enough k n : (k ≤ n)%nat → ∃ j, n = (k + j)%nat.
Proof. intros. exists (n - k)%nat. lia. Qed.

Lemma parse_small u n unit :
  0 < u <= 2 ^ 63 → (n ≤ 9)%nat → unitMap unit = Some (10 ^ Z.of_nat n) → stops unit = true → unit ≠ "" →
  span_unit unit = (unit, "") →
  let s := Itoa (u / 10 ^ Z.of_nat n) +:+ (fmtFrac u n unit).1 in parse_loop (String.length s) s 0 = Some u.
Proof.
  intros Hu Hn Hm Hs Hne Hspan s. assert (P : 0 < 10 ^ Z.of_nat n) by (apply Z.pow_pos_nonneg; lia).
  pose proof (Z.div_pos u (10 ^ Z.of_nat n)). pose proof (Z.div_mod u (10 ^ Z.of_nat n)).
  destruct (enough 1 (String.length s)) as [j ->].
  { subst s. rewrite length_append. pose proof (length_Itoa (u / 10 ^ Z.of_nat n)). lia. }
  subst s. rewrite parse_last; try done; try lia. f_equal. lia.
Qed.

Definition secs (u : Z) : string := (fmtFrac u 9 "s").1.

Lemma parse_secs fuel u v d : 0 <= u <= 2 ^ 63 → 0 <= d → 0 <= v →
  d + v * Second + u mod Second <= 2 ^ 63 →
  parse_loop (S fuel) (Itoa v +:+ secs u) d = Some (d + v * Second + u mod Second).
Proof. intros. apply (parse_last fuel u 9 "s"); done || lia. Qed.

Lemma parse_unit fuel v u unit w t d :
  0 <= v <= 2 ^ 63 → unitMap u = Some unit → 0 < unit < 2 ^ 52 → stops u = true → u ≠ "" → 0 <= w →
  (∀ s, stops s = false → span_unit (u +:+ s) = (u, s)) → 0 <= d → d + v * unit <= 2 ^ 63 →
  parse_loop (S fuel) (Itoa v +:+ u +:+ Itoa w +:+ t) d = parse_loop fuel (Itoa w +:+ t) (d + v * unit).
Proof.
  intros Hv Hm Hu Hs Hne Hw Hspan Hd Hsum.
  change (u +:+ Itoa w +:+ t) with (fmtFrac 0 0 (u +:+ Itoa w +:+ t)).1.
  rewrite (parse_component fuel v 0 0 u unit); [by rewrite Z.mod_1_r, Z.add_0_r|
    first [done|lia|by left|by apply span_unit_itoa|rewrite Z.mod_1_r; lia]..].
Qed.

(** The text of a positive magnitude starts with a digit and reads back. *)
Lemma parse_positive u : 0 < u <= 2 ^ 63 → ∃ c t, format u = String c t ∧ is_digit c = true ∧
  parse_loop (String.length (String c t)) (String c t) 0 = Some u.
Proof.
  intros Hu.
  assert (Hstart : ∀ v t, 0 <= v → (let s := Itoa v +:+ t in parse_loop (String.length s) s 0 = Some u) →
    ∃ c t', Itoa v +:+ t = String c t' ∧ is_digit c = true ∧ parse_loop (String.length (String c t')) (String c t') 0 = Some u).
  { intros v t Hv H. destruct (itoa_first v t Hv) as (c & t' & E & Hd). exists c, t'. cbv zeta in H. by rewrite E in H. }
  unfold format. destruct (Z.ltb_spec u Second) as [Hlt|Hge].
  - assert (∀ n unit, (n ≤ 9)%nat → unitMap unit = Some (10 ^ Z.of_nat n) → stops unit = true → unit ≠ "" →
      span_unit unit = (unit, "") → ∃ c t, (let '(s, u) := fmtFrac u n unit in Itoa u +:+ s) = String c t ∧
        is_digit c = true ∧ parse_loop (String.length (String c t)) (String c t) 0 = Some u) as H.
    { intros n unit Hn H1 H2 H3 H4. pose proof (fmtFrac_quot u n unit ltac:(lia) Hn) as Eq.
      pose proof (parse_small u n unit Hu Hn H1 H2 H3 H4) as Hp. cbv zeta in Hp.
      destruct (fmtFrac u n unit) as [s q]. cbn [fst snd] in *. subst q. apply Hstart; [|done].
      apply Z.div_pos; [lia|]. apply Z.pow_pos_nonneg; lia. }
    destruct (u <? Microsecond); [by apply H; [lia|..]|]. destruct (u <? Millisecond); by apply H; [lia|..].
  - pose proof (fmtFrac_quot u 9 "s" ltac:(lia) ltac:(lia)) as Eq. fold (secs u).
    assert (Es : fmtFrac u 9 "s" = (secs u, u / Second)) by (rewrite (surjective_pairing (fmtFrac u 9 "s")), Eq; done).
    rewrite Es. cbv zeta.
    pose proof (Z.div_mod u Second ltac:(done)). pose proof (Z.mod_pos_bound u Second ltac:(done)).
    set (s := u / Second) in *. assert (0 < s) by (subst s; apply Z.div_str_pos; unfold Second in *; lia).
    pose proof (Z.div_mod s 60 ltac:(done)). pose proof (Z.mod_pos_bound s 60 ltac:(done)).
    assert (0 <= s / 60) by (apply Z.div_pos; lia). set (m := s / 60) in *.
    pose proof (Z.div_mod m 60 ltac:(done)). pose proof (Z.mod_pos_bound m 60 ltac:(done)).
    assert (0 <= m / 60) by (apply Z.div_pos; lia). set (h := m / 60) in *.
    assert (Hls : (1 ≤ String.length (secs u))%nat) by (apply length_frac; [lia|lia|done]).
    assert (Hspan : ∀ (x : ascii) s, is_digit x = false → Ascii.eqb x "." = false → stops s = false →
      span_unit (String x "" +:+ s) = (String x "", s)).
    { intros x s' Hx Hx' Hs'. change (String x "" +:+ s') with (String x s'). cbn [span_unit]. rewrite Hx, Hx'. cbn [orb]. destruct s' as [|y s']; [done|].
      cbn in Hs' |- *. apply negb_false_iff in Hs'. by rewrite Hs'. }
    destruct (Z.ltb_spec 0 m); [destruct (Z.ltb_spec 0 h)|].
    + apply Hstart; [lia|]. cbv zeta. set (txt := Itoa h +:+ _).
      destruct (enough 3 (String.length txt)) as [j ->].
      { subst txt. rewrite !length_append. pose proof (length_Itoa h). pose proof (length_Itoa (m mod 60)). simpl. lia. }
      cbn [Nat.add]. subst txt. rewrite (parse_unit _ h "h" Hour) by
        first [done|unfold Hour, Minute, Second in *; lia|intros; by apply Hspan].
      rewrite (parse_unit _ (m mod 60) "m" Minute) by
        first [done|unfold Hour, Minute, Second in *; lia|intros; by apply Hspan].
      rewrite parse_secs by (unfold Hour, Minute, Second in *; lia). f_equal. unfold Hour, Minute, Second in *; lia.
    + apply Hstart; [lia|]. cbv zeta. set (txt := Itoa (m mod 60) +:+ _).
      destruct (enough 2 (String.length txt)) as [j ->].
      { subst txt. rewrite !length_append. pose proof (length_Itoa (m mod 60)). simpl. lia. }
      cbn [Nat.add]. subst txt. rewrite (parse_unit _ (m mod 60) "m" Minute) by
        first [done|unfold Hour, Minute, Second in *; lia|intros; by apply Hspan].
      rewrite parse_secs by (unfold Hour, Minute, Second in *; lia). f_equal. unfold Hour, Minute, Second in *; lia.
    + apply Hstart; [lia|]. cbv zeta. set (txt := Itoa (s mod 60) +:+ _).
      destruct (enough 1 (String.length txt)) as [j ->].
      { subst txt. rewrite !length_append. pose proof (length_Itoa (s mod 60)). lia. }
      cbn [Nat.add]. subst txt. rewrite parse_secs by (unfold Second in *; lia). f_equal. unfold Second in *; lia.
Qed.

(** Parsing the printed form of a duration gives it back. *)
Lemma duration_roundtrip d : is_i64 d → ParseDuration (Duration_String d) = Some d.
Proof.
  unfold is_i64. intros Hd. unfold Duration_String.
  destruct (Z.ltb_spec d 0) as [Hneg|Hpos].
  - rewrite u64_id by (unfold is_u64; lia). destruct (parse_positive (- d)) as (c & t & E & Hc & Hp); [lia|].
    destruct (Z.eqb_spec (- d) 0); [lia|]. rewrite E. unfold ParseDuration. cbn [Ascii.eqb Bool.eqb].
    destruct (String.eqb_spec (String c t) "0") as [E0|_]; [by rewrite E0 in Hp|].
    destruct (String.eqb_spec (String c t) "") as [E1|_]; [done|]. rewrite Hp, Z.opp_involutive.
    by rewrite i64_id by (unfold is_i64; lia).
  - rewrite u64_id by (unfold is_u64; lia). destruct (Z.eqb_spec d 0) as [->|Hne]; [done|].
    destruct (parse_positive d) as (c & t & E & Hc & Hp); [lia|]. rewrite E. unfold ParseDuration.
    destruct (Ascii.eqb_spec c "-") as [->|_]; [done|]. destruct (Ascii.eqb_spec c "+") as [->|_]; [done|].
    destruct (String.eqb_spec (String c t) "0") as [E0|_]; [by rewrite E0 in Hp|].
    destruct (String.eqb_spec (String c t) "") as [E1|_]; [done|]. rewrite Hp.
    by destruct (Z.ltb_spec (2 ^ 63 - 1) d); [lia|].
Qed.

#[export] Hint Rewrite duration_roundtrip using (unfold is_i64 in *; lia) : agpu_rw.

Lemma parse_duration_range s d : ParseDuration s = Some d → d < 2 ^ 63.
Proof.
  unfold ParseDuration. destruct (match s with EmptyString => _ | String _ _ => _ end) as [neg t].
  destruct (String.eqb t "0"); [by intros [= <-]|]. destruct (String.eqb t ""); [done|].
  destruct (parse_loop _ t 0) as [x|]; [|done]. destruct neg.
  - intros [= <-]. pose proof (i64_range (- x)) as H. unfold is_i64 in H. lia.
  - destruct (Z.ltb_spec (2 ^ 63 - 1) x); [done|]. intros [= <-]. lia.
Qed.
