(* ===== verification/GoFlag.v ===== *)
(** * GoFlag.v: Go's flag package and strconv.ParseUint with base 0

    What the command line uses of [flag.FlagSet]: the parsing of the arguments into
    the assignments they make, in order, and the arguments left over. *)

From Stdlib Require Import Ascii.
From S2P Require Import Prelude Errors GoTime GoStrings GoConv GoText GoDuration.
Open Scope Z_scope.

(** ** strconv.ParseUint(s, 0, 64) *)

Definition lower_byte (c : ascii) : ascii :=
  let b := byte_of c in if (65 <=? b) && (b <=? 90) then ascii_of_N (Z.to_N (b + 32)) else c.
Definition digit_value (c : ascii) : option Z :=
  let b := byte_of (lower_byte c) in
  if (48 <=? b) && (b <=? 57) then Some (b - 48)
  else if (97 <=? b) && (b <=? 122) then Some (b - 97 + 10)
  else None.
(** The value of the digits, underscores skipped. *)
Fixpoint base_digits (base : Z) (s : string) (n : Z) : option Z :=
  match s with
  | EmptyString => Some n
  | String c s =>
      if Ascii.eqb c "_" then base_digits base s n
      else match digit_value c with
           | Some d => if d <? base then base_digits base s (n * base + d) else None
           | None => None
           end
  end.
(** Underscores stand between digits, or after the base prefix. *)
Inductive seen := SeenStart | SeenDigit | SeenUnderscore | SeenOther.
Fixpoint underscore_loop (hex : bool) (i : seen) (s : string) : bool :=
  match s with
  | EmptyString => match i with SeenUnderscore => false | _ => true end
  | String c s =>
      let b := byte_of (lower_byte c) in
      if ((48 <=? b) && (b <=? 57)) || (hex && (97 <=? b) && (b <=? 102)) then underscore_loop hex SeenDigit s
      else if Ascii.eqb c "_" then match i with SeenDigit => underscore_loop hex SeenUnderscore s | _ => false end
      else match i with SeenUnderscore => false | _ => underscore_loop hex SeenOther s end
  end.
Definition underscoreOK (s : string) : bool :=
  match s with
  | String "0" (String p r) =>
      let p := lower_byte p in
      if Ascii.eqb p "b" || Ascii.eqb p "o" || Ascii.eqb p "x" then underscore_loop (Ascii.eqb p "x") SeenDigit r
      else underscore_loop false SeenStart s
  | _ => underscore_loop false SeenStart s
  end.
Definition ParseUint0 (s : string) : option Z :=
  let '(base, digits) :=
    match s with
    | String "0" (String p (String c r)) =>
        let q := lower_byte p in
        if Ascii.eqb q "b" then (2, String c r) else if Ascii.eqb q "o" then (8, String c r)
        else if Ascii.eqb q "x" then (16, String c r) else (8, String p (String c r))
    | String "0" r => (8, r)
    | _ => (10, s)
    end in
  if String.eqb s "" then None
  else match base_digits base digits 0 with
       | None => None
       | Some n => if (n <=? maxUint64) && underscoreOK s then Some n else None
       end.
Example parse_uint0 : map ParseUint0 ["60"; "0x1F"; "017"; "1_000"; "0"; "08"; "_1"; "1__0"; ""; "18446744073709551616"; "0b"] =
  [Some 60; Some 31; Some 15; Some 1000; Some 0; None; None; None; None; None; None].
Proof. vm_compute. reflexivity. Qed.

(** ** flag.FlagSet *)

Inductive fkind := FString | FBool | FUint | FDuration.
#[export] Instance fkind_eq_dec : EqDecision fkind.
Proof. solve_decision. Defined.
Inductive fvalue := VString (s : string) | VBool (b : bool) | VUint (n : Z) | VDuration (d : Duration).
(** A flag writes to a variable; two flags may write to one. *)
Record flagdef := mkFlag { fd_name : string; fd_kind : fkind; fd_dest : string }.

Inductive flag_error :=
| FlagHelp                                  (* flag.ErrHelp *)
| FlagSyntax (s : string)
| FlagUndefined (name : string)
| FlagNoValue (name : string)
| FlagBadValue (value name : string).

Definition flag_Set (k : fkind) (v : string) : option fvalue :=
  match k with
  | FString => Some (VString v)
  | FBool => VBool <$> ParseBool v
  | FUint => VUint <$> ParseUint0 v
  | FDuration => VDuration <$> ParseDuration v
  end.

Definition lookup_flag (defs : list flagdef) (name : string) : option flagdef :=
  List.find (λ f, String.eqb (fd_name f) name) defs.

(** The name of a flag argument, without its dashes and value, and the value after
    an equals sign that is not the first byte. *)
Definition split_flag (name : string) : string * option string :=
  match name with
  | EmptyString => (name, None)
  | String c r => match cut "=" r with Some (n, v) => (String c n, Some v) | None => (name, None) end
  end.

(** An assignment: the flag, the variable and the value. *)
Definition assignment : Type := string * string * fvalue.

Inductive arg := ArgFlag (name : string) | ArgEnd | ArgPlain | ArgBad (s : string).
Definition classify_arg (s : string) : arg :=
  match s with
  | String "-" (String c r) =>
      let name := if Ascii.eqb c "-" then r else String c r in
      if Ascii.eqb c "-" && String.eqb r "" then ArgEnd
      else match name with
           | EmptyString => ArgBad s
           | String d _ => if Ascii.eqb d "-" || Ascii.eqb d "=" then ArgBad s else ArgFlag name
           end
  | _ => ArgPlain
  end.

Fixpoint flag_Parse (defs : list flagdef) (args : list string) : (list assignment * list string) + flag_error :=
  let then_ (a : assignment) (r : (list assignment * list string) + flag_error) :=
    match r with inl (l, rest) => inl (a :: l, rest) | inr e => inr e end in
  match args with
  | [] => inl ([], [])
  | s :: rest =>
      match classify_arg s with
      | ArgPlain => inl ([], args)
      | ArgEnd => inl ([], rest)
      | ArgBad s => inr (FlagSyntax s)
      | ArgFlag text =>
          let '(name, value) := split_flag text in
          match lookup_flag defs name with
          | None => if String.eqb name "help" || String.eqb name "h" then inr FlagHelp else inr (FlagUndefined name)
          | Some f =>
              match fd_kind f, value with
              | k, Some v =>
                  match flag_Set k v with
                  | Some x => then_ (name, fd_dest f, x) (flag_Parse defs rest)
                  | None => inr (FlagBadValue v name)
                  end
              | FBool, None => then_ (name, fd_dest f, VBool true) (flag_Parse defs rest)
              | k, None =>
                  match rest with
                  | [] => inr (FlagNoValue name)
                  | v :: rest =>
                      match flag_Set k v with
                      | Some x => then_ (name, fd_dest f, x) (flag_Parse defs rest)
                      | None => inr (FlagBadValue v name)
                      end
                  end
              end
          end
      end
  end.

(** The value of a variable after the assignments: the last one, or the default; a
    variable of repeated flags holds them all. *)
Definition flag_string (dest : string) (d : string) (l : list assignment) : string :=
  fold_left (λ acc '(_, t, v), match v with VString s => if String.eqb t dest then s else acc | _ => acc end) l d.
Definition flag_strings (dest : string) (l : list assignment) : list string :=
  omap (λ '(_, t, v), match v with VString s => if String.eqb t dest then Some s else None | _ => None end) l.
Definition flag_bool (dest : string) (l : list assignment) : bool :=
  fold_left (λ acc '(_, t, v), match v with VBool b => if String.eqb t dest then b else acc | _ => acc end) l false.
Definition flag_uint (dest : string) (l : list assignment) : Z :=
  fold_left (λ acc '(_, t, v), match v with VUint n => if String.eqb t dest then n else acc | _ => acc end) l 0.
Definition flag_duration (dest : string) (l : list assignment) : Duration :=
  fold_left (λ acc '(_, t, v), match v with VDuration n => if String.eqb t dest then n else acc | _ => acc end) l 0.
(** [FlagSet.Visit]. *)
Definition flag_given (name : string) (l : list assignment) : bool := existsb (λ '(n, _, _), String.eqb n name) l.

Example flag_parse_1 :
  let defs := [mkFlag "server" FString "server"; mkFlag "url" FString "server"; mkFlag "local" FBool "local"; mkFlag "rpm" FUint "rpm"] in
  flag_Parse defs ["--url=http://h"; "-local"; "--rpm"; "0x10"; "k1"; "--local=false"] =
    inl ([("url", "server", VString "http://h"); ("local", "local", VBool true); ("rpm", "rpm", VUint 16)], ["k1"; "--local=false"]) ∧
  flag_Parse defs ["--rpm"; "-1"] = inr (FlagBadValue "-1" "rpm") ∧ flag_Parse defs ["--nope"] = inr (FlagUndefined "nope") ∧
  flag_Parse defs ["-h"] = inr FlagHelp ∧ flag_Parse defs ["--"; "-x"] = inl ([], ["-x"]) ∧ flag_Parse defs ["-"] = inl ([], ["-"]).
Proof. vm_compute. done. Qed.
