(* ===== verification/Config.v ===== *)
(** * Config.v: start-up configuration (src/internal/config)

    Every process setting is resolved once, from a command-line flag, else an
    environment variable, else a default.  [look] and [homeDir] are the injectable
    readers of the source, [None] being Go's nil, for which the operating system's
    own are used; the Section's parameters stand for those. *)

From S2P Require Import Prelude Errors GoTime GoDuration GoStrings GoConv GoText.
Open Scope Z_scope.

Definition EnvLookup := string → option string.

(** ** Names and defaults *)

Definition EnvServerListen : string := "AGENTGPU_SERVER_LISTEN".
Definition EnvHTTPListen : string := "AGENTGPU_HTTP_LISTEN".
Definition EnvMetricsListen : string := "AGENTGPU_METRICS_LISTEN".
Definition EnvWorkerServer : string := "AGENTGPU_SERVER_ADDR".
Definition EnvWorkerID : string := "AGENTGPU_WORKER_ID".
Definition EnvStorePath : string := "AGENTGPU_STORE_PATH".
Definition EnvQuotaPath : string := "AGENTGPU_QUOTA_PATH".
Definition EnvHeartbeatInterval : string := "AGENTGPU_HEARTBEAT_INTERVAL".
Definition EnvHeartbeatTimeout : string := "AGENTGPU_HEARTBEAT_TIMEOUT".
Definition EnvOllamaURL : string := "AGENTGPU_OLLAMA_URL".
Definition EnvSessionPath : string := "AGENTGPU_SESSION_PATH".
Definition EnvSessionTTL : string := "AGENTGPU_SESSION_TTL".
Definition EnvMaxSessionsPerKey : string := "AGENTGPU_MAX_SESSIONS_PER_KEY".
Definition EnvSessionMaxTurns : string := "AGENTGPU_MAX_SESSION_TURNS".
Definition EnvSessionMaxContextTokens : string := "AGENTGPU_MAX_SESSION_CONTEXT_TOKENS".
Definition EnvSessionOverflowPolicy : string := "AGENTGPU_SESSION_OVERFLOW_POLICY".
Definition EnvModelWarmMax : string := "AGENTGPU_MODEL_WARM_MAX".
Definition EnvGPUDetect : string := "AGENTGPU_GPU_DETECT".
Definition EnvGPUType : string := "AGENTGPU_GPU_TYPE".
Definition EnvTotalVRAM : string := "AGENTGPU_TOTAL_VRAM".
Definition EnvGlobalRPM : string := "AGENTGPU_GLOBAL_RPM".
Definition EnvGlobalTPM : string := "AGENTGPU_GLOBAL_TPM".
Definition EnvHTTPAddr : string := "AGENTGPU_HTTP_ADDR".
Definition EnvToken : string := "AGENTGPU_TOKEN".
Definition EnvLogLevel : string := "AGENTGPU_LOG_LEVEL".
Definition EnvLogFormat : string := "AGENTGPU_LOG_FORMAT".
Definition EnvLogOutput : string := "AGENTGPU_LOG_OUTPUT".

Definition DefaultServerListen : string := "127.0.0.1:50051".
Definition DefaultHTTPListen : string := "127.0.0.1:8080".
Definition DefaultMetricsListen : string := "127.0.0.1:9090".
Definition DefaultHeartbeatInterval : Duration := 15 * Second.
Definition DefaultHeartbeatTimeout : Duration := 45 * Second.
Definition DefaultOllamaURL : string := "http://localhost:11434".
Definition DefaultSessionTTL : Duration := 30 * Minute.
Definition DefaultSessionMaxTurns : Z := 200.
Definition DefaultSessionMaxBytes : Z := Z.shiftl 1 20.
Definition DefaultMaxSessionsPerKey : Z := 0.
Definition DefaultSessionMaxContextTokens : Z := 0.
Definition DefaultSessionOverflowPolicy : string := "trim".
Definition DefaultModelWarmMax : Duration := Hour.
Definition DefaultGPUDetect : bool := true.
Definition DefaultHTTPAddr : string := "http://127.0.0.1:8080".
Definition DefaultLogLevel : string := "info".
Definition DefaultLogFormat : string := "json".
Definition DefaultLogOutput : string := "stderr".

(** ** The resolved values *)

Record ServerConfig := mkServerConfig { Listen : string; HTTPListen : string; MetricsListen : string }.
Record WorkerConfig := mkWorkerConfig { ServerAddr : string; WorkerID : string }.
Record QuotaConfig := mkQuotaConfig {
  Quota_Path : string; DefaultRPM : Z; DefaultTPM : Z; DefaultDailyTokens : Z; DefaultMonthlyTokens : Z;
  GlobalRPM : Z; GlobalTPM : Z }.
Record SessionConfig := mkSessionConfig {
  Session_Path : string; TTL : Duration; MaxTurns : Z; MaxBytes : Z; MaxContextTokens : Z; MaxSessionsPerKey : Z;
  OverflowPolicy_ : string; ModelWarmMax : Duration }.
Record LogConfig := mkLogConfig { Log_Level : string; Log_Format : string; Log_Output : string }.

(** ** Reading one variable *)

Definition envOr (look : EnvLookup) (key fallback : string) : string :=
  match look key with
  | Some v => if negb (String.eqb v "") then v else fallback
  | None => fallback
  end.

Definition durationEnvOr (look : EnvLookup) (key : string) (fallback : Duration) : Duration :=
  match look key with
  | Some v =>
      if negb (String.eqb v "") then
        match ParseDuration v with
        | Some d => if 0 <? d then d else fallback
        | None => fallback
        end
      else fallback
  | None => fallback
  end.

Definition uintEnvOr (look : EnvLookup) (key : string) (fallback : Z) : Z :=
  match look key with
  | Some v => if negb (String.eqb v "") then match ParseUint v with Some n => n | None => fallback end else fallback
  | None => fallback
  end.

Definition intEnvOr (look : EnvLookup) (key : string) (fallback : Z) : Z :=
  match look key with
  | Some v =>
      if negb (String.eqb v "") then
        match Atoi v with
        | Some n => if 0 <=? n then n else fallback
        | None => fallback
        end
      else fallback
  | None => fallback
  end.

Definition boolEnvOr (look : EnvLookup) (key : string) (fallback : bool) : bool :=
  match look key with
  | Some v => if negb (String.eqb v "") then match ParseBool v with Some b => b | None => fallback end else fallback
  | None => fallback
  end.

(** ** The resolvers *)

Definition MetricsListenDisabled : string := "-".

Definition MetricsListenAddr (resolved : string) : string :=
  if String.eqb resolved MetricsListenDisabled then "" else resolved.

Section resolve.
Context (os_LookupEnv : EnvLookup) (os_UserHomeDir os_Hostname : result string).

(** [if look == nil { look = os.LookupEnv }]. *)
Definition reader (look : option EnvLookup) : EnvLookup := default os_LookupEnv look.

Definition ResolveServer (flags : ServerConfig) (look : option EnvLookup) : ServerConfig :=
  let look := reader look in
  mkServerConfig
    (if String.eqb (Listen flags) "" then envOr look EnvServerListen DefaultServerListen else Listen flags)
    (if String.eqb (HTTPListen flags) "" then envOr look EnvHTTPListen DefaultHTTPListen else HTTPListen flags)
    (if String.eqb (MetricsListen flags) "" then envOr look EnvMetricsListen DefaultMetricsListen else MetricsListen flags).

Definition ResolveHeartbeatInterval (flagValue : Duration) (look : option EnvLookup) : Duration :=
  if 0 <? flagValue then flagValue else durationEnvOr (reader look) EnvHeartbeatInterval DefaultHeartbeatInterval.
Definition ResolveHeartbeatTimeout (flagValue : Duration) (look : option EnvLookup) : Duration :=
  if 0 <? flagValue then flagValue else durationEnvOr (reader look) EnvHeartbeatTimeout DefaultHeartbeatTimeout.
Definition ResolveOllamaURL (flagValue : string) (look : option EnvLookup) : string :=
  if negb (String.eqb flagValue "") then flagValue else envOr (reader look) EnvOllamaURL DefaultOllamaURL.
Definition ResolveHTTPAddr (flagValue : string) (look : option EnvLookup) : string :=
  if negb (String.eqb flagValue "") then flagValue else envOr (reader look) EnvHTTPAddr DefaultHTTPAddr.
Definition ResolveToken (flagValue : string) (look : option EnvLookup) : string :=
  if negb (String.eqb flagValue "") then flagValue else envOr (reader look) EnvToken "".
Definition ResolveGPUDetect (flagValue flagSet : bool) (look : option EnvLookup) : bool :=
  if flagSet then flagValue else boolEnvOr (reader look) EnvGPUDetect DefaultGPUDetect.
Definition ResolveGPUType (flagValue : string) (look : option EnvLookup) : string :=
  if negb (String.eqb flagValue "") then flagValue else envOr (reader look) EnvGPUType "".
Definition ResolveTotalVRAM (flagValue : Z) (look : option EnvLookup) : Z :=
  if negb (flagValue =? 0) then flagValue else uintEnvOr (reader look) EnvTotalVRAM 0.

(** [homeDir()] with the operating system's as nil default. *)
Definition state_file (name : string) (homeDir : option (result string)) : string :=
  match default os_UserHomeDir homeDir with
  | Err _ => path_Join [".agentgpu"; name]
  | Ok home => if String.eqb home "" then path_Join [".agentgpu"; name] else path_Join [home; ".agentgpu"; name]
  end.
Definition DefaultStorePath : option (result string) → string := state_file "keys.json".
Definition ResolveStorePath (flagValue : string) (look : option EnvLookup) (homeDir : option (result string)) : string :=
  if negb (String.eqb flagValue "") then flagValue else envOr (reader look) EnvStorePath (DefaultStorePath homeDir).
Definition DefaultQuotaPath : option (result string) → string := state_file "quota.json".
Definition ResolveQuotaPath (flagValue : string) (look : option EnvLookup) (homeDir : option (result string)) : string :=
  if negb (String.eqb flagValue "") then flagValue else envOr (reader look) EnvQuotaPath (DefaultQuotaPath homeDir).

Definition ResolveQuota (flags : QuotaConfig) (look : option EnvLookup) (homeDir : option (result string)) : QuotaConfig :=
  mkQuotaConfig (ResolveQuotaPath (Quota_Path flags) look homeDir)
    (DefaultRPM flags) (DefaultTPM flags) (DefaultDailyTokens flags) (DefaultMonthlyTokens flags)
    (if GlobalRPM flags =? 0 then uintEnvOr (reader look) EnvGlobalRPM 0 else GlobalRPM flags)
    (if GlobalTPM flags =? 0 then uintEnvOr (reader look) EnvGlobalTPM 0 else GlobalTPM flags).

Definition DefaultSessionPath : option (result string) → string := state_file "sessions.json".
Definition ResolveSessionPath (flagValue : string) (look : option EnvLookup) (homeDir : option (result string)) : string :=
  if negb (String.eqb flagValue "") then flagValue else envOr (reader look) EnvSessionPath (DefaultSessionPath homeDir).
Definition ResolveSessionTTL (flagValue : Duration) (look : option EnvLookup) : Duration :=
  if 0 <? flagValue then flagValue else durationEnvOr (reader look) EnvSessionTTL DefaultSessionTTL.
Definition ResolveModelWarmMax (flagValue : Duration) (look : option EnvLookup) : Duration :=
  if 0 <? flagValue then flagValue else durationEnvOr (reader look) EnvModelWarmMax DefaultModelWarmMax.
Definition ResolveSessionMaxTurns (flagValue : Z) (look : option EnvLookup) : Z :=
  if 0 <? flagValue then flagValue else intEnvOr (reader look) EnvSessionMaxTurns DefaultSessionMaxTurns.
Definition ResolveMaxSessionsPerKey (flagValue : Z) (look : option EnvLookup) : Z :=
  if 0 <? flagValue then flagValue else intEnvOr (reader look) EnvMaxSessionsPerKey DefaultMaxSessionsPerKey.
Definition ResolveSessionMaxContextTokens (flagValue : Z) (look : option EnvLookup) : Z :=
  if 0 <? flagValue then flagValue else intEnvOr (reader look) EnvSessionMaxContextTokens DefaultSessionMaxContextTokens.
Definition ResolveSessionOverflowPolicy (flagValue : string) (look : option EnvLookup) : string :=
  if negb (String.eqb flagValue "") then flagValue
  else envOr (reader look) EnvSessionOverflowPolicy DefaultSessionOverflowPolicy.

Definition ResolveSession (flags : SessionConfig) (look : option EnvLookup) (homeDir : option (result string))
    : SessionConfig :=
  mkSessionConfig (ResolveSessionPath (Session_Path flags) look homeDir)
    (ResolveSessionTTL (TTL flags) look)
    (ResolveSessionMaxTurns (MaxTurns flags) look)
    (if MaxBytes flags <=? 0 then DefaultSessionMaxBytes else MaxBytes flags)
    (ResolveSessionMaxContextTokens (MaxContextTokens flags) look)
    (ResolveMaxSessionsPerKey (MaxSessionsPerKey flags) look)
    (ResolveSessionOverflowPolicy (OverflowPolicy_ flags) look)
    (ResolveModelWarmMax (ModelWarmMax flags) look).

Definition ResolveLog (flags : LogConfig) (look : option EnvLookup) : LogConfig :=
  let look := reader look in
  mkLogConfig
    (if String.eqb (Log_Level flags) "" then envOr look EnvLogLevel DefaultLogLevel else Log_Level flags)
    (if String.eqb (Log_Format flags) "" then envOr look EnvLogFormat DefaultLogFormat else Log_Format flags)
    (if String.eqb (Log_Output flags) "" then envOr look EnvLogOutput DefaultLogOutput else Log_Output flags).

Definition ResolveWorker (flags : WorkerConfig) (look : option EnvLookup) (hostname : option (result string)) : WorkerConfig :=
  let look := reader look in
  let addr := if String.eqb (ServerAddr flags) "" then envOr look EnvWorkerServer "" else ServerAddr flags in
  let id := if String.eqb (WorkerID flags) "" then envOr look EnvWorkerID "" else WorkerID flags in
  let id := if String.eqb id "" then match default os_Hostname hostname with Ok h => h | Err _ => id end else id in
  mkWorkerConfig addr id.
End resolve.

(** ** Precedence

    A source offers a value or nothing; the first offer in the order flag,
    variable, default counts. *)
Definition first_of {A} (flag env : option A) (d : A) : A :=
  match flag with Some v => v | None => default d env end.

(** The text of a variable; set to empty counts as unset. *)
Definition set_text (look : EnvLookup) (key : string) : option string :=
  match look key with Some v => if String.eqb v "" then None else Some v | None => None end.
(** What a flag, or a variable's parsed text, offers. *)
Definition when {A} (usable : A → bool) (v : A) : option A := if usable v then Some v else None.
Definition nonempty (s : string) : bool := negb (String.eqb s "").
Definition positive (n : Z) : bool := 0 <? n.
Definition counting (n : Z) : bool := 0 <=? n.
Definition from_env {A} (parse : string → option A) (usable : A → bool) (look : EnvLookup) (key : string) : option A :=
  match set_text look key with
  | Some v => match parse v with Some a => when usable a | None => None end
  | None => None
  end.

Ltac resolve_cases := unfold first_of, from_env, set_text, when, nonempty, positive, counting in *;
  repeat (case_match; simplify_eq/=; zbool; subst; try done; try lia).

Lemma envOr_first look key d : envOr look key d = first_of None (set_text look key) d.
Proof. unfold envOr. resolve_cases. Qed.
Lemma durationEnvOr_first look key d : durationEnvOr look key d = first_of None (from_env ParseDuration positive look key) d.
Proof. unfold durationEnvOr. resolve_cases. Qed.
Lemma uintEnvOr_first look key d :
  uintEnvOr look key d = first_of None (from_env ParseUint (λ _, true) look key) d.
Proof. unfold uintEnvOr. resolve_cases. Qed.
Lemma intEnvOr_first look key d : intEnvOr look key d = first_of None (from_env Atoi counting look key) d.
Proof. unfold intEnvOr. resolve_cases. Qed.

Lemma text_first look (flag key d : string) :
  (if nonempty flag then flag else envOr look key d) = first_of (when nonempty flag) (set_text look key) d.
Proof. rewrite envOr_first. unfold when. by destruct (nonempty flag). Qed.
Lemma duration_first look flag key d :
  (if positive flag then flag else durationEnvOr look key d) = first_of (when positive flag) (from_env ParseDuration positive look key) d.
Proof. rewrite durationEnvOr_first. unfold when. by destruct (positive flag). Qed.
Lemma count_first look flag key d :
  (if positive flag then flag else intEnvOr look key d) = first_of (when positive flag) (from_env Atoi counting look key) d.
Proof. rewrite intEnvOr_first. unfold when. by destruct (positive flag). Qed.

Lemma if_empty (flag : string) (d : string) : (if String.eqb flag "" then d else flag) = if nonempty flag then flag else d.
Proof. unfold nonempty. by destruct (String.eqb flag ""). Qed.

(** *** What comes out *)

Lemma path_Join_nonempty elem : elem ≠ [] → Forall (λ e, e ≠ "") elem → path_Join elem ≠ "".
Proof.
  destruct elem as [|e rest]; [done|]. intros _ He. inversion_clear He as [|? ? He' _].
  cbn [path_Join]. rewrite (proj2 (String.eqb_neq _ _) He'). unfold Clean.
  destruct (String.prefix _ _); [done|]. case_match; zbool; done.
Qed.

Lemma state_file_nonempty h name homeDir : name ≠ "" → state_file h name homeDir ≠ "".
Proof.
  intros. unfold state_file. destruct (default h homeDir) as [home|]; [case_match|]; zbool;
    apply path_Join_nonempty; auto.
Qed.

Lemma first_text flag env d : d ≠ "" → env ≠ Some "" → first_of (when nonempty flag) env d ≠ "".
Proof. intros. resolve_cases. destruct env; simpl; congruence. Qed.
Lemma set_text_nonempty look key : set_text look key ≠ Some "".
Proof. unfold set_text. repeat case_match; zbool; congruence. Qed.

Lemma first_duration flag look key d :
  is_i64 flag → 0 < d < 2 ^ 63 → 0 < first_of (when positive flag) (from_env ParseDuration positive look key) d < 2 ^ 63.
Proof.
  unfold is_i64. intros. resolve_cases.
  match goal with H : ParseDuration _ = Some _ |- _ => apply parse_duration_range in H end. simpl. lia.
Qed.

Lemma Atoi_range s n : Atoi s = Some n → is_i64 n.
Proof.
  unfold Atoi, ParseInt. repeat case_match; intros; simplify_eq/=; zbool; zlia.
Qed.

Lemma first_count flag look key d :
  is_i64 flag → 0 <= d < 2 ^ 63 → 0 <= first_of (when positive flag) (from_env Atoi counting look key) d < 2 ^ 63.
Proof.
  unfold is_i64. intros. resolve_cases.
  match goal with H : Atoi _ = Some _ |- _ => apply Atoi_range in H end. unfold is_i64 in *. simpl. lia.
Qed.

Lemma uintEnvOr_range look key : is_u64 (uintEnvOr look key 0).
Proof. unfold uintEnvOr. repeat case_match; eauto with agpu; by unfold is_u64. Qed.

(** The numbers a command line hands over fit their Go types. *)
Definition session_flags_ok (f : SessionConfig) : Prop :=
  is_i64 (TTL f) ∧ is_i64 (MaxTurns f) ∧ is_i64 (MaxBytes f) ∧ is_i64 (MaxContextTokens f) ∧
  is_i64 (MaxSessionsPerKey f) ∧ is_i64 (ModelWarmMax f).

(** A session configuration every component accepts: bounded positive windows, caps
    that are not negative, a file name and a policy name. *)
Record usable_session (c : SessionConfig) : Prop := {
  us_path : Session_Path c ≠ "";
  us_ttl : 0 < TTL c < 2 ^ 63;
  us_warm : 0 < ModelWarmMax c < 2 ^ 63;
  us_turns : 0 <= MaxTurns c < 2 ^ 63;
  us_bytes : 0 < MaxBytes c < 2 ^ 63;
  us_context : 0 <= MaxContextTokens c < 2 ^ 63;
  us_perKey : 0 <= MaxSessionsPerKey c < 2 ^ 63;
  us_policy : OverflowPolicy_ c ≠ "" }.

Lemma session_ext (a b : SessionConfig) :
  Session_Path a = Session_Path b → TTL a = TTL b → MaxTurns a = MaxTurns b → MaxBytes a = MaxBytes b →
  MaxContextTokens a = MaxContextTokens b → MaxSessionsPerKey a = MaxSessionsPerKey b →
  OverflowPolicy_ a = OverflowPolicy_ b → ModelWarmMax a = ModelWarmMax b → a = b.
Proof. destruct a, b; simpl; congruence. Qed.

Section facts.
Context (os_LookupEnv : EnvLookup) (os_UserHomeDir os_Hostname : result string).
Notation reader := (reader os_LookupEnv).
Notation ResolveSession := (ResolveSession os_LookupEnv os_UserHomeDir).
Notation ResolveQuota := (ResolveQuota os_LookupEnv os_UserHomeDir).

(** Each session setting is the first usable offer of flag, variable and default:
    durations must be positive, counts from variables not negative, a number that
    does not parse counts as absent. *)
Lemma session_precedence flags look home :
  let out := ResolveSession flags look home in let r := reader look in
  TTL out = first_of (when positive (TTL flags)) (from_env ParseDuration positive r EnvSessionTTL) DefaultSessionTTL ∧
  ModelWarmMax out =
    first_of (when positive (ModelWarmMax flags)) (from_env ParseDuration positive r EnvModelWarmMax) DefaultModelWarmMax ∧
  MaxTurns out =
    first_of (when positive (MaxTurns flags)) (from_env Atoi counting r EnvSessionMaxTurns) DefaultSessionMaxTurns ∧
  MaxContextTokens out =
    first_of (when positive (MaxContextTokens flags)) (from_env Atoi counting r EnvSessionMaxContextTokens) 0 ∧
  MaxSessionsPerKey out =
    first_of (when positive (MaxSessionsPerKey flags)) (from_env Atoi counting r EnvMaxSessionsPerKey) 0 ∧
  MaxBytes out = first_of (when positive (MaxBytes flags)) None DefaultSessionMaxBytes ∧
  OverflowPolicy_ out =
    first_of (when nonempty (OverflowPolicy_ flags)) (set_text r EnvSessionOverflowPolicy) DefaultSessionOverflowPolicy ∧
  Session_Path out =
    first_of (when nonempty (Session_Path flags)) (set_text r EnvSessionPath) (DefaultSessionPath os_UserHomeDir home).
Proof.
  cbv zeta. unfold Config.ResolveSession. cbn [TTL ModelWarmMax MaxTurns MaxContextTokens MaxSessionsPerKey MaxBytes
    OverflowPolicy_ Session_Path]. split_and!; try apply duration_first; try apply count_first; try apply text_first.
  unfold first_of, when, positive. destruct (Z.leb_spec (MaxBytes flags) 0), (Z.ltb_spec 0 (MaxBytes flags)); (done || lia).
Qed.

Lemma session_usable flags look home :
  session_flags_ok flags → usable_session (ResolveSession flags look home).
Proof.
  intros (H1 & H2 & H3 & H4 & H5 & H6).
  destruct (session_precedence flags look home) as (E1 & E2 & E3 & E4 & E5 & E6 & E7 & E8).
  split; rewrite ?E1, ?E2, ?E3, ?E4, ?E5, ?E6, ?E7, ?E8.
  - apply first_text; [by apply state_file_nonempty|apply set_text_nonempty].
  - by apply first_duration.
  - by apply first_duration.
  - by apply first_count.
  - unfold is_i64 in H3. unfold first_of, when, positive. case_match; case_match; simplify_eq/=; zbool; [lia|].
    unfold DefaultSessionMaxBytes. by vm_compute.
  - by apply first_count.
  - by apply first_count.
  - apply first_text; [done|apply set_text_nonempty].
Qed.

Lemma heartbeat_usable flag look :
  is_i64 flag → 0 < ResolveHeartbeatTimeout os_LookupEnv flag look < 2 ^ 63 ∧
                0 < ResolveHeartbeatInterval os_LookupEnv flag look < 2 ^ 63.
Proof.
  intros. split; [unfold ResolveHeartbeatTimeout|unfold ResolveHeartbeatInterval];
    change (0 <? flag) with (positive flag); rewrite duration_first; by apply first_duration.
Qed.

Lemma quota_usable flags look home :
  is_u64 (GlobalRPM flags) → is_u64 (GlobalTPM flags) →
  let out := ResolveQuota flags look home in
  is_u64 (GlobalRPM out) ∧ is_u64 (GlobalTPM out) ∧ Quota_Path out ≠ "".
Proof.
  intros H1 H2. cbn. split_and!; [case_match; [apply uintEnvOr_range|done]..|].
  unfold ResolveQuotaPath. fold (nonempty (Quota_Path flags)). rewrite text_first.
  apply first_text; [by apply state_file_nonempty|apply set_text_nonempty].
Qed.

Lemma first_of_idem {A} (usable : A → bool) flag env d :
  first_of (when usable (first_of (when usable flag) env d)) env d = first_of (when usable flag) env d.
Proof.
  unfold first_of, when. destruct (usable flag) eqn:E; [by rewrite E|].
  destruct env as [v|]; simpl; [by destruct (usable v)|by destruct (usable d)].
Qed.

(** Resolving what is already resolved changes nothing, so a setting resolved in
    two places is the same in both. *)
Lemma resolve_idempotent flags look home :
  ResolveSession (ResolveSession flags look home) look home = ResolveSession flags look home.
Proof.
  destruct (session_precedence flags look home) as (E1 & E2 & E3 & E4 & E5 & E6 & E7 & E8).
  destruct (session_precedence (ResolveSession flags look home) look home) as (F1 & F2 & F3 & F4 & F5 & F6 & F7 & F8).
  apply session_ext; cbv zeta in *; rewrite ?F1, ?F2, ?F3, ?F4, ?F5, ?F6, ?F7, ?F8,
    ?E1, ?E2, ?E3, ?E4, ?E5, ?E6, ?E7, ?E8; apply first_of_idem.
Qed.

(** A variable only matters to its own settings. *)
Definition session_vars : list string :=
  [EnvSessionPath; EnvSessionTTL; EnvModelWarmMax; EnvSessionMaxTurns; EnvSessionMaxContextTokens; EnvMaxSessionsPerKey;
   EnvSessionOverflowPolicy].
Lemma session_reads_own flags l1 l2 home :
  (∀ v, v ∈ session_vars → l1 v = l2 v) →
  ResolveSession flags (Some l1) home = ResolveSession flags (Some l2) home.
Proof.
  intros H. unfold Config.ResolveSession, ResolveSessionPath, ResolveSessionTTL, ResolveModelWarmMax, ResolveSessionMaxTurns,
    ResolveSessionMaxContextTokens, ResolveMaxSessionsPerKey, ResolveSessionOverflowPolicy, envOr, durationEnvOr, intEnvOr.
  change (Config.reader os_LookupEnv (Some l1)) with l1. change (Config.reader os_LookupEnv (Some l2)) with l2.
  by rewrite (H EnvSessionPath), (H EnvSessionTTL), (H EnvModelWarmMax), (H EnvSessionMaxTurns),
    (H EnvSessionMaxContextTokens), (H EnvMaxSessionsPerKey), (H EnvSessionOverflowPolicy) by (unfold session_vars; set_solver).
Qed.
End facts.
