(* ===== verification/Types.v ===== *)
(** * Types.v: internal/types, the shared domain types and their wire conversions

    Go structs are records; the generated protobuf messages of
    [proto/agentgpu/v1] that the conversions read and build are the [Pb*]
    records, and a protobuf pointer is an [option] whose getters are nil-safe.
    A slice is a [list] where the code only looks at its elements and length,
    and an [option (list _)] ([None] for nil) where the code compares it with
    nil ([Heartbeat.AvailableModels]).  [uint32], [uint64] and [int64] fields
    are [Z]. *)

From S2P Require Import Prelude Errors GoTime.

Record Model := mkModel { Model_Name : string; Model_Digest : string }.

Record ToolCall := mkToolCall {
  ToolCall_ID : string;
  ToolCall_Type : string;
  ToolCall_FunctionName : string;
  ToolCall_Arguments : string }.

Record Message := mkMessage {
  Message_Role : string;
  Message_Content : string;
  Message_ToolCallID : string;
  Message_Name : string;
  Message_ToolCalls : list ToolCall }.

Record ToolFunction := mkToolFunction {
  ToolFunction_Name : string;
  ToolFunction_Description : string;
  ToolFunction_Parameters : string }.

Record Tool := mkTool { Tool_Type : string; Tool_Function : ToolFunction }.

Record Job := mkJob {
  Job_ID : string;
  Job_Model : string;
  Job_Prompt : string;
  Job_Messages : list Message;
  Job_Tools : list Tool;
  Job_SessionID : string;
  Job_KeepAliveSeconds : Z }.

Record JobResult := mkJobResult {
  JobResult_JobID : string;
  JobResult_Output : string;
  JobResult_Err : option JobError;
  JobResult_Tokens : Z;
  JobResult_ToolCalls : list ToolCall;
  JobResult_FinishReason : string;
  JobResult_PromptTokens : Z;
  JobResult_CompletionTokens : Z }.

Record JobChunk := mkJobChunk {
  JobChunk_JobID : string;
  JobChunk_Delta : string;
  JobChunk_Done : bool;
  JobChunk_Err : option JobError;
  JobChunk_Tokens : Z;
  JobChunk_ToolCalls : list ToolCall;
  JobChunk_FinishReason : string;
  JobChunk_PromptTokens : Z;
  JobChunk_CompletionTokens : Z }.

Record Heartbeat := mkHeartbeat {
  Heartbeat_WorkerID : string;
  Heartbeat_ActiveJobs : Z;
  Heartbeat_TotalVRAM : Z;
  Heartbeat_FreeVRAM : Z;
  Heartbeat_Load : Z;
  Heartbeat_GPUType : string;
  Heartbeat_AvailableModels : option (list Model) }.

Inductive WorkerStatus := WorkerOnline | WorkerDraining | WorkerStale.

Definition WorkerStatus_String (s : WorkerStatus) : string :=
  match s with
  | WorkerOnline => "online"
  | WorkerDraining => "draining"
  | WorkerStale => "stale"
  end.

Record Worker := mkWorker {
  Worker_ID : string;
  Worker_Models : list Model;
  Worker_LastSeen : Time;
  Worker_ActiveJobs : Z;
  Worker_TotalVRAM : Z;
  Worker_FreeVRAM : Z;
  Worker_Load : Z;
  Worker_GPUType : string;
  Worker_Status : WorkerStatus;
  Worker_RegisteredAt : Time }.

#[export] Instance Model_eq_dec : EqDecision Model.
Proof. solve_decision. Defined.
#[export] Instance ToolCall_eq_dec : EqDecision ToolCall.
Proof. solve_decision. Defined.
#[export] Instance Message_eq_dec : EqDecision Message.
Proof. solve_decision. Defined.
#[export] Instance ToolFunction_eq_dec : EqDecision ToolFunction.
Proof. solve_decision. Defined.
#[export] Instance Tool_eq_dec : EqDecision Tool.
Proof. solve_decision. Defined.
#[export] Instance Job_eq_dec : EqDecision Job.
Proof. solve_decision. Defined.
#[export] Instance JobResult_eq_dec : EqDecision JobResult.
Proof. solve_decision. Defined.
#[export] Instance JobChunk_eq_dec : EqDecision JobChunk.
Proof. solve_decision. Defined.
#[export] Instance WorkerStatus_eq_dec : EqDecision WorkerStatus.
Proof. solve_decision. Defined.
#[export] Instance Worker_eq_dec : EqDecision Worker.
Proof. solve_decision. Defined.

(** Zero values. *)
Definition Model_zero : Model := mkModel "" "".
Definition ToolCall_zero : ToolCall := mkToolCall "" "" "" "".
Definition Message_zero : Message := mkMessage "" "" "" "" [].
Definition Tool_zero : Tool := mkTool "" (mkToolFunction "" "" "").
Definition Job_zero : Job := mkJob "" "" "" [] [] "" 0.
Definition JobResult_zero : JobResult := mkJobResult "" "" None 0 [] "" 0 0.
Definition JobChunk_zero : JobChunk := mkJobChunk "" "" false None 0 [] "" 0 0.
Definition Heartbeat_zero : Heartbeat := mkHeartbeat "" 0 0 0 0 "" None.

(** [Job.Validate]. *)
Definition Job_Validate (j : Job) : option error :=
  if String.eqb (Job_ID j) "" then Some (EJoin ErrInvalidJob (ENew "missing id"))
  else if String.eqb (Job_Model j) "" then Some (EJoin ErrInvalidJob (ENew "missing model"))
  else None.

(** [job.KeepAliveSeconds = k], the only field the dispatch path writes. *)
Definition Job_set_KeepAliveSeconds (k : Z) (j : Job) : Job :=
  mkJob (Job_ID j) (Job_Model j) (Job_Prompt j) (Job_Messages j) (Job_Tools j)
    (Job_SessionID j) k.

(** ** Protobuf messages *)

Record PbModel := mkPbModel { PbModel_Name : string; PbModel_Digest : string }.
Record PbError := mkPbError { PbError_Code : string; PbError_Message : string }.
Record PbToolCall := mkPbToolCall {
  PbToolCall_Id : string; PbToolCall_Type : string;
  PbToolCall_FunctionName : string; PbToolCall_ArgumentsJson : string }.
Record PbChatMessage := mkPbChatMessage {
  PbChatMessage_Role : string; PbChatMessage_Content : string;
  PbChatMessage_ToolCallId : string; PbChatMessage_Name : string;
  PbChatMessage_ToolCalls : list (option PbToolCall) }.
Record PbToolFunction := mkPbToolFunction {
  PbToolFunction_Name : string; PbToolFunction_Description : string;
  PbToolFunction_ParametersJson : string }.
Record PbTool := mkPbTool {
  PbTool_Type : string; PbTool_Function : option PbToolFunction }.
Record PbJob := mkPbJob {
  PbJob_Id : string; PbJob_Model : string; PbJob_Prompt : string;
  PbJob_Messages : list (option PbChatMessage); PbJob_Tools : list (option PbTool);
  PbJob_KeepAliveSeconds : Z }.
Record PbJobResult := mkPbJobResult {
  PbJobResult_JobId : string; PbJobResult_Output : string;
  PbJobResult_Error : option PbError; PbJobResult_Tokens : Z;
  PbJobResult_ToolCalls : list (option PbToolCall);
  PbJobResult_FinishReason : string;
  PbJobResult_PromptTokens : Z; PbJobResult_CompletionTokens : Z }.
Record PbJobChunk := mkPbJobChunk {
  PbJobChunk_JobId : string; PbJobChunk_Delta : string; PbJobChunk_Done : bool;
  PbJobChunk_Error : option PbError; PbJobChunk_Tokens : Z;
  PbJobChunk_ToolCalls : list (option PbToolCall);
  PbJobChunk_FinishReason : string;
  PbJobChunk_PromptTokens : Z; PbJobChunk_CompletionTokens : Z }.
Record PbHeartbeat := mkPbHeartbeat {
  PbHeartbeat_WorkerId : string; PbHeartbeat_ActiveJobs : Z;
  PbHeartbeat_TotalVramBytes : Z; PbHeartbeat_FreeVramBytes : Z;
  PbHeartbeat_Load : Z; PbHeartbeat_GpuType : string;
  PbHeartbeat_AvailableModels : option (list (option PbModel)) }.

(** ** Conversions *)

Definition Model_Proto (m : Model) : option PbModel :=
  Some (mkPbModel (Model_Name m) (Model_Digest m)).

Definition ModelFromProto (p : option PbModel) : Model :=
  match p with
  | None => Model_zero
  | Some p => mkModel (PbModel_Name p) (PbModel_Digest p)
  end.

Definition ModelsFromProto (ps : option (list (option PbModel))) : option (list Model) :=
  match ps with
  | None => None
  | Some ps => Some (map ModelFromProto ps)
  end.

Definition ModelsToProto (ms : option (list Model)) : option (list (option PbModel)) :=
  match ms with
  | None => None
  | Some ms => Some (map Model_Proto ms)
  end.

Definition ToolCall_Proto (t : ToolCall) : option PbToolCall :=
  Some (mkPbToolCall (ToolCall_ID t) (ToolCall_Type t) (ToolCall_FunctionName t)
    (ToolCall_Arguments t)).

Definition ToolCallFromProto (p : option PbToolCall) : ToolCall :=
  match p with
  | None => ToolCall_zero
  | Some p => mkToolCall (PbToolCall_Id p) (PbToolCall_Type p)
      (PbToolCall_FunctionName p) (PbToolCall_ArgumentsJson p)
  end.

Definition ToolCallsToProto (ts : list ToolCall) : list (option PbToolCall) :=
  if (length ts =? 0)%nat then [] else map ToolCall_Proto ts.

Definition ToolCallsFromProto (ps : list (option PbToolCall)) : list ToolCall :=
  if (length ps =? 0)%nat then [] else map ToolCallFromProto ps.

Definition Message_Proto (m : Message) : option PbChatMessage :=
  Some (mkPbChatMessage (Message_Role m) (Message_Content m) (Message_ToolCallID m)
    (Message_Name m) (ToolCallsToProto (Message_ToolCalls m))).

Definition MessageFromProto (p : option PbChatMessage) : Message :=
  match p with
  | None => Message_zero
  | Some p => mkMessage (PbChatMessage_Role p) (PbChatMessage_Content p)
      (PbChatMessage_ToolCallId p) (PbChatMessage_Name p)
      (ToolCallsFromProto (PbChatMessage_ToolCalls p))
  end.

Definition messagesToProto (ms : list Message) : list (option PbChatMessage) :=
  if (length ms =? 0)%nat then [] else map Message_Proto ms.

Definition messagesFromProto (ps : list (option PbChatMessage)) : list Message :=
  if (length ps =? 0)%nat then [] else map MessageFromProto ps.

Definition Tool_Proto (t : Tool) : option PbTool :=
  Some (mkPbTool (Tool_Type t)
    (Some (mkPbToolFunction (ToolFunction_Name (Tool_Function t))
       (ToolFunction_Description (Tool_Function t))
       (ToolFunction_Parameters (Tool_Function t))))).

Definition ToolFromProto (p : option PbTool) : Tool :=
  match p with
  | None => Tool_zero
  | Some p =>
      mkTool (PbTool_Type p)
        match PbTool_Function p with
        | None => mkToolFunction "" "" ""
        | Some fn => mkToolFunction (PbToolFunction_Name fn)
            (PbToolFunction_Description fn) (PbToolFunction_ParametersJson fn)
        end
  end.

Definition toolsToProto (ts : list Tool) : list (option PbTool) :=
  if (length ts =? 0)%nat then [] else map Tool_Proto ts.

Definition toolsFromProto (ps : list (option PbTool)) : list Tool :=
  if (length ps =? 0)%nat then [] else map ToolFromProto ps.

(** [SessionID] is a server-side hint and does not cross the wire. *)
Definition Job_Proto (j : Job) : option PbJob :=
  Some (mkPbJob (Job_ID j) (Job_Model j) (Job_Prompt j)
    (messagesToProto (Job_Messages j)) (toolsToProto (Job_Tools j))
    (Job_KeepAliveSeconds j)).

Definition JobFromProto (p : option PbJob) : Job :=
  match p with
  | None => Job_zero
  | Some p => mkJob (PbJob_Id p) (PbJob_Model p) (PbJob_Prompt p)
      (messagesFromProto (PbJob_Messages p)) (toolsFromProto (PbJob_Tools p)) ""
      (PbJob_KeepAliveSeconds p)
  end.

Definition JobError_Proto (e : option JobError) : option PbError :=
  match e with
  | None => None
  | Some e => Some (mkPbError (JobError_Code e) (JobError_Message e))
  end.

Definition JobErrorFromProto (p : option PbError) : option JobError :=
  match p with
  | None => None
  | Some p => Some (mkJobError (PbError_Code p) (PbError_Message p))
  end.

Definition JobResult_Proto (r : JobResult) : option PbJobResult :=
  Some (mkPbJobResult (JobResult_JobID r) (JobResult_Output r)
    (JobError_Proto (JobResult_Err r)) (JobResult_Tokens r)
    (ToolCallsToProto (JobResult_ToolCalls r)) (JobResult_FinishReason r)
    (JobResult_PromptTokens r) (JobResult_CompletionTokens r)).

Definition JobResultFromProto (p : option PbJobResult) : JobResult :=
  match p with
  | None => JobResult_zero
  | Some p => mkJobResult (PbJobResult_JobId p) (PbJobResult_Output p)
      (JobErrorFromProto (PbJobResult_Error p)) (PbJobResult_Tokens p)
      (ToolCallsFromProto (PbJobResult_ToolCalls p)) (PbJobResult_FinishReason p)
      (PbJobResult_PromptTokens p) (PbJobResult_CompletionTokens p)
  end.

Definition JobChunk_Proto (c : JobChunk) : option PbJobChunk :=
  Some (mkPbJobChunk (JobChunk_JobID c) (JobChunk_Delta c) (JobChunk_Done c)
    (JobError_Proto (JobChunk_Err c)) (JobChunk_Tokens c)
    (ToolCallsToProto (JobChunk_ToolCalls c)) (JobChunk_FinishReason c)
    (JobChunk_PromptTokens c) (JobChunk_CompletionTokens c)).

Definition JobChunkFromProto (p : option PbJobChunk) : JobChunk :=
  match p with
  | None => JobChunk_zero
  | Some p => mkJobChunk (PbJobChunk_JobId p) (PbJobChunk_Delta p) (PbJobChunk_Done p)
      (JobErrorFromProto (PbJobChunk_Error p)) (PbJobChunk_Tokens p)
      (ToolCallsFromProto (PbJobChunk_ToolCalls p)) (PbJobChunk_FinishReason p)
      (PbJobChunk_PromptTokens p) (PbJobChunk_CompletionTokens p)
  end.

Definition Heartbeat_Proto (h : Heartbeat) : option PbHeartbeat :=
  Some (mkPbHeartbeat (Heartbeat_WorkerID h) (Heartbeat_ActiveJobs h)
    (Heartbeat_TotalVRAM h) (Heartbeat_FreeVRAM h) (Heartbeat_Load h)
    (Heartbeat_GPUType h) (ModelsToProto (Heartbeat_AvailableModels h))).

Definition HeartbeatFromProto (p : option PbHeartbeat) : Heartbeat :=
  match p with
  | None => Heartbeat_zero
  | Some p => mkHeartbeat (PbHeartbeat_WorkerId p) (PbHeartbeat_ActiveJobs p)
      (PbHeartbeat_TotalVramBytes p) (PbHeartbeat_FreeVramBytes p)
      (PbHeartbeat_Load p) (PbHeartbeat_GpuType p)
      (ModelsFromProto (PbHeartbeat_AvailableModels p))
  end.

(** ** Round trips *)

(** The conversion of a slice of [A] through pointers is inverted when the
    element conversion is; the nil short-cut of the sources changes nothing. *)
Lemma slice_roundtrip {A B} (f : A → B) (g : B → A) (l : list A) :
  (∀ a, g (f a) = a) →
  let l' := if (length l =? 0)%nat then [] else map f l in
  (if (length l' =? 0)%nat then [] else map g l') = l.
Proof.
  intros Hfg. destruct l as [|a l]; [done|]. simpl.
  rewrite Hfg, map_map. f_equal. induction l; simpl; f_equal; auto.
Qed.

Lemma toolCalls_roundtrip ts : ToolCallsFromProto (ToolCallsToProto ts) = ts.
Proof. apply slice_roundtrip. by intros []. Qed.

Lemma message_roundtrip m : MessageFromProto (Message_Proto m) = m.
Proof. destruct m; simpl. by rewrite toolCalls_roundtrip. Qed.

Lemma messages_roundtrip ms : messagesFromProto (messagesToProto ms) = ms.
Proof. apply slice_roundtrip, message_roundtrip. Qed.

Lemma tools_roundtrip ts : toolsFromProto (toolsToProto ts) = ts.
Proof. apply slice_roundtrip. by intros [? []]. Qed.

Lemma jobError_roundtrip e : JobErrorFromProto (JobError_Proto e) = e.
Proof. by destruct e as [[]|]. Qed.

Lemma models_roundtrip ms : ModelsFromProto (ModelsToProto ms) = ms.
Proof.
  destruct ms as [ms|]; [|done]. simpl. f_equal. rewrite map_map.
  induction ms as [|[] ms IH]; simpl; f_equal; auto.
Qed.

#[export] Hint Rewrite toolCalls_roundtrip messages_roundtrip tools_roundtrip
  jobError_roundtrip models_roundtrip : agpu_rw.

(** Results, chunks and heartbeats survive the conversion to the wire types. *)
Lemma jobResult_roundtrip r : JobResultFromProto (JobResult_Proto r) = r.
Proof. destruct r; simpl. by autorewrite with agpu_rw. Qed.

Lemma jobChunk_roundtrip c : JobChunkFromProto (JobChunk_Proto c) = c.
Proof. destruct c; simpl. by autorewrite with agpu_rw. Qed.

Lemma heartbeat_roundtrip h : HeartbeatFromProto (Heartbeat_Proto h) = h.
Proof. destruct h; simpl. by autorewrite with agpu_rw. Qed.

(** A job keeps every field but the session id, which is dropped. *)
Definition Job_without_session (j : Job) : Job :=
  mkJob (Job_ID j) (Job_Model j) (Job_Prompt j) (Job_Messages j) (Job_Tools j) ""
    (Job_KeepAliveSeconds j).

Lemma job_roundtrip j : JobFromProto (Job_Proto j) = Job_without_session j.
Proof. destruct j; unfold Job_without_session; simpl. by autorewrite with agpu_rw. Qed.
