(* ===== verification/GoHeap.v ===== *)
(** * GoHeap.v: Go's container/heap over a slice

    [heap.Push] and [heap.Pop] of the standard library, with their sift loops
    [up] and [down], over a slice whose [Less(i, j)] compares elements.  The
    loops run on fuel; [up_fuel] and [down_fuel] show the fuel [Push] and [Pop]
    give is enough (more never changes the result).  Every index the loops read
    or swap is below the length, so the total lookup never takes its default. *)

From S2P Require Import Prelude.

Section heap.
Context {A : Type} `{!Inhabited A} (less : A → A → bool).

(** [h.Less(i, j)], [h.Swap(i, j)]. *)
Definition less_at (h : list A) (i j : nat) : bool := less (h !!! i) (h !!! j).
Definition swap (h : list A) (i j : nat) : list A :=
  <[i := h !!! j]> (<[j := h !!! i]> h).

Definition parent (j : nat) : nat := (j - 1) / 2.

Fixpoint up (fuel : nat) (h : list A) (j : nat) : list A :=
  match fuel with
  | O => h
  | S fuel =>
      let i := parent j in
      if (i =? j) || negb (less_at h j i) then h
      else up fuel (swap h i j) i
  end.

Fixpoint down (fuel : nat) (h : list A) (i n : nat) : list A :=
  match fuel with
  | O => h
  | S fuel =>
      let j1 := 2 * i + 1 in
      if n <=? j1 then h
      else
        let j2 := j1 + 1 in
        let j := if (j2 <? n) && less_at h j2 j1 then j2 else j1 in
        if negb (less_at h j i) then h
        else down fuel (swap h i j) j n
  end.

(** [heap.Push(h, x)] with [h.Push] appending. *)
Definition Push (h : list A) (x : A) : list A :=
  let h := h ++ [x] in up (S (length h - 1)) h (length h - 1).

(** [heap.Pop(h)] with [h.Pop] removing the last element. *)
Definition Pop (h : list A) : option (A * list A) :=
  match h with
  | [] => None
  | _ =>
      let n := length h - 1 in
      let h := down (S n) (swap h 0 n) 0 n in
      Some (h !!! n, take n h)
  end.

(** ** Index arithmetic *)

Lemma parent_lt j : 0 < j → parent j < j.
Proof. intros. unfold parent. apply Nat.Div0.div_lt_upper_bound; lia. Qed.

Lemma parent_spec i j : 0 < j → parent j = i ↔ j = 2 * i + 1 ∨ j = 2 * i + 2.
Proof.
  intros. unfold parent.
  pose proof (Nat.div_mod_eq (j - 1) 2). pose proof (Nat.mod_upper_bound (j - 1) 2).
  lia.
Qed.

(** ** Swapping *)

Lemma length_swap h i j : length (swap h i j) = length h.
Proof. unfold swap. by rewrite !length_insert. Qed.

Lemma lookup_swap h i j k : i < length h → j < length h →
  swap h i j !!! k = if decide (k = i) then h !!! j else if decide (k = j) then h !!! i else h !!! k.
Proof.
  intros Hi Hj. unfold swap. rewrite !list_lookup_total_alt.
  repeat case_decide; subst; repeat
    first [rewrite list_lookup_insert_eq by (rewrite ?length_insert; lia)
          |rewrite list_lookup_insert_ne by done]; done.
Qed.

Lemma swap_Permutation h i j : i < length h → j < length h → swap h i j ≡ₚ h.
Proof.
  intros Hi Hj. apply Permutation_inj. split; [apply length_swap|].
  exists (λ k, if decide (k = i) then j else if decide (k = j) then i else k). split.
  - intros a b. repeat case_decide; congruence.
  - intros k. unfold swap.
    destruct (lookup_lt_is_Some_2 h i Hi) as [x Hx].
    destruct (lookup_lt_is_Some_2 h j Hj) as [y Hy].
    rewrite (list_lookup_total_correct _ _ _ Hx), (list_lookup_total_correct _ _ _ Hy).
    repeat case_decide; subst; repeat
      first [rewrite list_lookup_insert_eq by (rewrite ?length_insert; lia)
            |rewrite list_lookup_insert_ne by done]; congruence.
Qed.

(** ** The heap order *)

(** [le a b]: [b] is not strictly before [a]. *)
Definition le (a b : A) : Prop := less b a = false.

Class StrictWeakOrder : Prop := {
  less_asym a b : less a b = true → less b a = false;
  le_trans a b c : le a b → le b c → le a c }.

Definition heap_ok (h : list A) : Prop :=
  ∀ j, 0 < j < length h → le (h !!! parent j) (h !!! j).

(** The heap order broken only between [j] and its parent, with the parent of
    [j] still below the children of [j]. *)
Definition up_inv (h : list A) (j : nat) : Prop :=
  j < length h ∧
  (∀ k, 0 < k < length h → k ≠ j → le (h !!! parent k) (h !!! k)) ∧
  (∀ c, 0 < c < length h → parent c = j → 0 < j → le (h !!! parent j) (h !!! c)).

(** The heap order on the first [n] elements, broken only between [i] and its
    children, with the parent of [i] still below them. *)
Definition down_inv (h : list A) (i n : nat) : Prop :=
  n ≤ length h ∧
  (∀ k, 0 < k < n → parent k ≠ i → le (h !!! parent k) (h !!! k)) ∧
  (∀ c, 0 < c < n → parent c = i → 0 < i → le (h !!! parent i) (h !!! c)).

Context `{!StrictWeakOrder}.

Lemma le_refl a : le a a.
Proof. unfold le. destruct (less a a) eqn:E; [|done]. by rewrite (less_asym _ _ E) in E. Qed.

Lemma le_of_less a b : less a b = true → le a b.
Proof. apply less_asym. Qed.

Lemma up_length fuel h j : length (up fuel h j) = length h.
Proof.
  revert h j. induction fuel as [|f IH]; intros h j; simpl; [done|].
  case_match; [done|]. by rewrite IH, length_swap.
Qed.

Lemma down_length fuel h i n : length (down fuel h i n) = length h.
Proof.
  revert h i. induction fuel as [|f IH]; intros h i; simpl; [done|].
  repeat case_match; try done; by rewrite IH, length_swap.
Qed.

Lemma up_step_inv h j :
  up_inv h j → 0 < j → less_at h j (parent j) = true → up_inv (swap h (parent j) j) (parent j).
Proof.
  intros (Hj & Hk & Hc) H0 Hless. pose proof (parent_lt j H0) as Hp.
  assert (parent j < length h) as Hpl by lia.
  unfold up_inv. rewrite length_swap. split_and!; [lia| |].
  - intros k Hkl Hne. rewrite !lookup_swap by lia.
    destruct (decide (k = j)) as [->|Hkj].
    + rewrite (decide_False (P := j = parent j)), !decide_True by (done || lia).
      by apply le_of_less.
    + rewrite (decide_False (P := k = parent j)) by done.
      destruct (decide (parent k = parent j)) as [E|].
      * specialize (Hk k Hkl Hkj). rewrite E in Hk.
        eapply le_trans; [by apply le_of_less|done].
      * destruct (decide (parent k = j)) as [E|]; [|by apply Hk].
        apply Hc; [lia|done|lia].
  - intros c Hcl Hpc Hpos. rewrite !lookup_swap by lia.
    pose proof (parent_lt (parent j) Hpos). pose proof (parent_lt c ltac:(lia)).
    rewrite (decide_False (P := parent (parent j) = parent j)) by lia.
    rewrite (decide_False (P := parent (parent j) = j)) by lia.
    rewrite (decide_False (P := c = parent j)) by lia.
    assert (le (h !!! parent (parent j)) (h !!! parent j)) as Hpp by (apply Hk; lia).
    destruct (decide (c = j)) as [->|Hcj]; [done|].
    eapply le_trans; [exact Hpp|]. rewrite <- Hpc at 1. apply Hk; [lia|done].
Qed.

Lemma up_ok fuel h j : up_inv h j → j < fuel → heap_ok (up fuel h j).
Proof.
  revert h j. induction fuel as [|f IH]; intros h j Hinv Hf; [lia|]. simpl.
  destruct (Nat.eqb_spec (parent j) j) as [E|E]; simpl.
  { destruct Hinv as (Hj & Hk & _). intros k Hkl.
    assert (j = 0) by (destruct j; [done|]; pose proof (parent_lt (S j)); lia).
    subst. apply Hk; lia. }
  assert (0 < j) by (destruct j; [done|lia]).
  destruct (less_at h j (parent j)) eqn:Hl; simpl.
  - apply IH; [by apply up_step_inv|]. pose proof (parent_lt j). lia.
  - destruct Hinv as (Hj & Hk & _). intros k Hkl.
    destruct (decide (k = j)) as [->|]; [done|by apply Hk].
Qed.

Lemma up_Permutation fuel h j : j < length h → up fuel h j ≡ₚ h.
Proof.
  revert h j. induction fuel as [|f IH]; intros h j Hj; simpl; [done|].
  destruct ((parent j =? j) || _) eqn:E; [done|]. zbool.
  assert (parent j < j) by (apply parent_lt; destruct j; [done|lia]).
  rewrite IH by (rewrite length_swap; lia). apply swap_Permutation; lia.
Qed.

Lemma down_step_inv h i j n :
  down_inv h i n → 0 < j < n → parent j = i → less_at h j i = true →
  (∀ c, 0 < c < n → parent c = i → le (h !!! j) (h !!! c)) →
  down_inv (swap h i j) j n.
Proof.
  intros (Hn & Hk & Hc) Hj Hp Hless Hmin. pose proof (parent_lt j ltac:(lia)).
  unfold down_inv. rewrite length_swap. split_and!; [lia| |].
  - intros k Hkl Hne. pose proof (parent_lt k ltac:(lia)). rewrite !lookup_swap by lia.
    rewrite (decide_False (P := parent k = j)) by done.
    destruct (decide (parent k = i)) as [E|E].
    + rewrite (decide_False (P := k = i)) by lia.
      case_decide; [by apply le_of_less; subst|by apply Hmin; subst].
    + destruct (decide (k = i)) as [->|].
      * apply Hc; [lia|done|lia].
      * rewrite (decide_False (P := k = j)) by congruence. by apply Hk.
  - intros c Hcl Hpc _. pose proof (parent_lt c ltac:(lia)).
    rewrite !lookup_swap by lia.
    rewrite (decide_True (P := parent j = i)) by done.
    rewrite (decide_False (P := c = i)), (decide_False (P := c = j)) by lia.
    rewrite <- Hpc at 1. apply Hk; lia.
Qed.

(** The smaller child the loop selects. *)
Lemma down_child h i n :
  2 * i + 1 < n →
  let j := if (2 * i + 1 + 1 <? n) && less_at h (2 * i + 1 + 1) (2 * i + 1)
           then 2 * i + 1 + 1 else 2 * i + 1 in
  0 < j < n ∧ parent j = i ∧ (∀ c, 0 < c < n → parent c = i → le (h !!! j) (h !!! c)).
Proof.
  intros Hn j. assert (0 < j < n ∧ parent j = i) as [? ?].
  { subst j. case_match; zbool; (split; [lia|]; apply parent_spec; lia). }
  split_and!; [lia..|done|]. intros c Hc Hpc. apply parent_spec in Hpc; [|lia].
  subst j. destruct (Nat.ltb_spec (2 * i + 1 + 1) n); simpl.
  - destruct (less_at h _ _) eqn:E.
    + destruct Hpc as [->| ->]; [by apply le_of_less|].
      replace (2 * i + 2) with (2 * i + 1 + 1) by lia. apply le_refl.
    + destruct Hpc as [->| ->]; [apply le_refl|].
      by replace (2 * i + 2) with (2 * i + 1 + 1) by lia.
  - destruct Hpc as [->| ->]; [apply le_refl|lia].
Qed.

Definition heap_ok_n (h : list A) (n : nat) : Prop :=
  ∀ j, 0 < j < n → le (h !!! parent j) (h !!! j).

Lemma down_ok fuel h i n : down_inv h i n → n ≤ i + fuel → heap_ok_n (down fuel h i n) n.
Proof.
  revert h i. induction fuel as [|f IH]; intros h i Hinv Hf; cbn [down]; cbv zeta.
  { destruct Hinv as (_ & Hk & _). intros k Hkl. apply Hk; [lia|].
    pose proof (parent_lt k). lia. }
  destruct (Nat.leb_spec n (2 * i + 1)).
  { destruct Hinv as (_ & Hk & _). intros k Hkl. apply Hk; [lia|].
    intros Hp. apply parent_spec in Hp; lia. }
  destruct (down_child h i n ltac:(lia)) as (Hj & Hpj & Hmin).
  set (j := if _ && _ then _ else _) in *. pose proof (parent_lt j ltac:(lia)).
  destruct (less_at h j i) eqn:El; simpl.
  - apply IH; [by apply down_step_inv|lia].
  - destruct Hinv as (_ & Hk & _). intros k Hkl.
    destruct (decide (parent k = i)) as [E|]; [|by apply Hk].
    rewrite E. eapply le_trans; [exact El|by apply Hmin].
Qed.

Lemma down_Permutation fuel h i n : i < n → n ≤ length h → down fuel h i n ≡ₚ h.
Proof.
  revert h i. induction fuel as [|f IH]; intros h i Hi Hn; cbn [down]; cbv zeta; [done|].
  destruct (Nat.leb_spec n (2 * i + 1)); [done|].
  destruct (down_child h i n ltac:(lia)) as (Hj & _ & _).
  set (j := if _ && _ then _ else _) in *. case_match; [done|].
  rewrite IH by (rewrite ?length_swap; lia). apply swap_Permutation; lia.
Qed.

(** Positions at or above [n] are left alone. *)
Lemma down_above fuel h i n k :
  i < n → n ≤ k → k < length h → down fuel h i n !!! k = h !!! k.
Proof.
  revert h i. induction fuel as [|f IH]; intros h i Hi Hk Hl; cbn [down]; cbv zeta; [done|].
  destruct (Nat.leb_spec n (2 * i + 1)); [done|].
  destruct (down_child h i n ltac:(lia)) as (Hj & _ & _).
  set (j := if _ && _ then _ else _) in *. case_match; [done|].
  rewrite IH by (rewrite ?length_swap; lia). rewrite lookup_swap by lia.
  by rewrite !decide_False by lia.
Qed.

(** ** Fuel *)

Lemma up_fuel f1 f2 h j : j < f1 → j < f2 → up f1 h j = up f2 h j.
Proof.
  revert f2 h j. induction f1 as [|f1 IH]; intros [|f2] h j H1 H2; try lia. simpl.
  destruct ((parent j =? j) || _) eqn:E; [done|]. zbool.
  assert (parent j < j) by (apply parent_lt; destruct j; [done|lia]). apply IH; lia.
Qed.

Lemma down_fuel f1 f2 h i n : n ≤ i + f1 → n ≤ i + f2 → down f1 h i n = down f2 h i n.
Proof.
  revert f2 h i. induction f1 as [|f1 IH]; intros [|f2] h i H1 H2; cbn [down]; cbv zeta; try done.
  - destruct (Nat.leb_spec n (2 * i + 1)); [done|lia].
  - destruct (Nat.leb_spec n (2 * i + 1)); [done|lia].
  - destruct (Nat.leb_spec n (2 * i + 1)); [done|].
    destruct (down_child h i n ltac:(lia)) as (Hj & Hpj & _).
    set (j := if _ && _ then _ else _) in *. pose proof (parent_lt j ltac:(lia)).
    case_match; [done|]. apply IH; lia.
Qed.

(** ** Push and Pop *)

Lemma Push_Permutation h x : Push h x ≡ₚ x :: h.
Proof.
  unfold Push. rewrite up_Permutation by (rewrite length_app; simpl; lia).
  by rewrite Permutation_app_comm.
Qed.

Lemma Push_ok h x : heap_ok h → heap_ok (Push h x).
Proof.
  intros Hok. unfold Push. apply up_ok; [|lia].
  rewrite length_app; simpl. replace (length h + 1 - 1) with (length h) by lia.
  unfold up_inv. rewrite length_app; simpl. split_and!; [lia| |].
  - intros k Hk Hne. pose proof (parent_lt k ltac:(lia)).
    rewrite !lookup_total_app_l by lia. apply Hok; lia.
  - intros c Hc Hp _. pose proof (parent_lt c). lia.
Qed.

Lemma heap_root h x : heap_ok h → x ∈ h → le (h !!! 0) x.
Proof.
  intros Hok [k Hk]%list_elem_of_lookup.
  apply list_lookup_total_correct in Hk as Hx. apply lookup_lt_Some in Hk. subst x.
  induction k as [k IH] using lt_wf_ind. destruct k as [|k]; [apply le_refl|].
  pose proof (parent_lt (S k)).
  eapply le_trans; [apply (IH (parent (S k))); lia|]. apply Hok; lia.
Qed.

Lemma Pop_length h x h' : Pop h = Some (x, h') → length h = S (length h').
Proof.
  intros Hpop. unfold Pop in Hpop. destruct h as [|a t] eqn:Eh; [done|]. rewrite <- Eh in *.
  set (d := down _ _ _ _) in Hpop.
  assert (length d = length h) as Hd by (unfold d; by rewrite down_length, length_swap).
  injection Hpop as _ <-. rewrite length_take, Hd. subst; simpl; lia.
Qed.

(** What [Pop] does to the list, whether or not it is a heap. *)
Lemma Pop_parts h x h' :
  Pop h = Some (x, h') →
  let n := length h - 1 in let d := down (S n) (swap h 0 n) 0 n in
  0 < length h ∧ h' = take n d ∧ x = h !!! 0 ∧ h ≡ₚ x :: h'.
Proof.
  intros Hpop. assert (0 < length h) as Hlen by (destruct h; [done|simpl; lia]). intros n d.
  assert (Pop h = Some (d !!! n, take n d)) as E by (unfold Pop, d, n; by destruct h).
  rewrite E in Hpop. clear E. assert (length d = length h) as Hd by (unfold d; by rewrite down_length, length_swap).
  assert (d ≡ₚ h) as Hperm.
  { unfold d. destruct (decide (0 < n)).
    - rewrite down_Permutation by (rewrite ?length_swap; lia). apply swap_Permutation; lia.
    - replace n with 0 by lia. simpl. apply swap_Permutation; lia. }
  assert (d !!! n = h !!! 0) as Htop.
  { unfold d. destruct (decide (0 < n)).
    - rewrite down_above by (rewrite ?length_swap; lia). rewrite lookup_swap by lia.
      rewrite decide_False by lia. by rewrite decide_True.
    - replace n with 0 by lia. simpl. rewrite lookup_swap by lia. by rewrite decide_True. }
  assert (Eh' : take n d = h') by (by injection Hpop).
  assert (Ex : d !!! n = x) by (by injection Hpop). clear Hpop. subst x h'.
  split; [done|]. split; [done|]. split; [done|].
  assert (take n d ++ [d !!! n] = d) as Hsplit.
  { destruct (lookup_lt_is_Some_2 d n ltac:(lia)) as [y Hy].
    rewrite (list_lookup_total_correct _ _ _ Hy).
    rewrite <- (take_S_r _ _ _ Hy). apply take_ge. lia. }
  etrans; [symmetry; exact Hperm|]. rewrite <- Hsplit at 1. by rewrite Permutation_app_comm.
Qed.

Lemma Pop_spec h x h' :
  heap_ok h → Pop h = Some (x, h') →
  h ≡ₚ x :: h' ∧ heap_ok h' ∧ x = h !!! 0 ∧ (∀ y, y ∈ h → le x y).
Proof.
  intros Hok Hpop. destruct (Pop_parts h x h' Hpop) as (Hlen & Eh' & Ex & Hp).
  set (n := length h - 1) in *. set (d := down (S n) (swap h 0 n) 0 n) in *.
  assert (length d = length h) as Hd by (unfold d; by rewrite down_length, length_swap).
  split_and!; [done| |done|].
  - subst h'. intros j Hj. rewrite length_take in Hj. pose proof (parent_lt j ltac:(lia)).
    rewrite !lookup_total_take_lt by lia.
    assert (heap_ok_n d n) as Hn; [|by apply Hn; lia].
    unfold d. apply down_ok; [|lia]. unfold down_inv. rewrite length_swap.
    split_and!; [lia| |intros; lia].
    intros k Hk Hpk. rewrite !lookup_swap by lia. pose proof (parent_lt k ltac:(lia)).
    rewrite !decide_False by lia. apply Hok; lia.
  - intros y Hy. subst x. by apply heap_root.
Qed.

Lemma Pop_None h : Pop h = None ↔ h = [].
Proof. unfold Pop. destruct h; split; done. Qed.
End heap.
