(* ===== verification/GoSort.v ===== *)
(** * GoSort.v: package sort

    [sort.SliceStable] has one possible result, given here by insertion.
    [sort.Slice] may return any sorted permutation; where the sources use it the
    keys are distinct, which leaves one sorted permutation again ([sorted_unique]). *)

From S2P Require Import Prelude GoHeap.

Section sort.
Context {A : Type} (less : A → A → bool).

(** [x] goes in front of the first element it does not have to follow. *)
Fixpoint insert_stable (x : A) (l : list A) : list A :=
  match l with
  | [] => [x]
  | y :: l' => if less y x then y :: insert_stable x l' else x :: l
  end.
Definition SliceStable (l : list A) : list A := foldr insert_stable [] l.

Notation le := (le less).

Lemma insert_stable_perm x l : insert_stable x l ≡ₚ x :: l.
Proof.
  induction l as [|y l IH]; simpl; [done|]. case_match; [|done].
  rewrite IH. apply Permutation_swap.
Qed.

Lemma SliceStable_perm l : SliceStable l ≡ₚ l.
Proof. induction l as [|x l IH]; simpl; [done|]. by rewrite insert_stable_perm, IH. Qed.

Lemma SliceStable_length l : length (SliceStable l) = length l.
Proof. by rewrite SliceStable_perm. Qed.

Context `{!StrictWeakOrder less}.

Lemma insert_stable_sorted x l : StronglySorted le l → StronglySorted le (insert_stable x l).
Proof.
  induction 1 as [|y l Hs IH Hy]; simpl; [by repeat constructor|].
  destruct (less y x) eqn:E.
  - constructor; [done|]. rewrite insert_stable_perm. constructor; [|done]. by apply less_asym.
  - constructor; [by constructor|]. constructor; [done|].
    eapply Forall_impl; [exact Hy|]. intros z Hz. by apply (GoHeap.le_trans less x y z).
Qed.

Lemma SliceStable_sorted l : StronglySorted le (SliceStable l).
Proof. induction l; simpl; [constructor|]. by apply insert_stable_sorted. Qed.

(** Elements of one class (closed under being tied) keep their order. *)
Lemma insert_stable_filter (P : A → Prop) `{!∀ x, Decision (P x)} x l :
  (∀ a b, P a → less a b = true → ¬ P b) →
  filter P (insert_stable x l) = filter P (x :: l).
Proof.
  intros HP. induction l as [|y l IH]; simpl; [done|]. destruct (less y x) eqn:E; [|done].
  rewrite (filter_cons P y), IH, !filter_cons.
  destruct (decide (P y)) as [Hy|]; [|done]. pose proof (HP y x Hy E). by destruct (decide (P x)).
Qed.

Lemma SliceStable_filter (P : A → Prop) `{!∀ x, Decision (P x)} l :
  (∀ a b, P a → less a b = true → ¬ P b) → filter P (SliceStable l) = filter P l.
Proof.
  intros HP. induction l as [|x l IH]; simpl; [done|].
  by rewrite insert_stable_filter, !filter_cons, IH.
Qed.

(** A sorted list of elements of which no two are tied is the only sorted
    arrangement of them. *)
Lemma sorted_unique l l' :
  (∀ a b, a ∈ l → b ∈ l → le a b → le b a → a = b) →
  StronglySorted le l → StronglySorted le l' → l ≡ₚ l' → l = l'.
Proof.
  revert l'. induction l as [|x l IH]; intros l' Hanti Hs Hs' Hp.
  { symmetry. by apply Permutation_nil. }
  destruct l' as [|y l']; [by apply Permutation_nil_r in Hp|].
  inversion_clear Hs as [|? ? Hs1 Hx]. inversion_clear Hs' as [|? ? Hs2 Hy].
  assert (x = y) as ->.
  { assert (x ∈ y :: l') as Hxi by (rewrite <- Hp; set_solver).
    assert (y ∈ x :: l) as Hyi by (rewrite Hp; set_solver).
    apply elem_of_cons in Hxi as [?|Hxi]; [done|]. apply elem_of_cons in Hyi as [?|Hyi]; [done|].
    rewrite Forall_forall in Hx, Hy. apply Hanti; [set_solver..| |]; auto. }
  f_equal. apply IH; [set_solver|done..|by apply Permutation_cons_inv in Hp].
Qed.

(** Without ties the order of the input does not matter. *)
Lemma SliceStable_proper l l' :
  (∀ a b, a ∈ l → b ∈ l → le a b → le b a → a = b) → l ≡ₚ l' → SliceStable l = SliceStable l'.
Proof.
  intros Hanti Hp. apply sorted_unique; [|apply SliceStable_sorted..|by rewrite !SliceStable_perm].
  intros a b. rewrite SliceStable_perm. apply Hanti.
Qed.

(** A sorted list is left as it is. *)
Lemma SliceStable_id l : StronglySorted le l → SliceStable l = l.
Proof.
  induction 1 as [|x l Hs IH Hx]; simpl; [done|]. rewrite IH.
  destruct l as [|y l]; simpl; [done|]. inversion_clear Hx as [|? ? Hxy _].
  unfold GoHeap.le in Hxy. by rewrite Hxy.
Qed.
End sort.

(** Sorting commutes with a map that keeps the order. *)
Lemma SliceStable_map {A} (less : A → A → bool) (g : A → A) l :
  (∀ a b, less (g a) (g b) = less a b) → SliceStable less (map g l) = map g (SliceStable less l).
Proof.
  intros Hg. induction l as [|x l IH]; simpl; [done|]. rewrite IH. generalize (SliceStable less l) as o.
  induction o as [|y o IHo]; simpl; [done|]. rewrite Hg. destruct (less y x); simpl; [by rewrite IHo|done].
Qed.

(** Go compares strings by bytes. *)
Lemma ltb_false a b : String.ltb b a = false ↔ String.le a b.
Proof.
  unfold String.le, String.leb, String.ltb. rewrite (String.compare_antisym a b).
  by destruct (String.compare b a).
Qed.
Lemma string_order {A} (f : A → string) : StrictWeakOrder (λ a b, String.ltb (f a) (f b)).
Proof.
  split; unfold GoHeap.le; intros *; rewrite ?ltb_false.
  - unfold String.le, String.leb, String.ltb. by destruct (String.compare _ _).
  - intros. by etrans.
Qed.

Lemma string_keys_sorted {A} (f : A → string) l :
  StronglySorted String.le (map f (SliceStable (λ a b, String.ltb (f a) (f b)) l)).
Proof.
  induction (SliceStable_sorted _ (StrictWeakOrder0 := string_order f) l) as [|x o Hs IH Hx]; [constructor|].
  simpl. constructor; [exact IH|]. apply Forall_fmap. eapply Forall_impl; [exact Hx|]. intros y Hy. by apply ltb_false.
Qed.

(** Comparing integer ranks is a strict weak order, ascending or descending. *)
Lemma rank_order {A} (f : A → Z) : StrictWeakOrder (λ a b, (f a <? f b)%Z).
Proof. split; unfold GoHeap.le; intros; zbool; [apply Z.ltb_ge|apply Z.ltb_ge]; lia. Qed.
Lemma rank_order_desc {A} (f : A → Z) : StrictWeakOrder (λ a b, (f b <? f a)%Z).
Proof. split; unfold GoHeap.le; intros; zbool; [apply Z.ltb_ge|apply Z.ltb_ge]; lia. Qed.

Lemma StronglySorted_weaken {A} (R R' : A → A → Prop) l :
  (∀ a b, R a b → R' a b) → StronglySorted R l → StronglySorted R' l.
Proof. intros H. induction 1; constructor; [done|]. eapply Forall_impl; eauto. Qed.
