(* ===== verification/GoUrl.v ===== *)
(** * GoUrl.v: escaping of URLs

    The parts of net/url on both sides of the admin API: [PathEscape],
    [QueryEscape], [Values.Encode] on the client, [PathUnescape], [QueryUnescape]
    and [ParseQuery] on the server, byte for byte. *)

From Stdlib Require Import Ascii.
From S2P Require Import Prelude Errors GoTime GoFloat GoStrings GoConv GoText GoHeap GoSort.
Open Scope Z_scope.

(** ** Escaping *)

Inductive mode := PathSegment | QueryComponent.

Definition unreserved (c : ascii) : bool :=
  let b := byte_of c in
  ((97 <=? b) && (b <=? 122)) || ((65 <=? b) && (b <=? 90)) || ((48 <=? b) && (b <=? 57)) ||
  (b =? 45) || (b =? 95) || (b =? 46) || (b =? 126).
Definition char_in (c : ascii) (s : string) : bool := existsb (Ascii.eqb c) (String.list_ascii_of_string s).

Definition shouldEscape (m : mode) (c : ascii) : bool :=
  if unreserved c then false
  else if char_in c "$&+,/:;=?@"
  then match m with PathSegment => char_in c "/;,?" | QueryComponent => true end
  else true.

Definition upperhex (n : Z) : ascii := ascii_of_N (Z.to_N (if n <? 10 then 48 + n else 55 + n)).
Definition unhex (c : ascii) : option Z :=
  let b := byte_of c in
  if (48 <=? b) && (b <=? 57) then Some (b - 48)
  else if (97 <=? b) && (b <=? 102) then Some (b - 87)
  else if (65 <=? b) && (b <=? 70) then Some (b - 55)
  else None.

Fixpoint escape (m : mode) (s : string) : string :=
  match s with
  | EmptyString => EmptyString
  | String c s =>
      if shouldEscape m c then
        match m with
        | QueryComponent => if Ascii.eqb c " " then String "+" (escape m s)
                            else String "%" (String (upperhex (byte_of c / 16)) (String (upperhex (byte_of c mod 16)) (escape m s)))
        | PathSegment => String "%" (String (upperhex (byte_of c / 16)) (String (upperhex (byte_of c mod 16)) (escape m s)))
        end
      else String c (escape m s)
  end.
Definition PathEscape : string → string := escape PathSegment.
Definition QueryEscape : string → string := escape QueryComponent.

(** [None] is an invalid escape. *)
Fixpoint unescape (m : mode) (s : string) : option string :=
  match s with
  | EmptyString => Some EmptyString
  | String c s =>
      if Ascii.eqb c "%" then
        match s with
        | String a (String b s) =>
            match unhex a, unhex b with
            | Some x, Some y => String (ascii_of_N (Z.to_N (16 * x + y))) <$> unescape m s
            | _, _ => None
            end
        | _ => None
        end
      else String (match m with QueryComponent => if Ascii.eqb c "+" then " "%char else c | PathSegment => c end) <$> unescape m s
  end.
Definition PathUnescape : string → option string := unescape PathSegment.
Definition QueryUnescape : string → option string := unescape QueryComponent.

Example escape_1 : PathEscape "a b/c:1?é" = "a%20b%2Fc:1%3F%C3%A9" ∧ QueryEscape "a b&c=1" = "a+b%26c%3D1".
Proof. done. Qed.

(** ** Queries *)

(** A query with each name once, in the order of its [Set] calls. *)
Definition Values : Type := list (string * string).
Definition Values_Set (k v : string) (q : Values) : Values := filter (λ p, p.1 ≠ k) q ++ [(k, v)].
Definition pair_text (p : string * string) : string := QueryEscape p.1 +:+ "=" +:+ QueryEscape p.2.
Definition pairs_text (q : Values) : string := Join (map pair_text q) "&".
Definition pair_less (a b : string * string) : bool := String.ltb a.1 b.1.
Definition Encode (q : Values) : string := pairs_text (SliceStable pair_less q).

Definition parse_pair (p : string) : option (string * string) :=
  if Contains p ";" || String.eqb p "" then None
  else
    let '(k, v) := default (p, "") (cut "=" p) in
    match QueryUnescape k, QueryUnescape v with Some k, Some v => Some (k, v) | _, _ => None end.
Definition ParseQuery (s : string) : Values := omap parse_pair (Split s "&").
Definition Values_Get (q : Values) (k : string) : string :=
  match List.find (λ p, String.eqb p.1 k) q with Some (_, v) => v | None => "" end.

(** ** Round trips *)

Definition escaped_char (m : mode) (c : ascii) : string :=
  escape m (String c "").
Lemma escape_cons m c s : escape m (String c s) = escaped_char m c +:+ escape m s.
Proof. unfold escaped_char. cbn [escape]. destruct (shouldEscape m c), m; try done. by destruct (Ascii.eqb c " "). Qed.

Lemma unescape_char m c s : unescape m (escaped_char m c +:+ s) = String c <$> unescape m s.
Proof.
  assert (∃ e, escaped_char m c = e) as [e E] by eauto. rewrite E.
  destruct m; destruct c as [[] [] [] [] [] [] [] []]; vm_compute in E; subst e; reflexivity.
Qed.

Lemma unescape_escape m s : unescape m (escape m s) = Some s.
Proof. induction s as [|c s IH]; [done|]. by rewrite escape_cons, unescape_char, IH. Qed.

(** The separators do not occur in escaped text. *)
Lemma escape_no_sep m sep s : shouldEscape m sep = true → char_in sep "%0123456789ABCDEF+" = false → no_sep sep (escape m s).
Proof.
  intros H1 H2. assert (∀ c, no_sep sep (escaped_char m c)) as Hc.
  { intros c. destruct (decide (c = sep)) as [->|Hne].
    - destruct m; destruct sep as [[] [] [] [] [] [] [] []]; first [discriminate H1|discriminate H2|vm_compute; repeat split; discriminate].
    - unfold escaped_char. cbn [escape]. destruct (shouldEscape m c) eqn:Ec; [|by repeat split].
      assert (∀ n, 0 <= n < 16 → upperhex n ≠ sep) as Hu.
      { intros n Hn E. subst sep. assert (n = 0 ∨ n = 1 ∨ n = 2 ∨ n = 3 ∨ n = 4 ∨ n = 5 ∨ n = 6 ∨ n = 7 ∨ n = 8 ∨ n = 9 ∨
          n = 10 ∨ n = 11 ∨ n = 12 ∨ n = 13 ∨ n = 14 ∨ n = 15) as Hd by lia.
        repeat destruct Hd as [->|Hd]; try discriminate H2. subst n. discriminate H2. }
      assert (0 <= byte_of c < 256) as Hb by (unfold byte_of; pose proof (N_ascii_bounded c); lia).
      assert ("%"%char ≠ sep ∧ "+"%char ≠ sep) as [Hp Hq] by (split; intros <-; discriminate H2).
      assert (0 <= byte_of c / 16 < 16) as H3%Hu by (split; [apply Z.div_pos|apply Z.div_lt_upper_bound]; lia).
      assert (0 <= byte_of c mod 16 < 16) as H4%Hu by (apply Z.mod_pos_bound; lia).
      destruct m; [by repeat split|]. destruct (Ascii.eqb c " "); by repeat split. }
  induction s as [|c s IH]; [done|]. rewrite escape_cons. by apply no_sep_append.
Qed.

Lemma no_sep_Contains sep s : no_sep sep s → Contains s (String sep "") = false.
Proof.
  induction s as [|a s IH]; [done|]. intros [Ha Hs]. cbn [Contains String.prefix]. rewrite (IH Hs), orb_false_r.
  destruct (ascii_dec sep a); [by subst|done].
Qed.

Lemma parse_pair_text p : parse_pair (pair_text p) = Some p.
Proof.
  destruct p as [k v]. unfold parse_pair, pair_text. cbn [fst snd].
  assert (no_sep ";" (QueryEscape k +:+ "=" +:+ QueryEscape v)) as Hs.
  { apply no_sep_append; [by apply escape_no_sep|]. split; [discriminate|by apply escape_no_sep]. }
  rewrite (no_sep_Contains _ _ Hs). destruct (String.eqb_spec (QueryEscape k +:+ "=" +:+ QueryEscape v) "") as [E|_].
  { by destruct (QueryEscape k). }
  change (QueryEscape k +:+ "=" +:+ QueryEscape v) with (QueryEscape k +:+ String "=" (QueryEscape v)).
  rewrite cut_app by by apply escape_no_sep. cbn [from_option id orb]. unfold QueryUnescape, QueryEscape. by rewrite !unescape_escape.
Qed.

Lemma parse_pairs q : ParseQuery (pairs_text q) = q.
Proof.
  unfold ParseQuery, pairs_text. destruct q as [|p q]; [done|].
  rewrite Split_Join; [|done|].
  - induction (p :: q) as [|x l IH]; [done|]. cbn [map omap list_omap]. by rewrite parse_pair_text, IH.
  - apply Forall_map, Forall_forall. intros x _. unfold pair_text.
    apply no_sep_append; [by apply escape_no_sep|]. split; [discriminate|by apply escape_no_sep].
Qed.

Lemma Get_lookup q k v : NoDup q.*1 → (k, v) ∈ q → Values_Get q k = v.
Proof.
  unfold Values_Get. induction q as [|[k' v'] q IH]; [set_solver|]. cbn [fmap list_fmap List.find fst]. intros [Hn Hq]%NoDup_cons.
  destruct (String.eqb_spec k' k) as [->|Hk]; rewrite elem_of_cons.
  - intros [[=]|Hin]; [done|]. destruct Hn. apply list_elem_of_fmap. by exists (k, v).
  - intros [[= <- <-]|Hin]; [done|by apply IH].
Qed.
Lemma Get_none q k : k ∉ q.*1 → Values_Get q k = "".
Proof.
  unfold Values_Get. induction q as [|[k' v'] q IH]; [done|]. cbn [fmap list_fmap List.find fst]. rewrite not_elem_of_cons.
  intros [H1 H2]. destruct (String.eqb_spec k' k); [done|by apply IH].
Qed.

Definition all_unreserved (s : string) : Prop := Forall (λ c, unreserved c = true) (String.list_ascii_of_string s).
Lemma escape_unreserved m s : all_unreserved s → escape m s = s.
Proof.
  unfold all_unreserved. induction s as [|c s IH]; [done|]. cbn [String.list_ascii_of_string]. inversion 1 as [|?? H1 H2]; subst.
  cbn [escape]. unfold shouldEscape. by rewrite H1, IH.
Qed.
Lemma escape_inj m s t : escape m s = escape m t → s = t.
Proof. intros E. pose proof (unescape_escape m s) as H. rewrite E, unescape_escape in H. by injection H. Qed.

(** Escaped segments joined by slashes read back as the text they came from. *)
Lemma unescape_app m a b x y : unescape m a = Some x → unescape m b = Some y → unescape m (a +:+ b) = Some (x +:+ y).
Proof.
  revert x. induction a as [a IH] using (induction_ltof1 _ String.length). unfold ltof in IH. intros x Ha Hb.
  destruct a as [|c a]; [by injection Ha as <-|]. change (String c a +:+ b) with (String c (a +:+ b)). cbn [unescape] in *.
  destruct (Ascii.eqb c "%").
  - destruct a as [|h1 [|h2 a]]; [done..|].
    change (String h1 (String h2 a) +:+ b) with (String h1 (String h2 (a +:+ b))). cbv iota. destruct (unhex h1), (unhex h2); try done.
    destruct (unescape m a) as [t|] eqn:E; [|done]. injection Ha as <-.
    rewrite (IH a ltac:(cbn; lia) t E Hb). reflexivity.
  - destruct (unescape m a) as [t|] eqn:E; [|done]. injection Ha as <-. rewrite (IH a ltac:(cbn; lia) t E Hb). reflexivity.
Qed.
Lemma Join_cons x y l sep : Join (x :: y :: l) sep = x +:+ sep +:+ Join (y :: l) sep.
Proof. done. Qed.
Lemma unescape_segments parts : unescape PathSegment (Join (map PathEscape parts) "/") = Some (Join parts "/").
Proof.
  induction parts as [|x parts IH]; [done|]. destruct parts as [|y parts]; [apply unescape_escape|].
  cbn [map]. rewrite !Join_cons. apply unescape_app; [apply unescape_escape|].
  change (unescape PathSegment (String slash (Join (map PathEscape (y :: parts)) "/")) = Some (String slash (Join (y :: parts) "/"))).
  cbn [unescape]. by rewrite IH.
Qed.
Lemma Join_Split s sep : Join (Split s sep) (String sep "") = s.
Proof.
  unfold Split. assert (∀ fuel t, Join (split_loop fuel sep t) (String sep "") = t) as H; [|apply H].
  induction fuel as [|fuel IH]; intros t; [done|]. cbn [split_loop]. destruct (cut sep t) as [[x y]|] eqn:E; [|done].
  apply cut_spec in E as [-> _]. specialize (IH y). destruct (split_loop fuel sep y) as [|z l] eqn:El.
  - by destruct fuel; cbn in El; [|destruct (cut sep y) as [[]|]].
  - by rewrite Join_cons, IH.
Qed.
Lemma Split_no_sep s sep : Forall (no_sep sep) (Split s sep).
Proof.
  unfold Split. assert (∀ fuel t, (String.length t ≤ fuel)%nat → Forall (no_sep sep) (split_loop fuel sep t)) as H; [|by apply H].
  assert (∀ t, cut sep t = None → no_sep sep t) as Hc.
  { induction t as [|a t IH]; [done|]. cbn [cut]. destruct (Ascii.eqb_spec a sep); [done|].
    destruct (cut sep t) as [[]|]; [done|]. intros _. split; [done|by apply IH]. }
  induction fuel as [|fuel IH]; intros t Hf; cbn [split_loop].
  - constructor; [by destruct t; [|cbn in Hf; lia]|constructor].
  - destruct (cut sep t) as [[x y]|] eqn:E; [|constructor; [by apply Hc|constructor]].
    pose proof (cut_length _ _ _ _ E). apply cut_spec in E as [_ Hx]. constructor; [done|]. apply IH. lia.
Qed.
