(* ===== verification/Queue.v ===== *)
(** * Queue.v: internal/queue, the global job queue

    [Queue] is the mutex-guarded state; every exported method takes the lock for
    its whole body, so it is one atomic state transformer (the clock read that
    stamps an item is an argument).  The heap is container/heap over the item
    slice (GoHeap.v).  The blocking [DequeueWait] loop, with its condition
    variable and its context bridge goroutine, is the step relation of module
    [Blocking] at the end.

    The specification is a plain list kept in service order ([spec_enqueue],
    [spec_dequeue]); [queue_refines_spec] relates whole runs of the two. *)

From S2P Require Import Prelude Errors GoTime Types GoHeap.
Open Scope Z_scope.

(** ** State and operations *)

Definition PriorityLow : Z := 0.
Definition PriorityNormal : Z := 1.
Definition PriorityHigh : Z := 2.

Record Item := mkItem {
  Item_Job : Job;
  Item_Key : string;
  Item_Priority : Z;
  Item_Seq : Z;
  Item_EnqueuedAt : Time }.

#[export] Instance Item_eq_dec : EqDecision Item.
Proof. solve_decision. Defined.
Definition Item_zero : Item := mkItem Job_zero "" 0 0 0.
#[export] Instance Item_inhabited : Inhabited Item := populate Item_zero.

(** [itemHeap.Less]: higher priority first, then the smaller sequence number. *)
Definition item_less (a b : Item) : bool :=
  if negb (Item_Priority a =? Item_Priority b) then Item_Priority b <? Item_Priority a
  else Item_Seq a <? Item_Seq b.

Record Queue := mkQueue {
  Queue_items : list Item;
  Queue_seq : Z;
  Queue_maxDepth : Z;
  Queue_closed : bool }.

(** [New], with the effect of [WithMaxDepth(n)]. *)
Definition WithMaxDepth (n : Z) (q : Queue) : Queue :=
  let n := if n <? 0 then 0 else n in
  mkQueue (Queue_items q) (Queue_seq q) n (Queue_closed q).

Definition New (opts : list (Queue → Queue)) : Queue :=
  fold_left (λ q opt, opt q) opts (mkQueue [] 0 0 false).

Definition Len (q : Queue) : Z := Z.of_nat (length (Queue_items q)).

Definition Enqueue (now : Time) (job : Job) (key : string) (p : Z) (q : Queue) : Queue * option error :=
  if Queue_closed q then (q, Some ErrClosed)
  else if (0 <? Queue_maxDepth q) && (Queue_maxDepth q <=? Len q) then (q, Some ErrQueueFull)
  else
    let it := mkItem job key p (Queue_seq q) now in
    (mkQueue (Push item_less (Queue_items q) it) (u64 (Queue_seq q + 1)) (Queue_maxDepth q) (Queue_closed q), None).

Definition popLocked (q : Queue) : Queue * option Item :=
  match Pop item_less (Queue_items q) with
  | None => (q, None)
  | Some (it, rest) => (mkQueue rest (Queue_seq q) (Queue_maxDepth q) (Queue_closed q), Some it)
  end.

Definition Dequeue (q : Queue) : Queue * option Item := popLocked q.

Definition Close (q : Queue) : Queue :=
  if Queue_closed q then q else mkQueue (Queue_items q) (Queue_seq q) (Queue_maxDepth q) true.

Record Stats := mkStats { Stats_Total : Z; Stats_ByPriority : gmap Z Z }.

Definition QStats (q : Queue) : Stats :=
  mkStats (Len q)
    (fold_left (λ m it, <[Item_Priority it := default 0 (m !! Item_Priority it) + 1]> m)
       (Queue_items q) ∅).

(** ** The service order is a strict weak order, total on distinct sequence numbers *)

#[export] Instance item_less_swo : StrictWeakOrder item_less.
Proof.
  split.
  - intros a b. unfold item_less.
    destruct (Z.eqb_spec (Item_Priority a) (Item_Priority b)),
      (Z.eqb_spec (Item_Priority b) (Item_Priority a)); simpl; intros; zbool;
      try lia; apply Z.ltb_ge; lia.
  - intros a b c. unfold le, item_less.
    destruct (Z.eqb_spec (Item_Priority b) (Item_Priority a)),
      (Z.eqb_spec (Item_Priority c) (Item_Priority b)),
      (Z.eqb_spec (Item_Priority c) (Item_Priority a)); simpl; intros; zbool;
      try lia; apply Z.ltb_ge; lia.
Qed.

(** [a] is served before [b]. *)
Definition before (a b : Item) : Prop := item_less a b = true.

Lemma before_spec a b :
  before a b ↔ Item_Priority b < Item_Priority a ∨
               (Item_Priority a = Item_Priority b ∧ Item_Seq a < Item_Seq b).
Proof.
  unfold before, item_less. destruct (Z.eqb_spec (Item_Priority a) (Item_Priority b)); simpl;
    rewrite Z.ltb_lt; lia.
Qed.

#[export] Instance before_trans : Transitive before.
Proof. intros a b c. rewrite !before_spec. lia. Qed.

Lemma before_irrefl a : ¬ before a a.
Proof. rewrite before_spec. lia. Qed.

Lemma le_before a b : le item_less a b → Item_Seq a ≠ Item_Seq b → before a b.
Proof.
  unfold le, before, item_less. intros H Hne.
  destruct (Z.eqb_spec (Item_Priority a) (Item_Priority b)),
    (Z.eqb_spec (Item_Priority b) (Item_Priority a)); simpl in *; zbool; try lia;
    apply Z.ltb_lt; lia.
Qed.

(** ** Well-formed queues *)

Record wf (q : Queue) : Prop := {
  wf_heap : heap_ok item_less (Queue_items q);
  wf_seq : Forall (λ it, 0 <= Item_Seq it < Queue_seq q) (Queue_items q);
  wf_nodup : NoDup (Item_Seq <$> Queue_items q);
  wf_depth : 0 < Queue_maxDepth q → Len q <= Queue_maxDepth q;
  wf_range : is_u64 (Queue_seq q) ∧ 0 <= Queue_maxDepth q }.

Lemma New_wf n : wf (New [WithMaxDepth n]).
Proof.
  unfold New; simpl. unfold WithMaxDepth; simpl. split; simpl.
  - intros j Hj. simpl in Hj. lia.
  - constructor.
  - constructor.
  - unfold Len; simpl. lia.
  - unfold is_u64. destruct (Z.ltb_spec n 0); lia.
Qed.

Lemma Push_seqs l it :
  Item_Seq <$> Push item_less l it ≡ₚ Item_Seq it :: (Item_Seq <$> l).
Proof. by rewrite Push_Permutation. Qed.

Lemma Enqueue_wf now job key p q :
  wf q → Queue_seq q + 1 < 2 ^ 64 → wf (Enqueue now job key p q).1.
Proof.
  intros [Hh Hs Hn Hd [Hu Hm]] Hw. unfold Enqueue.
  destruct (Queue_closed q) eqn:Ec; [done|].
  destruct (_ && _) eqn:Ef; [done|]. simpl. rewrite u64_id by (unfold is_u64 in *; lia).
  split; simpl.
  - by apply Push_ok; [apply _|].
  - rewrite Push_Permutation. constructor; simpl; [unfold is_u64 in *; lia|].
    eapply Forall_impl; [exact Hs|]. simpl. lia.
  - rewrite Push_seqs. constructor; simpl; [|done].
    intros (it & E & Hin)%list_elem_of_fmap. rewrite Forall_forall in Hs.
    specialize (Hs _ Hin). lia.
  - unfold Len; simpl. rewrite (Permutation_length (Push_Permutation _ _ _)); simpl.
    unfold Len in *. apply andb_false_iff in Ef. intros. destruct Ef; zbool; lia.
  - unfold is_u64 in *. lia.
Qed.

Lemma popLocked_wf q : wf q → wf (popLocked q).1.
Proof.
  intros [Hh Hs Hn Hd [Hu Hm]]. unfold popLocked.
  destruct (Pop item_less (Queue_items q)) as [[it rest]|] eqn:E; [|done]. simpl.
  destruct (Pop_spec _ _ _ _ Hh E) as (Hp & Hok & _ & _).
  rewrite Hp in Hs, Hn. apply Forall_cons in Hs as [_ Hs].
  apply NoDup_cons in Hn as [_ Hn].
  split; simpl; try done. unfold Len in *; simpl. apply Permutation_length in Hp.
  simpl in Hp. intros. lia.
Qed.

Lemma Close_wf q : wf q → wf (Close q).
Proof. intros [Hh Hs Hn Hd Hr]. unfold Close. destruct (Queue_closed q); by split. Qed.

#[export] Hint Resolve New_wf Enqueue_wf popLocked_wf Close_wf : agpu.

(** ** The specification: a list in service order *)

Record SpecQueue := mkSpec {
  sp_items : list Item; sp_seq : Z; sp_max : Z; sp_closed : bool }.

(** A new item goes behind every item of at least its priority. *)
Fixpoint spec_insert (it : Item) (l : list Item) : list Item :=
  match l with
  | [] => [it]
  | x :: l => if Item_Priority it <=? Item_Priority x then x :: spec_insert it l
              else it :: x :: l
  end.

Definition spec_enqueue now job key p (s : SpecQueue) : SpecQueue * option error :=
  if sp_closed s then (s, Some ErrClosed)
  else if (0 <? sp_max s) && (sp_max s <=? Z.of_nat (length (sp_items s)))
  then (s, Some ErrQueueFull)
  else (mkSpec (spec_insert (mkItem job key p (sp_seq s) now) (sp_items s))
          (sp_seq s + 1) (sp_max s) (sp_closed s), None).

Definition spec_dequeue (s : SpecQueue) : SpecQueue * option Item :=
  match sp_items s with
  | [] => (s, None)
  | it :: l => (mkSpec l (sp_seq s) (sp_max s) (sp_closed s), Some it)
  end.

Definition spec_close (s : SpecQueue) : SpecQueue :=
  mkSpec (sp_items s) (sp_seq s) (sp_max s) true.

Lemma spec_insert_Permutation it l : spec_insert it l ≡ₚ it :: l.
Proof.
  induction l as [|x l IH]; simpl; [done|]. case_match; [|done].
  rewrite IH. apply Permutation_swap.
Qed.

Lemma spec_insert_sorted it l :
  StronglySorted before l → Forall (λ x, Item_Seq x < Item_Seq it) l →
  StronglySorted before (spec_insert it l).
Proof.
  induction l as [|x l IH]; simpl; intros Hs Hf; [repeat constructor|].
  apply StronglySorted_inv in Hs as [Hs Hx]. apply Forall_cons in Hf as [Hxi Hf].
  destruct (Z.leb_spec (Item_Priority it) (Item_Priority x)).
  - constructor; [by apply IH|]. rewrite spec_insert_Permutation. constructor; [|done].
    apply before_spec. lia.
  - constructor; [by constructor|]. constructor; [apply before_spec; lia|].
    eapply Forall_impl; [exact Hx|]. intros y Hxy. simpl. etrans; [|exact Hxy].
    apply before_spec. lia.
Qed.

(** The simulation relation: same content, the specification sorted. *)
Record sim (q : Queue) (s : SpecQueue) : Prop := {
  sim_wf : wf q;
  sim_items : Queue_items q ≡ₚ sp_items s;
  sim_sorted : StronglySorted before (sp_items s);
  sim_seq : sp_seq s = Queue_seq q;
  sim_max : sp_max s = Queue_maxDepth q;
  sim_closed : sp_closed s = Queue_closed q }.

Lemma sim_New n : sim (New [WithMaxDepth n]) (mkSpec [] 0 (if n <? 0 then 0 else n) false).
Proof. split; auto with agpu. constructor. Qed.

Lemma sim_enqueue now job key p q s :
  sim q s → Queue_seq q + 1 < 2 ^ 64 →
  sim (Enqueue now job key p q).1 (spec_enqueue now job key p s).1 ∧
  (Enqueue now job key p q).2 = (spec_enqueue now job key p s).2.
Proof.
  intros Hsim Hw. pose proof (Enqueue_wf now job key p q (sim_wf _ _ Hsim) Hw) as Hwf.
  pose proof Hsim as [H1 Hi Hs Eq Em Ec]. unfold Enqueue, spec_enqueue, Len in *.
  rewrite Ec, Em, <- (Permutation_length Hi).
  destruct (Queue_closed q) eqn:Ecl; [done|]. destruct (_ && _) eqn:Ef; [done|]. simpl in *.
  split; [|done]. rewrite Eq. split; simpl; try done.
  - by rewrite Push_Permutation, spec_insert_Permutation, Hi.
  - apply spec_insert_sorted; [done|]. simpl. rewrite <- Hi.
    eapply Forall_impl; [apply H1|]. simpl. lia.
  - rewrite u64_id; [done|]. destruct H1 as [_ _ _ _ [H _]]. unfold is_u64 in *. lia.
Qed.

(** The root of the heap is the head of the sorted list. *)
Lemma sim_dequeue q s :
  sim q s → sim (Dequeue q).1 (spec_dequeue s).1 ∧ (Dequeue q).2 = (spec_dequeue s).2.
Proof.
  intros Hsim. pose proof (popLocked_wf q (sim_wf _ _ Hsim)) as Hwf.
  pose proof Hsim as [H1 Hi Hs Eq Em Ec]. unfold Dequeue, popLocked, spec_dequeue in *.
  destruct (Pop item_less (Queue_items q)) as [[it rest]|] eqn:E.
  2: { apply Pop_None in E. rewrite E in Hi. symmetry in Hi. apply Permutation_nil_r in Hi.
       by rewrite Hi. }
  destruct (Pop_spec _ _ _ _ (wf_heap _ H1) E) as (Hp & _ & _ & Hmin).
  destruct (sp_items s) as [|x l] eqn:El.
  { apply Permutation_length in Hi, Hp. simpl in *. lia. }
  apply StronglySorted_inv in Hs as [Hs Hx].
  assert (x = it) as ->.
  { assert (it ∈ x :: l) as [->|Hin]%elem_of_cons by (rewrite <- Hi, Hp; set_solver); [done|].
    rewrite Forall_forall in Hx. pose proof (Hx _ Hin) as Hb.
    assert (le item_less it x) as Hle by (apply Hmin; rewrite Hi; set_solver).
    unfold le in Hle. unfold before in Hb. congruence. }
  simpl in *. split; [|done]. split; simpl; try done.
  rewrite Hp in Hi. by apply Permutation_cons_inv in Hi.
Qed.

Lemma sim_close q s : sim q s → sim (Close q) (spec_close s).
Proof.
  intros [H1 Hi Hs Eq Em Ec]. pose proof (Close_wf q H1). unfold Close in *.
  destruct (Queue_closed q) eqn:E; split; simpl; try done; congruence.
Qed.

(** Runs of the three state-changing operations, with what each returned. *)
Inductive qop := OpEnqueue (now : Time) (job : Job) (key : string) (p : Z) | OpDequeue | OpClose.
Inductive qret := RErr (e : option error) | RItem (it : option Item) | RUnit.

Definition qstep (o : qop) (q : Queue) : Queue * qret :=
  match o with
  | OpEnqueue now job key p => let '(q, e) := Enqueue now job key p q in (q, RErr e)
  | OpDequeue => let '(q, it) := Dequeue q in (q, RItem it)
  | OpClose => (Close q, RUnit)
  end.

Definition spec_step (o : qop) (s : SpecQueue) : SpecQueue * qret :=
  match o with
  | OpEnqueue now job key p => let '(s, e) := spec_enqueue now job key p s in (s, RErr e)
  | OpDequeue => let '(s, it) := spec_dequeue s in (s, RItem it)
  | OpClose => (spec_close s, RUnit)
  end.

Fixpoint runs {S} (step : qop → S → S * qret) (ops : list qop) (s : S) : list qret :=
  match ops with
  | [] => []
  | o :: ops => let '(s, r) := step o s in r :: runs step ops s
  end.

Lemma seq_step o q : wf q → Queue_seq q + 1 < 2 ^ 64 → Queue_seq (qstep o q).1 <= Queue_seq q + 1.
Proof.
  intros [_ _ _ _ [Hu _]] Hw. destruct o as [now job key p| |]; simpl.
  - unfold Enqueue. repeat case_match; simplify_eq/=; try lia.
    rewrite u64_id; unfold is_u64 in *; lia.
  - unfold Dequeue, popLocked. repeat case_match; simplify_eq/=; lia.
  - unfold Close. case_match; simpl; lia.
Qed.

Lemma sim_step o q s :
  sim q s → Queue_seq q + 1 < 2 ^ 64 →
  sim (qstep o q).1 (spec_step o s).1 ∧ (qstep o q).2 = (spec_step o s).2.
Proof.
  intros Hsim Hw. destruct o as [now job key p| |]; simpl.
  - destruct (sim_enqueue now job key p q s Hsim Hw) as [H1 H2].
    destruct (Enqueue _ _ _ _ _), (spec_enqueue _ _ _ _ _); simpl in *. by subst.
  - destruct (sim_dequeue q s Hsim) as [H1 H2].
    destruct (Dequeue _), (spec_dequeue _); simpl in *. by subst.
  - split; [by apply sim_close|done].
Qed.

Lemma sim_runs ops q s :
  sim q s → Queue_seq q + Z.of_nat (length ops) < 2 ^ 64 → runs qstep ops q = runs spec_step ops s.
Proof.
  revert q s. induction ops as [|o ops IH]; simpl; intros q s Hsim Hw; [done|].
  destruct (sim_step o q s Hsim ltac:(lia)) as [H1 H2].
  pose proof (seq_step o q (sim_wf _ _ Hsim) ltac:(lia)).
  destruct (qstep o q) as [q' r], (spec_step o s) as [s' r']; simpl in *. subst.
  f_equal. apply IH; [done|lia].
Qed.

Definition ritem (r : qret) : option Item :=
  match r with RItem (Some it) => Some it | _ => None end.

Fixpoint qexec (ops : list qop) (q : Queue) : Queue :=
  match ops with [] => q | o :: ops => qexec ops (qstep o q).1 end.

Lemma qstep_wf o q : wf q → Queue_seq q + 1 < 2 ^ 64 → wf (qstep o q).1.
Proof.
  intros Hwf Hw. destruct o as [now job key p| |]; simpl; [| |by apply Close_wf].
  - pose proof (Enqueue_wf now job key p q Hwf Hw). by destruct (Enqueue _ _ _ _ _).
  - pose proof (popLocked_wf q Hwf). unfold Dequeue. by destruct (popLocked q).
Qed.

Lemma qexec_wf ops q : wf q → Queue_seq q + Z.of_nat (length ops) < 2 ^ 64 → wf (qexec ops q).
Proof.
  revert q. induction ops as [|o ops IH]; simpl; intros q Hwf Hw; [done|].
  pose proof (seq_step o q Hwf ltac:(lia)). apply IH; [apply qstep_wf; [done|lia]|lia].
Qed.

Lemma qexec_maxDepth ops q : Queue_maxDepth (qexec ops q) = Queue_maxDepth q.
Proof.
  revert q. induction ops as [|o ops IH]; simpl; intros q; [done|]. rewrite IH.
  destruct o; simpl; unfold Enqueue, Dequeue, popLocked, Close; by split_ifs.
Qed.

(** ** Counting by priority *)

Definition count_priority (p : Z) (l : list Item) : Z :=
  Z.of_nat (length (filter (λ it, Item_Priority it = p) l)).

Lemma stats_fold l (m : gmap Z Z) p :
  fold_left (λ m it, <[Item_Priority it := default 0 (m !! Item_Priority it) + 1]> m) l m !! p =
  if decide (count_priority p l = 0) then m !! p
  else Some (default 0 (m !! p) + count_priority p l).
Proof.
  revert m. unfold count_priority. induction l as [|it l IH]; simpl; intros m; [done|].
  rewrite IH. rewrite filter_cons. destruct (decide (Item_Priority it = p)) as [<-|Hne]; simpl.
  - rewrite lookup_insert_eq. simpl.
    repeat case_decide; simpl in *; first [lia | f_equal; lia].
  - by rewrite lookup_insert_ne by done.
Qed.

Lemma Enqueue_perm now job key p q :
  (Enqueue now job key p q).2 = None →
  Queue_items (Enqueue now job key p q).1 ≡ₚ mkItem job key p (Queue_seq q) now :: Queue_items q.
Proof. unfold Enqueue. split_ifs; try done. intros _. apply Push_Permutation. Qed.

Lemma popLocked_perm q q' it :
  popLocked q = (q', Some it) → Queue_items q ≡ₚ it :: Queue_items q' ∧ Queue_closed q' = Queue_closed q.
Proof.
  unfold popLocked. destruct (Pop item_less (Queue_items q)) as [[x rest]|] eqn:E; [|done]. intros [= <- <-].
  split; [|done]. by destruct (Pop_parts _ _ _ _ E) as (_ & _ & _ & ?).
Qed.

Lemma popLocked_none q q' : popLocked q = (q', None) → q' = q ∧ Queue_items q = [].
Proof.
  unfold popLocked. destruct (Pop item_less (Queue_items q)) as [[x rest]|] eqn:E; [done|]. intros [= <-].
  split; [done|]. by apply Pop_None in E.
Qed.

(** ** Properties *)

(** C4: Whatever sequence of Enqueue, Dequeue and Close calls a client makes on
    a new queue of depth bound [n], the heap-based queue returns exactly what
    the list-based specification returns, call for call: the same errors, and
    from every Dequeue the oldest item of the highest priority queued.  The
    only bound is that fewer than 2^64 calls are made, so that the sequence
    counter does not wrap. *)
Theorem queue_refines_spec (n : Z) (ops : list qop) :
  Z.of_nat (length ops) < 2 ^ 64 →
  runs qstep ops (New [WithMaxDepth n]) =
  runs spec_step ops (mkSpec [] 0 (if n <? 0 then 0 else n) false).
Proof. intros. apply sim_runs; [apply sim_New|simpl; lia]. Qed.

Definition ex_job (id : string) : Job := mkJob id "m" "p" [] [] "" 0.
Definition ex_ops : list qop :=
  [OpEnqueue 5 (ex_job "a") "k" 1; OpEnqueue 6 (ex_job "b") "k" 2; OpDequeue;
   OpEnqueue 7 (ex_job "c") "k" 1; OpEnqueue 8 (ex_job "d") "k" 1; OpDequeue; OpClose;
   OpEnqueue 9 (ex_job "e") "k" 1].

Lemma queue_refines_spec_witness :
  runs qstep ex_ops (New [WithMaxDepth 2]) = runs spec_step ex_ops (mkSpec [] 0 2 false) ∧
  (Item_Key <$> omap ritem (runs qstep ex_ops (New [WithMaxDepth 2]))) = ["k"; "k"].
Proof. split; [apply (queue_refines_spec 2 ex_ops); reflexivity|reflexivity]. Defined.

(** A queue with a positive depth bound never holds more than that many
    items, in every state reachable by any sequence of calls, and the item slice
    always is a heap with distinct sequence numbers below the counter. *)
Theorem queue_reachable_wf (n : Z) (ops : list qop) :
  Z.of_nat (length ops) < 2 ^ 64 →
  wf (qexec ops (New [WithMaxDepth n])) ∧
  (0 < n → Len (qexec ops (New [WithMaxDepth n])) <= n).
Proof.
  intros Hw. pose proof (qexec_wf ops _ (New_wf n) ltac:(simpl; lia)) as Hwf.
  split; [done|]. intros Hn. pose proof (wf_depth _ Hwf) as Hd.
  rewrite qexec_maxDepth in Hd.
  change (Queue_maxDepth (New _)) with (if n <? 0 then 0 else n) in Hd.
  destruct (Z.ltb_spec n 0); lia.
Qed.

Lemma queue_reachable_wf_witness : Len (qexec ex_ops (New [WithMaxDepth 2])) <= 2.
Proof. apply (queue_reachable_wf 2 ex_ops); reflexivity. Defined.

(** Enqueue fails with ErrClosed exactly on a closed queue and with
    ErrQueueFull exactly on an open bounded queue at its depth, a refused job
    leaves the queue untouched, and an accepted one is added to the content
    stamped with the current counter and time. *)
Theorem enqueue_outcome now job key p (q : Queue) :
  let '(q', e) := Enqueue now job key p q in
  (e = Some ErrClosed ↔ Queue_closed q = true) ∧
  (e = Some ErrQueueFull ↔
     Queue_closed q = false ∧ 0 < Queue_maxDepth q ∧ Queue_maxDepth q <= Len q) ∧
  (e ≠ None → q' = q) ∧
  (e = None → Queue_items q' ≡ₚ mkItem job key p (Queue_seq q) now :: Queue_items q ∧
              Queue_seq q' = u64 (Queue_seq q + 1)).
Proof.
  unfold Enqueue. destruct (Queue_closed q) eqn:Ec; [naive_solver|].
  destruct (_ && _) eqn:Ef; [zbool; naive_solver|].
  split_and!; try naive_solver; [|].
  - split; [done|]. intros (_ & ? & ?). apply andb_false_iff in Ef as [?|?]; zbool; lia.
  - intros _. simpl. split; [apply Push_Permutation|done].
Qed.

(** Stats counts what is queued: the breakdown has an entry for a priority
    exactly when an item of that priority is queued, the entry is the number of
    such items, and the total is the length. *)
Theorem stats_counts (q : Queue) (p : Z) :
  Stats_Total (QStats q) = Len q ∧
  Stats_ByPriority (QStats q) !! p =
    (let c := count_priority p (Queue_items q) in if decide (c = 0) then None else Some c).
Proof.
  split; [done|]. simpl. rewrite stats_fold, lookup_empty. simpl.
  case_decide; [done|]. f_equal; lia.
Qed.

(** ** DequeueWait: the condition variable and the context bridge

    A call of [DequeueWait] is a waiter.  It holds [q.mu] from the top of the
    loop to [cond.Wait], which first puts it on the notify list and then releases
    the lock; [PWait] is the point between the [ctx.Err()] check and that.  The
    bridge goroutine calls [Broadcast] without taking [q.mu], so its step is
    enabled in every state. *)
Module Blocking.

Inductive outcome := Got (it : Item) | Failed (e : error).

Inductive pc :=
| PTop                    (* wants the lock, to run the loop body *)
| PWait                   (* holds the lock, about to join the notify list *)
| PParked                 (* on the notify list, lock released *)
| PDone (o : outcome).    (* returned *)

Record waiter := mkWaiter { w_pc : pc; w_ctx : bool; w_bridge : bool }.
Record state := mkState { s_q : Queue; s_ws : list waiter }.

#[export] Instance outcome_eq_dec : EqDecision outcome.
Proof. solve_decision. Defined.
#[export] Instance pc_eq_dec : EqDecision pc.
Proof. solve_decision. Defined.

Definition wake (w : waiter) : waiter :=
mkWaiter (match w_pc w with PParked => PTop | p => p end) (w_ctx w) (w_bridge w).

(** No waiter holds [q.mu]. *)
Definition unlocked (ws : list waiter) : Prop := Forall (λ w, w_pc w ≠ PWait) ws.
Definition parked (ws : list waiter) : Prop := Exists (λ w, w_pc w = PParked) ws.

(** One iteration of the loop body of [DequeueWait], up to [cond.Wait]. *)
Definition loop_body (q : Queue) (ctx_done : bool) : Queue * pc :=
let '(q', it) := popLocked q in
match it with
| Some it => (q', PDone (Got it))
| None =>
    if Queue_closed q' then (q', PDone (Failed ErrClosed))
    else if ctx_done then (q', PDone (Failed CtxDone))
    else (q', PWait)
end.

Inductive step : state → state → Prop :=
| SCall q ws c : step (mkState q ws) (mkState q (ws ++ [mkWaiter PTop c false]))
| SBody q ws i w : ws !! i = Some w → w_pc w = PTop → unlocked ws →
  step (mkState q ws)
    (mkState (loop_body q (w_ctx w)).1
       (<[i := mkWaiter (loop_body q (w_ctx w)).2 (w_ctx w) (w_bridge w)]> ws))
| SPark q ws i w : ws !! i = Some w → w_pc w = PWait →
  step (mkState q ws) (mkState q (<[i := mkWaiter PParked (w_ctx w) (w_bridge w)]> ws))
| SCancel q ws i w : ws !! i = Some w →
  step (mkState q ws) (mkState q (<[i := mkWaiter (w_pc w) true (w_bridge w)]> ws))
| SBridge q ws i w : ws !! i = Some w → w_ctx w = true → w_bridge w = false →
  step (mkState q ws)
    (mkState q (wake <$> <[i := mkWaiter (w_pc w) true true]> ws))
| SEnqueueNone q ws now job key p : unlocked ws →
  ((Enqueue now job key p q).2 ≠ None ∨ ¬ parked ws) →
  step (mkState q ws) (mkState (Enqueue now job key p q).1 ws)
| SEnqueueSignal q ws now job key p i w : unlocked ws →
  (Enqueue now job key p q).2 = None → ws !! i = Some w → w_pc w = PParked →
  step (mkState q ws) (mkState (Enqueue now job key p q).1 (<[i := wake w]> ws))
| SDequeue q ws : unlocked ws → step (mkState q ws) (mkState (Dequeue q).1 ws)
| SClose q ws : unlocked ws →
  step (mkState q ws)
    (mkState (Close q) (if Queue_closed q then ws else wake <$> ws)).

Definition init (n : Z) : state := mkState (New [WithMaxDepth n]) [].
Definition reachable (n : Z) (s : state) : Prop := rtc step (init n) s.

(** Waiters about to look at the queue. *)
Definition at_top (ws : list waiter) : nat := length (filter (λ w, w_pc w = PTop) ws).

Record inv (s : state) : Prop := {
inv_items : parked (s_ws s) → (length (Queue_items (s_q s)) ≤ at_top (s_ws s))%nat;
inv_wait : ¬ unlocked (s_ws s) → Queue_items (s_q s) = [] ∧ Queue_closed (s_q s) = false;
inv_closed : Queue_closed (s_q s) = true → ¬ parked (s_ws s) }.

Lemma at_top_insert ws i w w' :
ws !! i = Some w →
(at_top (<[i := w']> ws) + (if decide (w_pc w = PTop) then 1 else 0) =
 at_top ws + (if decide (w_pc w' = PTop) then 1 else 0))%nat.
Proof.
unfold at_top. revert i. induction ws as [|v ws IH]; intros [|i] Hi; simplify_eq/=.
- rewrite !filter_cons. repeat case_decide; simpl; lia.
- specialize (IH i Hi). rewrite !filter_cons. repeat case_decide; simpl; lia.
Qed.

Lemma parked_insert ws i w w' :
ws !! i = Some w → parked (<[i := w']> ws) → w_pc w' = PParked ∨ parked ws.
Proof.
unfold parked. intros Hi. rewrite !Exists_exists.
intros (v & [k Hk]%list_elem_of_lookup & E). destruct (decide (k = i)) as [->|Hne].
- rewrite list_lookup_insert_eq in Hk by eauto using lookup_lt_Some. left. congruence.
- rewrite list_lookup_insert_ne in Hk by done. right. exists v. split; [|done].
  by eapply list_elem_of_lookup_2.
Qed.

Lemma unlocked_insert ws i w w' :
ws !! i = Some w → unlocked ws → w_pc w' ≠ PWait → unlocked (<[i := w']> ws).
Proof. intros Hi Hu Hw. by apply Forall_insert. Qed.

Lemma parked_wake ws : ¬ parked (wake <$> ws).
Proof.
unfold parked. rewrite Exists_exists. intros (v & (w & -> & _)%list_elem_of_fmap & E).
unfold wake in E; simpl in E. by destruct (w_pc w).
Qed.

Lemma unlocked_wake ws : unlocked (wake <$> ws) ↔ unlocked ws.
Proof.
unfold unlocked. rewrite Forall_fmap. apply Forall_iff. intros w. unfold compose, wake; simpl.
destruct (w_pc w); naive_solver.
Qed.

(** Replacing a waiter by one at the same point changes none of the counts. *)
Lemma same_pc ws i w w' :
ws !! i = Some w → w_pc w' = w_pc w →
at_top (<[i := w']> ws) = at_top ws ∧ (parked (<[i := w']> ws) ↔ parked ws) ∧
(unlocked (<[i := w']> ws) ↔ unlocked ws).
Proof.
intros Hi E. assert (w_pc <$> <[i := w']> ws = w_pc <$> ws) as Hm.
{ rewrite list_fmap_insert, E. apply list_insert_id. by rewrite list_lookup_fmap, Hi. }
split_and!.
- pose proof (at_top_insert ws i w w' Hi) as H. rewrite E in H. case_decide; lia.
- unfold parked. change (λ w, w_pc w = PParked) with ((λ p, p = PParked) ∘ w_pc).
  by rewrite <- !Exists_fmap, Hm.
- unfold unlocked. change (λ w, w_pc w ≠ PWait) with ((λ p, p ≠ PWait) ∘ w_pc).
  by rewrite <- !Forall_fmap, Hm.
Qed.

Lemma init_inv n : inv (init n).
Proof.
split; simpl.
- by intros H%Exists_nil.
- intros H. exfalso. apply H. constructor.
- intros _ H. by apply Exists_nil in H.
Qed.

Lemma Enqueue_items now job key p q :
(Enqueue now job key p q).2 = None →
length (Queue_items (Enqueue now job key p q).1) = S (length (Queue_items q)).
Proof.
unfold Enqueue. split_ifs; try done. by rewrite (Permutation_length (Push_Permutation _ _ _)).
Qed.

Lemma Enqueue_refused now job key p q :
(Enqueue now job key p q).2 ≠ None → (Enqueue now job key p q).1 = q.
Proof. unfold Enqueue. by split_ifs. Qed.

Lemma Enqueue_closed now job key p q :
Queue_closed (Enqueue now job key p q).1 = Queue_closed q.
Proof. unfold Enqueue. by split_ifs. Qed.

Lemma popLocked_cases q :
(Queue_items q = [] ∧ popLocked q = (q, None)) ∨
∃ it rest, popLocked q = (mkQueue rest (Queue_seq q) (Queue_maxDepth q) (Queue_closed q), Some it) ∧
           length (Queue_items q) = S (length rest).
Proof.
unfold popLocked. destruct (Pop item_less (Queue_items q)) as [[it rest]|] eqn:E.
- right. exists it, rest. split; [done|]. by eapply Pop_length.
- left. split; [|done]. by apply Pop_None in E.
Qed.

(** The steps that hold the lock preserve the invariant. *)
Lemma body_inv q ws i w :
inv (mkState q ws) → ws !! i = Some w → w_pc w = PTop → unlocked ws →
inv (mkState (loop_body q (w_ctx w)).1
      (<[i := mkWaiter (loop_body q (w_ctx w)).2 (w_ctx w) (w_bridge w)]> ws)).
Proof.
intros [Hi Hw Hc] Hl Htop Hu; simpl in *. unfold loop_body.
destruct (popLocked_cases q) as [[E ->]|(it & rest & -> & Hlen)].
- set (c' := if Queue_closed q then _ else _).
  assert (c'.1 = q ∧ c'.2 ≠ PParked ∧ (c'.2 = PWait → Queue_closed q = false)) as (-> & Hp & Hq).
  { unfold c'. repeat case_match; naive_solver. }
  split; simpl.
  + rewrite E. simpl. lia.
  + intros Hnu. split; [done|]. apply Hq. destruct (decide (c'.2 = PWait)); [done|].
    exfalso. apply Hnu. by eapply unlocked_insert.
  + intros Hcl [?|?]%(parked_insert _ _ _ _ Hl); [done|]. by apply Hc.
- simpl. split; simpl.
  + intros [?|Hp]%(parked_insert _ _ _ _ Hl); [done|]. specialize (Hi Hp).
    pose proof (at_top_insert ws i w (mkWaiter (PDone (Got it)) (w_ctx w) (w_bridge w)) Hl) as Ha.
    rewrite decide_True in Ha by done. simpl in Ha. lia.
  + intros Hnu. exfalso. apply Hnu. by eapply unlocked_insert.
  + intros Hcl [?|?]%(parked_insert _ _ _ _ Hl); [done|]. by apply Hc.
Qed.

Lemma park_inv q ws i w :
inv (mkState q ws) → ws !! i = Some w → w_pc w = PWait →
inv (mkState q (<[i := mkWaiter PParked (w_ctx w) (w_bridge w)]> ws)).
Proof.
intros [Hi Hw Hc] Hl Hpc; simpl in *.
destruct Hw as [E Ecl].
{ intros Hu. by apply (Forall_lookup_1 _ _ _ _ Hu Hl). }
split; simpl; rewrite ?E, ?Ecl; simpl; [lia|done|done].
Qed.

Lemma signal_inv q ws now job key p i w :
inv (mkState q ws) → unlocked ws → (Enqueue now job key p q).2 = None →
ws !! i = Some w → w_pc w = PParked →
inv (mkState (Enqueue now job key p q).1 (<[i := wake w]> ws)).
Proof.
intros [Hi Hw Hc] Hu Hok Hl Hpc; simpl in *.
assert (parked ws) as Hpk.
{ unfold parked. rewrite Exists_exists. exists w. split; [|done].
  by eapply list_elem_of_lookup_2. }
split; simpl.
- intros _. rewrite Enqueue_items by done. specialize (Hi Hpk).
  pose proof (at_top_insert ws i w (wake w) Hl) as Ha. unfold wake in *; simpl in Ha.
  rewrite Hpc in *. simpl in Ha. lia.
- intros Hnu. exfalso. apply Hnu. eapply unlocked_insert; [done..|].
  unfold wake; simpl. by rewrite Hpc.
- rewrite Enqueue_closed. intros Hcl. by destruct (Hc Hcl).
Qed.

Lemma step_inv s s' : step s s' → inv s → inv s'.
Proof.
destruct 1 as [q ws c|q ws i w Hl Hpc Hu|q ws i w Hl Hpc|q ws i w Hl|q ws i w Hl Hc Hb
  |q ws now job key p Hu Hn|q ws now job key p i w Hu Hok Hl Hpc|q ws Hu|q ws Hu]; intros Hinv.
- destruct Hinv as [Hi Hw Hc]; split; simpl in *; unfold parked, unlocked, at_top in *.
  + rewrite Exists_app, filter_app, length_app. intros [Hp|Hp%Exists_exists]; [|set_solver].
    specialize (Hi Hp). lia.
  + rewrite Forall_app. intros Hn. apply Hw. contradict Hn. split; [done|]. by repeat constructor.
  + rewrite Exists_app. intros Hcl [Hp|Hp%Exists_exists]; [by apply Hc|set_solver].
- by apply body_inv.
- by apply park_inv.
- destruct Hinv as [Hi Hw Hc], (same_pc ws i w (mkWaiter (w_pc w) true (w_bridge w)) Hl eq_refl)
    as (E1 & E2 & E3); simpl in *. split; simpl; by rewrite ?E1, ?E2, ?E3.
- destruct Hinv as [Hi Hw Hcl], (same_pc ws i w (mkWaiter (w_pc w) true true) Hl eq_refl)
    as (E1 & E2 & E3); simpl in *.
  split; simpl; [by intros ?%parked_wake|by rewrite unlocked_wake, E3|by intros _ ?%parked_wake].
- destruct Hinv as [Hi Hw Hc]; simpl in *. split; simpl.
  + intros Hp. destruct Hn as [Hn|Hn]; [|done]. rewrite Enqueue_refused by done. by apply Hi.
  + intros Hnu. done.
  + rewrite Enqueue_closed. done.
- by apply signal_inv.
- destruct Hinv as [Hi Hw Hc]; simpl in *. unfold Dequeue.
  destruct (popLocked_cases q) as [[E ->]|(it & rest & -> & Hlen)]; [by split|].
  split; simpl; [intros Hp; specialize (Hi Hp); lia|done|done].
- destruct Hinv as [Hi Hw Hc]; simpl in *. unfold Close.
  destruct (Queue_closed q) eqn:E; [by split; simpl; rewrite ?E|].
  split; simpl; [by intros ?%parked_wake|by rewrite unlocked_wake|by intros _ ?%parked_wake].
Qed.

Lemma reachable_inv n s : reachable n s → inv s.
Proof.
unfold reachable. intros H. remember (init n) as s0 eqn:E.
assert (inv s0) as Hinv by (subst; apply init_inv). clear E.
induction H as [|s0 s1 s2 Hst _ IH]; [done|]. by apply IH, (step_inv s0).
Qed.

(** C16: No lost wake-up. In every reachable state of any number of concurrent
  DequeueWait, Enqueue, Dequeue, Close and cancellation events, if some caller
  is parked then there are at least as many woken callers about to look at the
  queue as there are items queued, and the queue is open; in particular, when
  nobody is runnable and a caller is parked, the queue is empty and not
  closed. *)
Theorem no_lost_wakeup (n : Z) (s : state) :
reachable n s → parked (s_ws s) →
(length (Queue_items (s_q s)) ≤ at_top (s_ws s))%nat ∧ Queue_closed (s_q s) = false.
Proof.
intros Hr%reachable_inv Hp. split; [by apply Hr|].
destruct (Queue_closed (s_q s)) eqn:E; [|done]. by destruct (inv_closed _ Hr E).
Qed.

(** The run of one caller that parks on an empty queue. *)
Definition parked_state : state := mkState (New [WithMaxDepth 0]) [mkWaiter PParked false false].

Lemma parked_reachable : reachable 0 parked_state.
Proof.
eapply rtc_l; [apply (SCall _ [] false)|].
eapply rtc_l; [apply (SBody _ _ 0%nat (mkWaiter PTop false false)); [done..|by repeat constructor]|].
eapply rtc_l; [by apply (SPark _ _ 0%nat (mkWaiter PWait false false))|]. apply rtc_refl.
Defined.

Lemma no_lost_wakeup_witness :
parked (s_ws parked_state) ∧ Queue_closed (s_q parked_state) = false.
Proof.
split; [by left|]. by apply (no_lost_wakeup 0 parked_state parked_reachable); left.
Defined.

(** A cancellation can be missed. There is a reachable state in which a
  caller is parked although its context is done and its bridge goroutine has
  already broadcast and exited, on an open empty queue; neither the caller nor
  its bridge has a step left that would wake it.  This is the interleaving
  where the context is cancelled between the ctx.Err() check and cond.Wait. *)
Theorem cancel_wakeup_missed :
∃ s w, reachable 0 s ∧ s_ws s = [w] ∧ w_pc w = PParked ∧ w_ctx w = true ∧ w_bridge w = true.
Proof.
exists (mkState (New [WithMaxDepth 0]) [mkWaiter PParked true true]),
  (mkWaiter PParked true true). split_and!; [|done..].
eapply rtc_l; [apply (SCall _ [] false)|].
eapply rtc_l; [apply (SBody _ _ 0%nat (mkWaiter PTop false false)); [done..|by repeat constructor]|].
eapply rtc_l; [by apply (SCancel _ _ 0%nat (mkWaiter PWait false false))|].
eapply rtc_l; [by apply (SBridge _ _ 0%nat (mkWaiter PWait true false))|].
eapply rtc_l; [by apply (SPark _ _ 0%nat (mkWaiter PWait true true))|]. apply rtc_refl.
Qed.

End Blocking.
