(* ===== verification/Store.v ===== *)
(** * Store.v: internal/store, the API-key store

    [APIKey] and [Limits] records, the in-memory store and the JSON-file store.
    The exported methods hold the store's mutex for their whole body and are
    atomic state transformers.  Values are immutable here, so the deep copies of
    [cloneAPIKey] rebuild an equal record; callers cannot alias store state.

    [KeyStore] is the interface the lifecycle engine of Auth.v is verified
    against: what [store.Store] promises, over an abstract map of keys.  [Memory]
    and [File] are its instances.

    Go ranges over a map in an unspecified order: [range_keys] stands for it.
    encoding/json is the pair [marshal]/[unmarshal], assumed to round-trip
    ([unmarshal_marshal]) and never to produce an empty document.  The operating
    system is a list of the outcomes of the system calls of each coming [flush]. *)

From S2P Require Import Prelude Errors GoTime.
Open Scope Z_scope.

Record Limits := mkLimits {
  Limits_RPM : Z; Limits_TPM : Z; Limits_DailyTokens : Z; Limits_MonthlyTokens : Z }.

Record APIKey := mkAPIKey {
  APIKey_ID : string;
  APIKey_Name : string;
  APIKey_Prefix : string;
  APIKey_SecretHash : bytes;
  APIKey_Salt : bytes;
  APIKey_CreatedAt : Time;
  APIKey_LastUsedAt : Time;
  APIKey_UsageCount : Z;
  APIKey_RevokedAt : option Time;
  APIKey_Owner : string;
  APIKey_Team : string;
  APIKey_ExpiresAt : option Time;
  APIKey_CreatedBy : string;
  APIKey_Roles : list string;
  APIKey_AdminScopes : list string;
  APIKey_AllowModels : list string;
  APIKey_DenyModels : list string;
  APIKey_Limits : option Limits }.

#[export] Instance Limits_eq_dec : EqDecision Limits.
Proof. solve_decision. Defined.
#[export] Instance APIKey_eq_dec : EqDecision APIKey.
Proof. solve_decision. Defined.

Definition Limits_zero : Limits := mkLimits 0 0 0 0.
Definition APIKey_zero : APIKey :=
  mkAPIKey "" "" "" [] [] 0 0 0 None "" "" None "" [] [] [] [] None.

Definition Revoked (k : APIKey) : bool := match APIKey_RevokedAt k with Some _ => true | None => false end.
Definition Expired (k : APIKey) (now : Time) : bool :=
  match APIKey_ExpiresAt k with Some t => After now t | None => false end.

(** [LogValue]: the group of attributes a logged key is reduced to. *)
Inductive logval := LStr (s : string) | LStrs (l : list string) | LBool (b : bool).
Definition LogValue (k : APIKey) : list (string * logval) :=
  [("id", LStr (APIKey_ID k)); ("name", LStr (APIKey_Name k));
   ("roles", LStrs (APIKey_Roles k)); ("revoked", LBool (Revoked k))].

Definition cloneAPIKey (k : APIKey) : APIKey :=
  mkAPIKey (APIKey_ID k) (APIKey_Name k) (APIKey_Prefix k)
    ([] ++ APIKey_SecretHash k) ([] ++ APIKey_Salt k)
    (APIKey_CreatedAt k) (APIKey_LastUsedAt k) (APIKey_UsageCount k)
    (match APIKey_RevokedAt k with Some t => Some t | None => None end)
    (APIKey_Owner k) (APIKey_Team k)
    (match APIKey_ExpiresAt k with Some t => Some t | None => None end)
    (APIKey_CreatedBy k)
    ([] ++ APIKey_Roles k) ([] ++ APIKey_AdminScopes k)
    ([] ++ APIKey_AllowModels k) ([] ++ APIKey_DenyModels k)
    (match APIKey_Limits k with Some l => Some l | None => None end).

Lemma cloneAPIKey_eq k : cloneAPIKey k = k.
Proof. destruct k; unfold cloneAPIKey; simpl. by repeat case_match. Qed.
#[export] Hint Rewrite cloneAPIKey_eq : agpu_rw.

(** ** The interface *)

Notation keyset := (gmap string APIKey).

(** Every record is filed under its own id. *)
Definition keyed (m : keyset) : Prop := filed APIKey_ID m.

Lemma keyed_empty : keyed ∅.
Proof. intros id k. by rewrite lookup_empty. Qed.

Lemma keyed_insert m k : keyed m → keyed (<[APIKey_ID k := k]> m).
Proof. intros H id k'. rewrite lookup_insert_Some. naive_solver. Qed.

Lemma keyed_delete m id : keyed m → keyed (delete id m).
Proof. intros H id' k'. rewrite lookup_delete_Some. naive_solver. Qed.
#[export] Hint Resolve keyed_empty keyed_insert keyed_delete : agpu.

(** [store.Store]: what every backend promises about the abstract key map.  A
    failed mutation may or may not have reached the map, nothing else. *)
Class KeyStore (S : Type) := {
  PutAPIKey : APIKey → S → S * option error;
  GetAPIKey : string → S → result APIKey;
  ListAPIKeys : S → list APIKey;
  DeleteAPIKey : string → S → S * option error;
  keys_of : S → keyset;
  PutAPIKey_spec k s : let '(s', e) := PutAPIKey k s in
    keys_of s' = <[APIKey_ID k := k]> (keys_of s) ∨ (e ≠ None ∧ keys_of s' = keys_of s);
  GetAPIKey_spec id s : GetAPIKey id s =
    match keys_of s !! id with Some k => Ok k | None => Err ErrNotFound end;
  ListAPIKeys_spec s : ListAPIKeys s ≡ₚ (map_to_list (keys_of s)).*2;
  DeleteAPIKey_spec id s : let '(s', e) := DeleteAPIKey id s in
    keys_of s' = delete id (keys_of s) ∨ (e ≠ None ∧ keys_of s' = keys_of s) }.

Section map_order.
(** The order in which Go's [range] visits a key map. *)
Context (range_keys : keyset → list APIKey).

Definition range_spec : Prop := ∀ m, range_keys m ≡ₚ (map_to_list m).*2.

(** *** Memory *)

Record Memory := mkMemory { Memory_keys : keyset }.
Definition NewMemory : Memory := mkMemory ∅.

Definition Memory_PutAPIKey (key : APIKey) (m : Memory) : Memory * option error :=
  (mkMemory (<[APIKey_ID key := cloneAPIKey key]> (Memory_keys m)), None).
Definition Memory_GetAPIKey (id : string) (m : Memory) : result APIKey :=
  match Memory_keys m !! id with
  | None => Err ErrNotFound
  | Some k => Ok (cloneAPIKey k)
  end.
Definition Memory_ListAPIKeys (m : Memory) : list APIKey :=
  map cloneAPIKey (range_keys (Memory_keys m)).
Definition Memory_DeleteAPIKey (id : string) (m : Memory) : Memory * option error :=
  (mkMemory (delete id (Memory_keys m)), None).

(** *** File *)

(** The outcomes of the system calls of one [flush]. *)
Record flushIO := mkFlushIO {
  io_temp : option error; io_chmod : option error; io_write : option error;
  io_close : option error; io_rename : option error }.
Definition io_good : flushIO := mkFlushIO None None None None None.

Context (marshal : list APIKey → result bytes) (unmarshal : bytes → result (list APIKey)).

(** [File_disk] is the content of the keys file ([None] when it does not
    exist), [File_io] the outcomes of the coming flushes (all good once the
    list is used up). *)
Record File := mkFile {
  File_path : string;
  File_keys : keyset;
  File_disk : option bytes;
  File_io : list flushIO }.

Definition load (readErr : option error) (f : File) : File * option error :=
  match readErr with
  | Some e => (f, Some (EWrap "store: read" e))
  | None =>
      match File_disk f with
      | None => (f, None)
      | Some data =>
          if (length data =? 0)%nat then (f, None)
          else match unmarshal data with
               | Err e => (f, Some (EWrap "store: parse" e))
               | Ok records =>
                   (mkFile (File_path f)
                      (index_by APIKey_ID records (File_keys f))
                      (File_disk f) (File_io f), None)
               end
      end
  end.

Definition NewFile (path : string) (mkdirErr readErr : option error)
    (disk : option bytes) (io : list flushIO) : result File :=
  if String.eqb path "" then Err (ENew "store: empty file path")
  else match mkdirErr with
       | Some e => Err (EWrap "store: create dir" e)
       | None =>
           let '(f, e) := load readErr (mkFile path ∅ disk io) in
           match e with Some e => Err e | None => Ok f end
       end.

(** Only a successful rename replaces the keys file. *)
Definition flush (f : File) : File * option error :=
  let records := range_keys (File_keys f) in
  match marshal records with
  | Err e => (f, Some (EWrap "store: marshal" e))
  | Ok data =>
      let io := default io_good (head (File_io f)) in
      let f := mkFile (File_path f) (File_keys f) (File_disk f) (tail (File_io f)) in
      match io_temp io with
      | Some e => (f, Some (EWrap "store: temp file" e))
      | None =>
      match io_chmod io with
      | Some e => (f, Some (EWrap "store: chmod temp" e))
      | None =>
      match io_write io with
      | Some e => (f, Some (EWrap "store: write temp" e))
      | None =>
      match io_close io with
      | Some e => (f, Some (EWrap "store: close temp" e))
      | None =>
      match io_rename io with
      | Some e => (f, Some (EWrap "store: rename" e))
      | None => (mkFile (File_path f) (File_keys f) (Some data) (File_io f), None)
      end end end end end
  end.

Definition File_set_keys (m : keyset) (f : File) : File :=
  mkFile (File_path f) m (File_disk f) (File_io f).

Definition File_PutAPIKey (key : APIKey) (f : File) : File * option error :=
  flush (File_set_keys (<[APIKey_ID key := cloneAPIKey key]> (File_keys f)) f).
Definition File_GetAPIKey (id : string) (f : File) : result APIKey :=
  match File_keys f !! id with
  | None => Err ErrNotFound
  | Some k => Ok (cloneAPIKey k)
  end.
Definition File_ListAPIKeys (f : File) : list APIKey :=
  map cloneAPIKey (range_keys (File_keys f)).
Definition File_DeleteAPIKey (id : string) (f : File) : File * option error :=
  match File_keys f !! id with
  | None => (f, None)
  | Some _ => flush (File_set_keys (delete id (File_keys f)) f)
  end.

(** *** The instances *)

Lemma map_clone l : map cloneAPIKey l = l.
Proof. induction l; simpl; autorewrite with agpu_rw; congruence. Qed.

Lemma flush_keys f : File_keys (flush f).1 = File_keys f.
Proof. unfold flush. by split_ifs. Qed.

(** After a flush the file holds the old content or, exactly when the flush
    reported no error, the current keys. *)
Lemma flush_disk f :
  match (flush f).2 with
  | None => ∃ data, marshal (range_keys (File_keys f)) = Ok data ∧ File_disk (flush f).1 = Some data
  | Some _ => File_disk (flush f).1 = File_disk f
  end.
Proof. unfold flush. split_ifs; eauto. Qed.

Context `{Hrange : range_spec}.

#[export] Program Instance Memory_KeyStore : KeyStore Memory := {|
  PutAPIKey := Memory_PutAPIKey; GetAPIKey := Memory_GetAPIKey;
  ListAPIKeys := Memory_ListAPIKeys; DeleteAPIKey := Memory_DeleteAPIKey;
  keys_of := Memory_keys |}.
Next Obligation. intros k s. simpl. rewrite cloneAPIKey_eq. by left. Qed.
Next Obligation.
  intros id s. unfold Memory_GetAPIKey. case_match; [by rewrite cloneAPIKey_eq|done].
Qed.
Next Obligation. intros s. unfold Memory_ListAPIKeys. rewrite map_clone. apply Hrange. Qed.
Next Obligation. intros id s. by left. Qed.

#[export] Program Instance File_KeyStore : KeyStore File := {|
  PutAPIKey := File_PutAPIKey; GetAPIKey := File_GetAPIKey;
  ListAPIKeys := File_ListAPIKeys; DeleteAPIKey := File_DeleteAPIKey;
  keys_of := File_keys |}.
Next Obligation.
  intros k s. unfold File_PutAPIKey. rewrite cloneAPIKey_eq.
  set (f := File_set_keys _ _). pose proof (flush_keys f). destruct (flush f). by left.
Qed.
Next Obligation.
  intros id s. unfold File_GetAPIKey. case_match; [by rewrite cloneAPIKey_eq|done].
Qed.
Next Obligation. intros s. unfold File_ListAPIKeys. rewrite map_clone. apply Hrange. Qed.
Next Obligation.
  intros id s. unfold File_DeleteAPIKey. destruct (File_keys s !! id) eqn:E.
  - set (f := File_set_keys _ _). pose proof (flush_keys f). destruct (flush f). by left.
  - left. by rewrite delete_id.
Qed.

(** *** Durability of the file store *)

Inductive fop := FPut (k : APIKey) | FDelete (id : string).
Definition fstep (o : fop) (f : File) : File * option error :=
  match o with FPut k => File_PutAPIKey k f | FDelete id => File_DeleteAPIKey id f end.
Fixpoint fexec (ops : list fop) (f : File) : File :=
  match ops with [] => f | o :: ops => fexec ops (fstep o f).1 end.
(** Every call of the sequence returned a nil error. *)
Fixpoint all_ok (ops : list fop) (f : File) : Prop :=
  match ops with [] => True | o :: ops => (fstep o f).2 = None ∧ all_ok ops (fstep o f).1 end.

Hypothesis unmarshal_marshal :
  ∀ l data, marshal l = Ok data → data ≠ [] ∧ unmarshal data = Ok l.

(** The file on disk decodes to [m]. *)
Definition on_disk (m : keyset) (f : File) : Prop :=
  File_disk f = None ∧ m = ∅ ∨
  ∃ data, marshal (range_keys m) = Ok data ∧ File_disk f = Some data ∧ keyed m.

Lemma on_disk_reopen m f path io :
  path ≠ "" → on_disk m f →
  ∃ f', NewFile path None None (File_disk f) io = Ok f' ∧ File_keys f' = m.
Proof.
  intros Hp Hd. unfold NewFile. destruct (String.eqb_spec path ""); [done|].
  destruct Hd as [[-> ->]|(data & Hm & -> & Hk)]; simpl; [by eexists|].
  destruct (unmarshal_marshal _ _ Hm) as [Hne Hu]. destruct data as [|b data]; [done|].
  rewrite Hu. simpl. eexists. split; [done|]. simpl. by apply index_by_values.
Qed.

Lemma fstep_on_disk o f m :
  keyed (File_keys f) → on_disk m f →
  keyed (File_keys (fstep o f).1) ∧
  (on_disk (File_keys (fstep o f).1) (fstep o f).1 ∨
   on_disk m (fstep o f).1 ∧ ((fstep o f).2 ≠ None ∨ File_keys (fstep o f).1 = File_keys f)).
Proof.
  intros Hk Hd.
  assert (∀ g, keyed (File_keys g) → File_disk g = File_disk f →
    keyed (File_keys (flush g).1) ∧
    (on_disk (File_keys (flush g).1) (flush g).1 ∨ on_disk m (flush g).1 ∧ (flush g).2 ≠ None)) as Hfl.
  { intros g Hg Eg. pose proof (flush_disk g) as Hfd. rewrite flush_keys. split; [done|].
    destruct (flush g).2 as [e|] eqn:E.
    - right. split; [|done]. unfold on_disk in *. by rewrite Hfd, Eg.
    - left. right. destruct Hfd as (data & Hm & Hdk). by exists data. }
  destruct o as [k|id]; simpl.
  - unfold File_PutAPIKey. rewrite cloneAPIKey_eq.
    destruct (Hfl (File_set_keys (<[APIKey_ID k:=k]> (File_keys f)) f)); simpl;
      auto with agpu. naive_solver.
  - unfold File_DeleteAPIKey. case_match eqn:E; simpl; [|naive_solver].
    destruct (Hfl (File_set_keys (delete id (File_keys f)) f)); simpl;
      auto with agpu. naive_solver.
Qed.

Lemma fexec_on_disk ops f m :
  keyed (File_keys f) → on_disk m f →
  (∃ m', on_disk m' (fexec ops f) ∧
     (m' = m ∨ ∃ pre, pre `prefix_of` ops ∧ m' = File_keys (fexec pre f))) ∧
  (all_ok ops f → m = File_keys f → on_disk (File_keys (fexec ops f)) (fexec ops f)).
Proof.
  revert f m. induction ops as [|o ops IH]; simpl; intros f m Hk Hd.
  { split; [exists m; by auto|]. intros _ ->. done. }
  destruct (fstep_on_disk o f m Hk Hd) as [Hk' Hd'].
  destruct Hd' as [Hd'|[Hd' Hcase]].
  - destruct (IH _ _ Hk' Hd') as [(m' & Hm & Hc) Hok]. split; [|intros [_ H] _; by apply Hok].
    exists m'. split; [done|]. right. destruct Hc as [->|(pre & Hpre & ->)].
    + exists [o]. split; [|done]. apply prefix_cons, prefix_nil.
    + exists (o :: pre). split; [by apply prefix_cons|done].
  - destruct (IH _ _ Hk' Hd') as [(m' & Hm & Hc) Hok]. split.
    + exists m'. split; [done|]. destruct Hc as [->|(pre & Hpre & ->)]; [by left|].
      right. exists (o :: pre). split; [by apply prefix_cons|done].
    + intros [He Hall] ->. apply Hok; [done|]. destruct Hcase as [?|?]; [done|]. congruence.
Qed.

(** C15: Durability of the file store. Take any sequence of PutAPIKey and
    DeleteAPIKey calls on a store created over a missing keys file, with any
    pattern of failing system calls. Opening the resulting file again succeeds
    and yields the key map as it was after some prefix of the calls (the file
    is never half written); when no call reported an error it yields the
    current key map. *)
Theorem file_store_durable path io f (ops : list fop) :
  path ≠ "" → NewFile path None None None io = Ok f →
  ∃ f', NewFile path None None (File_disk (fexec ops f)) [] = Ok f' ∧
    (∃ pre, pre `prefix_of` ops ∧ File_keys f' = File_keys (fexec pre f)) ∧
    (all_ok ops f → File_keys f' = File_keys (fexec ops f)).
Proof.
  intros Hp Hnew. assert (File_keys f = ∅ ∧ File_disk f = None) as [Ek Ed].
  { unfold NewFile in Hnew. destruct (String.eqb_spec path ""); by simplify_eq/=. }
  assert (keyed (File_keys f)) as Hk by (rewrite Ek; auto with agpu).
  destruct (fexec_on_disk ops f ∅ Hk ltac:(by left)) as [(m & Hm & Hc) Hok].
  destruct (on_disk_reopen m _ path [] Hp Hm) as (f' & Ef & Em). exists f'.
  split_and!; [done| |].
  - destruct Hc as [->|(pre & Hpre & ->)]; [|by eauto].
    exists []. split; [apply prefix_nil|]. rewrite Em. by simpl.
  - intros Hall. specialize (Hok Hall (eq_sym Ek)).
    destruct (on_disk_reopen _ _ path [] Hp Hok) as (f'' & Ef' & Em'). congruence.
Qed.
End map_order.

(** A concrete codec for the witness: ids as length-prefixed character codes,
    all other fields dropped, restricted to lists of such keys. *)
Definition id_key (id : string) : APIKey :=
  mkAPIKey id "" "" [] [] 0 0 0 None "" "" None "" [] [] [] [] None.
Definition demo_codec (l : list APIKey) : result bytes :=
  match l with
  | [] => Ok [0]
  | [k] => if decide (k = id_key "a") then Ok [1] else Err (ENew "unsupported")
  | _ => Err (ENew "unsupported")
  end.
Definition demo_decodec (d : bytes) : result (list APIKey) :=
  match d with [0] => Ok [] | [1] => Ok [id_key "a"] | _ => Err (ENew "bad") end.

Lemma demo_codec_ok l data : demo_codec l = Ok data → data ≠ [] ∧ demo_decodec data = Ok l.
Proof.
  unfold demo_codec. destruct l as [|k [|k' l]]; [by intros [= <-]| |done].
  case_decide; [|done]. intros [= <-]. by subst.
Defined.

Lemma file_store_durable_witness :
  let rk := λ m, (map_to_list m).*2 in
  let f := mkFile "keys.json" ∅ None [] in
  ∃ f', NewFile demo_decodec "keys.json" None None
          (File_disk (fexec rk demo_codec [FPut (id_key "a")] f)) [] = Ok f' ∧
        File_keys f' !! "a" = Some (id_key "a").
Proof.
  intros rk f.
  destruct (file_store_durable rk demo_codec demo_decodec (Hrange := λ m, reflexivity _)
    demo_codec_ok "keys.json" [] f [FPut (id_key "a")] ltac:(done) eq_refl) as (f' & E & _ & H).
  exists f'. split; [exact E|]. rewrite H; [reflexivity|]. by split.
Defined.
