(* ===== verification/Authz.v ===== *)
(** * Authz.v: internal/authz, the authorization engine

    The precedence ladder [decide], [Authorize] with the audit record it logs,
    the role table and the admin scopes.  The audit record is returned next to
    the verdict; the logger itself is not modelled. *)

From S2P Require Import Prelude Errors GoTime Store.

Inductive Action := Pull | Load | Infer.
#[export] Instance Action_eq_dec : EqDecision Action.
Proof. solve_decision. Defined.

Definition op (a : Action) : string :=
  match a with Pull => "pull" | Load => "load" | Infer => "infer" end.

Definition RoleAdmin : string := "admin".
Definition RoleUser : string := "user".
Definition RoleReadOnly : string := "read-only".

Definition contains (xs : list string) (s : string) : bool := str_mem s xs.

(** ** Admin scopes *)

Definition ScopeConfigRead : string := "config:read".
Definition ScopeConfigWrite : string := "config:write".
Definition ScopeWorkersRead : string := "workers:read".
Definition ScopeWorkersWrite : string := "workers:write".
Definition ScopeModelsRead : string := "models:read".
Definition ScopeModelsWrite : string := "models:write".
Definition ScopeKeysRead : string := "keys:read".
Definition ScopeKeysWrite : string := "keys:write".
Definition ScopeLogsRead : string := "logs:read".
Definition ScopeLogsWrite : string := "logs:write".
Definition ScopeTelemetryRead : string := "telemetry:read".
Definition ScopeTelemetryWrite : string := "telemetry:write".
Definition ScopeAuditRead : string := "audit:read".
Definition ScopeAuditWrite : string := "audit:write".

Definition allScopes : gset string := list_to_set
  [ScopeConfigRead; ScopeConfigWrite; ScopeWorkersRead; ScopeWorkersWrite; ScopeModelsRead;
   ScopeModelsWrite; ScopeKeysRead; ScopeKeysWrite; ScopeLogsRead; ScopeLogsWrite;
   ScopeTelemetryRead; ScopeTelemetryWrite; ScopeAuditRead; ScopeAuditWrite].

Definition ValidScope (scope : string) : bool := bool_decide (scope ∈ allScopes).

(** The range over the set is in an unspecified order; the sort removes it. *)
Definition AllScopes : list string := sort_Strings (elements allScopes).

Definition HasScope (key : APIKey) (scope : string) : bool :=
  if contains (APIKey_Roles key) RoleAdmin then true
  else contains (APIKey_AdminScopes key) scope.

(** ** Roles *)

Definition ModelScopeAll : string := "all".
Definition ModelScopeAllowListed : string := "allow-listed".

Record RoleInfo := mkRoleInfo {
  RoleInfo_Name : string;
  RoleInfo_Description : string;
  RoleInfo_InferenceActions : list string;
  RoleInfo_ModelScope : string;
  RoleInfo_GrantsAllAdminScopes : bool }.

Definition allRoles : list RoleInfo :=
  [mkRoleInfo RoleAdmin
     "Superuser: every inference action on every model (ignoring allow/deny) and every admin scope."
     [op Pull; op Load; op Infer] ModelScopeAll true;
   mkRoleInfo RoleUser
     "Pull, load, and infer, but only on allow-listed models (deny-list wins)."
     [op Pull; op Load; op Infer] ModelScopeAllowListed false;
   mkRoleInfo RoleReadOnly
     "Infer only (never pull or load), on allow-listed models (deny-list wins)."
     [op Infer] ModelScopeAllowListed false].

Definition AllRoles : list RoleInfo :=
  map (λ r, mkRoleInfo (RoleInfo_Name r) (RoleInfo_Description r)
              ([] ++ RoleInfo_InferenceActions r) (RoleInfo_ModelScope r)
              (RoleInfo_GrantsAllAdminScopes r)) allRoles.

Fixpoint validRole_loop (rs : list RoleInfo) (name : string) : bool :=
  match rs with
  | [] => false
  | r :: rs => if String.eqb (RoleInfo_Name r) name then true else validRole_loop rs name
  end.
Definition ValidRole (name : string) : bool := validRole_loop allRoles name.

(** ** The decision *)

(** The deciding role, the reason and whether the action is allowed. *)
Definition decide_key (key : APIKey) (model : string) (action : Action) : string * string * bool :=
  if contains (APIKey_DenyModels key) model then ("", "model in deny-list", false)
  else if contains (APIKey_Roles key) RoleAdmin then (RoleAdmin, "role admin", true)
  else if contains (APIKey_Roles key) RoleReadOnly &&
          (bool_decide (action = Pull) || bool_decide (action = Load))
  then (RoleReadOnly, "role read-only forbids " +:+ op action, false)
  else if contains (APIKey_AllowModels key) model then
    if contains (APIKey_Roles key) RoleUser
    then (RoleUser, "model in allow-list (role user)", true)
    else if contains (APIKey_Roles key) RoleReadOnly
    then (RoleReadOnly, "model in allow-list (role read-only)", true)
    else ("", "model in allow-list but no granting role", false)
  else ("", "deny by default", false).

Inductive level := LevelInfo | LevelWarn.
Record auditRecord := mkAuditRecord { ar_level : level; ar_attrs : list (string * string) }.

Definition audit (lv : level) (res keyID model : string) (action : Action)
    (reason role : string) : auditRecord :=
  mkAuditRecord lv
    ([("result", res); ("key_id", keyID); ("model", model); ("op", op action);
      ("reason", reason)] ++ (if String.eqb role "" then [] else [("role", role)])).

(** The verdict (nil is permitted) and the audit record. *)
Definition Authorize (key : APIKey) (model : string) (action : Action) : auditRecord * option error :=
  let '(role, reason, allowed) := decide_key key model action in
  if allowed
  then (audit LevelInfo "granted" (APIKey_ID key) model action reason role, None)
  else (audit LevelWarn "denied" (APIKey_ID key) model action reason role, Some ErrForbidden).

(** ** Lemmas *)

Lemma contains_spec xs s : contains xs s = true ↔ s ∈ xs.
Proof. apply str_mem_spec. Qed.

(** The precedence of the package documentation, as a predicate. *)
Definition permitted (key : APIKey) (model : string) (action : Action) : Prop :=
  model ∉ APIKey_DenyModels key ∧
  (RoleAdmin ∈ APIKey_Roles key ∨
   (¬ (RoleReadOnly ∈ APIKey_Roles key ∧ action ≠ Infer) ∧
    model ∈ APIKey_AllowModels key ∧
    (RoleUser ∈ APIKey_Roles key ∨ RoleReadOnly ∈ APIKey_Roles key))).

Lemma contains_false xs s : contains xs s = false ↔ s ∉ xs.
Proof. apply str_mem_false. Qed.

Lemma decide_permitted key model action :
  (decide_key key model action).2 = true ↔ permitted key model action.
Proof.
  unfold decide_key, permitted.
  repeat match goal with
  | |- context [contains ?xs ?s] =>
      let E := fresh "E" in destruct (contains xs s) eqn:E;
      [apply contains_spec in E|apply contains_false in E]
  end; destruct action; simpl; naive_solver.
Qed.

Lemma Authorize_verdict key model action :
  (Authorize key model action).2 =
  if (decide_key key model action).2 then None else Some ErrForbidden.
Proof. unfold Authorize. by destruct (decide_key key model action) as [[role reason] []]. Qed.

(** A deny-listed model is refused whatever roles the key holds. *)
Lemma deny_wins key model action :
  model ∈ APIKey_DenyModels key → (Authorize key model action).2 = Some ErrForbidden.
Proof.
  intros H. rewrite Authorize_verdict. destruct (_.2) eqn:E; [|done].
  apply decide_permitted in E as [? _]. done.
Qed.

(** ** Properties *)

(** C7: Authorize grants exactly what the deny-wins precedence permits: the model
    is not deny-listed, and either the key is admin, or the model is
    allow-listed, a granting role is held and a read-only role does not forbid
    the action; everything else is ErrForbidden.  The audit record carries the
    verdict, at Warn exactly for denials, and of the key only its id. *)
Theorem authorize_spec key model action :
  let '(rec, err) := Authorize key model action in
  (err = None ↔ permitted key model action) ∧
  (err = None ∨ err = Some ErrForbidden) ∧
  (ar_level rec = LevelWarn ↔ err ≠ None) ∧
  (∃ reason role, rec = audit (ar_level rec) (if decide (err = None) then "granted" else "denied")
     (APIKey_ID key) model action reason role).
Proof.
  pose proof (decide_permitted key model action) as H. unfold Authorize.
  destruct (decide_key key model action) as [[role reason] allowed]; simpl in H.
  destruct allowed; split_and!; simpl; try naive_solver; eauto.
Qed.

(** A key whose only role is one of AllRoles, with the model allow-listed and
    not deny-listed, may perform exactly the actions the role table lists for
    it; and such a key without scopes of its own passes the check of every admin
    scope exactly when the table says the role grants them all. *)
Theorem role_table_agrees key r model action scope :
  r ∈ AllRoles → APIKey_Roles key = [RoleInfo_Name r] → APIKey_AdminScopes key = [] →
  model ∈ APIKey_AllowModels key → model ∉ APIKey_DenyModels key →
  ((Authorize key model action).2 = None ↔ op action ∈ RoleInfo_InferenceActions r) ∧
  HasScope key scope = RoleInfo_GrantsAllAdminScopes r ∧
  ValidRole (RoleInfo_Name r) = true.
Proof.
  intros Hr Hroles Hsc Ha Hd. rewrite Authorize_verdict.
  assert ((decide_key key model action).2 = true ↔ op action ∈ RoleInfo_InferenceActions r) as H.
  { rewrite decide_permitted. unfold permitted. rewrite Hroles.
    unfold AllRoles, allRoles in Hr; simpl in Hr. rewrite !elem_of_cons in Hr.
    destruct Hr as [->|[->|[->|Hr]]]; [..|by apply elem_of_nil in Hr];
      destruct action; simpl; rewrite ?list_elem_of_singleton, ?elem_of_cons, ?elem_of_nil;
      unfold RoleAdmin, RoleUser, RoleReadOnly; naive_solver. }
  split_and!.
  - rewrite <- H. by destruct (_.2).
  - unfold HasScope. rewrite Hroles, Hsc.
    unfold AllRoles, allRoles in Hr; simpl in Hr. rewrite !elem_of_cons in Hr.
    by destruct Hr as [->|[->|[->|?%elem_of_nil]]].
  - unfold AllRoles, allRoles in Hr; simpl in Hr. rewrite !elem_of_cons in Hr.
    by destruct Hr as [->|[->|[->|?%elem_of_nil]]].
Qed.

Definition ex_readonly : APIKey :=
  mkAPIKey "k" "" "" [] [] 0 0 0 None "" "" None "" [RoleReadOnly] [] ["m"] ["x"] None.

Lemma role_table_agrees_witness :
  (Authorize ex_readonly "m" Pull).2 = None ↔ op Pull ∈ [op Infer].
Proof.
  apply (role_table_agrees ex_readonly
    (mkRoleInfo RoleReadOnly
       "Infer only (never pull or load), on allow-listed models (deny-list wins)."
       [op Infer] ModelScopeAllowListed false) "m" Pull "keys:read"); [|reflexivity..| |].
  - unfold AllRoles; simpl. set_solver.
  - simpl. set_solver.
  - simpl. set_solver.
Defined.

Lemma HasScope_spec key scope :
  HasScope key scope = true ↔ RoleAdmin ∈ APIKey_Roles key ∨ scope ∈ APIKey_AdminScopes key.
Proof.
  unfold HasScope. destruct (contains (APIKey_Roles key) RoleAdmin) eqn:E.
  - apply contains_spec in E. naive_solver.
  - rewrite contains_spec. apply contains_false in E. naive_solver.
Qed.

(** The scope vocabulary. AllScopes is sorted, has no duplicates and lists
    exactly the strings ValidScope accepts; a key passes HasScope exactly when
    it is admin or lists the scope. *)
Theorem scopes_spec key scope :
  StronglySorted String.le AllScopes ∧ NoDup AllScopes ∧
  (scope ∈ AllScopes ↔ ValidScope scope = true) ∧
  (HasScope key scope = true ↔
     RoleAdmin ∈ APIKey_Roles key ∨ scope ∈ APIKey_AdminScopes key).
Proof.
  unfold AllScopes. split_and!.
  - apply sort_Strings_sorted.
  - rewrite sort_Strings_Permutation. apply NoDup_elements.
  - rewrite sort_Strings_Permutation, elem_of_elements. unfold ValidScope.
    symmetry. apply bool_decide_eq_true.
  - apply HasScope_spec.
Qed.
