(* ===== verification/Scheduler.v ===== *)
(** * Scheduler.v: internal/scheduler, the placement decision

    [Score], [PickPreferring] and [PriorityForRoles].  Scores are [int64]
    ([i64]); the free VRAM of a worker is a [uint64] of bytes, its load and
    active jobs are [uint32]. *)

From S2P Require Import Prelude Errors GoTime Types Store Authz Queue.
Open Scope Z_scope.

Definition weightModelLoaded : Z := 1000000000.
Definition freeVRAMUnit : Z := Z.shiftl 1 30.
Definition weightFreeVRAMPerGiB : Z := 10000.
Definition weightLoadPenalty : Z := 50.
Definition weightActiveJobPenalty : Z := 1.
Definition weightBoundWorkerBonus : Z := 100000000.

Fixpoint hasModel_loop (ms : list Model) (model : string) : bool :=
  match ms with
  | [] => false
  | m :: ms => if String.eqb (Model_Name m) model then true else hasModel_loop ms model
  end.
Definition hasModel (w : Worker) (model : string) : bool := hasModel_loop (Worker_Models w) model.

Definition runnable (w : Worker) (model : string) : bool :=
  if negb (bool_decide (Worker_Status w = WorkerOnline)) then false
  else if hasModel w model then true
  else 0 <? Worker_FreeVRAM w.

Definition Score (w : Worker) (model : string) : Z :=
  let score := 0 in
  let score := if hasModel w model then i64 (score + weightModelLoaded) else score in
  let score := i64 (score + i64 (i64 (Worker_FreeVRAM w / freeVRAMUnit) * weightFreeVRAMPerGiB)) in
  let score := i64 (score - i64 (i64 (Worker_Load w) * weightLoadPenalty)) in
  i64 (score - i64 (i64 (Worker_ActiveJobs w) * weightActiveJobPenalty)).

Definition scoreFor (byID : gmap string Worker) (model preferredWorkerID id : string) : Z :=
  let s := Score (default (mkWorker "" [] 0 0 0 0 0 "" WorkerOnline 0) (byID !! id)) model in
  if negb (String.eqb preferredWorkerID "") && String.eqb id preferredWorkerID
  then i64 (s + weightBoundWorkerBonus) else s.

(** The scan over the remaining ids, with the best so far. *)
Fixpoint best_loop (score : string → Z) (ids : list string) (bestID : string) (bestScore : Z) : string :=
  match ids with
  | [] => bestID
  | id :: ids =>
      let s := score id in
      if bestScore <? s then best_loop score ids id s else best_loop score ids bestID bestScore
  end.

Definition PickPreferring (workers : list Worker) (model preferredWorkerID : string) : option string :=
  let '(byID, ids) :=
    fold_left (λ '(byID, ids) w,
      if negb (runnable w model) then (byID, ids)
      else (<[Worker_ID w := w]> byID, ids ++ [Worker_ID w])) workers (∅ : gmap string Worker, []) in
  match sort_Strings ids with
  | [] => None
  | id0 :: rest =>
      let score := scoreFor byID model preferredWorkerID in
      Some (best_loop score rest id0 (score id0))
  end.

Definition Pick (workers : list Worker) (model : string) : option string :=
  PickPreferring workers model "".

Fixpoint priority_loop (roles : list string) (best : Z) : Z :=
  match roles with
  | [] => best
  | r :: roles =>
      let best :=
        if String.eqb r RoleAdmin then if best <? PriorityHigh then PriorityHigh else best
        else if String.eqb r RoleUser then if best <? PriorityNormal then PriorityNormal else best
        else best in
      priority_loop roles best
  end.
Definition PriorityForRoles (roles : list string) : Z := priority_loop roles PriorityLow.

(** ** The scan is an argmax with the smallest id on ties *)

Section argmax.
Context (score : string → Z).

(** [a] is at least as good as [b]: a higher score, or the same with a smaller id. *)
Definition beats (a b : string) : Prop :=
  score b < score a ∨ (score a = score b ∧ String.le a b).

Lemma beats_trans a b c : beats a b → beats b c → beats a c.
Proof.
  unfold beats. intros [?|[? ?]] [?|[? ?]]; try (left; lia). right. split; [lia|by etrans].
Qed.

Lemma beats_antisymm a b : beats a b → beats b a → a = b.
Proof. unfold beats. intros [?|[? ?]] [?|[? ?]]; try lia. by apply (anti_symm String.le). Qed.

Lemma beats_refl a : beats a a.
Proof. right. split; [done|]. reflexivity. Qed.

Lemma best_loop_spec ids b :
  StronglySorted String.le (b :: ids) →
  let r := best_loop score ids b (score b) in
  r ∈ b :: ids ∧ ∀ x, x ∈ b :: ids → beats r x.
Proof.
  revert b. induction ids as [|y ids IH]; intros b Hs; simpl.
  { split; [set_solver|]. intros x ->%list_elem_of_singleton. apply beats_refl. }
  apply StronglySorted_inv in Hs as [Hs Hb]. apply Forall_cons in Hb as [Hby Hb].
  destruct (Z.ltb_spec (score b) (score y)).
  - destruct (IH y Hs) as [Hin Hbest]. split; [set_solver|].
    intros x [->|Hx]%elem_of_cons; [|by apply Hbest].
    apply (beats_trans _ y); [apply Hbest; set_solver|]. left. lia.
  - destruct (IH b) as [Hin Hbest].
    { constructor; [by apply StronglySorted_inv in Hs as [? _]|done]. }
    split; [set_solver|]. intros x [->|[->|Hx]%elem_of_cons]%elem_of_cons.
    + apply Hbest. set_solver.
    + apply (beats_trans _ b); [apply Hbest; set_solver|]. unfold beats.
      destruct (decide (score y = score b)); [right; by split|left; lia].
    + apply Hbest. set_solver.
Qed.
End argmax.

(** ** The candidate set *)

Definition candidates (workers : list Worker) (model : string) : list Worker :=
  filter (λ w, runnable w model = true) workers.

Lemma index_fold workers model (byID : gmap string Worker) ids :
  fold_left (λ '(byID, ids) w,
      if negb (runnable w model) then (byID, ids)
      else (<[Worker_ID w := w]> byID, ids ++ [Worker_ID w])) workers (byID, ids) =
  (index_by Worker_ID (candidates workers model) byID,
   ids ++ (Worker_ID <$> candidates workers model)).
Proof.
  revert byID ids. induction workers as [|w ws IH]; intros byID ids; simpl.
  - unfold candidates; simpl. by rewrite app_nil_r.
  - unfold candidates. rewrite filter_cons. destruct (runnable w model) eqn:E; simpl.
    + rewrite IH. rewrite <- app_assoc. done.
    + apply IH.
Qed.

(** ** Scores *)

(** A worker snapshot whose counters are in the range of their Go types. *)
Record worker_ok (w : Worker) : Prop := {
  wok_vram : is_u64 (Worker_FreeVRAM w);
  wok_load : is_u32 (Worker_Load w);
  wok_jobs : is_u32 (Worker_ActiveJobs w) }.

Definition gib (w : Worker) : Z := Worker_FreeVRAM w / freeVRAMUnit.
Definition loaded (w : Worker) (model : string) : Z := if hasModel w model then 1 else 0.

(** The score over the integers. *)
Definition score_spec (w : Worker) (model : string) : Z :=
  loaded w model * weightModelLoaded + gib w * weightFreeVRAMPerGiB
  - Worker_Load w * weightLoadPenalty - Worker_ActiveJobs w * weightActiveJobPenalty.

Lemma gib_range w : worker_ok w → 0 <= gib w < 2 ^ 34.
Proof. intros [H _ _]. unfold gib, freeVRAMUnit. change (Z.shiftl 1 30) with (2 ^ 30). zlia. Qed.

(** No step of [Score] overflows. *)
Lemma Score_exact w model : worker_ok w → Score w model = score_spec w model.
Proof.
  intros Hok. pose proof (gib_range w Hok) as Hg. destruct Hok as [_ Hl Hj].
  unfold Score, score_spec, loaded. fold (gib w).
  unfold weightModelLoaded, weightFreeVRAMPerGiB, weightLoadPenalty, weightActiveJobPenalty.
  unfold is_u32 in *.
  destruct (hasModel w model); nowrap; lia.
Qed.

Lemma score_spec_range w model : worker_ok w → - 2 ^ 60 < score_spec w model < 2 ^ 60.
Proof.
  intros Hok. pose proof (gib_range w Hok). destruct Hok as [_ Hl Hj].
  unfold score_spec, loaded, weightModelLoaded, weightFreeVRAMPerGiB, weightLoadPenalty,
    weightActiveJobPenalty, is_u32 in *. destruct (hasModel w model); lia.
Qed.

(** The score with the affinity bonus. *)
Definition total_score (w : Worker) (model pref : string) : Z :=
  score_spec w model +
  (if negb (String.eqb pref "") && String.eqb (Worker_ID w) pref then weightBoundWorkerBonus else 0).

(** [w] is preferred to [w']. *)
Definition better (model pref : string) (w w' : Worker) : Prop :=
  total_score w' model pref < total_score w model pref ∨
  (total_score w model pref = total_score w' model pref ∧ String.le (Worker_ID w) (Worker_ID w')).

Lemma scoreFor_total l m model pref w :
  NoDup (Worker_ID <$> l) → w ∈ l → worker_ok w →
  scoreFor (index_by Worker_ID l m) model pref (Worker_ID w) =
  total_score w model pref.
Proof.
  intros Hnd Hin Hok. unfold scoreFor, total_score. rewrite index_by_in by done. simpl.
  rewrite Score_exact by done. pose proof (score_spec_range w model Hok).
  unfold weightBoundWorkerBonus. case_match; [|lia]. rewrite i64_id; [done|unfold is_i64; lia].
Qed.

Lemma pick_cases workers model pref :
  NoDup (Worker_ID <$> workers) → Forall worker_ok workers →
  match PickPreferring workers model pref with
  | None => ∀ w, w ∈ workers → runnable w model = false
  | Some id => ∃ w, w ∈ workers ∧ Worker_ID w = id ∧ runnable w model = true ∧
      ∀ w', w' ∈ workers → runnable w' model = true → better model pref w w'
  end.
Proof.
  intros Hnd Hok. unfold PickPreferring. rewrite index_fold. simpl.
  set (cs := candidates workers model).
  assert (∀ w, w ∈ cs ↔ runnable w model = true ∧ w ∈ workers) as Hcs.
  { intros w. unfold cs, candidates. by rewrite list_elem_of_filter. }
  assert (NoDup (Worker_ID <$> cs)) as Hndc.
  { eapply sublist_NoDup; [exact Hnd|]. apply fmap_sublist, sublist_filter. }
  rewrite Forall_forall in Hok.
  pose proof (sort_Strings_sorted (Worker_ID <$> cs)) as Hsort.
  pose proof (sort_Strings_Permutation (Worker_ID <$> cs)) as Hperm.
  destruct (sort_Strings (Worker_ID <$> cs)) as [|id0 rest] eqn:E.
  - intros w Hw. destruct (runnable w model) eqn:Er; [|done].
    assert (Worker_ID w ∈ Worker_ID <$> cs) as Hin by (apply list_elem_of_fmap_2, Hcs; done).
    rewrite <- Hperm in Hin. set_solver.
  - set (sc := scoreFor _ model pref). destruct (best_loop_spec sc rest id0 Hsort) as [Hin Hbest].
    rewrite Hperm in Hin. apply list_elem_of_fmap in Hin as (w & Hid & Hw).
    exists w. simpl in Hbest. rewrite Hid in *. apply Hcs in Hw as Hw'. destruct Hw' as [Hr Hwk].
    split_and!; [done..|]. intros w' Hw' Hr'.
    assert (w' ∈ cs) as Hwc by by apply Hcs.
    assert (beats sc (Worker_ID w) (Worker_ID w')) as Hb.
    { apply Hbest. rewrite Hperm. by apply list_elem_of_fmap_2. }
    unfold beats, sc in Hb. by rewrite !scoreFor_total in Hb by auto.
Qed.

(** What needs no assumption on the fleet: a pick is a runnable worker's id, and a
    miss means no worker is runnable. *)
Lemma pick_runnable workers model pref :
  match PickPreferring workers model pref with
  | None => ∀ w, w ∈ workers → runnable w model = false
  | Some id => ∃ w, w ∈ workers ∧ Worker_ID w = id ∧ runnable w model = true
  end.
Proof.
  unfold PickPreferring. rewrite index_fold. simpl. set (cs := candidates workers model).
  assert (∀ w, w ∈ cs ↔ runnable w model = true ∧ w ∈ workers) as Hcs.
  { intros w. unfold cs, candidates. by rewrite list_elem_of_filter. }
  pose proof (sort_Strings_sorted (Worker_ID <$> cs)) as Hsort.
  pose proof (sort_Strings_Permutation (Worker_ID <$> cs)) as Hperm.
  destruct (sort_Strings (Worker_ID <$> cs)) as [|id0 rest].
  - intros w Hw. destruct (runnable w model) eqn:Er; [|done].
    assert (Worker_ID w ∈ Worker_ID <$> cs) as Hin by (apply list_elem_of_fmap_2, Hcs; done).
    rewrite <- Hperm in Hin. set_solver.
  - set (sc := scoreFor _ model pref). destruct (best_loop_spec sc rest id0 Hsort) as [Hin _].
    rewrite Hperm in Hin. apply list_elem_of_fmap in Hin as (w & Hid & [Hr Hw]%Hcs). by exists w.
Qed.

Lemma better_antisymm model pref w w' :
  better model pref w w' → better model pref w' w → Worker_ID w = Worker_ID w'.
Proof.
  unfold better. intros [?|[? ?]] [?|[? ?]]; try lia. by apply (anti_symm String.le).
Qed.

(** ** Properties *)

(** C9: The placement decision. On a fleet with distinct worker ids,
    PickPreferring returns a worker exactly when some worker is runnable, and
    the one it returns is runnable and best: it has the highest score (with the
    affinity bonus for the preferred worker), ties going to the smallest id. *)
Theorem pick_is_best workers model pref :
  NoDup (Worker_ID <$> workers) → Forall worker_ok workers →
  (PickPreferring workers model pref = None ↔ ∀ w, w ∈ workers → runnable w model = false) ∧
  (∀ id, PickPreferring workers model pref = Some id ↔
     ∃ w, w ∈ workers ∧ Worker_ID w = id ∧ runnable w model = true ∧
       ∀ w', w' ∈ workers → runnable w' model = true → better model pref w w').
Proof.
  intros Hnd Hok. pose proof (pick_cases workers model pref Hnd Hok) as H.
  destruct (PickPreferring workers model pref) as [id0|]; split.
  - destruct H as (w & Hw & _ & Hr & _). split; [done|]. intros Hn. by rewrite (Hn w Hw) in Hr.
  - intros id. split; [by intros [= <-]|]. destruct H as (w & Hw & <- & Hr & Hb).
    intros (w' & Hw' & <- & Hr' & Hb'). f_equal.
    eapply better_antisymm; [by apply Hb|by apply Hb'].
  - done.
  - intros id. split; [done|]. intros (w & Hw & _ & Hr & _). by rewrite (H w Hw) in Hr.
Qed.

Definition ex_worker (id : string) (ms : list Model) (vram load jobs : Z) : Worker :=
  mkWorker id ms 0 jobs vram vram load "gpu" WorkerOnline 0.
Definition ex_fleet : list Worker :=
  [ex_worker "w2" [mkModel "m" ""] 0 90 3; ex_worker "w1" [] (2 ^ 36) 0 0].

Lemma pick_is_best_witness :
  PickPreferring ex_fleet "m" "w1" = Some "w2" ∧
  (PickPreferring ex_fleet "m" "w1" = None ↔ ∀ w, w ∈ ex_fleet → runnable w "m" = false).
Proof.
  split; [vm_compute; reflexivity|].
  apply (pick_is_best ex_fleet "m" "w1").
  - apply (bool_decide_unpack _). vm_compute. exact I.
  - unfold ex_fleet. repeat constructor; simpl; unfold is_u64, is_u32; lia.
Defined.

(** The decision does not depend on the order in which the fleet snapshot
    lists the workers. *)
Theorem pick_order_independent workers workers' model pref :
  workers ≡ₚ workers' → NoDup (Worker_ID <$> workers) → Forall worker_ok workers →
  PickPreferring workers model pref = PickPreferring workers' model pref.
Proof.
  intros Hp Hnd Hok. pose proof (pick_cases workers model pref Hnd Hok) as H.
  assert (NoDup (Worker_ID <$> workers')) as Hnd' by by rewrite <- Hp.
  assert (Forall worker_ok workers') as Hok' by by rewrite <- Hp.
  pose proof (pick_cases workers' model pref Hnd' Hok') as H'.
  destruct (PickPreferring workers model pref), (PickPreferring workers' model pref);
    [|exfalso..|done].
  - destruct H as (w & Hw & <- & Hr & Hb), H' as (w' & Hw' & <- & Hr' & Hb'). f_equal.
    eapply better_antisymm; [apply Hb; [by rewrite Hp|done]|apply Hb'; [by rewrite <- Hp|done]].
  - destruct H as (w & Hw & _ & Hr & _). rewrite Hp in Hw. by rewrite (H' w Hw) in Hr.
  - destruct H' as (w & Hw & _ & Hr & _). rewrite <- Hp in Hw. by rewrite (H w Hw) in Hr.
Qed.

Lemma pick_order_independent_witness :
  PickPreferring ex_fleet "m" "" = PickPreferring (reverse ex_fleet) "m" "".
Proof.
  apply (pick_order_independent ex_fleet (reverse ex_fleet) "m" "").
  - by rewrite reverse_Permutation.
  - apply (bool_decide_unpack _). vm_compute. exact I.
  - unfold ex_fleet. repeat constructor; simpl; unfold is_u64, is_u32; lia.
Defined.

(** A snapshot within the ranges the weights are designed for. *)
Record in_range (w : Worker) : Prop := {
  ir_ok : worker_ok w;
  ir_load : Worker_Load w <= 100;
  ir_jobs : Worker_ActiveJobs w < 50;
  ir_gib : gib w < 80000 }.

(** Within the designed ranges (load at most 100, fewer than 50 active jobs,
    under 80000 GiB free) comparing scores is comparing lexicographically:
    model loaded first, then free GiB, then lower load, then fewer jobs; and a
    worker with the model loaded beats a worker without it even when the latter
    has the affinity bonus. *)
Theorem score_lexicographic w w' model pref :
  in_range w → in_range w' →
  (Score w' model < Score w model ↔
     loaded w' model < loaded w model ∨ (loaded w' model = loaded w model ∧
     (gib w' < gib w ∨ (gib w' = gib w ∧
     (Worker_Load w < Worker_Load w' ∨ (Worker_Load w = Worker_Load w' ∧
      Worker_ActiveJobs w < Worker_ActiveJobs w')))))) ∧
  (loaded w' model < loaded w model → total_score w' model pref < total_score w model pref).
Proof.
  intros [Ho Hl Hj Hg] [Ho' Hl' Hj' Hg']. rewrite !Score_exact by done.
  pose proof (gib_range w Ho). pose proof (gib_range w' Ho').
  destruct Ho as [_ Hl0 Hj0], Ho' as [_ Hl0' Hj0'].
  assert (loaded w model = 0 ∨ loaded w model = 1) by (unfold loaded; case_match; lia).
  assert (loaded w' model = 0 ∨ loaded w' model = 1) by (unfold loaded; case_match; lia).
  unfold total_score, score_spec, weightModelLoaded, weightFreeVRAMPerGiB, weightLoadPenalty,
    weightActiveJobPenalty, weightBoundWorkerBonus, is_u32 in *.
  split; [lia|]. repeat case_match; lia.
Qed.

Lemma score_lexicographic_witness :
  Score (ex_worker "w1" [] (2 ^ 36) 0 0) "m" < Score (ex_worker "w2" [mkModel "m" ""] 0 90 3) "m".
Proof.
  refine (proj2 (proj1 (score_lexicographic (ex_worker "w2" [mkModel "m" ""] 0 90 3)
    (ex_worker "w1" [] (2 ^ 36) 0 0) "m" "" _ _)) _).
  - repeat constructor; vm_compute; reflexivity || congruence.
  - repeat constructor; vm_compute; reflexivity || congruence.
  - left. vm_compute. reflexivity.
Defined.

Lemma priority_loop_spec roles best :
  PriorityLow <= best <= PriorityHigh →
  priority_loop roles best =
  Z.max best (if contains roles RoleAdmin then PriorityHigh
              else if contains roles RoleUser then PriorityNormal else PriorityLow).
Proof.
  unfold PriorityLow, PriorityHigh, PriorityNormal, contains.
  revert best. induction roles as [|r roles IH]; intros best Hb; simpl; [lia|].
  unfold PriorityHigh, PriorityNormal.
  destruct (String.eqb_spec r RoleAdmin) as [->|]; simpl.
  - rewrite IH by (repeat case_match; zbool; lia). repeat case_match; zbool; lia.
  - destruct (String.eqb_spec r RoleUser) as [->|];
      rewrite IH by (repeat case_match; zbool; lia); repeat case_match; zbool; lia.
Qed.

(** A key's queue priority is High exactly when it holds the admin role,
    Normal exactly when it holds user but not admin, and Low otherwise,
    whatever the order of its roles. *)
Theorem priority_for_roles_spec roles :
  PriorityForRoles roles =
  (if contains roles RoleAdmin then PriorityHigh
   else if contains roles RoleUser then PriorityNormal else PriorityLow).
Proof.
  unfold PriorityForRoles. rewrite priority_loop_spec by (unfold PriorityLow, PriorityHigh; lia).
  unfold PriorityLow, PriorityHigh, PriorityNormal. repeat case_match; lia.
Qed.
