(* ===== verification/Quota.v ===== *)
(** * Quota.v: internal/quota, fixed-window consumption limits

    Windows and their calendar boundaries, the per-key counters with [roll], the
    [CounterStore] interface and its in-memory instance with checkpointing, and
    the [Engine].  The clock reads of the engine are the [now] arguments (all
    instants are UTC already).  Counters are [uint64].

    The specification keeps the whole history of admitted requests and recorded
    tokens and recomputes each window's total from it ([spec_counters]); the
    engine's rolling counters are shown to agree with it on every run. *)

From S2P Require Import Prelude Errors AtomicFile GoTime Store.
Open Scope Z_scope.

(** ** Windows *)

Inductive window := windowMinute | windowDay | windowMonth.

Definition window_String (w : window) : string :=
  match w with windowMinute => "minute" | windowDay => "day" | windowMonth => "month" end.

Definition windowStart (w : window) (t : Time) : Time :=
  let t := UTC t in
  match w with
  | windowMinute => Truncate t Minute
  | windowDay => Date (Year t) (Month t) (Day t)
  | windowMonth => Date (Year t) (Month t) 1
  end.

Definition WindowReset (w : window) (t : Time) : Time :=
  let start := windowStart w t in
  match w with
  | windowMinute => Add start Minute
  | windowDay => AddDate start 0 0 1
  | windowMonth => AddDate start 0 1 0
  end.

#[global] Arguments windowStart : simpl never.
#[global] Arguments WindowReset : simpl never.

(** ** Counters *)

Record Counters := mkCounters {
  MinuteStart : Time; MinuteRequests : Z; MinuteTokens : Z;
  DayStart : Time; DayTokens : Z;
  MonthStart : Time; MonthTokens : Z }.

#[export] Instance Counters_eq_dec : EqDecision Counters.
Proof. solve_decision. Defined.
Definition Counters_zero : Counters := mkCounters 0 0 0 0 0 0 0.

Definition roll (now : Time) (c : Counters) : Counters :=
  let ms := windowStart windowMinute now in
  let c := if negb (Equal (MinuteStart c) ms)
           then mkCounters ms 0 0 (DayStart c) (DayTokens c) (MonthStart c) (MonthTokens c) else c in
  let ds := windowStart windowDay now in
  let c := if negb (Equal (DayStart c) ds)
           then mkCounters (MinuteStart c) (MinuteRequests c) (MinuteTokens c) ds 0
                  (MonthStart c) (MonthTokens c) else c in
  let mos := windowStart windowMonth now in
  if negb (Equal (MonthStart c) mos)
  then mkCounters (MinuteStart c) (MinuteRequests c) (MinuteTokens c) (DayStart c) (DayTokens c) mos 0
  else c.

Definition incr_requests (c : Counters) : Counters :=
  mkCounters (MinuteStart c) (u64 (MinuteRequests c + 1)) (MinuteTokens c)
    (DayStart c) (DayTokens c) (MonthStart c) (MonthTokens c).

Definition add_tokens (n : Z) (c : Counters) : Counters :=
  mkCounters (MinuteStart c) (MinuteRequests c) (u64 (MinuteTokens c + n))
    (DayStart c) (u64 (DayTokens c + n)) (MonthStart c) (u64 (MonthTokens c + n)).

(** ** The counter store interface *)

Definition checkfn := Counters → option error.

(** What the engine relies on: the counters of each key, the check evaluated on
    the rolled counters, the reservation applied exactly when it passes. *)
Class CounterStore (S : Type) := {
  Reserve : string → Time → checkfn → S → S * option error;
  AddTokens : string → Time → Z → S → S * option error;
  Get : string → Time → S → S * result Counters;
  counters_of : S → string → Counters;
  Reserve_spec id now check s :
    let c := roll now (counters_of s id) in
    let '(s', e) := Reserve id now check s in
    e = check c ∧
    ∀ id', counters_of s' id' =
      if decide (id' = id)
      then match check c with Some _ => c | None => incr_requests c end
      else counters_of s id';
  AddTokens_spec id now n s :
    let '(s', e) := AddTokens id now n s in
    e = None ∧
    ∀ id', counters_of s' id' =
      if decide (id' = id) then add_tokens n (roll now (counters_of s id)) else counters_of s id';
  Get_spec id now s :
    let '(s', r) := Get id now s in
    r = Ok (roll now (counters_of s id)) ∧
    ∀ id', counters_of s' id' =
      if decide (id' = id) then roll now (counters_of s id) else counters_of s id' }.

(** *** The in-memory store *)

Record MemoryCounterStore := mkMCS { mcs_counters : gmap string Counters }.
Definition NewMemoryCounterStore : MemoryCounterStore := mkMCS ∅.

(** [m.counters[id]], the zero value when absent. *)
Definition mcs_get (m : MemoryCounterStore) (id : string) : Counters :=
  default Counters_zero (mcs_counters m !! id).
Definition mcs_put (m : MemoryCounterStore) (id : string) (c : Counters) : MemoryCounterStore :=
  mkMCS (<[id := c]> (mcs_counters m)).

Definition MCS_Reserve (id : string) (now : Time) (check : checkfn) (m : MemoryCounterStore)
    : MemoryCounterStore * option error :=
  let c := roll now (mcs_get m id) in
  match check c with
  | Some err => (mcs_put m id c, Some err)
  | None => (mcs_put m id (incr_requests c), None)
  end.

Definition MCS_AddTokens (id : string) (now : Time) (n : Z) (m : MemoryCounterStore)
    : MemoryCounterStore * option error :=
  let c := roll now (mcs_get m id) in
  (mcs_put m id (add_tokens n c), None).

Definition MCS_Get (id : string) (now : Time) (m : MemoryCounterStore)
    : MemoryCounterStore * result Counters :=
  let c := roll now (mcs_get m id) in
  (mcs_put m id c, Ok c).

Lemma mcs_get_put m id c id' :
  mcs_get (mcs_put m id c) id' = if decide (id' = id) then c else mcs_get m id'.
Proof.
  unfold mcs_get, mcs_put; simpl. case_decide; subst.
  - by rewrite lookup_insert_eq.
  - by rewrite lookup_insert_ne.
Qed.

#[export] Program Instance MCS_CounterStore : CounterStore MemoryCounterStore := {|
  Reserve := MCS_Reserve; AddTokens := MCS_AddTokens; Get := MCS_Get; counters_of := mcs_get |}.
Next Obligation.
  intros id now check s. unfold MCS_Reserve.
  destruct (check (roll now (mcs_get s id))) eqn:E; cbv zeta; rewrite ?E;
    (split; [done|]; intros; apply mcs_get_put).
Qed.
Next Obligation. intros. unfold MCS_AddTokens. split; [done|]. intros. apply mcs_get_put. Qed.
Next Obligation. intros. unfold MCS_Get. split; [done|]. intros. apply mcs_get_put. Qed.

(** *** Checkpoints

    encoding/json is [marshal]/[unmarshal] on the counter map; the outcomes of the
    system calls are arguments; the file content is the last component. *)
Section checkpoint.
Context (marshal : gmap string Counters → result bytes)
        (unmarshal : bytes → result (option (gmap string Counters))).

Definition Checkpoint (path : string) (now : Time) (io : checkpointIO)
    (m : MemoryCounterStore) (disk : option bytes)
    : MemoryCounterStore * option bytes * option error :=
  if String.eqb path "" then (m, disk, Some (ENew "quota: empty checkpoint path"))
  else
    let snapshot := roll now <$> mcs_counters m in
    let '(disk, err) := write_json "quota" marshal io snapshot disk in
    (mkMCS snapshot, disk, err).

(** A JSON null decodes to the nil map, here [None]. *)
Definition LoadCheckpoint (path : string) (readErr : option error) (disk : option bytes)
    (m : MemoryCounterStore) : MemoryCounterStore * option error :=
  match read_json "quota" path unmarshal readErr disk with
  | Err e => (m, Some e)
  | Ok None => (m, None)
  | Ok (Some loaded) => (mkMCS (default ∅ loaded), None)
  end.
End checkpoint.

(** ** The engine *)

Definition globalKeyID : string := "__global__".

Record Engine (S : Type) := mkEngine {
  Engine_cs : S; Engine_defaults : Limits; Engine_global : Limits }.
Arguments mkEngine {_} _ _ _.
Arguments Engine_cs {_} _.
Arguments Engine_defaults {_} _.
Arguments Engine_global {_} _.

(** The structured log record of a decision. *)
Inductive quotaLog :=
| QDenied (keyID quotaType : string) (usage limit : Z)
| QReserved (keyID quotaType : string)
| QRecorded (keyID : string) (n : Z).

Record Snapshot := mkSnapshot {
  Snapshot_KeyID : string;
  Snapshot_Limits : Limits;
  RequestsThisMinute : Z; TokensThisMinute : Z; TokensToday : Z; TokensThisMonth : Z;
  MinuteResetsAt : Time; DayResetsAt : Time; MonthResetsAt : Time }.

Section engine.
Context {S : Type} `{!CounterStore S}.
Notation engine := (Engine S).

Definition WithDefaults (d : Limits) (e : engine) : engine :=
  mkEngine (Engine_cs e) d (Engine_global e).
Definition WithGlobalLimits (rpm tpm : Z) (e : engine) : engine :=
  mkEngine (Engine_cs e) (Engine_defaults e) (mkLimits rpm tpm 0 0).
Definition NewEngine (cs : S) (opts : list (engine → engine)) : engine :=
  fold_left (λ e o, o e) opts (mkEngine cs Limits_zero Limits_zero).

Definition SetDefaults (d : Limits) (e : engine) : engine :=
  mkEngine (Engine_cs e) d (Engine_global e).
Definition SetGlobalLimits (rpm tpm : Z) (e : engine) : engine :=
  mkEngine (Engine_cs e) (Engine_defaults e) (mkLimits rpm tpm 0 0).
Definition Defaults (e : engine) : Limits := Engine_defaults e.
Definition GlobalLimits (e : engine) : Limits := Engine_global e.

Definition effectiveLimits (e : engine) (key : APIKey) : Limits :=
  match APIKey_Limits key with Some l => l | None => Engine_defaults e end.

Definition with_cs (cs : S) (e : engine) : engine :=
  mkEngine cs (Engine_defaults e) (Engine_global e).

(** The closure passed to [Reserve]: which dimension denies, with its usage and
    limit. *)
Definition denial (lim : Limits) (c : Counters) : option (string * Z * Z) :=
  if negb (Limits_RPM lim =? 0) && (Limits_RPM lim <? u64 (MinuteRequests c + 1))
  then Some ("rpm", MinuteRequests c, Limits_RPM lim)
  else if negb (Limits_TPM lim =? 0) && (Limits_TPM lim <=? MinuteTokens c)
  then Some ("tpm", MinuteTokens c, Limits_TPM lim)
  else if negb (Limits_DailyTokens lim =? 0) && (Limits_DailyTokens lim <=? DayTokens c)
  then Some ("daily_tokens", DayTokens c, Limits_DailyTokens lim)
  else if negb (Limits_MonthlyTokens lim =? 0) && (Limits_MonthlyTokens lim <=? MonthTokens c)
  then Some ("monthly_tokens", MonthTokens c, Limits_MonthlyTokens lim)
  else None.

Definition global_denial (lim : Limits) (c : Counters) : option (string * Z * Z) :=
  if negb (Limits_RPM lim =? 0) && (Limits_RPM lim <? u64 (MinuteRequests c + 1))
  then Some ("global_rpm", MinuteRequests c, Limits_RPM lim)
  else if negb (Limits_TPM lim =? 0) && (Limits_TPM lim <=? MinuteTokens c)
  then Some ("global_tpm", MinuteTokens c, Limits_TPM lim)
  else None.

Definition as_check (d : Counters → option (string * Z * Z)) : checkfn :=
  λ c, match d c with Some _ => Some ErrQuotaExceeded | None => None end.

(** The log record is computed from the counters the closure saw, which the
    model reads as the store's rolled counters. *)
Definition reserve_with (d : Counters → option (string * Z * Z)) (id okType : string)
    (now : Time) (e : engine) : engine * option error * list quotaLog :=
  let seen := roll now (counters_of (Engine_cs e) id) in
  let '(cs, err) := Reserve id now (as_check d) (Engine_cs e) in
  (with_cs cs e, err,
   match err with
   | Some _ => match d seen with
               | Some (ty, usage, limit) => [QDenied id ty usage limit]
               | None => []
               end
   | None => [QReserved id okType]
   end).

Definition CheckAndReserve (now : Time) (key : APIKey) (e : engine)
    : engine * option error * list quotaLog :=
  let lim := effectiveLimits e key in
  reserve_with (denial lim) (APIKey_ID key) "rpm" (UTC now) e.

Definition CheckAndReserveGlobal (now : Time) (e : engine)
    : engine * option error * list quotaLog :=
  let lim := Engine_global e in
  if (Limits_RPM lim =? 0) && (Limits_TPM lim =? 0) then (e, None, [])
  else reserve_with (global_denial lim) globalKeyID "global_rpm" (UTC now) e.

Definition GlobalMinuteReset (now : Time) : Time := WindowReset windowMinute (UTC now).

Definition RecordTokens (now : Time) (keyID : string) (n : Z) (e : engine)
    : engine * list quotaLog :=
  if n =? 0 then (e, [])
  else
    let '(cs, err) := AddTokens keyID (UTC now) n (Engine_cs e) in
    (with_cs cs e, match err with Some _ => [] | None => [QRecorded keyID n] end).

Definition RecordGlobalTokens (now : Time) (n : Z) (e : engine) : engine * list quotaLog :=
  if n =? 0 then (e, [])
  else
    let g := Engine_global e in
    if (Limits_RPM g =? 0) && (Limits_TPM g =? 0) then (e, [])
    else
      let '(cs, err) := AddTokens globalKeyID (UTC now) n (Engine_cs e) in
      (with_cs cs e, match err with Some _ => [] | None => [QRecorded globalKeyID n] end).

Definition Usage (now : Time) (keyID : string) (lim : Limits) (e : engine)
    : engine * result Snapshot :=
  let now := UTC now in
  let '(cs, r) := Get keyID now (Engine_cs e) in
  (with_cs cs e,
   match r with
   | Err err => Err err
   | Ok c => Ok (mkSnapshot keyID lim (MinuteRequests c) (MinuteTokens c) (DayTokens c)
                   (MonthTokens c) (WindowReset windowMinute now) (WindowReset windowDay now)
                   (WindowReset windowMonth now))
   end).

Definition UsageForKey (now : Time) (key : APIKey) (e : engine) : engine * result Snapshot :=
  Usage now (APIKey_ID key) (effectiveLimits e key) e.
End engine.

(** ** Retry-After *)

Definition consider (now reset : Time) (best : option Time) : option Time :=
  if negb (After reset now) then best
  else match best with
       | None => Some reset
       | Some b => if Before reset b then Some reset else best
       end.

Definition at_limit (limit usage : Z) : bool := negb (limit =? 0) && (limit <=? usage).

Definition RetryAfter (s : Snapshot) (now : Time) : option Time :=
  let now := UTC now in
  let lim := Snapshot_Limits s in
  let best := None in
  let best := if at_limit (Limits_RPM lim) (RequestsThisMinute s)
              then consider now (MinuteResetsAt s) best else best in
  let best := if at_limit (Limits_TPM lim) (TokensThisMinute s)
              then consider now (MinuteResetsAt s) best else best in
  let best := if at_limit (Limits_DailyTokens lim) (TokensToday s)
              then consider now (DayResetsAt s) best else best in
  let best := if at_limit (Limits_MonthlyTokens lim) (TokensThisMonth s)
              then consider now (MonthResetsAt s) best else best in
  match best with
  | Some b => Some b
  | None =>
      consider now (MonthResetsAt s) (consider now (DayResetsAt s)
        (consider now (MinuteResetsAt s) best))
  end.

(** ** Windows partition time

    Window number [i] of each kind starts at [win_begin w i]; [win_index] is the
    number of the window an instant lies in. *)

Definition win_begin (w : window) (i : Z) : Time :=
  match w with
  | windowMinute => i * Minute
  | windowDay => i * DayNs
  | windowMonth => month_start i * DayNs
  end.
Definition win_index (w : window) (t : Time) : Z :=
  match w with
  | windowMinute => t / Minute
  | windowDay => day_number t
  | windowMonth => month_index (day_number t)
  end.

Lemma Date_month y m d : Date y m d = (month_start (12 * y + m - 1) + d - 1) * DayNs.
Proof.
  unfold Date, month_start. f_equal.
  replace (12 * y + m - 1) with (m - 1 + y * 12) by lia.
  rewrite Z.div_add, Z.mod_add by lia. rewrite (Z.add_comm ((m - 1) / 12)).
  unfold days_from_civil. repeat case_match; lia.
Qed.

Lemma day_number_mult n : day_number (n * DayNs) = n.
Proof. unfold day_number. apply Z.div_mul. done. Qed.

Lemma Day_spec t : Day t - 1 = day_number t - month_start (month_index (day_number t)).
Proof.
  unfold Day, month_index. set (n := day_number t).
  rewrite month_start_index by apply civil_month_range.
  pose proof (days_civil_roundtrip n) as H.
  destruct (civil_from_days n) as [[y m] d]. simpl. rewrite <- H at 1.
  unfold days_from_civil. repeat case_match; lia.
Qed.

Lemma index_YM t : 12 * Year t + Month t - 1 = month_index (day_number t).
Proof. reflexivity. Qed.

Lemma windowStart_begin w t : windowStart w t = win_begin w (win_index w t).
Proof.
  unfold windowStart, UTC. destruct w; simpl.
  - unfold Truncate. simpl. pose proof (Z.div_mod t Minute ltac:(done)). lia.
  - rewrite Date_month, index_YM. pose proof (Day_spec t). f_equal. lia.
  - rewrite Date_month, index_YM. f_equal. lia.
Qed.

Lemma month_index_start i : month_index (month_start i) = i.
Proof. apply month_index_unique. pose proof (month_start_succ i). lia. Qed.

Lemma WindowReset_begin w t : WindowReset w t = win_begin w (win_index w t + 1).
Proof.
  unfold WindowReset. rewrite windowStart_begin. destruct w; simpl win_begin.
  - unfold Add. lia.
  - unfold AddDate. rewrite Date_month, !Z.add_0_r, index_YM.
    pose proof (Day_spec (day_number t * DayNs)) as H. rewrite !day_number_mult in *.
    rewrite Z.mod_mul by done. lia.
  - set (s := month_start (month_index (day_number t)) * DayNs). unfold AddDate.
    rewrite Date_month, !Z.add_0_r.
    replace (12 * Year s + (Month s + 1) - 1) with (12 * Year s + Month s - 1 + 1) by lia.
    rewrite index_YM. pose proof (Day_spec s) as H. unfold s in *.
    rewrite !day_number_mult, !month_index_start in *. rewrite Z.mod_mul by done. lia.
Qed.

Lemma win_begin_succ w i : win_begin w i < win_begin w (i + 1).
Proof.
  destruct w; simpl.
  - change Minute with 60000000000. lia.
  - change DayNs with 86400000000000. lia.
  - pose proof (month_start_succ i). change DayNs with 86400000000000. lia.
Qed.

Lemma win_begin_mono w i j : i <= j → win_begin w i <= win_begin w j.
Proof.
  intros H. destruct w; simpl; change DayNs with 86400000000000;
    change Minute with 60000000000; try lia.
  pose proof (month_start_mono i j H). lia.
Qed.

Lemma win_begin_lt_inv w i j : win_begin w i < win_begin w j → i < j.
Proof.
  intros H. destruct (Z.le_gt_cases j i) as [Hle|]; [|done].
  pose proof (win_begin_mono w j i Hle). lia.
Qed.

Lemma win_index_spec w t :
  win_begin w (win_index w t) <= t < win_begin w (win_index w t + 1).
Proof.
  destruct w; simpl.
  - pose proof (Z.div_mod t Minute ltac:(done)).
    pose proof (Z.mod_pos_bound t Minute ltac:(done)). lia.
  - unfold day_number. pose proof (Z.div_mod t DayNs ltac:(done)).
    pose proof (Z.mod_pos_bound t DayNs ltac:(done)). lia.
  - pose proof (month_index_spec (day_number t)).
    unfold day_number in *. pose proof (Z.div_mod t DayNs ltac:(done)).
    pose proof (Z.mod_pos_bound t DayNs ltac:(done)). change DayNs with 86400000000000 in *. lia.
Qed.

Lemma win_index_mono w t t' : t <= t' → win_index w t <= win_index w t'.
Proof.
  intros H. pose proof (win_index_spec w t). pose proof (win_index_spec w t').
  assert (win_index w t < win_index w t' + 1); [|lia]. apply (win_begin_lt_inv w). lia.
Qed.

Lemma win_begin_inj w i j : win_begin w i = win_begin w j → i = j.
Proof.
  intros H. destruct (Z.lt_trichotomy i j) as [Hlt|[?|Hlt]]; [|done|].
  - pose proof (win_begin_mono w (i + 1) j). pose proof (win_begin_succ w i). lia.
  - pose proof (win_begin_mono w (j + 1) i). pose proof (win_begin_succ w j). lia.
Qed.

Lemma windowStart_mono w t t' : t <= t' → windowStart w t <= windowStart w t'.
Proof. intros. rewrite !windowStart_begin. by apply win_begin_mono, win_index_mono. Qed.

(** Between two instants of one window there is only that window. *)
Lemma windowStart_between w t0 t1 t2 :
  t0 <= t1 → t1 <= t2 → windowStart w t0 = windowStart w t2 → windowStart w t1 = windowStart w t2.
Proof.
  intros H1 H2 E. pose proof (windowStart_mono w t0 t1 H1).
  pose proof (windowStart_mono w t1 t2 H2). lia.
Qed.

Lemma WindowReset_after w t : t < WindowReset w t.
Proof. rewrite WindowReset_begin. apply win_index_spec. Qed.

(** ** The history specification *)

Inductive fact := HAdmit | HTokens (n : Z).
Record entry := mkEntry { e_id : string; e_time : Time; e_fact : fact }.
Notation history := (list entry).

Definition in_window (w : window) (id : string) (t : Time) (e : entry) : bool :=
  String.eqb (e_id e) id && (windowStart w (e_time e) =? windowStart w t).

Definition fact_requests (f : fact) : Z := match f with HAdmit => 1 | HTokens _ => 0 end.
Definition fact_tokens (f : fact) : Z := match f with HAdmit => 0 | HTokens n => n end.

Fixpoint total (f : fact → Z) (p : entry → bool) (h : history) : Z :=
  match h with
  | [] => 0
  | e :: h => (if p e then f (e_fact e) else 0) + total f p h
  end.

(** What the counters of [id] must read at time [t]. *)
Definition spec_counters (h : history) (id : string) (t : Time) : Counters :=
  mkCounters (windowStart windowMinute t)
    (total fact_requests (in_window windowMinute id t) h)
    (total fact_tokens (in_window windowMinute id t) h)
    (windowStart windowDay t) (total fact_tokens (in_window windowDay id t) h)
    (windowStart windowMonth t) (total fact_tokens (in_window windowMonth id t) h).

(** The counters as [roll] sees them: the window a counter belongs to matters
    only through equality with the current one. *)
Lemma roll_eq now c :
  roll now c =
  mkCounters (windowStart windowMinute now)
    (if MinuteStart c =? windowStart windowMinute now then MinuteRequests c else 0)
    (if MinuteStart c =? windowStart windowMinute now then MinuteTokens c else 0)
    (windowStart windowDay now)
    (if DayStart c =? windowStart windowDay now then DayTokens c else 0)
    (windowStart windowMonth now)
    (if MonthStart c =? windowStart windowMonth now then MonthTokens c else 0).
Proof.
  destruct c as [m r k d dt mo mt]. unfold roll, Equal; cbn [MinuteStart DayStart MonthStart].
  set (a := windowStart windowMinute now). set (b := windowStart windowDay now).
  set (x := windowStart windowMonth now).
  destruct (Z.eqb_spec m a) as [->|]; simpl; destruct (Z.eqb_spec d b) as [->|]; simpl;
    destruct (Z.eqb_spec mo x) as [->|]; done.
Qed.

Definition before_now (h : history) (t : Time) : Prop := Forall (λ e, e_time e <= t) h.

(** A window that opened after the last entry has an empty total. *)
Lemma total_later f w id t0 t h :
  before_now h t0 → t0 <= t → windowStart w t0 ≠ windowStart w t →
  total f (in_window w id t) h = 0.
Proof.
  intros Hb Ht Hne. induction Hb as [|e h He Hb IH]; simpl; [done|]. rewrite IH.
  unfold in_window. destruct (String.eqb _ _); simpl; [|lia].
  destruct (Z.eqb_spec (windowStart w (e_time e)) (windowStart w t)) as [E|]; [|lia].
  exfalso. apply Hne. by apply (windowStart_between w (e_time e)).
Qed.

Lemma total_same_window f w id t0 t h :
  windowStart w t0 = windowStart w t →
  total f (in_window w id t) h = total f (in_window w id t0) h.
Proof.
  intros E. induction h as [|e h IH]; simpl; [done|]. unfold in_window at 1 3. by rewrite IH, E.
Qed.

(** ** Runs of the engine against the history *)

Inductive qevent :=
| EvReserve (t : Time) (key : APIKey)
| EvTokens (t : Time) (id : string) (n : Z)
| EvGlobal (t : Time)
| EvGlobalTokens (t : Time) (n : Z)
| EvSetDefaults (d : Limits)
| EvSetGlobal (rpm tpm : Z).

Definition ev_time (ev : qevent) : option Time :=
  match ev with
  | EvReserve t _ | EvTokens t _ _ | EvGlobal t | EvGlobalTokens t _ => Some t
  | _ => None
  end.

(** How much an event can add to a counter. *)
Definition ev_weight (ev : qevent) : Z :=
  match ev with
  | EvReserve _ _ | EvGlobal _ => 1
  | EvTokens _ _ n | EvGlobalTokens _ n => n
  | _ => 0
  end.

(** The clock does not run backwards, and token counts are [uint64]. *)
Fixpoint clock_ok (t0 : Time) (evs : list qevent) : Prop :=
  match evs with
  | [] => True
  | ev :: evs => 0 <= ev_weight ev ∧
      match ev_time ev with
      | Some t => t0 <= t ∧ clock_ok t evs
      | None => clock_ok t0 evs
      end
  end.

Definition qe_step {S} `{!CounterStore S} (ev : qevent) (e : Engine S) : Engine S * option error :=
  match ev with
  | EvReserve t key => let '(e, err, _) := CheckAndReserve t key e in (e, err)
  | EvTokens t id n => ((RecordTokens t id n e).1, None)
  | EvGlobal t => let '(e, err, _) := CheckAndReserveGlobal t e in (e, err)
  | EvGlobalTokens t n => ((RecordGlobalTokens t n e).1, None)
  | EvSetDefaults d => (SetDefaults d e, None)
  | EvSetGlobal rpm tpm => (SetGlobalLimits rpm tpm e, None)
  end.

Record QSpec := mkQSpec { qs_hist : history; qs_defaults : Limits; qs_global : Limits }.

(** A dimension with a non-zero limit must have room. *)
Definition room (limit usage : Z) : bool := (limit =? 0) || (usage <? limit).

Definition admits (lim : Limits) (c : Counters) : bool :=
  room (Limits_RPM lim) (MinuteRequests c) && room (Limits_TPM lim) (MinuteTokens c) &&
  room (Limits_DailyTokens lim) (DayTokens c) && room (Limits_MonthlyTokens lim) (MonthTokens c).

Definition spec_reserve (lim : Limits) (id : string) (t : Time) (s : QSpec) : QSpec * option error :=
  if admits lim (spec_counters (qs_hist s) id t)
  then (mkQSpec (mkEntry id t HAdmit :: qs_hist s) (qs_defaults s) (qs_global s), None)
  else (s, Some ErrQuotaExceeded).

Definition spec_tokens (id : string) (t : Time) (n : Z) (s : QSpec) : QSpec :=
  mkQSpec (mkEntry id t (HTokens n) :: qs_hist s) (qs_defaults s) (qs_global s).

Definition unlimited (lim : Limits) : bool := (Limits_RPM lim =? 0) && (Limits_TPM lim =? 0).

Definition qs_step (ev : qevent) (s : QSpec) : QSpec * option error :=
  match ev with
  | EvReserve t key =>
      spec_reserve (default (qs_defaults s) (APIKey_Limits key)) (APIKey_ID key) t s
  | EvTokens t id n => (spec_tokens id t n s, None)
  | EvGlobal t =>
      let g := qs_global s in
      if unlimited g then (s, None)
      else spec_reserve (mkLimits (Limits_RPM g) (Limits_TPM g) 0 0) globalKeyID t s
  | EvGlobalTokens t n =>
      if unlimited (qs_global s) then (s, None) else (spec_tokens globalKeyID t n s, None)
  | EvSetDefaults d => (mkQSpec (qs_hist s) d (qs_global s), None)
  | EvSetGlobal rpm tpm => (mkQSpec (qs_hist s) (qs_defaults s) (mkLimits rpm tpm 0 0), None)
  end.

Fixpoint qruns {St} (step : qevent → St → St * option error) (evs : list qevent) (s : St)
    : list (option error) :=
  match evs with
  | [] => []
  | ev :: evs => (step ev s).2 :: qruns step evs (step ev s).1
  end.

Definition hist_weight (h : history) : Z := total (λ f, fact_requests f + fact_tokens f) (λ _, true) h.
Definition hist_ok (h : history) : Prop := Forall (λ e, 0 <= fact_tokens (e_fact e)) h.

Lemma total_bounds p h :
  hist_ok h → 0 <= total fact_requests p h <= hist_weight h ∧ 0 <= total fact_tokens p h <= hist_weight h.
Proof.
  unfold hist_weight. induction 1 as [|e h He Hh IH]; simpl; [lia|].
  assert (0 <= fact_requests (e_fact e)) by (destruct (e_fact e); simpl; lia).
  destruct (p e); lia.
Qed.

Lemma roll_spec_counters h id t0 t :
  before_now h t0 → t0 <= t → roll t (spec_counters h id t0) = spec_counters h id t.
Proof.
  intros Hb Ht. rewrite roll_eq. unfold spec_counters; cbn -[windowStart total].
  f_equal;
    match goal with |- (if ?a =? ?b then _ else _) = _ => destruct (Z.eqb_spec a b) end;
    first [symmetry; by apply total_same_window|symmetry; by eapply total_later].
Qed.

Lemma roll_spec_nil id t : roll t Counters_zero = spec_counters [] id t.
Proof.
  rewrite roll_eq. unfold spec_counters. cbn -[windowStart Z.eqb].
  f_equal; by match goal with |- context [?a =? ?b] => destruct (a =? b) end.
Qed.

Lemma in_window_same w id t t' f :
  in_window w id t (mkEntry id t' f) = (windowStart w t' =? windowStart w t).
Proof. unfold in_window; simpl. by rewrite String.eqb_refl. Qed.

Lemma in_window_other w id id' t t' f : id ≠ id' → in_window w id' t (mkEntry id t' f) = false.
Proof. intros H. unfold in_window; simpl. by rewrite (proj2 (String.eqb_neq _ _) H). Qed.

Lemma spec_counters_other h id id' t t' f :
  id ≠ id' → spec_counters (mkEntry id t' f :: h) id' t = spec_counters h id' t.
Proof. intros. unfold spec_counters; simpl. by rewrite !in_window_other. Qed.

Lemma incr_spec_counters h id t :
  hist_ok h → hist_weight h + 1 < 2 ^ 64 →
  incr_requests (spec_counters h id t) = spec_counters (mkEntry id t HAdmit :: h) id t.
Proof.
  intros Hh Hw. unfold incr_requests, spec_counters; cbn -[windowStart in_window u64].
  rewrite !in_window_same, !Z.eqb_refl; cbn -[windowStart in_window u64].
  pose proof (total_bounds (in_window windowMinute id t) h Hh).
  rewrite u64_id by (unfold is_u64; lia). f_equal; lia.
Qed.

Lemma add_spec_counters h id t n :
  hist_ok h → 0 <= n → hist_weight h + n < 2 ^ 64 →
  add_tokens n (spec_counters h id t) = spec_counters (mkEntry id t (HTokens n) :: h) id t.
Proof.
  intros Hh Hn Hw. unfold add_tokens, spec_counters; cbn -[windowStart in_window u64].
  rewrite !in_window_same, !Z.eqb_refl; cbn -[windowStart in_window u64].
  pose proof (total_bounds (in_window windowMinute id t) h Hh).
  pose proof (total_bounds (in_window windowDay id t) h Hh).
  pose proof (total_bounds (in_window windowMonth id t) h Hh).
  rewrite !u64_id by (unfold is_u64; lia). f_equal; lia.
Qed.

Section refinement.
Context {S : Type} `{!CounterStore S}.

(** At every later instant the store's counters roll to what the history says. *)
Record agrees (t0 : Time) (e : Engine S) (s : QSpec) : Prop := {
  ag_defaults : Engine_defaults e = qs_defaults s;
  ag_global : Engine_global e = qs_global s;
  ag_before : before_now (qs_hist s) t0;
  ag_ok : hist_ok (qs_hist s);
  ag_counters : ∀ id t, t0 <= t → roll t (counters_of (Engine_cs e) id) = spec_counters (qs_hist s) id t }.

Lemma agrees_later t0 t e s : t0 <= t → agrees t0 e s → agrees t e s.
Proof.
  intros Ht [H1 H2 H3 H4 H5]. split; try done.
  - eapply Forall_impl; [exact H3|]. simpl. lia.
  - intros. apply H5. lia.
Qed.

(** The store was updated at [id] to what the history, extended or not, says now. *)
Lemma agrees_update t e s cs' (h' : history) id :
  agrees t e s →
  before_now h' t → hist_ok h' →
  (∀ id', counters_of cs' id' =
     if decide (id' = id) then spec_counters h' id t else counters_of (Engine_cs e) id') →
  (∀ id' t', id' ≠ id → spec_counters h' id' t' = spec_counters (qs_hist s) id' t') →
  agrees t (with_cs cs' e) (mkQSpec h' (qs_defaults s) (qs_global s)).
Proof.
  intros [H1 H2 H3 H4 H5] Hb Hok Hc Ho. split; simpl; try done.
  intros id' t' Ht. rewrite Hc. case_decide as Hid; subst.
  - by apply roll_spec_counters.
  - rewrite Ho by done. by apply H5.
Qed.

(** With no wrap-around the code's test is the specification's. *)
Lemma room_rpm limit usage :
  0 <= usage → usage + 1 < 2 ^ 64 →
  negb (limit =? 0) && (limit <? u64 (usage + 1)) = negb (room limit usage).
Proof.
  intros. rewrite u64_id by (unfold is_u64; lia). unfold room.
  destruct (Z.eqb_spec limit 0), (Z.ltb_spec limit (usage + 1)), (Z.ltb_spec usage limit);
    simpl; try done; lia.
Qed.

Lemma room_tokens limit usage :
  negb (limit =? 0) && (limit <=? usage) = negb (room limit usage).
Proof.
  unfold room. destruct (Z.eqb_spec limit 0), (Z.leb_spec limit usage), (Z.ltb_spec usage limit);
    simpl; try done; lia.
Qed.

Lemma denial_admits lim c :
  0 <= MinuteRequests c → MinuteRequests c + 1 < 2 ^ 64 →
  as_check (denial lim) c = if admits lim c then None else Some ErrQuotaExceeded.
Proof.
  intros. unfold as_check, denial, admits. rewrite room_rpm, !room_tokens by done.
  by repeat destruct (room _ _).
Qed.

Lemma global_denial_admits lim c :
  0 <= MinuteRequests c → MinuteRequests c + 1 < 2 ^ 64 →
  as_check (global_denial lim) c =
  if admits (mkLimits (Limits_RPM lim) (Limits_TPM lim) 0 0) c then None else Some ErrQuotaExceeded.
Proof.
  intros. unfold as_check, global_denial, admits. rewrite room_rpm, !room_tokens by done.
  simpl. unfold room at 5 6; simpl. by repeat destruct (room _ _).
Qed.

Lemma reserve_agrees t e s d ty id lim :
  agrees t e s → hist_weight (qs_hist s) + 1 < 2 ^ 64 →
  (∀ c, 0 <= MinuteRequests c → MinuteRequests c + 1 < 2 ^ 64 →
     as_check d c = if admits lim c then None else Some ErrQuotaExceeded) →
  let '(e', err, _) := reserve_with d id ty t e in
  agrees t e' (spec_reserve lim id t s).1 ∧ err = (spec_reserve lim id t s).2.
Proof.
  intros Hag Hw Hd. unfold reserve_with, spec_reserve.
  pose proof (Reserve_spec id t (as_check d) (Engine_cs e)) as Hr. cbv zeta in Hr.
  destruct (Reserve id t (as_check d) (Engine_cs e)) as [cs' err]. destruct Hr as [-> Hr].
  rewrite (ag_counters _ _ _ Hag) in Hr |- * by lia.
  set (h := qs_hist s) in *. set (c := spec_counters h id t) in *.
  pose proof (total_bounds (in_window windowMinute id t) h (ag_ok _ _ _ Hag)) as Hb.
  rewrite (Hd c) in Hr |- * by (simpl; lia).
  destruct (admits lim c); simpl; (split; [|done]).
  - apply (agrees_update t e s cs' _ id); try done.
    + constructor; [simpl; lia|]. apply Hag.
    + constructor; [simpl; lia|]. apply Hag.
    + intros id'. rewrite Hr. case_decide; [|done]. apply incr_spec_counters; [apply Hag|done].
    + intros. by apply spec_counters_other.
  - destruct s as [h0 df gl]. apply (agrees_update t e (mkQSpec h0 df gl) cs' h0 id);
      try done; apply Hag.
Qed.

Lemma tokens_agrees t e s id n :
  agrees t e s → 0 <= n → hist_weight (qs_hist s) + n < 2 ^ 64 →
  agrees t (with_cs (AddTokens id t n (Engine_cs e)).1 e) (spec_tokens id t n s).
Proof.
  intros Hag Hn Hw. pose proof (AddTokens_spec id t n (Engine_cs e)) as Hr.
  destruct (AddTokens id t n (Engine_cs e)) as [cs' err]. destruct Hr as [_ Hr].
  apply (agrees_update t e s cs' _ id); try done.
  - constructor; [simpl; lia|]. apply Hag.
  - constructor; [simpl; lia|]. apply Hag.
  - intros id'. rewrite Hr. case_decide; [|done].
    rewrite (ag_counters _ _ _ Hag) by lia. apply add_spec_counters; [apply Hag|done..].
  - intros. by apply spec_counters_other.
Qed.

(** A token record of zero is dropped by the engine and invisible in the history. *)
Lemma total_zero_tokens f p h id t :
  f (HTokens 0) = 0 → total f p (mkEntry id t (HTokens 0) :: h) = total f p h.
Proof. intros Hf. simpl. rewrite Hf. case_match; lia. Qed.

Lemma zero_tokens_agrees t e s id :
  agrees t e s → agrees t e (spec_tokens id t 0 s).
Proof.
  intros [H1 H2 H3 H4 H5]. split; try done.
  - constructor; [simpl; lia|done].
  - constructor; [simpl; lia|done].
  - intros id' t' Ht. rewrite H5 by done. unfold spec_counters, spec_tokens.
    cbn [qs_hist]. by rewrite !total_zero_tokens.
Qed.

Lemma step_agrees t0 ev e s :
  agrees t0 e s → 0 <= ev_weight ev → t0 <= default t0 (ev_time ev) →
  hist_weight (qs_hist s) + ev_weight ev < 2 ^ 64 →
  agrees (default t0 (ev_time ev)) (qe_step ev e).1 (qs_step ev s).1 ∧
  (qe_step ev e).2 = (qs_step ev s).2.
Proof.
  intros Hag Hn Ht Hw. apply (agrees_later _ _ _ _ Ht) in Hag.
  destruct ev as [t key|t id n|t|t n|d|rpm tpm]; simpl in *.
  - pose proof (reserve_agrees t e s (denial (effectiveLimits e key)) "rpm" (APIKey_ID key)
      (effectiveLimits e key) Hag Hw (denial_admits _)) as H.
    unfold CheckAndReserve, UTC.
    assert (effectiveLimits e key = default (qs_defaults s) (APIKey_Limits key)) as <-.
    { unfold effectiveLimits. rewrite (ag_defaults _ _ _ Hag). by destruct (APIKey_Limits key). }
    by destruct (reserve_with _ _ _ _ _) as [[e' err] lg].
  - split; [|done]. unfold RecordTokens, UTC. destruct (Z.eqb_spec n 0) as [->|].
    + by apply zero_tokens_agrees.
    + pose proof (tokens_agrees t e s id n Hag Hn Hw). by destruct (AddTokens _ _ _ _).
  - unfold CheckAndReserveGlobal, UTC. rewrite (ag_global _ _ _ Hag). fold (unlimited (qs_global s)).
    destruct (unlimited (qs_global s)); [done|].
    pose proof (reserve_agrees t e s (global_denial (qs_global s)) "global_rpm" globalKeyID
      _ Hag Hw (global_denial_admits _)) as H.
    by destruct (reserve_with _ _ _ _ _) as [[e' err] lg].
  - unfold RecordGlobalTokens, UTC. rewrite (ag_global _ _ _ Hag). fold (unlimited (qs_global s)).
    destruct (Z.eqb_spec n 0) as [->|]; destruct (unlimited (qs_global s)); simpl; try done.
    + split; [|done]. by apply zero_tokens_agrees.
    + split; [|done]. pose proof (tokens_agrees t e s globalKeyID n Hag Hn Hw).
      by destruct (AddTokens _ _ _ _).
  - split; [|done]. destruct Hag; by split.
  - split; [|done]. destruct Hag; by split.
Qed.
End refinement.

Lemma spec_weight ev s :
  0 <= ev_weight ev → hist_weight (qs_hist (qs_step ev s).1) <= hist_weight (qs_hist s) + ev_weight ev.
Proof.
  intros. destruct ev; simpl; unfold spec_reserve; repeat case_match; simpl;
    unfold hist_weight; simpl in *; lia.
Qed.

Fixpoint evs_weight (evs : list qevent) : Z :=
  match evs with [] => 0 | ev :: evs => ev_weight ev + evs_weight evs end.

Lemma evs_weight_nonneg t0 evs : clock_ok t0 evs → 0 <= evs_weight evs.
Proof.
  revert t0. induction evs as [|ev evs IH]; intros t0; simpl; [lia|].
  intros [? H]. case_match; [destruct H as [_ H]|]; apply IH in H; lia.
Qed.

Lemma runs_agree {S} `{!CounterStore S} evs t0 (e : Engine S) s :
  agrees t0 e s → clock_ok t0 evs → hist_weight (qs_hist s) + evs_weight evs < 2 ^ 64 →
  qruns qe_step evs e = qruns qs_step evs s.
Proof.
  revert t0 e s. induction evs as [|ev evs IH]; intros t0 e s Hag Hc Hw; [done|].
  assert (0 <= ev_weight ev ∧ t0 <= default t0 (ev_time ev) ∧
          clock_ok (default t0 (ev_time ev)) evs) as (Hn & Ht & Hc').
  { simpl in Hc. destruct Hc as [? Hc]. destruct (ev_time ev); naive_solver lia. }
  simpl in Hw. pose proof (evs_weight_nonneg _ _ Hc').
  destruct (step_agrees t0 ev e s Hag Hn Ht ltac:(lia)) as [Hag' Er].
  cbn [qruns]. rewrite Er. f_equal. eapply IH; [exact Hag'|done|].
  pose proof (spec_weight ev s Hn). lia.
Qed.

Lemma agrees_init {S} `{!CounterStore S} t0 (cs : S) d g :
  (∀ id, counters_of cs id = Counters_zero) → agrees t0 (mkEngine cs d g) (mkQSpec [] d g).
Proof.
  intros Hz. split; try done; [constructor..|].
  intros id t _. simpl. rewrite Hz. apply roll_spec_nil.
Qed.

(** *** The cap on admitted requests *)

(** Reservations of [id] in the minute of [t] that were admitted. *)
Definition admitted_in (id : string) (t : Time) (er : qevent * option error) : bool :=
  match er with
  | (EvReserve t' key, None) =>
      String.eqb (APIKey_ID key) id && (windowStart windowMinute t' =? windowStart windowMinute t)
  | _ => false
  end.

Definition count_admitted (id : string) (t : Time) (l : list (qevent * option error)) : Z :=
  Z.of_nat (length (List.filter (admitted_in id t) l)).

(** Every reservation of [id] carries the request limit [rpm]. *)
Definition limited_to (id : string) (rpm : Z) (ev : qevent) : Prop :=
  match ev with
  | EvReserve _ key => APIKey_ID key = id → ∃ l, APIKey_Limits key = Some l ∧ Limits_RPM l = rpm
  | _ => True
  end.

Lemma admits_rpm lim c : admits lim c = true → Limits_RPM lim ≠ 0 → MinuteRequests c < Limits_RPM lim.
Proof. unfold admits, room. intros H Hn. zbool; lia. Qed.

Lemma spec_step_cap id t rpm ev s :
  id ≠ globalKeyID → 0 < rpm → limited_to id rpm ev →
  let used h := total fact_requests (in_window windowMinute id t) h in
  used (qs_hist s) <= rpm →
  (if admitted_in id t (ev, (qs_step ev s).2) then 1 else 0) + used (qs_hist s) =
    used (qs_hist (qs_step ev s).1) ∧ used (qs_hist (qs_step ev s).1) <= rpm.
Proof.
  intros Hg Hr Hl used Hu.
  destruct ev as [t' key|t' id' n|t'|t' n|d|r' t']; simpl in *; try lia.
  - unfold spec_reserve. set (lim := default _ _). destruct (admits _ _) eqn:Ea; simpl; [|lia].
    destruct (String.eqb_spec (APIKey_ID key) id) as [E|]; simpl; unfold used; simpl.
    + rewrite E, in_window_same. unfold used in Hu.
      destruct (Z.eqb_spec (windowStart windowMinute t') (windowStart windowMinute t)) as [Ew|];
        [|simpl; lia].
      destruct (Hl E) as (l & El & Erpm). unfold lim in Ea. rewrite El, E in Ea. simpl in Ea.
      apply admits_rpm in Ea; [|lia]. cbn -[windowStart in_window total] in Ea.
      rewrite (total_same_window _ _ _ t t') in Ea by done. simpl. lia.
    + rewrite in_window_other by done. unfold used in Hu. lia.
  - unfold used in *; simpl. case_match; lia.
  - destruct (unlimited _); [simpl; lia|]. unfold spec_reserve. destruct (admits _ _); simpl; [|lia].
    unfold used in *; simpl. rewrite in_window_other by done. lia.
  - destruct (unlimited _); simpl; [lia|]. unfold used in *; simpl. case_match; lia.
Qed.

Lemma spec_cap id t rpm evs s :
  id ≠ globalKeyID → 0 < rpm → Forall (limited_to id rpm) evs →
  total fact_requests (in_window windowMinute id t) (qs_hist s) <= rpm →
  count_admitted id t (zip evs (qruns qs_step evs s)) +
    total fact_requests (in_window windowMinute id t) (qs_hist s) <= rpm.
Proof.
  intros Hg Hr Hl. revert s. induction Hl as [|ev evs Hev Hl IH]; intros s Hu; [unfold count_admitted; simpl; lia|].
  destruct (spec_step_cap id t rpm ev s Hg Hr Hev Hu) as [E Hu'].
  specialize (IH _ Hu'). unfold count_admitted in *. cbn [qruns zip zip_with List.filter].
  destruct (admitted_in _ _ _); simpl length; lia.
Qed.

(** *** Restarts *)

(** No counter belongs to a window after [now]. *)
Definition past (now : Time) (c : Counters) : Prop :=
  MinuteStart c <= windowStart windowMinute now ∧ DayStart c <= windowStart windowDay now ∧
  MonthStart c <= windowStart windowMonth now.

Lemma roll_roll now t c : past now c → now <= t → roll t (roll now c) = roll t c.
Proof.
  intros (H1 & H2 & H3) Ht. rewrite !roll_eq; cbn -[windowStart Z.eqb].
  pose proof (windowStart_mono windowMinute now t Ht).
  pose proof (windowStart_mono windowDay now t Ht).
  pose proof (windowStart_mono windowMonth now t Ht).
  f_equal; repeat match goal with |- context [?a =? ?b] => destruct (Z.eqb_spec a b) end; lia.
Qed.

(** *** Retry-After *)

Lemma consider_min now r b :
  now < r → consider now r b = Some (match b with None => r | Some b => Z.min r b end).
Proof.
  intros H. unfold consider, After, Before. rewrite (proj2 (Z.ltb_lt _ _) H). simpl.
  destruct b as [b|]; [|done]. destruct (Z.ltb_spec r b); f_equal; lia.
Qed.

(** The resets of the dimensions at or over their limit. *)
Definition exhausted (s : Snapshot) : list Time :=
  let lim := Snapshot_Limits s in
  (if at_limit (Limits_RPM lim) (RequestsThisMinute s) then [MinuteResetsAt s] else []) ++
  (if at_limit (Limits_TPM lim) (TokensThisMinute s) then [MinuteResetsAt s] else []) ++
  (if at_limit (Limits_DailyTokens lim) (TokensToday s) then [DayResetsAt s] else []) ++
  (if at_limit (Limits_MonthlyTokens lim) (TokensThisMonth s) then [MonthResetsAt s] else []).

Definition soonest (r : Time) (l : list Time) : Prop := r ∈ l ∧ Forall (λ x, r <= x) l.

Lemma min_cases a b : Z.min a b = a ∧ a <= b ∨ Z.min a b = b ∧ b <= a.
Proof. lia. Qed.

Lemma RetryAfter_soonest s now :
  now < MinuteResetsAt s → now < DayResetsAt s → now < MonthResetsAt s →
  ∃ r, RetryAfter s now = Some r ∧ now < r ∧
    soonest r (match exhausted s with
               | [] => [MinuteResetsAt s; DayResetsAt s; MonthResetsAt s]
               | l => l
               end).
Proof.
  intros H1 H2 H3. unfold RetryAfter, exhausted, UTC.
  repeat destruct (at_limit _ _); rewrite ?consider_min by done; cbn [app];
    eexists; (split; [reflexivity|]); (split; [lia|]);
    (split; [rewrite !elem_of_cons, elem_of_nil; lia|repeat constructor; lia]).
Qed.

(** ** Properties *)

(** C3: Quota enforcement refines the history specification. Over any counter
    store that starts empty and meets the interface, for any sequence of per-key
    and global reservations, token recordings and live limit changes made with a
    clock that does not go back (and fewer than 2^64 requests and tokens in
    all), every call returns exactly what the specification returns: a request
    is admitted iff each of its limited dimensions (requests and tokens in the
    current UTC minute, tokens in the current UTC day and month, for that key
    alone) is strictly below its limit, counting from the complete history; and
    is refused with ErrQuotaExceeded otherwise. *)
Theorem quota_refines_history {S} `{!CounterStore S} (cs : S) d g evs t0 :
  (∀ id, counters_of cs id = Counters_zero) → clock_ok t0 evs → evs_weight evs < 2 ^ 64 →
  qruns qe_step evs (mkEngine cs d g) = qruns qs_step evs (mkQSpec [] d g).
Proof.
  intros Hz Hc Hw. eapply runs_agree; [by apply (agrees_init t0)|done|].
  change (hist_weight (qs_hist (mkQSpec [] d g))) with 0. lia.
Qed.

Definition ex_limited (rpm : Z) : APIKey :=
  mkAPIKey "k1" "" "" [] [] 0 0 0 None "" "" None "" [] [] [] [] (Some (mkLimits rpm 0 100 0)).
Definition ex_qevents : list qevent :=
  [EvReserve 5 (ex_limited 2); EvReserve 6 (ex_limited 2); EvReserve 7 (ex_limited 2);
   EvTokens Minute "k1" 100; EvReserve Minute (ex_limited 2); EvReserve (2 * DayNs) (ex_limited 2)].

Lemma quota_refines_history_witness :
  qruns qe_step ex_qevents (mkEngine NewMemoryCounterStore Limits_zero Limits_zero) =
    qruns qs_step ex_qevents (mkQSpec [] Limits_zero Limits_zero) ∧
  qruns qs_step ex_qevents (mkQSpec [] Limits_zero Limits_zero) =
    [None; None; Some ErrQuotaExceeded; None; Some ErrQuotaExceeded; None].
Proof.
  split; [|vm_compute; reflexivity].
  apply (quota_refines_history NewMemoryCounterStore Limits_zero Limits_zero ex_qevents 0).
  - intros id. reflexivity.
  - simpl. unfold Minute, DayNs, Hour, Minute, Second. lia.
  - vm_compute. reflexivity.
Defined.

(** Windows are fixed and calendar aligned. Every instant lies in its window
    [windowStart, WindowReset); two instants are in the same window exactly when
    their starts agree; and the window that begins at the reset instant is the
    next one. *)
Theorem window_partition w t t' :
  windowStart w t <= t < WindowReset w t ∧
  (windowStart w t <= t' < WindowReset w t ↔ windowStart w t' = windowStart w t) ∧
  windowStart w (WindowReset w t) = WindowReset w t.
Proof.
  rewrite !windowStart_begin, !WindowReset_begin.
  pose proof (win_index_spec w t) as Ht. pose proof (win_index_spec w t') as Ht'.
  split_and!; [lia..| |].
  - split.
    + intros H. f_equal.
      assert (win_index w t < win_index w t' + 1) by (apply (win_begin_lt_inv w); lia).
      assert (win_index w t' < win_index w t + 1) by (apply (win_begin_lt_inv w); lia). lia.
    + intros E%win_begin_inj. rewrite E in Ht'. lia.
  - f_equal. set (i := win_index w t). pose proof (win_index_spec w (win_begin w (i + 1))) as Hr.
    remember (win_begin w (i + 1)) as r eqn:Er. clearbody i.
    assert (win_index w r < i + 1 + 1).
    { apply (win_begin_lt_inv w). pose proof (win_begin_succ w (i + 1)) as Hs.
      rewrite <- Er in Hs. lia. }
    assert (i + 1 < win_index w r + 1) by (apply (win_begin_lt_inv w); lia). lia.
Qed.

(** C14: The requests-per-minute limit is never exceeded. On an engine over an
    empty store, with a clock that does not go back, a key whose RPM limit is
    [rpm] has at most [rpm] requests admitted in any UTC minute, whatever other
    keys, the global limiter and limit changes do in between. *)
Theorem rpm_never_exceeded {S} `{!CounterStore S} (cs : S) d g evs t0 id rpm t :
  (∀ i, counters_of cs i = Counters_zero) → clock_ok t0 evs → evs_weight evs < 2 ^ 64 →
  id ≠ globalKeyID → 0 < rpm → Forall (limited_to id rpm) evs →
  count_admitted id t (zip evs (qruns qe_step evs (mkEngine cs d g))) <= rpm.
Proof.
  intros Hz Hc Hw Hg Hr Hl.
  rewrite (runs_agree evs t0 _ (mkQSpec [] d g)); [|by apply agrees_init|done|].
  - pose proof (spec_cap id t rpm evs (mkQSpec [] d g) Hg Hr Hl) as H. simpl in H. lia.
  - change (hist_weight (qs_hist (mkQSpec [] d g))) with 0. lia.
Qed.

Lemma rpm_never_exceeded_witness :
  count_admitted "k1" 5 (zip ex_qevents (qruns qe_step ex_qevents
    (mkEngine NewMemoryCounterStore Limits_zero Limits_zero))) <= 2.
Proof.
  apply (rpm_never_exceeded NewMemoryCounterStore Limits_zero Limits_zero ex_qevents 0 "k1" 2 5).
  - intros id. reflexivity.
  - simpl. unfold Minute, DayNs, Hour, Minute, Second. lia.
  - vm_compute. reflexivity.
  - discriminate.
  - lia.
  - repeat constructor; intros _; by eexists.
Defined.

Lemma roll_idem now c : roll now (roll now c) = roll now c.
Proof. rewrite !roll_eq. cbn -[windowStart]. by rewrite !Z.eqb_refl. Qed.

(** No window is longer than 31 days. *)
Lemma WindowReset_within w t : WindowReset w t <= t + 31 * DayNs.
Proof.
  rewrite WindowReset_begin. destruct (win_index_spec w t) as [H _].
  assert (win_begin w (win_index w t + 1) - win_begin w (win_index w t) <= 31 * DayNs); [|lia].
  destruct w; simpl; unfold DayNs, Hour, Minute, Second in *; [lia..|].
  pose proof (month_start_succ (month_index (day_number t))). lia.
Qed.

Lemma exhausted_reset now id lim w1 w2 w3 w4 r :
  r ∈ exhausted (mkSnapshot id lim w1 w2 w3 w4 (WindowReset windowMinute now) (WindowReset windowDay now)
                   (WindowReset windowMonth now)) → ∃ w, r = WindowReset w now.
Proof.
  unfold exhausted. intros Hr. rewrite !elem_of_app in Hr. simpl in Hr.
  destruct Hr as [H|[H|[H|H]]]; case_match; try (by apply not_elem_of_nil in H);
    apply list_elem_of_singleton in H; eauto.
Qed.

(** The usage of a key over its limits names an exhausted window, and the hint is
    the soonest reset of those. *)
Lemma usage_hint {S} `{!CounterStore S} now key (e : Engine S) :
  admits (effectiveLimits e key) (roll now (counters_of (Engine_cs e) (APIKey_ID key))) = false →
  ∃ snap r, (UsageForKey now key e).2 = Ok snap ∧ exhausted snap ≠ [] ∧ RetryAfter snap now = Some r ∧
    now < r ∧ soonest r (exhausted snap) ∧ ∃ w, r = WindowReset w now.
Proof.
  intros Hden. unfold UsageForKey, Usage, UTC. pose proof (Get_spec (APIKey_ID key) now (Engine_cs e)) as Hg.
  destruct (Get _ _ _) as [cs'' r]. destruct Hg as [-> _]. set (c := roll now _) in *.
  set (lim := effectiveLimits e key) in *. eexists. cbn [snd].
  assert (exhausted (mkSnapshot (APIKey_ID key) lim (MinuteRequests c) (MinuteTokens c) (DayTokens c)
    (MonthTokens c) (WindowReset windowMinute now) (WindowReset windowDay now)
    (WindowReset windowMonth now)) ≠ []) as Hne.
  { unfold exhausted; cbn -[WindowReset]. unfold at_limit. rewrite !room_tokens.
    unfold admits in Hden. by repeat destruct (room _ _). }
  edestruct RetryAfter_soonest as (r & Er & Hlt & Hs);
    [..|exists r; split; [done|]; split; [exact Hne|]; split; [exact Er|]; split; [exact Hlt|]];
    try apply WindowReset_after.
  destruct (exhausted _) eqn:E; [done|]. split; [done|]. destruct Hs as [Hin _]. rewrite <- E in Hin.
  by eapply exhausted_reset in Hin.
Qed.

(** The Retry-After hint. For any key, the snapshot read at the instant of a
    denial yields a hint strictly after now; it is the soonest reset among the
    windows whose limit is used up, of which there is at least one. *)
Theorem retry_after_denial {S} `{!CounterStore S} now key (e : Engine S) snap :
  0 <= MinuteRequests (roll now (counters_of (Engine_cs e) (APIKey_ID key))) < 2 ^ 64 - 1 →
  (CheckAndReserve now key e).1.2 = Some ErrQuotaExceeded →
  (UsageForKey now key e).2 = Ok snap →
  exhausted snap ≠ [] ∧
  ∃ r, RetryAfter snap now = Some r ∧ now < r ∧ soonest r (exhausted snap).
Proof.
  intros Hb Hden Hu. unfold CheckAndReserve, reserve_with, UTC in Hden.
  pose proof (Reserve_spec (APIKey_ID key) now (as_check (denial (effectiveLimits e key)))
    (Engine_cs e)) as Hr. cbv zeta in Hr. destruct (Reserve _ _ _ _) as [cs' err].
  destruct Hr as [-> _]. simpl in Hden. rewrite denial_admits in Hden by lia.
  destruct (usage_hint now key e) as (snap' & r & E & Hne & Hr & Hlt & Hs & _); [by destruct (admits _ _)|].
  rewrite Hu in E. injection E as <-. eauto.
Qed.

Definition ex_snapshot : Snapshot :=
  mkSnapshot "k1" (mkLimits 1 0 100 0) 1 0 0 0 Minute DayNs (31 * DayNs).
Definition ex_denying : Engine MemoryCounterStore :=
  mkEngine (mkMCS {[ "k1" := mkCounters 0 1 0 0 0 0 0 ]}) Limits_zero Limits_zero.

Lemma retry_after_denial_witness :
  exhausted ex_snapshot ≠ [] ∧
  ∃ r, RetryAfter ex_snapshot 6 = Some r ∧ 6 < r ∧ soonest r (exhausted ex_snapshot).
Proof.
  apply (retry_after_denial 6 (ex_limited 1) ex_denying ex_snapshot).
  - assert (MinuteRequests (roll 6 (counters_of (Engine_cs ex_denying) (APIKey_ID (ex_limited 1)))) = 1)
      as -> by (vm_compute; reflexivity). lia.
  - vm_compute. reflexivity.
  - vm_compute. reflexivity.
Defined.

(** Restarts lose nothing. When Checkpoint reports success at [now] and the
    file is later loaded into a new store, every key's counters at every later
    time are what the running store would have had. *)
Theorem checkpoint_restart marshal unmarshal path now io m disk m1 disk1 (m2 : MemoryCounterStore) :
  (∀ (c : gmap string Counters) data, marshal c = Ok data →
     data ≠ [] ∧ unmarshal data = Ok (Some c)) →
  map_Forall (λ _, past now) (mcs_counters m) →
  Checkpoint marshal path now io m disk = (m1, disk1, None) →
  (LoadCheckpoint unmarshal path None disk1 m2).2 = None ∧
  ∀ id t, now <= t →
    roll t (mcs_get (LoadCheckpoint unmarshal path None disk1 m2).1 id) = roll t (mcs_get m id).
Proof.
  intros Hj Hp Hck. unfold Checkpoint in Hck. case_match; [done|].
  destruct (write_json _ _ _ _ _) as [d e] eqn:Hw. injection Hck as <- -> ->.
  apply write_json_disk in Hw. destruct Hw as (data & Hm & ->). destruct (Hj _ _ Hm) as [Hne Hu].
  unfold LoadCheckpoint. rewrite (read_json_data _ _ _ _ _ Hne Hu). split; [done|].
  intros id t Ht. simpl. unfold mcs_get; simpl. rewrite lookup_fmap.
  destruct (mcs_counters m !! id) as [c|] eqn:E; simpl; [|done].
  apply roll_roll; [|done]. by apply (Hp id).
Qed.

Definition demo_counters : gmap string Counters := {[ "k" := mkCounters 0 3 4 0 5 0 6 ]}.

Lemma checkpoint_restart_witness :
  let marshal m := if decide (m = demo_counters) then Ok [7] else Err (ENew "unsupported") in
  let unmarshal (d : bytes) := Ok (Some demo_counters) in
  roll 60 (mcs_get (LoadCheckpoint unmarshal "q.json" None (Some [7]) NewMemoryCounterStore).1 "k") =
  roll 60 (mcs_get (mkMCS demo_counters) "k").
Proof.
  intros marshal unmarshal.
  refine (proj2 (checkpoint_restart marshal unmarshal "q.json" 0 cio_good (mkMCS demo_counters) None
    (mkMCS demo_counters) (Some [7]) NewMemoryCounterStore _ _ _) "k" 60 _).
  - intros c data. unfold marshal. case_decide; [|done]. intros [= <-]. by subst.
  - simpl. apply map_Forall_singleton. vm_compute. split_and!; congruence.
  - vm_compute. reflexivity.
  - lia.
Defined.
