(* ===== verification/Sha256.v ===== *)
(** * Sha256.v: the SHA-256 of Go's crypto/sha256 (FIPS 180-4)

    Bytes are integers in [[0, 256)], words are [uint32].  The padded message is
    cut into 64-byte blocks, each expanded to a 64-word schedule and compressed
    into the running hash; all recursion is structural on lists or on the number
    of blocks. *)

From S2P Require Import Prelude.
Open Scope Z_scope.

Definition rotr (n x : Z) : Z := Z.lor (Z.shiftr x n) (u32 (Z.shiftl x (32 - n))).
Definition not32 (x : Z) : Z := Z.lxor x (2 ^ 32 - 1).
Definition Ch (x y z : Z) : Z := Z.lxor (Z.land x y) (Z.land (not32 x) z).
Definition Maj (x y z : Z) : Z := Z.lxor (Z.lxor (Z.land x y) (Z.land x z)) (Z.land y z).
Definition Sigma0 (x : Z) : Z := Z.lxor (Z.lxor (rotr 2 x) (rotr 13 x)) (rotr 22 x).
Definition Sigma1 (x : Z) : Z := Z.lxor (Z.lxor (rotr 6 x) (rotr 11 x)) (rotr 25 x).
Definition sigma0 (x : Z) : Z := Z.lxor (Z.lxor (rotr 7 x) (rotr 18 x)) (Z.shiftr x 3).
Definition sigma1 (x : Z) : Z := Z.lxor (Z.lxor (rotr 17 x) (rotr 19 x)) (Z.shiftr x 10).

Definition K256 : list Z :=
  [1116352408; 1899447441; 3049323471; 3921009573; 961987163; 1508970993;
   2453635748; 2870763221; 3624381080; 310598401; 607225278; 1426881987;
   1925078388; 2162078206; 2614888103; 3248222580; 3835390401; 4022224774;
   264347078; 604807628; 770255983; 1249150122; 1555081692; 1996064986;
   2554220882; 2821834349; 2952996808; 3210313671; 3336571891; 3584528711;
   113926993; 338241895; 666307205; 773529912; 1294757372; 1396182291;
   1695183700; 1986661051; 2177026350; 2456956037; 2730485921; 2820302411;
   3259730800; 3345764771; 3516065817; 3600352804; 4094571909; 275423344;
   430227734; 506948616; 659060556; 883997877; 958139571; 1322822218;
   1537002063; 1747873779; 1955562222; 2024104815; 2227730452; 2361852424;
   2428436474; 2756734187; 3204031479; 3329325298].

Definition H256 : list Z :=
  [1779033703; 3144134277; 1013904242; 2773480762; 1359893119; 2600822924;
   528734635; 1541459225].

(** The message followed by a one bit, zeros and the bit length, 64 bits. *)
Definition be_bytes (n : nat) (x : Z) : bytes :=
  map (λ i, Z.land (Z.shiftr x (8 * Z.of_nat i)) 255) (rev (List.seq 0 n)).
Definition pad (msg : bytes) : bytes :=
  let l := Z.of_nat (length msg) in
  msg ++ [128] ++ repeat 0 (Z.to_nat ((55 - l) mod 64)) ++ be_bytes 8 (u64 (8 * l)).

Definition word_of (b : bytes) : Z := fold_left (λ acc x, Z.lor (Z.shiftl acc 8) x) b 0.

(** The schedule, newest word first. *)
Fixpoint expand (n : nat) (w : list Z) : list Z :=
  match n with
  | O => w
  | S n =>
      let wi := u32 (sigma1 (nth 1 w 0) + nth 6 w 0 + sigma0 (nth 14 w 0) + nth 15 w 0) in
      expand n (wi :: w)
  end.
Definition schedule (block : bytes) : list Z :=
  rev (expand 48 (rev (map (λ i, word_of (take 4 (drop (4 * i) block))) (List.seq 0 16)))).

Definition round (st : list Z) (kw : Z * Z) : list Z :=
  match st with
  | [a; b; c; d; e; f; g; h] =>
      let t1 := u32 (h + Sigma1 e + Ch e f g + kw.1 + kw.2) in
      let t2 := u32 (Sigma0 a + Maj a b c) in
      [u32 (t1 + t2); a; b; c; u32 (d + t1); e; f; g]
  | _ => st
  end.

Definition compress (hash : list Z) (block : bytes) : list Z :=
  zip_with (λ x y, u32 (x + y)) hash (fold_left round (zip K256 (schedule block)) hash).

Fixpoint blocks (n : nat) (msg : bytes) (hash : list Z) : list Z :=
  match n with
  | O => hash
  | S n => blocks n (drop 64 msg) (compress hash (take 64 msg))
  end.

(** [sha256.Sum256]. *)
Definition sha256 (msg : bytes) : bytes :=
  let m := pad msg in
  concat (map (be_bytes 4) (blocks (length m / 64)%nat m H256)).

(** The test vector of FIPS 180-4 for "abc". *)
Example sha256_abc : sha256 [97; 98; 99] =
  [186; 120; 22; 191; 143; 1; 207; 234; 65; 65; 64; 222; 93; 174; 34; 35; 176; 3; 97; 163;
   150; 23; 122; 156; 180; 16; 255; 97; 242; 0; 21; 173].
Proof. vm_compute. reflexivity. Qed.
