(* ===== verification/Auth.v ===== *)
(** * Auth.v: internal/auth, the API-key lifecycle and authentication

    [Service] runs over any [KeyStore] (the interface of Store.v); its mutex makes
    every operation atomic.  crypto/rand is the oracle [rand]: the outcome of the
    i-th read of [n] bytes.  The two clock reads of [Authenticate] are separate
    arguments.  Strings are byte strings; the secret hash is SHA-256 (Sha256.v).

    The theorems say which tokens authenticate, what each lifecycle operation
    changes, and what stays true of a key over arbitrary runs. *)

From Stdlib Require Import Ascii.
From S2P Require Import Prelude Errors GoTime GoStrings Store Sha256.
Open Scope Z_scope.

Definition Prefix : string := "agpu".
Definition keyIDBytes : nat := 8.
Definition secretBytes : nat := 32.
Definition saltBytes : nat := 32.

(** ** Standard library pieces *)

(** [subtle.ConstantTimeCompare]: 1 for equal contents, else 0. *)
Definition ConstantTimeCompare (x y : bytes) : Z :=
  if negb (length x =? length y)%nat then 0
  else if fold_left (λ v p, Z.lor v (Z.lxor p.1 p.2)) (zip x y) 0 =? 0 then 1 else 0.

(** ** Tokens *)

Definition hashSecret (salt : bytes) (secret : string) : bytes :=
  sha256 (salt ++ bytes_of_string secret).

Definition formatToken (id secret : string) : string :=
  Prefix +:+ "_" +:+ id +:+ "_" +:+ secret.

Definition parseToken (token : string) : option (string * string) :=
  match SplitN token "_" 3 with
  | [p0; p1; p2] =>
      if negb (String.eqb p0 Prefix) || String.eqb p1 "" || String.eqb p2 "" then None
      else Some (p1, p2)
  | _ => None
  end.

(** ** Permissions and record updates *)

Record Permissions := mkPermissions {
  Perm_Roles : list string; Perm_AdminScopes : list string;
  Perm_AllowModels : list string; Perm_DenyModels : list string;
  Perm_Owner : string; Perm_Team : string; Perm_ExpiresAt : option Time; Perm_CreatedBy : string }.
Definition Permissions_zero : Permissions := mkPermissions [] [] [] [] "" "" None "".

Definition set_revoked (t : Time) (k : APIKey) : APIKey :=
  mkAPIKey (APIKey_ID k) (APIKey_Name k) (APIKey_Prefix k) (APIKey_SecretHash k) (APIKey_Salt k)
    (APIKey_CreatedAt k) (APIKey_LastUsedAt k) (APIKey_UsageCount k) (Some t)
    (APIKey_Owner k) (APIKey_Team k) (APIKey_ExpiresAt k) (APIKey_CreatedBy k)
    (APIKey_Roles k) (APIKey_AdminScopes k) (APIKey_AllowModels k) (APIKey_DenyModels k) (APIKey_Limits k).
Definition set_lists (p : Permissions) (k : APIKey) : APIKey :=
  mkAPIKey (APIKey_ID k) (APIKey_Name k) (APIKey_Prefix k) (APIKey_SecretHash k) (APIKey_Salt k)
    (APIKey_CreatedAt k) (APIKey_LastUsedAt k) (APIKey_UsageCount k) (APIKey_RevokedAt k)
    (APIKey_Owner k) (APIKey_Team k) (APIKey_ExpiresAt k) (APIKey_CreatedBy k)
    (Perm_Roles p) (Perm_AdminScopes p) (Perm_AllowModels p) (Perm_DenyModels p) (APIKey_Limits k).
Definition set_limits (l : option Limits) (k : APIKey) : APIKey :=
  mkAPIKey (APIKey_ID k) (APIKey_Name k) (APIKey_Prefix k) (APIKey_SecretHash k) (APIKey_Salt k)
    (APIKey_CreatedAt k) (APIKey_LastUsedAt k) (APIKey_UsageCount k) (APIKey_RevokedAt k)
    (APIKey_Owner k) (APIKey_Team k) (APIKey_ExpiresAt k) (APIKey_CreatedBy k)
    (APIKey_Roles k) (APIKey_AdminScopes k) (APIKey_AllowModels k) (APIKey_DenyModels k) l.
Definition set_secret (hash salt : bytes) (k : APIKey) : APIKey :=
  mkAPIKey (APIKey_ID k) (APIKey_Name k) (APIKey_Prefix k) hash salt
    (APIKey_CreatedAt k) (APIKey_LastUsedAt k) (APIKey_UsageCount k) (APIKey_RevokedAt k)
    (APIKey_Owner k) (APIKey_Team k) (APIKey_ExpiresAt k) (APIKey_CreatedBy k)
    (APIKey_Roles k) (APIKey_AdminScopes k) (APIKey_AllowModels k) (APIKey_DenyModels k) (APIKey_Limits k).
Definition set_used (t : Time) (k : APIKey) : APIKey :=
  mkAPIKey (APIKey_ID k) (APIKey_Name k) (APIKey_Prefix k) (APIKey_SecretHash k) (APIKey_Salt k)
    (APIKey_CreatedAt k) t (u64 (APIKey_UsageCount k + 1)) (APIKey_RevokedAt k)
    (APIKey_Owner k) (APIKey_Team k) (APIKey_ExpiresAt k) (APIKey_CreatedBy k)
    (APIKey_Roles k) (APIKey_AdminScopes k) (APIKey_AllowModels k) (APIKey_DenyModels k) (APIKey_Limits k).

(** ** The service *)

Section service.
Context {S : Type} `{!KeyStore S}.
(** The i-th read of crypto/rand, of the given length. *)
Context (rand : nat → nat → result bytes).

(** [Service_reads] counts the entropy reads made so far. *)
Record Service := mkService { Service_store : S; Service_reads : nat }.
Definition NewService (st : S) : Service := mkService st 0.

Definition with_store (st : S) (s : Service) : Service := mkService st (Service_reads s).

Definition randBytes (n : nat) (s : Service) : Service * result bytes :=
  (mkService (Service_store s) (Datatypes.S (Service_reads s)),
   match rand (Service_reads s) n with
   | Err e => Err (EWrap "auth: read entropy" e)
   | Ok b => Ok b
   end).

Definition mintSecret (s : Service) : Service * result (string * bytes * bytes) :=
  match randBytes secretBytes s with
  | (s, Err e) => (s, Err e)
  | (s, Ok secretBuf) =>
      match randBytes saltBytes s with
      | (s, Err e) => (s, Err e)
      | (s, Ok salt) =>
          let secret := hex_EncodeToString secretBuf in
          (s, Ok (secret, salt, hashSecret salt secret))
      end
  end.

Definition mint (s : Service) : Service * result (string * string * bytes * bytes) :=
  match randBytes keyIDBytes s with
  | (s, Err e) => (s, Err e)
  | (s, Ok idBytes) =>
      match mintSecret s with
      | (s, Err e) => (s, Err e)
      | (s, Ok (secret, salt, hash)) =>
          (s, Ok (hex_EncodeToString idBytes, secret, salt, hash))
      end
  end.

Definition CreateWithPermissions (now : Time) (name : string) (perms : Permissions) (s : Service)
    : Service * result (string * APIKey) :=
  match mint s with
  | (s, Err e) => (s, Err e)
  | (s, Ok (id, secret, salt, hash)) =>
      let rec := mkAPIKey id name Prefix hash salt (UTC now) 0 0 None
        (Perm_Owner perms) (Perm_Team perms)
        (match Perm_ExpiresAt perms with Some e => Some (UTC e) | None => None end)
        (Perm_CreatedBy perms) (Perm_Roles perms) (Perm_AdminScopes perms)
        (Perm_AllowModels perms) (Perm_DenyModels perms) None in
      match PutAPIKey rec (Service_store s) with
      | (st, Some e) => (with_store st s, Err (EWrap "auth: persist key" e))
      | (st, None) => (with_store st s, Ok (formatToken id secret, rec))
      end
  end.

Definition Create (now : Time) (name : string) (s : Service) : Service * result (string * APIKey) :=
  CreateWithPermissions now name Permissions_zero s.

Definition List (s : Service) : list APIKey := ListAPIKeys (Service_store s).
Definition Get (id : string) (s : Service) : result APIKey := GetAPIKey id (Service_store s).

Definition Revoke (now : Time) (id : string) (s : Service) : Service * option error :=
  match GetAPIKey id (Service_store s) with
  | Err e => (s, Some e)
  | Ok rec =>
      if Revoked rec then (s, None)
      else match PutAPIKey (set_revoked (UTC now) rec) (Service_store s) with
           | (st, Some e) => (with_store st s, Some (EWrap "auth: persist revoke" e))
           | (st, None) => (with_store st s, None)
           end
  end.

(** The shared shape of [SetPermissions] and [SetLimits]: Get, change, Put. *)
Definition update (what : string) (f : APIKey → APIKey) (id : string) (s : Service)
    : Service * result APIKey :=
  match GetAPIKey id (Service_store s) with
  | Err e => (s, Err e)
  | Ok rec =>
      match PutAPIKey (f rec) (Service_store s) with
      | (st, Some e) => (with_store st s, Err (EWrap what e))
      | (st, None) => (with_store st s, Ok (f rec))
      end
  end.

Definition SetPermissions (id : string) (perms : Permissions) : Service → Service * result APIKey :=
  update "auth: persist permissions" (set_lists perms) id.
Definition SetLimits (id : string) (limits : option Limits) : Service → Service * result APIKey :=
  update "auth: persist limits" (set_limits limits) id.

Definition Rotate (id : string) (s : Service) : Service * result string :=
  match GetAPIKey id (Service_store s) with
  | Err e => (s, Err e)
  | Ok rec =>
      if Revoked rec
      then (s, Err (EWrap "auth: cannot rotate revoked key" ErrUnauthenticated))
      else match mintSecret s with
           | (s, Err e) => (s, Err e)
           | (s, Ok (secret, salt, hash)) =>
               match PutAPIKey (set_secret hash salt rec) (Service_store s) with
               | (st, Some e) => (with_store st s, Err (EWrap "auth: persist rotate" e))
               | (st, None) => (with_store st s, Ok (formatToken id secret))
               end
           end
  end.

Definition Authenticate (now now' : Time) (token : string) (s : Service) : Service * result APIKey :=
  match parseToken token with
  | None => (s, Err ErrUnauthenticated)
  | Some (id, secret) =>
      match GetAPIKey id (Service_store s) with
      | Err e => (s, Err (if errors_Is e ErrNotFound then ErrUnauthenticated
                          else EWrap "auth: lookup key" e))
      | Ok rec =>
          let want := APIKey_SecretHash rec in
          let got := hashSecret (APIKey_Salt rec) secret in
          if negb (ConstantTimeCompare want got =? 1) then (s, Err ErrUnauthenticated)
          else if Revoked rec then (s, Err ErrUnauthenticated)
          else if Expired rec now then (s, Err ErrUnauthenticated)
          else
            let rec := set_used (UTC now') rec in
            match PutAPIKey rec (Service_store s) with
            | (st, Some e) => (with_store st s, Err (EWrap "auth: persist usage" e))
            | (st, None) => (with_store st s, Ok rec)
            end
      end
  end.
End service.

(** ** Strings and tokens *)

Lemma parse_format id secret :
  no_sep "_" id → id ≠ "" → secret ≠ "" → parseToken (formatToken id secret) = Some (id, secret).
Proof.
  intros Hid Hn Hs. unfold parseToken.
  change (formatToken id secret) with (Prefix +:+ String "_" (id +:+ String "_" secret)).
  cbn [SplitN]. rewrite cut_app by (simpl; naive_solver). rewrite cut_app by done.
  rewrite String.eqb_refl. by rewrite (proj2 (String.eqb_neq _ _) Hn), (proj2 (String.eqb_neq _ _) Hs).
Qed.

Lemma format_parse tok id secret :
  parseToken tok = Some (id, secret) →
  tok = formatToken id secret ∧ no_sep "_" id ∧ id ≠ "" ∧ secret ≠ "".
Proof.
  unfold parseToken, SplitN. destruct (cut "_" tok) as [[p0 r]|] eqn:E; [|done].
  destruct (cut "_" r) as [[p1 p2]|] eqn:E'; [|done].
  destruct (_ || _) eqn:Eb; [done|]. intros [= <- <-]. zbool.
  apply cut_spec in E as [-> _], E' as [-> ?]. subst. done.
Qed.

Lemma ctc_fold v (l : list (Z * Z)) :
  fold_left (λ v p, Z.lor v (Z.lxor p.1 p.2)) l v = 0 ↔ v = 0 ∧ Forall (λ p, p.1 = p.2) l.
Proof.
  revert v. induction l as [|[a b] l IH]; intros v; simpl.
  - rewrite Forall_nil. naive_solver.
  - rewrite IH, Z.lor_eq_0_iff, Z.lxor_eq_0_iff, Forall_cons. simpl. naive_solver.
Qed.

Lemma zip_diag (x y : bytes) :
  length x = length y → Forall (λ p, p.1 = p.2) (zip x y) ↔ x = y.
Proof.
  revert y. induction x as [|a x IH]; intros [|b y] Hl; simplify_eq/=.
  - by rewrite Forall_nil.
  - rewrite Forall_cons, IH by done. simpl. split; [intros [-> ->]; done|by intros [= -> ->]].
Qed.

Lemma ConstantTimeCompare_spec x y : ConstantTimeCompare x y = 1 ↔ x = y.
Proof.
  unfold ConstantTimeCompare. destruct (Nat.eqb_spec (length x) (length y)) as [E|E]; simpl.
  - rewrite <- zip_diag by done.
    match goal with |- context [?v =? 0] => destruct (Z.eqb_spec v 0) as [Hv|Hv] end;
      rewrite ctc_fold in Hv; naive_solver.
  - split; [done|]. by intros ->.
Qed.

(** ** What the operations do to the key map *)

(** [tok] is a good credential for [k] at time [now]. *)
Definition credential (m : keyset) (now : Time) (tok : string) (k : APIKey) : Prop :=
  ∃ id secret, parseToken tok = Some (id, secret) ∧ m !! id = Some k ∧
    hashSecret (APIKey_Salt k) secret = APIKey_SecretHash k ∧
    Revoked k = false ∧ Expired k now = false.

(** A later version of a key: identity, provenance, labels and expiry never
    change, and a revocation is never undone or re-dated. *)
Record evolves (k0 k : APIKey) : Prop := {
  ev_id : APIKey_ID k = APIKey_ID k0;
  ev_name : APIKey_Name k = APIKey_Name k0;
  ev_created : APIKey_CreatedAt k = APIKey_CreatedAt k0;
  ev_createdby : APIKey_CreatedBy k = APIKey_CreatedBy k0;
  ev_owner : APIKey_Owner k = APIKey_Owner k0;
  ev_team : APIKey_Team k = APIKey_Team k0;
  ev_expires : APIKey_ExpiresAt k = APIKey_ExpiresAt k0;
  ev_revoked : ∀ t, APIKey_RevokedAt k0 = Some t →
    APIKey_RevokedAt k = Some t ∧ APIKey_SecretHash k = APIKey_SecretHash k0 ∧
    APIKey_Salt k = APIKey_Salt k0 }.

#[export] Instance evolves_refl : Reflexive evolves.
Proof. by intros k; split. Qed.
#[export] Instance evolves_trans : Transitive evolves.
Proof.
  intros a b c [] []. split; try congruence. intros t Ht.
  destruct (ev_revoked0 t Ht) as (H1 & H2 & H3). destruct (ev_revoked1 t H1) as (? & ? & ?).
  split_and!; congruence.
Qed.

Lemma Revoked_false k : Revoked k = false → APIKey_RevokedAt k = None.
Proof. unfold Revoked. by destruct (APIKey_RevokedAt k). Qed.

Section lifecycle.
Context {S : Type} `{!KeyStore S} (rand : nat → nat → result bytes).
Notation service := (@Service S).
Notation keys s := (keys_of (Service_store s)).

(** *** Minting *)

Lemma mintSecret_spec (s s' : service) r :
  mintSecret rand s = (s', r) →
  Service_store s' = Service_store s ∧ (Service_reads s ≤ Service_reads s')%nat ∧
  ∀ secret salt hash, r = Ok (secret, salt, hash) →
    hash = hashSecret salt secret ∧ ∃ i sb, rand i secretBytes = Ok sb ∧ secret = hex_EncodeToString sb.
Proof.
  unfold mintSecret, randBytes. destruct (rand (Service_reads s) secretBytes) eqn:E1; simpl.
  - destruct (rand _ saltBytes) eqn:E2; intros [= <- <-]; simpl;
      (split_and!; [done|lia|]); intros ??? [= <- <- <-]; eauto.
  - intros [= <- <-]; simpl. split_and!; [done|lia|done].
Qed.

Lemma mint_spec (s s' : service) r :
  mint rand s = (s', r) →
  Service_store s' = Service_store s ∧ (Service_reads s ≤ Service_reads s')%nat ∧
  ∀ id secret salt hash, r = Ok (id, secret, salt, hash) →
    hash = hashSecret salt secret ∧
    (∃ i sb, rand i secretBytes = Ok sb ∧ secret = hex_EncodeToString sb) ∧
    ∃ i b, (Service_reads s ≤ i)%nat ∧ rand i keyIDBytes = Ok b ∧ id = hex_EncodeToString b.
Proof.
  unfold mint. destruct (randBytes rand keyIDBytes s) as [s1 r1] eqn:E1.
  unfold randBytes in E1. destruct (rand (Service_reads s) keyIDBytes) as [b|e] eqn:Eb;
    injection E1 as <- <-; simpl.
  - destruct (mintSecret rand _) as [s2 r2] eqn:E2. destruct (mintSecret_spec _ _ _ E2) as (H1 & H2 & H3).
    simpl in *. destruct r2 as [[[secret salt] hash]|e]; intros [= <- <-];
      (split_and!; [done|lia|]); intros ???? [= <- <- <- <-].
    destruct (H3 _ _ _ eq_refl) as [? ?]. split_and!; [done..|]. exists (Service_reads s), b. done.
  - intros [= <- <-]; simpl. split_and!; [done|lia|done].
Qed.

(** *** Runs *)

Inductive aop :=
| OCreate (now : Time) (name : string) (perms : Permissions)
| ORevoke (now : Time) (id : string)
| OSetPermissions (id : string) (perms : Permissions)
| OSetLimits (id : string) (l : option Limits)
| ORotate (id : string)
| OAuthenticate (now now' : Time) (tok : string).

Definition astep (o : aop) (s : service) : service :=
  match o with
  | OCreate now name perms => (CreateWithPermissions rand now name perms s).1
  | ORevoke now id => (Revoke now id s).1
  | OSetPermissions id perms => (SetPermissions id perms s).1
  | OSetLimits id l => (SetLimits id l s).1
  | ORotate id => (Rotate rand id s).1
  | OAuthenticate now now' tok => (Authenticate now now' tok s).1
  end.
Fixpoint aexec (ops : list aop) (s : service) : service :=
  match ops with [] => s | o :: ops => aexec ops (astep o s) end.

(** One operation rewrites at most one key: a later version of a stored key,
    or a newly minted one. *)
Inductive key_step (s : service) (m' : keyset) : Prop :=
| KSame : m' = keys s → key_step s m'
| KEvolve k0 k : keys s !! APIKey_ID k0 = Some k0 → evolves k0 k →
    m' = <[APIKey_ID k := k]> (keys s) → key_step s m'
| KMint i b k : (Service_reads s ≤ i)%nat → rand i keyIDBytes = Ok b →
    APIKey_ID k = hex_EncodeToString b → m' = <[APIKey_ID k := k]> (keys s) → key_step s m'.

Lemma put_evolve (s : service) k0 k :
  keys s !! APIKey_ID k0 = Some k0 → evolves k0 k →
  key_step s (keys_of (PutAPIKey k (Service_store s)).1).
Proof.
  intros H0 Hev. pose proof (PutAPIKey_spec k (Service_store s)) as Hp.
  destruct (PutAPIKey k (Service_store s)) as [st e]; simpl.
  destruct Hp as [->|[_ ->]]; [by eapply KEvolve|by apply KSame].
Qed.

Lemma get_keyed (s : service) id rec :
  keyed (keys s) → GetAPIKey id (Service_store s) = Ok rec →
  keys s !! APIKey_ID rec = Some rec ∧ APIKey_ID rec = id.
Proof.
  intros Hk. rewrite GetAPIKey_spec. destruct (keys s !! id) as [k|] eqn:E; [|done].
  intros [= ->]. pose proof (Hk _ _ E). by subst.
Qed.

Lemma reads_mono o s : (Service_reads s ≤ Service_reads (astep o s))%nat.
Proof.
  destruct o; simpl.
  - unfold CreateWithPermissions. destruct (mint rand s) as [s1 r] eqn:E.
    destruct (mint_spec _ _ _ E) as (_ & ? & _).
    by destruct r as [[[[? ?] ?] ?]|]; [destruct (PutAPIKey _ _) as [? []]|].
  - unfold Revoke. repeat case_match; done.
  - unfold SetPermissions, update. repeat case_match; done.
  - unfold SetLimits, update. repeat case_match; done.
  - unfold Rotate. destruct (GetAPIKey _ _); [|done]. destruct (Revoked _); [done|].
    destruct (mintSecret rand s) as [s1 r] eqn:E. destruct (mintSecret_spec _ _ _ E) as (_ & ? & _).
    by destruct r as [[[? ?] ?]|]; [destruct (PutAPIKey _ _) as [? []]|].
  - unfold Authenticate. repeat case_match; done.
Qed.

Lemma put_fst {B C} k (st : S) (f : S → B) (g : S → error → C) (h : S → C) :
  (match PutAPIKey k st with (st, Some e) => (f st, g st e) | (st, None) => (f st, h st) end).1 =
  f (PutAPIKey k st).1.
Proof. by destruct (PutAPIKey k st) as [st' []]. Qed.

Lemma astep_keys o s : keyed (keys s) → key_step s (keys (astep o s)).
Proof.
  intros Hk. destruct o as [now name perms|now id|id perms|id l|id|now now' tok]; simpl.
  - unfold CreateWithPermissions. destruct (mint rand s) as [s1 r] eqn:E.
    destruct (mint_spec _ _ _ E) as (Hst & Hle & Hr).
    destruct r as [[[[id secret] salt] hash]|]; [|apply KSame; simpl; by rewrite Hst].
    destruct (Hr _ _ _ _ eq_refl) as (_ & _ & i & b & Hi & Hb & ->).
    rewrite put_fst; simpl. rewrite Hst. set (k := mkAPIKey _ _ _ _ _ _ _ _ _ _ _ _ _ _ _ _ _ _).
    pose proof (PutAPIKey_spec k (Service_store s)) as Hp.
    destruct (PutAPIKey k (Service_store s)) as [st e]; simpl.
    destruct Hp as [->|[_ ->]]; [by apply (KMint s _ i b k)|by apply KSame].
  - unfold Revoke. destruct (GetAPIKey _ _) as [rec|] eqn:E; [|by apply KSame].
    destruct (get_keyed _ _ _ Hk E) as [Hrec _].
    destruct (Revoked rec) eqn:Er; [by apply KSame|]. apply Revoked_false in Er.
    rewrite put_fst. simpl. eapply put_evolve; [exact Hrec|]. split; simpl; try done. congruence.
  - unfold SetPermissions, update. destruct (GetAPIKey _ _) as [rec|] eqn:E; [|by apply KSame].
    destruct (get_keyed _ _ _ Hk E) as [Hrec _]. rewrite put_fst; simpl.
    eapply put_evolve; [exact Hrec|]. by split.
  - unfold SetLimits, update. destruct (GetAPIKey _ _) as [rec|] eqn:E; [|by apply KSame].
    destruct (get_keyed _ _ _ Hk E) as [Hrec _]. rewrite put_fst; simpl.
    eapply put_evolve; [exact Hrec|]. by split.
  - unfold Rotate. destruct (GetAPIKey _ _) as [rec|] eqn:E; [|by apply KSame].
    destruct (get_keyed _ _ _ Hk E) as [Hrec _].
    destruct (Revoked rec) eqn:Er; [by apply KSame|]. apply Revoked_false in Er.
    destruct (mintSecret rand s) as [s1 r] eqn:Em. destruct (mintSecret_spec _ _ _ Em) as (Hst & _ & _).
    destruct r as [[[secret salt] hash]|]; [|apply KSame; simpl; by rewrite Hst].
    rewrite put_fst; simpl. rewrite Hst. eapply put_evolve; [exact Hrec|].
    split; simpl; try done. congruence.
  - unfold Authenticate. destruct (parseToken tok) as [[id secret]|]; [|by apply KSame].
    destruct (GetAPIKey _ _) as [rec|] eqn:E; [|by apply KSame].
    destruct (get_keyed _ _ _ Hk E) as [Hrec _].
    repeat (match goal with |- context [if ?b then _ else _] => destruct b end; [by apply KSame|]).
    rewrite put_fst; simpl.
    eapply put_evolve; [exact Hrec|]. by split.
Qed.

Lemma key_step_keyed s m' : keyed (keys s) → key_step s m' → keyed m'.
Proof. intros Hk []; subst; auto with agpu. Qed.

(** No later mint collides with [id]. *)
Definition never_minted (id : string) (s : service) : Prop :=
  ∀ i b, (Service_reads s ≤ i)%nat → rand i keyIDBytes = Ok b → hex_EncodeToString b ≠ id.

Lemma aexec_evolves ops s id k :
  keyed (keys s) → never_minted id s → keys s !! id = Some k →
  keyed (keys (aexec ops s)) ∧ ∃ k', keys (aexec ops s) !! id = Some k' ∧ evolves k k'.
Proof.
  revert s k. induction ops as [|o ops IH]; intros s k Hk Hn Hid; simpl.
  { split; [done|]. exists k. by split. }
  pose proof (astep_keys o s Hk) as Hst. pose proof (key_step_keyed _ _ Hk Hst) as Hk'.
  assert (∃ k1, keys (astep o s) !! id = Some k1 ∧ evolves k k1) as (k1 & Hk1 & Hev1).
  { destruct Hst as [->|k0 k1 H0 Hev ->|i b k1 Hi Hb Hkid ->].
    - by exists k.
    - destruct (decide (APIKey_ID k1 = id)) as [<-|Hne].
      + exists k1. rewrite lookup_insert_eq. split; [done|].
        rewrite (ev_id _ _ Hev) in Hid. by simplify_eq.
      + exists k. by rewrite lookup_insert_ne.
    - exists k. split; [|done]. rewrite lookup_insert_ne; [done|]. rewrite Hkid. by eapply Hn. }
  destruct (IH (astep o s) k1 Hk') as (? & k' & ? & ?); [|done|].
  { intros i b Hi. apply Hn. pose proof (reads_mono o s). lia. }
  split; [done|]. exists k'. split; [done|]. by etrans.
Qed.
End lifecycle.

(** ** Which tokens authenticate *)

Section authenticate.
Context {S : Type} `{!KeyStore S} (rand : nat → nat → result bytes).
Notation service := (@Service S).
Notation keys s := (keys_of (Service_store s)).

(** A good credential is accepted (unless the usage write fails), anything else
    is refused with the one sentinel and changes nothing. *)
Lemma authenticate_good now now' tok (s : service) k :
  credential (keys s) now tok k →
  let '(s', r) := Authenticate now now' tok s in
  (r = Ok (set_used now' k) ∧ keys s' = <[APIKey_ID k := set_used now' k]> (keys s)) ∨
  ∃ e, r = Err (EWrap "auth: persist usage" e) ∧
    (keys s' = <[APIKey_ID k := set_used now' k]> (keys s) ∨ keys s' = keys s).
Proof.
  intros (id & secret & Hp & Hid & Hh & Hr & He). unfold Authenticate. rewrite Hp, GetAPIKey_spec, Hid.
  rewrite Hh. rewrite (proj2 (ConstantTimeCompare_spec _ _) eq_refl). simpl. rewrite Hr, He.
  unfold UTC. pose proof (PutAPIKey_spec (set_used now' k) (Service_store s)) as Hput.
  destruct (PutAPIKey _ _) as [st [e|]]; simpl; [right; exists e; naive_solver|left].
  split; [done|]. by destruct Hput as [?|[? _]].
Qed.

Lemma authenticate_bad now now' tok (s : service) :
  (∀ k, ¬ credential (keys s) now tok k) →
  Authenticate now now' tok s = (s, Err ErrUnauthenticated).
Proof.
  intros Hno. unfold Authenticate.
  destruct (parseToken tok) as [[id secret]|] eqn:Hp; [|done]. rewrite GetAPIKey_spec.
  destruct (keys s !! id) as [k|] eqn:Hid; [|done].
  destruct (ConstantTimeCompare _ _ =? 1) eqn:Ec; simpl; [|done].
  apply Z.eqb_eq, ConstantTimeCompare_spec in Ec.
  destruct (Revoked k) eqn:Er; [done|]. destruct (Expired k now) eqn:Ee; [done|].
  exfalso. apply (Hno k). by exists id, secret.
Qed.

(** Minted secrets and ids are well formed token fields. *)
Lemma minted_token_parses i j b sb :
  (∀ i n b, rand i n = Ok b → length b = n) →
  rand i keyIDBytes = Ok b → rand j secretBytes = Ok sb →
  parseToken (formatToken (hex_EncodeToString b) (hex_EncodeToString sb)) =
  Some (hex_EncodeToString b, hex_EncodeToString sb).
Proof.
  intros Hlen Hb Hsb. apply Hlen in Hb, Hsb.
  apply parse_format; [apply hex_no_sep|apply hex_nonempty..]; intros ->; discriminate.
Qed.

Lemma create_spec now name perms (s s1 : service) tok rec :
  CreateWithPermissions rand now name perms s = (s1, Ok (tok, rec)) →
  (∀ i n b, rand i n = Ok b → length b = n) →
  keys s1 = <[APIKey_ID rec := rec]> (keys s) ∧ Revoked rec = false ∧
  APIKey_ExpiresAt rec = Perm_ExpiresAt perms ∧
  ∃ secret, parseToken tok = Some (APIKey_ID rec, secret) ∧
    hashSecret (APIKey_Salt rec) secret = APIKey_SecretHash rec.
Proof.
  intros Hc Hlen. unfold CreateWithPermissions in Hc.
  destruct (mint rand s) as [s0 r] eqn:Em. destruct (mint_spec _ _ _ _ Em) as (Hst & _ & Hr).
  destruct r as [[[[id secret] salt] hash]|]; [|done].
  destruct (Hr _ _ _ _ eq_refl) as (-> & (i & sb & Hsb & ->) & j & b & _ & Hb & ->).
  pose proof (PutAPIKey_spec (mkAPIKey (hex_EncodeToString b) name Prefix
    (hashSecret salt (hex_EncodeToString sb)) salt (UTC now) 0 0 None
    (Perm_Owner perms) (Perm_Team perms)
    (match Perm_ExpiresAt perms with Some e => Some (UTC e) | None => None end)
    (Perm_CreatedBy perms) (Perm_Roles perms) (Perm_AdminScopes perms)
    (Perm_AllowModels perms) (Perm_DenyModels perms) None) (Service_store s0)) as Hp.
  destruct (PutAPIKey _ _) as [st [e|]]; [done|]. injection Hc as <- <- <-.
  destruct Hp as [Hp|[? _]]; [|done]. rewrite Hst in Hp. simpl in *.
  split_and!; [done..|by destruct (Perm_ExpiresAt perms)|].
  exists (hex_EncodeToString sb). split; [|done]. by eapply minted_token_parses.
Qed.

Lemma rotate_spec id (s s1 : service) tok :
  Rotate rand id s = (s1, Ok tok) → keyed (keys s) →
  ∃ k salt secret, keys s !! id = Some k ∧ APIKey_ID k = id ∧ Revoked k = false ∧
    tok = formatToken id secret ∧
    keys s1 = <[id := set_secret (hashSecret salt secret) salt k]> (keys s) ∧
    ∃ i sb, rand i secretBytes = Ok sb ∧ secret = hex_EncodeToString sb.
Proof.
  unfold Rotate. rewrite GetAPIKey_spec. intros Hr Hk.
  destruct (keys s !! id) as [k|] eqn:Hid; [|done]. destruct (Revoked k) eqn:Erv; [done|].
  destruct (mintSecret rand s) as [s0 r] eqn:Em. destruct (mintSecret_spec _ _ _ _ Em) as (Hst & _ & Hm).
  destruct r as [[[secret salt] hash]|]; [|done].
  destruct (Hm _ _ _ eq_refl) as [-> Hsb]. rewrite Hst in Hr.
  pose proof (PutAPIKey_spec (set_secret (hashSecret salt secret) salt k) (Service_store s)) as Hp.
  destruct (PutAPIKey _ _) as [st [e|]]; [done|]. injection Hr as <- <-.
  destruct Hp as [Hp|[? _]]; [|done]. simpl in *. rewrite (Hk _ _ Hid) in Hp.
  exists k, salt, secret. split_and!; try done. by apply Hk.
Qed.
End authenticate.

(** ** Properties *)

(** C5: The outcome of Authenticate, on any store. The token authenticates exactly
    when it parses to the id of a stored key whose salted hash matches the
    secret and which is neither revoked nor expired: the call then returns that
    key with its usage count and last-use time updated and writes it back, or
    reports the failed write.  In every other case, whether the token is
    malformed, the id unknown, the secret wrong, the key revoked or expired, the
    result is the same ErrUnauthenticated and nothing changes. *)
Theorem authenticate_spec {S} `{!KeyStore S} now now' tok (s : @Service S) :
  let m := keys_of (Service_store s) in
  let '(s', r) := Authenticate now now' tok s in
  (∀ k, credential m now tok k →
     (r = Ok (set_used now' k) ∧
      keys_of (Service_store s') = <[APIKey_ID k := set_used now' k]> m) ∨
     ∃ e, r = Err (EWrap "auth: persist usage" e)) ∧
  ((∀ k, ¬ credential m now tok k) → r = Err ErrUnauthenticated ∧ s' = s).
Proof.
  cbv zeta. destruct (Authenticate now now' tok s) as [s' r] eqn:E. split.
  - intros k Hk. pose proof (authenticate_good now now' tok s k Hk) as H. rewrite E in H.
    destruct H as [?|(e & ? & _)]; [by left|right; by exists e].
  - intros Hno. pose proof (authenticate_bad now now' tok s Hno) as H. rewrite E in H.
    by injection H as -> ->.
Qed.

(** A created key's one-time token authenticates. After a successful create
    the record is stored under its id, and presenting the returned token while
    the key has not expired yields that very record with one use counted (or the
    error of the usage write). *)
Theorem create_then_authenticate {S} `{!KeyStore S} rand now name perms (s s1 : @Service S) tok rec
    now1 now2 :
  (∀ i n b, rand i n = Ok b → length b = n) →
  CreateWithPermissions rand now name perms s = (s1, Ok (tok, rec)) →
  (∀ t, Perm_ExpiresAt perms = Some t → now1 <= t) →
  keys_of (Service_store s1) !! APIKey_ID rec = Some rec ∧
  ((Authenticate now1 now2 tok s1).2 = Ok (set_used now2 rec) ∨
   ∃ e, (Authenticate now1 now2 tok s1).2 = Err (EWrap "auth: persist usage" e)).
Proof.
  intros Hlen Hc Hexp. destruct (create_spec rand _ _ _ _ _ _ _ Hc Hlen) as (Hm & Hr & He & secret & Hp & Hh).
  assert (keys_of (Service_store s1) !! APIKey_ID rec = Some rec) as Hrec.
  { rewrite Hm. apply lookup_insert_eq. }
  split; [done|]. pose proof (authenticate_good now1 now2 tok s1 rec) as Ha.
  destruct (Authenticate now1 now2 tok s1) as [s' r]. destruct Ha as [[-> _]|(e & -> & _)].
  - exists (APIKey_ID rec), secret. split_and!; [done..|]. unfold Expired, After. rewrite He.
    destruct (Perm_ExpiresAt perms) as [t|]; [|done]. apply Z.ltb_ge. by apply Hexp.
  - by left.
  - right. by exists e.
Qed.

(** A store and an entropy source for the witnesses. *)
Definition demo_range (m : keyset) : list APIKey := (map_to_list m).*2.
Lemma demo_range_ok : range_spec demo_range.
Proof. by intros m. Defined.
#[local] Instance demo_store : KeyStore Memory := Memory_KeyStore demo_range (Hrange := demo_range_ok).
Definition demo_rand (i n : nat) : result bytes := Ok (repeat (if (i =? 0)%nat then 0 else 1) n).
Lemma demo_rand_length i n b : demo_rand i n = Ok b → length b = n.
Proof. unfold demo_rand. intros [= <-]. apply repeat_length. Defined.
Definition demo_perms : Permissions := mkPermissions ["user"] [] [] [] "" "" (Some 100) "".

Lemma create_then_authenticate_witness :
  ∃ s1 tok rec,
    CreateWithPermissions demo_rand 5 "ci" demo_perms (NewService NewMemory) = (s1, Ok (tok, rec)) ∧
    keys_of (Service_store s1) !! APIKey_ID rec = Some rec.
Proof.
  destruct (CreateWithPermissions demo_rand 5 "ci" demo_perms (NewService NewMemory))
    as [s1 [[tok rec]|e]] eqn:E.
  - exists s1, tok, rec. split; [done|].
    apply (create_then_authenticate demo_rand 5 "ci" demo_perms (NewService NewMemory) s1 tok rec
      99 99 demo_rand_length E).
    intros t [= <-]. lia.
  - exfalso. apply (f_equal (λ x, is_Ok x.2)) in E. change (true = false) in E. discriminate E.
Defined.

(** A key's identity is stable and its revocation permanent. Over any sequence
    of create, revoke, permission, limit, rotate and authenticate calls whose
    mints do not collide with its id, a stored key stays stored with its id,
    name, creation time, creator, labels and expiry, and once revoked keeps its
    revocation time, hash and salt; and no token for it authenticates then. *)
Theorem key_lifecycle {S} `{!KeyStore S} rand (s : @Service S) ops id k :
  keyed (keys_of (Service_store s)) → never_minted rand id s →
  keys_of (Service_store s) !! id = Some k →
  let s' := aexec rand ops s in
  (∃ k', keys_of (Service_store s') !! id = Some k' ∧ evolves k k') ∧
  (Revoked k = true → ∀ now now' secret,
     parseToken (formatToken id secret) = Some (id, secret) →
     (Authenticate now now' (formatToken id secret) s').2 = Err ErrUnauthenticated).
Proof.
  intros Hk Hn Hid s'. destruct (aexec_evolves rand ops s id k Hk Hn Hid) as (_ & k' & Hk' & Hev).
  split; [by exists k'|]. intros Hr now now' secret Hp. rewrite authenticate_bad; [done|].
  intros k'' (id' & secret' & Hp' & Hm & _ & Hr' & _). rewrite Hp in Hp'. injection Hp' as <- <-.
  unfold s' in Hm. rewrite Hk' in Hm. injection Hm as <-. unfold Revoked in Hr, Hr'.
  destruct (APIKey_RevokedAt k) as [t|] eqn:E; [|done].
  destruct (ev_revoked _ _ Hev t E) as (E' & _). by rewrite E' in Hr'.
Qed.

Definition demo_id : string := "0000000000000000".
Definition demo_key : APIKey :=
  mkAPIKey demo_id "ci" Prefix [1] [2] 5 0 0 (Some 6) "" "" (Some 100) "" ["user"] [] [] [] None.
Definition demo_ops : list aop :=
  [ORevoke 7 demo_id; ORotate demo_id; OSetPermissions demo_id Permissions_zero].
Definition demo_state : @Service Memory := mkService (mkMemory {[ demo_id := demo_key ]}) 3.

Lemma key_lifecycle_witness :
  (Authenticate 9 9 (formatToken demo_id "s") (aexec demo_rand demo_ops demo_state)).2 =
  Err ErrUnauthenticated.
Proof.
  refine (proj2 (key_lifecycle demo_rand demo_state demo_ops demo_id demo_key _ _ _) _ 9 9 "s" _).
  - intros id k. simpl. by intros [<- <-]%lookup_singleton_Some.
  - intros i b Hi Hb. unfold demo_rand in Hb. injection Hb as <-.
    destruct i as [|i]; simpl in Hi; [lia|]. discriminate.
  - reflexivity.
  - reflexivity.
  - reflexivity.
Defined.

(** Rotation replaces the credential. After a successful rotate the stored key
    is the old one with only hash and salt replaced, the returned token is a
    good credential for it, and another secret authenticates for that id only
    if its salted hash under the new salt is the stored one. *)
Theorem rotate_replaces_secret {S} `{!KeyStore S} rand id (s s1 : @Service S) tok :
  (∀ i n b, rand i n = Ok b → length b = n) →
  keyed (keys_of (Service_store s)) → Rotate rand id s = (s1, Ok tok) →
  no_sep "_" id → id ≠ "" →
  ∃ k salt secret,
    keys_of (Service_store s) !! id = Some k ∧
    (let k1 := set_secret (hashSecret salt secret) salt k in
     tok = formatToken id secret ∧
     keys_of (Service_store s1) = <[id := k1]> (keys_of (Service_store s)) ∧
     (∀ now, Expired k now = false → credential (keys_of (Service_store s1)) now tok k1) ∧
     (∀ now old k', credential (keys_of (Service_store s1)) now (formatToken id old) k' → old ≠ "" →
        hashSecret salt old = hashSecret salt secret)).
Proof.
  intros Hlen Hk Hrot Hns Hne.
  destruct (rotate_spec rand id s s1 tok Hrot Hk) as (k & salt & secret & Hid & Hki & Hr & -> & Hm & i & sb & Hsb & ->).
  exists k, salt, (hex_EncodeToString sb). split; [done|]. cbv zeta. split_and!; [done|done| |].
  - intros now He. exists id, (hex_EncodeToString sb). rewrite Hm, lookup_insert_eq.
    split_and!; try done. apply parse_format; [done|done|].
    apply hex_nonempty. intros ->. by apply Hlen in Hsb.
  - intros now old k' (id' & old' & Hp & Hk' & Hh & _) Ho.
    rewrite parse_format in Hp by done. injection Hp as <- <-.
    rewrite Hm, lookup_insert_eq in Hk'. injection Hk' as <-. done.
Qed.

Definition demo_live : @Service Memory :=
  mkService (mkMemory {[ demo_id := mkAPIKey demo_id "ci" Prefix [1] [2] 5 0 0 None "" "" None "" [] [] [] [] None ]}) 0.

Lemma rotate_replaces_secret_witness :
  ∃ s1 tok k salt secret, Rotate demo_rand demo_id demo_live = (s1, Ok tok) ∧
    keys_of (Service_store demo_live) !! demo_id = Some k ∧
    keys_of (Service_store s1) =
      <[demo_id := set_secret (hashSecret salt secret) salt k]> (keys_of (Service_store demo_live)).
Proof.
  destruct (Rotate demo_rand demo_id demo_live) as [s1 [tok|e]] eqn:E.
  - destruct (rotate_replaces_secret demo_rand demo_id demo_live s1 tok demo_rand_length)
      as (k & salt & secret & H1 & _ & H2 & _); [|done|by repeat split|done|].
    + intros id k. simpl. by intros [<- <-]%lookup_singleton_Some.
    + exists s1, tok, k, salt, secret. done.
  - exfalso. apply (f_equal (λ x, is_Ok x.2)) in E. change (true = false) in E. discriminate E.
Defined.

(** Permission and limit updates change only their own fields. On an unknown
    id both return ErrNotFound and change nothing; otherwise a successful update
    stores the key with exactly the role, scope and model lists (respectively
    the limits) replaced, everything else, labels and expiry included, kept. *)
Theorem updates_frame {S} `{!KeyStore S} id perms lim (s : @Service S) :
  let m := keys_of (Service_store s) in
  keyed m →
  match m !! id with
  | None => SetPermissions id perms s = (s, Err ErrNotFound) ∧
            SetLimits id lim s = (s, Err ErrNotFound) ∧
            ∀ now, Revoke now id s = (s, Some ErrNotFound)
  | Some k =>
      (∀ s' k', SetPermissions id perms s = (s', Ok k') →
         k' = set_lists perms k ∧ keys_of (Service_store s') = <[id := k']> m) ∧
      (∀ s' k', SetLimits id lim s = (s', Ok k') →
         k' = set_limits lim k ∧ keys_of (Service_store s') = <[id := k']> m)
  end.
Proof.
  intros m Hk. unfold SetPermissions, SetLimits, Revoke, update. rewrite GetAPIKey_spec. fold m.
  destruct (m !! id) as [k|] eqn:Hid; [|done]. pose proof (Hk _ _ Hid) as Hki.
  split; intros s' k'.
  - pose proof (PutAPIKey_spec (set_lists perms k) (Service_store s)) as Hp.
    destruct (PutAPIKey _ _) as [st [e|]]; [done|]. intros [= <- <-].
    destruct Hp as [Hp|[? _]]; [|done]. split; [done|]. simpl in *. by rewrite Hp, Hki.
  - pose proof (PutAPIKey_spec (set_limits lim k) (Service_store s)) as Hp.
    destruct (PutAPIKey _ _) as [st [e|]]; [done|]. intros [= <- <-].
    destruct Hp as [Hp|[? _]]; [|done]. split; [done|]. simpl in *. by rewrite Hp, Hki.
Qed.

Lemma updates_frame_witness :
  ∃ s' k', SetPermissions demo_id Permissions_zero demo_live = (s', Ok k') ∧
    keys_of (Service_store s') = <[demo_id := k']> (keys_of (Service_store demo_live)).
Proof.
  do 2 eexists. split; [reflexivity|].
  refine (proj2 (proj1 (updates_frame demo_id Permissions_zero None demo_live _) _ _ eq_refl)).
  intros id k. simpl. by intros [<- <-]%lookup_singleton_Some.
Defined.

(** Token format. parseToken inverts formatToken on every non-empty id without
    an underscore and non-empty secret, and accepts nothing but such tokens, so
    a token determines its id and secret. *)
Theorem token_roundtrip tok id secret :
  parseToken tok = Some (id, secret) ↔
  tok = formatToken id secret ∧ no_sep "_" id ∧ id ≠ "" ∧ secret ≠ "".
Proof.
  split; [apply format_parse|]. intros (-> & ? & ? & ?). by apply parse_format.
Qed.
