(* ===== verification/AuditLog.v ===== *)
(** * AuditLog.v: the append-only audit log (internal/audit)

    [Entry] and its redacted before/after snapshots, the in-memory store with its
    rolling cap, the filtered newest-first listing, and the checkpoint file.  The
    log refines an unbounded list of everything appended: what is stored is always
    its last [max] entries. *)

From S2P Require Import Prelude Errors AtomicFile GoTime GoHeap GoSort.
Open Scope Z_scope.

(** ** Entries *)

(** The dynamic types the recording sites put into a snapshot. *)
Inductive anyv :=
| AStr (s : string)
| AStrs (l : list string)
| ABool (b : bool)
| AInt (n : Z)
| AUints (l : list (string * Z)).

(** [map[string]any]; [None] is the nil map. *)
Definition RedactedValues := option (gmap string anyv).

Definition Outcome := string.
Definition OutcomeSuccess : Outcome := "success".
Definition OutcomeFailure : Outcome := "failure".

Record Entry := mkEntry {
  Entry_Time : Time;
  Entry_Actor : string;
  Entry_Op : string;
  Entry_Target : string;
  Entry_Before : RedactedValues;
  Entry_After : RedactedValues;
  Entry_RequestID : string;
  Entry_Outcome : Outcome }.

#[export] Instance anyv_eq_dec : EqDecision anyv.
Proof. solve_decision. Defined.
#[export] Instance Entry_eq_dec : EqDecision Entry.
Proof. solve_decision. Defined.

(** The copies of values: nil stays nil, every pair is copied. *)
Definition RedactedValues_clone (v : RedactedValues) : RedactedValues :=
  match v with
  | None => None
  | Some m => Some (map_fold (λ k x out, <[k := x]> out) ∅ m)
  end.
Definition Entry_clone (e : Entry) : Entry :=
  mkEntry (Entry_Time e) (Entry_Actor e) (Entry_Op e) (Entry_Target e)
    (RedactedValues_clone (Entry_Before e)) (RedactedValues_clone (Entry_After e))
    (Entry_RequestID e) (Entry_Outcome e).

(** What logging a whole entry shows: never a snapshot. *)
Definition Entry_LogValue (e : Entry) : Time * list (string * string) :=
  (Entry_Time e,
   [("actor", Entry_Actor e); ("op", Entry_Op e); ("target", Entry_Target e);
    ("request_id", Entry_RequestID e); ("outcome", Entry_Outcome e)]).

Record Filter := mkFilter {
  Filter_Actor : string; Filter_Op : string; Filter_Target : string;
  Filter_Since : Time; Filter_Until : Time }.

Definition matches (f : Filter) (e : Entry) : bool :=
  if negb (String.eqb (Filter_Actor f) "") && negb (String.eqb (Entry_Actor e) (Filter_Actor f)) then false
  else if negb (String.eqb (Filter_Op f) "") && negb (String.eqb (Entry_Op e) (Filter_Op f)) then false
  else if negb (String.eqb (Filter_Target f) "") && negb (String.eqb (Entry_Target e) (Filter_Target f))
  then false
  else if negb (IsZero (Filter_Since f)) && Before (Entry_Time e) (Filter_Since f) then false
  else if negb (IsZero (Filter_Until f)) && negb (Before (Entry_Time e) (Filter_Until f)) then false
  else true.

(** ** The store *)

Record MemoryStore := mkStore { ms_entries : list Entry; ms_max : Z }.

Definition NewMemoryStore (maxEntries : Z) : MemoryStore := mkStore [] maxEntries.

Definition stamp (now : Time) (e : Entry) : Entry :=
  if IsZero (Entry_Time e)
  then mkEntry (UTC now) (Entry_Actor e) (Entry_Op e) (Entry_Target e) (Entry_Before e) (Entry_After e)
         (Entry_RequestID e) (Entry_Outcome e)
  else e.

(** [now] is the clock's reading if the entry carries no time. *)
Definition Append (now : Time) (e : Entry) (m : MemoryStore) : MemoryStore * option error :=
  let stored := Entry_clone (stamp now e) in
  let entries := ms_entries m ++ [stored] in
  let n := Z.of_nat (length entries) in
  if (0 <? ms_max m) && (ms_max m <? n)
  then (mkStore (drop (Z.to_nat (n - ms_max m)) entries) (ms_max m), None)
  else (mkStore entries (ms_max m), None).

Definition newer (a b : Entry) : bool := After (Entry_Time a) (Entry_Time b).

Definition List (f : Filter) (limit : Z) (m : MemoryStore) : list Entry :=
  let out := fold_left (λ out e, if matches f e then out ++ [Entry_clone e] else out) (ms_entries m) [] in
  let out := SliceStable newer out in
  if (0 <? limit) && (limit <? Z.of_nat (length out)) then take (Z.to_nat limit) out else out.

Definition Len (m : MemoryStore) : Z := Z.of_nat (length (ms_entries m)).

(** ** Checkpoints *)

Section checkpoint.
Context (marshal : list Entry → result bytes) (unmarshal : bytes → result (list Entry)).

Definition Checkpoint (path : string) (io : checkpointIO) (m : MemoryStore) (disk : option bytes)
    : option bytes * option error :=
  if String.eqb path "" then (disk, Some (ENew "audit: empty checkpoint path"))
  else write_json "audit" marshal io (map Entry_clone (ms_entries m)) disk.

Definition LoadCheckpoint (path : string) (readErr : option error) (disk : option bytes) (m : MemoryStore)
    : MemoryStore * option error :=
  match read_json "audit" path unmarshal readErr disk with
  | Err e => (m, Some e)
  | Ok None => (m, None)
  | Ok (Some loaded) =>
      let n := Z.of_nat (length loaded) in
      let loaded := if (0 <? ms_max m) && (ms_max m <? n)
                    then drop (Z.to_nat (n - ms_max m)) loaded else loaded in
      (mkStore loaded (ms_max m), None)
  end.
End checkpoint.

(** ** Lemmas *)

Lemma RedactedValues_clone_eq v : RedactedValues_clone v = v.
Proof.
  destruct v as [m|]; [|done]. simpl. f_equal.
  induction m as [|k x m Hk Hf IH] using map_first_key_ind; [done|].
  rewrite map_fold_insert_first_key by done. by rewrite IH.
Qed.

Lemma Entry_clone_eq e : Entry_clone e = e.
Proof. destruct e. unfold Entry_clone; simpl. by rewrite !RedactedValues_clone_eq. Qed.
Lemma map_Entry_clone l : map Entry_clone l = l.
Proof. induction l; cbn [map]; rewrite ?Entry_clone_eq; congruence. Qed.
#[export] Hint Rewrite RedactedValues_clone_eq Entry_clone_eq : agpu_rw.

(** The window a cap of [max] leaves of a log. *)
Definition window (max : Z) (l : list Entry) : list Entry :=
  if 0 <? max then lastn (Z.to_nat max) l else l.

Lemma window_cap max l :
  (let n := Z.of_nat (length l) in
   if (0 <? max) && (max <? n) then drop (Z.to_nat (n - max)) l else l) = window max l.
Proof.
  unfold window, lastn. destruct (Z.ltb_spec 0 max); simpl; [|done].
  destruct (Z.ltb_spec max (Z.of_nat (length l))); [f_equal; lia|].
  by replace (length l - Z.to_nat max)%nat with 0%nat by lia.
Qed.

Lemma Append_eq now e m :
  Append now e m = (mkStore (window (ms_max m) (ms_entries m ++ [stamp now e])) (ms_max m), None).
Proof.
  unfold Append. rewrite Entry_clone_eq. rewrite <- window_cap. cbv zeta. by case_match.
Qed.

(** Appending to a window of a log gives the window of the longer log. *)
Lemma window_snoc max l x : window max (window max l ++ [x]) = window max (l ++ [x]).
Proof.
  unfold window. destruct (Z.ltb_spec 0 max) as [H|]; [|done]. set (n := Z.to_nat max).
  assert (0 < n)%nat by lia.
  apply (suffix_eq_length _ _ (l ++ [x])).
  - etrans; [apply lastn_suffix|]. destruct (lastn_suffix n l) as [k Hk]. exists k.
    by rewrite app_assoc, <- Hk.
  - apply lastn_suffix.
  - rewrite !length_lastn, !length_app, length_lastn. simpl. lia.
Qed.

Lemma window_window max l : window max (window max l) = window max l.
Proof.
  unfold window. case_match; [|done]. apply lastn_all. rewrite length_lastn. lia.
Qed.

#[export] Instance newer_order : StrictWeakOrder newer.
Proof. apply (rank_order_desc Entry_Time). Qed.

Lemma List_eq f limit m :
  List f limit m =
  let out := SliceStable newer (filter (λ e, matches f e = true) (ms_entries m)) in
  if 0 <? limit then take (Z.to_nat limit) out else out.
Proof.
  unfold List.
  assert (∀ acc, fold_left (λ out e, if matches f e then out ++ [Entry_clone e] else out) (ms_entries m) acc
    = acc ++ filter (λ e, matches f e = true) (ms_entries m)) as ->.
  { induction (ms_entries m) as [|e l IH]; intros acc; [by rewrite app_nil_r|].
    cbn [fold_left]. rewrite IH, filter_cons, Entry_clone_eq.
    destruct (matches f e); simpl; [by rewrite <- app_assoc|done]. }
  simpl. set (out := SliceStable _ _). destruct (Z.ltb_spec 0 limit); [|done]. simpl.
  destruct (Z.ltb_spec limit (Z.of_nat (length out))); [done|]. symmetry. apply take_ge. lia.
Qed.

(** What a filter selects: every non-empty field agrees, and the time lies in the
    half-open window. *)
Definition selected (f : Filter) (e : Entry) : Prop :=
  (Filter_Actor f = "" ∨ Entry_Actor e = Filter_Actor f) ∧
  (Filter_Op f = "" ∨ Entry_Op e = Filter_Op f) ∧
  (Filter_Target f = "" ∨ Entry_Target e = Filter_Target f) ∧
  (Filter_Since f = 0 ∨ Filter_Since f <= Entry_Time e) ∧
  (Filter_Until f = 0 ∨ Entry_Time e < Filter_Until f).

Lemma matches_spec f e : matches f e = true ↔ selected f e.
Proof.
  unfold matches, selected, IsZero, Before.
  destruct (String.eqb_spec (Filter_Actor f) ""), (String.eqb_spec (Entry_Actor e) (Filter_Actor f)),
    (String.eqb_spec (Filter_Op f) ""), (String.eqb_spec (Entry_Op e) (Filter_Op f)),
    (String.eqb_spec (Filter_Target f) ""), (String.eqb_spec (Entry_Target e) (Filter_Target f)),
    (Z.eqb_spec (Filter_Since f) 0), (Z.ltb_spec (Entry_Time e) (Filter_Since f)),
    (Z.eqb_spec (Filter_Until f) 0), (Z.ltb_spec (Entry_Time e) (Filter_Until f)); simpl;
    split; try done; try tauto; intros; (tauto || lia || (exfalso; intuition (try done; lia))).
Qed.

Definition appended (evs : list (Time * Entry)) (m : MemoryStore) : MemoryStore :=
  fold_left (λ m '(now, e), (Append now e m).1) evs m.

Lemma appended_window evs max l :
  appended evs (mkStore (window max l) max) = mkStore (window max (l ++ (uncurry stamp <$> evs))) max.
Proof.
  revert l. induction evs as [|[now e] evs IH]; intros l; simpl; [by rewrite app_nil_r|].
  rewrite Append_eq. simpl. rewrite window_snoc, IH. by rewrite <- app_assoc.
Qed.

(** ** Theorems *)

(** The store is a rolling window over everything appended. After any
    sequence of appends to a new store it holds exactly the last [max] entries, in
    the order they were appended and with their contents as recorded (all of them
    when the cap is not positive); an append never fails, changes or reorders an
    earlier entry. *)
Theorem audit_rolling_window max (evs : list (Time * Entry)) :
  let log := uncurry stamp <$> evs in
  ms_entries (appended evs (NewMemoryStore max)) = (if 0 <? max then lastn (Z.to_nat max) log else log) ∧
  (0 < max → Len (appended evs (NewMemoryStore max)) <= max) ∧
  (∀ now e m, (Append now e m).2 = None).
Proof.
  intros log. assert (appended evs (NewMemoryStore max) = mkStore (window max log) max) as ->.
  { pose proof (appended_window evs max []) as H. simpl in H.
    by replace (window max []) with (@nil Entry) in H by (unfold window; by case_match). }
  split_and!; [done| |].
  - intros Hm. unfold Len. cbn [ms_entries]. unfold window.
    rewrite (proj2 (Z.ltb_lt 0 max) Hm), length_lastn. lia.
  - intros. by rewrite Append_eq.
Qed.

(** The listing. List with no limit returns exactly the entries the filter
    selects, newest first, those of one instant in the order they were recorded;
    a positive limit keeps the first that many. *)
Theorem audit_list_spec f limit m :
  let out := List f 0 m in
  (∀ e, e ∈ out ↔ e ∈ ms_entries m ∧ selected f e) ∧
  length out = length (filter (λ e, matches f e = true) (ms_entries m)) ∧
  StronglySorted (λ a b, Entry_Time b <= Entry_Time a) out ∧
  (∀ t, filter (λ e, Entry_Time e = t) out =
        filter (λ e, Entry_Time e = t) (filter (λ e, matches f e = true) (ms_entries m))) ∧
  List f limit m = (if 0 <? limit then take (Z.to_nat limit) out else out).
Proof.
  intros out. subst out. rewrite !List_eq. cbv zeta. change (0 <? 0) with false. cbv iota.
  split_and!; [..|done].
  - intros e. rewrite SliceStable_perm, list_elem_of_filter, matches_spec. tauto.
  - apply SliceStable_length.
  - eapply StronglySorted_weaken; [|apply (SliceStable_sorted newer)].
    unfold GoHeap.le, newer, After. intros. zbool. lia.
  - intros t. apply SliceStable_filter. unfold newer, After. intros. zbool. lia.
Qed.

(** Two records a JSON round trip does not tell apart: the scalars are equal and
    the snapshots name the same fields (their values lose their Go types). *)
Definition same_record (e e' : Entry) : Prop :=
  (Entry_Time e, Entry_Actor e, Entry_Op e, Entry_Target e, Entry_RequestID e, Entry_Outcome e) =
  (Entry_Time e', Entry_Actor e', Entry_Op e', Entry_Target e', Entry_RequestID e', Entry_Outcome e') ∧
  dom (default ∅ (Entry_Before e)) = dom (default ∅ (Entry_Before e')) ∧
  dom (default ∅ (Entry_After e)) = dom (default ∅ (Entry_After e')).

(** What the log relies on of encoding/json. *)
Definition entries_codec (marshal : list Entry → result bytes) (unmarshal : bytes → result (list Entry)) : Prop :=
  ∀ l data, marshal l = Ok data → data ≠ [] ∧ ∃ l', unmarshal data = Ok l' ∧ Forall2 same_record l l'.

(** The log survives a restart. When Checkpoint reports success, loading
    the file into a store with a cap [max] gives, record for record, the last
    [max] entries; when it reports an error the previous file is intact. *)
Theorem audit_restart marshal unmarshal path io m disk disk' err max :
  entries_codec marshal unmarshal → Checkpoint marshal path io m disk = (disk', err) →
  match err with
  | Some _ => disk' = disk
  | None => let '(m', e) := LoadCheckpoint unmarshal path None disk' (NewMemoryStore max) in
            e = None ∧ Forall2 same_record (window max (ms_entries m)) (ms_entries m')
  end.
Proof.
  intros Hj. unfold Checkpoint. case_match; [by intros [= <- <-]|]. intros Hw.
  rewrite map_Entry_clone in Hw.
  apply write_json_disk in Hw. destruct err; [done|]. destruct Hw as (data & Hm & ->).
  destruct (Hj _ _ Hm) as (Hne & l' & Hu & Hl). unfold LoadCheckpoint.
  rewrite (read_json_data _ _ _ _ _ Hne Hu). simpl. split; [done|].
  pose proof (window_cap max l') as Hc. cbv zeta in Hc. rewrite Hc.
  unfold window, lastn. rewrite (Forall2_length _ _ _ Hl). destruct (0 <? max); [by apply Forall2_drop|done].
Qed.

Definition demo_entry (t : Time) (op : string) : Entry :=
  mkEntry t "admin" op "k1" None (Some {["status" := AStr "draining"]}) "req-1" OutcomeSuccess.

Definition demo_log : list Entry := [demo_entry 5 "key.create"; demo_entry 6 "worker.drain"].

Lemma audit_restart_witness :
  let marshal l := if decide (l = demo_log) then Ok [7] else Err (ENew "unsupported") in
  let unmarshal (b : bytes) := Ok demo_log in
  (LoadCheckpoint unmarshal "a.json" None (Some [7]) (NewMemoryStore 1)).2 = None ∧
  Forall2 same_record [demo_entry 6 "worker.drain"]
    (ms_entries (LoadCheckpoint unmarshal "a.json" None (Some [7]) (NewMemoryStore 1)).1).
Proof.
  intros marshal unmarshal.
  refine (audit_restart marshal unmarshal "a.json" cio_good (mkStore demo_log 0) None (Some [7]) None 1 _ _).
  - intros l data. unfold marshal. case_decide as Hl; [|done]. intros [= <-]. split; [done|].
    exists demo_log. split; [done|]. rewrite Hl. repeat constructor.
  - reflexivity.
Defined.
