(* ===== verification/UsageSeries.v ===== *)
(** * UsageSeries.v: the daily usage series (internal/usage/usage.go)

    A bounded ring of daily samples per key, fed with the quota engine's
    snapshots, and its checkpoint file.  The ring refines the complete sequence of
    samples: it is the last [MaxDays] of the days, each with its latest figures. *)

From S2P Require Import Prelude Errors AtomicFile GoTime GoHeap GoSort Store Quota.
Open Scope Z_scope.

Definition MaxDays : nat := 7.

Record DailySample := mkSample { Sample_Day : Time; Sample_Tokens : Z; Sample_Requests : Z }.

#[export] Instance DailySample_eq_dec : EqDecision DailySample.
Proof. solve_decision. Defined.

Record UStore := mkUStore { u_series : gmap string (list DailySample) }.
Definition New : UStore := mkUStore ∅.

Definition dayStart (t : Time) : Time :=
  let t := UTC t in Date (Year t) (Month t) (Day t).

Definition hist_of (s : UStore) (id : string) : list DailySample := default [] (u_series s !! id).

(** The switch of [Record]: refresh today's sample in place, or append and trim. *)
Definition record_hist (sample : DailySample) (hist : list DailySample) : list DailySample :=
  match last hist with
  | Some x =>
      if Equal (Sample_Day x) (Sample_Day sample) then <[pred (length hist) := sample]> hist
      else
        let hist := hist ++ [sample] in
        if (MaxDays <? length hist)%nat then lastn MaxDays hist else hist
  | None => [sample]
  end.

Definition record_snap (today : Time) (s : UStore) (snap : Snapshot) : UStore :=
  if String.eqb (Snapshot_KeyID snap) "" then s
  else
    let sample := mkSample today (TokensToday snap) (RequestsThisMinute snap) in
    mkUStore (<[Snapshot_KeyID snap := record_hist sample (hist_of s (Snapshot_KeyID snap))]> (u_series s)).

Definition Record_snaps (snaps : list Snapshot) (now : Time) (s : UStore) : UStore :=
  fold_left (record_snap (dayStart now)) snaps s.

Definition SeriesForKey (keyID : string) (s : UStore) : list DailySample := hist_of s keyID.

(** ** Checkpoints *)

Section checkpoint.
Context (marshal : gmap string (list DailySample) → result bytes)
        (unmarshal : bytes → result (gmap string (list DailySample))).
(** [sort.Slice] by day, which may order ties as it likes. *)
Context (sortSlice : list DailySample → list DailySample).

Definition Checkpoint (path : string) (io : checkpointIO) (s : UStore) (disk : option bytes)
    : option bytes * option error :=
  if String.eqb path "" then (disk, None) else write_json "usage" marshal io (u_series s) disk.

Definition normalize (x : DailySample) : DailySample :=
  mkSample (dayStart (Sample_Day x)) (Sample_Tokens x) (Sample_Requests x).

Definition load_hist (hist : list DailySample) : list DailySample :=
  let hist := sortSlice (map normalize hist) in
  if (MaxDays <? length hist)%nat then lastn MaxDays hist else hist.

Definition LoadCheckpoint (path : string) (readErr : option error) (disk : option bytes) (s : UStore)
    : UStore * option error :=
  if String.eqb path "" then (s, None)
  else match read_json "usage" path unmarshal readErr disk with
       | Err e => (s, Some e)
       | Ok None => (s, None)
       | Ok (Some loaded) => (mkUStore (load_hist <$> loaded), None)
       end.
End checkpoint.

(** ** The specification *)

(** The samples a key gets over rounds of snapshots, in order. *)
Definition sample_of (id : string) (today : Time) (snap : Snapshot) : option DailySample :=
  if String.eqb (Snapshot_KeyID snap) "" then None
  else if String.eqb (Snapshot_KeyID snap) id
  then Some (mkSample today (TokensToday snap) (RequestsThisMinute snap)) else None.
Definition samples (id : string) (rounds : list (list Snapshot * Time)) : list DailySample :=
  concat (map (λ r : list Snapshot * Time, omap (sample_of id (dayStart r.2)) r.1) rounds).

(** One sample per run of equal days, the latest. *)
Fixpoint by_day (l : list DailySample) : list DailySample :=
  match l with
  | [] => []
  | x :: l' =>
      match l' with
      | y :: _ => if Equal (Sample_Day x) (Sample_Day y) then by_day l' else x :: by_day l'
      | [] => [x]
      end
  end.

Definition recorded (rounds : list (list Snapshot * Time)) (s : UStore) : UStore :=
  fold_left (λ s r, Record_snaps r.1 r.2 s) rounds s.

(** ** Lemmas *)

Lemma by_day_cons x y l : by_day (x :: y :: l) =
  if Equal (Sample_Day x) (Sample_Day y) then by_day (y :: l) else x :: by_day (y :: l).
Proof. done. Qed.

Lemma by_day_snoc l x :
  by_day (l ++ [x]) =
  match last l with
  | Some y => if Equal (Sample_Day y) (Sample_Day x) then take (pred (length (by_day l))) (by_day l) ++ [x]
              else by_day l ++ [x]
  | None => [x]
  end.
Proof.
  induction l as [|y l IH]; [done|]. destruct l as [|z l].
  { simpl. by case_match. }
  rewrite <- !app_comm_cons in *. rewrite !by_day_cons, IH. change (last (y :: z :: l)) with (last (z :: l)).
  assert (by_day (z :: l) ≠ []) as Hne.
  { clear. revert z. induction l as [|w l IH]; intros z; [done|]. rewrite by_day_cons. case_match; auto. }
  destruct (Equal (Sample_Day y) (Sample_Day z)); [done|].
  destruct (last (z :: l)) as [w|] eqn:El; [|by apply last_None in El].
  case_match; [|done]. destruct (by_day (z :: l)) as [|b bs]; [done|]. done.
Qed.

Lemma by_day_last l : last (by_day l) = last l.
Proof.
  induction l as [|x l IH] using rev_ind; [done|]. rewrite by_day_snoc, last_snoc.
  destruct (last l); [|done]. case_match; by rewrite last_snoc.
Qed.

Lemma take_lastn_pred {A} n (l : list A) :
  (0 < n)%nat → l ≠ [] → take (pred (length (lastn n l))) (lastn n l) = lastn (pred n) (take (pred (length l)) l).
Proof.
  intros Hn Hl. unfold lastn. rewrite length_drop, length_take, skipn_firstn_comm.
  assert (length l ≠ 0)%nat by (by destruct l).
  f_equal; [lia|]. f_equal. lia.
Qed.

Lemma lastn_snoc {A} n (l : list A) x : (0 < n)%nat → lastn n (l ++ [x]) = lastn (pred n) l ++ [x].
Proof.
  intros Hn. unfold lastn. rewrite length_app. simpl. rewrite drop_app_le by lia. f_equal. f_equal. lia.
Qed.

Lemma record_hist_spec l x : record_hist x (lastn MaxDays (by_day l)) = lastn MaxDays (by_day (l ++ [x])).
Proof.
  assert (last (lastn MaxDays (by_day l)) = last l) as Hlast.
  { rewrite <- (by_day_last l). generalize (by_day l). intros k. unfold lastn.
    destruct k as [|a k] using rev_ind; [done|]. rewrite length_app, drop_app_le by (unfold MaxDays; simpl; lia).
    by rewrite !last_snoc. }
  unfold record_hist. rewrite Hlast, by_day_snoc.
  destruct (last l) as [y|] eqn:El; [|by apply last_None in El as ->].
  assert (by_day l ≠ []) as Hne.
  { intros E. pose proof (by_day_last l) as Hd. rewrite E, El in Hd. done. }
  destruct (Equal _ _).
  - rewrite lastn_snoc by (unfold MaxDays; lia). rewrite <- take_lastn_pred; [|unfold MaxDays; lia|done].
    set (h := lastn MaxDays (by_day l)) in *. assert (h ≠ []) as Hh by (intros E; by rewrite E in Hlast).
    destruct h as [|a h _] using rev_ind; [done|]. rewrite length_app. simpl.
    replace (pred (length h + 1)) with (length h + 0)%nat by lia. rewrite insert_app_r. simpl.
    by rewrite Nat.add_0_r, take_app_length.
  - set (k := by_day l) in *. case_match eqn:E; zbool;
      rewrite length_app, length_lastn in E; cbn [length] in E.
    + rewrite !lastn_snoc by (unfold MaxDays; lia). f_equal. unfold lastn.
      rewrite length_drop, drop_drop. f_equal. unfold MaxDays in *. lia.
    + rewrite lastn_snoc by (unfold MaxDays; lia). f_equal. unfold lastn. f_equal.
      unfold MaxDays in *. lia.
Qed.

Lemma hist_insert s id id' h :
  hist_of (mkUStore (<[id := h]> (u_series s))) id' = if decide (id = id') then h else hist_of s id'.
Proof.
  unfold hist_of; simpl. case_decide; subst; [by rewrite lookup_insert_eq|by rewrite lookup_insert_ne].
Qed.

Lemma record_snap_spec id l today snap s :
  hist_of s id = lastn MaxDays (by_day l) →
  hist_of (record_snap today s snap) id =
    lastn MaxDays (by_day (l ++ option_list (sample_of id today snap))).
Proof.
  intros H. unfold record_snap, sample_of. case_match; simpl; [by rewrite app_nil_r|].
  rewrite hist_insert. destruct (String.eqb_spec (Snapshot_KeyID snap) id) as [<-|Hne].
  - rewrite decide_True by done. rewrite H. apply record_hist_spec.
  - rewrite decide_False by done. simpl. by rewrite app_nil_r.
Qed.

Lemma omap_cons_list {A B} (f : A → option B) x l : omap f (x :: l) = option_list (f x) ++ omap f l.
Proof. simpl. by destruct (f x). Qed.

Lemma Record_spec id l snaps now s :
  hist_of s id = lastn MaxDays (by_day l) →
  hist_of (Record_snaps snaps now s) id =
    lastn MaxDays (by_day (l ++ omap (sample_of id (dayStart now)) snaps)).
Proof.
  unfold Record_snaps. revert l s. induction snaps as [|x snaps IH]; intros l s H; [by rewrite app_nil_r|].
  cbn [fold_left]. rewrite (IH (l ++ option_list (sample_of id (dayStart now) x))) by by apply record_snap_spec.
  by rewrite omap_cons_list, app_assoc.
Qed.

Lemma recorded_spec id rounds l s :
  hist_of s id = lastn MaxDays (by_day l) →
  hist_of (recorded rounds s) id = lastn MaxDays (by_day (l ++ samples id rounds)).
Proof.
  unfold recorded, samples. revert l s. induction rounds as [|r rounds IH]; intros l s H; [by rewrite app_nil_r|].
  cbn [fold_left map concat]. erewrite IH by by apply Record_spec. by rewrite app_assoc.
Qed.

(** A clock that does not go back. *)
Definition clock_mono (rounds : list (list Snapshot * Time)) : Prop := StronglySorted Z.le rounds.*2.

Definition on_day (x : DailySample) : Prop := dayStart (Sample_Day x) = Sample_Day x.
Definition day_lt (x y : DailySample) : Prop := Sample_Day x < Sample_Day y.

Lemma dayStart_window t : dayStart t = windowStart windowDay t.
Proof. done. Qed.

Lemma dayStart_number t : dayStart t = day_number t * DayNs.
Proof. by rewrite dayStart_window, windowStart_begin. Qed.

Lemma dayStart_idem t : dayStart (dayStart t) = dayStart t.
Proof. by rewrite !dayStart_number, day_number_mult. Qed.

Lemma round_days id now (snaps : list Snapshot) x : x ∈ omap (sample_of id (dayStart now)) snaps → Sample_Day x = dayStart now.
Proof.
  intros (snap & _ & E)%list_elem_of_omap. unfold sample_of in E. repeat case_match; by simplify_eq/=.
Qed.

Lemma samples_days id rounds x :
  x ∈ samples id rounds → ∃ r, r ∈ rounds ∧ Sample_Day x = dayStart r.2.
Proof.
  unfold samples. intros (l & Hl & Hx)%list_elem_of_In%in_concat.
  apply in_map_iff in Hl as (r & <- & Hr). exists r. split; [by apply list_elem_of_In|].
  by eapply round_days, list_elem_of_In.
Qed.

Definition day_le (x y : DailySample) : Prop := Sample_Day x <= Sample_Day y.

Lemma samples_sorted id rounds : clock_mono rounds → StronglySorted day_le (samples id rounds).
Proof.
  unfold clock_mono. induction rounds as [|[snaps now] rounds IH]; intros H; [constructor|].
  inversion_clear H as [|? ? Hs Hn]. unfold samples. cbn [map concat].
  change (concat _) with (samples id rounds). cbn [fst snd].
  apply StronglySorted_app. split_and!; [..|by apply IH].
  - intros x y Hx%round_days (r & Hr & Hy)%samples_days. unfold day_le. rewrite Hx, Hy.
    apply (windowStart_mono windowDay). rewrite Forall_forall in Hn. apply Hn, list_elem_of_fmap. by exists r.
  - assert (∀ l, (∀ x, x ∈ l → Sample_Day x = dayStart now) → StronglySorted day_le l) as Hc.
    { induction l as [|x l IHl]; intros Hl; constructor; [apply IHl; set_solver|].
      apply Forall_forall. intros y Hy. unfold day_le. rewrite !Hl by set_solver. lia. }
    apply Hc. intros x. apply round_days.
Qed.

Lemma by_day_elem l x : x ∈ by_day l → x ∈ l.
Proof.
  induction l as [|y l IH]; [done|]. destruct l as [|z l]; [done|]. rewrite by_day_cons.
  case_match; set_solver.
Qed.

Lemma by_day_strict l : StronglySorted day_le l → StronglySorted day_lt (by_day l).
Proof.
  induction 1 as [|x l Hs IH Hx]; [constructor|]. destruct l as [|y l]; [by repeat constructor|].
  rewrite by_day_cons. case_match eqn:E; [done|]. constructor; [done|].
  apply Forall_forall. intros z Hz%by_day_elem. unfold Equal in E. zbool.
  inversion_clear Hx as [|? ? Hxy _]. inversion_clear Hs as [|? ? _ Hy].
  unfold day_lt, day_le in *. apply elem_of_cons in Hz as [->|Hz]; [lia|].
  rewrite Forall_forall in Hy. apply Hy in Hz. lia.
Qed.

Lemma StronglySorted_suffix {A} (R : A → A → Prop) l k :
  l `suffix_of` k → StronglySorted R k → StronglySorted R l.
Proof. intros [j ->]. by intros (_ & _ & H)%StronglySorted_app. Qed.

Lemma series_eq id rounds :
  SeriesForKey id (recorded rounds New) = lastn MaxDays (by_day (samples id rounds)).
Proof. apply (recorded_spec id rounds [] New eq_refl). Qed.

Lemma series_length id rounds : (length (SeriesForKey id (recorded rounds New)) ≤ MaxDays)%nat.
Proof. rewrite series_eq, length_lastn. lia. Qed.

Lemma series_days id rounds : Forall on_day (SeriesForKey id (recorded rounds New)).
Proof.
  rewrite series_eq. apply Forall_forall. intros x Hx.
  destruct (lastn_suffix MaxDays (by_day (samples id rounds))) as [k Hk].
  assert (x ∈ samples id rounds) as Hs by (apply by_day_elem; rewrite Hk; set_solver).
  apply samples_days in Hs as (r & _ & Hd). unfold on_day. by rewrite Hd, dayStart_idem.
Qed.

Lemma series_strict id rounds :
  clock_mono rounds → StronglySorted day_lt (SeriesForKey id (recorded rounds New)).
Proof.
  intros Hc. rewrite series_eq. eapply StronglySorted_suffix; [apply lastn_suffix|].
  by apply by_day_strict, samples_sorted.
Qed.
#[export] Hint Resolve series_eq series_length series_days series_strict : agpu.

(** What [LoadCheckpoint] relies on of [sort.Slice]. *)
Definition sorts (sortSlice : list DailySample → list DailySample) : Prop :=
  ∀ l, sortSlice l ≡ₚ l ∧ StronglySorted day_le (sortSlice l).

Definition earlier (a b : DailySample) : bool := Before (Sample_Day a) (Sample_Day b).
#[export] Instance earlier_order : StrictWeakOrder earlier.
Proof. apply (rank_order Sample_Day). Qed.

Lemma earlier_le : ∀ a b, day_le a b ↔ GoHeap.le earlier a b.
Proof. intros a b. unfold day_le, GoHeap.le, earlier, Before. rewrite Z.ltb_ge. done. Qed.

(** A series as [Record_snaps] leaves it is loaded unchanged. *)
Lemma load_hist_id sortSlice hist :
  sorts sortSlice → Forall on_day hist → StronglySorted day_lt hist → (length hist ≤ MaxDays)%nat →
  load_hist sortSlice hist = hist.
Proof.
  intros Hsort Hd Hs Hlen. unfold load_hist.
  assert (map normalize hist = hist) as ->.
  { clear -Hd. induction Hd as [|[] l Hx Hd IH]; [done|]. cbn [map]. rewrite IH. unfold normalize, on_day in *.
    simpl in *. by rewrite Hx. }
  destruct (Hsort hist) as [Hp Hs'].
  assert (sortSlice hist = hist) as ->.
  { symmetry. apply (sorted_unique earlier); [| | |by symmetry].
    - intros a b Ha Hb Hab Hba. apply earlier_le in Hab, Hba. unfold day_le in *.
      apply list_elem_of_lookup in Ha as [i Hi], Hb as [j Hj].
      destruct (decide (i = j)) as [->|Hij]; [congruence|]. exfalso.
      assert (∀ i j a b, (i < j)%nat → hist !! i = Some a → hist !! j = Some b → Sample_Day a < Sample_Day b) as Hlt.
      { clear -Hs. induction Hs as [|x l Hs IH Hx]; [done|]. intros [|i] [|j] a b Hij Ha Hb; try lia; simplify_eq/=.
        - rewrite Forall_forall in Hx. apply Hx. by eapply list_elem_of_lookup_2.
        - eapply (IH i j); [lia|done..]. }
      destruct (decide (i < j)%nat) as [H|H]; [specialize (Hlt i j a b H Hi Hj); lia|].
      assert (j < i)%nat as H' by lia. specialize (Hlt j i b a H' Hj Hi). lia.
    - eapply StronglySorted_weaken; [|exact Hs]. intros a b Hab. apply earlier_le. unfold day_le, day_lt in *. lia.
    - eapply StronglySorted_weaken; [|exact Hs']. intros a b. apply earlier_le. }
  case_match; [|done]. zbool. lia.
Qed.

Lemma load_series sortSlice rounds :
  sorts sortSlice → clock_mono rounds →
  load_hist sortSlice <$> u_series (recorded rounds New) = u_series (recorded rounds New).
Proof.
  intros Hs Hc. apply map_eq. intros id. rewrite lookup_fmap.
  destruct (u_series (recorded rounds New) !! id) as [h|] eqn:E; [|done]. simpl. f_equal.
  pose proof (series_length id rounds). pose proof (series_days id rounds).
  pose proof (series_strict id rounds Hc).
  assert (SeriesForKey id (recorded rounds New) = h) as Hh by (unfold SeriesForKey, hist_of; by rewrite E).
  rewrite Hh in *. by apply load_hist_id.
Qed.

(** ** Theorems *)

(** The series is exact and bounded. After any rounds of snapshots, the
    series of a key is the last seven of its recorded days, each with the figures
    of that day's last snapshot; when the clock has not gone back the days are
    distinct midnights in increasing order. *)
Theorem usage_series_exact id rounds :
  let series := SeriesForKey id (recorded rounds New) in
  series = lastn 7 (by_day (samples id rounds)) ∧ (length series ≤ 7)%nat ∧
  Forall on_day series ∧ (clock_mono rounds → StronglySorted day_lt series).
Proof. split_and!; auto with agpu. Qed.

(** The series survives a restart. When the clock has not gone back and
    Checkpoint reports success for a non-empty path, loading the file gives every
    key's series back unchanged. *)
Theorem usage_restart marshal unmarshal sortSlice path io rounds disk disk' s0 :
  json_roundtrip marshal unmarshal → sorts sortSlice → clock_mono rounds → path ≠ "" →
  Checkpoint marshal path io (recorded rounds New) disk = (disk', None) →
  LoadCheckpoint unmarshal sortSlice path None disk' s0 = (recorded rounds New, None).
Proof.
  intros Hj Hs Hc Hp. unfold Checkpoint, LoadCheckpoint. destruct (String.eqb_spec path ""); [done|].
  intros Hw. apply (write_json_read "usage" path marshal unmarshal) in Hw; [|done].
  cbv iota beta in Hw. rewrite Hw, load_series by done. by destruct (recorded rounds New).
Qed.

Definition demo_snap (id : string) (tok : Z) : Snapshot :=
  mkSnapshot id (mkLimits 0 0 0 0) 1 tok tok tok 0 0 0.
Definition demo_rounds : list (list Snapshot * Time) :=
  [([demo_snap "a" 10; demo_snap "b" 1], 5 * DayNs); ([demo_snap "a" 30], 5 * DayNs + Hour);
   ([demo_snap "a" 2], 6 * DayNs)].

Lemma usage_restart_witness :
  let marshal m := if decide (m = u_series (recorded demo_rounds New)) then Ok [7] else Err (ENew "unsupported") in
  let unmarshal (b : bytes) := Ok (u_series (recorded demo_rounds New)) in
  LoadCheckpoint unmarshal (SliceStable earlier) "u.json" None (Some [7]) New = (recorded demo_rounds New, None) ∧
  SeriesForKey "a" (recorded demo_rounds New) = [mkSample (5 * DayNs) 30 1; mkSample (6 * DayNs) 2 1].
Proof.
  intros marshal unmarshal. split; [|vm_compute; reflexivity].
  apply (usage_restart marshal unmarshal (SliceStable earlier) "u.json" cio_good demo_rounds None (Some [7]) New).
  - intros m data. unfold marshal. case_decide as Hm; [|done]. intros [= <-]. split; [done|]. by rewrite Hm.
  - intros l. split; [apply SliceStable_perm|].
    eapply StronglySorted_weaken; [|apply (SliceStable_sorted earlier)]. intros a b. apply earlier_le.
  - vm_compute. repeat constructor; discriminate.
  - done.
  - unfold Checkpoint, write_json, marshal. rewrite decide_True by done. reflexivity.
Defined.
