(* ===== verification/Forecast.v ===== *)
(** * Forecast.v: the exhaustion forecast (internal/usage/forecast.go)

    A best-effort projection of when a key's daily and monthly token budgets run
    out, from the slope of its daily series, in float64 arithmetic. *)

From S2P Require Import Prelude GoTime GoFloat Store Quota UsageSeries.
Open Scope Z_scope.

Record Forecast := mkForecast { DailyExhaustionAt : option Time; MonthlyExhaustionAt : option Time }.

(** [(0, false)] is [None].  A negative span is below one day. *)
Definition dailyBurnRate (series : list DailySample) : option float :=
  match series, last series with
  | first :: (_ :: _) as rest, Some lst =>
      let span := Sub (Sample_Day lst) (Sample_Day first) in
      if span <? 0 then None
      else
        let days := fdiv (Hours span) (float64 24) in
        if flt days (float64 1) then None
        else
          let total := fold_left (λ t s, fadd t (float64 (Sample_Tokens s))) (tail series) (F 0 0) in
          let rate := fdiv total days in
          if f_num rate <=? 0 then None else Some rate
  | _, _ => None
  end.

Definition maxForecastHorizon : Duration := 365 * 24 * Hour.

Definition projectAt (now : Time) (remaining perSecond : float) : option Time :=
  let secs := fdiv remaining perSecond in
  if (f_num secs <=? 0) || flt (Seconds maxForecastHorizon) secs then None
  else Some (Add now (ftrunc (fmul secs (float64 Second)))).

Definition Project (series : list DailySample) (lim : Limits) (snap : Snapshot) (now : Time) : Forecast :=
  match dailyBurnRate series with
  | None => mkForecast None None
  | Some rate =>
      let now := UTC now in
      let perSecond := fdiv rate (float64 (24 * 60 * 60)) in
      if f_num perSecond <=? 0 then mkForecast None None
      else
        let daily :=
          if negb (Limits_DailyTokens lim =? 0) && (TokensToday snap <? Limits_DailyTokens lim) then
            let remaining := float64 (u64 (Limits_DailyTokens lim - TokensToday snap)) in
            match projectAt now remaining perSecond with
            | Some at_ =>
                let reset := DayResetsAt snap in
                if IsZero reset || negb (After at_ reset) then Some at_ else None
            | None => None
            end
          else None in
        let monthly :=
          if negb (Limits_MonthlyTokens lim =? 0) && (TokensThisMonth snap <? Limits_MonthlyTokens lim) then
            let remaining := float64 (u64 (Limits_MonthlyTokens lim - TokensThisMonth snap)) in
            projectAt now remaining perSecond
          else None in
        mkForecast daily monthly
  end.

Lemma ftrunc_bounds n d R :
  0 < d → n <= R * d → 0 <= R < 2 ^ 55 → R mod 8 = 0 → 0 <= ftrunc (round64 n d) <= R.
Proof.
  intros Hd Hn HR H8. unfold ftrunc. pose proof (f_den_pos (round64 n d)).
  pose proof (round64_nonneg n d Hd). pose proof (round64_le n d R Hd Hn HR H8).
  split; [by apply Z.div_pos|]. apply Z.div_le_upper_bound; [done|]. lia.
Qed.

(** A projection lies within the horizon. *)
Lemma projectAt_bounds now remaining perSecond t :
  projectAt now remaining perSecond = Some t → now <= t <= now + maxForecastHorizon.
Proof.
  unfold projectAt, Add. set (secs := fdiv _ _). case_match eqn:E; [done|]. intros [= <-]. zbool.
  assert (flt (Seconds maxForecastHorizon) secs = (31536000 * f_den secs <? f_num secs)) as Hf.
  { unfold flt. assert (Seconds maxForecastHorizon = float64 31536000) as -> by (vm_compute; reflexivity).
    destruct (float64_exact 31536000 ltac:(lia)) as [E1 E2]. rewrite E1.
    destruct (Z.ltb_spec (31536000 * f_den secs) (f_num secs)); [apply Z.ltb_lt|apply Z.ltb_ge]; nia. }
  rewrite Hf in *. zbool. pose proof (f_den_pos secs).
  destruct (float64_exact Second ltac:(unfold Second; lia)) as [E1 E2].
  assert (0 <= ftrunc (fmul secs (float64 Second)) <= maxForecastHorizon) as Hb; [|lia].
  unfold fmul. rewrite E1. apply ftrunc_bounds.
  - nia.
  - assert (maxForecastHorizon = 31536000 * Second) as -> by done. unfold Second in *. nia.
  - unfold maxForecastHorizon, Hour, Minute, Second. lia.
  - reflexivity.
Qed.

(** Forecasts are sane. A budget gets a projection only when it is limited
    and not used up and the series spans at least two samples; the instant
    projected is at or after now, within a year, and for the daily budget never
    past the reset that would refill it. *)
Theorem forecast_bounds series lim snap now :
  let f := Project series lim snap now in
  (∀ t, DailyExhaustionAt f = Some t →
     Limits_DailyTokens lim ≠ 0 ∧ TokensToday snap < Limits_DailyTokens lim ∧ (2 ≤ length series)%nat ∧
     now <= t <= now + 365 * DayNs ∧ (DayResetsAt snap = 0 ∨ t <= DayResetsAt snap)) ∧
  (∀ t, MonthlyExhaustionAt f = Some t →
     Limits_MonthlyTokens lim ≠ 0 ∧ TokensThisMonth snap < Limits_MonthlyTokens lim ∧ (2 ≤ length series)%nat ∧
     now <= t <= now + 365 * DayNs).
Proof.
  unfold Project. destruct (dailyBurnRate series) as [rate|] eqn:Er; [|done].
  assert (2 ≤ length series)%nat as Hlen.
  { unfold dailyBurnRate in Er. destruct series as [|? [|]]; simpl in *; (done || lia). }
  case_match; [done|]. assert (maxForecastHorizon = 365 * DayNs) as Hh by done.
  split; cbn [DailyExhaustionAt MonthlyExhaustionAt]; intros t Ht.
  - case_match eqn:Ec; [|done]. zbool. destruct (projectAt _ _ _) as [u|] eqn:Ep; [|done].
    apply projectAt_bounds in Ep. unfold UTC, IsZero, After in *. case_match; [|done]. simplify_eq/=.
    split_and!; try lia; zbool; lia.
  - case_match eqn:Ec; [|done]. zbool. apply projectAt_bounds in Ht. unfold UTC in *. split_and!; lia.
Qed.

Example forecast_1 :
  Project [mkSample 0 0 0; mkSample DayNs 86400 1] (mkLimits 0 0 0 100000) (demo_snap "a" 13600) DayNs =
  mkForecast None (Some (2 * DayNs)).
Proof. vm_compute. reflexivity. Qed.
