(* ===== verification/Http.v ===== *)
(** * Http.v: the plumbing of internal/httpapi

    Requests, the response writer, the error envelope (response.go), request ids
    and bearer tokens (middleware.go), cursor pagination (pagination.go) and the
    mapping of submission errors (inference.go).

    A handler's effect on its http.ResponseWriter is the list of calls it makes on
    it; [respond] is what net/http sends for them.  A response body is the Go value
    handed to json.Marshal, which cannot fail for these types. *)

From Stdlib Require Import Ascii.
From S2P Require Import Prelude Errors GoTime GoStrings GoConv Types Store Authz AuditLog.
Open Scope Z_scope.

(** ** Status codes *)
Definition StatusOK : Z := 200.
Definition StatusCreated : Z := 201.
Definition StatusAccepted : Z := 202.
Definition StatusNoContent : Z := 204.
Definition StatusBadRequest : Z := 400.
Definition StatusUnauthorized : Z := 401.
Definition StatusForbidden : Z := 403.
Definition StatusNotFound : Z := 404.
Definition StatusMethodNotAllowed : Z := 405.
Definition StatusConflict : Z := 409.
Definition StatusUnprocessableEntity : Z := 422.
Definition StatusTooManyRequests : Z := 429.
Definition StatusInternalServerError : Z := 500.
Definition StatusNotImplemented : Z := 501.
Definition StatusServiceUnavailable : Z := 503.

(** ** Response values *)

Record errorDetail := mkErrorDetail { Error_Message : string; Error_Code : string; Error_Type : string }.

Record limitsView := mkLimitsView { LV_RPM : Z; LV_TPM : Z; LV_DailyTokens : Z; LV_MonthlyTokens : Z }.

Record adminKeyView := mkKeyView {
  KV_ID : string; KV_Name : string; KV_Owner : string; KV_Team : string;
  KV_Roles : list string; KV_AdminScopes : list string; KV_AllowModels : list string;
  KV_DenyModels : list string; KV_Revoked : bool; KV_UsageCount : Z; KV_Created : Z;
  KV_CreatedBy : string; KV_LastUsed : Z; KV_ExpiresAt : option Z; KV_Limits : option limitsView }.

Record adminCreateKeyResponse := mkCreateResponse {
  CR_ID : string; CR_Name : string; CR_Owner : string; CR_Team : string; CR_Token : string;
  CR_Roles : list string; CR_AdminScopes : list string; CR_AllowModels : list string;
  CR_DenyModels : list string; CR_Created : Z; CR_CreatedBy : string; CR_ExpiresAt : option Z }.

Record adminQuotaUsageResponse := mkQuotaUsage {
  QU_KeyID : string; QU_Limits : limitsView;
  QU_RequestsThisMinute : Z; QU_TokensThisMinute : Z; QU_TokensToday : Z; QU_TokensThisMonth : Z;
  QU_MinuteResetsAt : Z; QU_DayResetsAt : Z; QU_MonthResetsAt : Z }.

Record chatToolCallWire := mkToolCallWire {
  TW_ID : string; TW_Type : string; TW_Name : string; TW_Arguments : string }.
Record chatMessage := mkChatMessage {
  CM_Role : string; CM_Content : string; CM_Name : string; CM_ToolCallID : string;
  CM_ToolCalls : list chatToolCallWire }.

Record usage := mkUsage { U_PromptTokens : Z; U_CompletionTokens : Z; U_TotalTokens : Z }.

Record adminWorkerView := mkWorkerView {
  WV_ID : string; WV_Models : list string; WV_Status : string; WV_ActiveJobs : Z; WV_TotalVRAM : Z;
  WV_FreeVRAM : Z; WV_Load : Z; WV_GPUType : string; WV_LastSeen : Z }.
Record adminWorkerDetailView := mkWorkerDetail {
  WD_view : adminWorkerView; WD_Draining : bool; WD_RegisteredAt : Z; WD_UptimeSeconds : Z }.
Record adminStatWorker := mkStatWorker { SW_ID : string; SW_ActiveJobs : Z; SW_Load : Z; SW_Status : string }.
Record adminWaitTime := mkWaitTime {
  WT_Count : Z; WT_SumMs : Z; WT_MaxMs : Z; WT_MeanMs : Z; WT_Buckets : list (Z * Z) }.

Record adminGPUFleet := mkGPUFleet {
  GF_WorkerCount : Z; GF_TotalVRAM : Z; GF_FreeVRAM : Z; GF_MeanLoad : Z; GF_MaxLoad : Z }.
Record adminGPUByType := mkGPUByType {
  GT_GPUType : string; GT_WorkerCount : Z; GT_TotalVRAM : Z; GT_FreeVRAM : Z }.
Record adminGPUCell := mkGPUCell {
  GC_ID : string; GC_GPUType : string; GC_TotalVRAM : Z; GC_FreeVRAM : Z; GC_Load : Z; GC_Status : string;
  GC_ActiveJobs : Z }.
Record adminGPUsResponse := mkGPUs {
  GPUs_Fleet : adminGPUFleet; GPUs_ByType : list adminGPUByType; GPUs_Workers : list adminGPUCell }.

(** The runtime settings; durations are Go duration texts. *)
Record ConfigSettings := mkSettings {
  LogLevel : string;
  QuotaDefaultRPM : Z; QuotaDefaultTPM : Z; QuotaDefaultDailyTokens : Z; QuotaDefaultMonthlyTokens : Z;
  QuotaGlobalRPM : Z; QuotaGlobalTPM : Z;
  SessionTTL : string; SessionMaxTurns : Z; SessionMaxBytes : Z; SessionMaxContextTokens : Z;
  SessionMaxSessionsPerKey : Z; SessionOverflowPolicy : string;
  SettingModelWarmMax : string; SettingHeartbeatTimeout : string }.
Record ConfigReadOnly := mkReadOnly {
  ServerListen : string; ServerHTTPListen : string; ServerMetricsListen : string; QuotaPath : string;
  SessionPath : string; LogFormat : string; LogOutput : string }.

(** A log attribute: a string, or another value with its [fmt.Sprint] text. *)
Inductive attrv := VStr (s : string) | VAny (text : string).
Record logEntryView := mkLogEntry { LE_Time : Time; LE_Level : string; LE_Message : string; LE_Attrs : gmap string attrv }.

Record adminUsageRow := mkUsageRow {
  UR_KeyID : string; UR_Name : string; UR_Owner : string; UR_Team : string; UR_Limits : limitsView;
  UR_RequestsThisMinute : Z; UR_TokensThisMinute : Z; UR_TokensToday : Z; UR_TokensThisMonth : Z;
  UR_MinuteResetsAt : Z; UR_DayResetsAt : Z; UR_MonthResetsAt : Z;
  UR_Series : list (Z * Z * Z);                 (* day, tokens, requests *)
  UR_DailyExhaustionAt : option Z; UR_MonthlyExhaustionAt : option Z }.

Record telemetryFleet := mkTelemetryFleet {
  TF_WorkerCount : Z; TF_ByStatus : gmap string Z; TF_QueueTotal : Z; TF_QueueByPriority : gmap string Z;
  TF_WaitTime : adminWaitTime }.
(** The latency section has the shape of the wait section. *)
Record adminTelemetryResponse := mkTelemetry {
  TR_Requests : adminWaitTime; TR_Global : Z; TR_Key : Z; TR_Fleet : telemetryFleet; TR_Sessions : Z;
  TR_Hits : Z; TR_Misses : Z; TR_Rebinds : Z; TR_UptimeSeconds : Z }.

(** The rows of the paginated lists. *)
Inductive row := RKey (v : adminKeyView) | RAudit (e : Entry) | RWorker (v : adminWorkerView) | RLog (v : logEntryView).

Inductive payload :=
| PError (e : errorDetail)
| PList (data : list row) (next : option string) (hasMore : bool)
| PKey (v : adminKeyView)
| PCreated (v : adminCreateKeyResponse)
| PRotated (id token : string)
| PQuota (v : adminQuotaUsageResponse)
| PSession (id model : string) (created : Z)
| PSessionDetail (id model : string) (created lastActive : Z) (messages : list chatMessage)
| PChat (id : string) (created : Z) (model : string) (msg : chatMessage) (finish : string) (u : usage)
| PChatChunk (id : string) (created : Z) (model role content : string) (tools : list chatToolCallWire)
    (finish : option string)
| PCompletion (id : string) (created : Z) (model text finish : string) (u : usage)
| PCompletionChunk (id : string) (created : Z) (model text : string) (finish : option string)
| PDone                                       (* the [data: [DONE]] sentinel *)
| PModels (ids : list string)
| PModel (id : string)
| PCatalog (entries : list (string * string * list string))
| PWorker (v : adminWorkerDetailView)
| PStats (total : Z) (byPriority : gmap string Z) (workers : list adminStatWorker) (wait : adminWaitTime)
| PGPUs (v : adminGPUsResponse)
| PRoles (roles : list RoleInfo) (scopes : list string)
| PConfig (settings : ConfigSettings) (boot : ConfigReadOnly) (readOnly : list string)
| PUsage (keyCount globalThrottled keyThrottled : Z) (rows : list adminUsageRow) (next : option string)
| PCsv (records : list (list string))
| PTelemetry (v : adminTelemetryResponse)
| PLogFrame (v : logEntryView)
| PComment.                                   (* an SSE comment line *)

(** ** The response writer *)

Inductive wact :=
| SetHeader (k v : string)
| WriteHeader (status : Z)
| Write (p : payload).

Record response := mkResponse {
  resp_status : Z; resp_header : gmap string string; resp_body : list payload }.

(** net/http: the first status wins, a write without one sends 200, and headers
    set after that are not sent. *)
Record wstate := mkWState { w_sent : option Z; w_header : gmap string string; w_body : list payload }.
Definition wexec (w : wstate) (a : wact) : wstate :=
  match a with
  | SetHeader k v =>
      match w_sent w with None => mkWState None (<[k := v]> (w_header w)) (w_body w) | Some _ => w end
  | WriteHeader st =>
      match w_sent w with None => mkWState (Some st) (w_header w) (w_body w) | Some _ => w end
  | Write p => mkWState (Some (default StatusOK (w_sent w))) (w_header w) (w_body w ++ [p])
  end.
Definition respond (acts : list wact) : response :=
  let w := fold_left wexec acts (mkWState None ∅ []) in
  mkResponse (default StatusOK (w_sent w)) (w_header w) (w_body w).

(** ** response.go *)

Definition openAIErrorType (status : Z) : string :=
  if status =? StatusUnauthorized then "authentication_error"
  else if status =? StatusTooManyRequests then "rate_limit_error"
  else if (status =? StatusBadRequest) || (status =? StatusForbidden) || (status =? StatusNotFound) ||
          (status =? StatusMethodNotAllowed) || (status =? StatusConflict) ||
          (status =? StatusUnprocessableEntity)
  then "invalid_request_error"
  else "server_error".

Definition writeJSON (status : Z) (v : payload) : list wact :=
  [SetHeader "Content-Type" "application/json"; WriteHeader status; Write v].

Definition writeError (status : Z) (code msg : string) : list wact :=
  writeJSON status (PError (mkErrorDetail msg code (openAIErrorType status))).

Definition streamErrorBody (jerr : option JobError) : payload :=
  let code := match jerr with
              | Some e => if negb (String.eqb (JobError_Code e) "") then JobError_Code e else "internal_error"
              | None => "internal_error"
              end in
  PError (mkErrorDetail "inference failed" code "server_error").

(** ** Requests *)

(** [Header.Get], [URL.Query().Get] and [PathValue] return "" for an absent name;
    a cookie may be absent. *)
Record Request := mkRequest {
  r_Method : string; r_Path : string; r_Header : string → string; r_Query : string → string;
  r_PathValue : string → string; r_Cookie : string → option string }.

(** The values the middleware puts on the request's context. *)
Record context := mkContext { c_key : option APIKey; c_requestID : option string }.
Definition withKey (k : APIKey) (c : context) : context := mkContext (Some k) (c_requestID c).

(** ** Request ids and tokens (middleware.go) *)

Definition maxRequestIDLen : Z := 128.

Definition id_char (c : ascii) : bool :=
  let b := byte_of c in
  ((97 <=? b) && (b <=? 122)) || ((65 <=? b) && (b <=? 90)) || ((48 <=? b) && (b <=? 57)) ||
  (b =? 45) || (b =? 95) || (b =? 46).

Fixpoint all_chars (p : ascii → bool) (s : string) : bool :=
  match s with EmptyString => true | String c s => p c && all_chars p s end.

(** The loop is over runes; a byte above 127 belongs to no accepted rune. *)
Definition sanitizeRequestID (v : string) : string :=
  if String.eqb v "" || (maxRequestIDLen <? len v) then ""
  else if all_chars id_char v then v else "".

(** [newID]; [rnd] is the outcome of reading 16 random bytes. *)
Definition newID (rnd : result bytes) (prefix : string) : string :=
  match rnd with Ok b => prefix +:+ hex_EncodeToString b | Err _ => prefix end.

Definition requestID (rnd : result bytes) (r : Request) : string :=
  let id := sanitizeRequestID (r_Header r "X-Request-Id") in
  if String.eqb id "" then newID rnd "req-" else id.

(** *** strings.TrimSpace *)

(** Remove the white-space runes in front. *)
Fixpoint trim_left (skip : nat) (l : bytes) : bytes :=
  match l with
  | [] => []
  | _ :: r =>
      match skip with
      | S skip => trim_left skip r
      | O => match space_len l with S n => trim_left n r | O => l end
      end
  end.

(** The length up to the end of the last rune that is not white space. *)
Fixpoint kept_len (skip : nat) (i : nat) (l : bytes) : nat :=
  match l with
  | [] => 0
  | _ :: r =>
      match skip with
      | S skip => kept_len skip (S i) r
      | O => match space_len l with
             | S n => kept_len n (S i) r
             | O => Nat.max (S i) (kept_len 0 (S i) r)
             end
      end
  end.
Definition TrimSpace (s : string) : string :=
  let l := trim_left 0 (bytes_of_string s) in
  string_of_bytes (take (kept_len 0 0 l) l).

Example trim_1 : TrimSpace "  a b " = "a b" ∧ TrimSpace "   " = "" ∧ TrimSpace "x" = "x".
Proof. done. Qed.

(** [strings.ToLower], as far as comparing the result with ASCII text or searching
    it for ASCII text can tell: the two letters outside ASCII with an ASCII lower
    case, the dotted capital I and the Kelvin sign, become it; other bytes outside
    ASCII stay outside. *)
Fixpoint ToLower_bytes (l : bytes) : bytes :=
  match l with
  | [] => []
  | 196 :: 176 :: r => 105 :: ToLower_bytes r
  | 226 :: 132 :: 170 :: r => 107 :: ToLower_bytes r
  | b :: r => (if (65 <=? b) && (b <=? 90) then b + 32 else b) :: ToLower_bytes r
  end.
Definition ToLower (s : string) : string := string_of_bytes (ToLower_bytes (bytes_of_string s)).

Example lower_1 : ToLower "WaRN" = "warn" ∧ ToLower "WARNİNG" = "warning".
Proof. done. Qed.

(** [strings.EqualFold] against a lower-case ASCII word without the letters k and
    s, whose only other case forms are the ASCII capitals. *)
Definition lower (c : ascii) : ascii :=
  let b := byte_of c in if (65 <=? b) && (b <=? 90) then ascii_of_N (Z.to_N (b + 32)) else c.
Fixpoint map_string (f : ascii → ascii) (s : string) : string :=
  match s with EmptyString => EmptyString | String c s => String (f c) (map_string f s) end.

Definition bearerToken (r : Request) : option string :=
  let h := r_Header r "Authorization" in
  if String.eqb h "" then None
  else if (len h <? 7) || negb (String.eqb (map_string lower (String.substring 0 7 h)) "bearer ") then None
  else
    let token := TrimSpace (String.substring 7 (String.length h - 7) h) in
    if String.eqb token "" then None else Some token.

Definition sessionCookieName : string := "agpu_admin_session".

Definition tokenFromRequest (r : Request) : option string :=
  match r_Cookie r sessionCookieName with
  | Some c =>
      let v := TrimSpace c in
      if negb (String.eqb v "") then Some v else bearerToken r
  | None => bearerToken r
  end.

(** ** Pagination (pagination.go) *)

Definition defaultPageSize : Z := 50.
Definition maxPageSize : Z := 200.

Definition encodeCursor (offset : Z) : string := b64_encode (bytes_of_string (Itoa offset)).

Definition decodeCursor (cursor : string) : Z :=
  if String.eqb cursor "" then 0
  else match b64_decode cursor with
       | None => 0
       | Some raw =>
           match Atoi (string_of_bytes raw) with
           | None => 0
           | Some n => if n <? 0 then 0 else n
           end
       end.

Definition parsePageParams (r : Request) : Z * Z :=
  let v := r_Query r "limit" in
  let limit := if negb (String.eqb v "") then
                 match Atoi v with
                 | Some n => if 0 <? n then n else defaultPageSize
                 | None => defaultPageSize
                 end
               else defaultPageSize in
  let limit := if maxPageSize <? limit then maxPageSize else limit in
  (limit, decodeCursor (r_Query r "cursor")).

Definition paginate {T} (items : list T) (limit offset : Z) : list T * option string :=
  let n := Z.of_nat (length items) in
  let offset := if offset <? 0 then 0 else offset in
  if n <=? offset then ([], None)
  else
    let end_ := i64 (offset + limit) in
    let end_ := if n <? end_ then n else end_ in
    (drop (Z.to_nat offset) (take (Z.to_nat end_) items), if end_ <? n then Some (encodeCursor end_) else None).

Definition writeList (items : list row) (limit offset : Z) : list wact :=
  let '(page, next) := paginate items limit offset in
  writeJSON StatusOK (PList page next (match next with Some _ => true | None => false end)).

(** A client following next_cursor from page to page, [fuel] pages at most. *)
Fixpoint walk {T} (fuel : nat) (items : list T) (limit : Z) (cursor : string) : list (list T) :=
  match fuel with
  | O => []
  | S fuel =>
      let '(page, next) := paginate items limit (decodeCursor cursor) in
      page :: match next with Some c => walk fuel items limit c | None => [] end
  end.

(** ** Submission errors (inference.go) *)

Definition statusForError (err : error) : Z * string * string :=
  if errors_Is err ErrUnauthenticated then (StatusUnauthorized, "unauthorized", "invalid api key")
  else if errors_Is err ErrForbidden then (StatusForbidden, "forbidden", "not permitted to use this model")
  else if errors_Is err ErrQuotaExceeded then (StatusTooManyRequests, "rate_limit_exceeded", "quota exceeded")
  else if errors_Is err ErrQueueFull then (StatusServiceUnavailable, "unavailable", "no capacity available")
  else if errors_Is err ErrModelUnavailable
  then (StatusServiceUnavailable, "unavailable", "no worker available for the requested model")
  else if errors_Is err ErrShuttingDown then (StatusServiceUnavailable, "unavailable", "server shutting down")
  else if errors_Is err ErrInvalidJob then (StatusBadRequest, "invalid_request_error", "invalid request")
  else (StatusInternalServerError, "internal_error", "internal error").

Definition usageFrom (prompt completion total : Z) : usage :=
  let sum := u64 (prompt + completion) in
  if sum =? 0 then mkUsage 0 total total
  else mkUsage prompt completion (if total <? sum then sum else total).

Definition finishReasonOrStop (r : string) : string := if String.eqb r "" then "stop" else r.

(** ** Lemmas *)

Lemma decode_encode n : 0 <= n <= maxInt64 → decodeCursor (encodeCursor n) = n.
Proof.
  intros Hn. unfold decodeCursor, encodeCursor.
  rewrite b64_decode_encode by auto with agpu. rewrite string_of_bytes_of, Atoi_Itoa by zlia.
  destruct (String.eqb_spec (b64_encode (bytes_of_string (Itoa n))) "") as [E|_].
  - exfalso. pose proof (b64_decode_encode (bytes_of_string (Itoa n)) (bytes_of_string_ok _)) as H.
    rewrite E in H. vm_compute (b64_decode "") in H. injection H as H. symmetry in H.
    unfold Itoa in H. destruct (Z.ltb_spec n 0); [lia|].
    destruct (itoa_loop_head 20 n "") as (d & r & _ & Ei); [lia|]. by rewrite Ei in H.
  - destruct (Z.ltb_spec n 0); [lia|done].
Qed.

(** One page in the good range. *)
Lemma paginate_page {T} (items : list T) limit offset :
  0 <= offset < Z.of_nat (length items) → 0 < limit <= maxPageSize → Z.of_nat (length items) <= maxInt64 - maxPageSize →
  let end_ := Z.min (offset + limit) (Z.of_nat (length items)) in
  paginate items limit offset =
    (drop (Z.to_nat offset) (take (Z.to_nat end_) items),
     if end_ <? Z.of_nat (length items) then Some (encodeCursor end_) else None).
Proof.
  intros Ho Hl Hn. unfold paginate. unfold maxPageSize, maxInt64 in *.
  destruct (Z.ltb_spec offset 0); [lia|]. destruct (Z.leb_spec (Z.of_nat (length items)) offset); [lia|].
  rewrite i64_id by (unfold is_i64; lia).
  destruct (Z.ltb_spec (Z.of_nat (length items)) (offset + limit)).
  - by rewrite Z.min_r by lia.
  - by rewrite Z.min_l by lia.
Qed.

Lemma walk_concat {T} (items : list T) limit fuel offset :
  0 < limit <= maxPageSize → Z.of_nat (length items) <= maxInt64 - maxPageSize →
  0 <= offset <= Z.of_nat (length items) → (length items - Z.to_nat offset < fuel)%nat →
  let pages := walk fuel items limit (encodeCursor offset) in
  concat pages = drop (Z.to_nat offset) items ∧
  Forall (λ p, Z.of_nat (length p) <= limit) pages ∧ (length pages ≤ S (length items - Z.to_nat offset))%nat.
Proof.
  intros Hl Hn. revert offset. induction fuel as [|fuel IH]; intros offset Ho Hf; [lia|].
  cbn [walk]. rewrite decode_encode by (unfold maxPageSize, maxInt64 in *; lia).
  destruct (Z.eq_dec offset (Z.of_nat (length items))) as [->|Hne].
  { unfold paginate. destruct (Z.ltb_spec (Z.of_nat (length items)) 0); [lia|].
    rewrite Z.leb_refl. simpl. rewrite drop_ge by lia.
    split_and!; [done|constructor; [simpl; lia|constructor]|lia]. }
  rewrite paginate_page by lia. cbv zeta. set (e := Z.min _ _). assert (offset < e <= Z.of_nat (length items)) by lia.
  assert (length (drop (Z.to_nat offset) (take (Z.to_nat e) items)) = Z.to_nat (e - offset)) as Hlen.
  { rewrite length_drop, length_take. lia. }
  destruct (Z.ltb_spec e (Z.of_nat (length items))).
  - destruct (IH e ltac:(lia) ltac:(lia)) as (Hc & Hp & Hk). cbn [concat length].
    rewrite Hc. split_and!; [|constructor; [lia|done]|lia].
    rewrite <- (take_drop (Z.to_nat e) items) at 3. rewrite drop_app_le by (rewrite length_take; lia). done.
  - cbn [concat length]. rewrite app_nil_r. rewrite take_ge by lia.
    split_and!; [done|constructor; [|constructor]|lia]. rewrite take_ge in Hlen by lia. lia.
Qed.

Lemma parsePageParams_range r : 0 < (parsePageParams r).1 <= maxPageSize ∧ 0 <= (parsePageParams r).2.
Proof.
  unfold parsePageParams, decodeCursor, maxPageSize, defaultPageSize. cbn [fst snd].
  split; repeat case_match; zbool; lia.
Qed.

(** Following the cursors lists everything once. Whatever ?limit= a client
    sends, starting without a cursor and passing each next_cursor on, the pages
    put together are exactly the items in their order, none skipped or repeated;
    every page is within the requested (clamped) size, and the walk ends after at
    most one page per item and one more.  A garbage cursor is the first page. *)
Theorem pages_cover_list {T} (items : list T) r :
  Z.of_nat (length items) <= maxInt64 - maxPageSize →
  let limit := (parsePageParams r).1 in
  let pages := walk (S (length items)) items limit "" in
  concat pages = items ∧ Forall (λ p, Z.of_nat (length p) <= limit <= 200) pages ∧
  (length pages ≤ S (length items))%nat ∧
  (∀ fuel, (length items < fuel)%nat → concat (walk fuel items limit "") = items) ∧
  (∀ cursor, b64_decode cursor = None → paginate items limit (decodeCursor cursor) = paginate items limit 0).
Proof.
  intros Hn limit pages. destruct (parsePageParams_range r) as [Hl _].
  assert (∀ fuel, walk fuel items limit "" = walk fuel items limit (encodeCursor 0)) as Hw.
  { intros [|fuel]; [done|]. cbn [walk]. by rewrite decode_encode by (unfold maxInt64; lia). }
  assert (∀ fuel, (length items < fuel)%nat → concat (walk fuel items limit "") = items) as Hc.
  { intros fuel Hf. rewrite Hw. destruct (walk_concat items limit fuel 0) as (H & _); [done|done|lia|lia|]. done. }
  unfold pages. rewrite Hw.
  destruct (walk_concat items limit (S (length items)) 0) as (H1 & H2 & H3); [done|done|lia|lia|].
  split_and!; [done| |by rewrite Nat.sub_0_r in H3|done|].
  - eapply Forall_impl; [exact H2|]. simpl. unfold limit, maxPageSize in *. lia.
  - intros cursor Hb. unfold decodeCursor. rewrite Hb. by case_match.
Qed.

Definition demo_request (limit : string) : Request :=
  mkRequest "GET" "/v1/admin/keys" (λ _, "") (λ k, if String.eqb k "limit" then limit else "") (λ _, "") (λ _, None).

Lemma pages_cover_list_witness :
  walk 4 [1; 2; 3] 2 "" = [[1; 2]; [3]] ∧ (parsePageParams (demo_request "2")).1 = 2 ∧
  concat (walk 4 [1; 2; 3] (parsePageParams (demo_request "2")).1 "") = [1; 2; 3].
Proof.
  split_and!; [vm_compute; reflexivity..|].
  refine (proj1 (pages_cover_list [1; 2; 3] (demo_request "2") _)). vm_compute. discriminate.
Defined.

(** The error contract of the inference surface. *)
Lemma statusForError_range e :
  (statusForError e).1.1 ∈ [401; 403; 429; 503; 400; 500].
Proof. unfold statusForError. repeat case_match; set_solver. Qed.
