(* ===== verification/Routes.v ===== *)
(** * Routes.v: the routing of the public API (internal/httpapi/httpapi.go)

    The patterns of [Handler] and [registerAdminRoutes] with the gate each is
    wrapped in, and the way net/http's ServeMux picks one for a request: literal
    segments before wildcards before a trailing multi-segment wildcard, with
    backtracking, on the escaped path; a path that is not clean, or that lacks the
    slash of a subtree, is redirected.  The console's own routes start with the
    segment admin, which no pattern here does. *)

From Stdlib Require Import Ascii.
From S2P Require Import Prelude Errors GoTime GoFloat GoStrings GoConv GoText GoHeap GoSort GoUrl Types Store Authz AuditLog Http.
Open Scope Z_scope.

(** ** Patterns *)

Inductive segment := Lit (s : string) | Wild (name : string) | Multi (name : string).
(** The empty method is any method. *)
Record pattern := mkPattern { pt_method : string; pt_segments : list segment }.

(** One segment of a pattern: [{name...}], [{name}], else a literal. *)
Definition parse_segment (s : string) : segment :=
  let n := String.length s in
  if String.prefix "{" s then
    if String.eqb (String.substring (n - 4) 4 s) "...}" then Multi (String.substring 1 (n - 5) s)
    else Wild (String.substring 1 (n - 2) s)
  else Lit s.
(** The patterns here have no host and no trailing slash. *)
Definition parse_pattern (s : string) : pattern :=
  let '(m, path) := default ("", s) (cut " " s) in
  mkPattern m (map parse_segment (tl (Split path slash))).

Example pattern_1 :
  parse_pattern "DELETE /v1/admin/workers/{id}/models/{model...}" =
    mkPattern "DELETE" [Lit "v1"; Lit "admin"; Lit "workers"; Wild "id"; Lit "models"; Multi "model"] ∧
  parse_pattern "/models" = mkPattern "" [Lit "models"].
Proof. done. Qed.

(** ** The route table *)

Inductive endpoint :=
| EpOpenAIModels | EpOpenAIModelRetrieve | EpModels | EpChatCompletions | EpCompletions
| EpCreateSession | EpGetSession | EpDeleteSession
| EpAdminCreateKey | EpAdminListKeys | EpAdminGetKey | EpAdminRevokeKey | EpAdminRotateKey | EpAdminSetPermissions
| EpAdminSetQuota | EpAdminGetQuota | EpAdminRoles | EpAdminListWorkers | EpAdminGetWorker | EpAdminGPUs
| EpAdminDrainWorker | EpAdminPullModel | EpAdminUnloadModel | EpAdminStats | EpAdminTelemetry | EpAdminUsage
| EpAdminAudit | EpAdminLogs | EpAdminLogsStream | EpAdminGetConfig | EpAdminPutConfig.
#[export] Instance endpoint_eq_dec : EqDecision endpoint.
Proof. solve_decision. Defined.

Inductive gate := Auth | AuthLimited | Scope (scope : string) | ScopeWrite (scope : string).
Record route := mkRoute { rt_pattern : pattern; rt_gate : gate; rt_endpoint : endpoint }.

Definition handler_routes : list (string * gate * endpoint) :=
  [("/v1/models", Auth, EpOpenAIModels);
   ("GET /v1/models/{model...}", Auth, EpOpenAIModelRetrieve);
   ("/models", Auth, EpModels);
   ("/v1/chat/completions", AuthLimited, EpChatCompletions);
   ("/v1/completions", AuthLimited, EpCompletions);
   ("POST /v1/sessions", Auth, EpCreateSession);
   ("GET /v1/sessions/{id}", Auth, EpGetSession);
   ("DELETE /v1/sessions/{id}", Auth, EpDeleteSession)].
Definition registerAdminRoutes : list (string * gate * endpoint) :=
  [("POST /v1/admin/keys", ScopeWrite ScopeKeysWrite, EpAdminCreateKey);
   ("GET /v1/admin/keys", Scope ScopeKeysRead, EpAdminListKeys);
   ("GET /v1/admin/keys/{id}", Scope ScopeKeysRead, EpAdminGetKey);
   ("DELETE /v1/admin/keys/{id}", ScopeWrite ScopeKeysWrite, EpAdminRevokeKey);
   ("POST /v1/admin/keys/{id}/rotate", ScopeWrite ScopeKeysWrite, EpAdminRotateKey);
   ("PUT /v1/admin/keys/{id}/permissions", ScopeWrite ScopeKeysWrite, EpAdminSetPermissions);
   ("PUT /v1/admin/keys/{id}/quota", ScopeWrite ScopeKeysWrite, EpAdminSetQuota);
   ("GET /v1/admin/keys/{id}/quota", Scope ScopeKeysRead, EpAdminGetQuota);
   ("GET /v1/admin/roles", Scope ScopeKeysRead, EpAdminRoles);
   ("GET /v1/admin/workers", Scope ScopeWorkersRead, EpAdminListWorkers);
   ("GET /v1/admin/workers/{id}", Scope ScopeWorkersRead, EpAdminGetWorker);
   ("GET /v1/admin/gpus", Scope ScopeWorkersRead, EpAdminGPUs);
   ("POST /v1/admin/workers/{id}/drain", ScopeWrite ScopeWorkersWrite, EpAdminDrainWorker);
   ("POST /v1/admin/workers/{id}/models", ScopeWrite ScopeModelsWrite, EpAdminPullModel);
   ("DELETE /v1/admin/workers/{id}/models/{model...}", ScopeWrite ScopeModelsWrite, EpAdminUnloadModel);
   ("GET /v1/admin/stats", Scope ScopeTelemetryRead, EpAdminStats);
   ("GET /v1/admin/telemetry", Scope ScopeTelemetryRead, EpAdminTelemetry);
   ("GET /v1/admin/usage", Scope ScopeTelemetryRead, EpAdminUsage);
   ("GET /v1/admin/audit", Scope ScopeAuditRead, EpAdminAudit);
   ("GET /v1/admin/logs", Scope ScopeLogsRead, EpAdminLogs);
   ("GET /v1/admin/logs/stream", Scope ScopeLogsRead, EpAdminLogsStream);
   ("GET /v1/admin/config", Scope ScopeConfigRead, EpAdminGetConfig);
   ("PUT /v1/admin/config", ScopeWrite ScopeConfigWrite, EpAdminPutConfig)].
Definition api_routes : list route :=
  map (λ '(p, g, e), mkRoute (parse_pattern p) g e) (handler_routes ++ registerAdminRoutes).

(** ** The match (net/http, routing tree) *)

(** A node of the tree: the patterns that share the path so far, each with the
    segments it still wants. *)
Definition node : Type := list (list segment * route).
Definition lit_child (s : string) (n : node) : node :=
  omap (λ '(segs, r), match segs with Lit x :: segs => if String.eqb x s then Some (segs, r) else None | _ => None end) n.
Definition wild_child (n : node) : node :=
  omap (λ '(segs, r), match segs with Wild _ :: segs => Some (segs, r) | _ => None end) n.
Definition multi_child (n : node) : option route :=
  head (omap (λ '(segs, r), match segs with [Multi _] => Some r | _ => None end) n).
Definition leaf (n : node) : option route :=
  head (omap (λ '(segs, r), match segs with [] => Some r | _ => None end) n).

(** An invalid escape is left as it is. *)
Definition pathUnescape (s : string) : string := default s (PathUnescape s).

(** [path] is the escaped path after its first slash, split at the slashes; a last
    empty segment is a trailing slash, which no wildcard of one segment matches. *)
Fixpoint matchPath (path : list string) (n : node) (matches : list string) : option (route * list string) :=
  match path with
  | [] => (λ r, (r, matches)) <$> leaf n
  | seg :: rest =>
      let u := pathUnescape seg in
      let multi := (λ r, (r, matches ++ [pathUnescape (Join path "/")])) <$> multi_child n in
      let trailing := String.eqb seg "" in
      match (if trailing then None else match lit_child u n with [] => None | n => matchPath rest n matches end) with
      | Some res => Some res
      | None =>
          match (if trailing then None else match wild_child n with [] => None | n => matchPath rest n (matches ++ [u]) end) with
          | Some res => Some res
          | None => multi
          end
      end
  end.

Definition root (method : string) : node :=
  omap (λ r, if String.eqb (pt_method (rt_pattern r)) method then Some (pt_segments (rt_pattern r), r) else None) api_routes.
(** The node of the method, for HEAD then that of GET, then that of any method. *)
Definition tree_match (method path : string) : option (route * list string) :=
  let segs := tl (Split path slash) in
  match matchPath segs (root method) [] with
  | Some res => Some res
  | None =>
      match (if String.eqb method "HEAD" then matchPath segs (root "GET") [] else None) with
      | Some res => Some res
      | None => matchPath segs (root "") []
      end
  end.

Definition ends_in_slash (p : string) : bool := String.eqb (List.last (Split p slash) "") "" && negb (String.eqb p "").
Definition cleanPath (p : string) : string :=
  if String.eqb p "" then "/"
  else
    let p := if String.prefix "/" p then p else "/" +:+ p in
    let np := Clean p in
    if ends_in_slash p && negb (String.eqb np "/") then np +:+ "/" else np.

Definition exactMatch (m : option (route * list string)) (path : string) : bool :=
  match m with
  | None => false
  | Some (r, _) =>
      match List.last (pt_segments (rt_pattern r)) (Lit "") with
      | Multi _ => ends_in_slash path && (length (pt_segments (rt_pattern r)) =? length (tl (Split path slash)))%nat
      | _ => true
      end
  end.

Inductive routed := Routed (r : route) (values : list (string * string)) | Redirect | Unrouted.

(** The names a pattern binds, in order. *)
Definition names (p : pattern) : list string :=
  omap (λ s, match s with Lit _ => None | Wild n | Multi n => Some n end) (pt_segments p).

Definition findHandler (method escapedPath : string) : routed :=
  let path := cleanPath escapedPath in
  let n := tree_match method path in
  if negb (exactMatch n path) && negb (ends_in_slash path) && exactMatch (tree_match method (path +:+ "/")) (path +:+ "/")
  then Redirect
  else if negb (String.eqb path escapedPath) then Redirect
  else match n with
       | Some (r, vs) => Routed r (zip (names (rt_pattern r)) vs)
       | None => Unrouted
       end.

(** The request line: the path up to the first question mark, then the query. *)
Definition split_target (target : string) : string * string := default (target, "") (cut "?" target).
Definition route_target (method target : string) : routed := findHandler method (split_target target).1.

Example route_1 :
  match route_target "DELETE" "/v1/admin/workers/gpu%2F1/models/library/llama3:8b" with
  | Routed r vs => (rt_endpoint r, vs) = (EpAdminUnloadModel, [("id", "gpu/1"); ("model", "library/llama3:8b")])
  | _ => False
  end ∧ route_target "GET" "/v1/admin/keys/../config" = Redirect ∧ route_target "POST" "/v1/admin/keys/k1" = Unrouted ∧
  match route_target "GET" "/v1/models?x=1" with Routed r vs => (rt_endpoint r, vs) = (EpOpenAIModels, []) | _ => False end.
Proof. vm_compute. done. Qed.

(** ** Routing clean paths *)

(** A segment that cleaning keeps. *)
Record plain (s : string) : Prop := {
  pl_nonempty : s ≠ ""; pl_dot : s ≠ "."; pl_dots : s ≠ ".."; pl_sep : no_sep slash s }.
Definition path_of (segs : list string) : string := "/" +:+ Join segs "/".

Lemma plain_clean segs acc : Forall plain segs → fold_left (clean_elem true) segs acc = reverse segs ++ acc.
Proof.
  intros H. revert acc. induction H as [|s segs [H1 H2 H3 _] _ IH]; intros acc; [done|]. cbn [fold_left]. rewrite IH.
  unfold clean_elem. rewrite (proj2 (String.eqb_neq _ _) H1), (proj2 (String.eqb_neq _ _) H2), (proj2 (String.eqb_neq _ _) H3).
  cbn [orb]. by rewrite reverse_cons, <- app_assoc.
Qed.

Lemma split_path segs : segs ≠ [] → Forall (no_sep slash) segs → Split (path_of segs) slash = "" :: segs.
Proof.
  intros Hne Hs. change (path_of segs) with ("" +:+ String slash (Join segs "/")). rewrite Split_app by done.
  f_equal. by apply Split_Join.
Qed.
Lemma plain_seps segs : Forall plain segs → Forall (no_sep slash) segs.
Proof. intros H. eapply Forall_impl; [exact H|]. by intros s []. Qed.

Lemma last_plain segs d : segs ≠ [] → Forall plain segs → List.last segs d ≠ "".
Proof.
  intros Hne H. destruct (exists_last Hne) as (l & x & ->). rewrite List.last_last.
  apply Forall_app in H as [_ H]. by inversion H as [|?? [? _ _ _]].
Qed.
Lemma ends_plain segs : segs ≠ [] → Forall plain segs → ends_in_slash (path_of segs) = false.
Proof.
  intros Hne H. unfold ends_in_slash. rewrite split_path by auto using plain_seps.
  destruct segs as [|s segs]; [done|]. change (List.last ("" :: s :: segs) "") with (List.last (s :: segs) "").
  by rewrite (proj2 (String.eqb_neq _ _) (last_plain (s :: segs) "" ltac:(done) H)).
Qed.

Lemma prefix_path segs : String.prefix "/" (path_of segs) = true.
Proof. unfold path_of. by destruct (Join segs "/"). Qed.

Lemma cleanPath_plain segs : segs ≠ [] → Forall plain segs → cleanPath (path_of segs) = path_of segs.
Proof.
  intros Hne H. unfold cleanPath. change (String.eqb (path_of segs) "") with false. cbv iota.
  rewrite prefix_path. cbv iota zeta. rewrite ends_plain by done. cbn [andb].
  unfold Clean. rewrite prefix_path. cbv zeta. rewrite split_path by auto using plain_seps.
  cbn [fold_left]. change (clean_elem true [] "") with (@nil string). rewrite plain_clean by done.
  by rewrite app_nil_r, reverse_involutive.
Qed.

Lemma find_plain m segs r vs :
  segs ≠ [] → Forall plain segs → matchPath segs (root m) [] = Some (r, vs) →
  exactMatch (Some (r, vs)) (path_of segs) = true ∨
    exactMatch (tree_match m (path_of segs +:+ "/")) (path_of segs +:+ "/") = false →
  findHandler m (path_of segs) = Routed r (zip (names (rt_pattern r)) vs).
Proof.
  intros Hne H Hm He. unfold findHandler. rewrite cleanPath_plain by done. cbv zeta.
  assert (tree_match m (path_of segs) = Some (r, vs)) as ->.
  { unfold tree_match. rewrite split_path by auto using plain_seps. cbn [tl]. by rewrite Hm. }
  rewrite String.eqb_refl. cbn [negb]. destruct He as [-> | ->]; [done|]. by rewrite andb_false_r.
Qed.

Lemma match_lit seg rest n n' ms res :
  seg ≠ "" → lit_child (pathUnescape seg) n = n' → n' ≠ [] → matchPath rest n' ms = Some res →
  matchPath (seg :: rest) n ms = Some res.
Proof.
  intros H1 H2 H3 H4. cbn [matchPath]. rewrite (proj2 (String.eqb_neq _ _) H1), H2. destruct n' as [|x n']; [done|]. by rewrite H4.
Qed.
Lemma match_wild seg rest n n' ms res :
  seg ≠ "" → lit_child (pathUnescape seg) n = [] → wild_child n = n' → n' ≠ [] →
  matchPath rest n' (ms ++ [pathUnescape seg]) = Some res → matchPath (seg :: rest) n ms = Some res.
Proof.
  intros H1 H2 H3 H4 H5. cbn [matchPath]. rewrite (proj2 (String.eqb_neq _ _) H1), H2, H3. destruct n' as [|x n']; [done|]. by rewrite H5.
Qed.
Lemma match_multi seg rest n r ms :
  lit_child (pathUnescape seg) n = [] → wild_child n = [] → multi_child n = Some r →
  matchPath (seg :: rest) n ms = Some (r, ms ++ [pathUnescape (Join (seg :: rest) "/")]).
Proof. intros H1 H2 H3. cbn [matchPath]. rewrite H1, H2, H3. by destruct (String.eqb seg ""). Qed.

(** Follow a concrete pattern whose wildcards meet the segments of the path. *)
Ltac follow_route :=
  repeat first
    [ eapply match_lit; [discriminate|vm_compute; reflexivity|discriminate|]
    | eapply match_wild; [eassumption|reflexivity|vm_compute; reflexivity|discriminate|] ].
