(* ===== verification/History.v ===== *)
(** * History.v: internal/session, the bounded conversation history

    The cost of a turn, the caps, trimming and rejection, and the in-memory
    history store with its checkpoint.  Every exported method runs under the
    store's lock and is one state transformer.  Byte and token totals are Go
    [int]s that cannot overflow for histories that fit in memory; they are plain
    integers here. *)

From S2P Require Import Prelude Errors AtomicFile GoTime GoStrings Types.
Open Scope Z_scope.

Inductive OverflowPolicy := OverflowTrim | OverflowReject.
#[export] Instance OverflowPolicy_eq_dec : EqDecision OverflowPolicy.
Proof. solve_decision. Defined.

Definition OverflowPolicy_String (p : OverflowPolicy) : string :=
  match p with OverflowReject => "reject" | OverflowTrim => "trim" end.

Definition cloneMessage (m : Message) : Message :=
  mkMessage (Message_Role m) (Message_Content m) (Message_ToolCallID m) (Message_Name m)
    ([] ++ Message_ToolCalls m).
Definition cloneMessages (ms : list Message) : list Message := map cloneMessage ms.

Lemma cloneMessage_eq m : cloneMessage m = m.
Proof. by destruct m. Qed.
Lemma cloneMessages_eq ms : cloneMessages ms = ms.
Proof. induction ms as [|m ms IH]; simpl; [done|]. by rewrite IH, cloneMessage_eq. Qed.
#[export] Hint Rewrite cloneMessage_eq cloneMessages_eq : agpu_rw.

Definition turnBytes (m : Message) : Z :=
  let n := len (Message_Role m) + len (Message_Content m) + len (Message_ToolCallID m) + len (Message_Name m) in
  fold_left (λ n tc, n + (len (ToolCall_ID tc) + len (ToolCall_Type tc) +
                          len (ToolCall_FunctionName tc) + len (ToolCall_Arguments tc)))
    (Message_ToolCalls m) n.

Definition turnTokens (m : Message) : Z :=
  let n := Fields_count (Message_Content m) + Fields_count (Message_Name m) in
  fold_left (λ n tc, n + (Fields_count (ToolCall_FunctionName tc) + Fields_count (ToolCall_Arguments tc)))
    (Message_ToolCalls m) n.

(** ** The store *)

Record HistoryCaps := mkHistoryCaps {
  MaxTurns : Z; MaxBytes : Z; MaxTokens : Z; Policy : OverflowPolicy }.

Record MemoryHistoryStore := mkMHS {
  mhs_caps : HistoryCaps;
  mhs_history : gmap string (list Message) }.

Definition NewMemoryHistoryStoreWithPolicy (maxTurns maxBytes maxTokens : Z) (policy : OverflowPolicy)
    : MemoryHistoryStore :=
  mkMHS (mkHistoryCaps maxTurns maxBytes maxTokens policy) ∅.
Definition NewMemoryHistoryStore (maxTurns maxBytes : Z) : MemoryHistoryStore :=
  NewMemoryHistoryStoreWithPolicy maxTurns maxBytes 0 OverflowTrim.

Definition SetCaps (c : HistoryCaps) (m : MemoryHistoryStore) : MemoryHistoryStore :=
  mkMHS c (mhs_history m).
Definition Caps (m : MemoryHistoryStore) : HistoryCaps := mhs_caps m.

(** The range loops that sum a cost over the turns. *)
Definition total_cost (cost : Message → Z) (turns : list Message) : Z :=
  fold_left (λ total t, total + cost t) turns 0.

Definition exceedsCap (c : HistoryCaps) (turns : list Message) : bool :=
  if (0 <? MaxTurns c) && (MaxTurns c <? Z.of_nat (length turns)) then true
  else if (0 <? MaxBytes c) && (MaxBytes c <? total_cost turnBytes turns) then true
  else if (0 <? MaxTokens c) && (MaxTokens c <? total_cost turnTokens turns) then true
  else false.

(** [for total > cap && len(turns) > 1 { total -= cost(turns[0]); turns = turns[1:] }]. *)
Fixpoint drop_loop (cost : Message → Z) (cap total : Z) (turns : list Message) : list Message :=
  match turns with
  | x :: ((_ :: _) as rest) =>
      if cap <? total then drop_loop cost cap (total - cost x) rest else turns
  | _ => turns
  end.

Definition trim (c : HistoryCaps) (turns : list Message) : list Message :=
  let turns := if (0 <? MaxTurns c) && (MaxTurns c <? Z.of_nat (length turns))
               then lastn (Z.to_nat (MaxTurns c)) turns else turns in
  let turns := if 0 <? MaxBytes c
               then drop_loop turnBytes (MaxBytes c) (total_cost turnBytes turns) turns else turns in
  if 0 <? MaxTokens c
  then drop_loop turnTokens (MaxTokens c) (total_cost turnTokens turns) turns else turns.

(** [m.history[id]], nil when absent. *)
Definition mhs_get (m : MemoryHistoryStore) (id : string) : list Message :=
  default [] (mhs_history m !! id).
Definition mhs_put (m : MemoryHistoryStore) (id : string) (turns : list Message) : MemoryHistoryStore :=
  mkMHS (mhs_caps m) (<[id := turns]> (mhs_history m)).

Definition Append (sessionID : string) (turn : Message) (m : MemoryHistoryStore)
    : MemoryHistoryStore * option error :=
  let turns := mhs_get m sessionID ++ [cloneMessage turn] in
  if bool_decide (Policy (mhs_caps m) = OverflowReject) && exceedsCap (mhs_caps m) turns
  then (m, Some ErrSessionLimitExceeded)
  else (mhs_put m sessionID (trim (mhs_caps m) turns), None).

Definition AppendBatch (sessionID : string) (turns : list Message) (m : MemoryHistoryStore)
    : MemoryHistoryStore * option error :=
  if (length turns =? 0)%nat then (m, None)
  else
    let combined := mhs_get m sessionID ++ cloneMessages turns in
    if bool_decide (Policy (mhs_caps m) = OverflowReject) && exceedsCap (mhs_caps m) combined
    then (m, Some ErrSessionLimitExceeded)
    else (mhs_put m sessionID (trim (mhs_caps m) combined), None).

Definition WouldReject (sessionID : string) (turns : list Message) (m : MemoryHistoryStore) : bool :=
  if negb (bool_decide (Policy (mhs_caps m) = OverflowReject)) || (length turns =? 0)%nat then false
  else exceedsCap (mhs_caps m) ([] ++ mhs_get m sessionID ++ turns).

Definition History_Get (sessionID : string) (m : MemoryHistoryStore) : list Message :=
  cloneMessages (mhs_get m sessionID).

Definition DeleteBySession (sessionID : string) (m : MemoryHistoryStore) : MemoryHistoryStore :=
  mkMHS (mhs_caps m) (delete sessionID (mhs_history m)).

(** ** Costs are non-negative and additive *)

Lemma fold_add_nonneg {A} (f : A → Z) l n :
  (∀ a, 0 <= f a) → 0 <= n → 0 <= fold_left (λ n a, n + f a) l n.
Proof.
  intros Hf. revert n. induction l as [|a l IH]; simpl; intros n Hn; [done|].
  apply IH. specialize (Hf a). lia.
Qed.

Lemma len_nonneg s : 0 <= len s.
Proof. unfold len. lia. Qed.

Lemma turnBytes_nonneg m : 0 <= turnBytes m.
Proof.
  unfold turnBytes. apply fold_add_nonneg.
  - intros tc. pose proof (len_nonneg (ToolCall_ID tc)). pose proof (len_nonneg (ToolCall_Type tc)).
    pose proof (len_nonneg (ToolCall_FunctionName tc)). pose proof (len_nonneg (ToolCall_Arguments tc)). lia.
  - pose proof (len_nonneg (Message_Role m)). pose proof (len_nonneg (Message_Content m)).
    pose proof (len_nonneg (Message_ToolCallID m)). pose proof (len_nonneg (Message_Name m)). lia.
Qed.

Lemma turnTokens_nonneg m : 0 <= turnTokens m.
Proof.
  unfold turnTokens. apply fold_add_nonneg.
  - intros tc. unfold Fields_count. pose proof (fields_loop_nonneg false 0 (bytes_of_string (ToolCall_FunctionName tc))).
    pose proof (fields_loop_nonneg false 0 (bytes_of_string (ToolCall_Arguments tc))). lia.
  - unfold Fields_count. pose proof (fields_loop_nonneg false 0 (bytes_of_string (Message_Content m))).
    pose proof (fields_loop_nonneg false 0 (bytes_of_string (Message_Name m))). lia.
Qed.

Lemma fold_add_acc {A} (f : A → Z) l n :
  fold_left (λ n a, n + f a) l n = n + fold_left (λ n a, n + f a) l 0.
Proof.
  revert n. induction l as [|a l IH]; cbn [fold_left]; intros n; [lia|].
  rewrite IH, (IH (0 + f a)). lia.
Qed.

Lemma total_cost_cons cost x l : total_cost cost (x :: l) = cost x + total_cost cost l.
Proof. unfold total_cost. cbn [fold_left]. rewrite fold_add_acc. lia. Qed.

Lemma total_cost_app cost l1 l2 : total_cost cost (l1 ++ l2) = total_cost cost l1 + total_cost cost l2.
Proof. induction l1 as [|x l IH]; simpl; [done|]. rewrite !total_cost_cons, IH. lia. Qed.

Lemma total_cost_nonneg cost l : (∀ m, 0 <= cost m) → 0 <= total_cost cost l.
Proof. intros H. unfold total_cost. by apply fold_add_nonneg. Qed.

(** ** Trimming keeps the longest suffix within the caps *)

(** A downward-closed bound on histories: what a cap asks of a suffix. *)
Record cap_ok (ok : list Message → Prop) : Prop := {
  cap_suffix : ∀ l l', l' `suffix_of` l → ok l → ok l' }.

(** [r] is the longest non-empty suffix of [l] that is [ok], or the last turn
    alone when none is. *)
Record longest (ok : list Message → Prop) (l r : list Message) : Prop := {
  lg_suffix : r `suffix_of` l;
  lg_nonempty : l ≠ [] → r ≠ [];
  lg_ok : ok r ∨ (length r ≤ 1)%nat;
  lg_max : ∀ r', r' `suffix_of` l → ok r' → (length r' ≤ length r)%nat ∨ r' = [] }.

Lemma suffix_length_le {A} (l1 l2 l : list A) :
  l1 `suffix_of` l → l2 `suffix_of` l → (length l1 ≤ length l2)%nat → l1 `suffix_of` l2.
Proof.
  intros [k1 E1] [k2 E2] Hlen. subst. exists (drop (length k2) k1).
  assert (length k2 ≤ length k1)%nat as Hk.
  { apply (f_equal length) in E2. rewrite !length_app in E2. lia. }
  rewrite <- (take_drop (length k2) k1), <- app_assoc in E2.
  apply app_inj_1 in E2 as [_ E2]; [done|]. rewrite length_take. lia.
Qed.

(** The result is determined by the bound. *)
Lemma longest_unique ok l r1 r2 :
  longest ok l r1 → longest ok l r2 → r1 = r2.
Proof.
  intros [S1 N1 O1 M1] [S2 N2 O2 M2]. destruct l as [|x l].
  { apply suffix_nil_inv in S1, S2. congruence. }
  specialize (N1 ltac:(done)). specialize (N2 ltac:(done)).
  apply (suffix_eq_length _ _ _ S1 S2).
  assert (0 < length r1)%nat by (destruct r1; simpl; [done|lia]).
  assert (0 < length r2)%nat by (destruct r2; simpl; [done|lia]).
  destruct O1 as [O1|O1], O2 as [O2|O2]; [| | |lia].
  - destruct (M1 _ S2 O2), (M2 _ S1 O1); try done. lia.
  - destruct (M2 _ S1 O1); [lia|done].
  - destruct (M1 _ S2 O2); [lia|done].
Qed.

(** Trimming for a second bound a history already trimmed for a first one. *)
Lemma longest_and ok1 ok2 l r s :
  cap_ok ok1 → longest ok1 l r → longest ok2 r s → longest (λ x, ok1 x ∧ ok2 x) l s.
Proof.
  intros [C1] [S1 N1 O1 M1] [S2 N2 O2 M2]. split.
  - by trans r.
  - intros Hl. apply N2, N1, Hl.
  - destruct O2 as [O2|O2]; [|by right]. destruct O1 as [O1|O1].
    + left. split; [by apply (C1 r)|done].
    + right. apply suffix_length in S2. lia.
  - intros r' Hs [H1 H2]. destruct (M1 _ Hs H1) as [Hlen| ->]; [|by right].
    apply M2; [|done]. by apply (suffix_length_le _ _ l).
Qed.

(** What is within the bound is kept whole. *)
Lemma longest_all ok l : ok l → longest ok l l.
Proof. intros H. split; try done; [by left|]. intros r' Hs%suffix_length _. by left. Qed.

Definition within (cost : Message → Z) (cap : Z) (l : list Message) : Prop := total_cost cost l <= cap.

Lemma within_cap cost cap : (∀ m, 0 <= cost m) → cap_ok (within cost cap).
Proof.
  intros Hc. split. intros l l' [k ->] H. unfold within in *. rewrite total_cost_app in H.
  pose proof (total_cost_nonneg cost k Hc). lia.
Qed.

Lemma drop_loop_longest cost cap l :
  (∀ m, 0 <= cost m) → 0 < cap → longest (within cost cap) l (drop_loop cost cap (total_cost cost l) l).
Proof.
  intros Hc Hcap. induction l as [|x l IH].
  { apply longest_all. unfold within, total_cost. simpl. lia. }
  destruct l as [|y l]; cbn [drop_loop].
  { split; try done; [by right|]. intros r' H _. left. by apply suffix_length in H. }
  destruct (Z.ltb_spec cap (total_cost cost (x :: y :: l))) as [Hlt|Hge].
  - replace (total_cost cost (x :: y :: l) - cost x) with (total_cost cost (y :: l))
      by (rewrite (total_cost_cons cost x); lia).
    destruct IH as [S N O M]. split; try done.
    + by apply suffix_cons_r.
    + intros _. by apply N.
    + intros [|z r'] Hs Hok; [by right|]. apply suffix_cons_inv in Hs as [E|Hs]; [|by apply M].
      exfalso. unfold within in Hok. rewrite E in Hok. lia.
  - split; try done; [by left|]. intros r' H _. left. by apply suffix_length in H.
Qed.

Definition few (n : Z) (l : list Message) : Prop := Z.of_nat (length l) <= n.

Lemma few_cap n : cap_ok (few n).
Proof. split. intros l l' H%suffix_length. unfold few. lia. Qed.

(** What the configured caps ask; a non-positive cap asks nothing. *)
Definition turns_ok (c : HistoryCaps) (l : list Message) : Prop := 0 < MaxTurns c → few (MaxTurns c) l.
Definition bytes_ok (c : HistoryCaps) (l : list Message) : Prop := 0 < MaxBytes c → within turnBytes (MaxBytes c) l.
Definition tokens_ok (c : HistoryCaps) (l : list Message) : Prop := 0 < MaxTokens c → within turnTokens (MaxTokens c) l.
Definition caps_ok (c : HistoryCaps) (l : list Message) : Prop :=
  (turns_ok c l ∧ bytes_ok c l) ∧ tokens_ok c l.

Lemma imp_cap (P : Prop) ok : cap_ok ok → cap_ok (λ l, P → ok l).
Proof. intros [C]. split. intros l l' H Hok HP. apply (C l); auto. Qed.

Lemma and_cap ok1 ok2 : cap_ok ok1 → cap_ok ok2 → cap_ok (λ l, ok1 l ∧ ok2 l).
Proof. intros [C1] [C2]. split. intros l l' H [? ?]. split; [by apply (C1 l)|by apply (C2 l)]. Qed.

Lemma caps_cap c : cap_ok (caps_ok c).
Proof.
  repeat apply and_cap; apply imp_cap; auto using few_cap, within_cap, turnBytes_nonneg, turnTokens_nonneg.
Qed.

Lemma longest_ext ok ok' l r : (∀ x, ok x ↔ ok' x) → longest ok l r → longest ok' l r.
Proof. intros E [S N O M]. split; try done; [naive_solver|]. intros r' ? ?. apply M; naive_solver. Qed.

Lemma turns_longest c l :
  longest (turns_ok c) l
    (if (0 <? MaxTurns c) && (MaxTurns c <? Z.of_nat (length l))
     then lastn (Z.to_nat (MaxTurns c)) l else l).
Proof.
  unfold turns_ok. destruct (_ && _) eqn:E; zbool.
  - assert (length (lastn (Z.to_nat (MaxTurns c)) l) = Z.to_nat (MaxTurns c)) as Hlen.
    { rewrite length_lastn. lia. }
    split.
    + apply lastn_suffix.
    + intros _ Hn. rewrite Hn in Hlen. simpl in Hlen. lia.
    + left. intros _. unfold few. lia.
    + intros r' Hs Hok. left. unfold few in Hok. rewrite Hlen. lia.
  - apply longest_all. intros. lia.
  - apply longest_all. intros. unfold few. lia.
Qed.

Lemma cost_longest cost cap l :
  (∀ m, 0 <= cost m) →
  longest (λ x, 0 < cap → within cost cap x) l
    (if 0 <? cap then drop_loop cost cap (total_cost cost l) l else l).
Proof.
  intros Hc. destruct (Z.ltb_spec 0 cap) as [Hlt|Hge].
  - eapply longest_ext; [|by apply drop_loop_longest]. simpl. naive_solver.
  - apply longest_all. lia.
Qed.

(** [trim] computes the longest suffix within all the caps. *)
Lemma trim_longest c l : longest (caps_ok c) l (trim c l).
Proof.
  unfold trim, caps_ok. eapply longest_and; [|eapply longest_and|].
  - apply and_cap; apply imp_cap; auto using few_cap, within_cap, turnBytes_nonneg.
  - apply imp_cap, few_cap.
  - apply turns_longest.
  - apply cost_longest, turnBytes_nonneg.
  - apply cost_longest, turnTokens_nonneg.
Qed.

Lemma trim_nil c : trim c [] = [].
Proof. apply suffix_nil_inv, (lg_suffix _ _ _ (trim_longest c [])). Qed.

(** Trimming early forgets nothing that a later trim would keep. *)
Lemma trim_app c l l' : l' ≠ [] → trim c (trim c l ++ l') = trim c (l ++ l').
Proof.
  intros Hne. apply (longest_unique (caps_ok c) (l ++ l')); [|apply trim_longest].
  pose proof (trim_longest c l) as [S1 N1 O1 M1]. pose proof (caps_cap c) as [C].
  pose proof (trim_longest c (trim c l ++ l')) as [S2 N2 O2 M2]. split.
  - etrans; [exact S2|]. destruct S1 as [k E]. exists k. rewrite E at 1. by rewrite app_assoc.
  - intros _. apply N2. by destruct (trim c l), l'.
  - done.
  - intros r' Hs Hok. apply M2; [|done].
    assert (l' `suffix_of` l ++ l') as Hl' by by apply suffix_app_r.
    destruct (decide (length r' ≤ length l')%nat) as [Hle|Hgt].
    + apply (suffix_length_le _ _ _ Hs Hl') in Hle. etrans; [exact Hle|]. by apply suffix_app_r.
    + assert (l' `suffix_of` r') as [r0 ->] by (apply (suffix_length_le _ _ (l ++ l')); [done..|lia]).
      assert (r0 `suffix_of` l) as Hr0.
      { destruct Hs as [k E]. exists k. rewrite app_assoc in E. by apply app_inj_2 in E as [? _]. }
      assert (caps_ok c r0) as Hok0.
      { destruct Hok as [[Ht Hb] Hk]. unfold caps_ok, turns_ok, bytes_ok, tokens_ok, few, within in *.
        rewrite length_app in Ht. rewrite total_cost_app in Hb, Hk.
        pose proof (total_cost_nonneg turnBytes l' turnBytes_nonneg).
        pose proof (total_cost_nonneg turnTokens l' turnTokens_nonneg).
        split_and!; intros Hpos; [specialize (Ht Hpos)|specialize (Hb Hpos)|specialize (Hk Hpos)]; lia. }
      destruct (M1 _ Hr0 Hok0) as [Hlen| ->].
      * apply (suffix_length_le _ _ _ Hr0 S1) in Hlen as [k ->]. exists k. by rewrite <- app_assoc.
      * simpl. by apply suffix_app_r.
Qed.

Lemma exceedsCap_spec c l : exceedsCap c l = false ↔ caps_ok c l.
Proof.
  unfold exceedsCap, caps_ok, turns_ok, bytes_ok, tokens_ok, few, within.
  destruct (Z.ltb_spec 0 (MaxTurns c)), (Z.ltb_spec (MaxTurns c) (Z.of_nat (length l))),
    (Z.ltb_spec 0 (MaxBytes c)), (Z.ltb_spec (MaxBytes c) (total_cost turnBytes l)),
    (Z.ltb_spec 0 (MaxTokens c)), (Z.ltb_spec (MaxTokens c) (total_cost turnTokens l));
    simpl; split; intros; try done; lia.
Qed.

(** A history within the caps is not trimmed. *)
Lemma trim_fits c l : caps_ok c l → trim c l = l.
Proof.
  intros H. apply (longest_unique (caps_ok c) l); [apply trim_longest|by apply longest_all].
Qed.

(** ** Checkpoint files

    [writeCheckpoint] and [readCheckpoint], for the value type [V] of either store.
    The file operations are those of AtomicFile. *)
Section checkpoint.
Context {V : Type} (marshal : V → result bytes) (unmarshal : bytes → result V).

Definition writeCheckpoint (path : string) (io : checkpointIO) (v : V) (disk : option bytes)
    : option bytes * option error :=
  if String.eqb path "" then (disk, Some (ENew "session: empty checkpoint path"))
  else write_json "session" marshal io v disk.

(** [Ok None] is the [(false, nil)] of a missing or empty file. *)
Definition readCheckpoint (path : string) (readErr : option error) (disk : option bytes)
    : result (option V) := read_json "session" path unmarshal readErr disk.

(** A failed write leaves the file, a successful one reads back. *)
Lemma write_read path io v disk disk' e :
  json_roundtrip marshal unmarshal → writeCheckpoint path io v disk = (disk', e) →
  match e with
  | Some _ => disk' = disk
  | None => ∀ path', readCheckpoint path' None disk' = Ok (Some v)
  end.
Proof.
  intros Hj. unfold writeCheckpoint. case_match; [by intros [= <- <-]|]. intros Hw.
  destruct e; [|intros path'; unfold readCheckpoint].
  - by apply (write_json_disk "session" marshal) in Hw.
  - by apply (write_json_read "session" path' marshal unmarshal) in Hw.
Qed.
End checkpoint.

Section history_checkpoint.
Context (marshal : gmap string (list Message) → result bytes)
        (unmarshal : bytes → result (gmap string (list Message))).

Definition History_Checkpoint (path : string) (io : checkpointIO) (m : MemoryHistoryStore)
    (disk : option bytes) : option bytes * option error :=
  writeCheckpoint marshal path io (cloneMessages <$> mhs_history m) disk.

(** [keep = None] is the nil map, which keeps everything. *)
Definition wanted (keep : option (gset string)) (id : string) : bool :=
  match keep with None => true | Some ks => bool_decide (id ∈ ks) end.

Definition History_LoadCheckpoint (path : string) (readErr : option error) (disk : option bytes)
    (keep : option (gset string)) (m : MemoryHistoryStore) : MemoryHistoryStore * option error :=
  match readCheckpoint unmarshal path readErr disk with
  | Err e => (m, Some e)
  | Ok None => (mkMHS (mhs_caps m) ∅, None)
  | Ok (Some loaded) =>
      (mkMHS (mhs_caps m)
         (trim (mhs_caps m) <$>
            filter (λ p, wanted keep p.1 = true) loaded), None)
  end.
End history_checkpoint.

(** ** Lemmas on appends *)

Lemma put_put m id x y : mhs_put (mhs_put m id x) id y = mhs_put m id y.
Proof. unfold mhs_put; simpl. by rewrite insert_insert_eq. Qed.

Lemma get_put m id x : mhs_get (mhs_put m id x) id = x.
Proof. unfold mhs_get, mhs_put; simpl. by rewrite lookup_insert_eq. Qed.

Lemma Append_trim id t m :
  Policy (mhs_caps m) = OverflowTrim →
  Append id t m = (mhs_put m id (trim (mhs_caps m) (mhs_get m id ++ [t])), None).
Proof.
  intros Hp. unfold Append. rewrite Hp, cloneMessage_eq. by rewrite bool_decide_eq_false_2.
Qed.

Lemma appends_trim id turns m :
  Policy (mhs_caps m) = OverflowTrim → turns ≠ [] →
  fold_left (λ m t, (Append id t m).1) turns m =
  mhs_put m id (trim (mhs_caps m) (mhs_get m id ++ turns)).
Proof.
  intros Hp Hne. revert m Hp Hne. induction turns as [|t turns IH]; intros m Hp Hne; [done|].
  cbn [fold_left]. rewrite Append_trim by done. simpl.
  destruct turns as [|t' turns]; [done|]. rewrite IH by done.
  rewrite put_put, get_put. f_equal. simpl.
  rewrite trim_app by done. by rewrite <- app_assoc.
Qed.

(** What a stored history satisfies: the caps, or a single oversized turn under
    the trim policy. *)
Definition bounded (c : HistoryCaps) (l : list Message) : Prop :=
  caps_ok c l ∨ (Policy c = OverflowTrim ∧ (length l ≤ 1)%nat).
Definition store_bounded (m : MemoryHistoryStore) : Prop :=
  map_Forall (λ _, bounded (mhs_caps m)) (mhs_history m).

Lemma caps_ok_nil c : caps_ok c [].
Proof. unfold caps_ok, turns_ok, bytes_ok, tokens_ok, few, within, total_cost. simpl. lia. Qed.

Lemma trim_bounded c l :
  (Policy c = OverflowReject → caps_ok c l) → bounded c (trim c l).
Proof.
  intros H. destruct (trim_longest c l) as [_ _ O _]. unfold bounded.
  destruct (Policy c) eqn:E; [destruct O; naive_solver|].
  left. rewrite trim_fits; by apply H.
Qed.

Lemma AppendBatch_bounded id turns m : store_bounded m → store_bounded (AppendBatch id turns m).1.
Proof.
  intros Hb. unfold AppendBatch. destruct (_ =? _)%nat; [done|].
  destruct (_ && _) eqn:E; [done|]. apply map_Forall_insert_2; [|done]. simpl. apply trim_bounded.
  intros Hp. rewrite Hp in E. by apply exceedsCap_spec.
Qed.

Lemma Append_batch1 id t m : Append id t m = AppendBatch id [t] m.
Proof. done. Qed.

(** ** Properties *)

(** Trim drops oldest turns only, and as few as possible. Its result is a
    suffix of the history that is non-empty when the history is and either meets
    the turn, byte and token caps or is the last turn alone; and every non-empty
    suffix that meets the caps is no longer than it. *)
Theorem trim_keeps_longest_suffix c turns :
  trim c turns `suffix_of` turns ∧ (turns ≠ [] → trim c turns ≠ []) ∧
  (caps_ok c (trim c turns) ∨ (length (trim c turns) ≤ 1)%nat) ∧
  (∀ s, s `suffix_of` turns → s ≠ [] → caps_ok c s → (length s ≤ length (trim c turns))%nat).
Proof.
  destruct (trim_longest c turns) as [S N O M]. split_and!; try done.
  intros s Hs Hne Hok. by destruct (M s Hs Hok).
Qed.

(** Under the trim policy, appending a batch is the same as appending its
    turns one at a time: both end in the same store, and neither ever fails. *)
Theorem append_batch_is_appends id turns m :
  Policy (mhs_caps m) = OverflowTrim →
  AppendBatch id turns m = (fold_left (λ m t, (Append id t m).1) turns m, None).
Proof.
  intros Hp. unfold AppendBatch. destruct turns as [|t turns]; [done|]. cbn [length Nat.eqb].
  rewrite cloneMessages_eq, Hp. rewrite bool_decide_eq_false_2 by done. cbn [andb].
  by rewrite appends_trim.
Qed.

Definition ex_msg (s : string) : Message := mkMessage "user" s "" "" [].
Lemma append_batch_is_appends_witness :
  (AppendBatch "s" [ex_msg "hello"; ex_msg "there"; ex_msg "world"] (NewMemoryHistoryStore 2 0)).1 =
  fold_left (λ m t, (Append "s" t m).1) [ex_msg "hello"; ex_msg "there"; ex_msg "world"]
    (NewMemoryHistoryStore 2 0).
Proof. rewrite append_batch_is_appends; reflexivity. Defined.

(** Under the reject policy a batch is stored whole or not at all. If the
    history with the batch would exceed a cap the call fails with
    ErrSessionLimitExceeded and nothing changes; otherwise exactly the batch is
    appended, untrimmed, to that session and no other.  WouldReject, the check
    made before running inference, predicts the outcome on either policy. *)
Theorem append_batch_atomic id turns m :
  (WouldReject id turns m = true ↔ (AppendBatch id turns m).2 = Some ErrSessionLimitExceeded) ∧
  ((AppendBatch id turns m).2 = None ∨ (AppendBatch id turns m).2 = Some ErrSessionLimitExceeded) ∧
  ((AppendBatch id turns m).2 ≠ None → (AppendBatch id turns m).1 = m) ∧
  (Policy (mhs_caps m) = OverflowReject → turns ≠ [] → (AppendBatch id turns m).2 = None →
     caps_ok (mhs_caps m) (mhs_get m id ++ turns) ∧
     (AppendBatch id turns m).1 = mhs_put m id (mhs_get m id ++ turns)).
Proof.
  unfold AppendBatch, WouldReject. rewrite cloneMessages_eq. simpl.
  destruct turns as [|t turns]; simpl; [rewrite orb_true_r; naive_solver|]. rewrite orb_false_r.
  destruct (Policy (mhs_caps m)) eqn:Hp.
  - rewrite bool_decide_eq_false_2 by done. simpl. naive_solver.
  - rewrite bool_decide_eq_true_2 by done. simpl.
    destruct (exceedsCap _ _) eqn:E; simpl; [naive_solver|].
    apply exceedsCap_spec in E. rewrite trim_fits by done. naive_solver.
Qed.

(** The caps hold of everything stored. Starting from an empty store, after any
    sequence of batch appends (an append is a batch of one) and deletions every
    stored history meets the configured caps, except that under the trim policy
    a single oversized turn may stand alone. *)
Theorem history_bounded maxTurns maxBytes maxTokens policy
    (ops : list (string * option (list Message))) :
  let m := fold_left (λ m '(id, o), match o with
                      | Some turns => (AppendBatch id turns m).1
                      | None => DeleteBySession id m end) ops
             (NewMemoryHistoryStoreWithPolicy maxTurns maxBytes maxTokens policy) in
  store_bounded m.
Proof.
  cbv zeta. assert (store_bounded (NewMemoryHistoryStoreWithPolicy maxTurns maxBytes maxTokens policy))
    as H by apply map_Forall_empty.
  revert H. generalize (NewMemoryHistoryStoreWithPolicy maxTurns maxBytes maxTokens policy) as m.
  induction ops as [|[id [turns|]] ops IH]; intros m Hb; simpl; [done|by apply IH, AppendBatch_bounded|].
  apply IH. unfold store_bounded, DeleteBySession; simpl. by apply map_Forall_delete.
Qed.
