(* ===== verification/Session.v ===== *)
(** * Session.v: internal/session, sessions and their manager

    [SessionStore] is the interface the manager is verified against, with the
    in-memory store as its instance; a failed store operation changes nothing.
    The history side is the store of History.v.  Each manager method is one
    state transformer: the fields of [Manager] are those of the Go struct with
    the locks dropped, the clock reads as arguments, crypto/rand as the oracle
    [rand], and the calls of the end-of-session observer collected in [m_ended].

    The methods that read a session and write it back ([Resume], [Bind],
    [AppendTurn], [AppendTurns]) hold no lock in between; they are composed of a
    read and a write so that module [Races] can interleave them. *)

From S2P Require Import Prelude Errors AtomicFile GoTime GoStrings Types History.
Open Scope Z_scope.

Inductive Status := StatusActive | StatusExpired.
#[export] Instance Status_eq_dec : EqDecision Status.
Proof. solve_decision. Defined.

Record Session := mkSession {
  Session_ID : string;
  Session_OwnerKeyID : string;
  Session_Model : string;
  Session_BoundWorkerID : string;
  Session_CreatedAt : Time;
  Session_LastActiveAt : Time;
  Session_TTL : Duration;
  Session_Status : Status }.
#[export] Instance Session_eq_dec : EqDecision Session.
Proof. solve_decision. Defined.

Definition expired (s : Session) (now : Time) : bool :=
  if Session_TTL s <=? 0 then false
  else Session_TTL s <? Sub now (Session_LastActiveAt s).

(** ** The session store interface *)

Notation sessmap := (gmap string Session).

Class SessionStore (S : Type) := {
  Put : Session → S → S * option error;
  Get : string → S → result Session;
  List : S → list Session;
  Delete : string → S → S * option error;
  sessions_of : S → sessmap;
  Put_spec s st : let '(st', e) := Put s st in
    sessions_of st' = match e with None => <[Session_ID s := s]> (sessions_of st) | Some _ => sessions_of st end;
  Get_spec id st : Get id st =
    match sessions_of st !! id with Some s => Ok s | None => Err ErrSessionNotFound end;
  List_spec st : List st ≡ₚ (map_to_list (sessions_of st)).*2;
  Delete_spec id st : let '(st', e) := Delete id st in
    sessions_of st' = match e with None => delete id (sessions_of st) | Some _ => sessions_of st end }.

Section memory_store.
(** The order in which Go's [range] visits the session map. *)
Context (range_sessions : sessmap → list Session)
        (range_spec : ∀ m, range_sessions m ≡ₚ (map_to_list m).*2).

Record MemorySessionStore := mkMSS { mss_sessions : sessmap }.
Definition NewMemorySessionStore : MemorySessionStore := mkMSS ∅.

Definition MSS_Put (s : Session) (m : MemorySessionStore) : MemorySessionStore * option error :=
  (mkMSS (<[Session_ID s := s]> (mss_sessions m)), None).
Definition MSS_Get (id : string) (m : MemorySessionStore) : result Session :=
  match mss_sessions m !! id with None => Err ErrSessionNotFound | Some s => Ok s end.
Definition MSS_List (m : MemorySessionStore) : list Session := range_sessions (mss_sessions m).
Definition MSS_Delete (id : string) (m : MemorySessionStore) : MemorySessionStore * option error :=
  (mkMSS (delete id (mss_sessions m)), None).

#[export] Program Instance MSS_SessionStore : SessionStore MemorySessionStore := {|
  Put := MSS_Put; Get := MSS_Get; List := MSS_List; Delete := MSS_Delete;
  sessions_of := mss_sessions |}.
Next Obligation. done. Qed.
Next Obligation. intros id st. unfold MSS_Get. by destruct (_ !! _). Qed.
Next Obligation. intros st. apply range_spec. Qed.
Next Obligation. done. Qed.

(** *** Checkpoint of the sessions *)
Context (marshal : list Session → result bytes) (unmarshal : bytes → result (list Session)).

Definition MSS_Checkpoint (path : string) (io : checkpointIO) (m : MemorySessionStore)
    (disk : option bytes) : option bytes * option error :=
  writeCheckpoint marshal path io (range_sessions (mss_sessions m)) disk.

(** The loop of [LoadCheckpoint] over the loaded records. *)
Definition load_step (now : Time) (acc : sessmap * list string) (s : Session) : sessmap * list string :=
  if expired s now then (acc.1, acc.2 ++ [Session_ID s])
  else (<[Session_ID s := s]> acc.1, acc.2).

Definition MSS_LoadCheckpoint (path : string) (readErr : option error) (disk : option bytes) (now : Time)
    (m : MemorySessionStore) : MemorySessionStore * result (list string) :=
  match readCheckpoint unmarshal path readErr disk with
  | Err e => (m, Err e)
  | Ok None => (mkMSS ∅, Ok [])
  | Ok (Some loaded) =>
      let '(sessions, dropped) := fold_left (load_step now) loaded (∅, []) in
      (mkMSS sessions, Ok dropped)
  end.
End memory_store.

(** ** The manager *)

Definition idPrefix : string := "sess_".
Definition DefaultTTL : Duration := 30 * Minute.
Definition EndReasonDeleted : string := "deleted".
Definition EndReasonExpired : string := "expired".

Record SessionEndStats := mkEndStats {
  End_Turns : Z; End_Duration : Duration; End_Reason : string }.

Record Manager (S : Type) := mkManager {
  m_sessions : S;
  m_history : MemoryHistoryStore;
  m_ttl : Duration;
  m_counts : gmap string Z;
  m_maxPerKey : Z;
  m_obs : bool;                       (* an observer is registered *)
  m_ended : list SessionEndStats;     (* its calls so far *)
  m_sweepInterval : Duration;
  m_reads : nat }.                    (* entropy reads so far *)
Arguments mkManager {_} _ _ _ _ _ _ _ _ _.
Arguments m_sessions {_} _.
Arguments m_history {_} _.
Arguments m_ttl {_} _.
Arguments m_counts {_} _.
Arguments m_maxPerKey {_} _.
Arguments m_obs {_} _.
Arguments m_ended {_} _.
Arguments m_sweepInterval {_} _.
Arguments m_reads {_} _.

Section manager.
Context {S : Type} `{!SessionStore S}.
(** The i-th entropy read, of the given length. *)
Context (rand : nat → nat → result bytes).
Notation manager := (Manager S).

Definition set_sessions (st : S) (m : manager) : manager :=
  mkManager st (m_history m) (m_ttl m) (m_counts m) (m_maxPerKey m) (m_obs m) (m_ended m)
    (m_sweepInterval m) (m_reads m).
Definition set_history (h : MemoryHistoryStore) (m : manager) : manager :=
  mkManager (m_sessions m) h (m_ttl m) (m_counts m) (m_maxPerKey m) (m_obs m) (m_ended m)
    (m_sweepInterval m) (m_reads m).
Definition set_counts (c : gmap string Z) (m : manager) : manager :=
  mkManager (m_sessions m) (m_history m) (m_ttl m) c (m_maxPerKey m) (m_obs m) (m_ended m)
    (m_sweepInterval m) (m_reads m).

(** [m.counts[owner]]. *)
Definition count_of (m : manager) (owner : string) : Z := default 0 (m_counts m !! owner).

(** *** Options and construction *)

Definition WithSessionObserver (m : manager) : manager :=
  mkManager (m_sessions m) (m_history m) (m_ttl m) (m_counts m) (m_maxPerKey m) true (m_ended m)
    (m_sweepInterval m) (m_reads m).
Definition WithTTL (d : Duration) (m : manager) : manager :=
  if 0 <? d then
    mkManager (m_sessions m) (m_history m) d (m_counts m) (m_maxPerKey m) (m_obs m) (m_ended m)
      (m_sweepInterval m) (m_reads m)
  else m.
Definition WithSweepInterval (d : Duration) (m : manager) : manager :=
  if 0 <? d then
    mkManager (m_sessions m) (m_history m) (m_ttl m) (m_counts m) (m_maxPerKey m) (m_obs m) (m_ended m)
      d (m_reads m)
  else m.
Definition WithMaxSessionsPerKey (n : Z) (m : manager) : manager :=
  if 0 <? n then
    mkManager (m_sessions m) (m_history m) (m_ttl m) (m_counts m) n (m_obs m) (m_ended m)
      (m_sweepInterval m) (m_reads m)
  else m.

Definition reconcileCounts (m : manager) : manager :=
  set_counts
    (fold_left (λ c s, <[Session_OwnerKeyID s := default 0 (c !! Session_OwnerKeyID s) + 1]> c)
       (List (m_sessions m)) ∅) m.

Definition NewManager (sessions : S) (history : MemoryHistoryStore) (opts : list (manager → manager))
    : manager :=
  let m := mkManager sessions history DefaultTTL ∅ 0 false [] 0 0 in
  let m := fold_left (λ m o, o m) opts m in
  let m := reconcileCounts m in
  if m_sweepInterval m <=? 0 then
    let d := Z.quot (m_ttl m) 4 in
    let d := if d <=? 0 then Z.quot DefaultTTL 4 else d in
    mkManager (m_sessions m) (m_history m) (m_ttl m) (m_counts m) (m_maxPerKey m) (m_obs m)
      (m_ended m) d (m_reads m)
  else m.

(** *** Slots *)

Definition reserveSlot (owner : string) (m : manager) : manager * bool :=
  if (0 <? m_maxPerKey m) && (m_maxPerKey m <=? count_of m owner) then (m, false)
  else (set_counts (<[owner := count_of m owner + 1]> (m_counts m)) m, true).

Definition releaseSlot (owner : string) (m : manager) : manager :=
  let n := count_of m owner in
  if 1 <? n then set_counts (<[owner := n - 1]> (m_counts m)) m
  else set_counts (delete owner (m_counts m)) m.

Definition activeCount (owner : string) (m : manager) : Z := count_of m owner.
Definition ActiveSessions (m : manager) : Z :=
  map_fold (λ _ n total, total + n) 0 (m_counts m).

(** *** Runtime setters *)

Definition SetTTL (d : Duration) (m : manager) : manager :=
  if d <=? 0 then m else
    mkManager (m_sessions m) (m_history m) d (m_counts m) (m_maxPerKey m) (m_obs m) (m_ended m)
      (m_sweepInterval m) (m_reads m).
Definition TTL (m : manager) : Duration := m_ttl m.
Definition SetMaxSessionsPerKey (n : Z) (m : manager) : manager :=
  let n := if n <? 0 then 0 else n in
  mkManager (m_sessions m) (m_history m) (m_ttl m) (m_counts m) n (m_obs m) (m_ended m)
    (m_sweepInterval m) (m_reads m).

(** *** Lifecycle *)

Definition newID (m : manager) : manager * result string :=
  (mkManager (m_sessions m) (m_history m) (m_ttl m) (m_counts m) (m_maxPerKey m) (m_obs m) (m_ended m)
     (m_sweepInterval m) (Datatypes.S (m_reads m)),
   match rand (m_reads m) 16 with
   | Err e => Err (EWrap "session: generate id" e)
   | Ok b => Ok (idPrefix +:+ hex_EncodeToString b)
   end).

Definition Create (now : Time) (owner model : string) (m : manager) : manager * result Session :=
  if String.eqb owner "" then (m, Err (ENew "session: empty owner key id"))
  else
    match reserveSlot owner m with
    | (m, false) => (m, Err ErrSessionLimitExceeded)
    | (m, true) =>
        match newID m with
        | (m, Err e) => (releaseSlot owner m, Err e)
        | (m, Ok id) =>
            let s := mkSession id owner model "" now now (m_ttl m) StatusActive in
            match Put s (m_sessions m) with
            | (st, Some e) => (releaseSlot owner (set_sessions st m), Err e)
            | (st, None) => (set_sessions st m, Ok s)
            end
        end
    end.

Definition ownedActive (id owner : string) (now : Time) (m : manager) : result Session :=
  match Get id (m_sessions m) with
  | Err _ => Err ErrSessionNotFound
  | Ok s =>
      if negb (String.eqb (Session_OwnerKeyID s) owner) then Err ErrSessionNotFound
      else if expired s now then Err ErrSessionNotFound
      else Ok s
  end.

(** The writes of [Resume], [Bind] and [AppendTurns], after their read. *)
Definition touch (now : Time) (s : Session) : Session :=
  mkSession (Session_ID s) (Session_OwnerKeyID s) (Session_Model s) (Session_BoundWorkerID s)
    (Session_CreatedAt s) now (Session_TTL s) (Session_Status s).
Definition activate (now : Time) (s : Session) : Session :=
  mkSession (Session_ID s) (Session_OwnerKeyID s) (Session_Model s) (Session_BoundWorkerID s)
    (Session_CreatedAt s) now (Session_TTL s) StatusActive.
Definition bind_to (worker : string) (now : Time) (s : Session) : Session :=
  mkSession (Session_ID s) (Session_OwnerKeyID s) (Session_Model s) worker
    (Session_CreatedAt s) now (Session_TTL s) (Session_Status s).

Definition put_back (s : Session) (m : manager) : manager * result Session :=
  match Put s (m_sessions m) with
  | (st, Some e) => (set_sessions st m, Err e)
  | (st, None) => (set_sessions st m, Ok s)
  end.

Definition Resume (now : Time) (id owner : string) (m : manager) : manager * result Session :=
  match ownedActive id owner now m with
  | Err e => (m, Err e)
  | Ok s => put_back (activate now s) m
  end.

Definition Manager_Get (now : Time) (id owner : string) (m : manager) : result Session :=
  ownedActive id owner now m.

Definition Bind (now : Time) (id owner worker : string) (m : manager) : manager * result Session :=
  match ownedActive id owner now m with
  | Err e => (m, Err e)
  | Ok s => put_back (bind_to worker now s) m
  end.

Definition append_with (app : MemoryHistoryStore → MemoryHistoryStore * option error)
    (now : Time) (s : Session) (m : manager) : manager * option error :=
  match app (m_history m) with
  | (h, Some e) => (set_history h m, Some e)
  | (h, None) =>
      let m := set_history h m in
      let '(st, e) := Put (touch now s) (m_sessions m) in
      (set_sessions st m, e)
  end.

Definition AppendTurn (now : Time) (id owner : string) (turn : Message) (m : manager)
    : manager * option error :=
  match ownedActive id owner now m with
  | Err e => (m, Some e)
  | Ok s => append_with (Append id turn) now s m
  end.

Definition AppendTurns (now : Time) (id owner : string) (turns : list Message) (m : manager)
    : manager * option error :=
  match ownedActive id owner now m with
  | Err e => (m, Some e)
  | Ok s => append_with (AppendBatch id turns) now s m
  end.

Definition CheckAppendable (now : Time) (id owner : string) (turns : list Message) (m : manager)
    : option error :=
  match ownedActive id owner now m with
  | Err e => Some e
  | Ok _ => if WouldReject id turns (m_history m) then Some ErrSessionLimitExceeded else None
  end.

Definition Manager_History (now : Time) (id owner : string) (m : manager) : result (list Message) :=
  match ownedActive id owner now m with
  | Err e => Err e
  | Ok _ => Ok (History_Get id (m_history m))
  end.

(** *** Ending a session *)

Definition endStats (now : Time) (id : string) (s : Session) (reason : string) (m : manager)
    : option SessionEndStats :=
  if negb (m_obs m) then None
  else
    let turns := Z.of_nat (length (History_Get id (m_history m))) in
    let dur := Sub now (Session_CreatedAt s) in
    Some (mkEndStats turns (if dur <? 0 then 0 else dur) reason).

Definition observe (e : option SessionEndStats) (m : manager) : manager :=
  match e with
  | None => m
  | Some e =>
      mkManager (m_sessions m) (m_history m) (m_ttl m) (m_counts m) (m_maxPerKey m) (m_obs m)
        (m_ended m ++ [e]) (m_sweepInterval m) (m_reads m)
  end.

Definition deleteSession (now : Time) (id owner reason : string) (m : manager)
    : manager * option error :=
  match Get id (m_sessions m) with
  | Err _ => (m, None)
  | Ok s =>
      let e := endStats now id s reason m in
      match Delete id (m_sessions m) with
      | (st, Some err) => (set_sessions st m, Some err)
      | (st, None) =>
          let m := set_history (DeleteBySession id (m_history m)) (set_sessions st m) in
          (observe e (releaseSlot owner m), None)
      end
  end.

Definition Manager_Delete (now : Time) (id owner : string) (m : manager) : manager * option error :=
  match Get id (m_sessions m) with
  | Err _ => (m, Some ErrSessionNotFound)
  | Ok s =>
      if negb (String.eqb (Session_OwnerKeyID s) owner) then (m, Some ErrSessionNotFound)
      else deleteSession now id (Session_OwnerKeyID s) EndReasonDeleted m
  end.

(** The loop of [sweepExpired] over the listed snapshot; [clock] is the time each
    removal reads for its end statistics. *)
Definition sweep_step (now : Time) (clock : string → Time) (m : manager) (s : Session) : manager :=
  if negb (expired s now) then m
  else (deleteSession (clock (Session_ID s)) (Session_ID s) (Session_OwnerKeyID s) EndReasonExpired m).1.

Definition sweepExpired (now : Time) (clock : string → Time) (m : manager) : manager :=
  fold_left (sweep_step now clock) (List (m_sessions m)) m.
End manager.

(** ** The per-owner tally *)

(** The number of stored sessions of an owner. *)
Definition owned (owner : string) (m : sessmap) : Z :=
  Z.of_nat (length (filter (λ s, Session_OwnerKeyID s = owner) (map_to_list m).*2)).

Definition mine (owner : string) (s : Session) : Z :=
  if decide (Session_OwnerKeyID s = owner) then 1 else 0.

Lemma owned_empty o : owned o ∅ = 0.
Proof. unfold owned. by rewrite map_to_list_empty. Qed.

Lemma owned_nonneg o m : 0 <= owned o m.
Proof. unfold owned. lia. Qed.

Lemma owned_insert o m id s : m !! id = None → owned o (<[id := s]> m) = mine o s + owned o m.
Proof.
  intros H. unfold owned, mine. rewrite map_to_list_insert by done. rewrite fmap_cons, filter_cons.
  cbn [snd]. case_decide; cbn [length]; lia.
Qed.

Lemma owned_delete o m id s : m !! id = Some s → owned o m = mine o s + owned o (delete id m).
Proof.
  intros H. rewrite <- (insert_id m id s H) at 1. rewrite <- insert_delete_eq.
  apply owned_insert, lookup_delete_eq.
Qed.

Lemma owned_overwrite o m id s s' :
  m !! id = Some s → Session_OwnerKeyID s' = Session_OwnerKeyID s →
  owned o (<[id := s']> m) = owned o m.
Proof.
  intros H E. rewrite (owned_delete o m id s H), <- insert_delete_eq, owned_insert by apply lookup_delete_eq.
  unfold mine. by rewrite E.
Qed.

(** Every session is filed under its own id. *)
Definition skeyed (m : sessmap) : Prop := filed Session_ID m.

Lemma skeyed_insert m s : skeyed m → skeyed (<[Session_ID s := s]> m).
Proof. intros H id k'. rewrite lookup_insert_Some. naive_solver. Qed.
Lemma skeyed_delete m id : skeyed m → skeyed (delete id m).
Proof. intros H id' k'. rewrite lookup_delete_Some. naive_solver. Qed.
#[export] Hint Resolve skeyed_insert skeyed_delete : agpu.

Section invariant.
Context {S : Type} `{!SessionStore S} (rand : nat → nat → result bytes).
Notation manager := (Manager S).
Notation smap m := (sessions_of (m_sessions m)).

Definition minted_id (b : bytes) : string := idPrefix +:+ hex_EncodeToString b.

Record inv (m : manager) : Prop := {
  inv_keyed : skeyed (smap m);
  inv_tally : ∀ o, count_of m o = owned o (smap m);
  inv_hist : dom (mhs_history (m_history m)) ⊆ dom (smap m);
  inv_fresh : ∀ i b, (m_reads m ≤ i)%nat → rand i 16 = Ok b → smap m !! minted_id b = None }.

(** Session ids do not repeat. *)
Definition no_collision : Prop := ∀ i j b c,
  rand i 16 = Ok b → rand j 16 = Ok c → minted_id b = minted_id c → i = j.

Lemma count_set o o' c (m : manager) :
  count_of (set_counts (<[o := c]> (m_counts m)) m) o' = if decide (o' = o) then c else count_of m o'.
Proof.
  unfold count_of; simpl. case_decide as E; [subst; by rewrite lookup_insert_eq|].
  by rewrite lookup_insert_ne.
Qed.

Lemma releaseSlot_count o o' (m : manager) :
  0 <= count_of m o →
  count_of (releaseSlot o m) o' =
  if decide (o' = o) then Z.max 0 (count_of m o - 1) else count_of m o'.
Proof.
  intros H. unfold releaseSlot. destruct (Z.ltb_spec 1 (count_of m o)).
  - rewrite count_set. case_decide; [lia|done].
  - unfold count_of in *; simpl. case_decide as E.
    + subst. rewrite lookup_delete_eq. simpl. lia.
    + by rewrite lookup_delete_ne.
Qed.

(** Giving back a slot just taken restores every count. *)
Lemma releaseSlot_undo owner (m m' : manager) o :
  (∀ o, count_of m' o = (if decide (o = owner) then 1 else 0) + count_of m o) →
  0 <= count_of m owner → count_of (releaseSlot owner m') o = count_of m o.
Proof.
  intros Hc H0. pose proof (Hc owner) as Hco. rewrite decide_True in Hco by done.
  rewrite releaseSlot_count by lia. case_decide; subst; [lia|].
  rewrite Hc, decide_False by done. lia.
Qed.

Lemma releaseSlot_frame o (m : manager) :
  m_sessions (releaseSlot o m) = m_sessions m ∧ m_history (releaseSlot o m) = m_history m ∧
  m_reads (releaseSlot o m) = m_reads m ∧ m_maxPerKey (releaseSlot o m) = m_maxPerKey m.
Proof. unfold releaseSlot. by destruct (_ <? _). Qed.

Lemma observe_frame e (m : manager) :
  m_sessions (observe e m) = m_sessions m ∧ m_history (observe e m) = m_history m ∧
  m_reads (observe e m) = m_reads m ∧ m_counts (observe e m) = m_counts m ∧
  m_maxPerKey (observe e m) = m_maxPerKey m.
Proof. by destruct e. Qed.

Lemma ownedActive_spec id owner now (m : manager) s :
  skeyed (smap m) → ownedActive id owner now m = Ok s →
  smap m !! id = Some s ∧ Session_ID s = id ∧ Session_OwnerKeyID s = owner ∧ expired s now = false.
Proof.
  intros Hk. unfold ownedActive. rewrite Get_spec. destruct (smap m !! id) as [s'|] eqn:E; [|done].
  destruct (String.eqb_spec (Session_OwnerKeyID s') owner); simpl; [|done].
  destruct (expired s' now) eqn:Ee; [done|]. intros [= <-]. split_and!; auto.
Qed.

(** Writing back a session that is stored keeps the invariant. *)
Lemma put_inv (m : manager) s s' :
  inv m → smap m !! Session_ID s' = Some s → Session_OwnerKeyID s' = Session_OwnerKeyID s →
  inv (set_sessions (Put s' (m_sessions m)).1 m).
Proof.
  intros [Hk Ht Hh Hf] Hs Ho. pose proof (Put_spec s' (m_sessions m)) as Hp.
  destruct (Put s' (m_sessions m)) as [st e]; simpl in *.
  destruct e; split; simpl; rewrite ?Hp; try done; auto with agpu.
  - intros o. rewrite (owned_overwrite o _ _ s) by done. apply Ht.
  - rewrite dom_insert_L. set_solver.
  - intros i b Hi Hb. rewrite lookup_insert_ne; [by eapply Hf|].
    intros E. rewrite E, (Hf i b) in Hs by done. done.
Qed.

Lemma append_inv (m : manager) app now s :
  inv m → smap m !! Session_ID s = Some s →
  (dom (mhs_history (app (m_history m)).1) ⊆ {[Session_ID s]} ∪ dom (mhs_history (m_history m))) →
  inv (append_with app now s m).1.
Proof.
  intros Hinv Hs Happ. unfold append_with.
  assert (∀ h, dom (mhs_history h) ⊆ {[Session_ID s]} ∪ dom (mhs_history (m_history m)) →
    inv (set_history h m)) as Hset.
  { intros h Hd. destruct Hinv as [Hk Ht Hh Hf]. split; simpl; try done.
    apply elem_of_dom_2 in Hs. set_solver. }
  destruct (app (m_history m)) as [h [e|]]; simpl in *; [by apply Hset|].
  pose proof (put_inv (set_history h m) s (touch now s) (Hset h Happ) Hs eq_refl) as H.
  simpl in H. by destruct (Put _ _).
Qed.

Lemma AppendBatch_dom id turns h :
  dom (mhs_history (AppendBatch id turns h).1) ⊆ {[id]} ∪ dom (mhs_history h).
Proof.
  unfold AppendBatch. repeat case_match; simpl; try set_solver.
Qed.

Lemma deleteSession_inv now id owner reason (m : manager) s :
  inv m → smap m !! id = Some s → Session_OwnerKeyID s = owner →
  inv (deleteSession now id owner reason m).1 ∧
  ((deleteSession now id owner reason m).2 = None →
   smap (deleteSession now id owner reason m).1 = delete id (smap m) ∧
   m_history (deleteSession now id owner reason m).1 = DeleteBySession id (m_history m)).
Proof.
  intros Hinv Hs Ho. pose proof Hinv as [Hk Ht Hh Hf].
  unfold deleteSession. rewrite Get_spec, Hs.
  pose proof (Delete_spec id (m_sessions m)) as Hd. destruct (Delete id (m_sessions m)) as [st [e|]].
  { simpl. split; [|done]. split; simpl; rewrite ?Hd; done. }
  set (e := endStats _ _ _ _ _). set (m1 := set_history _ _).
  destruct (releaseSlot_frame owner m1) as (F1 & F2 & F3 & _).
  destruct (observe_frame e (releaseSlot owner m1)) as (O1 & O2 & O3 & O4 & _).
  cbn [fst snd]. split; [|intros _; by rewrite O1, O2, F1, F2].
  split.
  - rewrite O1, F1. simpl. rewrite Hd. auto with agpu.
  - intros o. unfold count_of at 1. rewrite O4, O1, F1. fold (count_of (releaseSlot owner m1) o).
    assert (∀ o, count_of m1 o = mine o s + owned o (delete id (smap m))) as Hc.
    { intros o'. change (count_of m1 o') with (count_of m o'). rewrite Ht. by apply owned_delete. }
    pose proof (owned_nonneg o (delete id (smap m))).
    pose proof (owned_nonneg owner (delete id (smap m))).
    rewrite releaseSlot_count, !Hc by (rewrite Hc; unfold mine; case_decide; lia).
    simpl. rewrite Hd. unfold mine. rewrite Ho. repeat case_decide; subst; try done; lia.
  - rewrite O1, O2, F1, F2. simpl. rewrite Hd, !dom_delete_L. set_solver.
  - rewrite O1, O3, F1, F3. simpl. rewrite Hd. intros i b Hi Hb. rewrite lookup_delete_None.
    right. by eapply Hf.
Qed.

Lemma Create_inv now owner model (m : manager) :
  no_collision → inv m → inv (Create rand now owner model m).1.
Proof.
  intros Hnc Hinv. unfold Create. destruct (String.eqb owner ""); [done|].
  unfold reserveSlot. destruct (_ && _); [done|].
  set (m1 := set_counts _ m). unfold newID.
  destruct (rand (m_reads m1) 16) as [b|e] eqn:Er.
  - set (m2 := mkManager _ _ _ _ _ _ _ _ _). set (s := mkSession _ _ _ _ _ _ _ _).
    pose proof Hinv as [Hk Ht Hh Hf].
    assert (smap m !! Session_ID s = None) as Hnone by (eapply Hf; [|exact Er]; done).
    pose proof (Put_spec s (m_sessions m2)) as Hp. destruct (Put s (m_sessions m2)) as [st [e|]].
    + (* the store failed: the slot is given back *)
      set (m3 := set_sessions st m2). destruct (releaseSlot_frame owner m3) as (F1 & F2 & F3 & _).
      assert (∀ o, count_of m3 o = (if decide (o = owner) then 1 else 0) + count_of m o) as Hc.
      { intros o. trans (count_of m1 o); [done|]. unfold m1. rewrite count_set.
        case_decide; subst; lia. }
      cbn [fst]. split; rewrite ?F1, ?F2, ?F3; simpl; rewrite ?Hp; try done.
      * intros o. rewrite (releaseSlot_undo owner m) by (done || (rewrite Ht; apply owned_nonneg)). apply Ht.
      * intros i b' Hi. apply Hf. lia.
    + simpl. split; simpl; rewrite ?Hp; auto with agpu.
      * intros o. trans (count_of m1 o); [done|]. unfold m1.
        rewrite count_set, (owned_insert o _ _ s) by done. unfold mine, s; simpl.
        rewrite <- !Ht. repeat case_decide; subst; try done; lia.
      * rewrite dom_insert_L. set_solver.
      * intros i b' Hi Hb'. rewrite lookup_insert_ne; [eapply Hf; [|exact Hb']; lia|].
        intros E. pose proof (Hnc _ _ _ _ Er Hb' E) as Hij. simpl in Hij. lia.
  - set (m2 := mkManager _ _ _ _ _ _ _ _ _). pose proof Hinv as [Hk Ht Hh Hf].
    destruct (releaseSlot_frame owner m2) as (F1 & F2 & F3 & _). cbn [fst].
    assert (∀ o, count_of m2 o = (if decide (o = owner) then 1 else 0) + count_of m o) as Hc.
    { intros o. trans (count_of m1 o); [done|]. unfold m1. rewrite count_set.
      case_decide; subst; lia. }
    split; rewrite ?F1, ?F2, ?F3; try done.
    + intros o. rewrite (releaseSlot_undo owner m) by (done || (rewrite Ht; apply owned_nonneg)). apply Ht.
    + intros i b' Hi. apply Hf. simpl in Hi. lia.
Qed.
End invariant.

(** ** Runs *)

Section runs.
Context {S : Type} `{!SessionStore S} (rand : nat → nat → result bytes).
Notation manager := (Manager S).
Notation smap m := (sessions_of (m_sessions m)).

Inductive mop :=
| MCreate (now : Time) (owner model : string)
| MResume (now : Time) (id owner : string)
| MBind (now : Time) (id owner worker : string)
| MAppendTurn (now : Time) (id owner : string) (turn : Message)
| MAppendTurns (now : Time) (id owner : string) (turns : list Message)
| MDelete (now : Time) (id owner : string)
| MSweep (now : Time) (clock : string → Time)
| MSetTTL (d : Duration)
| MSetMax (n : Z).

Definition mstep (o : mop) (m : manager) : manager :=
  match o with
  | MCreate now owner model => (Create rand now owner model m).1
  | MResume now id owner => (Resume now id owner m).1
  | MBind now id owner worker => (Bind now id owner worker m).1
  | MAppendTurn now id owner turn => (AppendTurn now id owner turn m).1
  | MAppendTurns now id owner turns => (AppendTurns now id owner turns m).1
  | MDelete now id owner => (Manager_Delete now id owner m).1
  | MSweep now clock => sweepExpired now clock m
  | MSetTTL d => SetTTL d m
  | MSetMax n => SetMaxSessionsPerKey n m
  end.
Fixpoint mexec (ops : list mop) (m : manager) : manager :=
  match ops with [] => m | o :: ops => mexec ops (mstep o m) end.

Lemma put_back_fst s (m : manager) : (put_back s m).1 = set_sessions (Put s (m_sessions m)).1 m.
Proof. unfold put_back. by destruct (Put s (m_sessions m)) as [st []]. Qed.

Lemma sweep_step_inv now clock (m : manager) s :
  inv rand m → smap m !! Session_ID s = Some s ∨ smap m !! Session_ID s = None →
  inv rand (sweep_step now clock m s).
Proof.
  intros Hinv Hs. unfold sweep_step. destruct (expired s now); simpl; [|done].
  destruct Hs as [Hs|Hs]; [by apply (deleteSession_inv rand _ _ _ _ _ s)|].
  unfold deleteSession. by rewrite Get_spec, Hs.
Qed.

(** A sweep step removes at most the session it looks at. *)
Lemma sweep_step_map now clock (m : manager) s :
  smap (sweep_step now clock m s) = smap m ∨
  smap (sweep_step now clock m s) = delete (Session_ID s) (smap m).
Proof.
  unfold sweep_step. destruct (expired s now); simpl; [|by left]. unfold deleteSession.
  destruct (Get _ _); [|by left].
  pose proof (Delete_spec (Session_ID s) (m_sessions m)) as Hd.
  destruct (Delete _ _) as [st [e|]]; simpl; [by left|right].
  set (e := endStats _ _ _ _ _). set (m1 := set_history _ _).
  destruct (observe_frame e (releaseSlot (Session_OwnerKeyID s) m1)) as (-> & _).
  by destruct (releaseSlot_frame (Session_OwnerKeyID s) m1) as (-> & _).
Qed.

Lemma list_stored (m : manager) s :
  skeyed (smap m) → s ∈ List (m_sessions m) → smap m !! Session_ID s = Some s.
Proof.
  intros Hk. rewrite List_spec. intros ((id & s') & -> & Hin)%list_elem_of_fmap.
  apply elem_of_map_to_list in Hin. simpl. by rewrite (Hk _ _ Hin).
Qed.

Lemma sweep_inv now clock (m : manager) : inv rand m → inv rand (sweepExpired now clock m).
Proof.
  intros Hinv. unfold sweepExpired.
  assert (∀ s, s ∈ List (m_sessions m) → smap m !! Session_ID s = Some s ∨ smap m !! Session_ID s = None) as Hl.
  { intros s Hs. left. apply list_stored; [apply Hinv|done]. }
  revert Hl. generalize (List (m_sessions m)) as l. intros l. revert m Hinv.
  induction l as [|s l IH]; intros m Hinv Hl; simpl; [done|]. apply IH.
  - apply sweep_step_inv; [done|]. apply Hl. set_solver.
  - intros s' Hs'. destruct (sweep_step_map now clock m s) as [-> | ->]; [apply Hl; set_solver|].
    destruct (decide (Session_ID s = Session_ID s')) as [->|Hne].
    + right. apply lookup_delete_eq.
    + rewrite lookup_delete_ne by done. apply Hl. set_solver.
Qed.

Lemma mstep_inv o (m : manager) : no_collision rand → inv rand m → inv rand (mstep o m).
Proof.
  intros Hnc Hinv. pose proof (inv_keyed _ _ Hinv) as Hk.
  destruct o as [now owner model|now id owner|now id owner worker|now id owner turn|now id owner turns
    |now id owner|now clock|d|n]; simpl.
  - by apply Create_inv.
  - unfold Resume. destruct (ownedActive _ _ _ _) as [s|] eqn:E; [|done].
    destruct (ownedActive_spec _ _ _ _ _ Hk E) as (Hs & Hid & _ & _).
    rewrite put_back_fst. apply (put_inv rand m s); [done|simpl; congruence|done].
  - unfold Bind. destruct (ownedActive _ _ _ _) as [s|] eqn:E; [|done].
    destruct (ownedActive_spec _ _ _ _ _ Hk E) as (Hs & Hid & _ & _).
    rewrite put_back_fst. apply (put_inv rand m s); [done|simpl; congruence|done].
  - unfold AppendTurn. destruct (ownedActive _ _ _ _) as [s|] eqn:E; [|done].
    destruct (ownedActive_spec _ _ _ _ _ Hk E) as (Hs & <- & _ & _).
    apply append_inv; [done..|]. rewrite Append_batch1. apply AppendBatch_dom.
  - unfold AppendTurns. destruct (ownedActive _ _ _ _) as [s|] eqn:E; [|done].
    destruct (ownedActive_spec _ _ _ _ _ Hk E) as (Hs & <- & _ & _).
    apply append_inv; [done..|]. apply AppendBatch_dom.
  - unfold Manager_Delete. rewrite Get_spec. destruct (smap m !! id) as [s|] eqn:E; [|done].
    destruct (String.eqb _ _); simpl; [|done]. by apply (deleteSession_inv rand _ _ _ _ _ s).
  - by apply sweep_inv.
  - unfold SetTTL. case_match; [done|]. destruct Hinv; by split.
  - destruct Hinv; by split.
Qed.

Lemma mexec_inv ops (m : manager) : no_collision rand → inv rand m → inv rand (mexec ops m).
Proof.
  intros Hnc. revert m. induction ops as [|o ops IH]; intros m Hinv; simpl; [done|].
  by apply IH, mstep_inv.
Qed.

(** *** Construction *)

Lemma reconcile_fold l (c : gmap string Z) o :
  default 0 (fold_left (λ c s, <[Session_OwnerKeyID s := default 0 (c !! Session_OwnerKeyID s) + 1]> c) l c !! o) =
  default 0 (c !! o) + Z.of_nat (length (filter (λ s, Session_OwnerKeyID s = o) l)).
Proof.
  revert c. induction l as [|s l IH]; intros c; cbn [fold_left]; [simpl; lia|].
  rewrite IH, filter_cons. destruct (decide (Session_OwnerKeyID s = o)) as [<-|Hne]; cbn [length].
  - rewrite lookup_insert_eq. simpl. lia.
  - by rewrite lookup_insert_ne.
Qed.

Lemma reconcile_inv (m : manager) :
  skeyed (smap m) → dom (mhs_history (m_history m)) ⊆ dom (smap m) →
  (∀ i b, rand i 16 = Ok b → smap m !! minted_id b = None) →
  inv rand (reconcileCounts m).
Proof.
  intros Hk Hh Hf. split; simpl; try done; [|intros; by eapply Hf].
  intros o. unfold count_of, reconcileCounts; simpl. rewrite reconcile_fold, lookup_empty. simpl.
  unfold owned. by rewrite List_spec.
Qed.

(** *** The cap *)

Definition no_setmax (o : mop) : Prop := match o with MSetMax _ => False | _ => True end.

Lemma append_with_max app now s (m : manager) : m_maxPerKey (append_with app now s m).1 = m_maxPerKey m.
Proof. unfold append_with. repeat case_match; by simplify_eq/=. Qed.

Lemma deleteSession_max now id owner reason (m : manager) :
  m_maxPerKey (deleteSession now id owner reason m).1 = m_maxPerKey m.
Proof.
  unfold deleteSession. destruct (Get _ _); [|done]. destruct (Delete _ _) as [st [e|]]; [done|]. simpl.
  set (e := endStats _ _ _ _ _). set (m1 := set_history _ _).
  destruct (observe_frame e (releaseSlot owner m1)) as (_ & _ & _ & _ & ->).
  by destruct (releaseSlot_frame owner m1) as (_ & _ & _ & ->).
Qed.

Lemma mstep_max o (m : manager) : no_setmax o → m_maxPerKey (mstep o m) = m_maxPerKey m.
Proof.
  intros Ho. destruct o; simpl in *; try done.
  - unfold Create. destruct (String.eqb _ _); [done|]. unfold reserveSlot. destruct (_ && _); [done|].
    unfold newID. destruct (rand _ _) as [b|e]; simpl.
    + destruct (Put _ _) as [st [e|]]; simpl; [|done].
      by match goal with |- m_maxPerKey (releaseSlot ?o ?x) = _ =>
        destruct (releaseSlot_frame o x) as (_ & _ & _ & ->) end.
    + by match goal with |- m_maxPerKey (releaseSlot ?o ?x) = _ =>
        destruct (releaseSlot_frame o x) as (_ & _ & _ & ->) end.
  - unfold Resume. destruct (ownedActive _ _ _ _); [by rewrite put_back_fst|done].
  - unfold Bind. destruct (ownedActive _ _ _ _); [by rewrite put_back_fst|done].
  - unfold AppendTurn. destruct (ownedActive _ _ _ _); [apply append_with_max|done].
  - unfold AppendTurns. destruct (ownedActive _ _ _ _); [apply append_with_max|done].
  - unfold Manager_Delete. destruct (Get _ _); [|done]. destruct (negb _); [done|].
    apply deleteSession_max.
  - unfold sweepExpired. generalize (List (m_sessions m)) as l. intros l. revert m.
    induction l as [|s l IH]; intros m; simpl; [done|]. rewrite IH. unfold sweep_step.
    destruct (negb _); [done|]. apply deleteSession_max.
  - unfold SetTTL. by case_match.
Qed.

Definition capped (n : Z) (m : manager) : Prop := ∀ o, owned o (smap m) <= n.

Lemma owned_delete_le o (m : sessmap) id : owned o (delete id m) <= owned o m.
Proof.
  destruct (m !! id) as [s|] eqn:E; [|by rewrite delete_id].
  rewrite (owned_delete o m id s E). unfold mine. case_decide; lia.
Qed.

Lemma owned_put_le o (m : manager) s s' :
  smap m !! Session_ID s' = Some s → Session_OwnerKeyID s' = Session_OwnerKeyID s →
  owned o (sessions_of (Put s' (m_sessions m)).1) <= owned o (smap m).
Proof.
  intros Hs Ho. pose proof (Put_spec s' (m_sessions m)) as Hp.
  destruct (Put s' (m_sessions m)) as [st [e|]]; simpl; rewrite Hp; [done|].
  by rewrite (owned_overwrite o _ _ s).
Qed.

Lemma append_with_owned o app now s (m : manager) :
  smap m !! Session_ID s = Some s →
  owned o (smap (append_with app now s m).1) <= owned o (smap m).
Proof.
  intros Hs. unfold append_with. destruct (app _) as [h [e|]]; [done|].
  pose proof (owned_put_le o m s (touch now s) Hs eq_refl). simpl. by destruct (Put _ _).
Qed.

Lemma sweep_owned o now clock (m : manager) :
  owned o (smap (sweepExpired now clock m)) <= owned o (smap m).
Proof.
  unfold sweepExpired. generalize (List (m_sessions m)) as l. intros l. revert m.
  induction l as [|s l IH]; intros m; simpl; [done|].
  etrans; [apply IH|]. destruct (sweep_step_map now clock m s) as [-> | ->]; [done|].
  apply owned_delete_le.
Qed.

Lemma deleteSession_owned o now id owner reason (m : manager) :
  owned o (smap (deleteSession now id owner reason m).1) <= owned o (smap m).
Proof.
  unfold deleteSession. destruct (Get _ _); [|done].
  pose proof (Delete_spec id (m_sessions m)) as Hd.
  destruct (Delete _ _) as [st [e|]]; simpl; [by rewrite Hd|].
  set (e := endStats _ _ _ _ _). set (m1 := set_history _ _).
  destruct (observe_frame e (releaseSlot owner m1)) as (-> & _).
  destruct (releaseSlot_frame owner m1) as (-> & _). simpl. rewrite Hd. apply owned_delete_le.
Qed.

(** Only a create adds a session, and only below the cap. *)
Lemma mstep_capped o n (m : manager) :
  inv rand m → m_maxPerKey m = n → 0 < n → capped n m → capped n (mstep o m).
Proof.
  intros Hinv Hmax Hn Hcap ow. pose proof (inv_keyed _ _ Hinv) as Hk. specialize (Hcap ow) as Hc.
  destruct o as [now owner model|now id owner|now id owner worker|now id owner turn|now id owner turns
    |now id owner|now clock|d|n']; simpl.
  - unfold Create. destruct (String.eqb _ _); [done|]. unfold reserveSlot.
    destruct (_ && _) eqn:Eg; [done|]. unfold newID. simpl.
    assert (owned owner (smap m) < n) as Hlt.
    { rewrite <- (inv_tally _ _ Hinv). apply andb_false_iff in Eg as [?|?]; zbool; lia. }
    destruct (rand _ _) as [b|e] eqn:Er; simpl.
    + set (s := mkSession _ _ _ _ _ _ _ _). pose proof (Put_spec s (m_sessions m)) as Hp.
      destruct (Put s (m_sessions m)) as [st [e|]]; simpl.
      * match goal with |- owned _ (smap (releaseSlot ?o ?x)) <= _ =>
          destruct (releaseSlot_frame o x) as (-> & _) end. simpl. by rewrite Hp.
      * rewrite Hp, owned_insert by (by eapply (inv_fresh _ _ Hinv)).
        unfold mine, s; simpl. case_decide; subst; lia.
    + match goal with |- owned _ (smap (releaseSlot ?o ?x)) <= _ =>
        destruct (releaseSlot_frame o x) as (-> & _) end. done.
  - unfold Resume. destruct (ownedActive _ _ _ _) as [s|] eqn:E; [|done].
    destruct (ownedActive_spec _ _ _ _ _ Hk E) as (Hs & Hid & _ & _). rewrite put_back_fst. simpl.
    etrans; [apply (owned_put_le ow m s); [simpl; congruence|done]|done].
  - unfold Bind. destruct (ownedActive _ _ _ _) as [s|] eqn:E; [|done].
    destruct (ownedActive_spec _ _ _ _ _ Hk E) as (Hs & Hid & _ & _). rewrite put_back_fst. simpl.
    etrans; [apply (owned_put_le ow m s); [simpl; congruence|done]|done].
  - unfold AppendTurn. destruct (ownedActive _ _ _ _) as [s|] eqn:E; [|done].
    destruct (ownedActive_spec _ _ _ _ _ Hk E) as (Hs & <- & _ & _).
    etrans; [by apply append_with_owned|done].
  - unfold AppendTurns. destruct (ownedActive _ _ _ _) as [s|] eqn:E; [|done].
    destruct (ownedActive_spec _ _ _ _ _ Hk E) as (Hs & <- & _ & _).
    etrans; [by apply append_with_owned|done].
  - unfold Manager_Delete. destruct (Get _ _); [|done]. destruct (negb _); [done|].
    etrans; [apply deleteSession_owned|done].
  - etrans; [apply sweep_owned|done].
  - unfold SetTTL. by case_match.
  - done.
Qed.

Lemma mexec_capped ops n (m : manager) :
  no_collision rand → Forall no_setmax ops → inv rand m → m_maxPerKey m = n → 0 < n →
  capped n m → capped n (mexec ops m).
Proof.
  intros Hnc Hns. revert m. induction Hns as [|o ops Ho Hns IH]; intros m Hinv Hmax Hn Hcap; simpl; [done|].
  apply IH; [by apply mstep_inv|by rewrite mstep_max|done|by apply mstep_capped].
Qed.

(** *** The sweep *)

Definition alive (now : Time) (p : string * Session) : Prop := expired p.2 now = false.
#[export] Instance alive_dec now p : Decision (alive now p).
Proof. unfold alive. apply _. Defined.

Lemma sweep_exact now clock (m : manager) :
  (∀ id st, (Delete id st).2 = None) → skeyed (smap m) →
  ∀ l, (∀ s, s ∈ l → smap m !! Session_ID s = Some s ∨ smap m !! Session_ID s = None) →
  smap (fold_left (sweep_step now clock) l m) =
    filter (λ p, ¬ (p.2 ∈ l ∧ expired p.2 now = true)) (smap m).
Proof.
  intros Hdel Hk l. revert m Hk. induction l as [|s l IH]; intros m Hk Hl; simpl.
  { symmetry. apply map_filter_id. intros ? ? _ [H _]. by apply elem_of_nil in H. }
  destruct (expired s now) eqn:Ee.
  - assert (smap (sweep_step now clock m s) = delete (Session_ID s) (smap m)) as Em.
    { unfold sweep_step. rewrite Ee. simpl. unfold deleteSession. rewrite Get_spec.
      destruct (Hl s) as [Hs|Hs]; [set_solver|..]; rewrite Hs; [|by rewrite delete_id].
      pose proof (Delete_spec (Session_ID s) (m_sessions m)) as Hd. specialize (Hdel (Session_ID s) (m_sessions m)).
      destruct (Delete _ _) as [st e]; simpl in *. subst. simpl.
      match goal with |- smap (observe ?e (releaseSlot ?o ?x)) = _ =>
        destruct (observe_frame e (releaseSlot o x)) as (-> & _);
        destruct (releaseSlot_frame o x) as (-> & _) end. done. }
    rewrite IH; rewrite Em; [|by apply skeyed_delete|].
    + apply map_eq. intros id. apply option_eq. intros s'.
      rewrite !map_lookup_filter_Some, lookup_delete_Some. simpl. split.
      * intros [[Hne Hs'] Hn]. split; [done|]. intros [[->|?]%elem_of_cons ?]; [|naive_solver].
        by rewrite (Hk _ _ Hs') in Hne.
      * intros [Hs' Hn]. split; [split; [|done]|].
        -- intros <-. apply Hn. destruct (Hl s) as [Hs|Hs]; [set_solver|..]; simplify_eq.
           split; [set_solver|done].
        -- intros [? ?]. apply Hn. split; [set_solver|done].
    + intros s' Hs'. destruct (decide (Session_ID s = Session_ID s')) as [->|Hne].
      * right. apply lookup_delete_eq.
      * rewrite lookup_delete_ne by done. apply Hl. set_solver.
  - assert (sweep_step now clock m s = m) as -> by (unfold sweep_step; by rewrite Ee).
    rewrite IH by (done || set_solver). apply map_filter_ext. intros id s' _. simpl.
    split; intros H [Hin He]; apply H; [|set_solver].
    apply elem_of_cons in Hin as [->|?]; [congruence|done].
Qed.
End runs.

(** ** The sum of the tally *)

Definition sum_counts (c : gmap string Z) : Z := map_fold (λ _ n total, total + n) 0 c.

Lemma sum_counts_insert_new c o v : c !! o = None → sum_counts (<[o := v]> c) = sum_counts c + v.
Proof. intros H. unfold sum_counts. rewrite map_fold_insert_L; [done|intros; lia|done]. Qed.

Lemma sum_counts_delete c o : sum_counts (delete o c) = sum_counts c - default 0 (c !! o).
Proof.
  destruct (c !! o) as [v|] eqn:E; simpl.
  - rewrite <- (insert_id c o v E) at 2. rewrite <- insert_delete_eq.
    rewrite sum_counts_insert_new by apply lookup_delete_eq. lia.
  - rewrite delete_id by done. lia.
Qed.

Lemma sum_counts_insert c o v : sum_counts (<[o := v]> c) = sum_counts c - default 0 (c !! o) + v.
Proof.
  rewrite <- insert_delete_eq, sum_counts_insert_new by apply lookup_delete_eq.
  by rewrite sum_counts_delete.
Qed.

Lemma sum_counts_zero c : (∀ o, default 0 (c !! o) = 0) → sum_counts c = 0.
Proof.
  induction c as [|o v c Ho IH] using map_ind; intros H; [done|].
  rewrite sum_counts_insert_new by done. pose proof (H o) as Hv. rewrite lookup_insert_eq in Hv. simpl in Hv.
  rewrite IH; [lia|]. intros o'. specialize (H o'). destruct (decide (o = o')) as [->|].
  - by rewrite Ho.
  - by rewrite lookup_insert_ne in H.
Qed.

Lemma sum_counts_owned (m : sessmap) c :
  (∀ o, default 0 (c !! o) = owned o m) → sum_counts c = Z.of_nat (size m).
Proof.
  revert c. induction m as [|id s m Hid IH] using map_ind; intros c Hc.
  - rewrite map_size_empty. apply sum_counts_zero. intros o. by rewrite Hc, owned_empty.
  - rewrite map_size_insert_None by done. set (ow := Session_OwnerKeyID s).
    assert (sum_counts (<[ow := default 0 (c !! ow) - 1]> c) = Z.of_nat (size m)) as E.
    { apply IH. intros o. specialize (Hc o). rewrite owned_insert in Hc by done. unfold mine in Hc.
      destruct (decide (o = ow)) as [->|Hne].
      - rewrite lookup_insert_eq. simpl. rewrite decide_True in Hc by done. lia.
      - rewrite lookup_insert_ne by done. rewrite decide_False in Hc by (unfold ow in *; congruence). lia. }
    rewrite sum_counts_insert in E. lia.
Qed.

(** ** Properties *)

Definition new_manager {S} `{!SessionStore S} (st : S) (h : MemoryHistoryStore) (d : Duration) (n : Z) : Manager S :=
  NewManager st h [WithTTL d; WithMaxSessionsPerKey n].

Lemma new_manager_inv {S} `{!SessionStore S} (rand : nat → nat → result bytes) (st : S) h d n :
  skeyed (sessions_of st) → dom (mhs_history h) ⊆ dom (sessions_of st) →
  (∀ i b, rand i 16%nat = Ok b → sessions_of st !! minted_id b = None) →
  inv rand (new_manager st h d n) ∧ m_sessions (new_manager st h d n) = st ∧
  m_maxPerKey (new_manager st h d n) = (if 0 <? n then n else 0).
Proof.
  intros Hk Hd Hf. unfold new_manager, NewManager. simpl fold_left.
  set (m1 := WithMaxSessionsPerKey n _).
  assert (m_sessions m1 = st ∧ m_history m1 = h ∧ m_maxPerKey m1 = (if 0 <? n then n else 0)) as (E1 & E2 & E3).
  { unfold m1, WithMaxSessionsPerKey, WithTTL. by repeat case_match. }
  assert (inv rand (reconcileCounts m1)) as Hinv.
  { apply reconcile_inv; rewrite ?E1, ?E2; done. }
  destruct (m_sweepInterval _ <=? 0); (split_and!; [|exact E1|exact E3]); [destruct Hinv; by split|done].
Qed.

(** C8: The concurrency tally is exact. For a manager built over any stored
    sessions (restored ones included), after any sequence of create, resume,
    bind, append, delete, sweep and configuration calls, each owner's tally is
    the number of sessions stored for that owner, their sum is what
    ActiveSessions reports, and no history outlives its session. *)
Theorem tally_exact {S} `{!SessionStore S} (rand : nat → nat → result bytes) (st : S) h d n ops :
  no_collision rand → skeyed (sessions_of st) → dom (mhs_history h) ⊆ dom (sessions_of st) →
  (∀ i b, rand i 16%nat = Ok b → sessions_of st !! minted_id b = None) →
  let m := mexec rand ops (new_manager st h d n) in
  (∀ o, activeCount o m = owned o (sessions_of (m_sessions m))) ∧
  ActiveSessions m = Z.of_nat (size (sessions_of (m_sessions m))) ∧
  dom (mhs_history (m_history m)) ⊆ dom (sessions_of (m_sessions m)).
Proof.
  intros Hnc Hk Hd Hf m. destruct (new_manager_inv rand st h d n Hk Hd Hf) as (Hinv & _).
  pose proof (mexec_inv rand ops _ Hnc Hinv) as [_ Ht Hh _]. split_and!; [done| |done].
  by apply sum_counts_owned.
Qed.

(** A store, an entropy source and a run for the witnesses. *)
Definition demo_sessions (m : sessmap) : list Session := (map_to_list m).*2.
Lemma demo_sessions_ok m : demo_sessions m ≡ₚ (map_to_list m).*2.
Proof. done. Defined.
#[local] Instance demo_store : SessionStore MemorySessionStore := MSS_SessionStore demo_sessions demo_sessions_ok.
Definition demo_rand (i n : nat) : result bytes :=
  if (i <=? 1)%nat then Ok (repeat (Z.of_nat i) n) else Err (ENew "no entropy").
Lemma demo_no_collision : no_collision demo_rand.
Proof.
  intros i j b c. unfold demo_rand.
  destruct i as [|[|i]], j as [|[|j]]; intros Hb Hc; simplify_eq/=; try done; discriminate.
Defined.
Definition demo_mops : list mop :=
  [MCreate 1 "k" "m"; MCreate 2 "k" "m"; MCreate 3 "k" "m"; MDelete 4 (minted_id (repeat 0 16)) "k"].

Lemma tally_exact_witness :
  let m := mexec demo_rand demo_mops (new_manager NewMemorySessionStore (NewMemoryHistoryStore 0 0) Minute 2) in
  activeCount "k" m = owned "k" (sessions_of (m_sessions m)) ∧ activeCount "k" m = 1.
Proof.
  intros m. split; [|vm_compute; reflexivity].
  apply (tally_exact demo_rand NewMemorySessionStore (NewMemoryHistoryStore 0 0) Minute 2 demo_mops demo_no_collision).
  - intros id s. simpl. by rewrite lookup_empty.
  - simpl. set_solver.
  - intros i b _. simpl. apply lookup_empty.
Defined.

(** The per-owner cap. A manager with a positive cap over a store that
    respects it never holds more than that many sessions of one owner, in every
    state reachable without changing the cap. *)
Theorem session_cap_respected {S} `{!SessionStore S} (rand : nat → nat → result bytes) (st : S) h d n ops o :
  no_collision rand → skeyed (sessions_of st) → dom (mhs_history h) ⊆ dom (sessions_of st) →
  (∀ i b, rand i 16%nat = Ok b → sessions_of st !! minted_id b = None) →
  0 < n → (∀ o, owned o (sessions_of st) <= n) → Forall no_setmax ops →
  owned o (sessions_of (m_sessions (mexec rand ops (new_manager st h d n)))) <= n.
Proof.
  intros Hnc Hk Hd Hf Hn Hc Hns. destruct (new_manager_inv rand st h d n Hk Hd Hf) as (Hinv & Es & Em).
  apply mexec_capped; try done.
  - rewrite Em. by rewrite (proj2 (Z.ltb_lt 0 n) Hn).
  - intros o'. rewrite Es. apply Hc.
Qed.

Lemma session_cap_respected_witness :
  owned "k" (sessions_of (m_sessions (mexec demo_rand demo_mops
    (new_manager NewMemorySessionStore (NewMemoryHistoryStore 0 0) Minute 2)))) <= 2.
Proof.
  apply (session_cap_respected demo_rand NewMemorySessionStore (NewMemoryHistoryStore 0 0) Minute 2 demo_mops "k"
    demo_no_collision).
  - intros id s. simpl. by rewrite lookup_empty.
  - simpl. set_solver.
  - intros i b _. simpl. apply lookup_empty.
  - lia.
  - intros o. simpl. rewrite owned_empty. lia.
  - repeat constructor.
Defined.

(** Owner isolation. When a session is not the caller's, whether it belongs
    to another key or does not exist, every operation answers
    ErrSessionNotFound, identically in both cases, and changes nothing. *)
Theorem owner_isolation {S} `{!SessionStore S} now id owner worker turn turns (m : Manager S) :
  (∀ s, sessions_of (m_sessions m) !! id = Some s → Session_OwnerKeyID s ≠ owner) →
  Manager_Get now id owner m = Err ErrSessionNotFound ∧
  Resume now id owner m = (m, Err ErrSessionNotFound) ∧
  Bind now id owner worker m = (m, Err ErrSessionNotFound) ∧
  AppendTurn now id owner turn m = (m, Some ErrSessionNotFound) ∧
  AppendTurns now id owner turns m = (m, Some ErrSessionNotFound) ∧
  CheckAppendable now id owner turns m = Some ErrSessionNotFound ∧
  Manager_History now id owner m = Err ErrSessionNotFound ∧
  Manager_Delete now id owner m = (m, Some ErrSessionNotFound).
Proof.
  intros Hno. assert (ownedActive id owner now m = Err ErrSessionNotFound) as E.
  { unfold ownedActive. rewrite Get_spec. destruct (_ !! id) as [s|] eqn:Es; [|done].
    by rewrite (proj2 (String.eqb_neq _ _) (Hno s eq_refl)). }
  unfold Manager_Get, Resume, Bind, AppendTurn, AppendTurns, CheckAppendable, Manager_History.
  rewrite E. split_and!; try done. unfold Manager_Delete. rewrite Get_spec.
  destruct (_ !! id) as [s|] eqn:Es; [|done].
  by rewrite (proj2 (String.eqb_neq _ _) (Hno s eq_refl)).
Qed.

Definition demo_session : Session := mkSession "sess_1" "k" "m" "" 5 5 100 StatusActive.
Definition demo_manager : Manager MemorySessionStore :=
  new_manager (mkMSS {[ "sess_1" := demo_session ]}) (NewMemoryHistoryStore 0 0) Minute 2.

Lemma owner_isolation_witness :
  Manager_Get 6 "sess_1" "other" demo_manager = Err ErrSessionNotFound ∧
  Manager_Get 6 "sess_1" "k" demo_manager = Ok demo_session.
Proof.
  split; [|vm_compute; reflexivity].
  apply (owner_isolation 6 "sess_1" "other" "w" (ex_msg "x") [] demo_manager).
  intros s H. assert (sessions_of (m_sessions demo_manager) !! "sess_1" = Some demo_session) as E
    by (vm_compute; reflexivity). rewrite E in H. injection H as <-. done.
Defined.

(** The sweep removes exactly the idle sessions. Over a store whose deletes
    succeed, sweepExpired keeps precisely the sessions not expired at the sweep
    time, and removing an already removed session again changes nothing, so its
    end is observed at most once. *)
Theorem sweep_removes_expired {S} `{!SessionStore S} now clock (m : Manager S) :
  (∀ id st, (Delete id st).2 = None) → skeyed (sessions_of (m_sessions m)) →
  sessions_of (m_sessions (sweepExpired now clock m)) =
    filter (alive now) (sessions_of (m_sessions m)) ∧
  (∀ now' now'' id owner owner' r r',
     let m1 := (deleteSession now' id owner r m).1 in
     deleteSession now'' id owner' r' m1 = (m1, None)).
Proof.
  intros Hdel Hk. split.
  - unfold sweepExpired. rewrite sweep_exact; [|done..|].
    + apply map_filter_ext. intros id s Hs. unfold alive; simpl. split.
      * intros H. destruct (expired s now) eqn:E; [|done]. exfalso. apply H. split; [|done].
        rewrite List_spec. apply list_elem_of_fmap. exists (id, s). split; [done|].
        by apply elem_of_map_to_list.
      * intros H [_ H']. congruence.
    + intros s Hs. left. by apply list_stored.
  - intros now' now'' id owner owner' r r' m1.
    assert (sessions_of (m_sessions m1) !! id = None) as Hnone;
      [|unfold deleteSession; by rewrite Get_spec, Hnone].
    unfold m1, deleteSession. rewrite Get_spec.
    destruct (sessions_of (m_sessions m) !! id) as [s|] eqn:E; [|done].
    pose proof (Delete_spec id (m_sessions m)) as Hd. specialize (Hdel id (m_sessions m)).
    destruct (Delete id (m_sessions m)) as [st e]; simpl in *. subst e. cbn [fst].
    match goal with |- context [observe ?e (releaseSlot ?o ?x)] =>
      destruct (observe_frame e (releaseSlot o x)) as (-> & _);
      destruct (releaseSlot_frame o x) as (-> & _) end. simpl. by rewrite Hd, lookup_delete_eq.
Qed.

Lemma sweep_removes_expired_witness :
  sessions_of (m_sessions (sweepExpired 106 (λ _, 106) demo_manager)) =
  filter (alive 106) (sessions_of (m_sessions demo_manager)).
Proof.
  apply (sweep_removes_expired 106 (λ _, 106) demo_manager).
  - intros id st. unfold Delete. simpl. reflexivity.
  - change (sessions_of (m_sessions demo_manager)) with ({[ "sess_1" := demo_session ]} : sessmap).
    intros id s. by intros [<- <-]%lookup_singleton_Some.
Defined.

(** ** Restart *)

Lemma load_fold now l m d :
  fold_left (load_step now) l (m, d) =
  (index_by Session_ID (filter (λ s, expired s now = false) l) m,
   d ++ (Session_ID <$> filter (λ s, expired s now = true) l)).
Proof.
  revert m d. induction l as [|s l IH]; intros m d; simpl; [by rewrite app_nil_r|].
  unfold load_step at 2. rewrite !filter_cons. destruct (expired s now) eqn:E; simpl; rewrite IH; [|done].
  by rewrite <- app_assoc.
Qed.

(** Sessions survive a restart, idle ones do not. When Checkpoint reports
    success and the file is loaded at time [now], the new store holds exactly
    the checkpointed sessions not expired by then, and the ids returned for
    history purging are those of the expired ones. *)
Theorem session_restart range marshal unmarshal path io (m m' : MemorySessionStore) disk disk' now :
  (∀ s, range s ≡ₚ (map_to_list s).*2) →
  json_roundtrip marshal unmarshal →
  skeyed (mss_sessions m) →
  MSS_Checkpoint range marshal path io m disk = (disk', None) →
  ∃ dropped, MSS_LoadCheckpoint unmarshal path None disk' now m' =
      (mkMSS (filter (alive now) (mss_sessions m)), Ok dropped) ∧
    ∀ id, id ∈ dropped ↔ ∃ s, mss_sessions m !! id = Some s ∧ expired s now = true.
Proof.
  intros Hr Hj Hk Hck. pose proof (write_read marshal unmarshal _ _ _ _ _ _ Hj Hck) as Hrd. cbv iota in Hrd.
  unfold MSS_LoadCheckpoint. rewrite Hrd, load_fold. eexists. split.
  - do 2 f_equal. apply index_by_values.
    + intros id s [Hs _]%map_lookup_filter_Some. by apply Hk.
    + rewrite Hr. generalize (mss_sessions m) as sm. intros sm.
      induction sm as [|id s sm Hid IH] using map_ind.
      * by rewrite map_filter_empty, !map_to_list_empty.
      * rewrite map_to_list_insert by done. rewrite fmap_cons, filter_cons. cbn [snd].
        rewrite map_filter_insert. destruct (decide (alive now (id, s))) as [He|He];
          unfold alive in He; simpl in He.
        -- rewrite map_to_list_insert by (apply map_lookup_filter_None; by left).
           rewrite decide_True by done. by rewrite fmap_cons, IH.
        -- rewrite decide_False by done. rewrite IH. by rewrite delete_id.
  - intros id. cbn [app]. rewrite list_elem_of_fmap. split.
    + intros (s & -> & [He Hin]%list_elem_of_filter). exists s. split; [|done].
      rewrite Hr in Hin. apply list_elem_of_fmap in Hin as ((id' & s') & -> & Hin).
      apply elem_of_map_to_list in Hin. simpl in *. by rewrite (Hk _ _ Hin).
    + intros (s & Hs & He). exists s. split; [by rewrite (Hk _ _ Hs)|]. apply list_elem_of_filter.
      split; [done|]. rewrite Hr. apply list_elem_of_fmap. exists (id, s). split; [done|].
      by apply elem_of_map_to_list.
Qed.

Lemma session_restart_witness :
  let marshal (v : list Session) := if decide (v = [demo_session]) then Ok [1] else Err (ENew "unsupported") in
  let unmarshal (d : bytes) := Ok [demo_session] in
  let m := mkMSS {[ "sess_1" := demo_session ]} in
  ∃ dropped, MSS_LoadCheckpoint unmarshal "s.json" None (Some [1]) 50 NewMemorySessionStore =
    (mkMSS (filter (alive 50) (mss_sessions m)), Ok dropped).
Proof.
  intros marshal unmarshal m.
  destruct (session_restart demo_sessions marshal unmarshal "s.json" cio_good m NewMemorySessionStore None
    (Some [1]) 50 demo_sessions_ok) as (dropped & H & _).
  - intros v data. unfold marshal. case_decide; [|done]. intros [= <-]. by subst.
  - intros id s. unfold m; simpl. by intros [<- <-]%lookup_singleton_Some.
  - vm_compute. reflexivity.
  - by exists dropped.
Defined.

(** ** Interleavings

    [Resume], [Bind] and the appends read a session and later write it back
    ([put_back]) with no lock held in between, so a delete may run there. *)
Module Races.

(** A deleted session can come back. If a Delete runs between the read and the
  write-back of a Resume of the same session, Delete reports success, Resume
  reports success, and afterwards the session exists and is readable while the
  owner's tally is zero, so the tally no longer counts the stored sessions. *)
Theorem deleted_session_resurrected :
∃ s (m1 m2 : Manager MemorySessionStore),
  ownedActive "sess_1" "k" 6 demo_manager = Ok s ∧
  Manager_Delete 7 "sess_1" "k" demo_manager = (m1, None) ∧
  Manager_Get 8 "sess_1" "k" m1 = Err ErrSessionNotFound ∧
  put_back (activate 6 s) m1 = (m2, Ok (activate 6 s)) ∧
  Manager_Get 8 "sess_1" "k" m2 = Ok (activate 6 s) ∧
  activeCount "k" m2 = 0 ∧ owned "k" (sessions_of (m_sessions m2)) = 1.
Proof.
exists demo_session, (Manager_Delete 7 "sess_1" "k" demo_manager).1,
  (put_back (activate 6 demo_session) (Manager_Delete 7 "sess_1" "k" demo_manager).1).1.
split_and!; vm_compute; reflexivity.
Qed.

End Races.
