(* ===== verification/ServerWorker.v ===== *)
(** * ServerWorker.v: internal/server, one connected worker

    The server's view of a worker stream: the result waiters ([pending]), the
    output buffers of streaming jobs ([streams]), the streaming observers, and
    the capacity and liveness fields folded from heartbeats.

    Channels are addresses into a table [chans]: a result channel holds at most
    one value (capacity 1), an observer channel at most 64 chunks and may be
    closed.  A send on a closed channel, or a second close, is a Go panic, and a
    send on a full result channel blocks the sender; both are recorded in the
    table ([c_panic], [c_stuck]) so that their absence can be proved.  The
    methods release [w.mu] before they touch a channel; each is written as its
    locked part followed by its channel part, so that module [Interleaving] can
    run another method in between. *)

From S2P Require Import Prelude Errors GoTime Types.
Open Scope Z_scope.

(** ** Channels *)

(** [oc_taken] are the chunks its reader has received, [oc_buf] those waiting. *)
Record obsChan := mkObsChan { oc_taken : list JobChunk; oc_buf : list JobChunk; oc_closed : bool }.
Definition obsCap : nat := 64.

Record chans := mkChans {
  c_res : gmap nat (list JobResult);
  c_obs : gmap nat obsChan;
  c_next : nat;
  c_panic : bool;
  c_stuck : bool }.
Definition chans_init : chans := mkChans ∅ ∅ 0 false false.

(** [make(chan types.JobResult, 1)], [make(chan types.JobChunk, 64)]. *)
Definition make_res (c : chans) : chans * nat :=
  (mkChans (<[c_next c := []]> (c_res c)) (c_obs c) (S (c_next c)) (c_panic c) (c_stuck c), c_next c).
Definition make_obs (c : chans) : chans * nat :=
  (mkChans (c_res c) (<[c_next c := mkObsChan [] [] false]> (c_obs c)) (S (c_next c)) (c_panic c) (c_stuck c),
   c_next c).

(** [ch <- res]. *)
Definition send_res (ch : nat) (res : JobResult) (c : chans) : chans :=
  match c_res c !! ch with
  | Some [] => mkChans (<[ch := [res]]> (c_res c)) (c_obs c) (c_next c) (c_panic c) (c_stuck c)
  | _ => mkChans (c_res c) (c_obs c) (c_next c) (c_panic c) true
  end.

(** [forwardChunk(obs, chunk)], [obs] non-nil: a select with a default. *)
Definition forwardChunk (obs : nat) (chunk : JobChunk) (c : chans) : chans :=
  match c_obs c !! obs with
  | Some o =>
      if oc_closed o then mkChans (c_res c) (c_obs c) (c_next c) true (c_stuck c)
      else if (length (oc_buf o) <? obsCap)%nat then
        mkChans (c_res c) (<[obs := mkObsChan (oc_taken o) (oc_buf o ++ [chunk]) false]> (c_obs c)) (c_next c)
          (c_panic c) (c_stuck c)
      else c
  | None => c
  end.

(** [close(obs)]. *)
Definition close_obs (obs : nat) (c : chans) : chans :=
  match c_obs c !! obs with
  | Some o =>
      if oc_closed o then mkChans (c_res c) (c_obs c) (c_next c) true (c_stuck c)
      else mkChans (c_res c) (<[obs := mkObsChan (oc_taken o) (oc_buf o) true]> (c_obs c)) (c_next c)
             (c_panic c) (c_stuck c)
  | None => c
  end.

(** [chunk := <-obs] when one is waiting. *)
Definition recv_obs (obs : nat) (c : chans) : chans :=
  match c_obs c !! obs with
  | Some (mkObsChan t (x :: b) cl) =>
      mkChans (c_res c) (<[obs := mkObsChan (t ++ [x]) b cl]> (c_obs c)) (c_next c) (c_panic c) (c_stuck c)
  | _ => c
  end.

(** ** The worker *)

Inductive serverMsg :=
| MsgRegisterAck (session : string)
| MsgJob (job : option PbJob)
| MsgPullModel (model : string)
| MsgUnloadModel (model : string).

Record worker := mkW {
  w_id : string;
  w_send : list serverMsg;
  w_cancelled : bool;                (* w.ctx is done *)
  w_pending : gmap string nat;
  w_streams : gmap string string;
  w_observers : gmap string nat;
  w_registeredAt : Time;
  w_models : option (list Model);
  w_lastHeartbeat : Time;
  w_activeJobs : Z;
  w_totalVRAM : Z;
  w_freeVRAM : Z;
  w_load : Z;
  w_gpuType : string;
  w_availableModels : option (list Model);
  w_draining : bool }.

Definition set_jobs (p : gmap string nat) (s : gmap string string) (o : gmap string nat) (w : worker) : worker :=
  mkW (w_id w) (w_send w) (w_cancelled w) p s o (w_registeredAt w) (w_models w) (w_lastHeartbeat w)
    (w_activeJobs w) (w_totalVRAM w) (w_freeVRAM w) (w_load w) (w_gpuType w) (w_availableModels w) (w_draining w).

Definition applyHeartbeat (hb : Heartbeat) (now : Time) (w : worker) : worker :=
  mkW (w_id w) (w_send w) (w_cancelled w) (w_pending w) (w_streams w) (w_observers w) (w_registeredAt w)
    (w_models w) now (Heartbeat_ActiveJobs hb) (Heartbeat_TotalVRAM hb) (Heartbeat_FreeVRAM hb)
    (Heartbeat_Load hb) (Heartbeat_GPUType hb)
    (match Heartbeat_AvailableModels hb with Some ms => Some ms | None => w_availableModels w end)
    (w_draining w).

Definition markDraining (w : worker) : worker :=
  mkW (w_id w) (w_send w) (w_cancelled w) (w_pending w) (w_streams w) (w_observers w) (w_registeredAt w)
    (w_models w) (w_lastHeartbeat w) (w_activeJobs w) (w_totalVRAM w) (w_freeVRAM w) (w_load w) (w_gpuType w)
    (w_availableModels w) true.

Definition inFlight (w : worker) : Z := Z.of_nat (size (w_pending w)).

(** [!w.lastHeartbeat.IsZero() && now.Sub(w.lastHeartbeat) > timeout]. *)
Definition missed (w : worker) (now : Time) (timeout : Duration) : bool :=
  negb (IsZero (w_lastHeartbeat w)) && (timeout <? Sub now (w_lastHeartbeat w)).

Definition snapshot (now : Time) (timeout : Duration) (w : worker) : Worker :=
  let models := match w_availableModels w with None => w_models w | ms => ms end in
  let status := if w_draining w then WorkerDraining
                else if missed w now timeout then WorkerStale else WorkerOnline in
  mkWorker (w_id w) (default [] models) (w_lastHeartbeat w) (w_activeJobs w) (w_totalVRAM w) (w_freeVRAM w)
    (w_load w) (w_gpuType w) status (w_registeredAt w).

Definition isStale (now : Time) (timeout : Duration) (w : worker) : bool :=
  if IsZero (w_lastHeartbeat w) then false
  else timeout <? Sub now (w_lastHeartbeat w).

Definition available (now : Time) (timeout : Duration) (w : worker) : bool :=
  if w_draining w then false
  else if missed w now timeout then false
  else true.

(** *** Waiters and observers *)

Definition addPending (jobID : string) (w : worker) (c : chans) : worker * chans * nat :=
  let '(c, ch) := make_res c in
  (set_jobs (<[jobID := ch]> (w_pending w)) (w_streams w) (w_observers w) w, c, ch).

(** The cleanup of [dispatchTo] on a cancelled context. *)
Definition dropPending (jobID : string) (w : worker) : worker :=
  set_jobs (delete jobID (w_pending w)) (w_streams w) (w_observers w) w.

Definition addObserver (jobID : string) (w : worker) (c : chans) : worker * chans * nat :=
  let '(c, ch) := make_obs c in
  (set_jobs (w_pending w) (w_streams w) (<[jobID := ch]> (w_observers w)) w, c, ch).

Definition removeObserver (jobID : string) (w : worker) : worker :=
  set_jobs (w_pending w) (w_streams w) (delete jobID (w_observers w)) w.

Definition resolve (res : JobResult) (w : worker) (c : chans) : worker * chans :=
  match w_pending w !! JobResult_JobID res with
  | Some ch => (dropPending (JobResult_JobID res) w, send_res ch res c)
  | None => (w, c)
  end.

(** *** Streaming *)

(** The locked part for a delta chunk: append to the buffer, read the observer. *)
Definition accumulate_delta (chunk : JobChunk) (w : worker) : worker * option nat :=
  let id := JobChunk_JobID chunk in
  let b := default "" (w_streams w !! id) in
  (set_jobs (w_pending w) (<[id := b +:+ JobChunk_Delta chunk]> (w_streams w)) (w_observers w) w,
   w_observers w !! id).

(** The locked part for the terminal chunk: take the buffer and the observer. *)
Definition accumulate_done (chunk : JobChunk) (w : worker) : worker * string * option nat :=
  let id := JobChunk_JobID chunk in
  let output := default "" (w_streams w !! id) +:+ JobChunk_Delta chunk in
  (set_jobs (w_pending w) (delete id (w_streams w)) (delete id (w_observers w)) w, output,
   w_observers w !! id).

Definition forward_opt (obs : option nat) (chunk : JobChunk) (c : chans) : chans :=
  match obs with None => c | Some o => forwardChunk o chunk c end.

Definition result_of (chunk : JobChunk) (output : string) : JobResult :=
  mkJobResult (JobChunk_JobID chunk) (match JobChunk_Err chunk with None => output | Some _ => "" end)
    (JobChunk_Err chunk) (JobChunk_Tokens chunk) (JobChunk_ToolCalls chunk) (JobChunk_FinishReason chunk)
    (JobChunk_PromptTokens chunk) (JobChunk_CompletionTokens chunk).

Definition accumulate (chunk : JobChunk) (w : worker) (c : chans) : worker * chans :=
  if negb (JobChunk_Done chunk) then
    let '(w, obs) := accumulate_delta chunk w in
    (w, forward_opt obs chunk c)
  else
    let '(w, output, obs) := accumulate_done chunk w in
    let c := match obs with None => c | Some o => close_obs o (forwardChunk o chunk c) end in
    resolve (result_of chunk output) w c.

(** The locked part of [failAllPending]: swap in empty maps. *)
Definition fail_take (w : worker) : worker := set_jobs ∅ ∅ ∅ w.

(** The loops over the taken maps, in any order. *)
Definition fail_results (err : JobError) (l : list (string * nat)) (c : chans) : chans :=
  fold_left (λ c '(id, ch), send_res ch (mkJobResult id "" (Some err) 0 [] "" 0 0) c) l c.
Definition fail_observers (err : JobError) (l : list (string * nat)) (c : chans) : chans :=
  fold_left (λ c '(id, o), close_obs o (forwardChunk o (mkJobChunk id "" true (Some err) 0 [] "" 0 0) c)) l c.

Definition failAllPending (err : JobError) (w : worker) (c : chans) : worker * chans :=
  (fail_take w,
   fail_observers err (map_to_list (w_observers w)) (fail_results err (map_to_list (w_pending w)) c)).

(** ** Runs of one worker *)

(** What reaches one worker: its methods, in any order, and a reader taking a
    chunk from an observer channel. *)
Inductive wop :=
| OpPending (jobID : string)
| OpDrop (jobID : string)
| OpObserve (jobID : string)
| OpUnobserve (jobID : string)
| OpResult (res : JobResult)
| OpChunk (chunk : JobChunk)
| OpFail (err : JobError)
| OpHeartbeat (hb : Heartbeat) (now : Time)
| OpDrain
| OpRecv (obs : nat).

Definition wstep (op : wop) (w : worker) (c : chans) : worker * chans :=
  match op with
  | OpPending id => (addPending id w c).1
  | OpDrop id => (dropPending id w, c)
  | OpObserve id => (addObserver id w c).1
  | OpUnobserve id => (removeObserver id w, c)
  | OpResult res => resolve res w c
  | OpChunk chunk => accumulate chunk w c
  | OpFail err => failAllPending err w c
  | OpHeartbeat hb now => (applyHeartbeat hb now w, c)
  | OpDrain => (markDraining w, c)
  | OpRecv o => (w, recv_obs o c)
  end.

Definition wrun (ops : list wop) (w : worker) (c : chans) : worker * chans :=
  fold_left (λ s op, wstep op s.1 s.2) ops (w, c).

(** ** The channel discipline *)

(** Every registered waiter has its own empty channel, every registered observer
    its own open one, and nothing has gone wrong. *)
Record disciplined (w : worker) (c : chans) : Prop := {
  d_pending : ∀ id ch, w_pending w !! id = Some ch → c_res c !! ch = Some [];
  d_pending_inj : ∀ i j ch, w_pending w !! i = Some ch → w_pending w !! j = Some ch → i = j;
  d_obs : ∀ id o, w_observers w !! id = Some o → ∃ t b, c_obs c !! o = Some (mkObsChan t b false);
  d_obs_inj : ∀ i j o, w_observers w !! i = Some o → w_observers w !! j = Some o → i = j;
  d_fresh : ∀ ch, (c_next c ≤ ch)%nat → c_res c !! ch = None ∧ c_obs c !! ch = None;
  d_safe : c_panic c = false ∧ c_stuck c = false }.

(** Channels a worker does not hold are left alone, but for what readers take. *)
Definition frames (w : worker) (c c' : chans) : Prop :=
  (c_next c ≤ c_next c')%nat ∧
  (∀ ch l, c_res c !! ch = Some l → (∀ id, w_pending w !! id ≠ Some ch) → c_res c' !! ch = Some l) ∧
  (∀ o x, c_obs c !! o = Some x → (∀ id, w_observers w !! id ≠ Some o) → c_obs c' !! o = Some x).

Lemma disciplined_sub w w' c :
  w_pending w' ⊆ w_pending w → w_observers w' ⊆ w_observers w → disciplined w c → disciplined w' c.
Proof.
  intros Hp Ho [D1 D2 D3 D4 D5 D6]. split; try done.
  - intros id ch H. eapply D1, lookup_weaken; eauto.
  - intros i j ch H1 H2. eapply D2; eapply lookup_weaken; eauto.
  - intros id o H. eapply D3, lookup_weaken; eauto.
  - intros i j o H1 H2. eapply D4; eapply lookup_weaken; eauto.
Qed.

Lemma disciplined_send id ch res w c :
  disciplined w c → w_pending w !! id = Some ch →
  disciplined (dropPending id w) (send_res ch res c) ∧
  c_obs (send_res ch res c) = c_obs c ∧ c_next (send_res ch res c) = c_next c ∧
  c_res (send_res ch res c) = <[ch := [res]]> (c_res c).
Proof.
  intros [D1 D2 D3 D4 D5 D6] H. unfold send_res. rewrite (D1 _ _ H). simpl. split; [|done].
  split; simpl; try done.
  - intros i k [Hne Hi]%lookup_delete_Some. rewrite lookup_insert_ne; [by eapply D1|].
    intros ->. apply Hne. by eapply D2.
  - intros i j k [_ Hi]%lookup_delete_Some [_ Hj]%lookup_delete_Some. by eapply D2.
  - intros k Hk. destruct (D5 k Hk) as [E1 E2]. split; [|done]. apply lookup_insert_None. split; [done|].
    intros ->. specialize (D1 _ _ H). congruence.
Qed.

Lemma disciplined_forward id o chunk w c :
  disciplined w c → w_observers w !! id = Some o →
  disciplined w (forwardChunk o chunk c) ∧ c_res (forwardChunk o chunk c) = c_res c ∧
  c_next (forwardChunk o chunk c) = c_next c ∧
  ∃ x, c_obs (forwardChunk o chunk c) = <[o := x]> (c_obs c).
Proof.
  intros [D1 D2 D3 D4 D5 D6] H. destruct (D3 _ _ H) as (t & b & E). unfold forwardChunk. rewrite E. simpl.
  destruct (length b <? obsCap)%nat.
  - split; [|by eauto]. split; simpl; try done.
    + intros i k Hi. destruct (decide (o = k)) as [->|Hne]; [rewrite lookup_insert_eq; by eauto|].
      rewrite lookup_insert_ne by done. eauto.
    + intros k Hk. destruct (D5 k Hk) as [E1 E2]. split; [done|]. apply lookup_insert_None. split; [done|].
      intros ->. congruence.
  - split; [by split|]. do 2 (split; [done|]). exists (mkObsChan t b false). by rewrite insert_id.
Qed.

Lemma disciplined_close id o w c :
  disciplined w c → w_observers w !! id = Some o →
  disciplined (removeObserver id w) (close_obs o c) ∧ c_res (close_obs o c) = c_res c ∧
  c_next (close_obs o c) = c_next c ∧ ∃ x, c_obs (close_obs o c) = <[o := x]> (c_obs c).
Proof.
  intros [D1 D2 D3 D4 D5 D6] H. destruct (D3 _ _ H) as (t & b & E). unfold close_obs. rewrite E. simpl.
  split; [|by eauto]. split; simpl; try done.
  - intros i k [Hne Hi]%lookup_delete_Some. rewrite lookup_insert_ne; [by eapply D3|].
    intros ->. apply Hne. by eapply D4.
  - intros i j k [_ Hi]%lookup_delete_Some [_ Hj]%lookup_delete_Some. by eapply D4.
  - intros k Hk. destruct (D5 k Hk) as [E1 E2]. split; [done|]. apply lookup_insert_None. split; [done|].
    intros ->. congruence.
Qed.

Lemma disciplined_finish id o chunk w c :
  disciplined w c → w_observers w !! id = Some o →
  let c' := close_obs o (forwardChunk o chunk c) in
  disciplined (removeObserver id w) c' ∧ c_res c' = c_res c ∧ c_next c' = c_next c ∧
  ∃ x, c_obs c' = <[o := x]> (c_obs c).
Proof.
  intros D H. destruct (disciplined_forward id o chunk w c D H) as (D' & E1 & E2 & x & E3).
  destruct (disciplined_close id o w _ D' H) as (D'' & F1 & F2 & y & F3). simpl.
  split; [done|]. split; [congruence|]. split; [congruence|]. exists y. by rewrite F3, E3, insert_insert_eq.
Qed.

Lemma frames_refl w c : frames w c c.
Proof. by repeat split. Qed.

Lemma frames_insert w c c' ch l :
  (c_next c ≤ c_next c')%nat → c_obs c' = c_obs c → c_res c' = <[ch := l]> (c_res c) →
  (∃ id, w_pending w !! id = Some ch) → frames w c c'.
Proof.
  intros Hn Ho Hr [id Hid]. split; [done|]. rewrite Ho, Hr. split; [|done].
  intros k l' Hk Hf. rewrite lookup_insert_ne; [done|]. intros ->. by eapply Hf.
Qed.

Lemma frames_obs_insert w c c' o x :
  (c_next c ≤ c_next c')%nat → c_res c' = c_res c → c_obs c' = <[o := x]> (c_obs c) →
  (∃ id, w_observers w !! id = Some o) → frames w c c'.
Proof.
  intros Hn Hr Ho [id Hid]. split; [done|]. rewrite Ho, Hr. split; [done|].
  intros k l' Hk Hf. rewrite lookup_insert_ne; [done|]. intros ->. by eapply Hf.
Qed.

Lemma frames_trans w w' c1 c2 c3 :
  w_pending w' ⊆ w_pending w → w_observers w' ⊆ w_observers w →
  frames w c1 c2 → frames w' c2 c3 → frames w c1 c3.
Proof.
  intros Hp Ho (A1 & A2 & A3) (B1 & B2 & B3). split; [lia|]. split.
  - intros ch l H Hf. apply B2; [by apply A2|]. intros id Hid. eapply Hf, lookup_weaken; eauto.
  - intros o x H Hf. apply B3; [by apply A3|]. intros id Hid. eapply Hf, lookup_weaken; eauto.
Qed.

Lemma resolve_ok res w c :
  disciplined w c →
  disciplined (resolve res w c).1 (resolve res w c).2 ∧ frames w c (resolve res w c).2 ∧
  c_obs (resolve res w c).2 = c_obs c.
Proof.
  intros D. unfold resolve. destruct (w_pending w !! JobResult_JobID res) as [ch|] eqn:E; simpl.
  - destruct (disciplined_send _ ch res w c D E) as (D' & E1 & E2 & E3). split; [done|]. split; [|done].
    eapply frames_insert; eauto. lia.
  - auto using frames_refl.
Qed.

Lemma accumulate_ok chunk w c :
  disciplined w c →
  disciplined (accumulate chunk w c).1 (accumulate chunk w c).2 ∧ frames w c (accumulate chunk w c).2.
Proof.
  intros D. unfold accumulate, accumulate_delta, accumulate_done, forward_opt.
  set (id := JobChunk_JobID chunk). destruct (negb _); cbn [fst snd].
  - set (w' := set_jobs _ _ _ w). assert (D' : disciplined w' c) by (by eapply disciplined_sub; [..|exact D]).
    destruct (w_observers w !! id) as [o|] eqn:E; [|by auto using frames_refl].
    destruct (disciplined_forward id o chunk w' c D' E) as (? & ? & ? & x & ?). split; [done|].
    eapply frames_obs_insert; eauto. lia.
  - set (w' := set_jobs _ _ _ w). set (c1 := match _ with Some _ => _ | None => _ end).
    assert (disciplined w' c1 ∧ frames w c c1) as [D' F'].
    { subst c1. destruct (w_observers w !! id) as [o|] eqn:E.
      - destruct (disciplined_finish id o chunk w c D E) as (? & ? & ? & x & ?). split.
        + by eapply disciplined_sub; [..|eassumption].
        + eapply frames_obs_insert; eauto. lia.
      - split; [|apply frames_refl]. eapply disciplined_sub; [..|exact D]; [done|apply delete_subseteq]. }
    match goal with |- context [resolve ?r w' c1] => destruct (resolve_ok r w' c1 D') as (D2 & F2 & _) end.
    split; [done|]. eapply frames_trans; [..|exact F2]; try done. apply delete_subseteq.
Qed.

(** *** failAllPending *)

Lemma foldr_delete_comm (m : gmap string nat) i l : foldr delete (delete i m) l = delete i (foldr delete m l).
Proof. induction l as [|x l IH]; simpl; [done|]. by rewrite IH, delete_delete. Qed.

Lemma foldr_delete_sub (m : gmap string nat) l : foldr delete m l ⊆ m.
Proof. induction l as [|x l IH]; simpl; [done|]. etrans; [apply delete_subseteq|done]. Qed.

Lemma fail_results_ok err l w c :
  disciplined w c → NoDup l.*1 → (∀ id ch, (id, ch) ∈ l → w_pending w !! id = Some ch) →
  let c' := fail_results err l c in
  disciplined (set_jobs (foldr delete (w_pending w) l.*1) (w_streams w) (w_observers w) w) c' ∧
  frames w c c' ∧ c_obs c' = c_obs c ∧
  (∀ id ch, (id, ch) ∈ l → c_res c' !! ch = Some [mkJobResult id "" (Some err) 0 [] "" 0 0]).
Proof.
  revert w c. induction l as [|[i k] l IH]; intros w c D Hnd Hl.
  { simpl. split; [by eapply disciplined_sub; [..|exact D]|]. split; [apply frames_refl|]. split; [done|].
    intros ? ? ?%not_elem_of_nil. done. }
  apply NoDup_cons in Hnd as [Hni Hnd]. cbn [fail_results fold_left].
  set (r := mkJobResult i "" (Some err) 0 [] "" 0 0). assert (Hi : w_pending w !! i = Some k) by (apply Hl; left).
  destruct (disciplined_send i k r w c D Hi) as (D' & E1 & E2 & E3).
  destruct (IH (dropPending i w) (send_res k r c)) as (D2 & F2 & O2 & R2); [done|done| |].
  { intros id ch H. simpl. rewrite lookup_delete_ne; [by apply Hl; right|]. intros ->.
    apply Hni. apply list_elem_of_fmap. by exists (id, ch). }
  fold (fail_results err l (send_res k r c)). cbn zeta in D2, F2, O2, R2. split_and!.
  - eapply disciplined_sub; [..|exact D2]; simpl; [|done]. by rewrite foldr_delete_comm.
  - eapply frames_trans; [..|exact F2]; [apply delete_subseteq|done|].
    eapply frames_insert; eauto. lia.
  - congruence.
  - intros id ch [[= -> ->]|H]%elem_of_cons; [|by apply R2].
    destruct F2 as (_ & F2 & _). apply F2; [by rewrite E3, lookup_insert_eq|].
    intros j Hj. simpl in Hj. apply lookup_delete_Some in Hj as [Hne Hj]. apply Hne. destruct D. by eauto.
Qed.

Lemma fail_observers_ok err l w c :
  disciplined w c → NoDup l.*1 → (∀ id o, (id, o) ∈ l → w_observers w !! id = Some o) →
  let c' := fail_observers err l c in
  disciplined (set_jobs (w_pending w) (w_streams w) (foldr delete (w_observers w) l.*1) w) c' ∧
  frames w c c' ∧ c_res c' = c_res c ∧
  (∀ id o, (id, o) ∈ l → oc_closed <$> c_obs c' !! o = Some true).
Proof.
  revert w c. induction l as [|[i k] l IH]; intros w c D Hnd Hl.
  { simpl. split; [by eapply disciplined_sub; [..|exact D]|]. split; [apply frames_refl|]. split; [done|].
    intros ? ? ?%not_elem_of_nil. done. }
  apply NoDup_cons in Hnd as [Hni Hnd]. cbn [fail_observers fold_left].
  set (r := mkJobChunk i "" true (Some err) 0 [] "" 0 0).
  assert (Hi : w_observers w !! i = Some k) by (apply Hl; left).
  destruct (disciplined_finish i k r w c D Hi) as (D' & E1 & E2 & x & E3).
  set (c1 := close_obs k _) in *.
  assert (Hcl : oc_closed <$> c_obs c1 !! k = Some true).
  { subst c1. destruct (disciplined_forward i k r w c D Hi) as (D1 & _). destruct D1.
    destruct (d_obs0 _ _ Hi) as (t & b & E). unfold close_obs. rewrite E. simpl. by rewrite lookup_insert_eq. }
  destruct (IH (removeObserver i w) c1) as (D2 & F2 & O2 & R2); [done|done| |].
  { intros id ch H. simpl. rewrite lookup_delete_ne; [by apply Hl; right|]. intros ->.
    apply Hni. apply list_elem_of_fmap. by exists (id, ch). }
  fold (fail_observers err l c1). cbn zeta in D2, F2, O2, R2. split_and!.
  - eapply disciplined_sub; [..|exact D2]; simpl; [done|]. by rewrite foldr_delete_comm.
  - eapply frames_trans; [..|exact F2]; [done|apply delete_subseteq|].
    eapply frames_obs_insert; eauto. lia.
  - congruence.
  - intros id ch [[= -> ->]|H]%elem_of_cons; [|by eapply R2].
    destruct F2 as (_ & _ & F2). destruct (c_obs c1 !! k) as [y|] eqn:Ey; [|done].
    erewrite F2; [exact Hcl|done|]. intros j Hj. simpl in Hj. apply lookup_delete_Some in Hj as [Hne Hj]. apply Hne. destruct D. by eauto.
Qed.

Lemma failAllPending_ok err w c :
  disciplined w c →
  disciplined (failAllPending err w c).1 (failAllPending err w c).2 ∧ frames w c (failAllPending err w c).2 ∧
  (∀ id ch, w_pending w !! id = Some ch →
     c_res (failAllPending err w c).2 !! ch = Some [mkJobResult id "" (Some err) 0 [] "" 0 0]) ∧
  (∀ id o, w_observers w !! id = Some o → oc_closed <$> c_obs (failAllPending err w c).2 !! o = Some true).
Proof.
  intros D. unfold failAllPending. cbn [fst snd].
  destruct (fail_results_ok err (map_to_list (w_pending w)) w c D) as (D1 & F1 & O1 & R1).
  { apply NoDup_fst_map_to_list. }
  { intros id ch H. by apply elem_of_map_to_list. }
  set (c1 := fail_results _ _ _) in *. set (w1 := set_jobs _ _ _ w) in D1.
  destruct (fail_observers_ok err (map_to_list (w_observers w)) w1 c1 D1) as (D2 & F2 & O2 & R2).
  { apply NoDup_fst_map_to_list. }
  { intros id ch H. by apply elem_of_map_to_list. }
  split_and!.
  - eapply disciplined_sub; [..|exact D2]; apply map_empty_subseteq.
  - eapply frames_trans; [..|exact F2]; [|done|done]. simpl. apply foldr_delete_sub.
  - intros id ch H. rewrite O2. by apply R1, elem_of_map_to_list.
  - intros id o H. by eapply R2, elem_of_map_to_list.
Qed.

(** *** The remaining methods *)

Lemma addPending_ok id w c :
  disciplined w c →
  disciplined (addPending id w c).1.1 (addPending id w c).1.2 ∧ frames w c (addPending id w c).1.2.
Proof.
  intros [D1 D2 D3 D4 D5 D6]. simpl. destruct (D5 (c_next c)) as [N1 N2]; [lia|].
  assert (Hne : ∀ i, w_pending w !! i ≠ Some (c_next c)) by (intros i Hi; specialize (D1 _ _ Hi); congruence).
  split; [split; simpl; try done|split; simpl; [lia|]].
  - intros i ch [[<- <-]|[_ Hi]]%lookup_insert_Some; [by rewrite lookup_insert_eq|].
    rewrite lookup_insert_ne; [by eapply D1|]. intros <-. by eapply Hne.
  - intros i j ch [[<- <-]|[_ Hi]]%lookup_insert_Some [[<- E]|[_ Hj]]%lookup_insert_Some; try done.
    + by apply Hne in Hj.
    + subst. by apply Hne in Hi.
    + by eapply D2.
  - intros ch Hch. destruct (D5 ch); [lia|]. split; [|done]. apply lookup_insert_None. split; [done|lia].
  - split; [|done]. intros ch l Hl _. rewrite lookup_insert_ne; [done|]. congruence.
Qed.

Lemma addObserver_ok id w c :
  disciplined w c →
  disciplined (addObserver id w c).1.1 (addObserver id w c).1.2 ∧ frames w c (addObserver id w c).1.2.
Proof.
  intros [D1 D2 D3 D4 D5 D6]. simpl. destruct (D5 (c_next c)) as [N1 N2]; [lia|].
  assert (Hne : ∀ i, w_observers w !! i ≠ Some (c_next c)).
  { intros i Hi. destruct (D3 _ _ Hi) as (? & ? & ?). congruence. }
  split; [split; simpl; try done|split; simpl; [lia|]].
  - intros i ch [[<- <-]|[_ Hi]]%lookup_insert_Some; [rewrite lookup_insert_eq; by eauto|].
    rewrite lookup_insert_ne; [by eapply D3|]. intros <-. by eapply Hne.
  - intros i j ch [[<- <-]|[_ Hi]]%lookup_insert_Some [[<- E]|[_ Hj]]%lookup_insert_Some; try done.
    + by apply Hne in Hj.
    + subst. by apply Hne in Hi.
    + by eapply D4.
  - intros ch Hch. destruct (D5 ch); [lia|]. split; [done|]. apply lookup_insert_None. split; [done|lia].
  - split; [done|]. intros ch l Hl _. rewrite lookup_insert_ne; [done|]. congruence.
Qed.

Lemma recv_obs_ok o w c :
  disciplined w c → disciplined w (recv_obs o c) ∧ c_next (recv_obs o c) = c_next c ∧ c_res (recv_obs o c) = c_res c.
Proof.
  intros D. unfold recv_obs. destruct (c_obs c !! o) as [[t [|x b] cl]|] eqn:E; try done.
  split; [|done]. destruct D as [D1 D2 D3 D4 D5 D6]. split; simpl; try done.
  - intros i k Hi. destruct (D3 _ _ Hi) as (t' & b' & E'). destruct (decide (o = k)) as [->|Hne].
    + rewrite lookup_insert_eq. rewrite E in E'. simplify_eq. by eauto.
    + rewrite lookup_insert_ne by done. eauto.
  - intros k Hk. destruct (D5 k Hk). split; [done|]. apply lookup_insert_None. split; [done|]. congruence.
Qed.

Lemma wstep_disciplined op w c :
  disciplined w c → disciplined (wstep op w c).1 (wstep op w c).2.
Proof.
  intros D. destruct op; cbn [wstep fst snd].
  - by apply addPending_ok.
  - eapply disciplined_sub; [..|exact D]; [apply delete_subseteq|done].
  - by apply addObserver_ok.
  - eapply disciplined_sub; [..|exact D]; [done|apply delete_subseteq].
  - by apply resolve_ok.
  - by apply accumulate_ok.
  - by apply failAllPending_ok.
  - by eapply disciplined_sub; [..|exact D].
  - by eapply disciplined_sub; [..|exact D].
  - by apply recv_obs_ok.
Qed.

Lemma wrun_disciplined ops w c :
  disciplined w c → disciplined (wrun ops w c).1 (wrun ops w c).2.
Proof.
  unfold wrun. revert w c. induction ops as [|op ops IH]; intros w c D; [done|]. cbn [fold_left fst snd].
  destruct (wstep op w c) as [w' c'] eqn:E. apply IH. generalize (wstep_disciplined op w c D). by rewrite E.
Qed.

(** ** Properties *)

(** The struct literal of [Connect]. *)
Definition newWorker (id : string) (models : option (list Model)) (registeredAt : Time) : worker :=
  mkW id [] false ∅ ∅ ∅ registeredAt models registeredAt 0 0 0 0 "" None false.

Lemma newWorker_disciplined id models now : disciplined (newWorker id models now) chans_init.
Proof. split; simpl; try done; intros *; rewrite lookup_empty; done. Qed.

(** Whatever sequence of jobs, chunks, results, heartbeats, cancellations,
    drops and reads a worker stream goes through, no send hits a closed channel,
    no channel is closed twice and no send blocks on a full result channel; and
    when the stream then drops, every waiter still registered receives exactly
    the error, every observer is closed, and nothing is left in flight. *)
Theorem worker_drop_answers_all id models now ops err :
  let '(w, c) := wrun ops (newWorker id models now) chans_init in
  let '(w', c') := failAllPending err w c in
  c_panic c = false ∧ c_stuck c = false ∧ c_panic c' = false ∧ c_stuck c' = false ∧
  inFlight w' = 0 ∧ w_streams w' = ∅ ∧ w_observers w' = ∅ ∧
  (∀ j ch, w_pending w !! j = Some ch →
     c_res c !! ch = Some [] ∧ c_res c' !! ch = Some [mkJobResult j "" (Some err) 0 [] "" 0 0]) ∧
  (∀ j o, w_observers w !! j = Some o →
     oc_closed <$> c_obs c !! o = Some false ∧ oc_closed <$> c_obs c' !! o = Some true).
Proof.
  destruct (wrun ops _ _) as [w c] eqn:E.
  assert (D : disciplined w c).
  { generalize (wrun_disciplined ops _ _ (newWorker_disciplined id models now)). by rewrite E. }
  destruct (failAllPending_ok err w c D) as (D' & _ & R & O).
  destruct (failAllPending err w c) as [w' c'] eqn:E'. cbn [fst snd] in *.
  destruct (d_safe _ _ D) as [S1 S2], (d_safe _ _ D') as [S3 S4]. injection E' as <- _. split_and!; try done.
  - intros j ch H. split; [by eapply d_pending|by apply R].
  - intros j o H. split; [|by eapply O]. destruct (d_obs _ _ D _ _ H) as (t & b & ->). done.
Qed.

(** *** Streaming: the result is the stream *)

(** An operation that does not end, restart or answer job [id]. *)
Definition keeps (id : string) (op : wop) : bool :=
  match op with
  | OpPending j | OpDrop j => negb (j =? id)%string
  | OpResult res => negb (JobResult_JobID res =? id)%string
  | OpChunk chunk => negb (JobChunk_JobID chunk =? id)%string || negb (JobChunk_Done chunk)
  | OpFail _ => false
  | _ => true
  end.

(** The deltas of job [id], concatenated in order. *)
Definition delta_of (id : string) (op : wop) : string :=
  match op with
  | OpChunk chunk => if (JobChunk_JobID chunk =? id)%string then JobChunk_Delta chunk else ""
  | _ => ""
  end.
Definition deltas (id : string) (ops : list wop) : string := foldr (λ op s, delta_of id op +:+ s) "" ops.

Lemma resolve_maps res w c id :
  JobResult_JobID res ≠ id →
  w_pending (resolve res w c).1 !! id = w_pending w !! id ∧ w_streams (resolve res w c).1 = w_streams w ∧
  w_observers (resolve res w c).1 = w_observers w.
Proof. intros Hne. unfold resolve. case_match; simpl; [|done]. by rewrite lookup_delete_ne. Qed.

Lemma resolve_pending_none res w c ch :
  (∀ j, w_pending w !! j ≠ Some ch) → ∀ j, w_pending (resolve res w c).1 !! j ≠ Some ch.
Proof.
  intros H j. unfold resolve. case_match; [|apply H]. simpl. rewrite lookup_delete_Some. intros [_ ?]. by eapply H.
Qed.

Lemma wstep_stream id op w c :
  keeps id op = true →
  w_pending (wstep op w c).1 !! id = w_pending w !! id ∧
  default "" (w_streams (wstep op w c).1 !! id) = default "" (w_streams w !! id) +:+ delta_of id op.
Proof.
  destruct op; cbn [keeps wstep delta_of]; intros Hk; rewrite ?negb_true_iff, ?String.eqb_neq in Hk;
    simpl; rewrite ?lookup_insert_ne, ?lookup_delete_ne, ?string_app_nil_r by done; try done.
  - destruct (resolve_maps res w c id Hk) as (-> & -> & _). done.
  - unfold accumulate, accumulate_delta, accumulate_done.
    destruct (JobChunk_Done chunk) eqn:Ed; cbn [negb].
    + rewrite orb_false_r, negb_true_iff in Hk. rewrite Hk. apply String.eqb_neq in Hk.
      set (w' := set_jobs _ _ _ w). set (c' := match _ with Some _ => _ | None => _ end).
      match goal with |- context [resolve ?r w' c'] =>
        destruct (resolve_maps r w' c' id Hk) as (-> & -> & _) end.
      simpl. by rewrite lookup_delete_ne, string_app_nil_r.
    + simpl. split; [done|]. destruct (String.eqb_spec (JobChunk_JobID chunk) id) as [->|Hne].
      * by rewrite lookup_insert_eq.
      * by rewrite lookup_insert_ne, string_app_nil_r.
Qed.

Lemma wrun_stream id ops w c :
  forallb (keeps id) ops = true →
  w_pending (wrun ops w c).1 !! id = w_pending w !! id ∧
  default "" (w_streams (wrun ops w c).1 !! id) = default "" (w_streams w !! id) +:+ deltas id ops.
Proof.
  unfold wrun. revert w c. induction ops as [|op ops IH]; intros w c H.
  { simpl. by rewrite string_app_nil_r. }
  apply andb_true_iff in H as [H1 H2]. cbn [fold_left fst snd deltas foldr].
  destruct (wstep_stream id op w c H1) as [E1 E2]. destruct (wstep op w c) as [w' c'].
  destruct (IH w' c' H2) as [-> ->]. simpl in E1, E2. rewrite E1, E2. split; [done|]. by rewrite string_app_assoc.
Qed.

Lemma accumulate_terminal chunk w c ch :
  disciplined w c → w_pending w !! JobChunk_JobID chunk = Some ch → JobChunk_Done chunk = true →
  let s := accumulate chunk w c in
  c_res s.2 !! ch =
    Some [result_of chunk (default "" (w_streams w !! JobChunk_JobID chunk) +:+ JobChunk_Delta chunk)] ∧
  w_pending s.1 !! JobChunk_JobID chunk = None ∧ w_streams s.1 !! JobChunk_JobID chunk = None.
Proof.
  intros D Hp Hd. unfold accumulate, accumulate_done. rewrite Hd. cbn [negb]. set (id := JobChunk_JobID chunk) in *.
  set (w' := set_jobs _ _ _ w). set (c' := match _ with Some _ => _ | None => _ end). unfold resolve.
  change (JobResult_JobID _) with id. change (w_pending w' !! id) with (w_pending w !! id). rewrite Hp.
  assert (Hc : c_res c' = c_res c).
  { subst c'. destruct (w_observers w !! id) as [o|] eqn:E; [|done].
    by destruct (disciplined_finish id o chunk w c D E) as (_ & ? & _). }
  cbn [fst snd]. unfold send_res. rewrite Hc, (d_pending _ _ D _ _ Hp). simpl.
  by rewrite lookup_insert_eq, !lookup_delete_eq.
Qed.

(** The result a streaming job's waiter receives is the stream: with any
    traffic of other jobs interleaved, the terminal chunk resolves the waiter with
    the deltas of that job concatenated in order plus its trailing delta (the
    empty output when it carries an error), and leaves no state of the job behind. *)
Theorem stream_output wid models now pre id ops chunk :
  w_streams (wrun pre (newWorker wid models now) chans_init).1 !! id = None →
  forallb (keeps id) ops = true → JobChunk_JobID chunk = id → JobChunk_Done chunk = true →
  let '(w0, c0) := wrun pre (newWorker wid models now) chans_init in
  let '(w1, c1, ch) := addPending id w0 c0 in
  let '(w2, c2) := wrun ops w1 c1 in
  let '(w3, c3) := accumulate chunk w2 c2 in
  c_res c3 !! ch = Some [result_of chunk (deltas id ops +:+ JobChunk_Delta chunk)] ∧
  w_pending w3 !! id = None ∧ w_streams w3 !! id = None.
Proof.
  intros Hs Hk <- Hd. destruct (wrun pre _ _) as [w0 c0] eqn:E0.
  assert (D0 : disciplined w0 c0).
  { generalize (wrun_disciplined pre _ _ (newWorker_disciplined wid models now)). by rewrite E0. }
  destruct (addPending_ok (JobChunk_JobID chunk) w0 c0 D0) as [D1 _].
  assert (P1 : w_pending (addPending (JobChunk_JobID chunk) w0 c0).1.1 !! JobChunk_JobID chunk
               = Some (addPending (JobChunk_JobID chunk) w0 c0).2) by (simpl; by rewrite lookup_insert_eq).
  assert (S1 : w_streams (addPending (JobChunk_JobID chunk) w0 c0).1.1 = w_streams w0) by done.
  destruct (addPending (JobChunk_JobID chunk) w0 c0) as [[w1 c1] ch]. cbn [fst snd] in *.
  pose proof (wrun_disciplined ops w1 c1 D1) as D2. destruct (wrun_stream _ ops w1 c1 Hk) as [P2 S2].
  destruct (wrun ops w1 c1) as [w2 c2]. cbn [fst snd] in *. rewrite P1 in P2. rewrite S1, Hs in S2.
  pose proof (accumulate_terminal chunk w2 c2 ch D2 P2 Hd) as H. destruct (accumulate chunk w2 c2). simpl in H.
  by rewrite S2 in H.
Qed.

Definition ex_delta (id d : string) : JobChunk := mkJobChunk id d false None 0 [] "" 0 0.
Definition ex_done (id d : string) : JobChunk := mkJobChunk id d true None 2 [] "stop" 0 0.
Definition ex_time : Time := 1000000000.

Lemma stream_output_witness :
  ∃ c ch, c_res c !! ch = Some [result_of (ex_done "j" "!") "Hello!"].
Proof.
  pose proof (stream_output "w" None ex_time [OpPending "k"] "j"
    [OpChunk (ex_delta "j" "Hel"); OpChunk (ex_delta "k" "noise"); OpDrain; OpChunk (ex_delta "j" "lo");
     OpChunk (ex_done "k" "")] (ex_done "j" "!") eq_refl eq_refl eq_refl eq_refl) as H.
  destruct (wrun _ _ _) as [w0 c0]. destruct (addPending "j" w0 c0) as [[w1 c1] ch].
  destruct (wrun _ w1 c1) as [w2 c2]. destruct (accumulate _ w2 c2) as [w3 c3].
  exists c3, ch. apply H.
Defined.

(** *** Observers *)

Definition forwards (id : string) (op : wop) : option JobChunk :=
  match op with
  | OpChunk chunk => if (JobChunk_JobID chunk =? id)%string then Some chunk else None
  | _ => None
  end.

(** Operations after which the observer of [id] is still the same open one. *)
Definition keeps_obs (id : string) (op : wop) : bool :=
  match op with
  | OpObserve j | OpUnobserve j => negb (j =? id)%string
  | OpChunk chunk => negb (JobChunk_JobID chunk =? id)%string || negb (JobChunk_Done chunk)
  | OpFail _ => false
  | _ => true
  end.

(** What observer [o] has been given, in order. *)
Definition seen (o : nat) (c : chans) : list JobChunk :=
  match c_obs c !! o with Some x => oc_taken x ++ oc_buf x | None => [] end.

Lemma seen_forward o chunk c t b :
  c_obs c !! o = Some (mkObsChan t b false) →
  seen o (forwardChunk o chunk c) = seen o c ++ (if (length b <? obsCap)%nat then [chunk] else []).
Proof.
  intros E. unfold forwardChunk. rewrite E. cbn [oc_closed oc_buf oc_taken].
  destruct (length b <? obsCap)%nat; unfold seen; cbn [c_obs].
  - rewrite lookup_insert_eq, E. simpl. by rewrite app_assoc.
  - by rewrite E, app_nil_r.
Qed.

Lemma seen_recv o o' c : seen o (recv_obs o' c) = seen o c.
Proof.
  unfold seen, recv_obs. destruct (c_obs c !! o') as [[t [|x b] cl]|] eqn:E; try done. simpl.
  destruct (decide (o' = o)) as [->|Hne].
  - rewrite lookup_insert_eq, E. simpl. by rewrite <- app_assoc.
  - by rewrite lookup_insert_ne.
Qed.

Lemma seen_frames o w c c' x :
  frames w c c' → c_obs c !! o = Some x → (∀ id, w_observers w !! id ≠ Some o) → seen o c' = seen o c.
Proof. intros (_ & _ & F) E Hf. unfold seen. by rewrite E, (F _ _ E Hf). Qed.

Lemma accumulate_obs chunk w c :
  disciplined w c →
  w_observers (accumulate chunk w c).1 =
    (if JobChunk_Done chunk then delete (JobChunk_JobID chunk) (w_observers w) else w_observers w) ∧
  c_obs (accumulate chunk w c).2 =
    match w_observers w !! JobChunk_JobID chunk with
    | Some o => c_obs (if JobChunk_Done chunk then close_obs o (forwardChunk o chunk c) else forwardChunk o chunk c)
    | None => c_obs c
    end.
Proof.
  intros D. unfold accumulate, accumulate_delta, accumulate_done, forward_opt.
  destruct (JobChunk_Done chunk); cbn [negb].
  - set (w' := set_jobs _ _ _ w). set (c' := match _ with Some _ => _ | None => _ end).
    assert (E : c_obs c' = match w_observers w !! JobChunk_JobID chunk with
                           | Some o => c_obs (close_obs o (forwardChunk o chunk c)) | None => c_obs c end).
    { subst c'. by case_match. }
    unfold resolve. destruct (w_pending w' !! _); cbn [fst snd]; (split; [done|]); rewrite <- E; [|done].
    unfold send_res. by repeat case_match.
  - cbn [fst snd]. split; [done|]. by case_match.
Qed.

Lemma wstep_observer id o op w c :
  disciplined w c → w_observers w !! id = Some o → keeps_obs id op = true →
  w_observers (wstep op w c).1 !! id = Some o ∧
  ∃ r, seen o (wstep op w c).2 = seen o c ++ r ∧
       (r = option_list (forwards id op) ∨ (r = [] ∧ (obsCap ≤ length (seen o c))%nat)).
Proof.
  intros D Ho Hk. destruct (d_obs _ _ D _ _ Ho) as (t & b & Eo).
  assert (Hsame : ∀ c', c_obs c' = c_obs c → seen o c' = seen o c ++ []).
  { intros c' E. unfold seen. by rewrite E, app_nil_r. }
  destruct op; cbn [keeps_obs wstep forwards] in *; rewrite ?negb_true_iff, ?String.eqb_neq in Hk;
    cbn [fst snd option_list].
  - split; [done|]. exists []. by auto.
  - split; [done|]. exists []. by auto.
  - simpl. rewrite lookup_insert_ne by done. split; [done|]. exists []. split; [|by auto].
    rewrite app_nil_r. unfold seen. simpl. rewrite lookup_insert_ne; [done|].
    intros <-. destruct (d_fresh _ _ D (c_next c)) as [_ E]; [lia|]. congruence.
  - simpl. rewrite lookup_delete_ne by done. split; [done|]. exists []. by auto.
  - destruct (resolve_ok res w c D) as (_ & _ & E). split; [|exists []; by auto].
    unfold resolve. by case_match.
  - destruct (accumulate_obs chunk w c D) as [E1 E2]. unfold seen at 1. rewrite E1, E2.
    revert Hk. destruct (String.eqb_spec (JobChunk_JobID chunk) id) as [<-|Hne]; intros Hk.
    + simpl in Hk. apply negb_true_iff in Hk. rewrite Hk, Ho. split; [done|].
      change (match c_obs (forwardChunk o chunk c) !! o with Some x => _ | None => _ end)
        with (seen o (forwardChunk o chunk c)).
      rewrite (seen_forward o chunk c t b Eo). eexists. split; [done|].
      destruct (length b <? obsCap)%nat eqn:El; [by left|right]. split; [done|]. zbool. unfold seen. rewrite Eo, length_app. simpl. lia.
    + split; [destruct (JobChunk_Done chunk); [by rewrite lookup_delete_ne|done]|]. exists []. split; [|by auto]. rewrite app_nil_r.
      destruct (w_observers w !! JobChunk_JobID chunk) as [o'|] eqn:Eo'; [|done].
      assert (o' ≠ o) by (intros ->; apply Hne; by eapply d_obs_inj).
      destruct (disciplined_forward _ o' chunk w c D Eo') as (_ & _ & _ & x & Ex).
      destruct (disciplined_finish _ o' chunk w c D Eo') as (_ & _ & _ & y & Ey).
      unfold seen. destruct (JobChunk_Done chunk); rewrite ?Ex, ?Ey, lookup_insert_ne; done.
  - done.
  - split; [done|]. exists []. by auto.
  - split; [done|]. exists []. by auto.
  - split; [done|]. exists []. rewrite seen_recv, app_nil_r. by auto.
Qed.

(** A streaming observer sees its job's chunks in order and nothing of other
    jobs: what it has received and has waiting is a subsequence of the chunks the
    worker sent for that job since it subscribed, and is all of them as long as
    they are no more than the 64 its channel holds. *)
Theorem observer_sees_stream wid models now pre id ops :
  forallb (keeps_obs id) ops = true →
  let '(w0, c0) := wrun pre (newWorker wid models now) chans_init in
  let '(w1, c1, o) := addObserver id w0 c0 in
  let '(w2, c2) := wrun ops w1 c1 in
  let sent := omap (forwards id) ops in
  sublist (seen o c2) sent ∧ (length sent ≤ 64 → seen o c2 = sent)%nat.
Proof.
  intros Hk. destruct (wrun pre _ _) as [w0 c0] eqn:E0.
  assert (D0 : disciplined w0 c0).
  { generalize (wrun_disciplined pre _ _ (newWorker_disciplined wid models now)). by rewrite E0. }
  destruct (addObserver_ok id w0 c0 D0) as [D1 _].
  assert (O1 : w_observers (addObserver id w0 c0).1.1 !! id = Some (addObserver id w0 c0).2
               ∧ seen (addObserver id w0 c0).2 (addObserver id w0 c0).1.2 = []).
  { unfold seen. simpl. by rewrite !lookup_insert_eq. }
  destruct (addObserver id w0 c0) as [[w1 c1] o]. cbn [fst snd] in *. destruct O1 as [O1 S1].
  enough (G : ∀ l s, sublist (seen o s.2) l → (length l ≤ 64 → seen o s.2 = l)%nat → disciplined s.1 s.2 →
            w_observers s.1 !! id = Some o →
            let s' := fold_left (λ s op, wstep op s.1 s.2) ops s in
            sublist (seen o s'.2) (l ++ omap (forwards id) ops) ∧
            (length (l ++ omap (forwards id) ops) ≤ 64 → seen o s'.2 = l ++ omap (forwards id) ops)%nat).
  { specialize (G [] (w1, c1)). cbn zeta in G. unfold wrun. destruct (fold_left _ ops _). simpl in G.
    apply G; rewrite ?S1; done. }
  clear -Hk. induction ops as [|op ops IH]; intros l [w c] H1 H2 D Ho; cbn [fold_left fst snd] in *.
  { simpl. by rewrite app_nil_r. }
  apply andb_true_iff in Hk as [Hk1 Hk2].
  destruct (wstep_observer id o op w c D Ho Hk1) as (Ho' & r & Er & Hr).
  specialize (IH Hk2 (l ++ option_list (forwards id op)) (wstep op w c)).
  replace (l ++ omap (forwards id) (op :: ops))
    with ((l ++ option_list (forwards id op)) ++ omap (forwards id) ops)
    by (rewrite <- app_assoc; simpl; by case_match).
  apply IH; [..|by apply wstep_disciplined|done]; rewrite Er.
  - destruct Hr as [->|[-> _]]; [by apply sublist_app|]. rewrite app_nil_r. by apply sublist_inserts_r.
  - rewrite length_app. intros Hlen. rewrite H2 in * by lia. destruct Hr as [->|[-> Hful]]; [done|].
    unfold obsCap in Hful. destruct (forwards id op); simpl in *; [lia|done].
Qed.

Lemma observer_sees_stream_witness :
  ∃ o c, seen o c = [ex_delta "j" "a"; ex_delta "j" "b"] ∧ oc_taken <$> c_obs c !! o = Some [ex_delta "j" "a"].
Proof.
  pose proof (observer_sees_stream "w" None ex_time [OpPending "j"] "j"
    [OpChunk (ex_delta "j" "a"); OpChunk (ex_delta "k" "x"); OpRecv 1; OpChunk (ex_delta "j" "b")] eq_refl) as H.
  vm_compute in H. destruct H as [_ H].
  exists 1%nat, (wrun [OpPending "j"; OpObserve "j"; OpChunk (ex_delta "j" "a"); OpChunk (ex_delta "k" "x"); OpRecv 1;
                 OpChunk (ex_delta "j" "b")] (newWorker "w" None ex_time) chans_init).2.
  split; [|vm_compute; reflexivity]. etrans; [|apply H; vm_compute; lia]. vm_compute. reflexivity.
Defined.

(** A terminal chunk that finds the observer's channel full is dropped, and the
    channel is then closed: the reader's stream ends with no terminal chunk, though
    the waiter does get the result. *)
Theorem terminal_chunk_dropped :
  let ops := [OpPending "j"; OpObserve "j"] ++ replicate obsCap (OpChunk (ex_delta "j" "t"))
             ++ [OpChunk (ex_done "j" "")] in
  let c := (wrun ops (newWorker "w" None ex_time) chans_init).2 in
  oc_closed <$> c_obs c !! 1%nat = Some true ∧ existsb JobChunk_Done (seen 1 c) = false ∧
  JobResult_FinishReason <$> default [] (c_res c !! 0%nat) = ["stop"].
Proof. vm_compute. done. Qed.

(** A job whose caller gave up leaves its partial output in the worker's
    buffer, and a later job with the same id is answered with both outputs. *)
Theorem abandoned_output_kept :
  let ops := [OpPending "j"; OpChunk (ex_delta "j" "old "); OpDrop "j";
              OpPending "j"; OpChunk (ex_delta "j" "new"); OpChunk (ex_done "j" "")] in
  let c := (wrun ops (newWorker "w" None ex_time) chans_init).2 in
  JobResult_Output <$> default [] (c_res c !! 1%nat) = ["old new"].
Proof. vm_compute. done. Qed.

(** Two jobs in flight under one id: the second registration replaces the
    first waiter, whose channel then stays empty whatever the worker sends and
    even when the stream drops. *)
Theorem duplicate_id_orphans_waiter wid models now id ops :
  let '(w1, c1, ch) := addPending id (newWorker wid models now) chans_init in
  let '(w2, c2, ch2) := addPending id w1 c1 in
  c_res (wrun ops w2 c2).2 !! ch = Some [] ∧ ch ≠ ch2.
Proof.
  cbn [addPending make_res]. set (w1 := set_jobs _ _ _ (newWorker _ _ _)). set (c1 := mkChans _ _ _ _ _).
  destruct (addPending_ok id (newWorker wid models now) chans_init (newWorker_disciplined _ _ _)) as [D1 _].
  destruct (addPending_ok id w1 c1 D1) as [D2 _]. cbn [addPending make_res fst snd] in D2.
  set (w2 := set_jobs _ _ _ w1) in *. set (c2 := mkChans _ _ _ _ _) in *.
  enough (G : ∀ ops w c, disciplined w c → (0 < c_next c)%nat → c_res c !! 0%nat = Some [] →
              (∀ j, w_pending w !! j ≠ Some 0%nat) → c_res (wrun ops w c).2 !! 0%nat = Some []).
  { split; [|done]. apply G; try done; [simpl; lia|]. intros j Hj. subst w2 w1. simpl in Hj.
    rewrite insert_insert_eq, insert_empty, lookup_singleton_Some in Hj. by destruct Hj. }
  clear. unfold wrun. induction ops as [|op ops IH]; intros w c D Hn H0 Hp; [done|]. cbn [fold_left fst snd].
  assert (Hstep : c_res (wstep op w c).2 !! 0%nat = Some [] ∧ (0 < c_next (wstep op w c).2)%nat ∧
                  ∀ j, w_pending (wstep op w c).1 !! j ≠ Some 0%nat).
  { clear IH. pose proof (wstep_disciplined op w c D) as D'. destruct op; cbn [wstep fst snd] in *.
    - destruct (addPending_ok jobID w c D) as [_ (F1 & F2 & _)]. split; [by apply F2|]. split; [lia|].
      intros j. simpl. rewrite lookup_insert_Some. intros [[_ ?]|[_ ?]]; [lia|by eapply Hp].
    - split; [done|]. split; [done|]. intros j. simpl. rewrite lookup_delete_Some. intros [_ ?]. by eapply Hp.
    - destruct (addObserver_ok jobID w c D) as [_ (F1 & F2 & _)]. split; [by apply F2|]. split; [lia|done].
    - done.
    - destruct (resolve_ok res w c D) as (_ & (F1 & F2 & _) & _). split; [by apply F2|]. split; [lia|].
      apply resolve_pending_none, Hp.
    - destruct (accumulate_ok chunk w c D) as (_ & (F1 & F2 & _)). split; [by apply F2|]. split; [lia|].
      unfold accumulate. destruct (negb _); [exact Hp|]. apply resolve_pending_none, Hp.
    - destruct (failAllPending_ok err w c D) as (_ & (F1 & F2 & _) & _). split; [by apply F2|]. split; [lia|].
      intros j. simpl. by rewrite lookup_empty.
    - done.
    - done.
    - destruct (recv_obs_ok obs w c D) as (_ & -> & ->). done. }
  destruct Hstep as (A1 & A2 & A3). pose proof (wstep_disciplined op w c D).
  destruct (wstep op w c) as [w' c']. by apply IH.
Qed.

(** The methods drop [w.mu] before they touch a channel; two of them interleaved. *)
Module Interleaving.
(** A delta chunk whose [accumulate] has read the observer, overtaken by the
    [failAllPending] of an eviction, is sent on a closed channel: the process
    panics. *)
Theorem forward_after_evict_panics err :
  let '(w, c, o) := addObserver "j" (newWorker "w" None ex_time) chans_init in
  let '(w1, obs) := accumulate_delta (ex_delta "j" "t") w in
  let '(w2, c2) := failAllPending err w1 c in
  c_panic c2 = false ∧ c_panic (forward_opt obs (ex_delta "j" "t") c2) = true.
Proof. vm_compute. done. Qed.
End Interleaving.
