(* ===== verification/Server.v ===== *)
(** * Server.v: internal/server, the control plane

    The server's state (registry of worker streams, job queue, queued-job waiters,
    session manager, quota engine, affinity and wait-time counters) and its
    operations.  Worker structs live in a heap and the registry holds addresses,
    because the code compares pointers ([cur == w]) to tell a reconnected stream
    from the one it replaced.  Every operation takes the clock readings it makes
    as arguments.

    A call that blocks ([submit], [dispatchTo], the placement loop) is cut at its
    blocking points; file ServerRun runs those pieces interleaved. *)

From stdpp Require Import pretty.
From S2P Require Import Prelude Errors GoTime Types Store Authz Queue Scheduler Quota History Session ServerWorker.
Open Scope Z_scope.

Definition DefaultHeartbeatTimeout : Duration := 45 * Second.
Definition defaultModelWarmMax : Duration := Hour.
Definition sendCap : nat := 16.
Definition waitBucketBounds : list Z := [10; 100; 1000; 10000].

Record AffinityStats := mkAff { aff_Hits : Z; aff_Misses : Z; aff_Rebinds : Z }.
Record waitDist := mkWait { waitCount : Z; waitSumMs : Z; waitMaxMs : Z; waitBuckets : list Z }.
Record WaitBucket := mkBucket { LeMs : Z; Count : Z }.
Record WaitStats := mkWaitStats {
  WTS_Count : Z; WTS_SumMs : Z; WTS_MaxMs : Z; WTS_Buckets : list WaitBucket }.

Record Server (CS SS : Type) := mkServer {
  s_heap : gmap nat worker;              (* every worker struct Connect allocated *)
  s_nextAddr : nat;
  s_workers : gmap string nat;
  s_nextSes : Z;
  s_chans : chans;
  s_queue : Queue;
  s_waiters : gmap string nat;
  s_capacity : bool;                     (* a signal is pending in the size-1 channel *)
  s_heartbeatTimeout : Duration;
  s_evictScan : Duration;
  s_placeScan : Duration;
  s_modelWarmMax : Duration;
  s_sessionMgr : option (Manager SS);
  s_quota : Engine CS;
  s_affinity : AffinityStats;
  s_wait : waitDist;
  s_audit : list auditRecord }.
Arguments mkServer {_ _}.
Arguments s_heap {_ _}. Arguments s_nextAddr {_ _}. Arguments s_workers {_ _}. Arguments s_nextSes {_ _}.
Arguments s_chans {_ _}. Arguments s_queue {_ _}. Arguments s_waiters {_ _}. Arguments s_capacity {_ _}.
Arguments s_heartbeatTimeout {_ _}. Arguments s_evictScan {_ _}. Arguments s_placeScan {_ _}.
Arguments s_modelWarmMax {_ _}. Arguments s_sessionMgr {_ _}. Arguments s_quota {_ _}.
Arguments s_affinity {_ _}. Arguments s_wait {_ _}. Arguments s_audit {_ _}.

(** [WorkerMessage.Payload]. *)
Inductive workerMsg :=
| WRegister (workerID : string) (models : option (list (option PbModel)))
| WHeartbeat (hb : option PbHeartbeat)
| WResult (r : option PbJobResult)
| WChunk (c : option PbJobChunk)
| WDeregister
| WUnknown.

Definition errFirst : error := ENew "first message must be Register".
Definition errNoID : error := ENew "register: worker_id is required".
Definition errDuplicate : error := ENew "duplicate Register on established stream".

Definition job_error (code msg : string) : JobError := mkJobError code msg.
Definition staleErr : JobError := job_error "worker_stale" "worker missed heartbeats".
Definition disconnectedErr : JobError := job_error "worker_disconnected" "worker stream closed".
Definition evictedErr : JobError := job_error "worker_evicted" "worker drained and evicted".
Definition shutdownErr : JobError := job_error "shutting_down" "server shutting down".

(** [jobErr]. *)
Definition jobErr (err : error) : JobError :=
  match errors_As_JobError err with
  | Some je => je
  | None => job_error "dispatch_failed" (error_string err)
  end.

(** [warmWindowSeconds]; Go integer division truncates. *)
Definition warmWindowSeconds (ttl max : Duration) : Z :=
  let window := ttl in
  let window := if (window <=? 0) || ((0 <? max) && (max <? window)) then max else window in
  let secs := Z.quot window Second in
  if secs <? 1 then 1 else secs.

(** The poll interval of [reapDrainedWorker]. *)
Definition reapInterval (deadline : Duration) : Duration :=
  let interval := Z.quot deadline 20 in
  let interval := if interval <? 10 * Millisecond then 10 * Millisecond else interval in
  if Second <? interval then Second else interval.

Section server.
Context {CS SS : Type} `{!CounterStore CS} `{!SessionStore SS}.
Notation server := (Server CS SS).

(** ** Field updates *)

Definition set_fleet (heap : gmap nat worker) (workers : gmap string nat) (c : chans) (s : server) : server :=
  mkServer heap (s_nextAddr s) workers (s_nextSes s) c (s_queue s) (s_waiters s) (s_capacity s)
    (s_heartbeatTimeout s) (s_evictScan s) (s_placeScan s) (s_modelWarmMax s) (s_sessionMgr s) (s_quota s)
    (s_affinity s) (s_wait s) (s_audit s).
Definition set_queue (q : Queue) (ws : gmap string nat) (c : chans) (s : server) : server :=
  mkServer (s_heap s) (s_nextAddr s) (s_workers s) (s_nextSes s) c q ws (s_capacity s)
    (s_heartbeatTimeout s) (s_evictScan s) (s_placeScan s) (s_modelWarmMax s) (s_sessionMgr s) (s_quota s)
    (s_affinity s) (s_wait s) (s_audit s).
Definition set_capacity (b : bool) (s : server) : server :=
  mkServer (s_heap s) (s_nextAddr s) (s_workers s) (s_nextSes s) (s_chans s) (s_queue s) (s_waiters s) b
    (s_heartbeatTimeout s) (s_evictScan s) (s_placeScan s) (s_modelWarmMax s) (s_sessionMgr s) (s_quota s)
    (s_affinity s) (s_wait s) (s_audit s).
Definition set_tuning (hb ev pl warm : Duration) (s : server) : server :=
  mkServer (s_heap s) (s_nextAddr s) (s_workers s) (s_nextSes s) (s_chans s) (s_queue s) (s_waiters s)
    (s_capacity s) hb ev pl warm (s_sessionMgr s) (s_quota s) (s_affinity s) (s_wait s) (s_audit s).
Definition set_books (m : option (Manager SS)) (q : Engine CS) (a : AffinityStats) (d : waitDist)
    (au : list auditRecord) (s : server) : server :=
  mkServer (s_heap s) (s_nextAddr s) (s_workers s) (s_nextSes s) (s_chans s) (s_queue s) (s_waiters s)
    (s_capacity s) (s_heartbeatTimeout s) (s_evictScan s) (s_placeScan s) (s_modelWarmMax s) m q a d au.

Definition set_worker (h : nat) (w : worker) (c : chans) (s : server) : server :=
  set_fleet (<[h := w]> (s_heap s)) (s_workers s) c s.
Definition set_quota (q : Engine CS) (s : server) : server :=
  set_books (s_sessionMgr s) q (s_affinity s) (s_wait s) (s_audit s) s.
Definition set_session (m : Manager SS) (s : server) : server :=
  set_books (Some m) (s_quota s) (s_affinity s) (s_wait s) (s_audit s) s.
Definition set_affinity (a : AffinityStats) (s : server) : server :=
  set_books (s_sessionMgr s) (s_quota s) a (s_wait s) (s_audit s) s.
Definition set_wait (d : waitDist) (s : server) : server :=
  set_books (s_sessionMgr s) (s_quota s) (s_affinity s) d (s_audit s) s.

(** ** Construction *)

Definition WithSessionManager (m : option (Manager SS)) (s : server) : server :=
  match m with Some m => set_session m s | None => s end.
Definition WithModelWarmMax (d : Duration) (s : server) : server :=
  if 0 <? d then set_tuning (s_heartbeatTimeout s) (s_evictScan s) (s_placeScan s) d s else s.
Definition WithHeartbeatTimeout (d : Duration) (s : server) : server :=
  if 0 <? d then set_tuning d (s_evictScan s) (s_placeScan s) (s_modelWarmMax s) s else s.
Definition WithEvictScanInterval (d : Duration) (s : server) : server :=
  if 0 <? d then set_tuning (s_heartbeatTimeout s) d (s_placeScan s) (s_modelWarmMax s) s else s.
Definition WithPlaceScanInterval (d : Duration) (s : server) : server :=
  if 0 <? d then set_tuning (s_heartbeatTimeout s) (s_evictScan s) d (s_modelWarmMax s) s else s.
Definition WithQueue (q : option Queue) (s : server) : server :=
  match q with Some q => set_queue q (s_waiters s) (s_chans s) s | None => s end.
Definition WithQuota (q : option (Engine CS)) (s : server) : server :=
  match q with Some q => set_quota q s | None => s end.

(** [New]: the defaults, the options in order, then the derived defaults.  The
    default queue is unbounded and the default engine unlimited, so both are
    put in place before the options, which replace them. *)
Definition New (cs : CS) (opts : list (server → server)) : server :=
  let s := mkServer ∅ 0 ∅ 0 chans_init (Queue.New []) ∅ false DefaultHeartbeatTimeout 0 0 0 None
             (NewEngine cs []) (mkAff 0 0 0) (mkWait 0 0 0 (map (λ _, 0) waitBucketBounds)) [] in
  let s := fold_left (λ s o, o s) opts s in
  let ev := if s_evictScan s <=? 0 then
              let e := Z.quot (s_heartbeatTimeout s) 2 in
              if e <=? 0 then Z.quot DefaultHeartbeatTimeout 2 else e
            else s_evictScan s in
  let pl := if s_placeScan s <=? 0 then ev else s_placeScan s in
  let warm := if s_modelWarmMax s <=? 0 then defaultModelWarmMax else s_modelWarmMax s in
  set_tuning (s_heartbeatTimeout s) ev pl warm s.

Definition SetHeartbeatTimeout (d : Duration) (s : server) : server :=
  if d <=? 0 then s else set_tuning d (s_evictScan s) (s_placeScan s) (s_modelWarmMax s) s.
Definition HeartbeatTimeout (s : server) : Duration := s_heartbeatTimeout s.
Definition SetModelWarmMax (d : Duration) (s : server) : server :=
  if d <=? 0 then s else set_tuning (s_heartbeatTimeout s) (s_evictScan s) (s_placeScan s) d s.
Definition ModelWarmMax (s : server) : Duration := s_modelWarmMax s.

(** ** The registry *)

Definition WorkerCount (s : server) : Z := Z.of_nat (size (s_workers s)).

Definition addWorker (w : worker) (s : server) : server * nat * Z :=
  let h := s_nextAddr s in
  let ses := u64 (s_nextSes s + 1) in
  (mkServer (<[h := w]> (s_heap s)) (S h) (<[w_id w := h]> (s_workers s)) ses (s_chans s) (s_queue s)
     (s_waiters s) (s_capacity s) (s_heartbeatTimeout s) (s_evictScan s) (s_placeScan s) (s_modelWarmMax s)
     (s_sessionMgr s) (s_quota s) (s_affinity s) (s_wait s) (s_audit s), h, ses).

(** [if cur, ok := s.workers[w.id]; ok && cur == w { delete(s.workers, w.id) }]. *)
Definition unregister (id : string) (h : nat) (workers : gmap string nat) : gmap string nat :=
  match workers !! id with
  | Some cur => if Nat.eqb cur h then delete id workers else workers
  | None => workers
  end.

Definition evictWorker (h : nat) (err : JobError) (s : server) : server :=
  match s_heap s !! h with
  | None => s
  | Some w =>
      let '(w', c) := failAllPending err w (s_chans s) in
      set_fleet (<[h := w']> (s_heap s)) (unregister (w_id w) h (s_workers s)) c s
  end.

Definition removeWorker (h : nat) (s : server) : server := evictWorker h disconnectedErr s.

(** The addresses of the registered workers, in the order [range] visits them;
    nothing below depends on the order. *)
Definition registered (s : server) : list nat := (map_to_list (s_workers s)).*2.

Definition evictStale (now : Time) (s : server) : server :=
  let stale := filter (λ h, match s_heap s !! h with
                            | Some w => isStale now (s_heartbeatTimeout s) w
                            | None => false
                            end = true) (registered s) in
  fold_left (λ s h, evictWorker h staleErr s) stale s.

Definition Fleet (now : Time) (s : server) : list Worker :=
  omap (λ h, snapshot now (s_heartbeatTimeout s) <$> s_heap s !! h) (registered s).

Definition WorkerByID (now : Time) (id : string) (s : server) : option Worker :=
  h ← s_workers s !! id; snapshot now (s_heartbeatTimeout s) <$> s_heap s !! h.

(** [now1] is the clock at [Fleet], [now2] at the re-check of the handle. *)
Definition pickWorker (now1 now2 : Time) (model preferred : string) (s : server) : option nat :=
  id ← PickPreferring (Fleet now1 s) model preferred;
  h ← s_workers s !! id;
  w ← s_heap s !! h;
  if available now2 (s_heartbeatTimeout s) w then Some h else None.

Definition modelServed (now : Time) (model : string) (s : server) : bool :=
  existsb (λ wk, if bool_decide (Worker_Status wk = WorkerStale) then false
                 else existsb (λ m, String.eqb (Model_Name m) model) (Worker_Models wk)) (Fleet now s).

Definition signalCapacity (s : server) : server := set_capacity true s.

(** *** Drain and forced eviction *)

Definition markDrainingAt (h : nat) (s : server) : server :=
  match s_heap s !! h with
  | Some w => set_worker h (markDraining w) (s_chans s) s
  | None => s
  end.

(** The second component is the reaper started, with its worker and deadline. *)
Definition DrainWorkerWithDeadline (id : string) (deadline : Duration) (s : server)
    : server * option (nat * Duration) * option error :=
  match s_workers s !! id with
  | None => (s, None, Some ErrWorkerNotFound)
  | Some h =>
      let s := markDrainingAt h s in
      if deadline <=? 0 then (s, None, None) else (s, Some (h, deadline), None)
  end.

Definition DrainWorker (id : string) (s : server) : server * option (nat * Duration) * option error :=
  DrainWorkerWithDeadline id 0 s.

Definition cancelWorker (w : worker) : worker :=
  mkW (w_id w) (w_send w) true (w_pending w) (w_streams w) (w_observers w) (w_registeredAt w) (w_models w)
    (w_lastHeartbeat w) (w_activeJobs w) (w_totalVRAM w) (w_freeVRAM w) (w_load w) (w_gpuType w)
    (w_availableModels w) (w_draining w).

Definition forceEvictWorker (h : nat) (s : server) : server :=
  let s := evictWorker h evictedErr s in
  match s_heap s !! h with
  | Some w => set_worker h (cancelWorker w) (s_chans s) s
  | None => s
  end.

(** One round of the reaper's select; [true] when the reaper stops. *)
Inductive reapEvent := ReapCtxDone | ReapTimer | ReapTick.
Definition reapDrainedWorker (ev : reapEvent) (h : nat) (s : server) : server * bool :=
  match ev with
  | ReapCtxDone => (s, true)
  | ReapTimer => (forceEvictWorker h s, true)
  | ReapTick =>
      match s_heap s !! h with
      | Some w => if inFlight w =? 0 then (forceEvictWorker h s, true) else (s, false)
      | None => (s, true)
      end
  end.

(** *** Sending to a worker *)

Definition push (m : serverMsg) (w : worker) : worker :=
  mkW (w_id w) (w_send w ++ [m]) (w_cancelled w) (w_pending w) (w_streams w) (w_observers w) (w_registeredAt w)
    (w_models w) (w_lastHeartbeat w) (w_activeJobs w) (w_totalVRAM w) (w_freeVRAM w) (w_load w) (w_gpuType w)
    (w_availableModels w) (w_draining w).

(** [w.send <- m] when the channel has room. *)
Definition trySend (m : serverMsg) (h : nat) (s : server) : option server :=
  match s_heap s !! h with
  | Some w => if (length (w_send w) <? sendCap)%nat then Some (set_worker h (push m w) (s_chans s) s) else None
  | None => None
  end.

(** [select { case w.send <- m: case <-ctx.Done(): }].  [takeDone] is the choice Go
    makes when both are ready; [None] is still blocked. *)
Definition sendOrDone (ctxDone takeDone : bool) (m : serverMsg) (h : nat) (s : server)
    : option (server * option error) :=
  if ctxDone && takeDone then Some (s, Some CtxDone)
  else match trySend m h s with
       | Some s' => Some (s', None)
       | None => if ctxDone then Some (s, Some CtxDone) else None
       end.

Definition AdminPullModel (ctxDone takeDone : bool) (workerID model : string) (s : server)
    : option (server * option error) :=
  match s_workers s !! workerID with
  | None => Some (s, Some ErrWorkerNotFound)
  | Some h => sendOrDone ctxDone takeDone (MsgPullModel model) h s
  end.

Definition AdminUnloadModel (ctxDone takeDone : bool) (workerID model : string) (s : server)
    : option (server * option error) :=
  match s_workers s !! workerID with
  | None => Some (s, Some ErrWorkerNotFound)
  | Some h => sendOrDone ctxDone takeDone (MsgUnloadModel model) h s
  end.

Definition audited (r : auditRecord) (s : server) : server :=
  set_books (s_sessionMgr s) (s_quota s) (s_affinity s) (s_wait s) (s_audit s ++ [r]) s.

Definition PullModel (ctxDone takeDone : bool) (key : APIKey) (workerID model : string) (s : server)
    : option (server * option error) :=
  let '(r, err) := Authorize key model Pull in
  let s := audited r s in
  match err with
  | Some e => Some (s, Some e)
  | None =>
      match s_workers s !! workerID with
      | None => Some (s, Some ErrWorkerNotFound)
      | Some h => sendOrDone ctxDone takeDone (MsgPullModel model) h s
      end
  end.

Definition UnloadSessionModel (ctxDone takeDone : bool) (workerID model : string) (s : server) : server :=
  if String.eqb workerID "" || String.eqb model "" then s
  else match s_workers s !! workerID with
       | None => s
       | Some h =>
           if ctxDone && takeDone then s
           else match trySend (MsgUnloadModel model) h s with Some s' => s' | None => s end
       end.

(** ** Queued-job waiters *)

Definition addWaiter (jobID : string) (s : server) : server * nat :=
  let '(c, ch) := make_res (s_chans s) in
  (set_queue (s_queue s) (<[jobID := ch]> (s_waiters s)) c s, ch).

Definition removeWaiter (jobID : string) (s : server) : server :=
  set_queue (s_queue s) (delete jobID (s_waiters s)) (s_chans s) s.

Definition resolveWaiter (res : JobResult) (s : server) : server * bool :=
  match s_waiters s !! JobResult_JobID res with
  | Some ch => (set_queue (s_queue s) (delete (JobResult_JobID res) (s_waiters s))
                  (send_res ch res (s_chans s)) s, true)
  | None => (s, false)
  end.

Definition failAllWaiters (err : JobError) (s : server) : server :=
  set_queue (s_queue s) ∅ (fail_results err (map_to_list (s_waiters s)) (s_chans s)) s.

(** ** Session affinity and model warmth *)

Definition no_session (job : Job) (keyID : string) : bool :=
  String.eqb (Job_SessionID job) "" || String.eqb keyID "".

Definition affinityFor (now : Time) (job : Job) (keyID : string) (s : server) : string :=
  match s_sessionMgr s with
  | None => ""
  | Some m =>
      if no_session job keyID then ""
      else match Manager_Get now (Job_SessionID job) keyID m with
           | Err _ => ""
           | Ok sess => Session_BoundWorkerID sess
           end
  end.

Definition sessionDispatchHints (now : Time) (job : Job) (keyID : string) (s : server) : string * Z :=
  match s_sessionMgr s with
  | None => ("", 0)
  | Some m =>
      if no_session job keyID then ("", 0)
      else match Manager_Get now (Job_SessionID job) keyID m with
           | Err _ => ("", 0)
           | Ok sess => (Session_BoundWorkerID sess, warmWindowSeconds (Session_TTL sess) (s_modelWarmMax s))
           end
  end.

(** A failed [Bind] is logged and swallowed. *)
Definition bindSession (now : Time) (job : Job) (keyID chosen : string) (m : Manager SS) (s : server) : server :=
  set_session (Bind now (Job_SessionID job) keyID chosen m).1 s.

Definition recordAffinity (now : Time) (job : Job) (keyID chosen preferred : string) (s : server) : server :=
  match s_sessionMgr s with
  | None => s
  | Some m =>
      if no_session job keyID then s
      else
        let a := s_affinity s in
        if String.eqb preferred "" then bindSession now job keyID chosen m s
        else if String.eqb chosen preferred then
          set_affinity (mkAff (u64 (aff_Hits a + 1)) (aff_Misses a) (aff_Rebinds a)) s
        else
          bindSession now job keyID chosen m
            (set_affinity (mkAff (aff_Hits a) (u64 (aff_Misses a + 1)) (u64 (aff_Rebinds a + 1))) s)
  end.

Definition GetAffinityStats (s : server) : AffinityStats := s_affinity s.

(** ** Time in queue *)

Definition recordWait (d : Duration) (s : server) : server :=
  let ms := Milliseconds d in
  let ms := if ms <? 0 then 0 else ms in
  let waitMs := u64 ms in
  let t := s_wait s in
  set_wait (mkWait (u64 (waitCount t + 1)) (u64 (waitSumMs t + waitMs))
              (if waitMaxMs t <? waitMs then waitMs else waitMaxMs t)
              (zip_with (λ bound n, if waitMs <=? bound then u64 (n + 1) else n) waitBucketBounds (waitBuckets t))) s.

Definition WaitTimeStats (s : server) : WaitStats :=
  let t := s_wait s in
  mkWaitStats (waitCount t) (waitSumMs t) (waitMaxMs t)
    (zip_with mkBucket waitBucketBounds (waitBuckets t) ++ [mkBucket 0 (waitCount t)]).

(** ** Dispatch *)

(** [dispatchTo], cut at its two selects. *)
Definition dispatch_begin (jobID : string) (h : nat) (s : server) : server * nat :=
  match s_heap s !! h with
  | Some w => let '(w, c, ch) := addPending jobID w (s_chans s) in (set_worker h w c s, ch)
  | None => (s, c_next (s_chans s))
  end.

Definition dispatch_abort (jobID : string) (h : nat) (s : server) : server :=
  match s_heap s !! h with
  | Some w => set_worker h (dropPending jobID w) (s_chans s) s
  | None => s
  end.

Definition dispatch_send (ctxDone takeDone : bool) (job : Job) (h : nat) (s : server)
    : option (server * option error) :=
  match sendOrDone ctxDone takeDone (MsgJob (Job_Proto job)) h s with
  | Some (s, Some e) => Some (dispatch_abort (Job_ID job) h s, Some e)
  | r => r
  end.

(** The error a delivered result carries, as the call's error. *)
Definition result_err (res : JobResult) : option error := EJob <$> JobResult_Err res.

Definition dispatch_recv (ctxDone takeDone : bool) (jobID : string) (h ch : nat) (s : server)
    : option (server * JobResult * option error) :=
  match c_res (s_chans s) !! ch, ctxDone, takeDone with
  | Some (res :: _), true, true => Some (dispatch_abort jobID h s, JobResult_zero, Some CtxDone)
  | Some (res :: _), _, _ => Some (s, res, result_err res)
  | _, true, _ => Some (dispatch_abort jobID h s, JobResult_zero, Some CtxDone)
  | _, false, _ => None
  end.

(** The clock readings of one placement decision. *)
Record clocks := mkClocks {
  k_gate : Time; k_session : Time; k_served : Time; k_fleet : Time; k_pick : Time; k_bind : Time }.

(** [submit] up to the choice of a path. *)
Inductive route :=
| Reject (err : error)
| ToWorker (h : nat) (preferred : string) (job : Job)
| ToQueue (job : Job).

Definition submit (k : clocks) (job : Job) (keyID : string) (s : server) : route :=
  match Job_Validate job with
  | Some e => Reject e
  | None =>
      let '(preferred, keepAlive) := sessionDispatchHints (k_session k) job keyID s in
      let job := Job_set_KeepAliveSeconds keepAlive job in
      if negb (modelServed (k_served k) (Job_Model job) s) then Reject ErrModelUnavailable
      else match pickWorker (k_fleet k) (k_pick k) (Job_Model job) preferred s with
           | Some h => ToWorker h preferred job
           | None => ToQueue job
           end
  end.

(** The queue path: register the waiter, then enqueue. *)
Definition submit_enqueue (now : Time) (job : Job) (keyID : string) (prio : Z) (s : server)
    : server * option error :=
  match Enqueue now job keyID prio (s_queue s) with
  | (q, None) => (signalCapacity (set_queue q (s_waiters s) (s_chans s) s), None)
  | (q, Some err) =>
      let s := removeWaiter (Job_ID job) (set_queue q (s_waiters s) (s_chans s) s) in
      (s, Some (if errors_Is err ErrClosed then ErrShuttingDown else err))
  end.

(** Its final select. *)
Definition submit_wait (ctxDone takeDone : bool) (jobID : string) (ch : nat) (s : server)
    : option (server * JobResult * option error) :=
  match c_res (s_chans s) !! ch, ctxDone, takeDone with
  | Some (res :: _), true, true => Some (removeWaiter jobID s, JobResult_zero, Some CtxDone)
  | Some (res :: _), _, _ => Some (s, res, result_err res)
  | _, true, _ => Some (removeWaiter jobID s, JobResult_zero, Some CtxDone)
  | _, false, _ => None
  end.

(** ** The authorized entry points *)

(** [Validate], [Authorize], [CheckAndReserve]: the gate both entry points share. *)
Definition gate (now : Time) (key : APIKey) (job : Job) (s : server) : server * option error :=
  match Job_Validate job with
  | Some e => (s, Some e)
  | None =>
      let '(r, err) := Authorize key (Job_Model job) Infer in
      let s := audited r s in
      match err with
      | Some e => (s, Some e)
      | None =>
          let '(q, err, _) := CheckAndReserve now key (s_quota s) in
          (set_quota q s, err)
      end
  end.

Definition SubmitAuthorizedJob (k : clocks) (key : APIKey) (job : Job) (s : server)
    : server * route :=
  match gate (k_gate k) key job s with
  | (s, Some e) => (s, Reject e)
  | (s, None) => (s, submit k job (APIKey_ID key) s)
  end.

(** After the dispatch: the tokens the job produced. *)
Definition recordUsage (now : Time) (keyID : string) (tokens : Z) (s : server) : server :=
  let q := (RecordTokens now keyID tokens (s_quota s)).1 in
  set_quota (RecordGlobalTokens now tokens q).1 s.

(** Up to the return of the channel: the worker, its observer and the job the
    relay goroutine dispatches. *)
Definition SubmitAuthorizedJobStream (k : clocks) (key : APIKey) (job : Job) (s : server)
    : server * result (nat * nat * Job) :=
  match gate (k_gate k) key job s with
  | (s, Some e) => (s, Err e)
  | (s, None) =>
      let '(preferred, keepAlive) := sessionDispatchHints (k_session k) job (APIKey_ID key) s in
      let job := Job_set_KeepAliveSeconds keepAlive job in
      match pickWorker (k_fleet k) (k_pick k) (Job_Model job) preferred s with
      | None =>
          if negb (modelServed (k_served k) (Job_Model job) s) then (s, Err ErrModelUnavailable)
          else (s, Err ErrQueueFull)
      | Some h =>
          match s_heap s !! h with
          | None => (s, Err ErrModelUnavailable)   (* unreachable: [pickWorker] reads the heap *)
          | Some w =>
              let s := recordAffinity (k_bind k) job (APIKey_ID key) (w_id w) preferred s in
              let '(w, c, obs) := addObserver (Job_ID job) w (s_chans s) in
              (set_worker h w c s, Ok (h, obs, job))
          end
      end
  end.

(** ** The placement loop *)

(** One attempt of [placeItem]. *)
Definition place_try (k : clocks) (item : Item) (s : server) : option (nat * string) :=
  let preferred := affinityFor (k_session k) (Item_Job item) (Item_Key item) s in
  h ← pickWorker (k_fleet k) (k_pick k) (Job_Model (Item_Job item)) preferred s;
  Some (h, preferred).

(** After [dispatchTo] returned [(res, err)]. *)
Definition place_finish (nowBind now : Time) (item : Item) (workerID preferred : string) (res : JobResult)
    (err : option error) (s : server) : server :=
  match err with
  | Some e => (resolveWaiter (mkJobResult (Job_ID (Item_Job item)) "" (Some (jobErr e)) 0 [] "" 0 0) s).1
  | None =>
      let s := recordAffinity nowBind (Item_Job item) (Item_Key item) workerID preferred s in
      let s := recordWait (Sub now (Item_EnqueuedAt item)) s in
      (resolveWaiter res s).1
  end.

(** Parked when the loop is told to stop. *)
Definition place_stop (item : Item) (s : server) : server :=
  (resolveWaiter (mkJobResult (Job_ID (Item_Job item)) "" (Some shutdownErr) 0 [] "" 0 0) s).1.

(** ** The worker stream *)

(** [Connect] up to its goroutines: the first message registers the worker. *)
Definition connect_first (now : Time) (msg : workerMsg) (s : server) : server * result nat :=
  match msg with
  | WRegister id models =>
      if String.eqb id "" then (s, Err errNoID)
      else
        let '(s, h, ses) := addWorker (newWorker id (ModelsFromProto models) now) s in
        let s := match trySend (MsgRegisterAck (id +:+ "-" +:+ pretty ses)) h s with Some s => s | None => s end in
        (signalCapacity s, Ok h)
  | _ => (s, Err errFirst)
  end.

Definition on_worker (h : nat) (f : worker → chans → worker * chans) (s : server) : server :=
  match s_heap s !! h with
  | Some w => let '(w, c) := f w (s_chans s) in set_worker h w c s
  | None => s
  end.

(** One round of the reader loop; the error ends the stream. *)
Definition connect_message (now : Time) (h : nat) (msg : workerMsg) (s : server) : server * option error :=
  match msg with
  | WHeartbeat hb =>
      (signalCapacity (on_worker h (λ w c, (applyHeartbeat (HeartbeatFromProto hb) now w, c)) s), None)
  | WResult r => (signalCapacity (on_worker h (resolve (JobResultFromProto r)) s), None)
  | WChunk p =>
      let chunk := JobChunkFromProto p in
      let s := on_worker h (accumulate chunk) s in
      ((if JobChunk_Done chunk then signalCapacity s else s), None)
  | WDeregister => (markDrainingAt h s, None)
  | WRegister _ _ => (s, Some errDuplicate)
  | WUnknown => (s, None)
  end.

(** The writer goroutine takes the next message. *)
Definition writer_take (h : nat) (s : server) : server :=
  on_worker h (λ w c, (mkW (w_id w) (tail (w_send w)) (w_cancelled w) (w_pending w) (w_streams w) (w_observers w)
    (w_registeredAt w) (w_models w) (w_lastHeartbeat w) (w_activeJobs w) (w_totalVRAM w) (w_freeVRAM w)
    (w_load w) (w_gpuType w) (w_availableModels w) (w_draining w), c)) s.

(** The deferred [removeWorker] and [cancel] on every return path. *)
Definition connect_end (h : nat) (s : server) : server :=
  on_worker h (λ w c, (cancelWorker w, c)) (removeWorker h s).
End server.
Arguments route : clear implicits.

(** ** Lemmas *)

Section facts.
Context {CS SS : Type} `{!CounterStore CS} `{!SessionStore SS}.
Notation server := (Server CS SS).
Implicit Type s : server.

(** Registered addresses are allocated structs filed under their own id. *)
Record swf s : Prop := {
  wf_addr : ∀ h w, s_heap s !! h = Some w → (h < s_nextAddr s)%nat;
  wf_reg : ∀ id h, s_workers s !! id = Some h → ∃ w, s_heap s !! h = Some w ∧ w_id w = id }.

(** [w] is the current stream for its id. *)
Definition current s (h : nat) (w : worker) : Prop :=
  s_heap s !! h = Some w ∧ s_workers s !! w_id w = Some h.

Lemma elem_of_registered s h : h ∈ registered s ↔ ∃ id, s_workers s !! id = Some h.
Proof.
  unfold registered. rewrite list_elem_of_fmap. split.
  - intros ([id h'] & -> & Hin). exists id. by apply elem_of_map_to_list.
  - intros [id H]. exists (id, h). split; [done|]. by apply elem_of_map_to_list.
Qed.

Lemma elem_of_Fleet s now wk :
  swf s → wk ∈ Fleet now s ↔ ∃ h w, current s h w ∧ wk = snapshot now (s_heartbeatTimeout s) w.
Proof.
  intros Hwf. unfold Fleet. rewrite list_elem_of_omap. split.
  - intros (h & [id Hid]%elem_of_registered & Hs). destruct (wf_reg _ Hwf _ _ Hid) as (w & Hw & <-).
    rewrite Hw in Hs. simpl in Hs. simplify_eq. by exists h, w.
  - intros (h & w & [Hw Hr] & ->). exists h. rewrite elem_of_registered. split; [by eexists|]. by rewrite Hw.
Qed.

Lemma online_available now t w :
  Worker_Status (snapshot now t w) = WorkerOnline ↔ available now t w = true.
Proof. unfold snapshot, available. simpl. destruct (w_draining w); [done|]. by destruct (missed w now t). Qed.

Lemma isStale_missed now t w : isStale now t w = missed w now t.
Proof. unfold isStale, missed. by destruct (IsZero _). Qed.

Lemma runnable_online wk model : runnable wk model = true → Worker_Status wk = WorkerOnline.
Proof. unfold runnable. by destruct (bool_decide_reflect (Worker_Status wk = WorkerOnline)). Qed.

Lemma pickWorker_sound s now1 now2 model pref h :
  swf s → pickWorker now1 now2 model pref s = Some h →
  ∃ w, current s h w ∧ available now2 (s_heartbeatTimeout s) w = true ∧
       runnable (snapshot now1 (s_heartbeatTimeout s) w) model = true.
Proof.
  intros Hwf. unfold pickWorker. pose proof (pick_runnable (Fleet now1 s) model pref) as Hp.
  destruct (PickPreferring _ _ _) as [id|]; [|done]. simpl.
  destruct Hp as (wk & Hwk & Hid & Hr). apply elem_of_Fleet in Hwk as (h' & w & [Hw Hreg] & ->); [|done].
  simpl in Hid. subst id. rewrite Hreg. simpl. rewrite Hw. simpl.
  destruct (available _ _ w) eqn:Ea; [|done]. intros [= <-]. by exists w.
Qed.

Lemma pickWorker_None s now model pref :
  swf s →
  pickWorker now now model pref s = None ↔
  ∀ h w, current s h w → runnable (snapshot now (s_heartbeatTimeout s) w) model = false.
Proof.
  intros Hwf. unfold pickWorker. pose proof (pick_runnable (Fleet now s) model pref) as Hp.
  destruct (PickPreferring _ _ _) as [id|]; simpl.
  - destruct Hp as (wk & Hwk & Hid & Hr). apply elem_of_Fleet in Hwk as (h' & w & [Hw Hreg] & ->); [|done].
    simpl in Hid. subst id. rewrite Hreg. simpl. rewrite Hw. simpl.
    apply runnable_online in Hr as Ho. apply online_available in Ho. rewrite Ho.
    split; [done|]. intros H. by rewrite (H h' w) in Hr.
  - split; [|done]. intros _ h w Hc. apply Hp. apply elem_of_Fleet; [done|]. by exists h, w.
Qed.

Lemma modelServed_spec s now model :
  swf s →
  modelServed now model s = true ↔
  ∃ h w m, current s h w ∧ (w_draining w = true ∨ missed w now (s_heartbeatTimeout s) = false) ∧
           m ∈ Worker_Models (snapshot now (s_heartbeatTimeout s) w) ∧ Model_Name m = model.
Proof.
  intros Hwf. unfold modelServed. rewrite existsb_exists. split.
  - intros (wk & Hwk & H). apply list_elem_of_In in Hwk.
    apply elem_of_Fleet in Hwk as (h & w & Hc & ->); [|done].
    destruct (bool_decide_reflect (Worker_Status (snapshot now (s_heartbeatTimeout s) w) = WorkerStale)) as [E|E];
      [done|]. apply existsb_exists in H as (m & Hm & Hn%String.eqb_eq). apply list_elem_of_In in Hm.
    exists h, w, m. split_and!; try done. simpl in E. destruct (w_draining w); [by left|right].
    by destruct (missed w _ _).
  - intros (h & w & m & Hc & Hl & Hm & <-). eexists. split.
    + apply list_elem_of_In, elem_of_Fleet; [done|]. by exists h, w.
    + rewrite bool_decide_false.
      * apply existsb_exists. exists m. split; [by apply list_elem_of_In|]. apply String.eqb_refl.
      * simpl. destruct (w_draining w); [done|]. destruct Hl as [Hl|Hl]; [done|]. by rewrite Hl.
Qed.

(** *** Eviction *)

Lemma unregister_spec s h w id h' :
  swf s → s_heap s !! h = Some w →
  unregister (w_id w) h (s_workers s) !! id = Some h' ↔ s_workers s !! id = Some h' ∧ h' ≠ h.
Proof.
  intros Hwf Hw. unfold unregister.
  assert (Hid : ∀ i, s_workers s !! i = Some h → i = w_id w).
  { intros i Hi. destruct (wf_reg _ Hwf _ _ Hi) as (w' & Hw' & <-). congruence. }
  destruct (s_workers s !! w_id w) as [cur|] eqn:E; [destruct (Nat.eqb_spec cur h) as [->|Hne]|].
  - rewrite lookup_delete_Some. split; intros [H1 H2]; split; try done.
    + intros ->. by apply H1, eq_sym, Hid.
    + intros <-. congruence.
  - split; [|by intros [? _]]. intros H. split; [done|]. intros ->. apply Hid in H as H'. congruence.
  - split; [|by intros [? _]]. intros H. split; [done|]. intros ->. apply Hid in H as H'. congruence.
Qed.

Lemma evictWorker_fields h err s w :
  s_heap s !! h = Some w →
  s_heap (evictWorker h err s) = <[h := fail_take w]> (s_heap s) ∧
  s_workers (evictWorker h err s) = unregister (w_id w) h (s_workers s) ∧
  s_chans (evictWorker h err s) = (failAllPending err w (s_chans s)).2 ∧
  s_nextAddr (evictWorker h err s) = s_nextAddr s ∧
  s_heartbeatTimeout (evictWorker h err s) = s_heartbeatTimeout s ∧
  s_queue (evictWorker h err s) = s_queue s ∧ s_waiters (evictWorker h err s) = s_waiters s.
Proof. intros H. unfold evictWorker. by rewrite H. Qed.

Lemma swf_intro s s' :
  swf s → s_nextAddr s' = s_nextAddr s →
  (∀ h, (w_id <$> s_heap s' !! h) = (w_id <$> s_heap s !! h)) →
  (∀ id h, s_workers s' !! id = Some h → s_workers s !! id = Some h) → swf s'.
Proof.
  intros [W1 W2] En Eh Er. split.
  - intros h w Hw. rewrite En. specialize (Eh h). rewrite Hw in Eh. simpl in Eh.
    destruct (s_heap s !! h) eqn:E; [by eapply W1|done].
  - intros id h Hid. destruct (W2 id h (Er _ _ Hid)) as (w & Hw & <-). specialize (Eh h). rewrite Hw in Eh.
    destruct (s_heap s' !! h) as [w'|]; simpl in Eh; [|done]. exists w'. by split; [|congruence].
Qed.

Lemma heap_insert_id (heap : gmap nat worker) h w w' :
  heap !! h = Some w → w_id w' = w_id w → ∀ k, (w_id <$> <[h := w']> heap !! k) = (w_id <$> heap !! k).
Proof.
  intros Hw Hid k. destruct (decide (h = k)) as [->|Hne]; [|by rewrite lookup_insert_ne].
  rewrite lookup_insert_eq, Hw. simpl. by rewrite Hid.
Qed.

Lemma evictWorker_swf h err s : swf s → swf (evictWorker h err s).
Proof.
  intros Hwf. destruct (s_heap s !! h) as [w|] eqn:Hw; [|unfold evictWorker; by rewrite Hw].
  destruct (evictWorker_fields h err s w Hw) as (E1 & E2 & E3 & E4 & _).
  eapply swf_intro; [done|done|rewrite E1; by eapply heap_insert_id|]. rewrite E2.
  intros id h' H. by apply (unregister_spec s h w id h') in H as [? _].
Qed.

Lemma evictWorker_workers h err s id h' :
  swf s → is_Some (s_heap s !! h) →
  s_workers (evictWorker h err s) !! id = Some h' ↔ s_workers s !! id = Some h' ∧ h' ≠ h.
Proof.
  intros Hwf [w Hw]. destruct (evictWorker_fields h err s w Hw) as (_ & -> & _). by apply unregister_spec.
Qed.

Lemma evict_fold l err s :
  swf s → (∀ h, h ∈ l → is_Some (s_heap s !! h)) →
  let s' := fold_left (λ s h, evictWorker h err s) l s in
  swf s' ∧
  (∀ id h, s_workers s' !! id = Some h ↔ s_workers s !! id = Some h ∧ h ∉ l) ∧
  (∀ h, h ∉ l → s_heap s' !! h = s_heap s !! h) ∧
  (∀ h w, h ∈ l → s_heap s !! h = Some w → s_heap s' !! h = Some (fail_take w)).
Proof.
  revert s. induction l as [|a l IH]; intros s Hwf Hl.
  { simpl. split_and!; try done; [set_solver|]. intros ? ? ?%not_elem_of_nil. done. }
  cbn [fold_left]. destruct (Hl a) as [w Hw]; [left|].
  destruct (evictWorker_fields a err s w Hw) as (E1 & _).
  destruct (IH (evictWorker a err s)) as (I1 & I2 & I3 & I4); [by apply evictWorker_swf| |].
  { intros h Hh. rewrite E1. destruct (decide (a = h)) as [->|Hne]; [by rewrite lookup_insert_eq|].
    rewrite lookup_insert_ne by done. apply Hl. by right. }
  cbn zeta in *. split_and!; [done|..].
  - intros id h. rewrite I2, evictWorker_workers by eauto. set_solver.
  - intros h Hh. rewrite I3 by set_solver. rewrite E1, lookup_insert_ne; [done|]. intros ->. apply Hh. left.
  - intros h w' Hh Hw'. destruct (decide (a = h)) as [->|Hne].
    + rewrite Hw in Hw'. injection Hw' as <-. assert (Ea : s_heap (evictWorker h err s) !! h = Some (fail_take w))
        by (by rewrite E1, lookup_insert_eq).
      destruct (decide (h ∈ l)) as [Hin|Hni]; [by rewrite (I4 h _ Hin Ea)|by rewrite I3].
    + apply elem_of_cons in Hh as [Hh|Hh]; [done|]. apply I4; [done|]. by rewrite E1, lookup_insert_ne.
Qed.
End facts.

(** ** Properties *)

Section properties.
Context {CS SS : Type} `{!CounterStore CS} `{!SessionStore SS}.
Notation server := (Server CS SS).
Implicit Type s : server.

(** Worker selection. The handle pickWorker returns is the stream currently
    registered for its id, neither draining nor stale when it is handed out, and
    the scheduler finds it runnable for the model; with one clock reading it
    returns nothing only when no registered worker is runnable. *)
Theorem pick_worker_live s now1 now2 model pref :
  swf s →
  (∀ h, pickWorker now1 now2 model pref s = Some h →
     ∃ w, current s h w ∧ w_draining w = false ∧ isStale now2 (s_heartbeatTimeout s) w = false ∧
          runnable (snapshot now1 (s_heartbeatTimeout s) w) model = true) ∧
  (pickWorker now1 now1 model pref s = None ↔
     ∀ h w, current s h w → runnable (snapshot now1 (s_heartbeatTimeout s) w) model = false).
Proof.
  intros Hwf. split; [|by apply pickWorker_None]. intros h Hp.
  destruct (pickWorker_sound s now1 now2 model pref h Hwf Hp) as (w & Hc & Ha & Hr). exists w.
  unfold available in Ha. rewrite isStale_missed. destruct (w_draining w); [done|]. by destruct (missed w _ _).
Qed.

(** Stale eviction is exact. Afterwards a stream is registered if and only if
    it was and had not missed heartbeats past the timeout (so an evicted struct
    never takes a reconnected stream's registration with it); a kept worker is
    untouched, an evicted one has no job in flight. *)
Theorem evict_stale_exact s now :
  swf s →
  swf (evictStale now s) ∧
  (∀ id h, s_workers (evictStale now s) !! id = Some h ↔
     s_workers s !! id = Some h ∧
     ∀ w, s_heap s !! h = Some w → isStale now (s_heartbeatTimeout s) w = false) ∧
  (∀ h w, current s h w →
     s_heap (evictStale now s) !! h =
       Some (if isStale now (s_heartbeatTimeout s) w then fail_take w else w)).
Proof.
  intros Hwf. unfold evictStale. set (l := filter _ _).
  assert (Hl : ∀ h, h ∈ l ↔ ∃ w, current s h w ∧ isStale now (s_heartbeatTimeout s) w = true).
  { intros h. unfold l. rewrite list_elem_of_filter, elem_of_registered. split.
    - intros [Hs [id Hid]]. destruct (wf_reg _ Hwf _ _ Hid) as (w & Hw & <-). rewrite Hw in Hs. by exists w.
    - intros (w & [Hw Hr] & Hs). rewrite Hw. split; [done|by eexists]. }
  destruct (evict_fold l staleErr s Hwf) as (F1 & F2 & F3 & F4).
  { intros h (w & [Hw _] & _)%Hl. by exists w. }
  split; [done|]. split.
  - intros id h. rewrite F2, Hl. split; intros [Hid Hn]; (split; [done|]).
    + intros w Hw. apply not_true_iff_false. intros Hs. apply Hn. exists w. split; [|done]. split; [done|].
      destruct (wf_reg _ Hwf _ _ Hid) as (w' & Hw' & <-). congruence.
    + intros (w & [Hw _] & Hs). by rewrite (Hn w Hw) in Hs.
  - intros h w Hc. destruct (isStale now _ w) eqn:E.
    + apply F4; [|apply Hc]. apply Hl. by exists w.
    + rewrite F3; [apply Hc|]. intros (w' & [Hw' _] & Hs)%Hl. destruct Hc as [Hw _]. congruence.
Qed.

(** The part of the server a gate must not touch. *)
Definition same_fleet s s' : Prop :=
  s_heap s' = s_heap s ∧ s_workers s' = s_workers s ∧ s_chans s' = s_chans s ∧ s_queue s' = s_queue s ∧
  s_waiters s' = s_waiters s ∧ s_sessionMgr s' = s_sessionMgr s.

Definition usage_now (now : Time) (key : APIKey) s : Counters :=
  roll now (counters_of (Engine_cs (s_quota s)) (APIKey_ID key)).

Lemma gate_spec now key job s :
  0 <= MinuteRequests (usage_now now key s) → MinuteRequests (usage_now now key s) + 1 < 2 ^ 64 →
  let '(s', err) := gate now key job s in
  let lim := effectiveLimits (s_quota s) key in
  let usage := usage_now now key s in
  let used' id := counters_of (Engine_cs (s_quota s')) id in
  same_fleet s s' ∧
  (∀ e, Job_Validate job = Some e → err = Some e ∧ s' = s) ∧
  (Job_Validate job = None → ¬ permitted key (Job_Model job) Infer →
     err = Some ErrForbidden ∧ s_quota s' = s_quota s) ∧
  (Job_Validate job = None → permitted key (Job_Model job) Infer →
     (if admits lim usage then err = None ∧ used' (APIKey_ID key) = incr_requests usage
      else err = Some ErrQuotaExceeded ∧ used' (APIKey_ID key) = usage) ∧
     ∀ id, id ≠ APIKey_ID key → used' id = counters_of (Engine_cs (s_quota s)) id).
Proof.
  intros H0 H1. unfold gate. destruct (Job_Validate job) as [e|].
  { split; [done|]. split; [by intros ? [= <-]|done]. }
  pose proof (Authorize_verdict key (Job_Model job) Infer) as Ha.
  pose proof (decide_permitted key (Job_Model job) Infer) as Hp.
  destruct (Authorize key (Job_Model job) Infer) as [r err]. simpl in Ha.
  destruct ((decide_key key (Job_Model job) Infer).2); subst err.
  - unfold CheckAndReserve, reserve_with, audited. cbn [s_quota set_books].
    set (lim := effectiveLimits _ key). pose proof (Reserve_spec (APIKey_ID key) (UTC now) (as_check (denial lim))
      (Engine_cs (s_quota s))) as H. cbn zeta in H.
    destruct (Reserve _ _ _ _) as [cs e]. destruct H as [He Hc]. simpl. split; [done|]. split; [done|].
    split; [intros _ Hq; exfalso; by apply Hq, Hp|]. intros _ _. change (UTC now) with now in *.
    change (roll now _) with (usage_now now key s) in He, Hc.
    rewrite (denial_admits lim (usage_now now key s) H0 H1) in He, Hc. subst e. split.
    + rewrite Hc. destruct (decide (APIKey_ID key = APIKey_ID key)); [|done]. by destruct (admits lim _).
    + intros id Hid. rewrite Hc. by destruct (decide (id = APIKey_ID key)).
  - split; [done|]. split; [done|]. split; [done|]. intros _ Hq. by apply Hp in Hq.
Qed.

(** What the streaming entry point does once the gate has let the job through, in
    the state the gate left: pick a worker, bind the session and register an
    observer, or say why there is none.  It charges and audits nothing more. *)
Lemma stream_admitted k key job s s1 :
  gate (k_gate k) key job s = (s1, None) →
  let '(s'', r') := SubmitAuthorizedJobStream k key job s in
  let hints := sessionDispatchHints (k_session k) job (APIKey_ID key) s1 in
  s_quota s'' = s_quota s1 ∧ s_audit s'' = s_audit s1 ∧
  match pickWorker (k_fleet k) (k_pick k) (Job_Model job) hints.1 s1 with
  | Some h => ∃ obs, r' = Ok (h, obs, Job_set_KeepAliveSeconds hints.2 job)
  | None => s'' = s1 ∧ r' = Err (if modelServed (k_served k) (Job_Model job) s1 then ErrQueueFull else ErrModelUnavailable)
  end.
Proof.
  intros E. unfold SubmitAuthorizedJobStream. rewrite E. destruct (sessionDispatchHints _ _ _ _) as [pref ka]. cbn [fst snd].
  change (Job_Model (Job_set_KeepAliveSeconds ka job)) with (Job_Model job).
  destruct (pickWorker _ _ _ _ s1) as [h|] eqn:Ep; [|by destruct (modelServed _ _ _)].
  assert (Hw : is_Some (s_heap s1 !! h)).
  { unfold pickWorker in Ep. apply bind_Some in Ep as (id & _ & Ep). apply bind_Some in Ep as (h' & _ & Ep).
    apply bind_Some in Ep as (w & Hw & Ep). destruct (available _ _ w); [|done]. simplify_eq. by exists w. }
  destruct Hw as [w Hw]. rewrite Hw.
  assert (Hb : ∀ now j kid c p, s_quota (recordAffinity now j kid c p s1) = s_quota s1 ∧
               s_audit (recordAffinity now j kid c p s1) = s_audit s1).
  { intros. unfold recordAffinity. by repeat case_match. }
  destruct (Hb (k_bind k) (Job_set_KeepAliveSeconds ka job) (APIKey_ID key) (w_id w) pref) as [H1 H2].
  simpl. split; [done|]. split; [done|]. by eexists.
Qed.

(** C6: Nothing reaches a worker or the queue before the gate has passed, in the
    order validate, authorize, reserve. An invalid job changes nothing; a
    forbidden one costs no quota; one over its limits is refused with the key's
    counters only rolled; an admitted one is charged exactly one request, no
    other key's counters move, and only then is it routed. The streaming entry
    point refuses in exactly the same cases, charges an admitted job exactly as
    the other one does, and then, in that charged state, hands it to the worker
    the scheduler picks or answers that none can take it now or none has the
    model. The key's request counter is assumed not to wrap. *)
Theorem gate_before_dispatch s k key job :
  0 <= MinuteRequests (usage_now (k_gate k) key s) → MinuteRequests (usage_now (k_gate k) key s) + 1 < 2 ^ 64 →
  let '(s', r) := SubmitAuthorizedJob k key job s in
  let '(s'', r') := SubmitAuthorizedJobStream k key job s in
  let lim := effectiveLimits (s_quota s) key in
  let usage := usage_now (k_gate k) key s in
  let used' id := counters_of (Engine_cs (s_quota s')) id in
  same_fleet s s' ∧
  (∀ e, Job_Validate job = Some e → r = Reject e ∧ r' = Err e ∧ s' = s ∧ s'' = s) ∧
  (Job_Validate job = None → ¬ permitted key (Job_Model job) Infer →
     r = Reject ErrForbidden ∧ r' = Err ErrForbidden ∧ s'' = s' ∧ s_quota s' = s_quota s) ∧
  (Job_Validate job = None → permitted key (Job_Model job) Infer →
     if admits lim usage
     then r = submit k job (APIKey_ID key) s' ∧ used' (APIKey_ID key) = incr_requests usage ∧
          (∀ id, id ≠ APIKey_ID key → used' id = counters_of (Engine_cs (s_quota s)) id) ∧
          s_quota s'' = s_quota s' ∧ s_audit s'' = s_audit s' ∧
          let hints := sessionDispatchHints (k_session k) job (APIKey_ID key) s' in
          match pickWorker (k_fleet k) (k_pick k) (Job_Model job) hints.1 s' with
          | Some h => ∃ obs, r' = Ok (h, obs, Job_set_KeepAliveSeconds hints.2 job)
          | None => s'' = s' ∧ r' = Err (if modelServed (k_served k) (Job_Model job) s' then ErrQueueFull
                                         else ErrModelUnavailable)
          end
     else r = Reject ErrQuotaExceeded ∧ r' = Err ErrQuotaExceeded ∧ s'' = s' ∧
          used' (APIKey_ID key) = usage).
Proof.
  intros H0 H1. pose proof (gate_spec (k_gate k) key job s H0 H1) as H.
  pose proof (stream_admitted k key job s) as Ha. unfold SubmitAuthorizedJob.
  destruct (gate (k_gate k) key job s) as [s1 [e|]] eqn:E.
  - clear Ha. unfold SubmitAuthorizedJobStream. rewrite E.
    destruct H as (Hf & Hv & Hn & Hp). split; [done|]. split; [|split].
    + intros e' He. destruct (Hv e' He) as [[= ->] ->]. done.
    + intros Hj Hq. by destruct (Hn Hj Hq) as [[= ->] ->].
    + intros Hj Hq. destruct (Hp Hj Hq) as [Ha _]. destruct (admits _ _); [by destruct Ha|].
      by destruct Ha as [[= ->] ->].
  - destruct H as (Hf & Hv & Hn & Hp). specialize (Ha s1 eq_refl).
    destruct (SubmitAuthorizedJobStream k key job s) as [s'' r']. split; [done|]. split; [|split].
    + intros e' He. by destruct (Hv e' He).
    + intros Hj Hq. by destruct (Hn Hj Hq).
    + intros Hj Hq. destruct (Hp Hj Hq) as [Hc Ho]. destruct (admits _ _); [|by destruct Hc].
      destruct Hc as [_ Hc]. split; [done|]. split; [exact Hc|]. split; [exact Ho|]. exact Ha.
Qed.

Lemma Job_set_fields n job :
  Job_ID (Job_set_KeepAliveSeconds n job) = Job_ID job ∧
  Job_Model (Job_set_KeepAliveSeconds n job) = Job_Model job.
Proof. done. Qed.

Lemma warmWindow_pos ttl mx : 1 <= warmWindowSeconds ttl mx.
Proof. unfold warmWindowSeconds. case_match; zbool; lia. Qed.

Lemma hints_keepAlive now job keyID s :
  let ka := (sessionDispatchHints now job keyID s).2 in ka = 0 ∨ 1 <= ka.
Proof.
  unfold sessionDispatchHints. repeat case_match; simpl; auto. right. apply warmWindow_pos.
Qed.

(** What submit does with a job, at one clock reading. It is refused with
    ErrModelUnavailable exactly when no registered worker that is draining or
    heard from in time lists the model; it goes to a worker exactly when that
    worker is the scheduler's pick, current and available; it is queued exactly
    when the model is served and no registered worker is runnable for it. The
    job keeps its id and model, and is stamped with a keep-alive of zero or at
    least one second. *)
Theorem submit_routes s k now job keyID :
  swf s → Job_Validate job = None → k_served k = now → k_fleet k = now → k_pick k = now →
  let served := ∃ h w m, current s h w ∧ (w_draining w = true ∨ isStale now (s_heartbeatTimeout s) w = false) ∧
                  m ∈ Worker_Models (snapshot now (s_heartbeatTimeout s) w) ∧ Model_Name m = Job_Model job in
  let idle := ∀ h w, current s h w → runnable (snapshot now (s_heartbeatTimeout s) w) (Job_Model job) = false in
  let stamped job' := ∃ ka, job' = Job_set_KeepAliveSeconds ka job ∧ (ka = 0 ∨ 1 <= ka) in
  match submit k job keyID s with
  | Reject e => e = ErrModelUnavailable ∧ ¬ served
  | ToWorker h pref job' => served ∧ stamped job' ∧
      ∃ w, current s h w ∧ available now (s_heartbeatTimeout s) w = true ∧
           runnable (snapshot now (s_heartbeatTimeout s) w) (Job_Model job) = true
  | ToQueue job' => served ∧ stamped job' ∧ idle
  end.
Proof.
  intros Hwf Hv E1 E2 E3 served idle stamped.
  assert (Hserved : modelServed now (Job_Model job) s = true ↔ served).
  { rewrite modelServed_spec by done. subst served. by setoid_rewrite isStale_missed. }
  unfold submit. rewrite Hv, E1, E2, E3. pose proof (hints_keepAlive (k_session k) job keyID s) as Hka.
  destruct (sessionDispatchHints _ job keyID s) as [pref ka]. simpl in Hka.
  destruct (Job_set_fields ka job) as [_ ->].
  destruct (modelServed now (Job_Model job) s) eqn:Es; simpl; [apply proj1 in Hserved; specialize (Hserved eq_refl)|].
  - destruct (pickWorker now now (Job_Model job) pref s) as [h|] eqn:Ep.
    + split; [done|]. split; [by exists ka|]. by apply (pickWorker_sound s now now _ pref).
    + split; [done|]. split; [by exists ka|]. exact (proj1 (pickWorker_None s now (Job_Model job) pref Hwf) Ep).
  - split; [done|]. by rewrite <- Hserved.
Qed.

(** *** Time in queue *)

Definition wait_ms (d : Duration) : Z := Z.max 0 (Milliseconds d).
Definition zsum (l : list Z) : Z := foldr Z.add 0 l.
Definition zmax (l : list Z) : Z := foldr Z.max 0 l.
Definition count_le (bound : Z) (l : list Z) : Z := Z.of_nat (length (filter (λ x, x <= bound) l)).
Definition dist_of (l : list Z) : waitDist :=
  mkWait (Z.of_nat (length l)) (zsum l) (zmax l) (map (λ b, count_le b l) waitBucketBounds).

Lemma zsum_nonneg l : Forall (λ x, 0 <= x) l → 0 <= zsum l.
Proof. unfold zsum. induction 1; simpl; lia. Qed.
Lemma wait_ms_nonneg ds : Forall (λ x, 0 <= x) (wait_ms <$> ds).
Proof. apply Forall_fmap, Forall_true. intros d. unfold wait_ms. simpl. lia. Qed.
Lemma zsum_snoc l x : zsum (l ++ [x]) = zsum l + x.
Proof. unfold zsum. induction l as [|y l IH]; simpl; lia. Qed.
Lemma zmax_snoc l x : zmax (l ++ [x]) = Z.max (zmax l) x ∧ 0 <= zmax l.
Proof. unfold zmax. induction l as [|y l [IH1 IH2]]; simpl; lia. Qed.
Lemma count_le_snoc b l x : count_le b (l ++ [x]) = count_le b l + (if x <=? b then 1 else 0).
Proof.
  unfold count_le. rewrite filter_app, length_app, Nat2Z.inj_add. f_equal. rewrite filter_cons, filter_nil.
  destruct (Z.leb_spec x b); [rewrite decide_True by done|rewrite decide_False by lia]; done.
Qed.
Lemma count_le_range b l : 0 <= count_le b l <= Z.of_nat (length l).
Proof. unfold count_le. pose proof (length_filter (λ x, x <= b) l). lia. Qed.

Lemma recordWait_dist d l s :
  s_wait s = dist_of l → Forall (λ x, 0 <= x) l →
  zsum l + wait_ms d < 2 ^ 64 → Z.of_nat (length l) + 1 < 2 ^ 64 →
  s_wait (recordWait d s) = dist_of (l ++ [wait_ms d]).
Proof.
  intros Hs Hl Hsum Hlen. pose proof (zsum_nonneg l Hl).
  unfold recordWait. rewrite Hs. cbn [s_wait set_wait set_books dist_of waitCount waitSumMs waitMaxMs waitBuckets].
  replace (if Milliseconds d <? 0 then 0 else Milliseconds d) with (wait_ms d)
    by (unfold wait_ms; destruct (Z.ltb_spec (Milliseconds d) 0); lia).
  assert (0 <= wait_ms d) by (unfold wait_ms; lia).
  rewrite (u64_id (wait_ms d)) by (unfold is_u64; lia). unfold dist_of.
  rewrite length_app, zsum_snoc, (proj1 (zmax_snoc l _)). cbn [length]. f_equal.
  - rewrite u64_id by (unfold is_u64; lia). lia.
  - rewrite u64_id by (unfold is_u64; lia). done.
  - destruct (Z.ltb_spec (zmax l) (wait_ms d)); lia.
  - unfold waitBucketBounds. cbn [map zip_with]. rewrite !count_le_snoc.
    repeat (f_equal; try (match goal with |- context [count_le ?b l] => pose proof (count_le_range b l) end;
      destruct (_ <=? _); rewrite ?u64_id by (unfold is_u64; lia); lia)).
Qed.

Lemma recordWaits_dist ds l s :
  s_wait s = dist_of l → Forall (λ x, 0 <= x) l →
  zsum l + zsum (wait_ms <$> ds) < 2 ^ 64 → Z.of_nat (length l) + Z.of_nat (length ds) < 2 ^ 64 →
  s_wait (fold_left (λ s d, recordWait d s) ds s) = dist_of (l ++ (wait_ms <$> ds)).
Proof.
  revert l s. induction ds as [|d ds IH]; intros l s Hs Hl Hsum Hlen; [by rewrite app_nil_r|].
  cbn [fold_left fmap list_fmap] in *. change (zsum (wait_ms d :: (wait_ms <$> ds))) with
    (wait_ms d + zsum (wait_ms <$> ds)) in Hsum. rewrite length_cons in Hlen.
  assert (0 <= wait_ms d) by (unfold wait_ms; lia).
  pose proof (zsum_nonneg _ (wait_ms_nonneg ds)).
  rewrite (IH (l ++ [wait_ms d])).
  - by rewrite <- app_assoc.
  - apply recordWait_dist; [done..|lia|lia].
  - apply Forall_app. split; [done|]. by constructor.
  - rewrite zsum_snoc. lia.
  - rewrite length_app. simpl. lia.
Qed.

(** The time-in-queue histogram. After any sequence of recorded waits whose
    total stays below 2^64 ms, WaitTimeStats reports exactly their number, sum
    and maximum in milliseconds (negative waits counted as zero), each bucket
    the number of waits at most its bound, and the +Inf bucket all of them. *)
Theorem wait_histogram (cs : CS) ds :
  zsum (wait_ms <$> ds) < 2 ^ 64 → Z.of_nat (length ds) < 2 ^ 64 →
  let l := wait_ms <$> ds in
  WaitTimeStats (fold_left (λ s d, recordWait d s) ds (New cs [])) =
  mkWaitStats (Z.of_nat (length ds)) (zsum l) (zmax l)
    ([mkBucket 10 (count_le 10 l); mkBucket 100 (count_le 100 l); mkBucket 1000 (count_le 1000 l);
      mkBucket 10000 (count_le 10000 l)] ++ [mkBucket 0 (Z.of_nat (length ds))]).
Proof.
  intros Hs Hl l. unfold WaitTimeStats. rewrite (recordWaits_dist ds [] (New cs []) eq_refl).
  - simpl. by rewrite length_fmap.
  - constructor.
  - simpl. lia.
  - simpl. lia.
Qed.

(** The keep-alive window. It is a whole number of seconds, at least one; with a
    positive cap it never exceeds the cap (nor one second when the cap is
    smaller); a session with a positive idle TTL never keeps the model longer
    than that TTL (again rounded up to one second), and one below the cap keeps
    it for all of its whole seconds; one without a TTL gets the cap. *)
Theorem warm_window_bounds ttl mx :
  0 < mx →
  let secs := warmWindowSeconds ttl mx in
  1 <= secs ∧ secs * Second <= Z.max Second mx ∧
  (0 < ttl → secs * Second <= Z.max Second ttl) ∧
  (0 < ttl <= mx → Second <= ttl → secs * Second <= ttl < (secs + 1) * Second) ∧
  (ttl <= 0 → secs = warmWindowSeconds mx mx).
Proof.
  intros Hm secs. subst secs. split; [apply warmWindow_pos|].
  assert (Q : ∀ w, 0 < w → Second * Z.quot w Second <= w < Second * Z.quot w Second + Second).
  { intros w Hw. pose proof (Z.quot_rem' w Second). pose proof (Z.rem_bound_pos w Second). unfold Second in *. lia. }
  unfold warmWindowSeconds. pose proof (Q mx Hm).
  destruct (Z.leb_spec ttl 0), (Z.ltb_spec 0 mx), (Z.ltb_spec mx ttl); cbn [orb andb]; try lia;
    try (pose proof (Q ttl ltac:(lia)));
    rewrite ?(proj2 (Z.leb_gt mx 0)), ?(proj2 (Z.ltb_ge mx mx)) by lia; cbn [orb andb];
    destruct (_ <? 1) eqn:E; zbool; unfold Second in *; lia.
Qed.

(** *** Affinity *)

Lemma put_back_spec sess (m : Manager SS) :
  (Put sess (m_sessions m)).2 = None →
  sessions_of (m_sessions (put_back sess m).1) = <[Session_ID sess := sess]> (sessions_of (m_sessions m)).
Proof.
  intros H. unfold put_back. pose proof (Put_spec sess (m_sessions m)) as Hp.
  destruct (Put sess (m_sessions m)) as [st [e|]]; [done|]. done.
Qed.

Lemma ownedActive_ok id owner now (m : Manager SS) sess :
  sessions_of (m_sessions m) !! id = Some sess → Session_OwnerKeyID sess = owner → expired sess now = false →
  ownedActive id owner now m = Ok sess.
Proof.
  intros H1 <- H3. unfold ownedActive. rewrite (Session.Get_spec id (m_sessions m)), H1. by rewrite String.eqb_refl, H3.
Qed.

(** Session affinity. After a turn of a live session served by worker
    [chosen], the session is bound to that worker, so the next turn prefers it;
    no other session changes, and exactly one of these is counted: nothing on
    the first turn, a hit when the bound worker was reused, a miss together with
    a rebind when the session moved, so misses and rebinds always agree. *)
Theorem affinity_follows_dispatch s m now later job keyID chosen sess :
  s_sessionMgr s = Some m → no_session job keyID = false →
  sessions_of (m_sessions m) !! Job_SessionID job = Some sess → Session_ID sess = Job_SessionID job →
  Session_OwnerKeyID sess = keyID → expired sess now = false →
  (∀ x, (Put x (m_sessions m)).2 = None) →
  let preferred := affinityFor now job keyID s in
  let s' := recordAffinity now job keyID chosen preferred s in
  let a := s_affinity s in let a' := s_affinity s' in
  (∃ m' sess', s_sessionMgr s' = Some m' ∧
     sessions_of (m_sessions m') !! Job_SessionID job = Some sess' ∧ Session_BoundWorkerID sess' = chosen ∧
     (expired sess' later = false → affinityFor later job keyID s' = chosen) ∧
     ∀ id, id ≠ Job_SessionID job → sessions_of (m_sessions m') !! id = sessions_of (m_sessions m) !! id) ∧
  (if decide (preferred = "") then a' = a
   else if decide (chosen = preferred) then a' = mkAff (u64 (aff_Hits a + 1)) (aff_Misses a) (aff_Rebinds a)
   else a' = mkAff (aff_Hits a) (u64 (aff_Misses a + 1)) (u64 (aff_Rebinds a + 1))) ∧
  (aff_Misses a = aff_Rebinds a → aff_Misses a' = aff_Rebinds a').
Proof.
  intros Hm Hj Hl Hid Ho He Hput preferred.
  assert (Hp : preferred = Session_BoundWorkerID sess).
  { unfold preferred, affinityFor, Manager_Get. by rewrite Hm, Hj, (ownedActive_ok _ _ _ _ sess). }
  assert (Haff : ∀ s' m' sess', s_sessionMgr s' = Some m' → sessions_of (m_sessions m') !! Job_SessionID job = Some sess' →
            Session_OwnerKeyID sess' = keyID → expired sess' later = false →
            affinityFor later job keyID s' = Session_BoundWorkerID sess').
  { intros s' m' sess' E1 E2 E3 E4. unfold affinityFor, Manager_Get.
    by rewrite E1, Hj, (ownedActive_ok _ _ _ _ sess'). }
  assert (Hb : ∃ sess', sessions_of (m_sessions (Bind now (Job_SessionID job) keyID chosen m).1) =
                 <[Job_SessionID job := sess']> (sessions_of (m_sessions m)) ∧
               Session_BoundWorkerID sess' = chosen ∧ Session_OwnerKeyID sess' = keyID).
  { exists (bind_to chosen now sess). unfold Bind. rewrite (ownedActive_ok _ _ _ _ sess) by done.
    rewrite put_back_spec by done. simpl. by rewrite Hid. }
  destruct Hb as (sess' & Hs' & Hc' & Ho'). intros s' a a'. subst s' a' a. unfold recordAffinity. rewrite Hm, Hj.
  destruct (String.eqb_spec preferred "") as [E|E]; [|destruct (String.eqb_spec chosen preferred) as [E'|E']].
  - split; [|by rewrite decide_True]. exists (Bind now (Job_SessionID job) keyID chosen m).1, sess'. split; [done|]. rewrite Hs'.
    split; [by rewrite lookup_insert_eq|]. split; [done|]. split.
    + intros Hx. etrans; [|exact Hc']. apply (Haff _ (Bind now (Job_SessionID job) keyID chosen m).1 sess'); [done|by rewrite Hs', lookup_insert_eq|done|done].
    + intros id Hne. by rewrite lookup_insert_ne.
  - split; [|by rewrite decide_False, decide_True]. exists m, sess. split; [done|]. split; [done|].
    split; [congruence|]. split; [|done]. intros Hx. rewrite E', Hp. by eapply Haff.
  - split; [|by rewrite !decide_False by done; simpl; split; [done|intros ->]].
    exists (Bind now (Job_SessionID job) keyID chosen m).1, sess'. split; [done|]. rewrite Hs'.
    split; [by rewrite lookup_insert_eq|]. split; [done|]. split.
    + intros Hx. etrans; [|exact Hc']. apply (Haff _ (Bind now (Job_SessionID job) keyID chosen m).1 sess'); [done|by rewrite Hs', lookup_insert_eq|done|done].
    + intros id Hne. by rewrite lookup_insert_ne.
Qed.
End properties.

(** ** Witnesses and divergences *)

#[local] Instance demo_sess : SessionStore MemorySessionStore := MSS_SessionStore demo_sessions demo_sessions_ok.
Notation demo_type := (Server MemoryCounterStore MemorySessionStore).

Definition ex_server : demo_type := New NewMemoryCounterStore [].
Definition ex_models : option (list (option PbModel)) := Some [Some (mkPbModel "m" "")].
(** One registered worker that lists model "m", heard from at [ex_time]. *)
Definition ex_one : demo_type := (connect_first ex_time (WRegister "w1" ex_models) ex_server).1.
Definition ex_clk (t : Time) : clocks := mkClocks t t t t t t.

Lemma ex_server_swf : swf ex_server.
Proof. split; intros *; simpl; by rewrite lookup_empty. Defined.

Definition ex_worker1 : worker := default (newWorker "" None 0) (s_heap ex_one !! 0%nat).

Lemma ex_one_swf : swf ex_one.
Proof.
  assert (Eh : s_heap ex_one = {[ 0%nat := ex_worker1 ]}) by (vm_compute; reflexivity).
  assert (Ew : s_workers ex_one = {[ "w1" := 0%nat ]}) by (vm_compute; reflexivity).
  split; rewrite Eh, ?Ew.
  - intros h w. rewrite lookup_singleton_Some. intros [<- _]. vm_compute. lia.
  - intros id h. rewrite lookup_singleton_Some. intros [<- <-]. exists ex_worker1.
    rewrite lookup_singleton_eq. split; [reflexivity|vm_compute; reflexivity].
Defined.

Lemma pick_worker_live_witness :
  pickWorker ex_time ex_time "m" "" ex_one = Some 0%nat ∧
  ∃ w, current ex_one 0 w ∧ w_draining w = false.
Proof.
  split; [vm_compute; reflexivity|].
  destruct (pick_worker_live ex_one ex_time ex_time "m" "" ex_one_swf) as [H _].
  destruct (H 0%nat) as (w & Hc & Hd & _); [vm_compute; reflexivity|]. by exists w.
Defined.

Lemma evict_stale_exact_witness :
  s_workers (evictStale (ex_time + Hour) ex_one) !! "w1" = None ∧ swf (evictStale (ex_time + Hour) ex_one).
Proof.
  split; [vm_compute; reflexivity|]. by apply (evict_stale_exact ex_one (ex_time + Hour) ex_one_swf).
Defined.

Definition ex_key (roles allow : list string) (lim : Limits) : APIKey :=
  mkAPIKey "k1" "" "" [] [] 0 0 0 None "" "" None "" roles [] allow [] (Some lim).
Definition ex_request : Job := mkJob "j1" "m" "hi" [] [] "" 0.

Lemma gate_before_dispatch_witness :
  let '(s', r) := SubmitAuthorizedJob (ex_clk ex_time) (ex_key [RoleUser] ["m"] (mkLimits 5 0 0 0)) ex_request ex_one in
  same_fleet ex_one s' ∧ r = ToWorker 0 "" ex_request.
Proof.
  pose proof (gate_before_dispatch ex_one (ex_clk ex_time) (ex_key [RoleUser] ["m"] (mkLimits 5 0 0 0)) ex_request) as H.
  specialize (H ltac:(vm_compute; discriminate) ltac:(vm_compute; reflexivity)).
  assert (E : (SubmitAuthorizedJob (ex_clk ex_time) (ex_key [RoleUser] ["m"] (mkLimits 5 0 0 0)) ex_request ex_one).2 =
              ToWorker 0 "" ex_request) by (vm_compute; reflexivity).
  destruct (SubmitAuthorizedJob _ _ _ _) as [s' r]. destruct (SubmitAuthorizedJobStream _ _ _ _) as [s'' r'].
  exact (conj (proj1 H) E).
Defined.

Lemma submit_routes_witness : submit (ex_clk ex_time) ex_request "" ex_server = Reject ErrModelUnavailable ∧
  match submit (ex_clk ex_time) ex_request "" ex_one with
  | ToWorker h _ _ => ∃ w, current ex_one h w
  | _ => False
  end.
Proof.
  split; [vm_compute; reflexivity|].
  pose proof (submit_routes ex_one (ex_clk ex_time) ex_time ex_request "" ex_one_swf eq_refl eq_refl eq_refl eq_refl) as H.
  cbn zeta in H.
  assert (E : submit (ex_clk ex_time) ex_request "" ex_one = ToWorker 0 "" ex_request) by (vm_compute; reflexivity).
  rewrite E in H |- *. destruct H as (_ & _ & w & Hc & _). by exists w.
Defined.

Lemma wait_histogram_witness :
  WaitTimeStats (fold_left (λ s d, recordWait d s) [5 * Millisecond; 2 * Second; - Second] ex_server) =
  mkWaitStats 3 2005 2000 [mkBucket 10 2; mkBucket 100 2; mkBucket 1000 2; mkBucket 10000 3; mkBucket 0 3].
Proof.
  etrans; [apply (wait_histogram NewMemoryCounterStore [5 * Millisecond; 2 * Second; - Second]); vm_compute; reflexivity|].
  vm_compute. reflexivity.
Defined.

Lemma warm_window_bounds_witness : warmWindowSeconds (1500 * Millisecond) Hour = 1 ∧
  1 <= warmWindowSeconds (1500 * Millisecond) Hour.
Proof. split; [reflexivity|]. by apply (warm_window_bounds (1500 * Millisecond) Hour). Defined.

Definition ex_session : Session := mkSession "sess_1" "k1" "m" "w0" ex_time ex_time Hour StatusActive.
Definition ex_manager : Manager MemorySessionStore :=
  mkManager (mkMSS {[ "sess_1" := ex_session ]}) (NewMemoryHistoryStore 0 0) Hour ∅ 0 false [] Minute 0.
Definition ex_affine : demo_type := New NewMemoryCounterStore [WithSessionManager (Some ex_manager)].
Definition ex_turn : Job := mkJob "j1" "m" "hi" [] [] "sess_1" 0.

Lemma affinity_follows_dispatch_witness :
  affinityFor ex_time ex_turn "k1" ex_affine = "w0" ∧
  let s' := recordAffinity ex_time ex_turn "k1" "w1" "w0" ex_affine in
  s_affinity s' = mkAff 0 1 1 ∧ affinityFor ex_time ex_turn "k1" s' = "w1".
Proof.
  split; [vm_compute; reflexivity|]. intros s'.
  destruct (affinity_follows_dispatch ex_affine ex_manager ex_time ex_time ex_turn "k1" "w1" ex_session)
    as ((m' & sess' & Hm & Hl & _ & Ha & _) & Hc & _); try reflexivity.
  split; [vm_compute; reflexivity|]. apply Ha. vm_compute in Hm. injection Hm as <-.
  vm_compute in Hl. injection Hl as <-. reflexivity.
Defined.

(** The streaming entry point does not share submit's fail-fast gate: with one
    online worker that has free memory but not the model, submit refuses the job
    as unavailable while the stream is dispatched to that worker. *)
Theorem stream_skips_model_gate :
  let hb := Heartbeat_Proto (mkHeartbeat "w1" 0 (2 ^ 34) (2 ^ 34) 0 "gpu" None) in
  let s := (connect_message ex_time 0 (WHeartbeat hb) (connect_first ex_time (WRegister "w1" None) ex_server).1).1 in
  let key := ex_key [RoleAdmin] [] Limits_zero in
  (SubmitAuthorizedJob (ex_clk ex_time) key ex_request s).2 = Reject ErrModelUnavailable ∧
  is_Ok (SubmitAuthorizedJobStream (ex_clk ex_time) key ex_request s).2 = true.
Proof. vm_compute. done. Qed.
