(* ===== verification/ServerRun.v ===== *)
(** * ServerRun.v: the control plane, run

    Calls of [submit], the streaming entry point's dispatch goroutine, the
    placement loop, worker streams, the eviction loop, reapers and [Close] run
    concurrently in the server; here they are interleaved.  [mstep] executes one
    event, a stretch of one goroutine's code, with the pieces of file Server;
    [run] executes a list of them.

    Goroutines are cut wherever they can block (every select and channel receive,
    [w.send], [DequeueWait]), between [pickWorker], [addPending] and the sends of
    [dispatchTo], between [addWaiter] and [Enqueue], and, for a worker's chunk,
    between the lock region of [accumulate] and what follows it: the send of a
    delta to its observer, or the [resolve] of a terminal chunk.  The remaining
    steps can take several locks one after the other.  These stay whole:
    [evictWorker] (unregister, swap the maps, answer what was in them), [resolve],
    [resolveWaiter] and [failAllWaiters] (take a channel out of a map, send on
    it), [pickWorker] (snapshot, pick, re-check), the registration of a stream,
    and the closing of the observer a terminal chunk took out of the map.  In
    each of them the channel operation is on a channel the lock region took out
    of a shared map, so no other goroutine can send on it or close it.

    A send on a closed channel panics, which ends the process: after it no event
    is possible.  Job ids are whatever the callers give; nothing here makes them
    distinct.

    The second half is the invariant of the shared state: who holds which channel
    ([ginv]), and what every operation leaves alone ([quiet]).  File ServerProps
    adds the calls and the placement loop and proves the properties. *)

From S2P Require Import Prelude Errors GoTime Types GoHeap Store Authz Queue Scheduler Quota History Session ServerWorker Server.
Open Scope Z_scope.

(** ** Program counters *)

(** A call of [submit] (or the dispatch goroutine of a streaming call). *)
Inductive tpc :=
| TRoute                                             (* nothing done yet *)
| TPicked (h : nat) (pref : string) (job : Job)      (* pickWorker returned; before addPending *)
| TSend (h ch : nat) (pref : string) (job : Job)     (* at the first select of dispatchTo *)
| TRecv (h ch : nat) (pref : string) (job : Job)     (* at its second select *)
| TQueue (job : Job)                                 (* no worker; before addWaiter *)
| TEnq (ch : nat) (job : Job)                        (* waiter registered; before Enqueue *)
| TPark (ch : nat) (job : Job)                       (* at the final select of submit *)
| TDone (res : JobResult) (err : option error).

(** [t_stream] marks a streaming call, whose entry point records affinity itself. *)
Record task := mkTask { t_job : Job; t_key : string; t_prio : Z; t_stream : bool; t_pc : tpc }.

(** The placement loop. *)
Inductive lpc :=
| LIdle                                              (* at DequeueWait *)
| LTry (it : Item)                                   (* top of placeItem's loop *)
| LWait (it : Item)                                  (* no worker; at its select *)
| LPicked (it : Item) (h : nat) (pref : string)
| LSend (it : Item) (h ch : nat) (pref : string)
| LRecv (it : Item) (h ch : nat) (pref : string)
| LFinish (it : Item) (h : nat) (pref : string) (res : JobResult) (err : option error)
| LStopped.

(** The case the select of [placeItem] takes. *)
Inductive wake := WakeDone | WakeCapacity | WakeTick.

(** A stream's reader inside [accumulate], its lock region behind it: a delta is
    still to be sent to the observer it read, or the result of a terminal chunk is
    still to be resolved. *)
Inductive rpc :=
| RForward (obs : option nat) (chunk : JobChunk)
| RResolve (res : JobResult).

Inductive event :=
| EConnect (now : Time) (msg : workerMsg)
| EMessage (now : Time) (h : nat) (msg : workerMsg)
| EReader (h : nat)
| EWriter (h : nat)
| EConnEnd (h : nat)
| EEvict (now : Time)
| EDrain (id : string) (deadline : Duration)
| EReap (ev : reapEvent) (h : nat)
| EReadObs (o : nat)
| EUnobserve (id : string) (h : nat)
| ESetTimeout (d : Duration)
| EUsage (now : Time) (keyID : string) (tokens : Z)
| ESpawn (t : nat) (job : Job) (key : string) (prio : Z)
| EAuthorized (t : nat) (now : Time) (key : APIKey) (job : Job)
| EStream (t : nat) (k : clocks) (key : APIKey) (job : Job)
| ETask (t : nat) (k : clocks) (ctxDone takeDone : bool)
| ELoop (k : clocks) (takeDone : bool)
| EWake (w : wake)
| EStop
| ECloseQueue
| EFailWaiters.

Section machine.
Context {CS SS : Type} `{!CounterStore CS} `{!SessionStore SS}.
Notation server := (Server CS SS).

Record mstate := mkM {
  m_s : server;
  m_tasks : gmap nat task;
  m_loop : lpc;
  m_stop : bool;          (* the placement loop's context is cancelled *)
  m_closed : bool;        (* Close has returned *)
  m_readers : gmap nat rpc }.

Definition m_init (s : server) : mstate := mkM s ∅ LIdle false false ∅.

Definition with_s (s : server) (m : mstate) : mstate :=
  mkM s (m_tasks m) (m_loop m) (m_stop m) (m_closed m) (m_readers m).
Definition with_reader (s : server) (rs : gmap nat rpc) (m : mstate) : mstate :=
  mkM s (m_tasks m) (m_loop m) (m_stop m) (m_closed m) rs.
Definition with_task (t : nat) (s : server) (x : task) (pc : tpc) (m : mstate) : mstate :=
  mkM s (<[t := mkTask (t_job x) (t_key x) (t_prio x) (t_stream x) pc]> (m_tasks m)) (m_loop m) (m_stop m) (m_closed m)
    (m_readers m).
Definition with_loop (s : server) (l : lpc) (m : mstate) : mstate :=
  mkM s (m_tasks m) l (m_stop m) (m_closed m) (m_readers m).

(** A call begins: a new task. *)
Definition spawn (t : nat) (x : task) (s : server) (m : mstate) : option mstate :=
  match m_tasks m !! t with
  | Some _ => None
  | None => Some (mkM s (<[t := x]> (m_tasks m)) (m_loop m) (m_stop m) (m_closed m) (m_readers m))
  end.

(** [accumulate] up to the end of its lock region.  The observer a terminal chunk
    took out of the map gets the chunk and is closed at once. *)
Definition accumulate_start (chunk : JobChunk) (w : worker) (c : chans) : worker * chans * rpc :=
  if negb (JobChunk_Done chunk) then
    let '(w, obs) := accumulate_delta chunk w in
    (w, c, RForward obs chunk)
  else
    let '(w, output, obs) := accumulate_done chunk w in
    (w, match obs with None => c | Some o => close_obs o (forwardChunk o chunk c) end,
     RResolve (result_of chunk output)).

(** One message of the reader loop of stream [h], a chunk up to the end of the
    lock region. *)
Definition reader_message (now : Time) (h : nat) (msg : workerMsg) (s : server) : server * option rpc :=
  match msg with
  | WChunk p =>
      match s_heap s !! h with
      | Some w => let '(w, c, r) := accumulate_start (JobChunkFromProto p) w (s_chans s) in
                  (set_worker h w c s, Some r)
      | None => (s, None)
      end
  | _ => ((connect_message now h msg s).1, None)
  end.

(** The rest of the chunk's round. *)
Definition reader_finish (h : nat) (r : rpc) (s : server) : server :=
  match r with
  | RForward obs chunk => set_fleet (s_heap s) (s_workers s) (forward_opt obs chunk (s_chans s)) s
  | RResolve res => signalCapacity (on_worker h (resolve res) s)
  end.

Definition worker_name (h : nat) (s : server) : string :=
  match s_heap s !! h with Some w => w_id w | None => "" end.

(** The next stretch of task [x]. *)
Definition task_step (t : nat) (x : task) (k : clocks) (ctxDone takeDone : bool) (m : mstate) : option mstate :=
  let s := m_s m in
  match t_pc x with
  | TRoute =>
      Some (match submit k (t_job x) (t_key x) s with
            | Reject e => with_task t s x (TDone JobResult_zero (Some e)) m
            | ToWorker h pref job => with_task t s x (TPicked h pref job) m
            | ToQueue job => with_task t s x (TQueue job) m
            end)
  | TPicked h pref job =>
      let '(s, ch) := dispatch_begin (Job_ID job) h s in Some (with_task t s x (TSend h ch pref job) m)
  | TSend h ch pref job =>
      match dispatch_send ctxDone takeDone job h s with
      | Some (s, Some e) => Some (with_task t s x (TDone JobResult_zero (Some e)) m)
      | Some (s, None) => Some (with_task t s x (TRecv h ch pref job) m)
      | None => None
      end
  | TRecv h ch pref job =>
      match dispatch_recv ctxDone takeDone (Job_ID job) h ch s with
      | Some (s, res, Some e) => Some (with_task t s x (TDone res (Some e)) m)
      | Some (s, res, None) =>
          let s := if t_stream x then s
                   else recordAffinity (k_bind k) job (t_key x) (worker_name h s) pref s in
          Some (with_task t s x (TDone res None) m)
      | None => None
      end
  | TQueue job => let '(s, ch) := addWaiter (Job_ID job) s in Some (with_task t s x (TEnq ch job) m)
  | TEnq ch job =>
      match submit_enqueue (k_gate k) job (t_key x) (t_prio x) s with
      | (s, Some e) => Some (with_task t s x (TDone JobResult_zero (Some e)) m)
      | (s, None) => Some (with_task t s x (TPark ch job) m)
      end
  | TPark ch job =>
      match submit_wait ctxDone takeDone (Job_ID job) ch s with
      | Some (s, res, err) => Some (with_task t s x (TDone res err) m)
      | None => None
      end
  | TDone _ _ => None
  end.

(** The next stretch of the placement loop; its context is done once [m_stop]. *)
Definition loop_step (k : clocks) (takeDone : bool) (m : mstate) : option mstate :=
  let s := m_s m in
  match m_loop m with
  | LIdle =>
      let '(q, o) := Queue.Blocking.loop_body (s_queue s) (m_stop m) in
      let s := set_queue q (s_waiters s) (s_chans s) s in
      match o with
      | Queue.Blocking.PDone (Queue.Blocking.Got it) => Some (with_loop s (LTry it) m)
      | Queue.Blocking.PDone (Queue.Blocking.Failed _) => Some (with_loop s LStopped m)
      | _ => None
      end
  | LTry it =>
      match place_try k it s with
      | Some (h, pref) => Some (with_loop s (LPicked it h pref) m)
      | None => Some (with_loop s (LWait it) m)
      end
  | LWait _ => None                                  (* [loop_wake] *)
  | LPicked it h pref =>
      let '(s, ch) := dispatch_begin (Job_ID (Item_Job it)) h s in Some (with_loop s (LSend it h ch pref) m)
  | LSend it h ch pref =>
      match dispatch_send (m_stop m) takeDone (Item_Job it) h s with
      | Some (s, Some e) => Some (with_loop s (LFinish it h pref JobResult_zero (Some e)) m)
      | Some (s, None) => Some (with_loop s (LRecv it h ch pref) m)
      | None => None
      end
  | LRecv it h ch pref =>
      match dispatch_recv (m_stop m) takeDone (Job_ID (Item_Job it)) h ch s with
      | Some (s, res, err) => Some (with_loop s (LFinish it h pref res err) m)
      | None => None
      end
  | LFinish it h pref res err =>
      Some (with_loop (place_finish (k_bind k) (k_gate k) it (worker_name h s) pref res err s) LIdle m)
  | LStopped => None
  end.

(** The select of [placeItem]: any case that is ready.  The ticker can always have
    ticked. *)
Definition loop_wake (w : wake) (m : mstate) : option mstate :=
  let s := m_s m in
  match m_loop m, w with
  | LWait it, WakeDone => if m_stop m then Some (with_loop (place_stop it s) LIdle m) else None
  | LWait it, WakeCapacity => if s_capacity s then Some (with_loop (set_capacity false s) (LTry it) m) else None
  | LWait it, WakeTick => Some (with_loop s (LTry it) m)
  | _, _ => None
  end.

Definition mstep (e : event) (m : mstate) : option mstate :=
  let s := m_s m in
  if c_panic (s_chans s) then None else
  match e with
  | EConnect now msg => Some (with_s (connect_first now msg s).1 m)
  | EMessage now h msg =>
      match m_readers m !! h with
      | Some _ => None
      | None => let '(s, r) := reader_message now h msg s in
                Some (with_reader s (match r with Some r => <[h := r]> (m_readers m) | None => m_readers m end) m)
      end
  | EReader h =>
      match m_readers m !! h with
      | Some r => Some (with_reader (reader_finish h r s) (delete h (m_readers m)) m)
      | None => None
      end
  | EWriter h => Some (with_s (writer_take h s) m)
  | EConnEnd h => match m_readers m !! h with Some _ => None | None => Some (with_s (connect_end h s) m) end
  | EEvict now => Some (with_s (evictStale now s) m)
  | EDrain id deadline => Some (with_s (DrainWorkerWithDeadline id deadline s).1.1 m)
  | EReap ev h => Some (with_s (reapDrainedWorker ev h s).1 m)
  | EReadObs o => Some (with_s (set_fleet (s_heap s) (s_workers s) (recv_obs o (s_chans s)) s) m)
  | EUnobserve id h => Some (with_s (on_worker h (λ w c, (removeObserver id w, c)) s) m)
  | ESetTimeout d => Some (with_s (SetHeartbeatTimeout d s) m)
  | EUsage now keyID n => Some (with_s (recordUsage now keyID n s) m)
  | ESpawn t job key prio => spawn t (mkTask job key prio false TRoute) s m
  | EAuthorized t now key job =>
      match gate now key job s with
      | (s, Some e) => spawn t (mkTask job (APIKey_ID key) 0 false (TDone JobResult_zero (Some e))) s m
      | (s, None) => spawn t (mkTask job (APIKey_ID key) (PriorityForRoles (APIKey_Roles key)) false TRoute) s m
      end
  | EStream t k key job =>
      match SubmitAuthorizedJobStream k key job s with
      | (s, Err e) => spawn t (mkTask job (APIKey_ID key) 0 false (TDone JobResult_zero (Some e))) s m
      | (s, Ok (h, obs, job')) => spawn t (mkTask job (APIKey_ID key) 0 true (TPicked h "" job')) s m
      end
  | ETask t k ctxDone takeDone =>
      match m_tasks m !! t with Some x => task_step t x k ctxDone takeDone m | None => None end
  | ELoop k takeDone => loop_step k takeDone m
  | EWake w => loop_wake w m
  | EStop => Some (mkM s (m_tasks m) (m_loop m) true (m_closed m) (m_readers m))
  | ECloseQueue =>
      Some (with_s (set_queue (Close (s_queue s)) (s_waiters s) (s_chans s) s) m)
  | EFailWaiters =>
      match m_loop m with
      | LStopped => if Queue_closed (s_queue s)
                    then Some (mkM (failAllWaiters shutdownErr s) (m_tasks m) LStopped (m_stop m) true (m_readers m)) else None
      | _ => None
      end
  end.

Fixpoint run (evs : list event) (m : mstate) : option mstate :=
  match evs with
  | [] => Some m
  | e :: evs => match mstep e m with Some m => run evs m | None => None end
  end.
End machine.
Arguments mstate : clear implicits.

(** Run without a pause, the two halves are the reader's round. *)
Lemma reader_halves {CS SS} now h msg (s : Server CS SS) :
  is_Some (s_heap s !! h) →
  let '(s1, r) := reader_message now h msg s in
  match r with Some r => reader_finish h r s1 | None => s1 end = (connect_message now h msg s).1.
Proof.
  intros [w Hw]. destruct msg as [id ms|hb|r|p| |]; cbn [reader_message connect_message fst]; try done.
  rewrite Hw. unfold on_worker, accumulate_start, accumulate. rewrite Hw.
  destruct (JobChunk_Done _); cbn [negb accumulate_done accumulate_delta reader_finish]; [|done].
  unfold on_worker, set_worker, set_fleet, resolve. simpl. rewrite lookup_insert_eq. simpl.
  destruct (w_pending w !! _); simpl; by rewrite insert_insert_eq.
Qed.

(** ** Channel discipline of the whole server *)

(** One worker's move: it may answer or drop some of its waiters and observers,
    answers carry the waiter's job id, and nothing else is touched. *)
Record wmove (w : worker) (c : chans) (w' : worker) (c' : chans) : Prop := {
  wm_disc : disciplined w' c';
  wm_id : w_id w' = w_id w;
  wm_drain : w_draining w = true → w_draining w' = true;
  wm_pending : w_pending w' ⊆ w_pending w;
  wm_observers : w_observers w' ⊆ w_observers w;
  wm_next : c_next c' = c_next c;
  wm_frames : frames w c c';
  wm_dom : ∀ ch l, c_res c' !! ch = Some l → ∃ l0, c_res c !! ch = Some l0;
  wm_sent : ∀ j ch, w_pending w !! j = Some ch →
    c_res c' !! ch = Some [] ∨ ∃ r, c_res c' !! ch = Some [r] ∧ JobResult_JobID r = j }.

Lemma wm_silent w c w' :
  disciplined w c → w_id w' = w_id w → (w_draining w = true → w_draining w' = true) →
  w_pending w' ⊆ w_pending w → w_observers w' ⊆ w_observers w → wmove w c w' c.
Proof.
  intros D Hid Hdr Hp Ho. split; try done; eauto using frames_refl.
  - by eapply disciplined_sub.
  - intros j ch H. left. by eapply d_pending.
Qed.

Lemma wm_trans w c w1 c1 w2 c2 :
  disciplined w c → wmove w c w1 c1 → wmove w1 c1 w2 c2 → wmove w c w2 c2.
Proof.
  intros D [A1 A2 A0 A3 A4 A5 A6 A7 A8] [B1 B2 B0 B3 B4 B5 B6 B7 B8].
  split; try done; try (by etrans); try congruence; try (by auto).
  - by eapply frames_trans.
  - intros ch l H. destruct (B7 ch l H) as [l1 H1]. eauto.
  - intros j ch H. destruct (w_pending w1 !! j) as [ch1|] eqn:E.
    + assert (ch1 = ch) as -> by (eapply lookup_weaken in E; [|exact A3]; congruence). by apply B8.
    + assert (Hn : ∀ i, w_pending w1 !! i ≠ Some ch).
      { intros i Hi. pose proof (lookup_weaken _ _ _ _ Hi A3) as Hi'.
        assert (i = j) as -> by by apply (d_pending_inj w c D i j ch). congruence. }
      destruct B6 as (_ & B6 & _).
      destruct (A8 j ch H) as [H0|(r & Hr & Hj)]; [left; by apply B6|right; exists r; split; [by apply B6|done]].
Qed.

Lemma wm_send id ch res w c :
  disciplined w c → w_pending w !! id = Some ch → JobResult_JobID res = id →
  wmove w c (dropPending id w) (send_res ch res c).
Proof.
  intros D H Hid. destruct (disciplined_send id ch res w c D H) as (D' & E1 & E2 & E3). split; try done.
  - simpl. apply delete_subseteq.
  - eapply frames_insert; eauto. lia.
  - intros k l. rewrite E3, lookup_insert_Some. intros [[<- _]|[_ Hk]]; [|by eexists].
    exists []. by eapply d_pending.
  - intros j k Hk. rewrite E3. destruct (decide (ch = k)) as [->|Hne].
    + right. exists res. rewrite lookup_insert_eq. split; [done|]. rewrite Hid. by apply (d_pending_inj w c D id j k).
    + left. rewrite lookup_insert_ne by done. by eapply d_pending.
Qed.

(** The moves on observer channels only. *)
Lemma wm_obs_only w c w' c' o x :
  disciplined w c → disciplined w' c' → w_id w' = w_id w → (w_draining w = true → w_draining w' = true) →
  w_pending w' = w_pending w →
  w_observers w' ⊆ w_observers w → c_next c' = c_next c → c_res c' = c_res c →
  c_obs c' = <[o := x]> (c_obs c) → (∃ id, w_observers w !! id = Some o) → wmove w c w' c'.
Proof.
  intros D D' Hid Hdr Hp Ho Hn Hr Hc Hin. split; try done.
  - by rewrite Hp.
  - eapply frames_obs_insert; eauto. lia.
  - rewrite Hr. eauto.
  - intros j ch H. left. rewrite Hr. by eapply d_pending.
Qed.

Lemma wm_resolve res w c : disciplined w c → wmove w c (resolve res w c).1 (resolve res w c).2.
Proof.
  intros D. unfold resolve. destruct (w_pending w !! JobResult_JobID res) as [ch|] eqn:E; simpl.
  - by apply wm_send.
  - by apply wm_silent.
Qed.

Lemma wm_accumulate_start chunk w c :
  disciplined w c → wmove w c (accumulate_start chunk w c).1.1 (accumulate_start chunk w c).1.2.
Proof.
  intros D. unfold accumulate_start, accumulate_delta, accumulate_done.
  set (id := JobChunk_JobID chunk). destruct (negb _); cbn [fst snd]; [by apply wm_silent|].
  set (w' := set_jobs _ _ _ w). destruct (w_observers w !! id) as [o|] eqn:E.
  - destruct (disciplined_finish id o chunk w c D E) as (D' & ? & ? & x & ?).
    eapply (wm_obs_only w c w'); eauto; [|simpl; apply delete_subseteq]. by eapply disciplined_sub; [..|exact D'].
  - apply wm_silent; [done|done|done|done|simpl; apply delete_subseteq].
Qed.

Lemma send_res_dom ch res c :
  c_next (send_res ch res c) = c_next c ∧
  ∀ k, is_Some (c_res (send_res ch res c) !! k) → is_Some (c_res c !! k).
Proof.
  unfold send_res. destruct (c_res c !! ch) as [[|? ?]|] eqn:E; simpl; try done. split; [done|].
  intros k. destruct (decide (ch = k)) as [->|Hne]; [by rewrite E|by rewrite lookup_insert_ne].
Qed.

Lemma fail_results_dom err l c :
  c_next (fail_results err l c) = c_next c ∧
  ∀ k, is_Some (c_res (fail_results err l c) !! k) → is_Some (c_res c !! k).
Proof.
  revert c. induction l as [|[i ch] l IH]; intros c; [done|]. cbn [fail_results fold_left].
  fold (fail_results err l (send_res ch (mkJobResult i "" (Some err) 0 [] "" 0 0) c)).
  destruct (IH (send_res ch (mkJobResult i "" (Some err) 0 [] "" 0 0) c)) as [-> H1].
  destruct (send_res_dom ch (mkJobResult i "" (Some err) 0 [] "" 0 0) c) as [-> H2]. eauto.
Qed.

Lemma fail_results_other err l c ch :
  (∀ j, (j, ch) ∈ l → False) → c_res (fail_results err l c) !! ch = c_res c !! ch.
Proof.
  revert c. induction l as [|[i k] l IH]; intros c Hn; [done|]. cbn [fail_results fold_left].
  fold (fail_results err l (send_res k (mkJobResult i "" (Some err) 0 [] "" 0 0) c)).
  rewrite IH by (intros j Hj; apply (Hn j); by right). unfold send_res.
  destruct (c_res c !! k) as [[|? ?]|]; try done. simpl. rewrite lookup_insert_ne; [done|].
  intros ->. apply (Hn i). left.
Qed.

Lemma fail_observers_dom err l c :
  c_next (fail_observers err l c) = c_next c ∧ c_res (fail_observers err l c) = c_res c.
Proof.
  revert c. induction l as [|[i o] l IH]; intros c; [done|]. cbn [fail_observers fold_left].
  set (c1 := close_obs o _). fold (fail_observers err l c1). destruct (IH c1) as [-> ->].
  subst c1. unfold close_obs, forwardChunk. by repeat case_match.
Qed.

Lemma wm_failAll err w c : disciplined w c → wmove w c (failAllPending err w c).1 (failAllPending err w c).2.
Proof.
  intros D. destruct (failAllPending_ok err w c D) as (D' & F & R & _). split; try done.
  - apply map_empty_subseteq.
  - apply map_empty_subseteq.
  - simpl. rewrite (proj1 (fail_observers_dom _ _ _)). apply fail_results_dom.
  - intros ch l H. simpl in H. rewrite (proj2 (fail_observers_dom _ _ _)) in H.
    apply (proj2 (fail_results_dom err (map_to_list (w_pending w)) c)). by eexists.
  - intros j ch H. right. eexists. split; [by apply R|done].
Qed.

(** Who holds a result channel: a worker for a dispatched job, or the server for a
    queued one. *)
Inductive owner := OW (h : nat) (j : string) | OQ (j : string).
Definition owner_job (o : owner) : string := match o with OW _ j => j | OQ j => j end.

Section invariant.
Context {CS SS : Type} `{!CounterStore CS} `{!SessionStore SS}.
Notation server := (Server CS SS).
Implicit Type s : server.

Definition held s (o : owner) : option nat :=
  match o with
  | OW h j => w ← s_heap s !! h; w_pending w !! j
  | OQ j => s_waiters s !! j
  end.
Definition observed s (p : nat * string) : option nat := w ← s_heap s !! p.1; w_observers w !! p.2.

(** [tag] records the job each result channel was made for. *)
Record ginv (tag : gmap nat string) s : Prop := {
  g_swf : swf s;
  g_empty : ∀ o ch, held s o = Some ch → c_res (s_chans s) !! ch = Some [];
  g_inj : ∀ o1 o2 ch, held s o1 = Some ch → held s o2 = Some ch → o1 = o2;
  g_tag : ∀ o ch, held s o = Some ch → tag !! ch = Some (owner_job o);
  g_val : ∀ ch l, c_res (s_chans s) !! ch = Some l →
    l = [] ∨ ∃ r, l = [r] ∧ tag !! ch = Some (JobResult_JobID r);
  g_fresh : ∀ ch, (c_next (s_chans s) ≤ ch)%nat →
    c_res (s_chans s) !! ch = None ∧ c_obs (s_chans s) !! ch = None ∧ tag !! ch = None;
  g_obs : ∀ p o, observed s p = Some o → ∃ t b, c_obs (s_chans s) !! o = Some (mkObsChan t b false);
  g_obs_inj : ∀ p1 p2 o, observed s p1 = Some o → observed s p2 = Some o → p1 = p2;
  g_safe : c_panic (s_chans s) = false ∧ c_stuck (s_chans s) = false }.

Lemma value_dec (p : gmap string nat) ch : (∃ j, p !! j = Some ch) ∨ ∀ j, p !! j ≠ Some ch.
Proof.
  destruct (decide (ch ∈ (map_to_list p).*2)) as [H|H].
  - left. apply list_elem_of_fmap in H as ([j k] & -> & H). exists j. by apply elem_of_map_to_list.
  - right. intros j Hj. apply H, list_elem_of_fmap. exists (j, ch). split; [done|]. by apply elem_of_map_to_list.
Qed.

Lemma held_OW s h j w : s_heap s !! h = Some w → held s (OW h j) = w_pending w !! j.
Proof. intros H. simpl. by rewrite H. Qed.
Lemma observed_at s h j w : s_heap s !! h = Some w → observed s (h, j) = w_observers w !! j.
Proof. intros H. unfold observed. simpl. by rewrite H. Qed.

Lemma ginv_disciplined tag s h w : ginv tag s → s_heap s !! h = Some w → disciplined w (s_chans s).
Proof.
  intros G Hw. split.
  - intros j ch H. apply (g_empty _ _ G (OW h j)). by rewrite (held_OW s h j w).
  - intros i j ch H1 H2. assert (OW h i = OW h j) as [=]; [|done].
    eapply (g_inj _ _ G); by rewrite (held_OW _ _ _ w).
  - intros j o H. apply (g_obs _ _ G (h, j)). by rewrite (observed_at s h j w).
  - intros i j o H1 H2. assert ((h, i) = (h, j)) as [=]; [|done].
    eapply (g_obs_inj _ _ G); by rewrite (observed_at _ _ _ w).
  - intros ch Hch. destruct (g_fresh _ _ G ch Hch) as (? & ? & _). done.
  - apply (g_safe _ _ G).
Qed.

(** The fields the invariant is about. *)
Lemma ginv_ext tag s s' :
  ginv tag s → s_heap s' = s_heap s → s_workers s' = s_workers s → s_nextAddr s' = s_nextAddr s →
  s_chans s' = s_chans s → s_waiters s' = s_waiters s → ginv tag s'.
Proof.
  intros [G1 G2 G3 G4 G5 G6 G7 G8 G9] E1 E2 E3 E4 E5.
  assert (Hh : ∀ o, held s' o = held s o) by (intros [h j|j]; simpl; by rewrite ?E1, ?E5).
  assert (Ho : ∀ p, observed s' p = observed s p) by (intros [h j]; unfold observed; by rewrite E1).
  split; rewrite ?E4; try done.
  - destruct G1 as [W1 W2]. split; rewrite ?E1, ?E2, ?E3; done.
  - intros o ch. rewrite Hh. apply G2.
  - intros o1 o2 ch. rewrite !Hh. apply G3.
  - intros o ch. rewrite Hh. apply G4.
  - intros p o. rewrite Ho. apply G7.
  - intros p1 p2 o. rewrite !Ho. apply G8.
Qed.

(** A worker's move keeps the server's discipline. *)
Lemma ginv_move tag s s' h w w' :
  ginv tag s → s_heap s !! h = Some w → wmove w (s_chans s) w' (s_chans s') →
  s_heap s' = <[h := w']> (s_heap s) → s_nextAddr s' = s_nextAddr s → s_waiters s' = s_waiters s →
  (∀ id h', s_workers s' !! id = Some h' → s_workers s !! id = Some h') → ginv tag s'.
Proof.
  intros G Hw [M1 M2 M0 M3 M4 M5 M6 M7 M8] E1 E2 E3 Er. pose proof M6 as (_ & F1 & F2).
  assert (Hh : ∀ o ch, held s' o = Some ch → held s o = Some ch ∧
               ((∃ j, o = OW h j ∧ w_pending w' !! j = Some ch) ∨ (∀ j, w_pending w !! j ≠ Some ch))).
  { intros [h' j|j] ch; simpl.
    - rewrite E1. destruct (decide (h = h')) as [<-|Hne].
      + rewrite lookup_insert_eq, Hw. simpl. intros H. split; [by eapply lookup_weaken|left; by eexists].
      + rewrite lookup_insert_ne by done. intros H. split; [done|]. right. intros i Hi.
        assert (OW h' j = OW h i) as [= -> _]; [|done]. eapply (g_inj _ _ G); [done|].
        by rewrite (held_OW s h i w).
    - rewrite E3. intros H. split; [done|]. right. intros i Hi.
      assert (OQ j = OW h i) as [=]. eapply (g_inj _ _ G); [done|]. by rewrite (held_OW s h i w). }
  assert (Ho : ∀ p o, observed s' p = Some o → observed s p = Some o ∧
               ((∃ j, p = (h, j) ∧ w_observers w' !! j = Some o) ∨ (∀ j, w_observers w !! j ≠ Some o))).
  { intros [h' j] o. unfold observed. simpl. rewrite E1. destruct (decide (h = h')) as [<-|Hne].
    - rewrite lookup_insert_eq, Hw. simpl. intros H. split; [by eapply lookup_weaken|left; by eexists].
    - rewrite lookup_insert_ne by done. intros H. split; [done|]. right. intros i Hi.
      assert ((h', j) = (h, i)) as [= -> _]; [|done]. eapply (g_obs_inj _ _ G); [done|].
      by rewrite (observed_at s h i w). }
  split.
  - eapply swf_intro; [apply (g_swf _ _ G)|done| |done]. rewrite E1. by eapply heap_insert_id.
  - intros o ch [H [(j & -> & Hj)|Hn]]%Hh; [by eapply d_pending|].
    apply F1; [by apply (g_empty _ _ G o)|done].
  - intros o1 o2 ch [H1 _]%Hh [H2 _]%Hh. by eapply (g_inj _ _ G).
  - intros o ch [H _]%Hh. by eapply (g_tag _ _ G).
  - intros ch l Hl. destruct (M7 ch l Hl) as [l0 H0].
    destruct (value_dec (w_pending w) ch) as [[j Hj]|Hn].
    + assert (Ht : tag !! ch = Some j) by (apply (g_tag _ _ G (OW h j)); by rewrite (held_OW s h j w)).
      destruct (M8 j ch Hj) as [E|(r & E & Er')]; rewrite E in Hl; simplify_eq; [by left|right; by exists r].
    + rewrite (F1 ch l0 H0 Hn) in Hl. simplify_eq. by apply (g_val _ _ G).
  - intros ch Hch. destruct (d_fresh _ _ M1 ch Hch) as [N1 N2]. rewrite M5 in Hch.
    by destruct (g_fresh _ _ G ch Hch) as (_ & _ & ?).
  - intros p o [H [(j & -> & Hj)|Hn]]%Ho; [by eapply d_obs|].
    destruct (g_obs _ _ G p o H) as (t & b & Eo). exists t, b. by apply F2.
  - intros p1 p2 o [H1 _]%Ho [H2 _]%Ho. by eapply (g_obs_inj _ _ G).
  - apply (d_safe _ _ M1).
Qed.

(** A fresh channel for [o0], replacing whatever it held. *)
Lemma ginv_alloc tag s s' o0 :
  ginv tag s → swf s' → s_chans s' = (make_res (s_chans s)).1 →
  (∀ o ch, held s' o = Some ch → (o = o0 ∧ ch = c_next (s_chans s)) ∨ held s o = Some ch) →
  (∀ p o, observed s' p = Some o → observed s p = Some o) →
  ginv (<[c_next (s_chans s) := owner_job o0]> tag) s'.
Proof.
  intros G W Ec Hh Ho. set (n := c_next (s_chans s)) in *.
  destruct (g_fresh _ _ G n) as (N1 & N2 & N3); [lia|].
  assert (Hn : ∀ o ch, held s o = Some ch → ch ≠ n).
  { intros o ch H ->. apply (g_empty _ _ G) in H. congruence. }
  split; [done|..]; rewrite ?Ec; cbn [make_res fst c_res c_obs c_next c_panic c_stuck].
  - intros o ch [[-> ->]|H]%Hh; [apply lookup_insert_eq|].
    rewrite lookup_insert_ne; [by eapply g_empty|]. apply not_eq_sym. by eapply Hn.
  - intros o1 o2 ch [[-> ->]|H1]%Hh [[-> E]|H2]%Hh; [done|by apply Hn in H2|subst; by apply Hn in H1|].
    by eapply g_inj.
  - intros o ch [[-> ->]|H]%Hh; [apply lookup_insert_eq|].
    rewrite lookup_insert_ne; [by eapply g_tag|]. apply not_eq_sym. by eapply Hn.
  - intros ch l [[<- <-]|[Hne H]]%lookup_insert_Some; [by left|]. rewrite lookup_insert_ne by done. by eapply g_val.
  - intros ch Hch. destruct (g_fresh _ _ G ch) as (A1 & A2 & A3); [unfold n in *; lia|].
    rewrite !lookup_insert_ne by lia. done.
  - intros p o H%Ho. by eapply g_obs.
  - intros p1 p2 o H1%Ho H2%Ho. by eapply g_obs_inj.
  - by apply g_safe in G.
Qed.

(** The holder [o0] is answered with a result of its job and lets go. *)
Lemma ginv_answer tag s s' o0 ch r :
  ginv tag s → held s o0 = Some ch → JobResult_JobID r = owner_job o0 → swf s' →
  s_chans s' = send_res ch r (s_chans s) →
  (∀ o k, held s' o = Some k → held s o = Some k ∧ o ≠ o0) →
  (∀ p o, observed s' p = Some o → observed s p = Some o) → ginv tag s'.
Proof.
  intros G H0 Hr W Ec Hh Ho. pose proof (g_empty _ _ G _ _ H0) as He. unfold send_res in Ec. rewrite He in Ec.
  split; [done|..]; rewrite ?Ec; cbn [c_res c_obs c_next c_panic c_stuck].
  - intros o k [H Hne]%Hh. rewrite lookup_insert_ne; [by eapply g_empty|]. intros ->.
    apply Hne. by eapply g_inj.
  - intros o1 o2 k [H1 _]%Hh [H2 _]%Hh. by eapply g_inj.
  - intros o k [H _]%Hh. by eapply g_tag.
  - intros k l [[<- <-]|[Hne H]]%lookup_insert_Some; [right|by eapply g_val]. exists r. split; [done|].
    rewrite Hr. by eapply g_tag.
  - intros k Hk. destruct (g_fresh _ _ G k Hk) as (A1 & A2 & A3). rewrite lookup_insert_ne; [done|].
    intros ->. congruence.
  - intros p o H%Ho. by eapply g_obs.
  - intros p1 p2 o H1%Ho H2%Ho. by eapply g_obs_inj.
  - by apply g_safe in G.
Qed.

(** Some holders let go, nothing is sent. *)
Lemma ginv_shrink tag s s' :
  ginv tag s → swf s' → s_chans s' = s_chans s →
  (∀ o k, held s' o = Some k → held s o = Some k) →
  (∀ p o, observed s' p = Some o → observed s p = Some o) → ginv tag s'.
Proof.
  intros G W Ec Hh Ho. split; [done|..]; rewrite ?Ec.
  - intros o k H%Hh. by eapply g_empty.
  - intros o1 o2 k H1%Hh H2%Hh. by eapply g_inj.
  - intros o k H%Hh. by eapply g_tag.
  - intros k l. by eapply g_val.
  - apply (g_fresh _ _ G).
  - intros p o H%Ho. by eapply g_obs.
  - intros p1 p2 o H1%Ho H2%Ho. by eapply g_obs_inj.
  - by apply g_safe in G.
Qed.

Lemma swf_set_queue q ws c s : swf s → swf (set_queue q ws c s).
Proof. intros [W1 W2]. by split. Qed.

(** *** The operations *)

Lemma ginv_on_worker tag s h f :
  (∀ w c, disciplined w c → wmove w c (f w c).1 (f w c).2) → ginv tag s → ginv tag (on_worker h f s).
Proof.
  intros Hf G. unfold on_worker. destruct (s_heap s !! h) as [w|] eqn:Hw; [|done].
  specialize (Hf w (s_chans s) (ginv_disciplined tag s h w G Hw)). destruct (f w (s_chans s)) as [w' c'].
  by eapply ginv_move.
Qed.

(** Setting worker fields other than the maps. *)
Lemma ginv_set_worker tag s h w w' :
  s_heap s !! h = Some w → w_id w' = w_id w → (w_draining w = true → w_draining w' = true) →
  w_pending w' ⊆ w_pending w → w_observers w' ⊆ w_observers w → ginv tag s → ginv tag (set_worker h w' (s_chans s) s).
Proof.
  intros Hw Hid Hdr Hp Ho G. eapply ginv_move; [done|done| |done..]. simpl. apply wm_silent; try done.
  by eapply ginv_disciplined.
Qed.

Lemma ginv_evictWorker tag s h err : ginv tag s → ginv tag (evictWorker h err s).
Proof.
  intros G. destruct (s_heap s !! h) as [w|] eqn:Hw; [|unfold evictWorker; by rewrite Hw].
  destruct (evictWorker_fields h err s w Hw) as (E1 & E2 & E3 & E4 & E5 & E6 & E7).
  eapply ginv_move; [done|done| |done|done|done|].
  - rewrite E3. apply wm_failAll. by eapply ginv_disciplined.
  - rewrite E2. intros id h' H. by apply (unregister_spec s h w id h' (g_swf _ _ G) Hw) in H as [? _].
Qed.

Lemma ginv_trySend tag s m h s' : trySend m h s = Some s' → ginv tag s → ginv tag s'.
Proof.
  unfold trySend. destruct (s_heap s !! h) as [w|] eqn:Hw; [|done]. case_match; [|done]. intros [= <-] G.
  by eapply ginv_set_worker.
Qed.

Lemma ginv_drainAt tag s h : ginv tag s → ginv tag (markDrainingAt h s).
Proof.
  intros G. unfold markDrainingAt. destruct (s_heap s !! h) as [w|] eqn:Hw; [|done]. by eapply ginv_set_worker.
Qed.

Lemma ginv_forceEvict tag s h : ginv tag s → ginv tag (forceEvictWorker h s).
Proof.
  intros G. unfold forceEvictWorker. apply (ginv_evictWorker tag s h evictedErr) in G.
  destruct (s_heap (evictWorker h evictedErr s) !! h) as [w|] eqn:Hw; [|done]. by eapply ginv_set_worker.
Qed.

Lemma ginv_capacity tag s b : ginv tag s → ginv tag (set_capacity b s).
Proof. intros G. by eapply ginv_ext. Qed.

Lemma ginv_message tag s now h msg : ginv tag s → ginv tag (reader_message now h msg s).1.
Proof.
  intros G. destruct msg as [id ms|hb|r|p| |]; cbn [reader_message connect_message fst]; try done.
  - apply ginv_capacity, ginv_on_worker; [|done]. intros w c D. by apply wm_silent.
  - apply ginv_capacity, ginv_on_worker; [|done]. intros w c D. by apply wm_resolve.
  - destruct (s_heap s !! h) as [w|] eqn:Hw; [|done].
    pose proof (wm_accumulate_start (JobChunkFromProto p) w _ (ginv_disciplined tag s h w G Hw)) as M.
    destruct (accumulate_start _ w _) as [[w' c'] r]. by eapply ginv_move.
  - by apply ginv_drainAt.
Qed.

(** Writing to an open observer channel leaves it open. *)
Lemma ginv_obs tag s o t b t' b' :
  ginv tag s → c_obs (s_chans s) !! o = Some (mkObsChan t b false) →
  ginv tag (set_fleet (s_heap s) (s_workers s)
    (mkChans (c_res (s_chans s)) (<[o := mkObsChan t' b' false]> (c_obs (s_chans s))) (c_next (s_chans s))
       (c_panic (s_chans s)) (c_stuck (s_chans s))) s).
Proof.
  intros [G1 G2 G3 G4 G5 G6 G7 G8 G9] E. pose proof G1 as [W1 W2]. split; try done.
  - intros ch Hch. destruct (G6 ch Hch) as (A1 & A2 & A3). simpl. split; [done|]. split; [|done].
    rewrite lookup_insert_ne; [done|]. intros ->. congruence.
  - intros p o' H. destruct (G7 p o' H) as (t1 & b1 & E'). simpl. destruct (decide (o = o')) as [<-|Hne].
    + rewrite lookup_insert_eq. by eauto.
    + rewrite lookup_insert_ne by done. by eauto.
Qed.

(** The process after a send on a closed channel. *)
Definition crashed s : server :=
  set_fleet (s_heap s) (s_workers s)
    (mkChans (c_res (s_chans s)) (c_obs (s_chans s)) (c_next (s_chans s)) true (c_stuck (s_chans s))) s.

(** The reader's second half goes through, unless the observer it read has been
    closed in the meantime. *)
Definition late_forward s (r : rpc) : Prop :=
  ∃ o chunk x, r = RForward (Some o) chunk ∧ c_obs (s_chans s) !! o = Some x ∧ oc_closed x = true.

Lemma reader_finish_cases tag s h r :
  ginv tag s →
  (late_forward s r ∧ reader_finish h r s = crashed s) ∨ (¬ late_forward s r ∧ ginv tag (reader_finish h r s)).
Proof.
  intros G. destruct r as [[o|] chunk|res]; simpl.
  - unfold forwardChunk. destruct (c_obs (s_chans s) !! o) as [[t b cl]|] eqn:E; cbn [oc_closed oc_buf oc_taken].
    + destruct cl; [left; split; [by exists o, chunk, (mkObsChan t b true)|done]|].
      right. split; [intros (? & ? & ? & [= <- <-] & E' & ?); by simplify_eq|].
      destruct (length b <? obsCap)%nat; [by eapply ginv_obs|by eapply ginv_ext].
    + right. split; [intros (? & ? & ? & [= <- <-] & E' & ?); by simplify_eq|by eapply ginv_ext].
  - right. split; [by intros (? & ? & ? & [=] & ?)|by eapply ginv_ext].
  - right. split; [by intros (? & ? & ? & [=] & ?)|].
    apply ginv_capacity, ginv_on_worker; [|done]. intros w c D. by apply wm_resolve.
Qed.

Lemma ginv_addWorker tag s w :
  w_pending w = ∅ → w_observers w = ∅ → ginv tag s → ginv tag (addWorker w s).1.1.
Proof.
  intros Hp Ho G. pose proof (g_swf _ _ G) as [W1 W2].
  assert (Hn : s_heap s !! s_nextAddr s = None).
  { destruct (s_heap s !! s_nextAddr s) eqn:E; [|done]. apply W1 in E. lia. }
  eapply ginv_shrink; [exact G| |done|..]; simpl.
  - split; simpl.
    + intros h w' [[<- <-]|[_ H]]%lookup_insert_Some; [lia|]. apply W1 in H. lia.
    + intros id h [[<- <-]|[_ H]]%lookup_insert_Some; [exists w; by rewrite lookup_insert_eq|].
      destruct (W2 _ _ H) as (w' & Hw' & <-). exists w'. rewrite lookup_insert_ne; [done|]. congruence.
  - intros [h j|j] k; simpl; [|done]. destruct (decide (s_nextAddr s = h)) as [<-|Hne].
    + rewrite lookup_insert_eq. simpl. by rewrite Hp, lookup_empty.
    + by rewrite lookup_insert_ne.
  - intros [h j] o. unfold observed. simpl. destruct (decide (s_nextAddr s = h)) as [<-|Hne].
    + rewrite lookup_insert_eq. simpl. by rewrite Ho, lookup_empty.
    + by rewrite lookup_insert_ne.
Qed.

Lemma ginv_connect_first tag s now msg : ginv tag s → ginv tag (connect_first now msg s).1.
Proof.
  intros G. destruct msg as [id ms|hb|r|p| |]; cbn [connect_first fst]; try done.
  destruct (String.eqb id ""); [done|].
  pose proof (ginv_addWorker tag s (newWorker id (ModelsFromProto ms) now) eq_refl eq_refl G) as G'.
  destruct (addWorker _ s) as [[s1 h] ses]. cbn [fst] in *. apply ginv_capacity.
  destruct (trySend _ h s1) eqn:E; [|done]. by eapply ginv_trySend.
Qed.

Lemma ginv_connect_end tag s h : ginv tag s → ginv tag (connect_end h s).
Proof.
  intros G. apply ginv_on_worker; [|by apply ginv_evictWorker]. intros w c D. by apply wm_silent.
Qed.

Lemma ginv_evictStale tag s now : ginv tag s → ginv tag (evictStale now s).
Proof.
  intros G. unfold evictStale. generalize (filter (λ h, match s_heap s !! h with
    | Some w => isStale now (s_heartbeatTimeout s) w | None => false end = true) (registered s)).
  intros l. revert s G. induction l as [|h l IH]; intros s G; [done|]. apply IH. by apply ginv_evictWorker.
Qed.

Lemma ginv_drain tag s id d : ginv tag s → ginv tag (DrainWorkerWithDeadline id d s).1.1.
Proof.
  intros G. unfold DrainWorkerWithDeadline. destruct (s_workers s !! id) as [h|]; [|done].
  apply (ginv_drainAt tag s h) in G. by destruct (d <=? 0).
Qed.

Lemma ginv_reap tag s ev h : ginv tag s → ginv tag (reapDrainedWorker ev h s).1.
Proof.
  intros G. destruct ev; cbn [reapDrainedWorker fst]; [done|by apply ginv_forceEvict|].
  repeat case_match; try done. by apply ginv_forceEvict.
Qed.

Lemma ginv_readObs tag s o :
  ginv tag s → ginv tag (set_fleet (s_heap s) (s_workers s) (recv_obs o (s_chans s)) s).
Proof.
  intros G. unfold recv_obs.
  destruct (c_obs (s_chans s) !! o) as [[t [|x b] cl]|] eqn:E; try by (eapply ginv_ext).
  destruct cl; [|by eapply ginv_obs].
  destruct G as [G1 G2 G3 G4 G5 G6 G7 G8 G9]. pose proof G1 as [W1 W2]. split; try done.
  - intros ch Hch. destruct (G6 ch Hch) as (A1 & A2 & A3). simpl. split; [done|]. split; [|done].
    rewrite lookup_insert_ne; [done|]. intros ->. congruence.
  - intros p o' H. destruct (G7 p o' H) as (t' & b' & E'). simpl.
    rewrite lookup_insert_ne; [by eauto|]. intros ->. congruence.
Qed.

Lemma swf_set_worker s h w w' c : s_heap s !! h = Some w → w_id w' = w_id w → swf s → swf (set_worker h w' c s).
Proof.
  intros Hw Hid W. eapply swf_intro; [done|done| |done]. simpl. by eapply heap_insert_id.
Qed.

Lemma ginv_dispatch_begin tag s j h :
  ginv tag s → is_Some (s_heap s !! h) →
  ginv (<[(dispatch_begin j h s).2 := j]> tag) (dispatch_begin j h s).1 ∧
  (dispatch_begin j h s).2 = c_next (s_chans s).
Proof.
  intros G [w Hw]. unfold dispatch_begin. rewrite Hw. simpl. split; [|done].
  apply (ginv_alloc tag s _ (OW h j)); [done| |done|..].
  - eapply swf_set_worker; [done|done|apply (g_swf _ _ G)].
  - intros [h' j'|j'] ch; simpl; [|by right]. destruct (decide (h = h')) as [<-|Hne].
    + rewrite lookup_insert_eq, Hw. simpl. rewrite lookup_insert_Some.
      intros [[<- <-]|[_ H]]; [by left|by right].
    + rewrite lookup_insert_ne by done. by right.
  - intros [h' j'] o. unfold observed. simpl. destruct (decide (h = h')) as [<-|Hne].
    + by rewrite lookup_insert_eq, Hw.
    + by rewrite lookup_insert_ne.
Qed.

Lemma ginv_dispatch_abort tag s j h : ginv tag s → ginv tag (dispatch_abort j h s).
Proof.
  intros G. unfold dispatch_abort. destruct (s_heap s !! h) as [w|] eqn:Hw; [|done].
  eapply ginv_set_worker; [done|done|done|simpl; apply delete_subseteq|done|done].
Qed.

Lemma ginv_dispatch_send tag s d k job h s' e :
  dispatch_send d k job h s = Some (s', e) → ginv tag s → ginv tag s'.
Proof.
  unfold dispatch_send, sendOrDone. intros H G.
  destruct (d && k); [simplify_eq; by apply ginv_dispatch_abort|].
  destruct (trySend _ h s) as [s1|] eqn:E; [simplify_eq; by eapply ginv_trySend|].
  destruct d; simplify_eq. by apply ginv_dispatch_abort.
Qed.

Lemma dispatch_recv_cases d k j h ch s s' r e :
  dispatch_recv d k j h ch s = Some (s', r, e) →
  (s' = s ∧ (∃ l, c_res (s_chans s) !! ch = Some (r :: l)) ∧ e = result_err r) ∨
  (s' = dispatch_abort j h s ∧ r = JobResult_zero ∧ e = Some CtxDone).
Proof.
  unfold dispatch_recv. intros H.
  destruct (c_res (s_chans s) !! ch) as [[|res l]|], d, k; simplify_eq; eauto; left; eauto.
Qed.

Lemma submit_wait_cases d k j ch s s' r e :
  submit_wait d k j ch s = Some (s', r, e) →
  (s' = s ∧ (∃ l, c_res (s_chans s) !! ch = Some (r :: l)) ∧ e = result_err r) ∨
  (s' = removeWaiter j s ∧ r = JobResult_zero ∧ e = Some CtxDone).
Proof.
  unfold submit_wait. intros H.
  destruct (c_res (s_chans s) !! ch) as [[|res l]|], d, k; simplify_eq; eauto; left; eauto.
Qed.

Lemma ginv_addWaiter tag s j :
  ginv tag s → ginv (<[(addWaiter j s).2 := j]> tag) (addWaiter j s).1 ∧ (addWaiter j s).2 = c_next (s_chans s).
Proof.
  intros G. split; [|done]. apply (ginv_alloc tag s _ (OQ j)); [done| |done|..].
  - apply swf_set_queue, (g_swf _ _ G).
  - intros [h' j'|j'] ch; simpl; [by right|]. rewrite lookup_insert_Some. intros [[<- <-]|[_ H]]; auto.
  - done.
Qed.

Lemma ginv_set_waiters tag s q ws :
  ws ⊆ s_waiters s → ginv tag s → ginv tag (set_queue q ws (s_chans s) s).
Proof.
  intros Hs G. eapply ginv_shrink; [exact G|apply swf_set_queue, (g_swf _ _ G)|done| |done].
  intros [h j|j] k; simpl; [done|]. intros H. by eapply lookup_weaken.
Qed.

Lemma ginv_resolveWaiter tag s r : ginv tag s → ginv tag (resolveWaiter r s).1.
Proof.
  intros G. unfold resolveWaiter. destruct (s_waiters s !! JobResult_JobID r) as [ch|] eqn:E; [|done].
  apply (ginv_answer tag s _ (OQ (JobResult_JobID r)) ch r); try done.
  - apply swf_set_queue, (g_swf _ _ G).
  - intros [h j|j] k; simpl; [by split|]. rewrite lookup_delete_Some. intros [? ?]. split; [done|congruence].
Qed.

Lemma ginv_fail_list tag s err l :
  ginv tag s → NoDup l.*1 → (∀ j ch, (j, ch) ∈ l → s_waiters s !! j = Some ch) →
  ginv tag (set_queue (s_queue s) (foldr delete (s_waiters s) l.*1) (fail_results err l (s_chans s)) s) ∧
  ∀ j ch, (j, ch) ∈ l → c_res (fail_results err l (s_chans s)) !! ch =
    Some [mkJobResult j "" (Some err) 0 [] "" 0 0].
Proof.
  revert s. induction l as [|[j ch] l IH]; intros s G Hnd Hl.
  { split; [by eapply ginv_ext|]. by intros ? ? ?%not_elem_of_nil. }
  apply NoDup_cons in Hnd as [Hni Hnd]. set (r := mkJobResult j "" (Some err) 0 [] "" 0 0).
  assert (Hj : s_waiters s !! j = Some ch) by (apply Hl; left).
  set (s1 := set_queue (s_queue s) (delete j (s_waiters s)) (send_res ch r (s_chans s)) s).
  assert (G1 : ginv tag s1).
  { pose proof (ginv_resolveWaiter tag s r G) as H. unfold resolveWaiter in H. simpl in H. by rewrite Hj in H. }
  destruct (IH s1 G1 Hnd) as [G2 R2].
  { intros i k Hi. simpl. rewrite lookup_delete_ne; [by apply Hl; right|]. intros ->.
    apply Hni, list_elem_of_fmap. by exists (i, k). }
  change (fail_results err ((j, ch) :: l) (s_chans s)) with (fail_results err l (send_res ch r (s_chans s))). split.
  - cbn [fmap list_fmap foldr fst]. simpl in G2. by rewrite foldr_delete_comm in G2.
  - intros i k [[= -> ->]|Hi]%elem_of_cons; [|by apply R2].
    rewrite fail_results_other.
    + unfold send_res. rewrite (g_empty _ _ G (OQ j) ch Hj). simpl. apply lookup_insert_eq.
    + intros i Hi. assert (OQ i = OQ j) as [= ->].
      { eapply (g_inj _ _ G); simpl; [apply Hl; right; exact Hi|done]. }
      apply Hni, list_elem_of_fmap. by exists (j, ch).
Qed.

Lemma ginv_failAllWaiters tag s err :
  ginv tag s → ginv tag (failAllWaiters err s) ∧
  ∀ j ch, s_waiters s !! j = Some ch →
    c_res (s_chans (failAllWaiters err s)) !! ch = Some [mkJobResult j "" (Some err) 0 [] "" 0 0].
Proof.
  intros G. destruct (ginv_fail_list tag s err (map_to_list (s_waiters s)) G) as [G' R].
  { apply NoDup_fst_map_to_list. }
  { intros j ch H. by apply elem_of_map_to_list. }
  split.
  - apply (ginv_set_waiters tag _ (s_queue s) ∅) in G'; [|apply map_empty_subseteq]. done.
  - intros j ch H. by apply R, elem_of_map_to_list.
Qed.

(** *** What the calls and the placement loop rely on *)

Definition answered s (ch : nat) : Prop := ∃ r, c_res (s_chans s) !! ch = Some [r].

(** Worker structs stay allocated, a draining one stays draining, and delivered
    results stay delivered. *)
Definition heap_grows (heap heap' : gmap nat worker) : Prop :=
  ∀ h w, heap !! h = Some w →
    ∃ w', heap' !! h = Some w' ∧ (w_draining w = true → w_draining w' = true).
Record grows s s' : Prop := {
  gr_heap : heap_grows (s_heap s) (s_heap s');
  gr_res : ∀ ch r, c_res (s_chans s) !! ch = Some [r] → c_res (s_chans s') !! ch = Some [r] }.

(** ... and in addition the queue and its waiters are left alone. *)
Record quiet s s' : Prop := {
  qt_grows : grows s s';
  qt_waiters : s_waiters s' = s_waiters s;
  qt_queue : s_queue s' = s_queue s }.

#[export] Instance heap_grows_refl : Reflexive heap_grows.
Proof. intros heap h w H. by exists w. Qed.
#[export] Instance grows_refl : Reflexive grows.
Proof. split; [reflexivity|done]. Qed.
#[export] Instance grows_trans : Transitive grows.
Proof.
  intros a b c [A1 A2] [B1 B2]. split; [|eauto]. intros h w H. destruct (A1 h w H) as (w1 & H1 & D1).
  destruct (B1 h w1 H1) as (w2 & H2 & D2). exists w2. auto.
Qed.
#[export] Instance quiet_refl : Reflexive quiet.
Proof. split; [reflexivity|done..]. Qed.
#[export] Instance quiet_trans : Transitive quiet.
Proof. intros a b c [A1 A2 A3] [B1 B2 B3]. split; [by etrans|congruence..]. Qed.

Lemma quiet_same s s' :
  s_heap s' = s_heap s → s_chans s' = s_chans s → s_waiters s' = s_waiters s → s_queue s' = s_queue s → quiet s s'.
Proof. intros E1 E2 E3 E4. split; [|done..]. split; [by rewrite E1|by rewrite E2]. Qed.

Lemma grows_some s s' h : grows s s' → is_Some (s_heap s !! h) → is_Some (s_heap s' !! h).
Proof. intros [H _] [w Hw]. destruct (H h w Hw) as (w' & -> & _). by eexists. Qed.

Lemma heap_insert_grows (heap : gmap nat worker) h w :
  (∀ w0, heap !! h = Some w0 → w_draining w0 = true → w_draining w = true) → heap_grows heap (<[h := w]> heap).
Proof.
  intros Hd k w0 H. destruct (decide (h = k)) as [->|Hne].
  - exists w. rewrite lookup_insert_eq. eauto.
  - exists w0. by rewrite lookup_insert_ne.
Qed.

Lemma quiet_set_worker h w0 w s :
  s_heap s !! h = Some w0 → (w_draining w0 = true → w_draining w = true) → quiet s (set_worker h w (s_chans s) s).
Proof.
  intros H Hd. split; [|done..]. split; [|done]. apply heap_insert_grows. intros w1 H1. rewrite H in H1. by simplify_eq.
Qed.

Lemma wmove_keeps w c w' c' ch r :
  disciplined w c → wmove w c w' c' → c_res c !! ch = Some [r] → c_res c' !! ch = Some [r].
Proof.
  intros D M H. destruct (wm_frames _ _ _ _ M) as (_ & F & _). apply F; [done|].
  intros j Hj. apply (d_pending _ _ D) in Hj. congruence.
Qed.

Lemma quiet_on_worker tag s h f :
  (∀ w c, disciplined w c → wmove w c (f w c).1 (f w c).2) → ginv tag s → quiet s (on_worker h f s).
Proof.
  intros Hf G. unfold on_worker. destruct (s_heap s !! h) as [w|] eqn:Hw; [|reflexivity].
  pose proof (ginv_disciplined tag s h w G Hw) as D.
  specialize (Hf w (s_chans s) D). destruct (f w (s_chans s)) as [w' c'].
  split; [|done..]. split.
  - apply heap_insert_grows. intros w1 H1. rewrite Hw in H1. simplify_eq. by apply Hf.
  - intros ch r. simpl in *. by apply (wmove_keeps w _ w').
Qed.

Lemma quiet_evictWorker tag s h err : ginv tag s → quiet s (evictWorker h err s).
Proof.
  intros G. destruct (s_heap s !! h) as [w|] eqn:Hw; [|unfold evictWorker; rewrite Hw; reflexivity].
  destruct (evictWorker_fields h err s w Hw) as (E1 & _ & E3 & _ & _ & E6 & E7). split; [|done..]. split.
  - rewrite E1. apply heap_insert_grows. intros w1 H1. rewrite Hw in H1. by simplify_eq.
  - intros ch r. rewrite E3. pose proof (ginv_disciplined tag s h w G Hw) as D.
    eapply wmove_keeps; [exact D|by apply wm_failAll].
Qed.

Lemma quiet_trySend m h s s' : trySend m h s = Some s' → quiet s s'.
Proof.
  unfold trySend. destruct (s_heap s !! h) as [w|] eqn:Hw; [|done]. case_match; [|done]. intros [= <-].
  by apply (quiet_set_worker h w).
Qed.

Lemma quiet_drainAt h s : quiet s (markDrainingAt h s).
Proof. unfold markDrainingAt. destruct (s_heap s !! h) as [w|] eqn:Hw; [by apply (quiet_set_worker h w)|reflexivity]. Qed.

Lemma quiet_forceEvict tag s h : ginv tag s → quiet s (forceEvictWorker h s).
Proof.
  intros G. unfold forceEvictWorker. etrans; [by apply (quiet_evictWorker tag s h evictedErr)|].
  destruct (s_heap _ !! h) as [w|] eqn:Hw; [by apply (quiet_set_worker h w)|reflexivity].
Qed.

Lemma quiet_capacity b s : quiet s (set_capacity b s).
Proof. by apply quiet_same. Qed.

Lemma quiet_message tag s now h msg : ginv tag s → quiet s (reader_message now h msg s).1.
Proof.
  intros G. destruct msg as [id ms|hb|r|p| |]; cbn [reader_message connect_message fst]; try reflexivity.
  - etrans; [|apply quiet_capacity]. eapply quiet_on_worker; [|done]. intros w c D. by apply wm_silent.
  - etrans; [|apply quiet_capacity]. eapply quiet_on_worker; [|done]. intros w c D. by apply wm_resolve.
  - pose proof (quiet_on_worker tag s h (λ w c, (accumulate_start (JobChunkFromProto p) w c).1)
      (wm_accumulate_start (JobChunkFromProto p)) G) as Q. unfold on_worker in Q.
    destruct (s_heap s !! h) as [w|]; [|done]. by destruct (accumulate_start _ w _) as [[w' c'] r].
  - apply quiet_drainAt.
Qed.

Lemma quiet_finish tag s h r : ginv tag s → quiet s (reader_finish h r s).
Proof.
  intros G. destruct r as [[o|] chunk|res]; simpl.
  - split; [|done..]. split; [done|]. intros ch x. simpl. unfold forwardChunk. by repeat case_match.
  - by apply quiet_same.
  - etrans; [|apply quiet_capacity]. eapply quiet_on_worker; [|done]. intros w c D. by apply wm_resolve.
Qed.

Lemma quiet_connect_first tag s now msg : ginv tag s → quiet s (connect_first now msg s).1.
Proof.
  intros G. destruct msg as [id ms|hb|r|p| |]; cbn [connect_first fst]; try reflexivity.
  destruct (String.eqb id ""); [reflexivity|]. set (w := newWorker _ _ _).
  assert (Q : quiet s (addWorker w s).1.1).
  { split; [|done..]. split; [|done]. apply heap_insert_grows. intros w0 H0.
    apply (wf_addr _ (g_swf _ _ G)) in H0. lia. }
  destruct (addWorker w s) as [[s1 h] ses]. cbn [fst] in *. etrans; [exact Q|]. etrans; [|apply quiet_capacity].
  destruct (trySend _ h s1) eqn:E; [by eapply quiet_trySend|reflexivity].
Qed.

Lemma quiet_connect_end tag s h : ginv tag s → quiet s (connect_end h s).
Proof.
  intros G. etrans; [by apply (quiet_evictWorker tag s h disconnectedErr)|].
  eapply (quiet_on_worker tag); [|by apply ginv_evictWorker]. intros w c D. by apply wm_silent.
Qed.

Lemma quiet_evictStale tag s now : ginv tag s → quiet s (evictStale now s).
Proof.
  intros G. unfold evictStale. generalize (filter (λ h, match s_heap s !! h with
    | Some w => isStale now (s_heartbeatTimeout s) w | None => false end = true) (registered s)).
  intros l. revert s G. induction l as [|h l IH]; intros s G; [reflexivity|]. cbn [fold_left].
  etrans; [by apply (quiet_evictWorker tag s h staleErr)|]. apply IH. by apply ginv_evictWorker.
Qed.

Lemma quiet_drain s id d : quiet s (DrainWorkerWithDeadline id d s).1.1.
Proof.
  unfold DrainWorkerWithDeadline. destruct (s_workers s !! id) as [h|]; [|reflexivity].
  pose proof (quiet_drainAt h s). by destruct (d <=? 0).
Qed.

Lemma quiet_reap tag s ev h : ginv tag s → quiet s (reapDrainedWorker ev h s).1.
Proof.
  intros G. destruct ev; cbn [reapDrainedWorker fst]; [reflexivity|by apply (quiet_forceEvict tag)|].
  repeat case_match; try reflexivity. by apply (quiet_forceEvict tag).
Qed.

Lemma quiet_readObs s o : quiet s (set_fleet (s_heap s) (s_workers s) (recv_obs o (s_chans s)) s).
Proof. split; [|done..]. split; [done|]. intros ch r. simpl. unfold recv_obs. by repeat case_match. Qed.

Lemma quiet_dispatch_abort j h s : quiet s (dispatch_abort j h s).
Proof. unfold dispatch_abort. destruct (s_heap s !! h) as [w|] eqn:Hw; [by apply (quiet_set_worker h w)|reflexivity]. Qed.

Lemma quiet_dispatch_send s d k job h s' e : dispatch_send d k job h s = Some (s', e) → quiet s s'.
Proof.
  unfold dispatch_send, sendOrDone. intros H.
  destruct (d && k); [simplify_eq; apply quiet_dispatch_abort|].
  destruct (trySend _ h s) as [s1|] eqn:E; [simplify_eq; by eapply quiet_trySend|].
  destruct d; simplify_eq. apply quiet_dispatch_abort.
Qed.

Lemma quiet_recordAffinity now job key chosen pref s : quiet s (recordAffinity now job key chosen pref s).
Proof. unfold recordAffinity. repeat case_match; try reflexivity; by apply quiet_same. Qed.

Lemma ginv_recordAffinity tag now job key chosen pref s :
  ginv tag s → ginv tag (recordAffinity now job key chosen pref s).
Proof. intros G. unfold recordAffinity. repeat case_match; try done; by eapply ginv_ext. Qed.

Lemma quiet_dispatch_begin tag j h s :
  ginv tag s → is_Some (s_heap s !! h) → quiet s (dispatch_begin j h s).1.
Proof.
  intros G [w Hw]. unfold dispatch_begin. rewrite Hw. simpl. split; [|done..]. split.
  - apply heap_insert_grows. intros w1 H1. rewrite Hw in H1. by simplify_eq.
  - intros ch r H. simpl. rewrite lookup_insert_ne; [done|]. intros <-.
    destruct (g_fresh _ _ G (c_next (s_chans s))) as [E _]; [lia|]. congruence.
Qed.

Lemma ginv_addObserver tag s h w j :
  s_heap s !! h = Some w → ginv tag s →
  let '(w', c, o) := addObserver j w (s_chans s) in
  ginv tag (set_worker h w' c s) ∧ quiet s (set_worker h w' c s).
Proof.
  intros Hw G. simpl. set (n := c_next (s_chans s)).
  destruct (g_fresh _ _ G n) as (N1 & N2 & N3); [lia|].
  assert (Hn : ∀ p o, observed s p = Some o → o ≠ n).
  { intros p o H ->. destruct (g_obs _ _ G _ _ H) as (? & ? & ?). congruence. }
  set (w' := set_jobs _ _ _ w). set (s' := set_worker h w' _ s).
  assert (Hh : ∀ o ch, held s' o = Some ch → held s o = Some ch).
  { intros [h' j'|j'] ch; simpl; [|done]. destruct (decide (h = h')) as [<-|Hne].
    - rewrite lookup_insert_eq, Hw. done.
    - by rewrite lookup_insert_ne. }
  assert (Ho : ∀ p o, observed s' p = Some o → (p = (h, j) ∧ o = n) ∨ observed s p = Some o).
  { intros [h' j'] o. unfold observed. simpl. destruct (decide (h = h')) as [<-|Hne].
    - rewrite lookup_insert_eq, Hw. simpl. rewrite lookup_insert_Some. intros [[<- <-]|[_ H]]; auto.
    - rewrite lookup_insert_ne by done. auto. }
  split; [|split; [|done..]; split; [|done]; apply heap_insert_grows; intros w1 H1; rewrite Hw in H1; by simplify_eq].
  destruct G as [G1 G2 G3 G4 G5 G6 G7 G8 G9]. split; simpl; try done.
  - by eapply swf_set_worker.
  - intros o ch H%Hh. by eapply G2.
  - intros o1 o2 ch H1%Hh H2%Hh. by eapply G3.
  - intros o ch H%Hh. by eapply G4.
  - intros ch Hch. destruct (G6 ch) as (A1 & A2 & A3); [lia|]. rewrite lookup_insert_ne by lia. done.
  - intros p o [[-> ->]|H]%Ho; [rewrite lookup_insert_eq; by eauto|].
    rewrite lookup_insert_ne; [by eapply G7|]. apply not_eq_sym. by eapply Hn.
  - intros p1 p2 o [[-> ->]|H1]%Ho [[-> E]|H2]%Ho; [done|by apply Hn in H2|subst; by apply Hn in H1|by eapply G8].
Qed.
End invariant.
