(* ===== verification/ServerProps.v ===== *)
(** * ServerProps.v: properties of the running control plane

    The invariant of the calls and of the placement loop over every run of file
    ServerRun, and what follows from it: a queued job is never lost or placed
    twice, a drained worker is never picked again, and shutting down ends the
    placement loop and releases every parked caller.  Where the code relies on
    the calls of a run having distinct job ids, the theorem says so. *)

From S2P Require Import Prelude Errors GoTime Types GoHeap Store Authz Queue Scheduler Quota History Session ServerWorker Server ServerRun.
Open Scope Z_scope.

Definition item_id (it : Item) : string := Job_ID (Item_Job it).

Definition loop_item (l : lpc) : option Item :=
  match l with
  | LTry it | LWait it | LPicked it _ _ | LSend it _ _ _ | LRecv it _ _ _ | LFinish it _ _ _ _ => Some it
  | LIdle | LStopped => None
  end.

Section invariant.
Context {CS SS : Type} `{!CounterStore CS} `{!SessionStore SS}.
Notation server := (Server CS SS).
Notation mstate := (mstate CS SS).
Implicit Type s : server.
Implicit Type m : mstate.

(** The calls of the run have distinct job ids.  What needs no such assumption is
    proved of every run. *)
Variable D : Prop.

(** The jobs the server still has to place. *)
Definition backlog s (l : lpc) : list string :=
  (item_id <$> Queue_items (s_queue s)) ++ option_list (item_id <$> loop_item l).

Definition registered_waiter s (id : string) (ch : nat) : Prop := s_waiters s !! id = Some ch ∨ answered s ch.
Definition parked_ok s (l : lpc) (id : string) (ch : nat) : Prop :=
  answered s ch ∨ (s_waiters s !! id = Some ch ∧ id ∈ backlog s l).

Definition pc_ok (tag : gmap nat string) s (l : lpc) (id : string) (pc : tpc) : Prop :=
  match pc with
  | TRoute => True
  | TPicked h _ job => Job_ID job = id ∧ is_Some (s_heap s !! h)
  | TSend h ch _ job | TRecv h ch _ job => Job_ID job = id ∧ is_Some (s_heap s !! h) ∧ tag !! ch = Some id
  | TQueue job => Job_ID job = id
  | TEnq ch job => Job_ID job = id ∧ tag !! ch = Some id ∧ (D → registered_waiter s id ch)
  | TPark ch job => Job_ID job = id ∧ tag !! ch = Some id ∧ (D → parked_ok s l id ch)
  | TDone res err => res = JobResult_zero ∧ err ≠ None ∨ JobResult_JobID res = id ∧ err = result_err res
  end.

Definition loop_ok (tag : gmap nat string) s (l : lpc) : Prop :=
  match l with
  | LIdle | LTry _ | LWait _ | LStopped => True
  | LPicked it h _ => is_Some (s_heap s !! h)
  | LSend it h ch _ | LRecv it h ch _ => is_Some (s_heap s !! h) ∧ tag !! ch = Some (item_id it)
  | LFinish it h _ res err => err = None → JobResult_JobID res = item_id it
  end.

(** A call that has gone through [Enqueue]. *)
Definition enqueued (pc : tpc) : Prop :=
  match pc with TPark _ _ | TDone _ _ => True | _ => False end.

Record minv (tag : gmap nat string) m : Prop := {
  i_g : ginv tag (m_s m);
  i_ids : D → ∀ t1 t2 x1 x2, m_tasks m !! t1 = Some x1 → m_tasks m !! t2 = Some x2 →
    Job_ID (t_job x1) = Job_ID (t_job x2) → t1 = t2;
  i_pc : ∀ t x, m_tasks m !! t = Some x → pc_ok tag (m_s m) (m_loop m) (Job_ID (t_job x)) (t_pc x);
  i_loop : loop_ok tag (m_s m) (m_loop m);
  i_backlog : D → ∀ id, id ∈ backlog (m_s m) (m_loop m) →
    ∃ t x, m_tasks m !! t = Some x ∧ Job_ID (t_job x) = id ∧ enqueued (t_pc x);
  i_nodup : D → NoDup (backlog (m_s m) (m_loop m));
  i_closed : m_closed m = true → Queue_closed (s_queue (m_s m)) = true ∧ m_loop m = LStopped ∧
    (D → ∀ t x ch job, m_tasks m !! t = Some x → t_pc x = TPark ch job → answered (m_s m) ch) }.

Lemma answered_grows s s' ch : grows s s' → answered s ch → answered s' ch.
Proof. intros [_ H] [r Hr]. exists r. by apply H. Qed.

(** Another call's state is kept when its own waiter is. *)
Lemma pc_ok_mono tag tag' s s' l l' id pc :
  tag ⊆ tag' → grows s s' →
  (D → ∀ ch, registered_waiter s id ch → registered_waiter s' id ch) →
  (D → ∀ ch, tag !! ch = Some id → parked_ok s l id ch → parked_ok s' l' id ch) →
  pc_ok tag s l id pc → pc_ok tag' s' l' id pc.
Proof.
  intros Ht Hg Hr Hp. pose proof (λ ch j, lookup_weaken tag tag' ch j) as Hw.
  pose proof (λ h, grows_some _ _ h Hg) as Hh. destruct pc; simpl; naive_solver.
Qed.

Lemma loop_ok_mono tag tag' s s' l : tag ⊆ tag' → grows s s' → loop_ok tag s l → loop_ok tag' s' l.
Proof.
  intros Ht Hg. pose proof (λ ch j, lookup_weaken tag tag' ch j) as Hw.
  pose proof (λ h, grows_some _ _ h Hg) as Hh. destruct l; simpl; naive_solver.
Qed.

Lemma quiet_waiter s s' id ch : quiet s s' → registered_waiter s id ch → registered_waiter s' id ch.
Proof. intros Q [H|H]; [left; by rewrite (qt_waiters _ _ Q)|right; eapply answered_grows; [apply Q|done]]. Qed.
Lemma quiet_backlog s s' l : quiet s s' → backlog s' l = backlog s l.
Proof. intros Q. unfold backlog. by rewrite (qt_queue _ _ Q). Qed.
Lemma quiet_parked s s' l id ch : quiet s s' → parked_ok s l id ch → parked_ok s' l id ch.
Proof.
  intros Q [H|[H1 H2]]; [left; eapply answered_grows; [apply Q|done]|right].
  by rewrite (qt_waiters _ _ Q), (quiet_backlog _ _ l Q).
Qed.

(** An event that leaves queue and waiters alone. *)
Lemma minv_quiet tag tag' m s' :
  minv tag m → tag ⊆ tag' → ginv tag' s' → quiet (m_s m) s' → minv tag' (with_s s' m).
Proof.
  intros [I1 I2 I3 I4 I5 I6 I7] Ht G Q. split; simpl; rewrite ?(quiet_backlog _ _ _ Q); try done.
  - intros t x Hx. eapply pc_ok_mono; [exact Ht|apply Q|..|exact (I3 t x Hx)].
    + intros _ ch. by apply quiet_waiter.
    + intros _ ch _. by apply quiet_parked.
  - eapply loop_ok_mono; [done|apply Q|done].
  - intros Hc. destruct (I7 Hc) as (C1 & C2 & C3). rewrite (qt_queue _ _ Q). split_and!; try done.
    intros HD t x ch job Hx Hp. eapply answered_grows; [apply Q|exact (C3 HD t x ch job Hx Hp)].
Qed.

(** Call [t] moves on, touching at most its own waiter and its own queue entry. *)
Lemma minv_upd tag tag' m t x s' pc :
  minv tag m → m_tasks m !! t = Some x → tag ⊆ tag' → ginv tag' s' → grows (m_s m) s' →
  (∀ id, id ≠ Job_ID (t_job x) → s_waiters s' !! id = s_waiters (m_s m) !! id) →
  (∀ id, id ∈ backlog (m_s m) (m_loop m) → id ∈ backlog s' (m_loop m)) →
  (∀ id, id ∈ backlog s' (m_loop m) →
     id ∈ backlog (m_s m) (m_loop m) ∨ (id = Job_ID (t_job x) ∧ enqueued pc)) →
  (D → NoDup (backlog s' (m_loop m))) → Queue_closed (s_queue s') = Queue_closed (s_queue (m_s m)) →
  pc_ok tag' s' (m_loop m) (Job_ID (t_job x)) pc → (enqueued (t_pc x) → enqueued pc) →
  (∀ ch job, pc = TPark ch job → t_pc x = TPark ch job ∨ Queue_closed (s_queue s') = false) →
  minv tag' (with_task t s' x pc m).
Proof.
  intros I Hx Ht G Hg Hw Hb1 Hb2 Hnd Hq Hpc Henq Hpk. destruct I as [I1 I2 I3 I4 I5 I6 I7]. split; simpl; try done.
  - intros HD t1 t2 x1 x2 [[<- <-]|[_ H1]]%lookup_insert_Some [[<- <-]|[_ H2]]%lookup_insert_Some; simpl; eauto.
  - intros t' x' [[<- <-]|[Hne H]]%lookup_insert_Some; [done|].
    assert (Hid : D → Job_ID (t_job x') ≠ Job_ID (t_job x)).
    { intros HD E. apply Hne. symmetry. by eapply I2. }
    eapply pc_ok_mono; [exact Ht|exact Hg|..|exact (I3 t' x' H)].
    + intros HD ch [Hc|Hc]; [left; by rewrite Hw by auto|right; by eapply answered_grows].
    + intros HD ch _ [Hc|[Hc1 Hc2]]; [left; by eapply answered_grows|right]. rewrite Hw by auto. split; [done|].
      by apply Hb1.
  - eapply loop_ok_mono; [exact Ht|exact Hg|done].
  - intros HD id Hid. destruct (Hb2 id Hid) as [Hid'|[-> He]].
    + destruct (I5 HD id Hid') as (t' & x' & H1 & H2 & H3). destruct (decide (t = t')) as [<-|Hne].
      * exists t, (mkTask (t_job x) (t_key x) (t_prio x) (t_stream x) pc). rewrite lookup_insert_eq.
        rewrite Hx in H1. simplify_eq. auto.
      * exists t', x'. by rewrite lookup_insert_ne.
    + exists t, (mkTask (t_job x) (t_key x) (t_prio x) (t_stream x) pc). by rewrite lookup_insert_eq.
  - intros Hc. destruct (I7 Hc) as (C1 & C2 & C3). split_and!; [congruence|done|].
    intros HD t' x' ch job [[<- <-]|[_ H]]%lookup_insert_Some Hp; simpl in *.
    + eapply answered_grows; [exact Hg|]. eapply C3; [done|exact Hx|].
      destruct (Hpk _ _ Hp) as [?|E]; [done|congruence].
    + eapply answered_grows; [exact Hg|]. exact (C3 HD t' x' ch job H Hp).
Qed.

(** ... without touching queue and waiters. *)
Lemma minv_task tag tag' m t x s' pc :
  minv tag m → m_tasks m !! t = Some x → tag ⊆ tag' → ginv tag' s' → quiet (m_s m) s' →
  pc_ok tag' s' (m_loop m) (Job_ID (t_job x)) pc →
  (enqueued (t_pc x) → enqueued pc) → (∀ ch job, pc = TPark ch job → t_pc x = TPark ch job) →
  minv tag' (with_task t s' x pc m).
Proof.
  intros I Hx Ht G Q Hpc Henq Hpk. eapply minv_upd; rewrite ?(quiet_backlog _ _ _ Q); eauto.
  - apply Q.
  - intros id _. by rewrite (qt_waiters _ _ Q).
  - apply (i_nodup _ _ I).
  - by rewrite (qt_queue _ _ Q).
Qed.

Lemma minv_spawn tag m t x s' m' :
  minv tag m → ginv tag s' → quiet (m_s m) s' → spawn t x s' m = Some m' →
  (D → ∀ t' x', m_tasks m !! t' = Some x' → Job_ID (t_job x') ≠ Job_ID (t_job x)) →
  pc_ok tag s' (m_loop m) (Job_ID (t_job x)) (t_pc x) → (∀ ch job, t_pc x ≠ TPark ch job) → minv tag m'.
Proof.
  intros I G Q Hs Hfresh Hpc Hpk. destruct (minv_quiet tag tag m s' I (reflexivity _) G Q) as [I1 I2 I3 I4 I5 I6 I7].
  unfold spawn in Hs. destruct (m_tasks m !! t) eqn:Ht; [done|]. simplify_eq. split; simpl in *; try done.
  - intros HD t1 t2 x1 x2 [[<- <-]|[_ H1]]%lookup_insert_Some [[<- <-]|[_ H2]]%lookup_insert_Some E; [done|..].
    + exfalso. by apply (Hfresh HD t2 x2 H2).
    + exfalso. by apply (Hfresh HD t1 x1 H1).
    + exact (I2 HD t1 t2 x1 x2 H1 H2 E).
  - intros t' x' [[<- <-]|[_ H]]%lookup_insert_Some; [done|exact (I3 t' x' H)].
  - intros HD id Hid. destruct (I5 HD id Hid) as (t' & x' & H1 & H2 & H3). exists t', x'.
    rewrite lookup_insert_ne; [done|]. congruence.
  - intros Hc. destruct (I7 Hc) as (C1 & C2 & C3). split_and!; try done.
    intros HD t' x' ch job [[<- <-]|[_ H]]%lookup_insert_Some Hp; [by apply Hpk in Hp|exact (C3 HD t' x' ch job H Hp)].
Qed.

(** The placement loop moves on. *)
Lemma minv_loop tag tag' m s' l' :
  minv tag m → m_closed m = false → tag ⊆ tag' → ginv tag' s' → grows (m_s m) s' → loop_ok tag' s' l' →
  (∀ id ch, registered_waiter (m_s m) id ch → registered_waiter s' id ch) →
  (∀ id ch, parked_ok (m_s m) (m_loop m) id ch → parked_ok s' l' id ch) →
  (∀ id, id ∈ backlog s' l' → id ∈ backlog (m_s m) (m_loop m)) → (D → NoDup (backlog s' l')) →
  minv tag' (with_loop s' l' m).
Proof.
  intros [I1 I2 I3 I4 I5 I6 I7] Hc Ht G Hg Hl Hr Hp Hb Hnd. split; simpl; try done.
  - intros t x Hx. eapply pc_ok_mono; [exact Ht|exact Hg|..|exact (I3 t x Hx)]; [by auto|by auto].
  - intros HD id Hid. by apply I5, Hb.
  - congruence.
Qed.

Lemma minv_loop_quiet tag tag' m s' l' :
  minv tag m → m_closed m = false → tag ⊆ tag' → ginv tag' s' → quiet (m_s m) s' → loop_ok tag' s' l' →
  loop_item l' = loop_item (m_loop m) → minv tag' (with_loop s' l' m).
Proof.
  intros I Hc Ht G Q Hl Hi.
  assert (Hb : backlog s' l' = backlog (m_s m) (m_loop m)) by (unfold backlog; by rewrite (qt_queue _ _ Q), Hi).
  apply (minv_loop tag); try done; rewrite ?Hb; try done.
  - apply Q.
  - intros id ch. by apply quiet_waiter.
  - intros id ch [H|[H1 H2]]; [left; eapply answered_grows; [apply Q|done]|right].
    by rewrite (qt_waiters _ _ Q), Hb.
  - apply (i_nodup _ _ I).
Qed.

(** *** Waiters and queue *)

Lemma tag_insert (tag : gmap nat string) s id :
  ginv tag s → tag ⊆ <[c_next (s_chans s) := id]> tag.
Proof. intros G. apply insert_subseteq. by destruct (g_fresh _ _ G (c_next (s_chans s))) as (_ & _ & ?). Qed.

Lemma grows_addWaiter tag s j : ginv tag s → grows s (addWaiter j s).1.
Proof.
  intros G. split; [done|]. intros ch r H. simpl. rewrite lookup_insert_ne; [done|]. intros <-.
  destruct (g_fresh _ _ G (c_next (s_chans s))) as [E _]; [lia|]. congruence.
Qed.

Lemma resolve_waiter_spec tag s r :
  ginv tag s →
  grows s (resolveWaiter r s).1 ∧ s_queue (resolveWaiter r s).1 = s_queue s ∧
  (∀ id ch, s_waiters s !! id = Some ch →
     (id ≠ JobResult_JobID r ∧ s_waiters (resolveWaiter r s).1 !! id = Some ch) ∨
     (id = JobResult_JobID r ∧ answered (resolveWaiter r s).1 ch)).
Proof.
  intros G. unfold resolveWaiter. destruct (s_waiters s !! JobResult_JobID r) as [ch0|] eqn:E; simpl.
  - pose proof (g_empty _ _ G (OQ (JobResult_JobID r)) ch0 E) as He.
    unfold send_res. rewrite He. split; [|split; [done|]].
    + split; [done|]. intros ch r' H. simpl. rewrite lookup_insert_ne; [done|]. congruence.
    + intros id ch H. destruct (decide (id = JobResult_JobID r)) as [->|Hne].
      * right. split; [done|]. rewrite E in H. simplify_eq. exists r. simpl. apply lookup_insert_eq.
      * left. split; [done|]. simpl. by rewrite lookup_delete_ne.
  - split; [reflexivity|]. split; [done|]. intros id ch H. left. split; [|done]. congruence.
Qed.

(** Answering a job's waiter keeps what the other calls rely on, and releases
    that job from the backlog. *)
Lemma resolve_keeps tag s r l l' :
  ginv tag s → (∀ id, id ≠ JobResult_JobID r → id ∈ backlog s l → id ∈ backlog s l') →
  let s' := (resolveWaiter r s).1 in
  (∀ id ch, registered_waiter s id ch → registered_waiter s' id ch) ∧
  (∀ id ch, parked_ok s l id ch → parked_ok s' l' id ch).
Proof.
  intros G Hb s'. destruct (resolve_waiter_spec tag s r G) as (Hg & Hq & Hw). split.
  - intros id ch [H|H]; [|right; by eapply answered_grows].
    destruct (Hw id ch H) as [[_ ?]|[_ ?]]; [by left|by right].
  - intros id ch [H|[H1 H2]]; [left; by eapply answered_grows|].
    destruct (Hw id ch H1) as [[Hne H]|[_ ?]]; [right|by left]. split; [done|].
    unfold backlog, s'. rewrite Hq. by apply Hb.
Qed.

Lemma backlog_same s s' l l' :
  s_queue s' = s_queue s → loop_item l' = loop_item l → backlog s' l' = backlog s l.
Proof. intros E1 E2. unfold backlog. by rewrite E1, E2. Qed.

Lemma submit_enqueue_spec now job key prio s :
  let '(s', e) := submit_enqueue now job key prio s in
  match e with
  | None => s_chans s' = s_chans s ∧ s_heap s' = s_heap s ∧ s_waiters s' = s_waiters s ∧
      s_workers s' = s_workers s ∧ s_nextAddr s' = s_nextAddr s ∧
      Queue_closed (s_queue s) = false ∧ Queue_closed (s_queue s') = false ∧
      ∀ l, backlog s' l ≡ₚ Job_ID job :: backlog s l
  | Some _ => s' = removeWaiter (Job_ID job) s
  end.
Proof.
  unfold submit_enqueue. pose proof (Enqueue_perm now job key prio (s_queue s)) as Hp.
  pose proof (Queue.Blocking.Enqueue_refused now job key prio (s_queue s)) as Hr.
  pose proof (Queue.Blocking.Enqueue_closed now job key prio (s_queue s)) as Hc.
  destruct (Enqueue now job key prio (s_queue s)) as [q [e|]] eqn:E; simpl in *.
  - by rewrite Hr.
  - assert (Hcl : Queue_closed (s_queue s) = false).
    { unfold Enqueue in E. by destruct (Queue_closed (s_queue s)). }
    do 6 (split; [done|]). split; [congruence|]. intros l. unfold backlog. simpl.
    by rewrite (Hp eq_refl).
Qed.

Lemma removeWaiter_ginv tag s j : ginv tag s → ginv tag (removeWaiter j s).
Proof. intros G. apply ginv_set_waiters; [apply delete_subseteq|done]. Qed.
Lemma removeWaiter_grows s j : grows s (removeWaiter j s).
Proof. by split. Qed.

(** A call gives up its own waiter. *)
Lemma minv_give_up tag m t x pc :
  minv tag m → m_tasks m !! t = Some x → enqueued pc → (∀ ch job, pc ≠ TPark ch job) →
  pc_ok tag (removeWaiter (Job_ID (t_job x)) (m_s m)) (m_loop m) (Job_ID (t_job x)) pc →
  minv tag (with_task t (removeWaiter (Job_ID (t_job x)) (m_s m)) x pc m).
Proof.
  intros I Hx He Hpk Hpc. apply (minv_upd tag tag); try done.
  - apply removeWaiter_ginv, (i_g _ _ I).
  - intros id Hne. simpl. by rewrite lookup_delete_ne.
  - by left.
  - apply (i_nodup _ _ I).
  - intros ch job E. by apply Hpk in E.
Qed.

(** *** The steps of a call *)

Lemma submit_spec k job key s :
  swf s →
  match submit k job key s with
  | Reject _ => True
  | ToWorker h _ job' => Job_ID job' = Job_ID job ∧ is_Some (s_heap s !! h)
  | ToQueue job' => Job_ID job' = Job_ID job
  end.
Proof.
  intros W. unfold submit. destruct (Job_Validate job); [done|].
  destruct (sessionDispatchHints _ _ _ _) as [pref ka]. destruct (negb _); [done|].
  destruct (pickWorker _ _ _ _ s) as [h|] eqn:E; [|done]. split; [done|].
  destruct (pickWorker_sound _ _ _ _ _ _ W E) as (w & [Hw _] & _). by exists w.
Qed.

Lemma task_step_minv tag m t x k d tk m' :
  minv tag m → m_tasks m !! t = Some x → task_step t x k d tk m = Some m' → ∃ tag', minv tag' m'.
Proof.
  intros I Hx. pose proof (i_pc _ _ I t x Hx) as Hpc. pose proof (i_g _ _ I) as G. unfold task_step.
  destruct (t_pc x) as [|h pref job|h ch pref job|h ch pref job|job|ch job|ch job|res err] eqn:Epc; simpl in Hpc.
  - intros [= <-]. exists tag. pose proof (submit_spec k (t_job x) (t_key x) (m_s m) (g_swf _ _ G)) as Hs.
    destruct (submit _ _ _ _);
      (apply (minv_task tag tag); [done|done|done|done|reflexivity| |by rewrite Epc|done]); simpl; auto.
  - destruct Hpc as [Hid Hh]. destruct (ginv_dispatch_begin tag (m_s m) (Job_ID job) h G Hh) as [G' Ech].
    pose proof (quiet_dispatch_begin tag (Job_ID job) h (m_s m) G Hh) as Q.
    destruct (dispatch_begin (Job_ID job) h (m_s m)) as [s' ch]. cbn [fst snd] in *. intros [= <-].
    exists (<[ch := Job_ID job]> tag). subst ch.
    apply (minv_task tag _); [done|done|by apply tag_insert|done|done| |by rewrite Epc|done].
    simpl. split; [done|]. split; [by eapply grows_some; [apply Q|]|]. by rewrite lookup_insert_eq, Hid.
  - destruct Hpc as (Hid & Hh & Hch).
    destruct (dispatch_send d tk job h (m_s m)) as [[s' e]|] eqn:E; [|by destruct (dispatch_send _ _ _ _ _)].
    pose proof (ginv_dispatch_send tag _ _ _ _ _ _ _ E G) as G'.
    pose proof (quiet_dispatch_send _ _ _ _ _ _ _ E) as Q.
    destruct e as [e|]; intros [= <-]; exists tag;
      (apply (minv_task tag tag); [done|done|done|done|done| |by rewrite Epc|done]); simpl; [by left|].
    split; [done|]. split; [by eapply grows_some; [apply Q|]|done].
  - destruct Hpc as (Hid & Hh & Hch).
    destruct (dispatch_recv d tk (Job_ID job) h ch (m_s m)) as [[[s' r] e]|] eqn:E; [|done].
    apply dispatch_recv_cases in E as [(-> & [l Hl] & ->)|(-> & -> & ->)].
    + destruct (g_val _ _ G _ _ Hl) as [?|(r' & [= -> ->] & Ht)]; [done|].
      assert (Hr : JobResult_JobID r' = Job_ID (t_job x)) by congruence.
      destruct (result_err r') as [e|] eqn:Ee; intros [= <-]; exists tag.
      * apply (minv_task tag tag); [done|done|done|done|reflexivity|simpl; auto|by rewrite Epc|done].
      * apply (minv_task tag tag); [done|done|done| | |simpl; auto|by rewrite Epc|done].
        -- destruct (t_stream x); [done|]. by apply ginv_recordAffinity.
        -- destruct (t_stream x); [reflexivity|]. apply quiet_recordAffinity.
    + intros [= <-]. exists tag. apply (minv_task tag tag); [done|done|done| | |by left|by rewrite Epc|done].
      * by apply ginv_dispatch_abort.
      * apply quiet_dispatch_abort.
  - destruct (ginv_addWaiter tag (m_s m) (Job_ID job) G) as [G' Ech].
    pose proof (grows_addWaiter tag (m_s m) (Job_ID job) G) as Hg.
    assert (Hw : ∀ id, id ≠ Job_ID job → s_waiters (addWaiter (Job_ID job) (m_s m)).1 !! id = s_waiters (m_s m) !! id)
      by (intros id Hne; simpl; by rewrite lookup_insert_ne).
    assert (Hw' : s_waiters (addWaiter (Job_ID job) (m_s m)).1 !! Job_ID job = Some (addWaiter (Job_ID job) (m_s m)).2)
      by (simpl; by rewrite lookup_insert_eq).
    assert (Hq : s_queue (addWaiter (Job_ID job) (m_s m)).1 = s_queue (m_s m)) by done.
    destruct (addWaiter (Job_ID job) (m_s m)) as [s' ch]. cbn [fst snd] in *. intros [= <-].
    exists (<[ch := Job_ID job]> tag). subst ch.
    assert (Hb : backlog s' (m_loop m) = backlog (m_s m) (m_loop m)) by by apply backlog_same.
    apply (minv_upd tag _); rewrite ?Hb;
      [done|done|by apply tag_insert|done|done| |done| | |by rewrite Hq| |by rewrite Epc|done].
    + rewrite Hpc in Hw. exact Hw.
    + by left.
    + apply (i_nodup _ _ I).
    + simpl. split; [done|]. rewrite lookup_insert_eq, <- Hpc. split; [done|]. intros _. by left.
  - destruct Hpc as (Hid & Hch & Hreg).
    pose proof (submit_enqueue_spec (k_gate k) job (t_key x) (t_prio x) (m_s m)) as Hs.
    destruct (submit_enqueue _ _ _ _ _) as [s' [e|]]; intros [= <-]; exists tag.
    + subst s'. rewrite Hid. apply minv_give_up; try done. by left.
    + destruct Hs as (E1 & E2 & E3 & E6 & E7 & E4 & E5 & Hb).
      assert (Hni : D → Job_ID job ∉ backlog (m_s m) (m_loop m)).
      { intros HD Hin. destruct (i_backlog _ _ I HD _ Hin) as (t' & x' & H1 & H2 & H3).
        assert (t' = t) as -> by (eapply (i_ids _ _ I HD); [exact H1|exact Hx|congruence]).
        rewrite Hx in H1. simplify_eq. by rewrite Epc in H3. }
      apply (minv_upd tag tag); try done.
      * by eapply ginv_ext.
      * by split; rewrite ?E1, ?E2.
      * intros id _. by rewrite E3.
      * intros id Hi. rewrite Hb. by right.
      * intros id. rewrite Hb, elem_of_cons, Hid. intros [->|?]; [by right|by left].
      * intros HD. rewrite Hb. constructor; [by apply Hni|by apply (i_nodup _ _ I)].
      * congruence.
      * simpl. split; [done|]. split; [done|]. intros HD. destruct (Hreg HD) as [H|H]; [right|left].
        -- rewrite E3. split; [done|]. rewrite Hb, Hid. left.
        -- unfold answered. by rewrite E1.
      * intros ? ? _. by right.
  - destruct Hpc as (Hid & Hch & Hpk).
    destruct (submit_wait d tk (Job_ID job) ch (m_s m)) as [[[s' r] e]|] eqn:E; [|done].
    intros [= <-]. exists tag. apply submit_wait_cases in E as [(-> & [l Hl] & ->)|(-> & -> & ->)].
    + destruct (g_val _ _ G _ _ Hl) as [?|(r' & [= -> ->] & Ht)]; [done|].
      assert (Hr : JobResult_JobID r' = Job_ID (t_job x)) by congruence.
      apply (minv_task tag tag); [done|done|done|done|reflexivity|simpl; auto|done|done].
    + rewrite Hid. apply minv_give_up; try done. by left.
  - done.
Qed.

(** *** The steps of the placement loop *)

Lemma loop_running tag m : minv tag m → m_loop m ≠ LStopped → m_closed m = false.
Proof.
  intros I Hl. destruct (m_closed m) eqn:E; [|done]. by destruct (i_closed _ _ I E) as (_ & ? & _).
Qed.

(** The item in hand is answered and the loop is idle again. *)
Lemma minv_release tag m it s1 r :
  minv tag m → m_closed m = false → loop_item (m_loop m) = Some it → JobResult_JobID r = item_id it →
  ginv tag s1 → quiet (m_s m) s1 → minv tag (with_loop (resolveWaiter r s1).1 LIdle m).
Proof.
  intros I Hc Hit Hr G Q. destruct (resolve_waiter_spec tag s1 r G) as (Hg & Hq & _).
  assert (Hb : backlog s1 (m_loop m) = backlog s1 LIdle ++ [item_id it]).
  { unfold backlog. rewrite Hit. simpl. by rewrite app_nil_r. }
  destruct (resolve_keeps tag s1 r (m_loop m) LIdle G) as [K1 K2].
  { intros id Hne. rewrite Hb, elem_of_app, list_elem_of_singleton. intros [?| ->]; congruence. }
  assert (Hb' : backlog (resolveWaiter r s1).1 LIdle = backlog s1 LIdle) by by apply backlog_same.
  assert (Hnd : D → NoDup (backlog s1 LIdle ++ [item_id it])).
  { rewrite <- Hb, (quiet_backlog _ _ _ Q). apply (i_nodup _ _ I). }
  apply (minv_loop tag tag); try done.
  - by apply ginv_resolveWaiter.
  - etrans; [apply Q|done].
  - intros id ch H. by apply K1, (quiet_waiter _ _ _ _ Q).
  - intros id ch H. by apply K2, (quiet_parked _ _ _ _ _ Q).
  - intros id H. rewrite Hb' in H. rewrite <- (quiet_backlog _ _ _ Q), Hb. apply elem_of_app. by left.
  - intros HD. rewrite Hb'. specialize (Hnd HD). by apply NoDup_app in Hnd as [? _].
Qed.

Lemma quiet_place_books nowB now it wid pref s :
  let s1 := recordWait (Sub now (Item_EnqueuedAt it)) (recordAffinity nowB (Item_Job it) (Item_Key it) wid pref s) in
  quiet s s1 ∧ ∀ tag, ginv tag s → ginv tag s1.
Proof.
  intros s1. split.
  - etrans; [apply quiet_recordAffinity|]. by apply quiet_same.
  - intros tag G. apply (ginv_recordAffinity tag nowB (Item_Job it) (Item_Key it) wid pref) in G. by eapply ginv_ext.
Qed.

Lemma loop_dequeue_minv tag m q o m' :
  minv tag m → m_loop m = LIdle → Queue.Blocking.loop_body (s_queue (m_s m)) (m_stop m) = (q, o) →
  match o with
  | Queue.Blocking.PDone (Queue.Blocking.Got it) =>
      Some (with_loop (set_queue q (s_waiters (m_s m)) (s_chans (m_s m)) (m_s m)) (LTry it) m)
  | Queue.Blocking.PDone (Queue.Blocking.Failed _) =>
      Some (with_loop (set_queue q (s_waiters (m_s m)) (s_chans (m_s m)) (m_s m)) LStopped m)
  | _ => None
  end = Some m' → minv tag m'.
Proof.
  intros I Hl. assert (Hc : m_closed m = false) by (apply (loop_running tag m I); by rewrite Hl).
  unfold Queue.Blocking.loop_body. destruct (popLocked (s_queue (m_s m))) as [q' [it|]] eqn:Ep.
  - intros [= <- <-] [= <-]. apply popLocked_perm in Ep as [Hp Hcl].
    set (s1 := set_queue q' _ _ _).
    assert (Hb : backlog s1 (LTry it) ≡ₚ backlog (m_s m) (m_loop m)).
    { unfold backlog, s1. rewrite Hl. simpl. rewrite app_nil_r, Hp. simpl. by rewrite Permutation_app_comm. }
    apply (minv_loop tag tag); try done.
    + eapply ginv_ext; [apply (i_g _ _ I)|done..].
    + intros id ch [H|[H1 H2]]; [by left|right]. split; [done|]. by rewrite Hb.
    + intros id. by rewrite Hb.
    + rewrite Hb. apply (i_nodup _ _ I).
  - apply popLocked_none in Ep as [-> Hnil]. intros Hb.
    assert (G1 : ginv tag (set_queue (s_queue (m_s m)) (s_waiters (m_s m)) (s_chans (m_s m)) (m_s m)))
      by (eapply ginv_ext; [apply (i_g _ _ I)|done..]).
    assert (Hstop : minv tag (with_loop (set_queue (s_queue (m_s m)) (s_waiters (m_s m)) (s_chans (m_s m)) (m_s m))
                     LStopped m)).
    { apply (minv_loop_quiet tag tag); [done|done|done|done|by apply quiet_same|done|by rewrite Hl]. }
    destruct (Queue_closed (s_queue (m_s m))); [|destruct (m_stop m)]; simplify_eq; by intros [= <-].
Qed.

Lemma loop_step_minv tag m k tk m' :
  minv tag m → loop_step k tk m = Some m' → ∃ tag', minv tag' m'.
Proof.
  intros I. pose proof (i_loop _ _ I) as Hl. pose proof (i_g _ _ I) as G.
  pose proof (loop_running tag m I) as Hc. unfold loop_step.
  destruct (m_loop m) as [|it|it|it h pref|it h ch pref|it h ch pref|it h pref res err|] eqn:El; simpl in Hl;
    try (specialize (Hc ltac:(done))).
  - destruct (Queue.Blocking.loop_body _ _) as [q o] eqn:E. intros H. exists tag. by eapply loop_dequeue_minv.
  - unfold place_try. destruct (pickWorker _ _ _ _ _) as [h|] eqn:Ep; simpl.
    + intros [= <-]. exists tag.
      apply (minv_loop_quiet tag tag); [done|done|done|done|reflexivity| |by rewrite El].
      destruct (pickWorker_sound _ _ _ _ _ _ (g_swf _ _ G) Ep) as (w & [Hw _] & _). by exists w.
    + intros [= <-]. exists tag. apply (minv_loop_quiet tag tag); [done|done|done|done|reflexivity|done|by rewrite El].
  - done.
  - destruct (ginv_dispatch_begin tag (m_s m) (Job_ID (Item_Job it)) h G Hl) as [G' Ech].
    pose proof (quiet_dispatch_begin tag (Job_ID (Item_Job it)) h (m_s m) G Hl) as Q.
    destruct (dispatch_begin _ h (m_s m)) as [s' ch]. cbn [fst snd] in *. intros [= <-].
    exists (<[ch := item_id it]> tag). subst ch.
    apply (minv_loop_quiet tag _); [done|done|by apply tag_insert|done|done| |by rewrite El].
    split; [by eapply grows_some; [apply Q|]|apply lookup_insert_eq].
  - destruct Hl as [Hh Hch].
    destruct (dispatch_send _ _ _ _ _) as [[s' e]|] eqn:E; [|done].
    pose proof (ginv_dispatch_send tag _ _ _ _ _ _ _ E G) as G'.
    pose proof (quiet_dispatch_send _ _ _ _ _ _ _ E) as Q.
    destruct e as [e|]; intros [= <-]; exists tag;
      (apply (minv_loop_quiet tag tag); [done|done|done|done|done| |by rewrite El]); [done|].
    split; [by eapply grows_some; [apply Q|]|done].
  - destruct Hl as [Hh Hch].
    destruct (dispatch_recv _ _ _ _ _ _) as [[[s' r] e]|] eqn:E; [|done]. intros [= <-]. exists tag.
    apply dispatch_recv_cases in E as [(-> & [l Hv] & ->)|(-> & -> & ->)].
    + apply (minv_loop_quiet tag tag); [done|done|done|done|reflexivity| |by rewrite El]. intros _.
      destruct (g_val _ _ G _ _ Hv) as [?|(r' & [= -> ->] & Ht)]; [done|]. congruence.
    + apply (minv_loop_quiet tag tag); [done|done|done| | |done|by rewrite El].
      * by apply ginv_dispatch_abort.
      * apply quiet_dispatch_abort.
  - intros [= <-]. exists tag. unfold place_finish. destruct err as [e|].
    + apply (minv_release tag m it); [done|done|by rewrite El|done|done|reflexivity].
    + destruct (quiet_place_books (k_bind k) (k_gate k) it (worker_name h (m_s m)) pref (m_s m)) as [Q Hg].
      apply (minv_release tag m it); [done|done|by rewrite El|by apply Hl|by apply Hg|done].
  - done.
Qed.

Lemma loop_wake_minv tag m w m' : minv tag m → loop_wake w m = Some m' → minv tag m'.
Proof.
  intros I. pose proof (i_g _ _ I) as G. pose proof (loop_running tag m I) as Hc. unfold loop_wake.
  destruct (m_loop m) as [| |it| | | | |] eqn:El; try done. specialize (Hc ltac:(done)). destruct w; intros H.
  - destruct (m_stop m); simplify_eq. apply (minv_release tag m it); [done|done|by rewrite El|done|done|reflexivity].
  - destruct (s_capacity (m_s m)); simplify_eq.
    apply (minv_loop_quiet tag tag); [done|done|done|by apply ginv_capacity|apply quiet_capacity|done|by rewrite El].
  - simplify_eq. apply (minv_loop_quiet tag tag); [done|done|done|done|reflexivity|done|by rewrite El].
Qed.

(** *** Every event *)

Lemma gate_quiet now key job s :
  quiet s (gate now key job s).1 ∧ ∀ tag, ginv tag s → ginv tag (gate now key job s).1.
Proof.
  unfold gate. destruct (Job_Validate job); [by split; [reflexivity|]|].
  destruct (Authorize key (Job_Model job) Infer) as [r [e|]].
  - split; [by apply quiet_same|]. intros tag G. by eapply ginv_ext.
  - destruct (CheckAndReserve _ _ _) as [[q e] lg]. split; [by apply quiet_same|]. intros tag G. by eapply ginv_ext.
Qed.

Lemma stream_spec k key job s :
  let '(s', r) := SubmitAuthorizedJobStream k key job s in
  ∀ tag, ginv tag s → ginv tag s' ∧ quiet s s' ∧
    match r with Ok (h, _, job') => Job_ID job' = Job_ID job ∧ is_Some (s_heap s' !! h) | Err _ => True end.
Proof.
  unfold SubmitAuthorizedJobStream. pose proof (gate_quiet (k_gate k) key job s) as [Q Hg].
  destruct (gate (k_gate k) key job s) as [s1 [e|]]; cbn [fst] in *; [by auto|].
  destruct (sessionDispatchHints _ _ _ _) as [pref ka].
  destruct (pickWorker _ _ _ _ s1) as [h|] eqn:Ep; [|by destruct (negb _); auto].
  destruct (s_heap s1 !! h) as [w|] eqn:Hw; [|by auto].
  set (job' := Job_set_KeepAliveSeconds ka job). set (s2 := recordAffinity _ _ _ _ _ s1).
  assert (Q2 : quiet s1 s2) by apply quiet_recordAffinity.
  assert (Hw2 : s_heap s2 !! h = Some w).
  { subst s2. unfold recordAffinity. by repeat case_match. }
  pose proof (λ tag G, ginv_addObserver tag s2 h w (Job_ID job') Hw2 G) as Ha.
  destruct (addObserver (Job_ID job') w (s_chans s2)) as [[w' c] o]. intros tag G.
  destruct (Ha tag) as [G3 Q3]; [by apply ginv_recordAffinity, Hg|]. split; [done|].
  split; [by etrans; [exact Q|etrans]|]. split; [done|]. simpl. by rewrite lookup_insert_eq.
Qed.

Lemma minv_flags tag m stop : minv tag m → minv tag (mkM (m_s m) (m_tasks m) (m_loop m) stop (m_closed m) (m_readers m)).

Proof. intros [I1 I2 I3 I4 I5 I6 I7]. by split. Qed.

Lemma minv_close_queue tag m :
  minv tag m →
  minv tag (with_s (set_queue (Close (s_queue (m_s m))) (s_waiters (m_s m)) (s_chans (m_s m)) (m_s m)) m).
Proof.
  intros [I1 I2 I3 I4 I5 I6 I7]. set (s' := set_queue _ _ _ _).
  assert (Hi : Queue_items (Close (s_queue (m_s m))) = Queue_items (s_queue (m_s m))) by (unfold Close; by case_match).
  assert (Hb : ∀ l, backlog s' l = backlog (m_s m) l) by (intros l; unfold backlog; simpl; by rewrite Hi).
  split; simpl; rewrite ?Hb; try done.
  - by eapply ginv_ext.
  - intros t x Hx. apply (pc_ok_mono tag tag (m_s m) s' (m_loop m)); [done|by split|by auto| |exact (I3 t x Hx)].
    intros _ ch _ [H|[H1 H2]]; [by left|right]. by rewrite Hb.
  - intros Hc. destruct (I7 Hc) as (C1 & C2 & C3). split_and!; [|done|done]. unfold Close. by rewrite C1.
Qed.

Lemma minv_fail_waiters tag m :
  minv tag m → m_loop m = LStopped → Queue_closed (s_queue (m_s m)) = true →
  minv tag (mkM (failAllWaiters shutdownErr (m_s m)) (m_tasks m) LStopped (m_stop m) true (m_readers m)).
Proof.
  intros [I1 I2 I3 I4 I5 I6 I7] Hl Hq. destruct (ginv_failAllWaiters tag (m_s m) shutdownErr I1) as [G R].
  assert (Hg : grows (m_s m) (failAllWaiters shutdownErr (m_s m))).
  { split; [done|]. intros ch r H. simpl. rewrite fail_results_other; [done|].
    intros j Hj%elem_of_map_to_list. apply (g_empty _ _ I1 (OQ j)) in Hj. congruence. }
  assert (Ha : ∀ id ch, s_waiters (m_s m) !! id = Some ch → answered (failAllWaiters shutdownErr (m_s m)) ch).
  { intros id ch H. eexists. by apply R. }
  assert (Hpark : ∀ id ch l l', parked_ok (m_s m) l id ch → parked_ok (failAllWaiters shutdownErr (m_s m)) l' id ch).
  { intros id ch l l' [H|[H _]]; left; [by eapply answered_grows|by eapply Ha]. }
  split; simpl; try done.
  - intros t x Hx. rewrite Hl in I3. eapply pc_ok_mono; [reflexivity|exact Hg| | |exact (I3 t x Hx)].
    + intros _ ch [H|H]; right; [by eapply Ha|by eapply answered_grows].
    + intros _ ch _. apply Hpark.
  - by rewrite Hl in I5.
  - by rewrite Hl in I6.
  - intros _. split_and!; [done|done|]. intros HD t x ch job Hx Hp. pose proof (I3 t x Hx) as Hpc. rewrite Hp in Hpc.
    destruct Hpc as (_ & _ & Hk). destruct (Hk HD) as [H|[H _]]; [by eapply answered_grows|by eapply Ha].
Qed.

Lemma minv_readers tag m s' rs :
  minv tag m → ginv tag s' → quiet (m_s m) s' → minv tag (with_reader s' rs m).
Proof. intros I G Q. by destruct (minv_quiet tag tag m s' I (reflexivity _) G Q) as [I1 I2 I3 I4 I5 I6 I7]. Qed.

(** The job id of the call an event starts. *)
Definition spawn_id (e : event) : option string :=
  match e with
  | ESpawn _ job _ _ | EAuthorized _ _ _ job | EStream _ _ _ job => Some (Job_ID job)
  | _ => None
  end.

(** A delta whose observer an eviction has closed: the process ends. *)
Definition crashes (e : event) m m' : Prop :=
  ∃ h r, e = EReader h ∧ m_readers m !! h = Some r ∧ late_forward (m_s m) r ∧
    m' = with_reader (crashed (m_s m)) (delete h (m_readers m)) m.

Lemma mstep_minv tag e m m' :
  minv tag m → (D → ∀ id t x, spawn_id e = Some id → m_tasks m !! t = Some x → Job_ID (t_job x) ≠ id) →
  mstep e m = Some m' → (∃ tag', minv tag' m') ∨ crashes e m m'.
Proof.
  intros I Hf. pose proof (i_g _ _ I) as G.
  assert (HQ : ∀ s', ginv tag s' → quiet (m_s m) s' → ∃ tag', minv tag' (with_s s' m)).
  { intros s' G' Q. exists tag. by apply (minv_quiet tag tag). }
  unfold mstep. rewrite (proj1 (g_safe _ _ G)).
  destruct e; cbn [spawn_id] in Hf; intros H;
    lazymatch goal with |- _ ∨ crashes (EReader _) _ _ => idtac | _ => left; revert H end.
  - intros [= <-]. apply HQ; [by apply ginv_connect_first|by apply (quiet_connect_first tag)].
  - destruct (m_readers m !! h); [done|]. pose proof (ginv_message tag (m_s m) now h msg G) as G'.
    pose proof (quiet_message tag (m_s m) now h msg G) as Q. destruct (reader_message now h msg (m_s m)) as [s' r].
    intros [= <-]. exists tag. by apply minv_readers.
  - destruct (m_readers m !! h) as [r|] eqn:Er; [|done]. injection H as <-.
    destruct (reader_finish_cases tag (m_s m) h r G) as [[Hl E]|[Hl G']].
    + right. exists h, r. by rewrite E.
    + left. exists tag. apply minv_readers; [done|done|by apply (quiet_finish tag)].
  - intros [= <-]. apply HQ; [apply ginv_on_worker|apply (quiet_on_worker tag)]; try done;
      intros w c D'; by apply wm_silent.
  - destruct (m_readers m !! h); [done|].
    intros [= <-]. apply HQ; [by apply ginv_connect_end|by apply (quiet_connect_end tag)].
  - intros [= <-]. apply HQ; [by apply ginv_evictStale|by apply (quiet_evictStale tag)].
  - intros [= <-]. apply HQ; [by apply ginv_drain|apply quiet_drain].
  - intros [= <-]. apply HQ; [by apply ginv_reap|by apply (quiet_reap tag)].
  - intros [= <-]. apply HQ; [by apply ginv_readObs|apply quiet_readObs].
  - intros [= <-]. apply HQ; [apply ginv_on_worker|apply (quiet_on_worker tag)]; try done;
      intros w c D'; (apply wm_silent; [done|done|done|done|simpl; apply delete_subseteq]).
  - intros [= <-]. unfold SetHeartbeatTimeout.
    destruct (d <=? 0); [by apply HQ|]. apply HQ; [by eapply ginv_ext|by apply quiet_same].
  - intros [= <-]. apply HQ; [by eapply ginv_ext|by apply quiet_same].
  - intros H. exists tag. by eapply (minv_spawn tag m); [done|done|reflexivity|done|eauto|..].
  - destruct (gate_quiet now key job (m_s m)) as [Q Hg]. specialize (Hg tag G).
    destruct (gate now key job (m_s m)) as [s' [e|]]; intros H; exists tag; (eapply (minv_spawn tag m);
      [done|exact Hg|exact Q|exact H|by eauto|..]); simpl; auto.
  - pose proof (stream_spec k key job (m_s m)) as Hs.
    destruct (SubmitAuthorizedJobStream k key job (m_s m)) as [s' [[[h o] job']|e]];
      destruct (Hs tag G) as (G' & Q & Hr); intros H; exists tag; (eapply (minv_spawn tag m);
      [done|exact G'|exact Q|exact H|by eauto|..]); simpl; auto.
  - destruct (m_tasks m !! t) as [x|] eqn:Hx; [|done]. by eapply task_step_minv.
  - by apply (loop_step_minv tag).
  - intros H. exists tag. by eapply loop_wake_minv.
  - intros [= <-]. exists tag. by apply minv_flags.
  - intros [= <-]. exists tag. by apply minv_close_queue.
  - destruct (m_loop m) eqn:El; try done. destruct (Queue_closed _) eqn:Eq; [|done]. intros [= <-].
    exists tag. by apply minv_fail_waiters.
Qed.

(** A server as the cmd layer builds it. *)
Definition start (cs : CS) (hb warm : Duration) (mgr : option (Manager SS)) (q : option (Engine CS)) (depth : Z)
    : server :=
  New cs [WithHeartbeatTimeout hb; WithModelWarmMax warm; WithSessionManager mgr; WithQuota q;
          WithQueue (Some (Queue.New [WithMaxDepth depth]))].

Lemma start_minv cs hb warm mgr q depth : minv ∅ (m_init (start cs hb warm mgr q depth)).
Proof.
  assert (E : ∃ s, start cs hb warm mgr q depth = s ∧ s_heap s = ∅ ∧ s_workers s = ∅ ∧ s_waiters s = ∅ ∧
              s_chans s = chans_init ∧ Queue_items (s_queue s) = []).
  { eexists. split; [done|]. unfold start, New, WithHeartbeatTimeout, WithModelWarmMax, WithSessionManager, WithQuota.
    cbn [fold_left]. by destruct (0 <? hb), mgr, (0 <? warm), q. }
  destruct E as (s & -> & E1 & E2 & E3 & E4 & E5). unfold m_init. split; simpl; try done.
  - assert (Hh : ∀ o, held s o = None) by (intros [h j|j]; simpl; by rewrite ?E1, ?E3, ?lookup_empty).
    assert (Ho : ∀ p, observed s p = None) by (intros [h j]; unfold observed; simpl; by rewrite E1, lookup_empty).
    split; rewrite ?E4; try done; try (intros *; by rewrite ?Hh, ?Ho, ?lookup_empty).
    split; intros *; by rewrite ?E1, ?E2, lookup_empty.
  - intros _ id. unfold backlog. rewrite E5. simpl. by intros ?%not_elem_of_nil.
  - intros _. unfold backlog. rewrite E5. constructor.
Qed.

(** *** Every run *)

Lemma spawn_tasks t0 x0 s m m' t x :
  spawn t0 x0 s m = Some m' → m_tasks m' !! t = Some x → m_tasks m !! t = Some x ∨ x = x0.
Proof.
  unfold spawn. destruct (m_tasks m !! t0); [done|]. intros [= <-]. simpl.
  rewrite lookup_insert_Some. intros [[_ <-]|[_ H]]; auto.
Qed.

Lemma task_step_tasks t0 x0 k d tk m m' t x :
  m_tasks m !! t0 = Some x0 → task_step t0 x0 k d tk m = Some m' → m_tasks m' !! t = Some x →
  ∃ x1, m_tasks m !! t = Some x1 ∧ t_job x1 = t_job x.
Proof.
  intros Hx0. assert (Hw : ∀ s' pc, m_tasks (with_task t0 s' x0 pc m) !! t = Some x →
    ∃ x1, m_tasks m !! t = Some x1 ∧ t_job x1 = t_job x).
  { intros s' pc. simpl. rewrite lookup_insert_Some. intros [[<- <-]|[_ H]]; eauto. }
  unfold task_step. intros H. destruct (t_pc x0); [|..|done];
    repeat (first [case_match|progress simplify_eq]); by apply Hw.
Qed.

Lemma loop_step_tasks k tk m m' : loop_step k tk m = Some m' → m_tasks m' = m_tasks m.
Proof. unfold loop_step. intros H. destruct (m_loop m); repeat (first [case_match|progress simplify_eq/=]); done. Qed.
Lemma loop_wake_tasks w m m' : loop_wake w m = Some m' → m_tasks m' = m_tasks m.
Proof. unfold loop_wake. intros H. by repeat case_match; simplify_eq. Qed.

(** Calls only appear by the events that start one. *)
Lemma mstep_tasks e m m' t x :
  mstep e m = Some m' → m_tasks m' !! t = Some x →
  (∃ x0, m_tasks m !! t = Some x0 ∧ t_job x0 = t_job x) ∨ spawn_id e = Some (Job_ID (t_job x)).
Proof.
  assert (Hsp : ∀ t0 x0 s, spawn t0 x0 s m = Some m' → m_tasks m' !! t = Some x →
    (∃ x1, m_tasks m !! t = Some x1 ∧ t_job x1 = t_job x) ∨ t_job x = t_job x0).
  { intros t0 x0 s H Hx. destruct (spawn_tasks _ _ _ _ _ _ _ H Hx) as [?| ->]; eauto. }
  assert (Hsame : m_tasks m' = m_tasks m → m_tasks m' !! t = Some x →
    ∃ x0, m_tasks m !! t = Some x0 ∧ t_job x0 = t_job x) by (intros ->; eauto).
  unfold mstep. destruct (c_panic _); [done|]. destruct e; cbn [spawn_id]; intros H Hx;
    try (left; apply Hsame; [|done]; by repeat (first [case_match|progress simplify_eq/=])).
  - destruct (Hsp _ _ _ H Hx) as [?| ->]; auto.
  - destruct (gate _ _ _ _) as [s' [e|]]; destruct (Hsp _ _ _ H Hx) as [?| ->]; auto.
  - destruct (SubmitAuthorizedJobStream _ _ _ _) as [s' [[[h o] job']|e]];
      destruct (Hsp _ _ _ H Hx) as [?| ->]; auto.
  - left. destruct (m_tasks m !! t0) as [x0|] eqn:E; [|done]. by eapply task_step_tasks.
  - left. apply loop_step_tasks in H. auto.
  - left. apply loop_wake_tasks in H. auto.
Qed.

(** The calls [evs] starts have distinct ids, which no call of [m] has. *)
Definition fresh_ids (evs : list event) m : Prop :=
  NoDup (omap spawn_id evs) ∧ ∀ t x, m_tasks m !! t = Some x → Job_ID (t_job x) ∉ omap spawn_id evs.

Lemma fresh_ids_step e evs m m' : fresh_ids (e :: evs) m → mstep e m = Some m' → fresh_ids evs m'.
Proof.
  intros [Hnd Hf] H. simpl in *. split; [destruct (spawn_id e); [by apply NoDup_cons in Hnd as [_ ?]|done]|].
  intros t x Hx. destruct (mstep_tasks e m m' t x H Hx) as [(x0 & H0 & <-)|E].
  - specialize (Hf t x0 H0). destruct (spawn_id e); [|done]. intros ?. apply Hf. by right.
  - rewrite E in Hnd. by apply NoDup_cons in Hnd as [? _].
Qed.

Lemma run_crashed evs m e m' m'' : crashes e m m' → run evs m' = Some m'' → evs = [] ∧ m'' = m'.
Proof. intros (h & r & _ & _ & _ & ->). by destruct evs; simpl; [intros [= <-]|]. Qed.

(** A run keeps the invariant up to a crash, which is its last event. *)
Lemma run_minv evs tag m m' :
  minv tag m → (D → fresh_ids evs m) → run evs m = Some m' →
  (∃ tag', minv tag' m') ∨
  (∃ evs' e tag' m0, evs = evs' ++ [e] ∧ run evs' m = Some m0 ∧ minv tag' m0 ∧ crashes e m0 m').
Proof.
  revert tag m. induction evs as [|e evs IH]; intros tag m I Hf; simpl; [intros [= <-]; left; by exists tag|].
  destruct (mstep e m) as [m1|] eqn:E; [|done]. intros H. destruct (mstep_minv tag e m m1 I) as [[tag1 I1]|C].
  - intros HD id t x Hid Hx <-. destruct (Hf HD) as [_ Hn]. apply (Hn t x Hx). simpl. rewrite Hid. left.
  - done.
  - destruct (IH tag1 m1 I1) as [?|(evs' & e' & tag' & m0 & -> & Hr & I' & C)]; [|done|by left|right].
    + intros HD. by eapply fresh_ids_step; [apply Hf|].
    + exists (e :: evs'), e', tag', m0. simpl. by rewrite E.
  - destruct (run_crashed _ _ _ _ _ C H) as [-> ->]. right. by exists [], e, tag, m.
Qed.

Lemma run_app evs evs' m : run (evs ++ evs') m = match run evs m with Some m1 => run evs' m1 | None => None end.
Proof. revert m. induction evs as [|e evs IH]; intros m; simpl; [done|]. by destruct (mstep e m). Qed.

(** What a state shows after a crash is what it showed before. *)
Lemma reachable_minv evs cs hb warm mgr q depth m :
  (D → NoDup (omap spawn_id evs)) → run evs (m_init (start cs hb warm mgr q depth)) = Some m →
  ∃ tag m0, minv tag m0 ∧ (m = m0 ∨ ∃ rs, m = with_reader (crashed (m_s m0)) rs m0).
Proof.
  intros Hd H. destruct (run_minv evs ∅ _ m (start_minv cs hb warm mgr q depth)) as [[tag I]|Hc]; [|done|..].
  - intros HD. split; [by apply Hd|]. intros t x. simpl. by rewrite lookup_empty.
  - exists tag, m. by auto.
  - destruct Hc as (evs' & e & tag & m0 & _ & _ & I & (h & r & _ & _ & _ & ->)).
    exists tag, m0. split; [done|]. right. by eexists.
Qed.

(** *** What only grows *)

Lemma spawn_server t x s m m' : spawn t x s m = Some m' → m_s m' = s.
Proof. unfold spawn. intros H. by repeat case_match; simplify_eq. Qed.

Lemma task_step_grows tag m t x k d tk m' :
  minv tag m → m_tasks m !! t = Some x → task_step t x k d tk m = Some m' → grows (m_s m) (m_s m').
Proof.
  intros I Hx. pose proof (i_pc _ _ I t x Hx) as Hpc. pose proof (i_g _ _ I) as G. unfold task_step.
  destruct (t_pc x) as [|h pref job|h ch pref job|h ch pref job|job|ch job|ch job|res err]; simpl in Hpc.
  - intros [= <-]. by destruct (submit _ _ _ _).
  - destruct Hpc as [Hid Hh]. pose proof (quiet_dispatch_begin tag (Job_ID job) h (m_s m) G Hh) as Q.
    destruct (dispatch_begin (Job_ID job) h (m_s m)) as [s' ch]. intros [= <-]. apply Q.
  - destruct (dispatch_send d tk job h (m_s m)) as [[s' [e|]]|] eqn:E; intros [= <-];
      by apply quiet_dispatch_send in E as [? _ _].
  - destruct (dispatch_recv _ _ _ _ _ _) as [[[s' r] e]|] eqn:E; [|done].
    assert (Q : quiet (m_s m) s').
    { apply dispatch_recv_cases in E as [(-> & _)|(-> & _)]; [reflexivity|apply quiet_dispatch_abort]. }
    destruct e; intros [= <-]; simpl; [apply Q|]. etrans; [apply Q|]. destruct (t_stream x); [reflexivity|].
    apply quiet_recordAffinity.
  - pose proof (grows_addWaiter tag (m_s m) (Job_ID job) G) as Hg.
    destruct (addWaiter (Job_ID job) (m_s m)) as [s' ch]. by intros [= <-].
  - pose proof (submit_enqueue_spec (k_gate k) job (t_key x) (t_prio x) (m_s m)) as Hs.
    destruct (submit_enqueue _ _ _ _ _) as [s' [e|]]; intros [= <-]; simpl; [by subst s'|].
    destruct Hs as (E1 & E2 & _). split; [by rewrite E2|by rewrite E1].
  - destruct (submit_wait _ _ _ _ _) as [[[s' r] e]|] eqn:E; [|done]. intros [= <-].
    by apply submit_wait_cases in E as [(-> & _)|(-> & _)].
  - done.
Qed.

Lemma loop_step_grows tag m k tk m' :
  minv tag m → loop_step k tk m = Some m' → grows (m_s m) (m_s m').
Proof.
  intros I. pose proof (i_loop _ _ I) as Hl. pose proof (i_g _ _ I) as G. unfold loop_step.
  destruct (m_loop m) as [|it|it|it h pref|it h ch pref|it h ch pref|it h pref res err|]; simpl in Hl.
  - destruct (Queue.Blocking.loop_body _ _) as [q [| | |[]]]; by intros [= <-].
  - destruct (place_try _ _ _) as [[h pref]|]; by intros [= <-].
  - done.
  - pose proof (quiet_dispatch_begin tag (Job_ID (Item_Job it)) h (m_s m) G Hl) as Q.
    destruct (dispatch_begin _ h (m_s m)) as [s' ch]. intros [= <-]. apply Q.
  - destruct (dispatch_send _ _ _ _ _) as [[s' [e|]]|] eqn:E; intros [= <-];
      by apply quiet_dispatch_send in E as [? _ _].
  - destruct (dispatch_recv _ _ _ _ _ _) as [[[s' r] e]|] eqn:E; [|done]. intros [= <-].
    apply dispatch_recv_cases in E as [(-> & _)|(-> & _)]; [reflexivity|apply quiet_dispatch_abort].
  - intros [= <-]. simpl. unfold place_finish. destruct err; [apply (resolve_waiter_spec tag _ _ G)|].
    destruct (quiet_place_books (k_bind k) (k_gate k) it (worker_name h (m_s m)) pref (m_s m)) as [Q Hg].
    etrans; [apply Q|]. apply (resolve_waiter_spec tag), Hg, G.
  - done.
Qed.

Lemma loop_wake_grows tag m w m' : minv tag m → loop_wake w m = Some m' → grows (m_s m) (m_s m').
Proof.
  intros I. unfold loop_wake. destruct (m_loop m); try done. intros H.
  repeat case_match; simplify_eq; try reflexivity; [|by apply quiet_capacity].
  apply (resolve_waiter_spec tag), (i_g _ _ I).
Qed.

Lemma mstep_grows tag e m m' : minv tag m → mstep e m = Some m' → grows (m_s m) (m_s m').
Proof.
  intros I. pose proof (i_g _ _ I) as G. unfold mstep. rewrite (proj1 (g_safe _ _ G)). destruct e.
  - intros [= <-]. by apply (quiet_connect_first tag).
  - pose proof (quiet_message tag (m_s m) now h msg G) as Q. destruct (m_readers m !! h); [done|].
    destruct (reader_message now h msg (m_s m)). intros [= <-]. apply Q.
  - destruct (m_readers m !! h) as [r|]; [|done]. intros [= <-]. by apply (quiet_finish tag).
  - intros [= <-]. eapply (quiet_on_worker tag); [|done]. intros w c D'; by apply wm_silent.
  - destruct (m_readers m !! h); [done|]. intros [= <-]. by apply (quiet_connect_end tag).
  - intros [= <-]. by apply (quiet_evictStale tag).
  - intros [= <-]. apply quiet_drain.
  - intros [= <-]. by apply (quiet_reap tag).
  - intros [= <-]. apply quiet_readObs.
  - intros [= <-]. eapply (quiet_on_worker tag); [|done]. intros w c D'.
    apply wm_silent; [done|done|done|done|simpl; apply delete_subseteq].
  - intros [= <-]. unfold SetHeartbeatTimeout. by destruct (d <=? 0).
  - by intros [= <-].
  - intros H. by rewrite (spawn_server _ _ _ _ _ H).
  - destruct (gate_quiet now key job (m_s m)) as [Q _].
    destruct (gate now key job (m_s m)) as [s' [e|]]; intros H; rewrite (spawn_server _ _ _ _ _ H); apply Q.
  - pose proof (stream_spec k key job (m_s m)) as Hs.
    destruct (SubmitAuthorizedJobStream k key job (m_s m)) as [s' [[[h o] job']|e]];
      destruct (Hs tag G) as (G' & Q & _); intros H; rewrite (spawn_server _ _ _ _ _ H); apply Q.
  - destruct (m_tasks m !! t) as [x|] eqn:Hx; [|done]. by eapply task_step_grows.
  - by apply (loop_step_grows tag).
  - by apply (loop_wake_grows tag).
  - by intros [= <-].
  - by intros [= <-].
  - destruct (m_loop m); try done. destruct (Queue_closed _); [|done]. intros [= <-].
    split; [reflexivity|]. intros ch r H. simpl. rewrite fail_results_other; [done|].
    intros j Hj%elem_of_map_to_list. apply (g_empty _ _ G (OQ j)) in Hj. congruence.
Qed.

Lemma run_grows tag evs m m' :
  minv tag m → (D → fresh_ids evs m) → run evs m = Some m' → grows (m_s m) (m_s m').
Proof.
  revert tag m. induction evs as [|e evs IH]; intros tag m I Hf; simpl; [by intros [= <-]|].
  destruct (mstep e m) as [m1|] eqn:E; [|done]. intros H. etrans; [by eapply mstep_grows|].
  destruct (mstep_minv tag e m m1 I) as [[tag1 I1]|C]; [|done|..].
  - intros HD id t x Hid Hx <-. destruct (Hf HD) as [_ Hn]. apply (Hn t x Hx). simpl. rewrite Hid. left.
  - eapply IH; [done| |done]. intros HD. by eapply fresh_ids_step; [apply Hf|].
  - by destruct (run_crashed _ _ _ _ _ C H) as [-> ->].
Qed.
End invariant.

(** ** Properties *)

Section properties.
Context {CS SS : Type} `{!CounterStore CS} `{!SessionStore SS}.
Notation server := (Server CS SS).
Notation mstate := (mstate CS SS).
Implicit Type m : mstate.

Lemma task_step_closed t x k d tk m m' : task_step t x k d tk m = Some m' → m_closed m' = m_closed m.
Proof.
  unfold task_step. intros H. destruct (t_pc x); [|..|done];
    repeat (first [case_match|progress simplify_eq/=]); done.
Qed.

Lemma loop_step_closed k tk m m' : loop_step k tk m = Some m' → m_closed m' = m_closed m.
Proof.
  unfold loop_step. intros H. destruct (m_loop m); repeat (first [case_match|progress simplify_eq/=]); done.
Qed.

Lemma loop_wake_closed w m m' : loop_wake w m = Some m' → m_closed m' = m_closed m.
Proof. unfold loop_wake. intros H. by repeat case_match; simplify_eq. Qed.

Lemma mstep_closed e m m' : m_closed m = true → mstep e m = Some m' → m_closed m' = true.
Proof.
  intros Hc. assert (Hsp : ∀ t x s, spawn t x s m = Some m' → m_closed m' = true).
  { intros t x s. unfold spawn. intros H. by repeat case_match; simplify_eq. }
  unfold mstep. destruct (c_panic _); [done|]. destruct e; intros H; simplify_eq; simpl; try done; eauto.
  - destruct (m_readers m !! h); [done|]. destruct (reader_message now h msg (m_s m)). by simplify_eq.
  - destruct (m_readers m !! h); by simplify_eq.
  - destruct (m_readers m !! h); by simplify_eq.
  - destruct (gate _ _ _ _) as [s' []]; eauto.
  - destruct (SubmitAuthorizedJobStream _ _ _ _) as [s' [[[h o] job']|e]]; eauto.
  - destruct (m_tasks m !! t); [|done]. apply task_step_closed in H. congruence.
  - apply loop_step_closed in H. congruence.
  - apply loop_wake_closed in H. congruence.
  - destruct (m_loop m); try done. destruct (Queue_closed _); by simplify_eq.
Qed.

Lemma run_closed evs m m' : m_closed m = true → run evs m = Some m' → m_closed m' = true.
Proof.
  revert m. induction evs as [|e evs IH]; intros m Hc; simpl; [by intros [= <-]|].
  destruct (mstep e m) as [m1|] eqn:E; [|done]. apply IH. by apply (mstep_closed e m).
Qed.

(** C1: No queued job is lost or placed twice. In every interleaving of calls with
    distinct job ids, a call parked after queueing either already has a result
    with its own job id in its channel, or its waiter is still registered, its
    channel is empty and the job is exactly once in the backlog, waiting in the
    queue or in the placement loop's hands. *)
Theorem queued_job_never_lost evs cs hb warm mgr q depth m t x ch job :
  NoDup (omap spawn_id evs) →
  run evs (m_init (start cs hb warm mgr q depth : server)) = Some m →
  m_tasks m !! t = Some x → t_pc x = TPark ch job →
  Job_ID job = Job_ID (t_job x) ∧ NoDup (backlog (m_s m) (m_loop m)) ∧
  ((∃ r, c_res (s_chans (m_s m)) !! ch = Some [r] ∧ JobResult_JobID r = Job_ID job) ∨
   (s_waiters (m_s m) !! Job_ID job = Some ch ∧ c_res (s_chans (m_s m)) !! ch = Some [] ∧
    Job_ID job ∈ backlog (m_s m) (m_loop m))).
Proof.
  intros Hd H Hx Hpc. apply (reachable_minv True) in H as (tag & m0 & I & Hm); [|done].
  enough (P : ∀ x, m_tasks m0 !! t = Some x → t_pc x = TPark ch job →
    Job_ID job = Job_ID (t_job x) ∧ NoDup (backlog (m_s m0) (m_loop m0)) ∧
    ((∃ r, c_res (s_chans (m_s m0)) !! ch = Some [r] ∧ JobResult_JobID r = Job_ID job) ∨
     (s_waiters (m_s m0) !! Job_ID job = Some ch ∧ c_res (s_chans (m_s m0)) !! ch = Some [] ∧
      Job_ID job ∈ backlog (m_s m0) (m_loop m0)))).
  { destruct Hm as [->|[rs ->]]; exact (P x Hx Hpc). }
  clear Hx Hpc x Hm. intros x Hx Hpc. pose proof (i_pc _ _ _ I t x Hx) as Hp. rewrite Hpc in Hp.
  destruct Hp as (Hid & Ht & Hp). pose proof (i_g _ _ _ I) as G. split; [done|].
  split; [by apply (i_nodup _ _ _ I)|]. destruct (Hp Logic.I) as [[r Hr]|[Hw Hb]].
  - left. exists r. split; [done|]. destruct (g_val _ _ G _ _ Hr) as [?|(r' & E & Ht')]; [done|].
    simplify_eq. congruence.
  - right. rewrite Hid. split; [done|]. split; [|done]. by apply (g_empty _ _ G (OQ (Job_ID (t_job x)))).
Qed.

(** C12: Shutdown. In every interleaving of calls with distinct job ids, once Close
    has returned, the placement loop has stopped, every parked call has its
    result, whoever enqueues later is refused with ErrShuttingDown, and this stays
    so in every continuation of the run. *)
Theorem close_releases_callers evs evs' cs hb warm mgr q depth m m' :
  NoDup (omap spawn_id (evs ++ evs')) →
  run evs (m_init (start cs hb warm mgr q depth : server)) = Some m → m_closed m = true →
  run evs' m = Some m' →
  m_closed m' = true ∧ m_loop m' = LStopped ∧
  (∀ t x ch job, m_tasks m' !! t = Some x → t_pc x = TPark ch job → answered (m_s m') ch) ∧
  (∀ now job key prio, (submit_enqueue now job key prio (m_s m')).2 = Some ErrShuttingDown).
Proof.
  intros Hd H Hc H'. assert (Hc' : m_closed m' = true) by (by eapply run_closed).
  assert (Hr : run (evs ++ evs') (m_init (start cs hb warm mgr q depth : server)) = Some m') by by rewrite run_app, H.
  apply (reachable_minv True) in Hr as (tag & m0 & I & Hm); [|done].
  assert (Hc0 : m_closed m0 = true) by (by destruct Hm as [<-|[rs ->]]).
  destruct (i_closed _ _ _ I Hc0) as (C1 & C2 & C3). specialize (C3 Logic.I). split; [done|].
  assert (He : ∀ now job key prio, (submit_enqueue now job key prio (m_s m0)).2 = Some ErrShuttingDown).
  { intros now job key prio. unfold submit_enqueue, Enqueue. by rewrite C1. }
  destruct Hm as [->|[rs ->]]; [done|]. split; [done|]. split; [exact C3|].
  intros now job key prio. unfold submit_enqueue, Enqueue. simpl. by rewrite C1.
Qed.

(** C13: A draining worker is never picked. Once DrainWorker has marked a stream
    (or it has deregistered), no later event, heartbeats included, makes
    pickWorker return that stream again. *)
Theorem drained_never_picked evs evs' cs hb warm mgr q depth m m' h w now1 now2 model pref :
  run evs (m_init (start cs hb warm mgr q depth : server)) = Some m →
  s_heap (m_s m) !! h = Some w → w_draining w = true → run evs' m = Some m' →
  pickWorker now1 now2 model pref (m_s m') ≠ Some h.
Proof.
  intros H Hw Hd H' Hp.
  assert (Hr : run (evs ++ evs') (m_init (start cs hb warm mgr q depth : server)) = Some m') by by rewrite run_app, H.
  assert (Hg : grows (m_s m) (m_s m')).
  { destruct (run_minv False evs ∅ _ m (start_minv False cs hb warm mgr q depth)) as [[tag I]|C]; [done|done|..].
    - by apply (run_grows False tag evs').
    - destruct C as (? & ? & ? & ? & _ & _ & _ & C). by destruct (run_crashed _ _ _ _ _ C H') as [-> ->]. }
  assert (W : swf (m_s m')).
  { apply (reachable_minv False) in Hr as (tag & m0 & I & Hm); [|done].
    destruct (g_swf _ _ (i_g _ _ _ I)) as [W1 W2]. by destruct Hm as [->|[rs ->]]. }
  destruct (gr_heap _ _ Hg h w Hw) as (w' & Hw' & Hd').
  destruct (pickWorker_sound _ _ _ _ _ _ W Hp) as (w2 & [Hw2 _] & Ha & _).
  rewrite Hw' in Hw2. simplify_eq. unfold available in Ha. by rewrite (Hd' Hd) in Ha.
Qed.

(** *** The placement loop ends *)

Definition loop_rank (l : lpc) : nat :=
  match l with
  | LStopped => 0 | LIdle => 1 | LFinish _ _ _ _ _ => 2 | LRecv _ _ _ _ => 3 | LSend _ _ _ _ => 4
  | LPicked _ _ _ => 5 | LWait _ => 6 | LTry _ => 7
  end.
Definition loop_measure m : nat := 7 * length (Queue_items (s_queue (m_s m))) + loop_rank (m_loop m).

(** The steps of the loop in a run, and among them the wake-ups by a capacity
    signal or a tick. *)
Definition is_loop (e : event) : bool := match e with ELoop _ _ | EWake _ => true | _ => false end.
Definition is_retry (e : event) : bool := match e with EWake WakeCapacity | EWake WakeTick => true | _ => false end.
Definition count (f : event → bool) (evs : list event) : nat := length (List.filter f evs).

Lemma resolve_queue r (s : server) : s_queue (resolveWaiter r s).1 = s_queue s.
Proof. unfold resolveWaiter. by destruct (s_waiters s !! _). Qed.

Lemma dispatch_send_done tk job h (s : server) :
  ∃ s' e, dispatch_send true tk job h s = Some (s', e) ∧ s_queue s' = s_queue s.
Proof.
  destruct (dispatch_send true tk job h s) as [[s' e]|] eqn:E.
  - exists s', e. split; [done|]. by apply quiet_dispatch_send in E as [_ _ ?].
  - exfalso. unfold dispatch_send, sendOrDone in E. destruct tk; simpl in E; [done|]. by destruct (trySend _ _ _).
Qed.

Lemma dispatch_recv_done tk j h ch (s : server) :
  ∃ s' r e, dispatch_recv true tk j h ch s = Some (s', r, e) ∧ s_queue s' = s_queue s.
Proof.
  destruct (dispatch_recv true tk j h ch s) as [[[s' r] e]|] eqn:E.
  - exists s', r, e. split; [done|]. apply dispatch_recv_cases in E as [(-> & _)|(-> & _)]; [done|].
    apply quiet_dispatch_abort.
  - exfalso. unfold dispatch_recv in E. by destruct (c_res (s_chans s) !! ch) as [[|? ?]|], tk.
Qed.

(** The loop is told to stop. *)
Definition stopping m : Prop := m_stop m = true ∧ Queue_closed (s_queue (m_s m)) = true.

(** Outside its select the loop never blocks, and gets closer to its end. *)
Lemma loop_step_measure k tk m :
  stopping m → m_loop m ≠ LStopped → (∀ it, m_loop m ≠ LWait it) →
  ∃ m', loop_step k tk m = Some m' ∧ stopping m' ∧ (loop_measure m' < loop_measure m)%nat.
Proof.
  intros [Hs Hq] Hl Hw. unfold loop_step, loop_measure, stopping. rewrite Hs.
  destruct (m_loop m) as [|it|it|it h pref|it h ch pref|it h ch pref|it h pref res err|] eqn:El; [..|done].
  - unfold Queue.Blocking.loop_body. destruct (popLocked (s_queue (m_s m))) as [q [it|]] eqn:Ep.
    + apply popLocked_perm in Ep as [Hp Hcl]. eexists. split; [done|]. simpl. split; [split; [done|congruence]|].
      apply Permutation_length in Hp. rewrite Hp. simpl. lia.
    + apply popLocked_none in Ep as [-> Hnil]. rewrite Hq. eexists. split; [done|]. simpl. split; [done|]. lia.
  - destruct (place_try k it (m_s m)) as [[h pref]|]; (eexists; split; [done|]; split; [done|]; simpl; lia).
  - by destruct (Hw it).
  - unfold dispatch_begin. destruct (s_heap (m_s m) !! h);
      (eexists; split; [done|]; split; [done|]; simpl; lia).
  - destruct (dispatch_send_done tk (Item_Job it) h (m_s m)) as (s' & e & -> & Eq).
    destruct e; (eexists; split; [done|]; simpl; rewrite Eq; split; [done|]; lia).
  - destruct (dispatch_recv_done tk (Job_ID (Item_Job it)) h ch (m_s m)) as (s' & r & e & -> & Eq).
    eexists; split; [done|]; simpl; rewrite Eq; split; [done|]; lia.
  - eexists. split; [done|]. simpl.
    assert (Eq : s_queue (place_finish (k_bind k) (k_gate k) it (worker_name h (m_s m)) pref res err (m_s m))
                 = s_queue (m_s m)).
    { unfold place_finish. destruct err; rewrite resolve_queue; [done|].
      apply (quiet_place_books (k_bind k) (k_gate k) it). }
    rewrite Eq. split; [done|]. lia.
Qed.

Lemma loop_wake_measure w m m' :
  stopping m → loop_wake w m = Some m' →
  stopping m' ∧ (1 + loop_measure m' ≤ loop_measure m + 2 * (if is_retry (EWake w) then 1 else 0))%nat.
Proof.
  intros [Hs Hq] H. unfold loop_wake, loop_measure, stopping in *. destruct (m_loop m) as [| |it| | | | |]; try done.
  destruct w; [destruct (m_stop m) eqn:E|destruct (s_capacity (m_s m))|]; simplify_eq; simpl;
    unfold place_stop; rewrite ?resolve_queue; (split; [done|lia]).
Qed.

Lemma on_worker_queue h f (s : server) : s_queue (on_worker h f s) = s_queue s.
Proof. unfold on_worker. destruct (s_heap s !! h) as [w|]; [|done]. by destruct (f w _). Qed.
Lemma evict_queue h err (s : server) : s_queue (evictWorker h err s) = s_queue s.
Proof. unfold evictWorker. by destruct (s_heap s !! h). Qed.
Lemma trySend_queue msg h (s s' : server) : trySend msg h s = Some s' → s_queue s' = s_queue s.
Proof. intros H. by apply quiet_trySend in H as [_ _ ?]. Qed.
Lemma evictStale_queue now (s : server) : s_queue (evictStale now s) = s_queue s.
Proof.
  unfold evictStale. generalize (filter (λ h, match s_heap s !! h with
    | Some w => isStale now (s_heartbeatTimeout s) w | None => false end = true) (registered s)).
  intros l. revert s. induction l as [|h l IH]; intros s; [done|]. cbn [fold_left]. by rewrite IH, evict_queue.
Qed.
Lemma message_queue now h msg (s : server) : s_queue (reader_message now h msg s).1 = s_queue s.
Proof.
  destruct msg as [id ms|hb|r|p| |]; cbn [reader_message connect_message fst]; try done.
  - simpl. by rewrite on_worker_queue.
  - simpl. by rewrite on_worker_queue.
  - destruct (s_heap s !! h); [|done]. by destruct (accumulate_start _ _ _) as [[? ?] ?].
  - unfold markDrainingAt. by destruct (s_heap s !! h).
Qed.
Lemma forceEvict_queue h (s : server) : s_queue (forceEvictWorker h s) = s_queue s.
Proof. unfold forceEvictWorker. destruct (s_heap _ !! h); simpl; by rewrite evict_queue. Qed.
Lemma stream_queue k key job (s : server) : s_queue (SubmitAuthorizedJobStream k key job s).1 = s_queue s.
Proof.
  unfold SubmitAuthorizedJobStream. pose proof (gate_quiet (k_gate k) key job s) as [[_ _ Q] _].
  destruct (gate (k_gate k) key job s) as [s1 [e|]]; cbn [fst] in *; [done|].
  destruct (sessionDispatchHints _ _ _ _) as [pref ka].
  destruct (pickWorker _ _ _ _ s1) as [h|]; [|by destruct (negb _)].
  destruct (s_heap s1 !! h) as [w|]; [|done]. simpl. by rewrite (qt_queue _ _ (quiet_recordAffinity _ _ _ _ _ _)).
Qed.

(** On a closed queue a call's step adds nothing. *)
Lemma task_step_queue t x k d tk m m' :
  Queue_closed (s_queue (m_s m)) = true → task_step t x k d tk m = Some m' →
  m_loop m' = m_loop m ∧ m_stop m' = m_stop m ∧ s_queue (m_s m') = s_queue (m_s m).
Proof.
  intros Hq. unfold task_step.
  destruct (t_pc x) as [|h pref job|h ch pref job|h ch pref job|job|ch job|ch job|res err].
  - intros [= <-]. by destruct (submit _ _ _ _).
  - unfold dispatch_begin. destruct (s_heap (m_s m) !! h); by intros [= <-].
  - destruct (dispatch_send d tk job h (m_s m)) as [[s' [e|]]|] eqn:E; intros [= <-];
      by apply quiet_dispatch_send in E as [_ _ ?].
  - destruct (dispatch_recv _ _ _ _ _ _) as [[[s' r] e]|] eqn:E; [|done].
    assert (Q : s_queue s' = s_queue (m_s m)).
    { apply dispatch_recv_cases in E as [(-> & _)|(-> & _)]; [done|apply quiet_dispatch_abort]. }
    destruct e; intros [= <-]; [done|]. simpl. split; [done|]. split; [done|]. destruct (t_stream x); [done|].
    by rewrite (qt_queue _ _ (quiet_recordAffinity _ _ _ _ _ _)).
  - by intros [= <-].
  - unfold submit_enqueue, Enqueue. rewrite Hq. by intros [= <-].
  - destruct (submit_wait _ _ _ _ _) as [[[s' r] e]|] eqn:E; [|done]. intros [= <-].
    by apply submit_wait_cases in E as [(-> & _)|(-> & _)].
  - done.
Qed.

(** No other event undoes the stop or adds to the queue. *)
Lemma other_step_measure e m m' :
  stopping m → is_loop e = false → mstep e m = Some m' → stopping m' ∧ loop_measure m' = loop_measure m.
Proof.
  intros [Hs Hq] He H.
  enough (E : m_loop m' = m_loop m ∧ m_stop m' = true ∧ s_queue (m_s m') = s_queue (m_s m)).
  { destruct E as (E1 & E2 & E3). unfold stopping, loop_measure. by rewrite E1, E2, E3. }
  assert (Hsp : ∀ t x s, spawn t x s m = Some m' → s_queue s = s_queue (m_s m) →
    m_loop m' = m_loop m ∧ m_stop m' = true ∧ s_queue (m_s m') = s_queue (m_s m)).
  { intros t x s. unfold spawn. destruct (m_tasks m !! t); [done|]. by intros [= <-]. }
  revert H. unfold mstep. destruct (c_panic _); [done|]. destruct e; try discriminate He.
  - intros [= <-]. split; [done|]. split; [done|]. destruct msg; try done.
    cbn [with_s m_s connect_first]. destruct (String.eqb workerID ""); [done|]. cbn [addWorker].
    destruct (trySend _ _ _) as [s1|] eqn:Et; [|done]. exact (trySend_queue _ _ _ _ Et).
  - destruct (m_readers m !! h); [done|]. pose proof (message_queue now h msg (m_s m)) as Q.
    destruct (reader_message now h msg (m_s m)). by intros [= <-].
  - destruct (m_readers m !! h) as [[obs chunk|res]|]; [..|done]; intros [= <-]; [done|].
    split; [done|]. split; [done|]. simpl. apply on_worker_queue.
  - intros [= <-]. split; [done|]. split; [done|]. apply on_worker_queue.
  - destruct (m_readers m !! h); [done|]. intros [= <-]. split; [done|]. split; [done|]. simpl. unfold connect_end.
    rewrite on_worker_queue. apply evict_queue.
  - intros [= <-]. split; [done|]. split; [done|]. apply evictStale_queue.
  - intros [= <-]. split; [done|]. split; [done|]. apply quiet_drain.
  - intros [= <-]. split; [done|]. split; [done|]. simpl. unfold reapDrainedWorker.
    destruct ev; [done|apply forceEvict_queue|]. repeat case_match; try done. apply forceEvict_queue.
  - by intros [= <-].
  - intros [= <-]. split; [done|]. split; [done|]. apply on_worker_queue.
  - intros [= <-]. split; [done|]. split; [done|]. simpl. unfold SetHeartbeatTimeout. by destruct (d <=? 0).
  - by intros [= <-].
  - intros H. by apply (Hsp _ _ _ H).
  - destruct (gate_quiet now key job (m_s m)) as [[_ _ Q] _].
    destruct (gate now key job (m_s m)) as [s' [e|]]; intros H; by apply (Hsp _ _ _ H).
  - pose proof (stream_queue k key job (m_s m)) as Q.
    destruct (SubmitAuthorizedJobStream k key job (m_s m)) as [s' [[[h o] job']|e]]; intros H; by apply (Hsp _ _ _ H).
  - destruct (m_tasks m !! t) as [x|]; [|done]. intros H. apply task_step_queue in H as (-> & -> & ->); done.
  - by intros [= <-].
  - intros [= <-]. split; [done|]. split; [done|]. simpl. unfold Close. by rewrite Hq.
  - destruct (m_loop m) eqn:El; try done. destruct (Queue_closed _); [|done]. by intros [= <-].
Qed.

Lemma run_measure evs m m' :
  stopping m → run evs m = Some m' →
  stopping m' ∧ (count is_loop evs + loop_measure m' ≤ loop_measure m + 2 * count is_retry evs)%nat.
Proof.
  revert m. induction evs as [|e evs IH]; intros m S; cbn [run]; [intros [= <-]; split; [done|]; unfold count; simpl; lia|].
  destruct (mstep e m) as [m1|] eqn:E; [|done]. intros H.
  enough (P : stopping m1 ∧ ((if is_loop e then 1 else 0) + loop_measure m1
                             ≤ loop_measure m + 2 * (if is_retry e then 1 else 0))%nat).
  { destruct P as [S1 P]. destruct (IH m1 S1 H) as [S' P']. split; [done|]. unfold count in *. simpl.
    destruct (is_loop e), (is_retry e); simpl; lia. }
  destruct (is_loop e) eqn:Hl.
  - unfold mstep in E. destruct (c_panic _); [done|]. destruct e as [| | | | | | | | | | | | | | | |k tk|w| | |]; try done.
    + destruct (loop_step_measure k tk m S) as (m2 & E2 & S2 & P2).
      * intros El. unfold loop_step in E. by rewrite El in E.
      * intros it El. unfold loop_step in E. by rewrite El in E.
      * rewrite E in E2. simplify_eq. split; [done|]. simpl. lia.
    + by apply loop_wake_measure.
  - destruct (other_step_measure e m m1 S Hl E) as [S1 P1]. split; [done|]. lia.
Qed.

(** C11: Close does not hang on the placement loop. Once its context is cancelled and
    the queue is closed, then in every interleaving with everything else the loop
    makes at most seven steps per queued job and seven more, plus two for every
    time the select of placeItem takes a capacity signal or a tick although the
    context is done; and until it has stopped it is never blocked: at that
    select ctx.Done is ready, everywhere else its next step is enabled whichever
    way a select falls. *)
Theorem placement_loop_stops m evs m' :
  m_stop m = true → Queue_closed (s_queue (m_s m)) = true → run evs m = Some m' →
  (count is_loop evs ≤ 7 * length (Queue_items (s_queue (m_s m))) + 7 + 2 * count is_retry evs)%nat ∧
  (c_panic (s_chans (m_s m')) = true ∨ m_loop m' = LStopped ∨
   (∃ it, m_loop m' = LWait it ∧ mstep (EWake WakeDone) m' = Some (with_loop (place_stop it (m_s m')) LIdle m')) ∨
   ∀ k tk, ∃ m2, mstep (ELoop k tk) m' = Some m2 ∧ (loop_measure m2 < loop_measure m')%nat).
Proof.
  intros Hs Hq H. destruct (run_measure evs m m' (conj Hs Hq) H) as [S' P]. split.
  - unfold loop_measure at 2 in P. assert (loop_rank (m_loop m) ≤ 7)%nat by (destruct (m_loop m); simpl; lia). lia.
  - unfold mstep. destruct (c_panic (s_chans (m_s m'))) eqn:Ep; [by left|right].
    destruct (m_loop m') as [| |it| | | | |] eqn:El; [|..|by left]; right;
      try (right; intros k tk; edestruct (loop_step_measure k tk m') as (m2 & -> & _ & ?);
           [done|by rewrite El|by rewrite El|by exists m2]).
    left. exists it. split; [done|]. unfold loop_wake. rewrite El. by rewrite (proj1 S').
Qed.
End properties.

(** ** Witnesses *)

#[local] Instance demo_sess : SessionStore MemorySessionStore := MSS_SessionStore demo_sessions demo_sessions_ok.

Definition demo_clk : clocks := mkClocks ex_time ex_time ex_time ex_time ex_time ex_time.
Definition demo_server : Server MemoryCounterStore MemorySessionStore := start NewMemoryCounterStore 0 0 None None 0.
Definition demo_models : option (list (option PbModel)) := Some [Some (mkPbModel "m" "")].
Definition demo_job (id : string) : Job := mkJob id "m" "hi" [] [] "" 0.

(** The only worker with the model drains, so a submitted job is queued. *)
Definition demo_queued : list event :=
  [EConnect ex_time (WRegister "w1" demo_models); EDrain "w1" 0; ESpawn 1 (demo_job "j1") "k" 1;
   ETask 1 demo_clk false false; ETask 1 demo_clk false false; ETask 1 demo_clk false false].
(** A second worker connects, the loop places the job on it and it answers. *)
Definition demo_placed : list event :=
  [EConnect ex_time (WRegister "w2" demo_models); ELoop demo_clk false; ELoop demo_clk false; ELoop demo_clk false;
   ELoop demo_clk false; EMessage ex_time 1 (WResult (JobResult_Proto (mkJobResult "j1" "hello" None 2 [] "stop" 1 1)));
   ELoop demo_clk false; ELoop demo_clk false; ETask 1 demo_clk false false].
Definition demo_shutdown : list event := [EStop; ECloseQueue; ELoop demo_clk false; EFailWaiters].

Definition demo_at (evs : list event) : mstate MemoryCounterStore MemorySessionStore :=
  default (m_init demo_server) (run evs (m_init demo_server)).
Lemma demo_run evs : is_Some (run evs (m_init demo_server)) → run evs (m_init demo_server) = Some (demo_at evs).
Proof. intros [m H]. unfold demo_at. by rewrite H. Defined.
Ltac demo_runs := apply demo_run; vm_compute; eexists; reflexivity.

Ltac distinct := apply (bool_decide_unpack _); vm_compute; exact Logic.I.

Lemma queued_job_never_lost_witness : "j1" ∈ backlog (m_s (demo_at demo_queued)) (m_loop (demo_at demo_queued)).
Proof.
  destruct (queued_job_never_lost demo_queued NewMemoryCounterStore 0 0 None None 0 (demo_at demo_queued) 1
    (mkTask (demo_job "j1") "k" 1 false (TPark 0 (demo_job "j1"))) 0 (demo_job "j1")) as (_ & _ & [(r & Hr & _)|(_ & _ & H)]).
  - distinct.
  - demo_runs.
  - vm_compute. reflexivity.
  - reflexivity.
  - vm_compute in Hr. discriminate.
  - exact H.
Defined.

Lemma close_releases_callers_witness :
  let m := demo_at (demo_queued ++ demo_placed ++ demo_shutdown) in
  m_loop m = LStopped ∧ ∀ now job key prio, (submit_enqueue now job key prio (m_s m)).2 = Some ErrShuttingDown.
Proof.
  intros m. destruct (close_releases_callers (demo_queued ++ demo_placed ++ demo_shutdown) [] NewMemoryCounterStore 0 0
    None None 0 m m) as (_ & H1 & _ & H2).
  - distinct.
  - demo_runs.
  - vm_compute. reflexivity.
  - reflexivity.
  - by split.
Defined.

Definition demo_drained : worker :=
  default (newWorker "" None 0) (s_heap (m_s (demo_at demo_queued)) !! 0%nat).

Lemma drained_never_picked_witness :
  pickWorker ex_time ex_time "m" "w1" (m_s (demo_at (demo_queued ++ demo_placed))) ≠ Some 0%nat.
Proof.
  apply (drained_never_picked demo_queued demo_placed NewMemoryCounterStore 0 0 None None 0 (demo_at demo_queued)
    (demo_at (demo_queued ++ demo_placed)) 0 demo_drained ex_time ex_time "m" "w1").
  - demo_runs.
  - vm_compute. reflexivity.
  - vm_compute. reflexivity.
  - vm_compute. reflexivity.
Defined.

(** Told to stop while it holds an item no worker can take, the loop sees a tick
    first, then the cancellation. *)
Definition demo_stop : list event :=
  [ELoop demo_clk false; ELoop demo_clk false; EWake WakeTick; ELoop demo_clk false; EWake WakeDone; ELoop demo_clk false].

Lemma placement_loop_stops_witness :
  (count is_loop demo_stop ≤ 16)%nat ∧ m_loop (demo_at (demo_queued ++ [EStop; ECloseQueue] ++ demo_stop)) = LStopped.
Proof.
  destruct (placement_loop_stops (demo_at (demo_queued ++ [EStop; ECloseQueue])) demo_stop
    (demo_at (demo_queued ++ [EStop; ECloseQueue] ++ demo_stop))) as [H _].
  - vm_compute. reflexivity.
  - vm_compute. reflexivity.
  - vm_compute. reflexivity.
  - split; [|vm_compute; reflexivity]. etrans; [exact H|]. vm_compute. lia.
Defined.

(** Two calls queued under one id: the second waiter replaces the first, whose call
    is still parked with an empty channel when [Close] has returned. *)
Theorem reused_id_not_released :
  let m := demo_at (demo_queued ++ [ESpawn 2 (demo_job "j1") "k" 1; ETask 2 demo_clk false false;
             ETask 2 demo_clk false false; ETask 2 demo_clk false false; EStop; ECloseQueue] ++ demo_stop ++
             [ELoop demo_clk false; EWake WakeDone; ELoop demo_clk false; EFailWaiters]) in
  m_closed m = true ∧ t_pc <$> m_tasks m !! 1%nat = Some (TPark 0 (demo_job "j1")) ∧
  c_res (s_chans (m_s m)) !! 0%nat = Some [].
Proof. vm_compute. done. Qed.

(** A stream that ends between [pickWorker] and [addPending] has already failed its
    waiters, so the dispatched job's waiter is registered on a dead stream: the
    worker is gone from the registry, its context is done, the job counts as in
    flight, and nothing will answer it. *)
Theorem dispatch_on_dead_stream_waits :
  let m := demo_at [EConnect ex_time (WRegister "w1" demo_models); ESpawn 1 (demo_job "j1") "k" 1;
                    ETask 1 demo_clk false false; EConnEnd 0; ETask 1 demo_clk false false;
                    ETask 1 demo_clk false false] in
  s_workers (m_s m) = ∅ ∧ (λ w, (inFlight w, w_cancelled w)) <$> s_heap (m_s m) !! 0%nat = Some (1, true) ∧
  t_pc <$> m_tasks m !! 1%nat = Some (TRecv 0 0 "" (demo_job "j1")) ∧
  mstep (ETask 1 demo_clk false false) m = None.
Proof. vm_compute. done. Qed.
