(* ===== verification/ServerPanic.v ===== *)
(** * ServerPanic.v: what can go wrong on a channel

    Over every run of file ServerRun, whatever the job ids: no delivery of a result
    blocks, nothing is closed twice, and the one panic the code has is a worker's
    delta chunk that is sent to its observer after an eviction, which came between
    the lock region of [accumulate] and the send, has closed the channel. *)

From S2P Require Import Prelude Errors GoTime Types GoHeap Store Authz Queue Scheduler Quota History Session ServerWorker Server ServerRun ServerProps.
Open Scope Z_scope.

(** The events that evict a stream from outside its own goroutine. *)
Definition evicts (e : event) : bool := match e with EEvict _ | EReap _ _ => true | _ => false end.

Section panic.
Context {CS SS : Type} `{!CounterStore CS} `{!SessionStore SS}.
Notation server := (Server CS SS).
Notation mstate := (mstate CS SS).
Implicit Type s : server.
Implicit Type m : mstate.

Definition open_obs s (o : nat) : Prop := ∃ t b, c_obs (s_chans s) !! o = Some (mkObsChan t b false).

(** What an operation does to observer channels: new observers get new channels,
    and of the open ones it closes at most those observed at a stream in [X]. *)
Record obs_step (X : nat → Prop) s s' : Prop := {
  os_next : (c_next (s_chans s) ≤ c_next (s_chans s'))%nat;
  os_new : ∀ p o, observed s' p = Some o → observed s p = Some o ∨ (c_next (s_chans s) ≤ o)%nat;
  os_open : ∀ o, open_obs s o → (∀ p, observed s p = Some o → ¬ X p.1) → open_obs s' o }.

Lemma obs_step_trans (X : nat → Prop) s1 s2 s3 :
  (∀ o, open_obs s1 o → (o < c_next (s_chans s1))%nat) → obs_step X s1 s2 → obs_step X s2 s3 → obs_step X s1 s3.
Proof.
  intros Hlt [A1 A2 A3] [B1 B2 B3]. split; [lia|..].
  - intros p o H. destruct (B2 p o H) as [H2|?]; [auto|right; lia].
  - intros o H HX. pose proof (Hlt o H) as Ho. apply B3; [by apply A3|]. intros p H2.
    destruct (A2 p o H2) as [?|?]; [auto|lia].
Qed.

Lemma obs_step_capacity X s s' b : obs_step X s s' → obs_step X s (set_capacity b s').
Proof. intros [A1 A2 A3]. by split. Qed.

(** Nothing but results and waiters is touched. *)
Lemma obs_step_same X s s' :
  (∀ p o, observed s' p = Some o → observed s p = Some o) → c_obs (s_chans s') = c_obs (s_chans s) →
  (c_next (s_chans s) ≤ c_next (s_chans s'))%nat → obs_step X s s'.
Proof. intros H1 H2 H3. split; [done|auto|]. intros o (t & b & E) _. exists t, b. by rewrite H2. Qed.

Lemma obs_step_heap X s s' :
  s_heap s' = s_heap s → c_obs (s_chans s') = c_obs (s_chans s) →
  (c_next (s_chans s) ≤ c_next (s_chans s'))%nat → obs_step X s s'.
Proof. intros H1. apply obs_step_same. intros p o. unfold observed. by rewrite H1. Qed.

Lemma observed_insert s h w w' c p o :
  s_heap s !! h = Some w → w_observers w' ⊆ w_observers w →
  observed (set_worker h w' c s) p = Some o → observed s p = Some o.
Proof.
  intros Hw Hs. destruct p as [h' j]. unfold observed. simpl. destruct (decide (h = h')) as [<-|Hne].
  - rewrite lookup_insert_eq, Hw. simpl. intros H. by eapply lookup_weaken.
  - by rewrite lookup_insert_ne.
Qed.

Lemma obs_step_worker X s h w w' c :
  s_heap s !! h = Some w → w_observers w' ⊆ w_observers w → c_obs c = c_obs (s_chans s) →
  (c_next (s_chans s) ≤ c_next c)%nat → obs_step X s (set_worker h w' c s).
Proof. intros Hw Hs Hc Hn. apply obs_step_same; [|done..]. intros p o. by eapply observed_insert. Qed.

(** A worker's move closes channels of that worker only. *)
Lemma obs_step_move (X : nat → Prop) s h w w' c' :
  s_heap s !! h = Some w → wmove w (s_chans s) w' c' → X h → obs_step X s (set_worker h w' c' s).
Proof.
  intros Hw [M1 M2 M0 M3 M4 M5 (_ & _ & F) M7 M8] HX. split; simpl; [lia|..].
  - intros p o H. left. by eapply observed_insert.
  - intros o (t & b & E) Hn. exists t, b. apply F; [done|]. intros j Hj.
    apply (Hn (h, j)); [|done]. by rewrite (observed_at s h j w).
Qed.

Lemma obs_step_on_worker tag (X : nat → Prop) s h f :
  (∀ w c, disciplined w c → wmove w c (f w c).1 (f w c).2) → X h → ginv tag s → obs_step X s (on_worker h f s).
Proof.
  intros Hf HX G. unfold on_worker. destruct (s_heap s !! h) as [w|] eqn:Hw; [|by apply obs_step_heap].
  specialize (Hf w (s_chans s) (ginv_disciplined tag s h w G Hw)). destruct (f w (s_chans s)) as [w' c'].
  by eapply obs_step_move.
Qed.

Lemma obs_step_silent X s h f :
  (∀ w, w_observers (f w (s_chans s)).1 ⊆ w_observers w ∧ c_obs (f w (s_chans s)).2 = c_obs (s_chans s) ∧
     (c_next (s_chans s) ≤ c_next (f w (s_chans s)).2)%nat) → obs_step X s (on_worker h f s).
Proof.
  intros Hf. unfold on_worker. destruct (s_heap s !! h) as [w|] eqn:Hw; [|by apply obs_step_heap].
  destruct (Hf w) as (H1 & H2 & H3). destruct (f w (s_chans s)) as [w' c']. by eapply obs_step_worker.
Qed.

Lemma send_res_obs ch r c : c_obs (send_res ch r c) = c_obs c ∧ c_next (send_res ch r c) = c_next c.
Proof. unfold send_res. by repeat case_match. Qed.

Lemma obs_step_resolve X s h r : obs_step X s (on_worker h (resolve r) s).
Proof.
  apply obs_step_silent. intros w. unfold resolve. destruct (w_pending w !! _) as [ch|]; [|done]. simpl.
  destruct (send_res_obs ch r (s_chans s)) as [-> ->]. done.
Qed.

Lemma obs_step_resolveWaiter X s r : obs_step X s (resolveWaiter r s).1.
Proof.
  unfold resolveWaiter. destruct (s_waiters s !! _) as [ch|]; [|by apply obs_step_heap].
  destruct (send_res_obs ch r (s_chans s)) as [E1 E2]. apply obs_step_heap; [done|exact E1|]. simpl. by rewrite E2.
Qed.

Lemma obs_step_trySend X msg h s s' : trySend msg h s = Some s' → obs_step X s s'.
Proof.
  unfold trySend. destruct (s_heap s !! h) as [w|] eqn:Hw; [|done]. case_match; [|done]. intros [= <-].
  by eapply obs_step_worker.
Qed.

Lemma obs_step_abort X j h s : obs_step X s (dispatch_abort j h s).
Proof.
  unfold dispatch_abort. destruct (s_heap s !! h) as [w|] eqn:Hw; [by eapply obs_step_worker|by apply obs_step_heap].
Qed.

Lemma obs_step_begin X j h s : obs_step X s (dispatch_begin j h s).1.
Proof.
  unfold dispatch_begin. destruct (s_heap s !! h) as [w|] eqn:Hw; [|by apply obs_step_heap].
  simpl. eapply obs_step_worker; [done|done|done|simpl; lia].
Qed.

Lemma obs_step_send X d k job h s s' e : dispatch_send d k job h s = Some (s', e) → obs_step X s s'.
Proof.
  unfold dispatch_send, sendOrDone. intros H.
  destruct (d && k); [simplify_eq; apply obs_step_abort|].
  destruct (trySend _ h s) as [s1|] eqn:E; [simplify_eq; by eapply obs_step_trySend|].
  destruct d; simplify_eq. apply obs_step_abort.
Qed.

Lemma recordAffinity_fleet now job key chosen pref s :
  s_heap (recordAffinity now job key chosen pref s) = s_heap s ∧
  s_chans (recordAffinity now job key chosen pref s) = s_chans s.
Proof. unfold recordAffinity. by repeat case_match. Qed.

Lemma ginv_open_lt tag s : ginv tag s → ∀ o, open_obs s o → (o < c_next (s_chans s))%nat.
Proof.
  intros G o (t & b & E). destruct (decide (o < c_next (s_chans s))%nat) as [|Hge]; [done|].
  destruct (g_fresh _ _ G o) as (_ & E' & _); [lia|]. congruence.
Qed.

(** *** The steps *)

Lemma task_step_obs X t x k d tk m m' : task_step t x k d tk m = Some m' → obs_step X (m_s m) (m_s m').
Proof.
  unfold task_step. destruct (t_pc x) as [|h pref job|h ch pref job|h ch pref job|job|ch job|ch job|res err].
  - intros [= <-]. destruct (submit _ _ _ _); by apply obs_step_heap.
  - pose proof (obs_step_begin X (Job_ID job) h (m_s m)) as H.
    destruct (dispatch_begin (Job_ID job) h (m_s m)). by intros [= <-].
  - destruct (dispatch_send d tk job h (m_s m)) as [[s' [e|]]|] eqn:E; intros [= <-]; by eapply obs_step_send.
  - destruct (dispatch_recv _ _ _ _ _ _) as [[[s' r] e]|] eqn:E; [|done]. intros H.
    assert (Hh : s_heap (m_s m') = s_heap s' ∧ s_chans (m_s m') = s_chans s').
    { destruct e; simplify_eq; [done|]. simpl. destruct (t_stream x); [done|]. apply recordAffinity_fleet. }
    destruct Hh as [H1 H2]. apply dispatch_recv_cases in E as [(-> & _)|(-> & _)].
    + apply obs_step_heap; by rewrite ?H1, ?H2.
    + destruct (obs_step_abort X (Job_ID job) h (m_s m)) as [A1 A2 A3].
      split; unfold open_obs, observed in *; rewrite ?H1, ?H2; done.
  - intros [= <-]. apply obs_step_heap; [done|done|simpl; lia].
  - unfold submit_enqueue. destruct (Enqueue _ _ _ _ _) as [q [e|]]; intros [= <-]; by apply obs_step_heap.
  - destruct (submit_wait _ _ _ _ _) as [[[s' r] e]|] eqn:E; [|done]. intros [= <-].
    apply submit_wait_cases in E as [(-> & _)|(-> & _)]; by apply obs_step_heap.
  - done.
Qed.

Lemma loop_step_obs X k tk m m' : loop_step k tk m = Some m' → obs_step X (m_s m) (m_s m').
Proof.
  unfold loop_step. destruct (m_loop m) as [|it|it|it h pref|it h ch pref|it h ch pref|it h pref res err|].
  - destruct (Queue.Blocking.loop_body _ _) as [q [| | |[]]]; intros [= <-]; by apply obs_step_heap.
  - destruct (place_try _ _ _) as [[h pref]|]; intros [= <-]; by apply obs_step_heap.
  - done.
  - pose proof (obs_step_begin X (Job_ID (Item_Job it)) h (m_s m)) as H.
    destruct (dispatch_begin _ h (m_s m)). by intros [= <-].
  - destruct (dispatch_send _ _ _ _ _) as [[s' [e|]]|] eqn:E; intros [= <-]; by eapply obs_step_send.
  - destruct (dispatch_recv _ _ _ _ _ _) as [[[s' r] e]|] eqn:E; [|done]. intros [= <-].
    apply dispatch_recv_cases in E as [(-> & _)|(-> & _)]; [by apply obs_step_heap|apply obs_step_abort].
  - intros [= <-]. simpl. unfold place_finish. destruct err; [apply obs_step_resolveWaiter|].
    set (s1 := recordWait _ _).
    assert (Hh : s_heap s1 = s_heap (m_s m) ∧ s_chans s1 = s_chans (m_s m)) by apply recordAffinity_fleet.
    destruct Hh as [H1 H2]. destruct (obs_step_resolveWaiter X s1 res) as [A1 A2 A3].
    split; unfold open_obs, observed in *; rewrite ?H1, ?H2 in *; done.
  - done.
Qed.

Lemma loop_wake_obs X w m m' : loop_wake w m = Some m' → obs_step X (m_s m) (m_s m').
Proof.
  unfold loop_wake. intros H. destruct (m_loop m); try done.
  repeat case_match; simplify_eq; first [apply obs_step_resolveWaiter|by apply obs_step_heap].
Qed.

(** *** Every event *)

Lemma obs_step_evict tag (X : nat → Prop) s h err : ginv tag s → X h → obs_step X s (evictWorker h err s).
Proof.
  intros G HX. unfold evictWorker. destruct (s_heap s !! h) as [w|] eqn:Hw; [|by apply obs_step_heap].
  pose proof (wm_failAll err w _ (ginv_disciplined tag s h w G Hw)) as M.
  destruct (failAllPending err w (s_chans s)) as [w' c']. cbn [fst snd] in M.
  destruct (obs_step_move X s h w w' c' Hw M HX) as [A1 A2 A3]. by split.
Qed.

Lemma obs_step_end tag (X : nat → Prop) s h : ginv tag s → X h → obs_step X s (connect_end h s).
Proof.
  intros G HX. eapply obs_step_trans; [by eapply ginv_open_lt|by eapply obs_step_evict|].
  by apply obs_step_silent.
Qed.

Lemma obs_step_force tag (X : nat → Prop) s h : ginv tag s → X h → obs_step X s (forceEvictWorker h s).
Proof.
  intros G HX. unfold forceEvictWorker. pose proof (obs_step_evict tag X s h evictedErr G HX) as A.
  destruct (s_heap (evictWorker h evictedErr s) !! h) as [w|] eqn:Hw; [|done].
  eapply obs_step_trans; [by eapply ginv_open_lt|exact A|by eapply obs_step_worker].
Qed.

Lemma obs_step_stale tag (X : nat → Prop) now s : ginv tag s → (∀ h, X h) → obs_step X s (evictStale now s).
Proof.
  intros G HX. unfold evictStale. generalize (filter (λ h, match s_heap s !! h with
    | Some w => isStale now (s_heartbeatTimeout s) w | None => false end = true) (registered s)).
  intros l. revert s G. induction l as [|h l IH]; intros s G; [by apply obs_step_heap|]. cbn [fold_left].
  eapply obs_step_trans; [by eapply ginv_open_lt|by eapply obs_step_evict|]. by apply IH, ginv_evictWorker.
Qed.

Lemma obs_step_message tag (X : nat → Prop) now h msg s :
  ginv tag s → X h → obs_step X s (reader_message now h msg s).1.
Proof.
  intros G HX. destruct msg as [id ms|hb|r|p| |]; cbn [reader_message connect_message fst]; try by apply obs_step_heap.
  - by apply obs_step_capacity, obs_step_silent.
  - apply obs_step_capacity, obs_step_resolve.
  - destruct (s_heap s !! h) as [w|] eqn:Hw; [|by apply obs_step_heap].
    pose proof (wm_accumulate_start (JobChunkFromProto p) w _ (ginv_disciplined tag s h w G Hw)) as M.
    destruct (accumulate_start _ w _) as [[w' c'] r]. by eapply obs_step_move.
  - unfold markDrainingAt. destruct (s_heap s !! h) as [w|] eqn:Hw; [by eapply obs_step_worker|by apply obs_step_heap].
Qed.

Lemma obs_step_chans X s c :
  (c_next (s_chans s) ≤ c_next c)%nat →
  (∀ o t b, c_obs (s_chans s) !! o = Some (mkObsChan t b false) →
     ∃ t' b', c_obs c !! o = Some (mkObsChan t' b' false)) →
  obs_step X s (set_fleet (s_heap s) (s_workers s) c s).
Proof. intros H1 H2. split; [done|by left|]. intros o (t & b & E) _. by apply (H2 o t b). Qed.

Lemma obs_step_finish X h r s : obs_step X s (reader_finish h r s).
Proof.
  destruct r as [[o|] chunk|res]; simpl; [|by apply obs_step_heap|apply obs_step_capacity, obs_step_resolve].
  unfold forwardChunk. destruct (c_obs (s_chans s) !! o) as [[t b cl]|] eqn:E; [|by apply obs_step_heap]. simpl.
  destruct cl; [by apply obs_step_heap|]. destruct (length b <? obsCap)%nat; [|by apply obs_step_heap].
  apply obs_step_chans; [done|]. intros o' t' b' E'. simpl. destruct (decide (o = o')) as [<-|Hne].
  - rewrite lookup_insert_eq. by eauto.
  - rewrite lookup_insert_ne by done. by eauto.
Qed.

Lemma obs_step_read X s o : obs_step X s (set_fleet (s_heap s) (s_workers s) (recv_obs o (s_chans s)) s).
Proof.
  unfold recv_obs. destruct (c_obs (s_chans s) !! o) as [[t [|x b] cl]|] eqn:E; try by apply obs_step_heap.
  apply obs_step_chans; [done|]. intros o' t' b' E'. simpl. destruct (decide (o = o')) as [<-|Hne].
  - rewrite lookup_insert_eq. simplify_eq. by eauto.
  - rewrite lookup_insert_ne by done. by eauto.
Qed.

Lemma obs_step_connect X tag now msg s : ginv tag s → obs_step X s (connect_first now msg s).1.
Proof.
  intros G. destruct msg as [id ms|hb|r|p| |]; cbn [connect_first fst]; try by apply obs_step_heap.
  destruct (String.eqb id ""); [by apply obs_step_heap|]. set (w := newWorker _ _ _).
  assert (A : obs_step X s (addWorker w s).1.1).
  { apply obs_step_same; [|done..]. intros [h j] o. unfold observed. simpl.
    destruct (decide (s_nextAddr s = h)) as [<-|Hne]; [by rewrite lookup_insert_eq|by rewrite lookup_insert_ne]. }
  destruct (addWorker w s) as [[s1 h] ses]. cbn [fst] in *.
  apply obs_step_capacity. destruct (trySend _ h s1) as [s2|] eqn:E; [|done].
  eapply obs_step_trans; [by eapply ginv_open_lt|exact A|]. by apply (obs_step_trySend X) in E.
Qed.

Lemma gate_fleet now key job s :
  s_heap (gate now key job s).1 = s_heap s ∧ s_chans (gate now key job s).1 = s_chans s.
Proof.
  unfold gate. destruct (Job_Validate job); [done|]. destruct (Authorize _ _ _) as [r [e|]]; [done|].
  by destruct (CheckAndReserve _ _ _) as [[q e] lg].
Qed.

Lemma obs_step_fleet X s s' : s_heap s' = s_heap s → s_chans s' = s_chans s → obs_step X s s'.
Proof. intros E1 E2. apply obs_step_heap; by rewrite ?E1, ?E2. Qed.

Lemma obs_step_stream X k key job s : obs_step X s (SubmitAuthorizedJobStream k key job s).1.
Proof.
  unfold SubmitAuthorizedJobStream. destruct (gate_fleet (k_gate k) key job s) as [E1 E2].
  destruct (gate (k_gate k) key job s) as [s1 [e|]]; cbn [fst] in *; [by apply obs_step_fleet|].
  destruct (sessionDispatchHints _ _ _ _) as [pref ka].
  destruct (pickWorker _ _ _ _ s1) as [h|]; [|destruct (negb _); by apply obs_step_fleet].
  destruct (s_heap s1 !! h) as [w|] eqn:Hw; [|by apply obs_step_fleet].
  destruct (recordAffinity_fleet (k_bind k) (Job_set_KeepAliveSeconds ka job) (APIKey_ID key) (w_id w) pref s1) as [F1 F2].
  set (s2 := recordAffinity _ _ _ _ _ s1) in *. rewrite E1 in *. rewrite E2 in *. simpl. split; simpl; rewrite ?F2; simpl.
  - lia.
  - intros [h' j] o. unfold observed. simpl. rewrite F1. destruct (decide (h = h')) as [<-|Hne].
    + rewrite lookup_insert_eq. simpl. rewrite lookup_insert_Some. intros [[_ <-]|[_ H]]; [right; lia|left].
      by rewrite Hw.
    + rewrite lookup_insert_ne by done. by left.
  - intros o (t & b & E) _. unfold open_obs. simpl.
    destruct (decide (c_next (s_chans s) = o)) as [<-|Hne].
    + rewrite lookup_insert_eq. by eauto.
    + rewrite lookup_insert_ne by done. by eauto.
Qed.

(** The streams whose observers an event may close. *)
Definition closes (e : event) (h : nat) : Prop :=
  match e with
  | EMessage _ h' _ | EConnEnd h' => h = h'
  | EEvict _ | EReap _ _ => True
  | _ => False
  end.

Lemma mstep_obs tag e m m' : ginv tag (m_s m) → mstep e m = Some m' → obs_step (closes e) (m_s m) (m_s m').
Proof.
  intros G. unfold mstep. rewrite (proj1 (g_safe _ _ G)). destruct e; cbn [closes].
  - intros [= <-]. by apply (obs_step_connect _ tag).
  - destruct (m_readers m !! h); [done|].
    pose proof (obs_step_message tag (λ h', h' = h) now h msg (m_s m) G eq_refl) as A.
    destruct (reader_message now h msg (m_s m)). by intros [= <-].
  - destruct (m_readers m !! h) as [r|]; [|done]. intros [= <-]. apply obs_step_finish.
  - intros [= <-]. by apply obs_step_silent.
  - destruct (m_readers m !! h); [done|]. intros [= <-]. by apply (obs_step_end tag).
  - intros [= <-]. by apply (obs_step_stale tag).
  - intros [= <-]. simpl. unfold DrainWorkerWithDeadline. destruct (s_workers (m_s m) !! id) as [h|]; [|by apply obs_step_heap].
    unfold markDrainingAt. destruct (s_heap (m_s m) !! h) as [w|] eqn:Hw; destruct (deadline <=? 0);
      first [by eapply obs_step_worker|by apply obs_step_heap].
  - intros [= <-]. simpl. unfold reapDrainedWorker. destruct ev; [by apply obs_step_heap|by apply (obs_step_force tag)|].
    repeat case_match; first [by apply (obs_step_force tag)|by apply obs_step_heap].
  - intros [= <-]. apply obs_step_read.
  - intros [= <-]. apply obs_step_silent. intros w. simpl. split; [apply delete_subseteq|done].
  - intros [= <-]. simpl. unfold SetHeartbeatTimeout. destruct (d <=? 0); by apply obs_step_heap.
  - intros [= <-]. by apply obs_step_heap.
  - intros H. rewrite (spawn_server _ _ _ _ _ H). by apply obs_step_heap.
  - destruct (gate_fleet now key job (m_s m)) as [E1 E2].
    destruct (gate now key job (m_s m)) as [s' [e|]]; intros H; rewrite (spawn_server _ _ _ _ _ H);
      by apply obs_step_fleet.
  - pose proof (obs_step_stream (λ _, False) k key job (m_s m)) as A.
    destruct (SubmitAuthorizedJobStream k key job (m_s m)) as [s' [[[h o] job']|e]]; intros H;
      by rewrite (spawn_server _ _ _ _ _ H).
  - destruct (m_tasks m !! t) as [x|]; [|done]. apply task_step_obs.
  - apply loop_step_obs.
  - apply loop_wake_obs.
  - intros [= <-]. by apply obs_step_heap.
  - intros [= <-]. by apply obs_step_heap.
  - destruct (m_loop m); try done. destruct (Queue_closed _); [|done]. intros [= <-]. simpl.
    assert (E : ∀ err l c, c_obs (fail_results err l c) = c_obs c ∧ c_next (fail_results err l c) = c_next c).
    { intros err l. induction l as [|[i ch] l IH]; intros c; [done|]. cbn [fail_results fold_left].
      set (c1 := send_res ch _ c). fold (fail_results err l c1). destruct (IH c1) as [-> ->]. apply send_res_obs. }
    destruct (E shutdownErr (map_to_list (s_waiters (m_s m))) (s_chans (m_s m))) as [E1 E2].
    apply obs_step_heap; [done|exact E1|]. simpl. by rewrite E2.
Qed.

(** *** The reader between its two halves *)

Lemma spawn_readers t x s m m' : spawn t x s m = Some m' → m_readers m' = m_readers m.
Proof. unfold spawn. destruct (m_tasks m !! t); [done|]. by intros [= <-]. Qed.
Lemma task_step_readers t x k d tk m m' : task_step t x k d tk m = Some m' → m_readers m' = m_readers m.
Proof.
  unfold task_step. intros H. destruct (t_pc x); [|..|done];
    repeat (first [case_match|progress simplify_eq/=]); done.
Qed.
Lemma loop_step_readers k tk m m' : loop_step k tk m = Some m' → m_readers m' = m_readers m.
Proof. unfold loop_step. intros H. destruct (m_loop m); repeat (first [case_match|progress simplify_eq/=]); done. Qed.
Lemma loop_wake_readers w m m' : loop_wake w m = Some m' → m_readers m' = m_readers m.
Proof. unfold loop_wake. intros H. by repeat case_match; simplify_eq. Qed.

(** A reader in the middle of a chunk was there before, and is neither reading
    another message nor ending its stream, or has just read the chunk. *)
Lemma mstep_reader e m m' h r :
  mstep e m = Some m' → m_readers m' !! h = Some r →
  (m_readers m !! h = Some r ∧ (closes e h → evicts e = true)) ∨
  (∃ now p, e = EMessage now h (WChunk p) ∧
     reader_message now h (WChunk p) (m_s m) = (m_s m', Some r)).
Proof.
  unfold mstep. destruct (c_panic _); [done|].
  assert (Hsame : m_readers m' = m_readers m → m_readers m' !! h = Some r → m_readers m !! h = Some r) by (by intros ->).
  destruct e; intros H Hr; cbn [closes evicts].
  2: { destruct (m_readers m !! h0) eqn:E0; [done|]. destruct (reader_message now h0 msg (m_s m)) as [s' [r'|]] eqn:Em;
         injection H as <-; cbn [with_reader m_readers m_s] in *.
       - destruct (decide (h0 = h)) as [->|Hne].
         + rewrite lookup_insert_eq in Hr. simplify_eq. right. exists now.
           destruct msg as [| | |p| |]; try done. exists p. by rewrite Em.
         + rewrite lookup_insert_ne in Hr by done. left. split; [done|]. congruence.
       - left. split; [done|]. intros ->. congruence. }
  2: { destruct (m_readers m !! h0); [|done]. injection H as <-. simpl in Hr.
       apply lookup_delete_Some in Hr as [_ Hr]. by left. }
  all: left; split; try done.
  all: try (apply Hsame; [|done]; by simplify_eq).
  - destruct (m_readers m !! h0); [done|]. by injection H as <-.
  - intros ->. destruct (m_readers m !! h0) eqn:E; [done|]. injection H as <-. simpl in Hr. congruence.
  - apply Hsame; [|done]. by eapply spawn_readers.
  - apply Hsame; [|done]. destruct (gate _ _ _ _) as [s' [e|]]; by eapply spawn_readers.
  - apply Hsame; [|done]. destruct (SubmitAuthorizedJobStream _ _ _ _) as [s' [[[h1 o] job']|e]];
      by eapply spawn_readers.
  - apply Hsame; [|done]. destruct (m_tasks m !! t); [|done]. by eapply task_step_readers.
  - apply Hsame; [|done]. by eapply loop_step_readers.
  - apply Hsame; [|done]. by eapply loop_wake_readers.
  - apply Hsame; [|done]. destruct (m_loop m); try done. destruct (Queue_closed _); by simplify_eq.
Qed.

(** Where a pending delta came from: its message, after which its observer's
    channel, which only its own stream holds, is open unless an eviction came. *)
Definition trail (evs : list event) m : Prop :=
  ∀ h o chunk, m_readers m !! h = Some (RForward (Some o) chunk) →
    (∀ h' j, observed (m_s m) (h', j) = Some o → h' = h) ∧ (o < c_next (s_chans (m_s m)))%nat ∧
    ∃ a now p b, evs = a ++ EMessage now h (WChunk p) :: b ∧ (open_obs (m_s m) o ∨ existsb evicts b = true).

(** A delta just read: its observer is registered, so its channel is open. *)
Lemma message_trail tag now h p s s' o chunk :
  ginv tag s → reader_message now h (WChunk p) s = (s', Some (RForward (Some o) chunk)) →
  (∀ h' j, observed s' (h', j) = Some o → h' = h) ∧ (o < c_next (s_chans s'))%nat ∧ open_obs s' o.
Proof.
  intros G. cbn [reader_message]. destruct (s_heap s !! h) as [w|] eqn:Hw; [|done].
  unfold accumulate_start. destruct (negb _); [|done]. cbn [accumulate_delta]. intros [= <- Ho _].
  set (id := JobChunk_JobID _) in *.
  assert (Hob : observed s (h, id) = Some o) by by rewrite (observed_at s h id w).
  destruct (g_obs _ _ G _ _ Hob) as (t & b & E). split; [|split].
  - intros h' j H. eapply observed_insert in H; [|done|done]. by assert ((h', j) = (h, id)) as [= ->] by by eapply g_obs_inj.
  - simpl. apply (ginv_open_lt tag s G). by exists t, b.
  - by exists t, b.
Qed.

Lemma trail_step tag evs e m m' :
  ginv tag (m_s m) → trail evs m → mstep e m = Some m' → trail (evs ++ [e]) m'.
Proof.
  intros G T H h o chunk Hr. destruct (mstep_reader e m m' h _ H Hr) as [[Hold Hcl]|(now & p & -> & Em)].
  - destruct (T h o chunk Hold) as (Hown & Hlt & a & now & p & b & -> & Hst).
    destruct (mstep_obs tag e m m' G H) as [A1 A2 A3]. split; [|split].
    + intros h' j Ho. destruct (A2 _ _ Ho) as [Ho'|?]; [by eapply Hown|lia].
    + lia.
    + exists a, now, p, (b ++ [e]). split; [by rewrite <- app_assoc|]. rewrite existsb_app. simpl.
      destruct Hst as [Hop|Hev]; [|right; by rewrite Hev].
      destruct (evicts e) eqn:Ee; [right; by rewrite !orb_true_r|left].
      apply A3; [done|]. intros [h' j] Ho Hc. simpl in Hc. rewrite (Hown h' j Ho) in Hc. by apply Hcl in Hc.
  - destruct (message_trail tag now h p (m_s m) (m_s m') o chunk G Em) as (H1 & H2 & H3).
    split; [done|]. split; [done|]. exists evs, now, p, []. by auto.
Qed.

Lemma run_trail evs cs hb warm mgr q depth m :
  run evs (m_init (start cs hb warm mgr q depth : server)) = Some m → c_panic (s_chans (m_s m)) = false → trail evs m.
Proof.
  revert m. induction evs as [|e evs IH] using rev_ind; intros m H Hp.
  { injection H as <-. intros h o chunk. simpl. by rewrite lookup_empty. }
  rewrite run_app in H. destruct (run evs _) as [m1|] eqn:E1; [|done]. simpl in H.
  destruct (mstep e m1) as [m2|] eqn:E2; [|done]. injection H as ->.
  assert (Hp1 : c_panic (s_chans (m_s m1)) = false) by (unfold mstep in E2; by destruct (c_panic _)).
  pose proof E1 as E1'. apply (reachable_minv False) in E1' as (tag & m0 & I & [->|[rs ->]]); [..|done]; [|done].
  eapply trail_step; [apply (i_g _ _ _ I)| |done]. by apply IH.
Qed.
End panic.

(** ** The property *)

Section properties.
Context {CS SS : Type} `{!CounterStore CS} `{!SessionStore SS}.
Notation server := (Server CS SS).

(** C10: In every run of the server, with calls (their job ids distinct or not),
    worker streams, evictions, drains and shutdown interleaved, no delivery of a
    result blocks, the registry only ever names allocated workers under their own
    ids, and nothing panics on a channel but for one case: a delta chunk was read
    from a stream, an eviction of the eviction loop or of a reaper came before
    the chunk was handed to its observer, and then it was. *)
Theorem server_run_safe evs cs hb warm mgr q depth m :
  run evs (m_init (start cs hb warm mgr q depth : server)) = Some m →
  c_stuck (s_chans (m_s m)) = false ∧ swf (m_s m) ∧
  (c_panic (s_chans (m_s m)) = true →
   ∃ a now h p b, evs = a ++ EMessage now h (WChunk p) :: b ++ [EReader h] ∧ existsb evicts b = true).
Proof.
  intros H. split; [|split].
  - apply (reachable_minv False) in H as (tag & m0 & I & Hm); [|done].
    destruct (g_safe _ _ (i_g _ _ _ I)) as [_ S]. by destruct Hm as [->|[rs ->]].
  - apply (reachable_minv False) in H as (tag & m0 & I & Hm); [|done].
    destruct (g_swf _ _ (i_g _ _ _ I)) as [W1 W2]. by destruct Hm as [->|[rs ->]].
  - intros Hp. destruct (run_minv False evs ∅ _ m (start_minv False cs hb warm mgr q depth)) as [[tag I]|C]; [done|done|..].
    { destruct (g_safe _ _ (i_g _ _ _ I)) as [S _]. congruence. }
    destruct C as (evs' & e & tag & m0 & -> & Hr & I & (h & r & -> & Er & (o & chunk & x & -> & Eo & Hc) & _)).
    assert (T : trail evs' m0) by (eapply run_trail; [done|apply (g_safe _ _ (i_g _ _ _ I))]).
    destruct (T h o chunk Er) as (_ & _ & a & now & p & b & -> & [(t & bf & E)|Hb]).
    + rewrite E in Eo. by simplify_eq.
    + exists a, now, h, p, b. split; [by rewrite <- app_assoc|done].
Qed.
End properties.

(** ** Witnesses *)

#[local] Instance panic_sess : SessionStore MemorySessionStore := MSS_SessionStore demo_sessions demo_sessions_ok.

Lemma server_run_safe_witness :
  c_stuck (s_chans (m_s (demo_at (demo_queued ++ demo_placed)))) = false ∧ swf (m_s (demo_at (demo_queued ++ demo_placed))).
Proof.
  destruct (server_run_safe (demo_queued ++ demo_placed) NewMemoryCounterStore 0 0 None None 0
    (demo_at (demo_queued ++ demo_placed))) as (H1 & H2 & _).
  - demo_runs.
  - by split.
Defined.

(** The panic: a streamed job's delta is read, the worker is found stale and evicted,
    and then the reader hands the delta on. *)
Definition demo_race : list event :=
  [EConnect ex_time (WRegister "w1" demo_models);
   EStream 1 demo_clk (ex_key [RoleUser] ["m"] (mkLimits 5 0 0 0)) (demo_job "j1");
   EMessage ex_time 0 (WChunk (JobChunk_Proto (ex_delta "j1" "t"))); EEvict (ex_time + Hour); EReader 0].
Theorem late_chunk_panics : c_panic (s_chans (m_s (demo_at demo_race))) = true.
Proof. vm_compute. done. Qed.
