(* ===== verification/ServerReplies.v ===== *)
(** * ServerReplies.v: where a call's result comes from

    Over every run of file ServerRun, whatever the job ids: a call that returns
    without an error returns what a worker said, on a stream on which the server
    had a job with the call's id pending at that moment: a result message as it
    was sent, or the deltas of that id and stream put together with the terminal
    chunk. *)

From S2P Require Import Prelude Errors GoTime Types GoHeap Store Authz Queue Scheduler Quota History Session ServerWorker Server ServerRun ServerProps.
Open Scope Z_scope.

(** ** What a stream has said *)

(** The delta an event brings for job [id] on stream [h]. *)
Definition delta_of (h : nat) (id : string) (e : event) : option string :=
  match e with
  | EMessage _ h' (WChunk p) =>
      let chunk := JobChunkFromProto p in
      if Nat.eqb h' h && String.eqb (JobChunk_JobID chunk) id && negb (JobChunk_Done chunk)
      then Some (JobChunk_Delta chunk) else None
  | _ => None
  end.
Definition deltas (h : nat) (id : string) (evs : list event) : list string := omap (delta_of h id) evs.
Definition text (l : list string) : string := foldr String.append "" l.

(** The last of the deltas so far. *)
Definition recent (evs : list event) (h : nat) (id b : string) : Prop :=
  ∃ pre seg, deltas h id evs = pre ++ seg ∧ b = text seg.

(** A terminal chunk of stream [h] whose result is [r]. *)
Definition spoken (evs : list event) (h : nat) (r : JobResult) : Prop :=
  ∃ a now p b out, evs = a ++ EMessage now h (WChunk p) :: b ∧
    let chunk := JobChunkFromProto p in
    JobChunk_Done chunk = true ∧ recent a h (JobChunk_JobID chunk) out ∧
    r = result_of chunk (out +:+ JobChunk_Delta chunk).

Lemma deltas_snoc h id evs e : deltas h id (evs ++ [e]) = deltas h id evs ++ option_list (delta_of h id e).
Proof. unfold deltas. rewrite omap_app. simpl. by destruct (delta_of h id e). Qed.

Lemma text_snoc l x : text (l ++ [x]) = text l +:+ x.
Proof. induction l as [|y l IH]; simpl; [by rewrite string_app_nil_r|]. by rewrite IH, string_app_assoc. Qed.

Lemma recent_nil evs h id : recent evs h id "".
Proof. exists (deltas h id evs), []. by rewrite app_nil_r. Qed.

Lemma recent_quiet evs h id b e : delta_of h id e = None → recent evs h id b → recent (evs ++ [e]) h id b.
Proof. intros E (pre & seg & H & ->). exists pre, seg. by rewrite deltas_snoc, E, app_nil_r. Qed.

Lemma recent_delta evs h id b e x :
  delta_of h id e = Some x → recent evs h id b → recent (evs ++ [e]) h id (b +:+ x).
Proof.
  intros E (pre & seg & H & ->). exists pre, (seg ++ [x]). rewrite deltas_snoc, E, H, text_snoc. simpl.
  by rewrite <- app_assoc.
Qed.

Lemma spoken_mono evs e h r : spoken evs h r → spoken (evs ++ [e]) h r.
Proof.
  intros (a & now & p & b & out & -> & H). exists a, now, p, (b ++ [e]), out. by rewrite <- app_assoc.
Qed.

(** ** What a step writes *)

Section replies.
Context {CS SS : Type} `{!CounterStore CS} `{!SessionStore SS}.
Notation server := (Server CS SS).
Notation mstate := (mstate CS SS).
Implicit Type s : server.
Implicit Type m : mstate.

(** Results delivered are errors or satisfy [Q]; no output buffer is written. *)
Definition writes (Q : JobResult → Prop) (c c' : chans) : Prop :=
  ∀ ch r, c_res c' !! ch = Some [r] → c_res c !! ch = Some [r] ∨ JobResult_Err r ≠ None ∨ Q r.
Definition keeps_streams (heap heap' : gmap nat worker) : Prop :=
  ∀ h w', heap' !! h = Some w' → w_streams w' = ∅ ∨ ∃ w, heap !! h = Some w ∧ w_streams w' = w_streams w.
Record says (Q : JobResult → Prop) s s' : Prop := {
  sy_res : writes Q (s_chans s) (s_chans s');
  sy_streams : keeps_streams (s_heap s) (s_heap s') }.

#[local] Instance keeps_streams_refl : Reflexive keeps_streams.
Proof. intros heap h w H. right. by exists w. Qed.
#[local] Instance says_refl Q : Reflexive (says Q).
Proof. split; [by intros ch r; left|reflexivity]. Qed.
#[local] Instance says_trans Q : Transitive (says Q).
Proof.
  intros s1 s2 s3 [A1 A2] [B1 B2]. split.
  - intros ch r H. destruct (B1 ch r H) as [H2|?]; [by apply A1|by right].
  - intros h w' H. destruct (B2 h w' H) as [?|(w & Hw & ->)]; [by left|]. by apply A2.
Qed.

Lemma says_fleet Q s s' : s_heap s' = s_heap s → c_res (s_chans s') = c_res (s_chans s) → says Q s s'.
Proof. intros E1 E2. split; [intros ch r; rewrite E2; by left|by rewrite E1]. Qed.

Lemma keeps_streams_insert (heap : gmap nat worker) h w w' :
  heap !! h = Some w → w_streams w' = w_streams w ∨ w_streams w' = ∅ → keeps_streams heap (<[h := w']> heap).
Proof.
  intros Hw Hs h' w1 [[<- <-]|[_ H]]%lookup_insert_Some; [|right; by exists w1].
  destruct Hs as [->| ->]; [right; by exists w|by left].
Qed.

Lemma says_worker Q s h w w' c :
  s_heap s !! h = Some w → w_streams w' = w_streams w ∨ w_streams w' = ∅ → writes Q (s_chans s) c →
  says Q s (set_worker h w' c s).
Proof. intros Hw Hs Hc. split; [done|]. by eapply keeps_streams_insert. Qed.

Lemma says_on_worker Q s h f :
  (∀ w, s_heap s !! h = Some w → (w_streams (f w (s_chans s)).1 = w_streams w ∨ w_streams (f w (s_chans s)).1 = ∅) ∧
     writes Q (s_chans s) (f w (s_chans s)).2) → says Q s (on_worker h f s).
Proof.
  intros Hf. unfold on_worker. destruct (s_heap s !! h) as [w|] eqn:Hw; [|reflexivity].
  destruct (Hf w eq_refl) as [H1 H2]. destruct (f w (s_chans s)) as [w' c']. by eapply says_worker.
Qed.

Lemma writes_refl Q c : writes Q c c.
Proof. intros ch r. by left. Qed.
Lemma writes_send (Q : JobResult → Prop) ch r c : JobResult_Err r ≠ None ∨ Q r → writes Q c (send_res ch r c).
Proof.
  intros Hr k r'. unfold send_res. destruct (c_res c !! ch) as [[|? ?]|]; simpl; auto.
  rewrite lookup_insert_Some. intros [[_ [= <-]]|[_ H]]; auto.
Qed.
Lemma writes_trans Q c1 c2 c3 : writes Q c1 c2 → writes Q c2 c3 → writes Q c1 c3.
Proof. intros A B ch r H. destruct (B ch r H) as [?|?]; [by apply A|by right]. Qed.
Lemma writes_fail Q err l c : writes Q c (fail_results err l c).
Proof.
  revert c. induction l as [|[i ch] l IH]; intros c; [apply writes_refl|]. cbn [fail_results fold_left].
  set (c1 := send_res ch _ c). fold (fail_results err l c1). eapply writes_trans; [|apply IH]. apply writes_send. by left.
Qed.
Lemma writes_same (Q : JobResult → Prop) c c' : c_res c' = c_res c → writes Q c c'.
Proof. intros E ch r. rewrite E. by left. Qed.
Lemma writes_empty (Q : JobResult → Prop) c c' n : c_res c' = <[n := []]> (c_res c) → writes Q c c'.
Proof. intros E ch r. rewrite E, lookup_insert_Some. intros [[_ [=]]|[_ H]]. by left. Qed.

Lemma says_capacity Q s s' b : says Q s s' → says Q s (set_capacity b s').
Proof. intros [A1 A2]. by split. Qed.

Lemma says_evict Q s h err : says Q s (evictWorker h err s).
Proof.
  unfold evictWorker. destruct (s_heap s !! h) as [w|] eqn:Hw; [|reflexivity]. simpl. split; simpl.
  - intros ch r. rewrite (proj2 (fail_observers_dom _ _ _)). apply writes_fail.
  - eapply keeps_streams_insert; [done|]. by right.
Qed.

Lemma says_resolve (Q : JobResult → Prop) s h r :
  (∀ w ch, s_heap s !! h = Some w → w_pending w !! JobResult_JobID r = Some ch → Q r) →
  says Q s (on_worker h (resolve r) s).
Proof.
  intros Hq. apply says_on_worker. intros w Hw. unfold resolve.
  destruct (w_pending w !! JobResult_JobID r) as [ch|] eqn:E; simpl; split; auto using writes_refl.
  apply writes_send. right. by eapply Hq.
Qed.

Lemma says_resolveWaiter (Q : JobResult → Prop) s r :
  JobResult_Err r ≠ None ∨ Q r → says Q s (resolveWaiter r s).1.
Proof.
  intros Hr. unfold resolveWaiter. destruct (s_waiters s !! _) as [ch|]; [|reflexivity].
  split; [by apply writes_send|reflexivity].
Qed.

Lemma says_trySend Q msg h s s' : trySend msg h s = Some s' → says Q s s'.
Proof.
  unfold trySend. destruct (s_heap s !! h) as [w|] eqn:Hw; [|done]. case_match; [|done]. intros [= <-].
  eapply says_worker; [done|by left|apply writes_refl].
Qed.

Lemma says_abort Q j h s : says Q s (dispatch_abort j h s).
Proof.
  unfold dispatch_abort. destruct (s_heap s !! h) as [w|] eqn:Hw; [|reflexivity].
  eapply says_worker; [done|by left|apply writes_refl].
Qed.

Lemma says_begin Q j h s : says Q s (dispatch_begin j h s).1.
Proof.
  unfold dispatch_begin. destruct (s_heap s !! h) as [w|] eqn:Hw; [|reflexivity].
  simpl. eapply says_worker; [done|by left|by eapply writes_empty].
Qed.

Lemma says_send Q d k job h s s' e : dispatch_send d k job h s = Some (s', e) → says Q s s'.
Proof.
  unfold dispatch_send, sendOrDone. intros H.
  destruct (d && k); [simplify_eq; apply says_abort|].
  destruct (trySend _ h s) as [s1|] eqn:E; [simplify_eq; by eapply says_trySend|].
  destruct d; simplify_eq. apply says_abort.
Qed.

Lemma says_affinity Q now job key chosen pref s : says Q s (recordAffinity now job key chosen pref s).
Proof. apply says_fleet; unfold recordAffinity; by repeat case_match. Qed.

Lemma says_gate Q now key job s : says Q s (gate now key job s).1.
Proof.
  apply says_fleet; unfold gate; destruct (Job_Validate job); try done; destruct (Authorize _ _ _) as [r [e|]];
    try done; by destruct (CheckAndReserve _ _ _) as [[q e] lg].
Qed.

Lemma says_stream Q k key job s : says Q s (SubmitAuthorizedJobStream k key job s).1.
Proof.
  unfold SubmitAuthorizedJobStream. pose proof (says_gate Q (k_gate k) key job s) as A.
  destruct (gate (k_gate k) key job s) as [s1 [e|]]; cbn [fst] in *; [done|].
  destruct (sessionDispatchHints _ _ _ _) as [pref ka].
  destruct (pickWorker _ _ _ _ s1) as [h|]; [|by destruct (negb _)].
  destruct (s_heap s1 !! h) as [w|] eqn:Hw; [|done]. etrans; [exact A|].
  set (job' := Job_set_KeepAliveSeconds ka job). set (s2 := recordAffinity _ _ _ _ _ s1).
  assert (A2 : says Q s1 s2) by apply says_affinity. etrans; [exact A2|]. simpl.
  assert (Hw2 : s_heap s2 !! h = Some w) by (subst s2; unfold recordAffinity; by repeat case_match).
  eapply says_worker; [done|by left|by apply writes_same].
Qed.

Lemma says_connect Q now msg s : says Q s (connect_first now msg s).1.
Proof.
  destruct msg as [id ms|hb|r|p| |]; cbn [connect_first fst]; try reflexivity.
  destruct (String.eqb id ""); [reflexivity|]. set (w := newWorker _ _ _).
  assert (A : says Q s (addWorker w s).1.1).
  { split; [apply writes_refl|]. intros h w'. cbn [addWorker fst s_heap].
    rewrite lookup_insert_Some. intros [[<- <-]|[_ H]]; [by left|right; by exists w']. }
  destruct (addWorker w s) as [[s1 h] ses]. cbn [fst] in *. apply says_capacity.
  destruct (trySend _ h s1) as [s2|] eqn:E; [|done]. etrans; [exact A|]. by eapply says_trySend.
Qed.

Lemma says_force Q s h : says Q s (forceEvictWorker h s).
Proof.
  unfold forceEvictWorker. etrans; [apply (says_evict Q s h evictedErr)|].
  destruct (s_heap (evictWorker h evictedErr s) !! h) as [w|] eqn:Hw; [|reflexivity].
  eapply says_worker; [done|by left|apply writes_refl].
Qed.

Lemma says_end Q s h : says Q s (connect_end h s).
Proof.
  etrans; [apply (says_evict Q s h disconnectedErr)|]. apply says_on_worker. intros w _. simpl.
  split; [by left|apply writes_refl].
Qed.

Lemma says_stale Q now s : says Q s (evictStale now s).
Proof.
  unfold evictStale. generalize (filter (λ h, match s_heap s !! h with
    | Some w => isStale now (s_heartbeatTimeout s) w | None => false end = true) (registered s)).
  intros l. revert s. induction l as [|h l IH]; intros s; [reflexivity|]. cbn [fold_left].
  etrans; [apply (says_evict Q s h staleErr)|apply IH].
Qed.

Lemma says_drain Q h s : says Q s (markDrainingAt h s).
Proof.
  unfold markDrainingAt. destruct (s_heap s !! h) as [w|] eqn:Hw; [|reflexivity].
  eapply says_worker; [done|by left|apply writes_refl].
Qed.

(** ** Where results come from *)

(** The result [r] reached the server on stream [h] while the server had a job with
    its id pending there. *)
Definition delivered (i : mstate) (evs : list event) (r : JobResult) : Prop :=
  ∃ a e b m h w ch, evs = a ++ e :: b ∧ run a i = Some m ∧
    s_heap (m_s m) !! h = Some w ∧ w_pending w !! JobResult_JobID r = Some ch ∧
    ((∃ now p, e = EMessage now h (WResult p) ∧ r = JobResultFromProto p) ∨ (e = EReader h ∧ spoken a h r)).

Lemma delivered_mono i evs e r : delivered i evs r → delivered i (evs ++ [e]) r.
Proof.
  intros (a & e' & b & m & h & w & ch & -> & H). exists a, e', (b ++ [e]), m, h, w, ch. by rewrite <- app_assoc.
Qed.

Record heard (i : mstate) (evs : list event) m : Prop := {
  h_res : ∀ ch r, c_res (s_chans (m_s m)) !! ch = Some [r] → JobResult_Err r = None → delivered i evs r;
  h_loop : ∀ it h pref res, m_loop m = LFinish it h pref res None → delivered i evs res;
  h_done : ∀ t x res, m_tasks m !! t = Some x → t_pc x = TDone res None → delivered i evs res;
  h_reader : ∀ h r, m_readers m !! h = Some (RResolve r) → spoken evs h r;
  h_streams : ∀ h w id b, s_heap (m_s m) !! h = Some w → w_streams w !! id = Some b → recent evs h id b }.

(** The server's part of a step that reads no chunk. *)
Lemma says_heard i evs e s s' :
  (∀ ch r, c_res (s_chans s) !! ch = Some [r] → JobResult_Err r = None → delivered i evs r) →
  (∀ h w id b, s_heap s !! h = Some w → w_streams w !! id = Some b → recent evs h id b) →
  (∀ h id, delta_of h id e = None) → says (delivered i (evs ++ [e])) s s' →
  (∀ ch r, c_res (s_chans s') !! ch = Some [r] → JobResult_Err r = None → delivered i (evs ++ [e]) r) ∧
  (∀ h w id b, s_heap s' !! h = Some w → w_streams w !! id = Some b → recent (evs ++ [e]) h id b).
Proof.
  intros Hr Hs He [A1 A2]. split.
  - intros ch r H Hn. destruct (A1 ch r H) as [H0|[?|?]]; [|done|done]. apply delivered_mono. by eapply Hr.
  - intros h w' id b Hw Hb. apply recent_quiet; [done|]. destruct (A2 h w' Hw) as [E|(w & Hw0 & E)].
    + by rewrite E, lookup_empty in Hb.
    + rewrite E in Hb. by eapply Hs.
Qed.

(** ... and the whole of one that moves no call and no reader. *)
Lemma heard_keep i evs e m s' :
  heard i evs m → (∀ h id, delta_of h id e = None) → says (delivered i (evs ++ [e])) (m_s m) s' →
  heard i (evs ++ [e]) (with_s s' m).
Proof.
  intros [A1 A2 A3 A4 A5] He Hs. destruct (says_heard i evs e (m_s m) s' A1 A5 He Hs) as [B1 B2].
  split; simpl; eauto using delivered_mono, spoken_mono.
Qed.

Lemma heard_task i evs e m t x s' pc :
  heard i evs m → (∀ h id, delta_of h id e = None) → says (delivered i (evs ++ [e])) (m_s m) s' →
  (∀ res, pc = TDone res None → delivered i (evs ++ [e]) res) →
  heard i (evs ++ [e]) (with_task t s' x pc m).
Proof.
  intros H He Hs Hpc. destruct (heard_keep i evs e m s' H He Hs) as [B1 B2 B3 B4 B5].
  split; simpl in *; try done. intros t' x' res [[<- <-]|[_ Hx]]%lookup_insert_Some; [apply Hpc|by eapply B3].
Qed.

Lemma heard_loop i evs e m s' l :
  heard i evs m → (∀ h id, delta_of h id e = None) → says (delivered i (evs ++ [e])) (m_s m) s' →
  (∀ it h pref res, l = LFinish it h pref res None → delivered i (evs ++ [e]) res) →
  heard i (evs ++ [e]) (with_loop s' l m).
Proof. intros H He Hs Hl. by destruct (heard_keep i evs e m s' H He Hs) as [B1 B2 B3 B4 B5]. Qed.

Lemma heard_spawn i evs e m t x s' m' :
  heard i evs m → (∀ h id, delta_of h id e = None) → says (delivered i (evs ++ [e])) (m_s m) s' →
  (∀ res, t_pc x ≠ TDone res None) → spawn t x s' m = Some m' → heard i (evs ++ [e]) m'.
Proof.
  intros H He Hs Hpc. destruct (heard_keep i evs e m s' H He Hs) as [B1 B2 B3 B4 B5].
  unfold spawn. destruct (m_tasks m !! t); [done|]. intros [= <-]. split; simpl in *; try done.
  intros t' x' res [[<- <-]|[_ Hx]]%lookup_insert_Some E; [by apply Hpc in E|by eapply B3].
Qed.

(** A result taken from a channel. *)
Lemma heard_recv tag i evs e m ch r l :
  ginv tag (m_s m) → heard i evs m → c_res (s_chans (m_s m)) !! ch = Some (r :: l) → result_err r = None →
  delivered i (evs ++ [e]) r.
Proof.
  intros G H Hl Hr. destruct (g_val _ _ G _ _ Hl) as [?|(r' & [= -> ->] & _)]; [done|].
  apply delivered_mono. eapply (h_res _ _ _ H); [done|]. unfold result_err in Hr. by destruct (JobResult_Err r').
Qed.

Lemma task_step_heard tag i evs e m t x k d tk m' :
  ginv tag (m_s m) → heard i evs m → (∀ h id, delta_of h id e = None) → task_step t x k d tk m = Some m' →
  heard i (evs ++ [e]) m'.
Proof.
  intros G H He. unfold task_step.
  destruct (t_pc x) as [|h pref job|h ch pref job|h ch pref job|job|ch job|ch job|res err].
  - intros [= <-]. destruct (submit _ _ _ _); by apply heard_task.
  - pose proof (says_begin (delivered i (evs ++ [e])) (Job_ID job) h (m_s m)) as A.
    destruct (dispatch_begin (Job_ID job) h (m_s m)). intros [= <-]. by apply heard_task.
  - destruct (dispatch_send d tk job h (m_s m)) as [[s' [e'|]]|] eqn:E; intros [= <-];
      (apply heard_task; [done|done|by eapply says_send|done]).
  - destruct (dispatch_recv _ _ _ _ _ _) as [[[s' r] e']|] eqn:E; [|done].
    apply dispatch_recv_cases in E as [(-> & [l Hl] & ->)|(-> & -> & ->)].
    + destruct (result_err r) eqn:Er; intros [= <-]; (apply heard_task; [done|done| |]); try done.
      * destruct (t_stream x); [reflexivity|apply says_affinity].
      * intros res [= <-]. by eapply heard_recv.
    + intros [= <-]. apply heard_task; [done|done|apply says_abort|done].
  - intros [= <-]. apply heard_task; [done|done| |done]. split; [by eapply writes_empty|reflexivity].
  - unfold submit_enqueue. destruct (Enqueue _ _ _ _ _) as [q [e'|]]; intros [= <-];
      (apply heard_task; [done|done|by apply says_fleet|done]).
  - destruct (submit_wait _ _ _ _ _) as [[[s' r] e']|] eqn:E; [|done]. intros [= <-].
    apply submit_wait_cases in E as [(-> & [l Hl] & ->)|(-> & -> & ->)].
    + apply heard_task; [done|done|reflexivity|]. intros res [= <- Er]. by eapply heard_recv.
    + apply heard_task; [done|done|by apply says_fleet|done].
  - done.
Qed.

Lemma loop_step_heard tag i evs e m k tk m' :
  ginv tag (m_s m) → heard i evs m → (∀ h id, delta_of h id e = None) → loop_step k tk m = Some m' →
  heard i (evs ++ [e]) m'.
Proof.
  intros G H He. unfold loop_step.
  destruct (m_loop m) as [|it|it|it h pref|it h ch pref|it h ch pref|it h pref res err|] eqn:El.
  - destruct (Queue.Blocking.loop_body _ _) as [q [| | |[]]]; intros [= <-];
      (apply heard_loop; [done|done|by apply says_fleet|done]).
  - destruct (place_try _ _ _) as [[h pref]|]; intros [= <-]; by apply heard_loop.
  - done.
  - pose proof (says_begin (delivered i (evs ++ [e])) (Job_ID (Item_Job it)) h (m_s m)) as A.
    destruct (dispatch_begin _ h (m_s m)). intros [= <-]. by apply heard_loop.
  - destruct (dispatch_send _ _ _ _ _) as [[s' [e'|]]|] eqn:E; intros [= <-];
      (apply heard_loop; [done|done|by eapply says_send|done]).
  - destruct (dispatch_recv _ _ _ _ _ _) as [[[s' r] e']|] eqn:E; [|done]. intros [= <-].
    apply dispatch_recv_cases in E as [(-> & [l Hl] & ->)|(-> & -> & ->)].
    + apply heard_loop; [done|done|reflexivity|]. intros it' h' pref' res [= <- <- <- <- Er]. by eapply heard_recv.
    + apply heard_loop; [done|done|apply says_abort|done].
  - intros [= <-]. apply heard_loop; [done|done| |done]. unfold place_finish. destruct err as [e'|].
    + apply says_resolveWaiter. by left.
    + etrans; [apply says_affinity|]. etrans; [|apply says_resolveWaiter]; [by apply says_fleet|].
      right. apply delivered_mono. by eapply (h_loop _ _ _ H).
  - done.
Qed.

Lemma loop_wake_heard i evs e m w m' :
  heard i evs m → (∀ h id, delta_of h id e = None) → loop_wake w m = Some m' → heard i (evs ++ [e]) m'.
Proof.
  intros H He Hw. unfold loop_wake in Hw. destruct (m_loop m); try done.
  repeat case_match; simplify_eq; (apply heard_loop; [done|done| |done]).
  - apply says_resolveWaiter. by left.
  - by apply says_fleet.
  - reflexivity.
Qed.

(** A chunk is read: its buffer follows what the stream has said. *)
Lemma chunk_heard i evs now h p m w w' c r :
  heard i evs m → m_readers m !! h = None → s_heap (m_s m) !! h = Some w →
  accumulate_start (JobChunkFromProto p) w (s_chans (m_s m)) = (w', c, r) →
  heard i (evs ++ [EMessage now h (WChunk p)]) (with_reader (set_worker h w' c (m_s m)) (<[h := r]> (m_readers m)) m).
Proof.
  intros [A1 A2 A3 A4 A5] Hr Hw Hacc. set (chunk := JobChunkFromProto p) in *. set (e := EMessage now h (WChunk p)).
  assert (Hrest : ∀ h' id b, recent evs h' id b → (h' ≠ h ∨ id ≠ JobChunk_JobID chunk) → recent (evs ++ [e]) h' id b).
  { intros h' id b Hb Hne. apply recent_quiet; [|done]. simpl. fold chunk.
    destruct (Nat.eqb_spec h h'), (String.eqb_spec (JobChunk_JobID chunk) id); simpl; try done. naive_solver. }
  unfold accumulate_start, accumulate_delta, accumulate_done in Hacc.
  assert (Hout : recent evs h (JobChunk_JobID chunk) (default "" (w_streams w !! JobChunk_JobID chunk))).
  { destruct (w_streams w !! JobChunk_JobID chunk) as [b|] eqn:E; [by eapply A5|apply recent_nil]. }
  destruct (JobChunk_Done chunk) eqn:Ed; cbn [negb] in Hacc; injection Hacc as <- <- <-.
  - split; simpl; eauto using delivered_mono.
    + intros ch r H Hn. apply delivered_mono. eapply A1; [|done]. revert H.
      destruct (w_observers w !! _) as [o|]; [|done]. unfold close_obs, forwardChunk. by repeat case_match.
    + intros h' r [[<- [= <-]]|[_ H]]%lookup_insert_Some; [|by apply spoken_mono, A4].
      exists evs, now, p, [], (default "" (w_streams w !! JobChunk_JobID chunk)). by split_and!.
    + intros h' w0 id b [[<- <-]|[Hne H]]%lookup_insert_Some; simpl.
      * intros [Hne Hb]%lookup_delete_Some. apply Hrest; [by eapply A5|by right].
      * intros Hb. apply Hrest; [by eapply A5|]. left. by apply not_eq_sym.
  - split; simpl; eauto using delivered_mono.
    + intros h' r [[_ [=]]|[_ H]]%lookup_insert_Some. by apply spoken_mono, A4.
    + intros h' w0 id b [[<- <-]|[Hne H]]%lookup_insert_Some; simpl.
      * intros [[<- <-]|[Hne Hb]]%lookup_insert_Some; [|apply Hrest; [by eapply A5|by right]].
        apply recent_delta; [|done]. simpl. fold chunk. by rewrite Nat.eqb_refl, String.eqb_refl, Ed.
      * intros Hb. apply Hrest; [by eapply A5|]. left. by apply not_eq_sym.
Qed.

Lemma mstep_heard tag i evs e m m' :
  run evs i = Some m → ginv tag (m_s m) → heard i evs m → mstep e m = Some m' → heard i (evs ++ [e]) m'.
Proof.
  intros Hrun G H. unfold mstep. rewrite (proj1 (g_safe _ _ G)).
  assert (HK : ∀ e s', (∀ h id, delta_of h id e = None) → says (delivered i (evs ++ [e])) (m_s m) s' →
    heard i (evs ++ [e]) (with_s s' m)) by (intros; by apply heard_keep).
  destruct e.
  - intros [= <-]. apply HK; [done|apply says_connect].
  - destruct (m_readers m !! h) eqn:Er; [done|]. destruct msg as [id ms|hb|r|p| |]; cbn [reader_message connect_message fst].
    + intros [= <-]. by apply HK.
    + intros [= <-]. apply HK; [done|]. apply says_capacity, says_on_worker. intros w _. split; [by left|apply writes_refl].
    + intros [= <-]. apply HK; [done|]. apply says_capacity, says_resolve. intros w ch Hw Hp.
      exists evs, (EMessage now h (WResult r)), [], m, h, w, ch. do 4 (split; [done|]). left. by exists now, r.
    + destruct (s_heap (m_s m) !! h) as [w|] eqn:Hw.
      * destruct (accumulate_start _ w _) as [[w' c] r] eqn:Ea. intros [= <-]. by eapply chunk_heard.
      * intros [= <-]. destruct H as [A1 A2 A3 A4 A5]. split; simpl; eauto using delivered_mono, spoken_mono.
        intros h' w id b Hw' Hb. apply recent_quiet; [|by eapply A5]. simpl.
        destruct (Nat.eqb_spec h h') as [->|]; [congruence|done].
    + intros [= <-]. apply HK; [done|apply says_drain].
    + intros [= <-]. by apply HK.
  - destruct (m_readers m !! h) as [r|] eqn:Er; [|done]. intros [= <-].
    assert (Hs : says (delivered i (evs ++ [EReader h])) (m_s m) (reader_finish h r (m_s m))).
    { destruct r as [obs chunk|res]; simpl.
      - apply says_fleet; [done|]. simpl. destruct obs as [o|]; simpl; [|done]. unfold forwardChunk. by repeat case_match.
      - apply says_capacity, says_resolve. intros w ch Hw Hp.
        exists evs, (EReader h), [], m, h, w, ch. do 4 (split; [done|]). right. split; [done|]. by apply (h_reader _ _ _ H). }
    destruct (heard_keep i evs (EReader h) m _ H (λ _ _, eq_refl) Hs) as [B1 B2 B3 B4 B5].
    split; simpl in *; try done. intros h' r' [_ Hr]%lookup_delete_Some. by apply B4.
  - intros [= <-]. apply HK; [done|]. apply says_on_worker. intros w _. split; [by left|apply writes_refl].
  - destruct (m_readers m !! h); [done|]. intros [= <-]. apply HK; [done|apply says_end].
  - intros [= <-]. apply HK; [done|apply says_stale].
  - intros [= <-]. apply HK; [done|]. unfold DrainWorkerWithDeadline. destruct (s_workers (m_s m) !! id) as [h|]; [|reflexivity].
    pose proof (says_drain (delivered i (evs ++ [EDrain id deadline])) h (m_s m)). by destruct (deadline <=? 0).
  - intros [= <-]. apply HK; [done|]. unfold reapDrainedWorker. destruct ev; [reflexivity|apply says_force|].
    repeat case_match; first [apply says_force|reflexivity].
  - intros [= <-]. apply HK; [done|]. apply says_fleet; [done|]. simpl. unfold recv_obs. by repeat case_match.
  - intros [= <-]. apply HK; [done|]. apply says_on_worker. intros w _. split; [by left|apply writes_refl].
  - intros [= <-]. apply HK; [done|]. unfold SetHeartbeatTimeout. destruct (d <=? 0); [reflexivity|by apply says_fleet].
  - intros [= <-]. apply HK; [done|]. by apply says_fleet.
  - by apply heard_spawn.
  - pose proof (says_gate (delivered i (evs ++ [EAuthorized t now key job])) now key job (m_s m)) as A.
    destruct (gate now key job (m_s m)) as [s' [e|]]; by apply heard_spawn.
  - pose proof (says_stream (delivered i (evs ++ [EStream t k key job])) k key job (m_s m)) as A.
    destruct (SubmitAuthorizedJobStream k key job (m_s m)) as [s' [[[h o] job']|e]]; by apply heard_spawn.
  - destruct (m_tasks m !! t) as [x|]; [|done]. by eapply task_step_heard.
  - by eapply loop_step_heard.
  - by apply loop_wake_heard.
  - intros [= <-]. destruct H as [A1 A2 A3 A4 A5]. split; simpl; eauto using delivered_mono, spoken_mono.
    intros h w id b Hw Hb. apply recent_quiet; [done|by eapply A5].
  - intros [= <-]. apply HK; [done|]. by apply says_fleet.
  - destruct (m_loop m) eqn:El; try done. destruct (Queue_closed _); [|done]. intros [= <-].
    destruct (heard_keep i evs EFailWaiters m (failAllWaiters shutdownErr (m_s m)) H) as [B1 B2 B3 B4 B5]; [done|..].
    + split; [apply writes_fail|reflexivity].
    + by split.
Qed.

Lemma run_heard evs cs hb warm mgr q depth m :
  let i := m_init (start cs hb warm mgr q depth : server) in run evs i = Some m → heard i evs m.
Proof.
  intros i. revert m. induction evs as [|e evs IH] using rev_ind; intros m H.
  { injection H as <-. pose proof (start_minv True cs hb warm mgr q depth) as [G _ _ _ _ _ _]. fold i in G.
    assert (E : s_chans (m_s i) = chans_init ∧ s_heap (m_s i) = ∅).
    { unfold i, start, New, WithHeartbeatTimeout, WithModelWarmMax, WithSessionManager, WithQuota.
      cbn [fold_left]. by destruct (0 <? hb), mgr, (0 <? warm), q. }
    destruct E as [E1 E2]. split; rewrite ?E1, ?E2; simpl; intros *; try by rewrite lookup_empty. done. }
  rewrite run_app in H. destruct (run evs _) as [m1|] eqn:E1; [|done]. simpl in H.
  destruct (mstep e m1) as [m2|] eqn:E2; [|done]. injection H as ->.
  assert (Hp1 : c_panic (s_chans (m_s m1)) = false) by (unfold mstep in E2; by destruct (c_panic _)).
  pose proof E1 as E1'. apply (reachable_minv False) in E1' as (tag & m0 & I & [->|[rs ->]]); [..|done]; [|done].
  eapply mstep_heard; [done|apply (i_g _ _ _ I)|by apply IH|done].
Qed.
End replies.

(** ** The property *)

Section properties.
Context {CS SS : Type} `{!CounterStore CS} `{!SessionStore SS}.
Notation server := (Server CS SS).

(** C2: Results are never crossed, in any run, whatever the job ids. A call that has
    returned without an error holds a result that carries its own job id and no
    error, and that a worker gave: it came in on a stream on which, when it came,
    the server had a job of that id pending, either as a result message taken as
    it is, or as a terminal chunk whose output is the last deltas that stream had
    sent for that id followed by the chunk's own. A call returning a worker's
    error result likewise holds one with its own id. *)
Theorem results_match_jobs evs cs hb warm mgr q depth m t x res err :
  let i := m_init (start cs hb warm mgr q depth : server) in
  run evs i = Some m → m_tasks m !! t = Some x → t_pc x = TDone res err →
  (err = None → JobResult_JobID res = Job_ID (t_job x) ∧ JobResult_Err res = None ∧ delivered i evs res) ∧
  (∀ e, err = Some (EJob e) → res ≠ JobResult_zero →
     JobResult_JobID res = Job_ID (t_job x) ∧ JobResult_Err res = Some e).
Proof.
  intros i H Hx Hpc. pose proof (run_heard evs cs hb warm mgr q depth m H) as Hd.
  assert (Hp : res = JobResult_zero ∧ err ≠ None ∨ JobResult_JobID res = Job_ID (t_job x) ∧ err = result_err res).
  { apply (reachable_minv False) in H as (tag & m0 & I & Hm); [|done]. pose proof (i_pc _ _ _ I t x) as Hp.
    rewrite Hpc in Hp. apply Hp. by destruct Hm as [->|[rs ->]]. }
  destruct Hp as [[-> Hne]|[Hid ->]]; [by split|]. unfold result_err in *. split.
  - intros E. split; [done|]. split; [by destruct (JobResult_Err res)|]. rewrite E in Hpc. by eapply (h_done _ _ _ Hd).
  - intros e He _. split; [done|]. by destruct (JobResult_Err res); simplify_eq/=.
Qed.
End properties.

(** ** Witness *)

#[local] Instance replies_sess : SessionStore MemorySessionStore := MSS_SessionStore demo_sessions demo_sessions_ok.

(** A direct job answered by two deltas and a terminal chunk. *)
Definition demo_chunks : list event :=
  [EConnect ex_time (WRegister "w1" demo_models); ESpawn 1 (demo_job "j1") "k" 1;
   ETask 1 demo_clk false false; ETask 1 demo_clk false false; ETask 1 demo_clk false false;
   EMessage ex_time 0 (WChunk (JobChunk_Proto (ex_delta "j1" "Hel"))); EReader 0;
   EMessage ex_time 0 (WChunk (JobChunk_Proto (ex_delta "j1" "lo"))); EReader 0;
   EMessage ex_time 0 (WChunk (JobChunk_Proto (ex_done "j1" "!"))); EReader 0; ETask 1 demo_clk false false].
Definition demo_reply : JobResult := mkJobResult "j1" "Hello!" None 2 [] "stop" 0 0.

Lemma results_match_jobs_witness :
  t_pc <$> m_tasks (demo_at demo_chunks) !! 1%nat = Some (TDone demo_reply None) ∧
  delivered (m_init demo_server) demo_chunks demo_reply.
Proof.
  split; [vm_compute; reflexivity|].
  destruct (results_match_jobs demo_chunks NewMemoryCounterStore 0 0 None None 0
    (demo_at demo_chunks) 1 (mkTask (demo_job "j1") "k" 1 false (TDone demo_reply None)) demo_reply None) as [H _].
  - demo_runs.
  - vm_compute. reflexivity.
  - reflexivity.
  - by apply H.
Defined.
