(* ===== verification/HttpServer.v ===== *)
(** * HttpServer.v: the HTTP server's state and middleware (internal/httpapi)

    The state [HServer] holds what the handlers share: the control-plane server
    (with its quota engine and session manager, which the HTTP layer uses too), the
    auth service, the audit log, the idempotency cache, the throttle counters and
    the calls of the token meter.
    Middleware composes the way Handler and requireScope(Write) compose it.  A
    request runs as one step; overlapping requests with one idempotency key are
    outside the code's promise.

    idempotency.go, ratelimit.go, and the auth and scope gates of middleware.go. *)

From Stdlib Require Import Ascii.
From S2P Require Import Prelude Errors GoTime GoFloat GoStrings GoConv Types Store Authz Auth AuditLog Quota History Session ServerWorker Server Http.
Open Scope Z_scope.

(** ** The idempotency cache *)

Record cachedResponse := mkCached {
  cr_status : Z; cr_body : list payload; cr_contentType : string; cr_expires : Time }.

Record idempotencyCache := mkIdem {
  ic_entries : gmap string cachedResponse; ic_ttl : Duration; ic_max : Z }.

Definition defaultIdempotencyTTL : Duration := 24 * Hour.
Definition idempotencyCacheMax : Z := 4096.
Definition maxIdempotencyKeyLen : Z := 255.
Definition idempotencyHeader : string := "Idempotency-Key".

Definition newIdempotencyCache (ttl : Duration) (max : Z) : idempotencyCache :=
  mkIdem ∅ (if ttl <=? 0 then defaultIdempotencyTTL else ttl) max.

Definition cache_get (now : Time) (key : string) (c : idempotencyCache)
    : idempotencyCache * option cachedResponse :=
  match ic_entries c !! key with
  | None => (c, None)
  | Some r =>
      if negb (Before now (cr_expires r))
      then (mkIdem (delete key (ic_entries c)) (ic_ttl c) (ic_max c), None)
      else (c, Some r)
  end.

(** [now] stamps the expiry, [now'] is the clock of the sweep at the cap. *)
Definition cache_put (now now' : Time) (key : string) (resp : cachedResponse) (c : idempotencyCache)
    : idempotencyCache :=
  let resp := mkCached (cr_status resp) (cr_body resp) (cr_contentType resp) (Add now (ic_ttl c)) in
  let entries :=
    if (0 <? ic_max c) && (ic_max c <=? Z.of_nat (size (ic_entries c))) then
      let kept := filter (λ p, Before now' (cr_expires p.2) = true) (ic_entries c) in
      if ic_max c <=? Z.of_nat (size kept) then ∅ else kept
    else ic_entries c in
  mkIdem (<[key := resp]> entries) (ic_ttl c) (ic_max c).

(** *** The recording response writer *)

Record recorder := mkRec {
  rec_status : Z; rec_buf : list payload; rec_wrote : bool;
  rec_header : gmap string string;     (* the header map shared with the client's writer *)
  rec_fwd : list wact }.               (* calls passed on to the client's writer *)

Definition rec_WriteHeader (status : Z) (r : recorder) : recorder :=
  if rec_wrote r then r
  else mkRec status (rec_buf r) true (rec_header r) (rec_fwd r ++ [WriteHeader status]).
Definition rec_exec (r : recorder) (a : wact) : recorder :=
  match a with
  | SetHeader k v =>
      mkRec (rec_status r) (rec_buf r) (rec_wrote r) (<[k := v]> (rec_header r)) (rec_fwd r ++ [a])
  | WriteHeader st => rec_WriteHeader st r
  | Write p =>
      let r := if rec_wrote r then r else rec_WriteHeader StatusOK r in
      mkRec (rec_status r) (rec_buf r ++ [p]) (rec_wrote r) (rec_header r) (rec_fwd r ++ [a])
  end.
Definition record_acts (acts : list wact) : recorder := fold_left rec_exec acts (mkRec StatusOK [] false ∅ []).

Definition NUL : string := String "000" "".
Definition compositeKey (actor method path raw : string) : string :=
  actor +:+ NUL +:+ method +:+ NUL +:+ path +:+ NUL +:+ raw.

(** ** The server *)

Record HServer (KS CS SS : Type) := mkH {
  h_ctl : Server CS SS;
  h_auth : @Service KS;
  h_auditLog : option MemoryStore;
  h_idem : idempotencyCache;
  h_globalThrottled : Z;
  h_keyThrottled : Z;
  h_tokens : list (string * Z * Z) }.    (* Metrics.AddTokens(model, prompt, completion) calls *)
Arguments mkH {_ _ _}.
Arguments h_ctl {_ _ _}. Arguments h_auth {_ _ _}. Arguments h_auditLog {_ _ _}.
Arguments h_idem {_ _ _}. Arguments h_globalThrottled {_ _ _}. Arguments h_keyThrottled {_ _ _}. Arguments h_tokens {_ _ _}.

(** The clock readings of one request, in the order the layers make them. *)
Record hclock := mkHClock {
  hk_auth : Time; hk_used : Time; hk_get : Time; hk_expiry : Time; hk_op : Time; hk_audit : Time;
  hk_put : Time; hk_sweep : Time }.

Definition secondsUntil (reset now : Time) : Z :=
  let d := Sub reset now in
  if d <=? 0 then 1
  else
    let secs := fceil (Seconds d) in
    if secs <? 1 then 1 else secs.

Section server.
Context {KS CS SS : Type} `{!KeyStore KS} `{!CounterStore CS} `{!SessionStore SS}.
Notation hserver := (HServer KS CS SS).
Notation handler := (hserver → hserver * list wact).

Definition set_ctl (c : Server CS SS) (s : hserver) : hserver :=
  mkH c (h_auth s) (h_auditLog s) (h_idem s) (h_globalThrottled s) (h_keyThrottled s) (h_tokens s).
Definition set_auth (a : @Service KS) (s : hserver) : hserver :=
  mkH (h_ctl s) a (h_auditLog s) (h_idem s) (h_globalThrottled s) (h_keyThrottled s) (h_tokens s).
Definition set_log (l : option MemoryStore) (s : hserver) : hserver :=
  mkH (h_ctl s) (h_auth s) l (h_idem s) (h_globalThrottled s) (h_keyThrottled s) (h_tokens s).
Definition set_idem (c : idempotencyCache) (s : hserver) : hserver :=
  mkH (h_ctl s) (h_auth s) (h_auditLog s) c (h_globalThrottled s) (h_keyThrottled s) (h_tokens s).

Definition add_tokens (model : string) (prompt completion : Z) (s : hserver) : hserver :=
  mkH (h_ctl s) (h_auth s) (h_auditLog s) (h_idem s) (h_globalThrottled s) (h_keyThrottled s)
    (h_tokens s ++ [(model, prompt, completion)]).

(** [NewServer] with the audit log option. *)
Definition NewServer (ctl : Server CS SS) (auth : @Service KS) (log : option MemoryStore) : hserver :=
  mkH ctl auth log (newIdempotencyCache defaultIdempotencyTTL idempotencyCacheMax) 0 0 [].

Definition incGlobalThrottled (s : hserver) : hserver :=
  mkH (h_ctl s) (h_auth s) (h_auditLog s) (h_idem s) (u64 (h_globalThrottled s + 1)) (h_keyThrottled s) (h_tokens s).
Definition incKeyThrottled (s : hserver) : hserver :=
  mkH (h_ctl s) (h_auth s) (h_auditLog s) (h_idem s) (h_globalThrottled s) (u64 (h_keyThrottled s + 1)) (h_tokens s).
Definition RateLimitStats (s : hserver) : Z * Z := (h_globalThrottled s, h_keyThrottled s).

(** *** Middleware *)

Definition authMiddleware (next : context → handler) (k : hclock) (r : Request) (c : context) : handler :=
  λ s,
  match tokenFromRequest r with
  | None => (s, writeError StatusUnauthorized "unauthorized" "missing or malformed bearer token")
  | Some token =>
      let '(a, res) := Authenticate (hk_auth k) (hk_used k) token (h_auth s) in
      let s := set_auth a s in
      match res with
      | Err e =>
          if errors_Is e ErrUnauthenticated
          then (s, writeError StatusUnauthorized "unauthorized" "invalid api key")
          else (s, writeError StatusInternalServerError "internal_error" "authentication failed")
      | Ok key => next (withKey key c) s
      end
  end.

Definition hasRole : list string → string → bool := λ roles role, str_mem role roles.

Definition adminMiddleware (next : context → handler) (c : context) : handler :=
  λ s,
  match c_key c with
  | None => (s, writeError StatusUnauthorized "unauthorized" "missing api key")
  | Some key =>
      if negb (hasRole (APIKey_Roles key) RoleAdmin)
      then (s, writeError StatusForbidden "forbidden" "admin role required")
      else next c s
  end.

Definition scopeMiddleware (scope : string) (next : context → handler) (c : context) : handler :=
  λ s,
  match c_key c with
  | None => (s, writeError StatusUnauthorized "unauthorized" "missing api key")
  | Some key =>
      if negb (HasScope key scope) then (s, writeError StatusForbidden "forbidden" "insufficient scope")
      else next c s
  end.

Definition idempotent (next : context → handler) (k : hclock) (r : Request) (c : context) : handler :=
  λ s,
  let rawKey := r_Header r idempotencyHeader in
  if String.eqb rawKey "" || (maxIdempotencyKeyLen <? len rawKey) then next c s
  else match c_key c with
    | None => next c s
    | Some actor =>
        let key := compositeKey (APIKey_ID actor) (r_Method r) (r_Path r) rawKey in
        let '(cache, hit) := cache_get (hk_get k) key (h_idem s) in
        let s := set_idem cache s in
        match hit with
        | Some cached =>
            (s, (if negb (String.eqb (cr_contentType cached) "")
                 then [SetHeader "Content-Type" (cr_contentType cached)] else []) ++
                [SetHeader "Idempotency-Replayed" "true"; WriteHeader (cr_status cached)] ++
                (Write <$> cr_body cached))
        | None =>
            let '(s, acts) := next c s in
            let rec := record_acts acts in
            let s := if (200 <=? rec_status rec) && (rec_status rec <? 300)
                     then set_idem (cache_put (hk_put k) (hk_sweep k) key
                            (mkCached (rec_status rec) (rec_buf rec)
                               (default "" (rec_header rec !! "Content-Type")) 0) (h_idem s)) s
                     else s in
            (s, rec_fwd rec)
        end
    end.

Definition requireScope (scope : string) (h : context → handler) (k : hclock) (r : Request) (c : context)
    : handler := authMiddleware (scopeMiddleware scope h) k r c.
Definition requireScopeWrite (scope : string) (h : context → handler) (k : hclock) (r : Request) (c : context)
    : handler := authMiddleware (scopeMiddleware scope (idempotent h k r)) k r c.

(** The global limiter in front of the inference routes; the engine's clock is read
    for the check, for the window's reset and for the distance to it. *)
Definition rateLimitMiddleware (next : context → handler) (now now1 now2 : Time) (c : context) : handler :=
  λ s,
  let '(q, err, _) := CheckAndReserveGlobal now (s_quota (h_ctl s)) in
  let s := set_ctl (set_quota q (h_ctl s)) s in
  match err with
  | Some e =>
      if errors_Is e ErrQuotaExceeded then
        let retryAfter := secondsUntil (GlobalMinuteReset now1) now2 in
        (incGlobalThrottled s,
         SetHeader "Retry-After" (Itoa retryAfter) ::
         writeError StatusTooManyRequests "rate_limit_exceeded" "rate limit exceeded")
      else (s, writeError StatusInternalServerError "internal_error" "internal error")
  | None => next c s
  end.

(** The outermost id layer: the id is on the response whatever the rest does. *)
Definition requestIDMiddleware (next : context → handler) (rnd : result bytes) (r : Request) : handler :=
  λ s,
  let id := requestID rnd r in
  let '(s, acts) := next (mkContext None (Some id)) s in
  (s, SetHeader "X-Request-Id" id :: acts).

(** *** Submission errors *)

(** The engine's clock is read for the usage, the hint and the distance. *)
Definition annotatePerKey429 (now now1 now2 : Time) (c : context) (s : hserver) : hserver * list wact :=
  let s := incKeyThrottled s in
  match c_key c with
  | None => (s, [])
  | Some key =>
      let '(q, r) := UsageForKey now key (s_quota (h_ctl s)) in
      let s := set_ctl (set_quota q (h_ctl s)) s in
      match r with
      | Err _ => (s, [])
      | Ok snap =>
          match RetryAfter snap now1 with
          | None => (s, [])
          | Some reset => (s, [SetHeader "Retry-After" (Itoa (secondsUntil reset now2))])
          end
      end
  end.

Definition writeSubmitError (now now1 now2 : Time) (c : context) (err : error) (s : hserver) : hserver * list wact :=
  let '(status, code, msg) := statusForError err in
  let '(s, hdr) := if (status =? StatusTooManyRequests) && errors_Is err ErrQuotaExceeded
                   then annotatePerKey429 now now1 now2 c s else (s, []) in
  (s, hdr ++ writeError status code msg).
End server.

(** ** The recorder *)

Lemma wexec_app w l l' : fold_left wexec (l ++ l') w = fold_left wexec l' (fold_left wexec l w).
Proof. apply fold_left_app. Qed.

(** After any calls, the recorder has passed on what produces the same response,
    and holds that response's status and body. *)
Lemma record_acts_inv acts :
  let r := record_acts acts in
  let w := fold_left wexec acts (mkWState None ∅ []) in
  fold_left wexec (rec_fwd r) (mkWState None ∅ []) = w ∧ rec_status r = default StatusOK (w_sent w) ∧
  rec_buf r = w_body w ∧ rec_wrote r = bool_decide (w_sent w ≠ None).
Proof.
  unfold record_acts. induction acts as [|a acts IH] using rev_ind; [done|].
  rewrite !fold_left_app. cbn [fold_left]. cbv zeta in IH. destruct IH as (Hf & Hs & Hb & Hw).
  set (r := fold_left rec_exec acts _) in *. set (w := fold_left wexec acts _) in *.
  destruct w as [[sent|] hdr body] eqn:Ew; cbn in Hs, Hb, Hw; rewrite <- Ew in Hf;
    destruct a as [hk hv|st|pl]; unfold rec_exec, rec_WriteHeader; rewrite Hw; cbn;
    rewrite ?wexec_app, Hf, ?Hs, ?Hb, ?Hw, ?Ew; done.
Qed.

Lemma record_acts_response acts :
  let r := record_acts acts in
  respond (rec_fwd r) = respond acts ∧ rec_status r = resp_status (respond acts) ∧
  rec_buf r = resp_body (respond acts).
Proof.
  destruct (record_acts_inv acts) as (Hf & Hs & Hb & _). cbv zeta. unfold respond. by rewrite Hf, Hs, Hb.
Qed.

(** Writing out a stored body gives that body back. *)
Lemma respond_replay pre st body :
  Forall (λ a, match a with SetHeader _ _ => True | _ => False end) pre →
  resp_status (respond (pre ++ [WriteHeader st] ++ (Write <$> body))) = st ∧
  resp_body (respond (pre ++ [WriteHeader st] ++ (Write <$> body))) = body.
Proof.
  intros Hp. unfold respond. rewrite !fold_left_app. cbn [resp_status resp_body].
  assert (∃ h, fold_left wexec pre (mkWState None ∅ []) = mkWState None h []) as [h ->].
  { generalize (∅ : gmap string string). induction Hp as [|[] l Ha Hp IH]; intros h; [by exists h|apply IH|done..]. }
  cbn [fold_left wexec w_sent w_header w_body].
  assert (∀ b, fold_left wexec (Write <$> body) (mkWState (Some st) h b) = mkWState (Some st) h (b ++ body)) as ->.
  { induction body as [|x body IH]; intros b; [by rewrite app_nil_r|]. cbn. rewrite IH. by rewrite <- app_assoc. }
  done.
Qed.

(** ** Composite keys *)

Lemma no_sep_app_inj sep a b a' b' :
  no_sep sep a → no_sep sep a' → a +:+ String sep b = a' +:+ String sep b' → a = a' ∧ b = b'.
Proof.
  intros Ha Ha' E. pose proof (cut_app sep a b Ha) as H1. rewrite E, cut_app in H1 by done.
  by injection H1 as <- <-.
Qed.

Lemma no_sep_app sep a b : no_sep sep (a +:+ b) → no_sep sep a ∧ no_sep sep b.
Proof. induction a as [|x a IH]; [done|]. intros [Hx Hab]. destruct (IH Hab). done. Qed.

Lemma sep_not_in sep a b : no_sep sep (a +:+ String sep b) → False.
Proof. intros [_ [H _]]%no_sep_app. by apply H. Qed.

Lemma no_sep_suffix_inj sep p r p' r' :
  no_sep sep r → no_sep sep r' → p +:+ String sep r = p' +:+ String sep r' → p = p' ∧ r = r'.
Proof.
  intros Hr Hr'. revert p'. induction p as [|x p IH]; intros [|y p'] E.
  - by injection E as ->.
  - injection E as <- E. exfalso. rewrite E in Hr. by apply sep_not_in in Hr.
  - injection E as -> E. exfalso. rewrite <- E in Hr'. by apply sep_not_in in Hr'.
  - injection E as <- E. by destruct (IH p' E) as [-> ->].
Qed.

(** A method and a header value hold no NUL; a decoded URL path may. *)
Lemma compositeKey_inj a m p r a' m' p' r' :
  no_sep "000" a → no_sep "000" m → no_sep "000" r → no_sep "000" a' → no_sep "000" m' → no_sep "000" r' →
  compositeKey a m p r = compositeKey a' m' p' r' → a = a' ∧ m = m' ∧ p = p' ∧ r = r'.
Proof.
  unfold compositeKey, NUL. intros Ha Hm Hr Ha' Hm' Hr' E.
  apply no_sep_app_inj in E as [-> E]; [|done..]. apply no_sep_app_inj in E as [-> E]; [|done..].
  by apply no_sep_suffix_inj in E as [-> E].
Qed.

(** ** The cache *)

Lemma cache_get_spec now key c :
  let '(c', hit) := cache_get now key c in
  match hit with
  | Some r => ic_entries c !! key = Some r ∧ now < cr_expires r ∧ c' = c
  | None => ic_entries c' = delete key (ic_entries c)
  end.
Proof.
  unfold cache_get, Before. destruct (ic_entries c !! key) as [r|] eqn:E.
  - destruct (Z.ltb_spec now (cr_expires r)); simpl; [done|]. done.
  - by rewrite delete_id.
Qed.

Lemma cache_put_size now now' key resp c :
  0 < ic_max c → Z.of_nat (size (ic_entries c)) <= ic_max c →
  Z.of_nat (size (ic_entries (cache_put now now' key resp c))) <= ic_max c.
Proof.
  intros Hm Hs. unfold cache_put. cbn [ic_entries].
  set (e := if _ && _ then _ else _). assert (Z.of_nat (size e) < ic_max c) as He.
  { unfold e. destruct (Z.ltb_spec 0 (ic_max c)); [|lia]. simpl.
    destruct (Z.leb_spec (ic_max c) (Z.of_nat (size (ic_entries c)))); [|lia].
    set (kept := filter _ _). destruct (Z.leb_spec (ic_max c) (Z.of_nat (size kept))); [|lia].
    rewrite map_size_empty. lia. }
  rewrite map_size_insert. clearbody e. destruct (e !! key); unfold id; lia.
Qed.

Lemma cache_put_lookup now now' key resp c :
  ic_entries (cache_put now now' key resp c) !! key =
    Some (mkCached (cr_status resp) (cr_body resp) (cr_contentType resp) (now + ic_ttl c)).
Proof. apply lookup_insert_eq. Qed.

(** A put adds nothing under another key. *)
Lemma cache_put_other now now' key key' resp c :
  key ≠ key' → ic_entries c !! key' = None → ic_entries (cache_put now now' key resp c) !! key' = None.
Proof.
  intros Hne Hk. unfold cache_put. cbn [ic_entries]. rewrite lookup_insert_ne by done.
  case_match; [|done]. case_match; [done|]. apply map_lookup_filter_None. by left.
Qed.

(** ** Properties of the middleware *)

Section properties.
Context {KS CS SS : Type} `{!KeyStore KS} `{!CounterStore CS} `{!SessionStore SS}.
Notation hserver := (HServer KS CS SS).
Notation handler := (hserver → hserver * list wact).

(** The cache key of a request the cache applies to. *)
Definition idem_key (r : Request) (c : context) : option string :=
  let raw := r_Header r idempotencyHeader in
  if String.eqb raw "" || (maxIdempotencyKeyLen <? len raw) then None
  else (λ a, compositeKey (APIKey_ID a) (r_Method r) (r_Path r) raw) <$> c_key c.

Definition success (acts : list wact) : bool :=
  (200 <=? resp_status (respond acts)) && (resp_status (respond acts) <? 300).

(** On a miss the handler runs on the state without the stale entry; its response
    passes through, and is stored exactly when it is a success. *)
Lemma idempotent_miss (next : context → handler) k r c s key :
  idem_key r c = Some key → (cache_get (hk_get k) key (h_idem s)).2 = None →
  let '(s0, acts0) := next c (set_idem (cache_get (hk_get k) key (h_idem s)).1 s) in
  let '(s1, acts) := idempotent next k r c s in
  respond acts = respond acts0 ∧
  (if success acts0 then ∃ ct, s1 = set_idem (cache_put (hk_put k) (hk_sweep k) key
       (mkCached (resp_status (respond acts0)) (resp_body (respond acts0)) ct 0) (h_idem s0)) s0
   else s1 = s0).
Proof.
  unfold idem_key, idempotent. case_match; [done|]. destruct (c_key c) as [actor|]; [|done].
  intros [= <-] Hm. destruct (cache_get _ _ _) as [cache hit]. cbn in Hm. subst hit. cbn [fst].
  destruct (next c (set_idem cache s)) as [s0 acts0].
  destruct (record_acts_response acts0) as (Hr & Hst & Hb). cbv zeta in Hr, Hst, Hb.
  unfold success. rewrite <- Hst, <- Hb. split; [done|]. case_match; [|done]. by eexists.
Qed.

(** On a hit the handler does not run and the stored response is sent. *)
Lemma idempotent_hit (next : context → handler) k r c s key cached :
  idem_key r c = Some key → ic_entries (h_idem s) !! key = Some cached → hk_get k < cr_expires cached →
  let '(s1, acts) := idempotent next k r c s in
  s1 = s ∧ resp_status (respond acts) = cr_status cached ∧ resp_body (respond acts) = cr_body cached.
Proof.
  unfold idem_key, idempotent. case_match; [done|]. destruct (c_key c) as [actor|]; [|done].
  intros [= <-] Hl Ht. unfold cache_get. rewrite Hl. unfold Before.
  rewrite (proj2 (Z.ltb_lt _ _) Ht). cbn [negb]. split; [by destruct s|].
  set (ct := if negb _ then _ else _).
  pose proof (respond_replay (ct ++ [SetHeader "Idempotency-Replayed" "true"]) (cr_status cached) (cr_body cached))
    as Hrep. rewrite <- app_assoc in Hrep. apply Hrep.
  apply Forall_app. split; [|by constructor]. unfold ct. case_match; by repeat constructor.
Qed.

(** A retry replays. If a request with an idempotency key misses the cache
    and its handler succeeds, then a later request of the same actor, method, path
    and key, arriving within the TTL while the entry is still held, gets the same
    status and body without running the handler and without changing any state;
    if the handler fails, nothing is stored and a retry runs it again. *)
Theorem idempotent_replay (next next' : context → handler) k k' r r' c c' (s s2 : hserver) key :
  idem_key r c = Some key → idem_key r' c' = Some key →
  (cache_get (hk_get k) key (h_idem s)).2 = None →
  let '(s0, acts0) := next c (set_idem (cache_get (hk_get k) key (h_idem s)).1 s) in
  let '(s1, acts) := idempotent next k r c s in
  let '(s3, acts') := idempotent next' k' r' c' s2 in
  respond acts = respond acts0 ∧
  (success acts0 = true → ic_entries (h_idem s2) !! key = ic_entries (h_idem s1) !! key →
   hk_get k' < hk_put k + ic_ttl (h_idem s0) →
   s3 = s2 ∧ resp_status (respond acts') = resp_status (respond acts) ∧
   resp_body (respond acts') = resp_body (respond acts)) ∧
  (success acts0 = false → s1 = s0).
Proof.
  intros Hk Hk' Hm. pose proof (idempotent_miss next k r c s key Hk Hm) as H.
  destruct (next c _) as [s0 acts0]. destruct (idempotent next k r c s) as [s1 acts].
  destruct H as [Hr Hs].
  pose proof (λ cached, idempotent_hit next' k' r' c' s2 key cached Hk') as Hhit.
  destruct (idempotent next' k' r' c' s2) as [s3 acts']. split_and!; [done| |].
  - intros Hok Heq Ht. rewrite Hok in Hs. destruct Hs as [ct ->]. cbn [h_idem set_idem] in Heq.
    rewrite cache_put_lookup in Heq. destruct (Hhit _ Heq Ht) as (-> & H1 & H2). by rewrite Hr.
  - intros Hf. by rewrite Hf in Hs.
Qed.

(** C23: Replays are confined. A response is never replayed to another actor, or
    for another method, path or key: after any request, a request that differs in
    one of them and had no entry before still has none, so its own handler runs. *)
Theorem replay_confined (next : context → handler) k r r' c c' (s : hserver) a a' now :
  c_key c = Some a → c_key c' = Some a' →
  let raw := r_Header r idempotencyHeader in
  let raw' := r_Header r' idempotencyHeader in
  no_sep "000" (APIKey_ID a) → no_sep "000" (APIKey_ID a') → no_sep "000" (r_Method r) →
  no_sep "000" (r_Method r') → no_sep "000" raw → no_sep "000" raw' →
  (APIKey_ID a, r_Method r, r_Path r, raw) ≠ (APIKey_ID a', r_Method r', r_Path r', raw') →
  (∀ c s, h_idem (next c s).1 = h_idem s) →
  let key' := compositeKey (APIKey_ID a') (r_Method r') (r_Path r') raw' in
  ic_entries (h_idem s) !! key' = None →
  (cache_get now key' (h_idem (idempotent next k r c s).1)).2 = None.
Proof.
  intros Ha Ha' raw raw' Hna Hna' Hnm Hnm' Hnr Hnr' Hne Hnext key' Hk.
  assert (ic_entries (h_idem (idempotent next k r c s).1) !! key' = None) as H;
    [|unfold cache_get; by rewrite H].
  destruct (idem_key r c) as [key|] eqn:Ek.
  2:{ unfold idem_key, idempotent in *. rewrite Ha in *. case_match; [by rewrite Hnext|done]. }
  assert (key ≠ key') as Hkk.
  { unfold idem_key in Ek. rewrite Ha in Ek. case_match; [done|]. injection Ek as <-. unfold key'.
    intros (E1 & E2 & E3 & E4)%compositeKey_inj; try done. apply Hne. rewrite E1, E2, E3. fold raw in E4. by rewrite E4. }
  pose proof (cache_get_spec (hk_get k) key (h_idem s)) as Hg.
  destruct (cache_get (hk_get k) key (h_idem s)) as [ca [hit|]] eqn:Eg.
  - destruct Hg as (Hl & Ht & _). pose proof (idempotent_hit next k r c s key hit Ek Hl Ht) as Hh.
    destruct (idempotent next k r c s) as [s1 acts]. destruct Hh as [-> _]. done.
  - pose proof (idempotent_miss next k r c s key Ek ltac:(by rewrite Eg)) as Hh. rewrite Eg in Hh.
    cbn [fst] in Hh. pose proof (Hnext c (set_idem ca s)) as Hn. cbn [h_idem set_idem] in Hn.
    destruct (next c (set_idem ca s)) as [s0 acts0]. cbn [fst] in Hn.
    destruct (idempotent next k r c s) as [s1 acts]. destruct Hh as [_ Hs].
    assert (ic_entries ca !! key' = None) by (rewrite Hg; apply lookup_delete_None; by right).
    case_match; [destruct Hs as [ct ->]|rewrite Hs]; cbn [fst h_idem set_idem]; rewrite Hn; [|done].
    by apply cache_put_other.
Qed.
End properties.

(** ** Throttling *)

(** The wait told to a client is the least whole number of seconds that reaches
    the reset. *)
Lemma secondsUntil_least reset now :
  now < reset < now + (2 ^ 23 - 1) * Second →
  let n := secondsUntil reset now in
  1 <= n ∧ reset <= now + n * Second ∧ now + (n - 1) * Second < reset.
Proof.
  intros H. unfold secondsUntil, Sub. rewrite Z.min_r, Z.max_r by (unfold minInt64, maxInt64, Second in *; lia).
  destruct (Z.leb_spec (reset - now) 0); [lia|]. rewrite Seconds_ceil by lia.
  assert (1 <= (reset - now + Second - 1) / Second) by (unfold Second in *; zlia).
  cbv zeta. destruct (Z.ltb_spec ((reset - now + Second - 1) / Second) 1); [lia|].
  unfold Second in *. zlia.
Qed.

Lemma window_wait w now :
  let n := secondsUntil (WindowReset w now) now in
  1 <= n ∧ WindowReset w now <= now + n * Second ∧ now + (n - 1) * Second < WindowReset w now.
Proof.
  apply secondsUntil_least. pose proof (WindowReset_after w now). pose proof (WindowReset_within w now).
  unfold DayNs, Hour, Minute, Second in *. lia.
Qed.

Lemma respond_throttled n status code msg :
  let resp := respond ([SetHeader "Retry-After" n] ++ writeError status code msg) in
  resp_status resp = status ∧ resp_header resp !! "Retry-After" = Some n.
Proof.
  unfold respond, writeError, writeJSON. cbn. split; [done|].
  rewrite lookup_insert_ne by done. apply lookup_insert_eq.
Qed.

Lemma minute_within now : WindowReset windowMinute now <= now + Minute.
Proof.
  rewrite WindowReset_begin. destruct (win_index_spec windowMinute now) as [H _]. simpl in *. lia.
Qed.

Section throttling.
Context {KS CS SS : Type} `{!KeyStore KS} `{!CounterStore CS} `{!SessionStore SS}.
Notation hserver := (HServer KS CS SS).
Notation handler := (hserver → hserver * list wact).

(** The gate leaves the configured limits alone. *)
Lemma gate_limits now key job (ctl : Server CS SS) :
  effectiveLimits (s_quota (gate now key job ctl).1) key = effectiveLimits (s_quota ctl) key.
Proof.
  unfold gate. destruct (Job_Validate job); [done|]. destruct (Authorize _ _ _) as [rec [e|]]; [done|].
  unfold CheckAndReserve, reserve_with. by destruct (Reserve _ _ _ _) as [cs [e|]].
Qed.

Lemma usage_frame now key (e : Engine CS) id :
  id ≠ APIKey_ID key → counters_of (Engine_cs (UsageForKey now key e).1) id = counters_of (Engine_cs e) id.
Proof.
  intros Hid. unfold UsageForKey, Usage. pose proof (Quota.Get_spec (APIKey_ID key) (UTC now) (Engine_cs e)) as Hg.
  destruct (Quota.Get _ _ _) as [cs r]. destruct Hg as [_ Hg]. cbn. by rewrite Hg, decide_False.
Qed.

(** A throttled key is told when to come back. When a valid, permitted
    request is over its key's limits, the gate refuses it and the response is 429
    with a Retry-After of [n >= 1] whole seconds: the soonest of the resets of its
    exhausted windows lies within [n] seconds and not within [n - 1]; the per-key
    throttle counter goes up by one and no counter of another key moves. *)
Theorem throttled_retry_after (s : hserver) now key job c :
  c_key c = Some key → Job_Validate job = None → permitted key (Job_Model job) Infer →
  0 <= MinuteRequests (usage_now now key (h_ctl s)) → MinuteRequests (usage_now now key (h_ctl s)) + 1 < 2 ^ 64 →
  admits (effectiveLimits (s_quota (h_ctl s)) key) (usage_now now key (h_ctl s)) = false →
  let '(ctl, err) := gate now key job (h_ctl s) in
  err = Some ErrQuotaExceeded ∧
  let '(s', acts) := writeSubmitError now now now c ErrQuotaExceeded (set_ctl ctl s) in
  resp_status (respond acts) = 429 ∧ h_keyThrottled s' = u64 (h_keyThrottled s + 1) ∧
  (∀ id, id ≠ APIKey_ID key →
     counters_of (Engine_cs (s_quota (h_ctl s'))) id = counters_of (Engine_cs (s_quota (h_ctl s))) id) ∧
  ∃ n reset snap, resp_header (respond acts) !! "Retry-After" = Some (Itoa n) ∧ 1 <= n ∧
    (UsageForKey now key (s_quota ctl)).2 = Ok snap ∧ exhausted snap ≠ [] ∧ soonest reset (exhausted snap) ∧
    now < reset <= now + n * Second ∧ now + (n - 1) * Second < reset.
Proof.
  intros Hc Hj Hp H0 H1 Ha. pose proof (gate_spec now key job (h_ctl s) H0 H1) as Hg.
  pose proof (gate_limits now key job (h_ctl s)) as Hlim.
  destruct (gate now key job (h_ctl s)) as [ctl err]. destruct Hg as (_ & _ & _ & Hg).
  destruct (Hg Hj Hp) as [Hv Ho]. rewrite Ha in Hv. destruct Hv as [-> Hu]. split; [done|]. cbn [fst] in Hlim.
  destruct (usage_hint now key (s_quota ctl)) as (snap & r & E & Hne & Hr & Hlt & Hs & w & ->).
  { rewrite Hlim, Hu. unfold usage_now in *. by rewrite roll_idem. }
  unfold writeSubmitError, statusForError. change (errors_Is ErrQuotaExceeded ErrUnauthenticated) with false.
  change (errors_Is ErrQuotaExceeded ErrForbidden) with false.
  rewrite errors_Is_refl. change (StatusTooManyRequests =? StatusTooManyRequests) with true. cbn [andb].
  unfold annotatePerKey429. rewrite Hc. cbn [h_ctl set_ctl incKeyThrottled].
  pose proof (λ id, usage_frame now key (s_quota ctl) id) as Hf.
  destruct (UsageForKey now key (s_quota ctl)) as [q res]. cbn [snd fst] in E, Hf. subst res. rewrite Hr.
  cbv beta iota. cbn [fst snd h_ctl h_keyThrottled set_ctl incKeyThrottled set_quota set_books s_quota].
  destruct (respond_throttled (Itoa (secondsUntil (WindowReset w now) now)) StatusTooManyRequests
    "rate_limit_exceeded" "quota exceeded") as [Hst Hh]. cbv zeta in Hst, Hh.
  split_and!; [exact Hst|done| |].
  - intros id Hid. by rewrite Hf, Ho.
  - exists (secondsUntil (WindowReset w now) now), (WindowReset w now), snap.
    destruct (window_wait w now) as (Hn & Hn1 & Hn2). split_and!; done.
Qed.

(** The global limiter stands apart from the keys. A request over the
    server-wide limits gets 429 with a Retry-After between 1 and 60 seconds that
    reaches the next minute, its handler does not run, and nothing but the global
    counter's window and the throttle count changes; an admitted one is charged
    one request to the global counter only, and its handler runs on that state. *)
Theorem global_limit_isolated (next : context → handler) now c (s : hserver) :
  let e := s_quota (h_ctl s) in
  let g := Engine_global e in
  let used := roll now (counters_of (Engine_cs e) globalKeyID) in
  0 <= MinuteRequests used → MinuteRequests used + 1 < 2 ^ 64 →
  ∃ q, (∀ id, id ≠ globalKeyID → counters_of (Engine_cs q) id = counters_of (Engine_cs e) id) ∧
    Engine_defaults q = Engine_defaults e ∧ Engine_global q = g ∧
    let s1 := set_ctl (set_quota q (h_ctl s)) s in
    if (Limits_RPM g =? 0) && (Limits_TPM g =? 0)
    then q = e ∧ rateLimitMiddleware next now now now c s = next c s1
    else if admits (mkLimits (Limits_RPM g) (Limits_TPM g) 0 0) used
    then counters_of (Engine_cs q) globalKeyID = incr_requests used ∧
         rateLimitMiddleware next now now now c s = next c s1
    else counters_of (Engine_cs q) globalKeyID = used ∧
         let '(s', acts) := rateLimitMiddleware next now now now c s in
         s' = incGlobalThrottled s1 ∧ resp_status (respond acts) = 429 ∧
         ∃ n, resp_header (respond acts) !! "Retry-After" = Some (Itoa n) ∧ 1 <= n <= 60 ∧
           WindowReset windowMinute now <= now + n * Second ∧ now + (n - 1) * Second < WindowReset windowMinute now.
Proof.
  intros e g used H0 H1. unfold rateLimitMiddleware, CheckAndReserveGlobal. fold e g.
  destruct ((Limits_RPM g =? 0) && (Limits_TPM g =? 0)) eqn:El; [by exists e|].
  unfold reserve_with, UTC.
  pose proof (Reserve_spec globalKeyID now (as_check (global_denial g)) (Engine_cs e)) as Hr. cbv zeta in Hr.
  fold used in Hr. rewrite global_denial_admits in Hr by done.
  destruct (Reserve _ _ _ _) as [cs err]. destruct Hr as [-> Hc]. exists (with_cs cs e).
  split_and!; [intros id Hid; cbn [Engine_cs with_cs]; by rewrite Hc, decide_False|done|done|].
  specialize (Hc globalKeyID). rewrite decide_True in Hc by done. cbn [Engine_cs with_cs].
  destruct (admits _ used); [done|]. split; [done|].
  cbv beta iota zeta. rewrite errors_Is_refl. split; [done|]. unfold GlobalMinuteReset, UTC.
  destruct (respond_throttled (Itoa (secondsUntil (WindowReset windowMinute now) now)) StatusTooManyRequests
    "rate_limit_exceeded" "rate limit exceeded") as [Hst Hh]. cbv zeta in Hst, Hh.
  split; [exact Hst|]. eexists. split; [exact Hh|]. destruct (window_wait windowMinute now) as (Hn & Hn1 & Hn2).
  split_and!; try done. pose proof (minute_within now). unfold Minute, Second in *. lia.
Qed.
End throttling.

(** ** Witnesses *)

#[local] Instance demo_keys : KeyStore Memory := Memory_KeyStore Auth.demo_range (Hrange := Auth.demo_range_ok).
#[local] Instance demo_sess : SessionStore MemorySessionStore := MSS_SessionStore demo_sessions demo_sessions_ok.

Definition demo_http : HServer Memory MemoryCounterStore MemorySessionStore :=
  NewServer ex_one demo_live (Some (NewMemoryStore 10)).
Definition demo_hclock (t : Time) : hclock := mkHClock t t t t t t t t.
Definition demo_post (raw : string) : Request :=
  mkRequest "POST" "/v1/admin/keys" (λ h, if String.eqb h idempotencyHeader then raw else "") (λ _, "")
    (λ _, "") (λ _, None).
Definition demo_ctx (k : APIKey) : context := mkContext (Some k) (Some "req-1").
Definition demo_handler (c : context) (s : HServer Memory MemoryCounterStore MemorySessionStore)
    : HServer Memory MemoryCounterStore MemorySessionStore * list wact :=
  (s, writeJSON StatusCreated (PRotated "k1" "secret")).
Definition demo_actor : APIKey := ex_key [RoleAdmin] [] (mkLimits 1 0 0 0).
Definition demo_first := idempotent demo_handler (demo_hclock 5) (demo_post "abc") (demo_ctx demo_actor) demo_http.

Lemma idempotent_replay_witness :
  let '(s3, acts') := idempotent demo_handler (demo_hclock 9) (demo_post "abc") (demo_ctx demo_actor) demo_first.1 in
  s3 = demo_first.1 ∧ resp_status (respond acts') = resp_status (respond demo_first.2) ∧
  resp_body (respond acts') = resp_body (respond demo_first.2).
Proof.
  pose proof (idempotent_replay demo_handler demo_handler (demo_hclock 5) (demo_hclock 9) (demo_post "abc")
    (demo_post "abc") (demo_ctx demo_actor) (demo_ctx demo_actor) demo_http demo_first.1
    (compositeKey "k1" "POST" "/v1/admin/keys" "abc") eq_refl eq_refl eq_refl) as H.
  cbn [demo_handler] in H. unfold demo_first in *.
  destruct (idempotent demo_handler (demo_hclock 5) _ _ demo_http) as [s1 acts]. cbn [fst snd] in *.
  destruct (idempotent demo_handler (demo_hclock 9) _ _ s1) as [s3 acts'].
  exact (proj1 (proj2 H) eq_refl eq_refl eq_refl).
Defined.

Definition demo_other : APIKey := mkAPIKey "k2" "" "" [] [] 0 0 0 None "" "" None "" [RoleAdmin] [] [] [] None.

Lemma replay_confined_witness :
  (cache_get 9 (compositeKey "k2" "POST" "/v1/admin/keys" "abc") (h_idem demo_first.1)).2 = None.
Proof.
  apply (replay_confined demo_handler (demo_hclock 5) (demo_post "abc") (demo_post "abc") (demo_ctx demo_actor)
    (demo_ctx demo_other) demo_http demo_actor demo_other 9); try reflexivity; try (by repeat split).
Defined.

Lemma throttled_retry_after_witness :
  let key := ex_key [RoleUser] ["m"] (mkLimits 1 0 0 0) in
  let s := set_ctl (gate ex_time key ex_request ex_one).1 demo_http in
  (gate ex_time key ex_request (h_ctl s)).2 = Some ErrQuotaExceeded.
Proof.
  intros key s.
  pose proof (throttled_retry_after s ex_time key ex_request (demo_ctx key) eq_refl eq_refl) as H.
  assert (P : permitted key (Job_Model ex_request) Infer) by (apply decide_permitted; vm_compute; reflexivity).
  specialize (H P ltac:(vm_compute; discriminate) ltac:(vm_compute; reflexivity) ltac:(vm_compute; reflexivity)).
  destruct (gate ex_time key ex_request (h_ctl s)) as [ctl err]. exact (proj1 H).
Defined.

Lemma global_limit_isolated_witness :
  let e := s_quota (h_ctl demo_http) in
  ∃ q, ∀ id, id ≠ globalKeyID → counters_of (Engine_cs q) id = counters_of (Engine_cs e) id.
Proof.
  intros e. destruct (global_limit_isolated demo_handler 5 (demo_ctx demo_actor) demo_http) as (q & Hq & _).
  - vm_compute. discriminate.
  - vm_compute. reflexivity.
  - by exists q.
Defined.
