(* ===== verification/AdminApi.v ===== *)
(** * AdminApi.v: key management over HTTP (internal/httpapi/admin.go, admin_audit.go)

    The handlers that create, list, read, revoke, rotate and change API keys, the
    audit entry each write leaves, and the audit query.  A decoded request body is
    an argument, [None] when decoding failed.  A handler is run under
    requireScope(Write) of HttpServer.v. *)

From Stdlib Require Import Ascii.
From S2P Require Import Prelude Errors GoTime GoStrings GoConv GoHeap GoSort Types Store Authz Auth AuditLog Quota History Session Server Http HttpServer.
Open Scope Z_scope.

(** ** Projections *)

Definition limits_view (l : Limits) : limitsView :=
  mkLimitsView (Limits_RPM l) (Limits_TPM l) (Limits_DailyTokens l) (Limits_MonthlyTokens l).

(** [orEmpty] only turns a nil slice into an empty one, which a list does not
    tell apart. *)
Definition newAdminKeyView (k : APIKey) : adminKeyView :=
  mkKeyView (APIKey_ID k) (APIKey_Name k) (APIKey_Owner k) (APIKey_Team k) (APIKey_Roles k)
    (APIKey_AdminScopes k) (APIKey_AllowModels k) (APIKey_DenyModels k) (Revoked k) (APIKey_UsageCount k)
    (Time_Unix (APIKey_CreatedAt k)) (APIKey_CreatedBy k)
    (if negb (IsZero (APIKey_LastUsedAt k)) then Time_Unix (APIKey_LastUsedAt k) else 0)
    (match APIKey_ExpiresAt k with Some t => Some (Time_Unix t) | None => None end)
    (match APIKey_Limits k with Some l => Some (limits_view l) | None => None end).

Definition auditKeyValues (k : APIKey) : RedactedValues :=
  if String.eqb (APIKey_ID k) "" then None
  else
    let v := list_to_map [("id", AStr (APIKey_ID k)); ("name", AStr (APIKey_Name k));
               ("roles", AStrs (APIKey_Roles k)); ("admin_scopes", AStrs (APIKey_AdminScopes k));
               ("allow_models", AStrs (APIKey_AllowModels k)); ("deny_models", AStrs (APIKey_DenyModels k));
               ("revoked", ABool (Revoked k))] in
    let v := if negb (String.eqb (APIKey_Owner k) "") then <["owner" := AStr (APIKey_Owner k)]> v else v in
    let v := if negb (String.eqb (APIKey_Team k) "") then <["team" := AStr (APIKey_Team k)]> v else v in
    let v := if negb (String.eqb (APIKey_CreatedBy k) "")
             then <["created_by" := AStr (APIKey_CreatedBy k)]> v else v in
    let v := match APIKey_ExpiresAt k with
             | Some t => <["expires_at" := AInt (Time_Unix t)]> v | None => v end in
    let v := match APIKey_Limits k with
             | Some l => <["limits" := AUints [("rpm", Limits_RPM l); ("tpm", Limits_TPM l);
                            ("daily_tokens", Limits_DailyTokens l); ("monthly_tokens", Limits_MonthlyTokens l)]]> v
             | None => v end in
    Some v.

Definition newQuotaUsageResponse (s : Snapshot) : adminQuotaUsageResponse :=
  mkQuotaUsage (Snapshot_KeyID s) (limits_view (Snapshot_Limits s)) (RequestsThisMinute s) (TokensThisMinute s)
    (TokensToday s) (TokensThisMonth s) (Time_Unix (MinuteResetsAt s)) (Time_Unix (DayResetsAt s))
    (Time_Unix (MonthResetsAt s)).

(** ** Requests *)

Record adminCreateKeyRequest := mkCreateReq {
  CQ_Name : string; CQ_Owner : string; CQ_Team : string; CQ_Roles : list string;
  CQ_AdminScopes : list string; CQ_AllowModels : list string; CQ_DenyModels : list string;
  CQ_ExpiresAt : option Z }.
Record adminPermissionsRequest := mkPermReq {
  PQ_Roles : list string; PQ_AdminScopes : list string; PQ_AllowModels : list string; PQ_DenyModels : list string }.
Record adminQuotaRequest := mkQuotaReq {
  QQ_RPM : option Z; QQ_TPM : option Z; QQ_DailyTokens : option Z; QQ_MonthlyTokens : option Z }.

Definition auditOpKeyCreate : string := "key.create".
Definition auditOpKeyRevoke : string := "key.revoke".
Definition auditOpKeyRotate : string := "key.rotate".
Definition auditOpKeyPermissions : string := "key.permissions".
Definition auditOpKeyQuota : string := "key.quota".

Definition deref (p : option Z) : Z := match p with None => 0 | Some n => n end.

(** The error response of a failed validation, [None] when it passes. *)
Fixpoint validateScopes (scopes : list string) : option (list wact) :=
  match scopes with
  | [] => None
  | sc :: scopes =>
      if negb (ValidScope sc) then Some (writeError StatusBadRequest "invalid_request_error" "unknown admin scope")
      else validateScopes scopes
  end.
Fixpoint validateRoles (roles : list string) : option (list wact) :=
  match roles with
  | [] => None
  | r :: roles =>
      if negb (ValidRole r) then Some (writeError StatusBadRequest "invalid_request_error" "unknown role")
      else validateRoles roles
  end.
Definition parseExpiresAt (now : Time) (e : option Z) : list wact + option Time :=
  match e with
  | None => inr None
  | Some n =>
      if (n <=? 0) || negb (After (Unix n) now)
      then inl (writeError StatusBadRequest "invalid_request_error" "expires_at must be a unix timestamp in the future")
      else inr (Some (UTC (Unix n)))
  end.

Definition malformed : list wact := writeError StatusBadRequest "invalid_request_error" "malformed request body".

Definition parseUnixSeconds (v : string) : Time :=
  if String.eqb v "" then 0
  else match ParseInt v with None => 0 | Some n => UTC (Unix n) end.

Section admin.
Context {KS CS SS : Type} `{!KeyStore KS} `{!CounterStore CS} `{!SessionStore SS}.
Context (rand : nat → nat → result bytes).
Notation hserver := (HServer KS CS SS).
Notation handler := (hserver → hserver * list wact).

Definition recordAudit (now : Time) (c : context) (op target : string) (outcome : Outcome)
    (before after : RedactedValues) (s : hserver) : hserver :=
  match h_auditLog s with
  | None => s
  | Some log =>
      let actor := match c_key c with Some k => APIKey_ID k | None => "" end in
      let requestID := match c_requestID c with Some id => id | None => "" end in
      set_log (Some (AuditLog.Append now (AuditLog.mkEntry 0 actor op target before after requestID outcome) log).1) s
  end.

Definition writeAdminKeyError (err : error) : list wact :=
  if errors_Is err ErrNotFound then writeError StatusNotFound "not_found" "key not found"
  else writeError StatusInternalServerError "internal_error" "internal error".

(** [before, _ := s.auth.Get(...)]: the zero key on error. *)
Definition get_or_zero (id : string) (s : hserver) : APIKey :=
  match Auth.Get id (h_auth s) with Ok k => k | Err _ => APIKey_zero end.

Definition handleAdminCreateKey (body : option adminCreateKeyRequest) (k : hclock) (c : context) : handler :=
  λ s,
  match body with
  | None => (s, malformed)
  | Some req =>
  match validateRoles (CQ_Roles req) with
  | Some bad => (s, bad)
  | None =>
  match validateScopes (CQ_AdminScopes req) with
  | Some bad => (s, bad)
  | None =>
  match parseExpiresAt (hk_expiry k) (CQ_ExpiresAt req) with
  | inl bad => (s, bad)
  | inr expiresAt =>
      let actor := match c_key c with Some k => APIKey_ID k | None => "" end in
      let '(a, r) := CreateWithPermissions rand (hk_op k) (CQ_Name req)
        (mkPermissions (CQ_Roles req) (CQ_AdminScopes req) (CQ_AllowModels req) (CQ_DenyModels req)
           (CQ_Owner req) (CQ_Team req) expiresAt actor) (h_auth s) in
      let s := set_auth a s in
      match r with
      | Err _ =>
          (recordAudit (hk_audit k) c auditOpKeyCreate "" OutcomeFailure None None s,
           writeError StatusInternalServerError "internal_error" "could not create key")
      | Ok (token, key) =>
          (recordAudit (hk_audit k) c auditOpKeyCreate (APIKey_ID key) OutcomeSuccess None (auditKeyValues key) s,
           writeJSON StatusCreated (PCreated (mkCreateResponse (APIKey_ID key) (APIKey_Name key) (APIKey_Owner key)
             (APIKey_Team key) token (APIKey_Roles key) (APIKey_AdminScopes key) (APIKey_AllowModels key)
             (APIKey_DenyModels key) (Time_Unix (APIKey_CreatedAt key)) (APIKey_CreatedBy key)
             (match APIKey_ExpiresAt key with Some t => Some (Time_Unix t) | None => None end))))
      end
  end end end end.

Definition id_less (a b : APIKey) : bool := String.ltb (APIKey_ID a) (APIKey_ID b).

Definition handleAdminListKeys (r : Request) : handler :=
  λ s,
  let keys := SliceStable id_less (Auth.List (h_auth s)) in
  let '(limit, offset) := parsePageParams r in
  (s, writeList (map (λ k, RKey (newAdminKeyView k)) keys) limit offset).

Definition handleAdminGetKey (r : Request) : handler :=
  λ s,
  match Auth.Get (r_PathValue r "id") (h_auth s) with
  | Err e => (s, writeAdminKeyError e)
  | Ok key => (s, writeJSON StatusOK (PKey (newAdminKeyView key)))
  end.

Definition handleAdminRevokeKey (r : Request) (k : hclock) (c : context) : handler :=
  λ s,
  let id := r_PathValue r "id" in
  let before := get_or_zero id s in
  match Revoke (hk_op k) id (h_auth s) with
  | (a, Some err) =>
      (recordAudit (hk_audit k) c auditOpKeyRevoke id OutcomeFailure (auditKeyValues before) None (set_auth a s),
       writeAdminKeyError err)
  | (a, None) =>
      let s := set_auth a s in
      let after := get_or_zero id s in
      (recordAudit (hk_audit k) c auditOpKeyRevoke id OutcomeSuccess (auditKeyValues before) (auditKeyValues after) s,
       [WriteHeader StatusNoContent])
  end.

Definition handleAdminRotateKey (r : Request) (k : hclock) (c : context) : handler :=
  λ s,
  let id := r_PathValue r "id" in
  match Rotate rand id (h_auth s) with
  | (a, Err err) =>
      (recordAudit (hk_audit k) c auditOpKeyRotate id OutcomeFailure None None (set_auth a s), writeAdminKeyError err)
  | (a, Ok token) =>
      (recordAudit (hk_audit k) c auditOpKeyRotate id OutcomeSuccess None None (set_auth a s),
       writeJSON StatusOK (PRotated id token))
  end.

(** The shared tail of the two updates: the audit entry and the response. *)
Definition finish_update (op id : string) (before : APIKey) (k : hclock) (c : context)
    (res : @Service KS * result APIKey) (s : hserver) : hserver * list wact :=
  match res with
  | (a, Err err) =>
      (recordAudit (hk_audit k) c op id OutcomeFailure (auditKeyValues before) None (set_auth a s),
       writeAdminKeyError err)
  | (a, Ok key) =>
      (recordAudit (hk_audit k) c op id OutcomeSuccess (auditKeyValues before) (auditKeyValues key) (set_auth a s),
       writeJSON StatusOK (PKey (newAdminKeyView key)))
  end.

Definition handleAdminSetPermissions (body : option adminPermissionsRequest) (r : Request) (k : hclock)
    (c : context) : handler :=
  λ s,
  match body with
  | None => (s, malformed)
  | Some req =>
  match validateRoles (PQ_Roles req) with
  | Some bad => (s, bad)
  | None =>
  match validateScopes (PQ_AdminScopes req) with
  | Some bad => (s, bad)
  | None =>
      let id := r_PathValue r "id" in
      let before := get_or_zero id s in
      finish_update auditOpKeyPermissions id before k c
        (SetPermissions id (mkPermissions (PQ_Roles req) (PQ_AdminScopes req) (PQ_AllowModels req)
           (PQ_DenyModels req) "" "" None "") (h_auth s)) s
  end end end.

Definition handleAdminSetQuota (body : option adminQuotaRequest) (r : Request) (k : hclock) (c : context)
    : handler :=
  λ s,
  match body with
  | None => (s, malformed)
  | Some req =>
      let limits :=
        match QQ_RPM req, QQ_TPM req, QQ_DailyTokens req, QQ_MonthlyTokens req with
        | None, None, None, None => None
        | a, b, d, m => Some (mkLimits (deref a) (deref b) (deref d) (deref m))
        end in
      let id := r_PathValue r "id" in
      let before := get_or_zero id s in
      finish_update auditOpKeyQuota id before k c (SetLimits id limits (h_auth s)) s
  end.

Definition handleAdminGetQuota (r : Request) (now : Time) : handler :=
  λ s,
  match Auth.Get (r_PathValue r "id") (h_auth s) with
  | Err e => (s, writeAdminKeyError e)
  | Ok key =>
      let '(q, res) := UsageForKey now key (s_quota (h_ctl s)) in
      let s := set_ctl (set_quota q (h_ctl s)) s in
      match res with
      | Err _ => (s, writeError StatusInternalServerError "internal_error" "could not read usage")
      | Ok snap => (s, writeJSON StatusOK (PQuota (newQuotaUsageResponse snap)))
      end
  end.

Definition handleAdminAudit (r : Request) : handler :=
  λ s,
  let filter := mkFilter (r_Query r "actor") (r_Query r "op") (r_Query r "target")
                  (parseUnixSeconds (r_Query r "since")) (parseUnixSeconds (r_Query r "until")) in
  let entries := match h_auditLog s with Some log => AuditLog.List filter 0 log | None => [] end in
  let '(limit, offset) := parsePageParams r in
  (s, writeList (map RAudit entries) limit offset).

(** *** The routes of the key writes *)

Inductive keyWrite :=
| WCreate (body : option adminCreateKeyRequest)
| WRevoke
| WRotate
| WPermissions (body : option adminPermissionsRequest)
| WQuota (body : option adminQuotaRequest).

Definition handle_write (w : keyWrite) (r : Request) (k : hclock) (c : context) : handler :=
  match w with
  | WCreate body => handleAdminCreateKey body k c
  | WRevoke => handleAdminRevokeKey r k c
  | WRotate => handleAdminRotateKey r k c
  | WPermissions body => handleAdminSetPermissions body r k c
  | WQuota body => handleAdminSetQuota body r k c
  end.

(** As registered: authenticate, require keys:write, replay, handle. *)
Definition serve_write (w : keyWrite) (r : Request) (k : hclock) (c : context) : handler :=
  requireScopeWrite ScopeKeysWrite (handle_write w r k) k r c.
End admin.

(** ** What the handlers do *)

(** The operation name a write is recorded under. *)
Definition write_op (w : keyWrite) : string :=
  match w with
  | WCreate _ => auditOpKeyCreate | WRevoke => auditOpKeyRevoke | WRotate => auditOpKeyRotate
  | WPermissions _ => auditOpKeyPermissions | WQuota _ => auditOpKeyQuota
  end.
Definition actor_of (c : context) : string := match c_key c with Some k => APIKey_ID k | None => "" end.
Definition reqid_of (c : context) : string := match c_requestID c with Some id => id | None => "" end.

Lemma validateRoles_400 roles bad : validateRoles roles = Some bad → resp_status (respond bad) = 400.
Proof. induction roles as [|r roles IH]; simpl; [done|]. case_match; [by intros [= <-]|done]. Qed.
Lemma validateScopes_400 scopes bad : validateScopes scopes = Some bad → resp_status (respond bad) = 400.
Proof. induction scopes as [|r scopes IH]; simpl; [done|]. case_match; [by intros [= <-]|done]. Qed.
Lemma parseExpiresAt_400 now e bad : parseExpiresAt now e = inl bad → resp_status (respond bad) = 400.
Proof. unfold parseExpiresAt. destruct e; [|done]. case_match; [by intros [= <-]|done]. Qed.
Lemma keyError_over e : 400 < resp_status (respond (writeAdminKeyError e)).
Proof. unfold writeAdminKeyError. by case_match. Qed.

Section handlers.
Context {KS CS SS : Type} `{!KeyStore KS} `{!CounterStore CS} `{!SessionStore SS}.
Context (rand : nat → nat → result bytes).
Notation hserver := (HServer KS CS SS).

(** The key a write's entry names: the addressed one; for a create, the key
    returned to the caller, or none when there is none. *)
Definition write_target (w : keyWrite) (r : Request) (outcome : Outcome) (acts : list wact) (target : string) : Prop :=
  match w with
  | WCreate _ =>
      if String.eqb outcome OutcomeSuccess
      then ∃ v, resp_body (respond acts) = [PCreated v] ∧ target = CR_ID v
      else target = ""
  | _ => target = r_PathValue r "id"
  end.

(** [s'] is [s] with new keys and one more audit entry, which tells the status. *)
Definition audited (k : hclock) (c : context) (op : string) (target : Outcome → list wact → string → Prop)
    (s s' : hserver) (acts : list wact) : Prop :=
  ∃ (a : @Service KS) tgt before after outcome,
    target outcome acts tgt ∧ s' = recordAudit (hk_audit k) c op tgt outcome before after (set_auth a s) ∧
    (resp_status (respond acts) = 400 → False) ∧
    (outcome = OutcomeSuccess ∧ 200 <= resp_status (respond acts) < 300 ∨
     outcome = OutcomeFailure ∧ 400 <= resp_status (respond acts)).

Lemma audited_ok k c op target (s : hserver) a tgt before after acts :
  target OutcomeSuccess acts tgt → 200 <= resp_status (respond acts) < 300 →
  audited k c op target s (recordAudit (hk_audit k) c op tgt OutcomeSuccess before after (set_auth a s)) acts.
Proof. intros Ht H. exists a, tgt, before, after, OutcomeSuccess. split_and!; [done..|lia|by left]. Qed.

Lemma audited_failed k c op target (s : hserver) a tgt before after acts :
  target OutcomeFailure acts tgt → 400 < resp_status (respond acts) →
  audited k c op target s (recordAudit (hk_audit k) c op tgt OutcomeFailure before after (set_auth a s)) acts.
Proof. intros Ht H. exists a, tgt, before, after, OutcomeFailure. split_and!; [done..|lia|right; split; [done|lia]]. Qed.

Lemma finish_update_audited op id before k c res (s : hserver) target :
  (∀ o acts, target o acts id) →
  let '(s', acts) := finish_update op id before k c res s in audited k c op target s s' acts.
Proof.
  intros Ht. destruct res as [a [key|e]]; simpl.
  - apply audited_ok; [done|]. change (200 <= 200 < 300). lia.
  - apply audited_failed; [done|]. apply keyError_over.
Qed.

Definition refused (s s' : hserver) (acts : list wact) : Prop :=
  resp_status (respond acts) = 400 ∧ s' = s.

Lemma handle_write_cases w r k c (s : hserver) :
  let '(s', acts) := handle_write rand w r k c s in
  refused s s' acts ∨
  audited k c (write_op w) (write_target w r) s s' acts.
Proof.
  destruct w as [body| | |body|body]; simpl.
  - unfold handleAdminCreateKey. destruct body as [req|]; [|by left].
    destruct (validateRoles _) eqn:E1; [left; split; [by eapply validateRoles_400|done]|].
    destruct (validateScopes _) eqn:E2; [left; split; [by eapply validateScopes_400|done]|].
    destruct (parseExpiresAt _ _) eqn:E3; [left; split; [by eapply parseExpiresAt_400|done]|].
    destruct (CreateWithPermissions _ _ _ _ _) as [a [[token key]|e]]; right.
    + apply audited_ok; [|change (200 <= 201 < 300); lia]. eexists. split; reflexivity.
    + apply audited_failed; [done|]. change (400 < 500). lia.
  - unfold handleAdminRevokeKey. destruct (Revoke _ _ _) as [a [e|]]; right.
    + apply audited_failed; [done|]. apply keyError_over.
    + apply audited_ok; [done|]. change (200 <= 204 < 300). lia.
  - unfold handleAdminRotateKey. destruct (Rotate _ _ _) as [a [t|e]]; right.
    + apply audited_ok; [done|]. change (200 <= 200 < 300). lia.
    + apply audited_failed; [done|]. apply keyError_over.
  - unfold handleAdminSetPermissions. destruct body as [req|]; [|by left].
    destruct (validateRoles _) eqn:E1; [left; split; [by eapply validateRoles_400|done]|].
    destruct (validateScopes _) eqn:E2; [left; split; [by eapply validateScopes_400|done]|].
    pose proof (finish_update_audited auditOpKeyPermissions (r_PathValue r "id")
      (get_or_zero (r_PathValue r "id") s) k c
      (SetPermissions (r_PathValue r "id") (mkPermissions (PQ_Roles req) (PQ_AdminScopes req)
         (PQ_AllowModels req) (PQ_DenyModels req) "" "" None "") (h_auth s)) s
      (write_target (WPermissions (Some req)) r) (λ _ _, eq_refl)) as H.
    destruct (finish_update _ _ _ _ _ _ _). by right.
  - unfold handleAdminSetQuota. destruct body as [req|]; [|by left].
    match goal with |- context [SetLimits ?i ?l ?a] =>
      pose proof (finish_update_audited auditOpKeyQuota i (get_or_zero i s) k c (SetLimits i l a) s
        (write_target (WQuota (Some req)) r) (λ _ _, eq_refl)) as H end.
    destruct (finish_update _ _ _ _ _ _ _). by right.
Qed.

(** C21: Every key write is audited exactly once, and the entry tells the outcome.
    A create, revoke, rotate, permission or quota request either is refused with
    400, leaving the server as it was and the audit log without an entry, or
    appends one entry carrying the caller's key id, the operation, the addressed
    key (for a create, the minted one) and the request id; the entry says success
    exactly when the response is 2xx and failure exactly when it is an error; and
    besides the keys and the log the server is unchanged. *)
Theorem admin_write_audited w r k c (s : hserver) log :
  h_auditLog s = Some log →
  let '(s', acts) := handle_write rand w r k c s in
  let status := resp_status (respond acts) in
  h_ctl s' = h_ctl s ∧ h_idem s' = h_idem s ∧ RateLimitStats s' = RateLimitStats s ∧
  if status =? 400 then s' = s
  else ∃ target before after outcome,
    h_auditLog s' = Some (AuditLog.Append (hk_audit k)
      (AuditLog.mkEntry 0 (actor_of c) (write_op w) target before after (reqid_of c) outcome) log).1 ∧
    write_target w r outcome acts target ∧
    (outcome = OutcomeSuccess ∧ 200 <= status < 300 ∨ outcome = OutcomeFailure ∧ 400 < status).
Proof.
  intros Hl. pose proof (handle_write_cases w r k c s) as H.
  destruct (handle_write rand w r k c s) as [s' acts]. cbv zeta.
  destruct H as [[Hst ->]|(a & tgt & before & after & o & Ht & -> & H4 & Ho)].
  - by rewrite Hst.
  - destruct (Z.eqb_spec (resp_status (respond acts)) 400) as [E|E]; [by destruct H4|].
    unfold recordAudit. cbn [h_auditLog set_auth]. rewrite Hl. split_and!; [done..|].
    exists tgt, before, after, o. split_and!; [done|done|]. destruct Ho as [Ho|[-> Ho]]; [by left|right].
    split; [done|lia].
Qed.
End handlers.

(** ** Access *)

Section access.
Context {KS CS SS : Type} `{!KeyStore KS} `{!CounterStore CS} `{!SessionStore SS}.
Context (rand : nat → nat → result bytes).
Notation hserver := (HServer KS CS SS).
Notation handler := (hserver → hserver * list wact).
Notation keys s := (keys_of (Service_store (h_auth s))).

(** The key a request's token is a good credential for. *)
Definition presents (m : keyset) (now : Time) (r : Request) (key : APIKey) : Prop :=
  ∃ tok, tokenFromRequest r = Some tok ∧ credential m now tok key.

Lemma auth_refused (next : context → handler) k r c (s : hserver) :
  (∀ key, ¬ presents (keys s) (hk_auth k) r key) →
  let '(s', acts) := authMiddleware next k r c s in s' = s ∧ resp_status (respond acts) = 401.
Proof.
  intros Hno. unfold authMiddleware. destruct (tokenFromRequest r) as [tok|] eqn:Et; [|done].
  rewrite authenticate_bad by (intros key Hc; apply (Hno key); by exists tok).
  rewrite errors_Is_refl. split; [by destruct s|done].
Qed.

Lemma auth_accepted (next : context → handler) k r c (s : hserver) key :
  presents (keys s) (hk_auth k) r key →
  let used := set_used (hk_used k) key in
  ∃ a, (keys_of (Service_store a) = <[APIKey_ID key := used]> (keys s) ∧
        authMiddleware next k r c s = next (withKey used c) (set_auth a s)) ∨
       ((keys_of (Service_store a) = <[APIKey_ID key := used]> (keys s) ∨ keys_of (Service_store a) = keys s) ∧
        let '(s', acts) := authMiddleware next k r c s in s' = set_auth a s ∧ 400 < resp_status (respond acts)).
Proof.
  intros (tok & Ht & Hc). unfold authMiddleware. rewrite Ht.
  pose proof (authenticate_good (hk_auth k) (hk_used k) tok (h_auth s) key Hc) as H.
  destruct (Authenticate _ _ _ _) as [a res]. exists a. destruct H as [[-> Ha]|(e & -> & Ha)].
  - left. by split.
  - right. split; [done|]. by destruct (errors_Is _ _).
Qed.

(** The gate in front of the admin writes, whatever the handler. A request
    without a good credential gets 401 and changes nothing.  A good one is counted
    as a use of its key; then, if the key lacks the route's scope, the response is
    403 and nothing else changes, and if it has it (or the admin role) the handler
    runs behind the replay cache with that key as the caller.  When the use cannot
    be stored the response is an error and the handler does not run. *)
Theorem admin_write_gated scope (h : context → handler) k r c (s : hserver) :
  ((∀ key, ¬ presents (keys s) (hk_auth k) r key) →
   let '(s', acts) := requireScopeWrite scope h k r c s in
   s' = s ∧ resp_status (respond acts) = 401) ∧
  (∀ key, presents (keys s) (hk_auth k) r key →
   let used := set_used (hk_used k) key in
   ∃ a, let s1 := set_auth a s in
     (keys s1 = <[APIKey_ID key := used]> (keys s) ∧
      if bool_decide (RoleAdmin ∈ APIKey_Roles key ∨ scope ∈ APIKey_AdminScopes key)
      then requireScopeWrite scope h k r c s = idempotent h k r (withKey used c) s1
      else let '(s', acts) := requireScopeWrite scope h k r c s in
           s' = s1 ∧ resp_status (respond acts) = 403) ∨
     ((keys s1 = <[APIKey_ID key := used]> (keys s) ∨ keys s1 = keys s) ∧
      let '(s', acts) := requireScopeWrite scope h k r c s in s' = s1 ∧ 400 < resp_status (respond acts))).
Proof.
  split; [apply auth_refused|]. intros key Hp used. unfold requireScopeWrite.
  destruct (auth_accepted (scopeMiddleware scope (idempotent h k r)) k r c s key Hp) as (a & [[Ha ->]|[Ha Hr]]);
    exists a; [left|right; by split]. split; [exact Ha|].
  unfold scopeMiddleware. cbn [c_key withKey]. change (HasScope (set_used (hk_used k) key) scope) with (HasScope key scope).
  pose proof (HasScope_spec key scope) as Hs.
  case_bool_decide as Hb; [by rewrite (proj2 Hs Hb)|].
  destruct (HasScope key scope); [by destruct Hb; apply Hs|done].
Qed.

(** *** Runs of key writes *)

Lemma recordAudit_auth now c op t o b a (s : hserver) : h_auth (recordAudit now c op t o b a s) = h_auth s.
Proof. unfold recordAudit. by destruct (h_auditLog s). Qed.

Lemma idempotent_auth (next : context → handler) k r c (s : hserver) :
  h_auth (idempotent next k r c s).1 = h_auth s ∨
  ∃ s0, h_auth s0 = h_auth s ∧ h_auth (idempotent next k r c s).1 = h_auth (next c s0).1.
Proof.
  unfold idempotent. destruct (_ || _); [right; by exists s|]. destruct (c_key c) as [actor|]; [|right; by exists s].
  destruct (cache_get _ _ _) as [cache [hit|]]; [by left|right]. exists (set_idem cache s). split; [done|].
  destruct (next c _) as [s0 acts]. by case_match.
Qed.

Lemma finish_update_auth op id before k c res (s : hserver) :
  h_auth (finish_update op id before k c res s).1 = res.1.
Proof. destruct res as [a [key|e]]; simpl; by rewrite recordAudit_auth. Qed.

(** A handler makes at most one call of the key service. *)
Lemma handle_write_auth w r k c (s : hserver) :
  ∃ ops, h_auth (handle_write rand w r k c s).1 = aexec rand ops (h_auth s).
Proof.
  assert (∃ ops, h_auth s = aexec rand ops (h_auth s)) as Hnil by by exists [].
  destruct w as [body| | |body|body]; simpl.
  - unfold handleAdminCreateKey. destruct body as [req|]; [|done].
    destruct (validateRoles _); [done|]. destruct (validateScopes _); [done|].
    destruct (parseExpiresAt _ _) as [|exp]; [done|].
    match goal with |- context [CreateWithPermissions rand ?n ?nm ?p ?a] =>
      exists [OCreate n nm p]; simpl; destruct (CreateWithPermissions rand n nm p a) as [a' [[tok key]|e]] end;
      simpl; by rewrite recordAudit_auth.
  - exists [ORevoke (hk_op k) (r_PathValue r "id")]. unfold handleAdminRevokeKey. simpl.
    destruct (Revoke _ _ _) as [a [e|]]; simpl; by rewrite recordAudit_auth.
  - exists [ORotate (r_PathValue r "id")]. unfold handleAdminRotateKey. simpl.
    destruct (Rotate _ _ _) as [a [e|]]; simpl; by rewrite recordAudit_auth.
  - unfold handleAdminSetPermissions. destruct body as [req|]; [|done].
    destruct (validateRoles _); [done|]. destruct (validateScopes _); [done|].
    rewrite finish_update_auth. by eexists [OSetPermissions _ _].
  - unfold handleAdminSetQuota. destruct body as [req|]; [|done].
    rewrite finish_update_auth. by eexists [OSetLimits _ _].
Qed.

Lemma aexec_app ops ops' (a : @Service KS) : aexec rand (ops ++ ops') a = aexec rand ops' (aexec rand ops a).
Proof. revert a. induction ops as [|o ops IH]; intros a; simpl; [done|]. apply IH. Qed.

Lemma serve_write_auth w r k c (s : hserver) :
  ∃ ops, h_auth (serve_write rand w r k c s).1 = aexec rand ops (h_auth s).
Proof.
  unfold serve_write, requireScopeWrite, authMiddleware.
  destruct (tokenFromRequest r) as [tok|]; [|by exists []].
  pose (o := OAuthenticate (hk_auth k) (hk_used k) tok).
  assert (h_auth (set_auth (Authenticate (hk_auth k) (hk_used k) tok (h_auth s)).1 s) =
          aexec rand [o] (h_auth s)) as Ho by done.
  destruct (Authenticate _ _ _ _) as [a [key|e]]; [|destruct (errors_Is _ _); by exists [o]].
  unfold scopeMiddleware. cbn [c_key withKey]. destruct (HasScope key _); [|by exists [o]]. simpl negb.
  cbv iota. cbn [fst] in Ho.
  destruct (idempotent_auth (handle_write rand w r k) k r (withKey key c) (set_auth a s)) as [->|(s0 & Hs0 & ->)].
  { by exists [o]. }
  destruct (handle_write_auth w r k (withKey key c) s0) as (ops & ->). exists ([o] ++ ops).
  by rewrite aexec_app, Hs0, Ho.
Qed.

(** A request in a run of key writes. *)
Record keyRequest := mkKeyRequest { kr_write : keyWrite; kr_req : Request; kr_clock : hclock; kr_ctx : context }.
Definition serve_writes (l : list keyRequest) (s : hserver) : hserver :=
  fold_left (λ s q, (serve_write rand (kr_write q) (kr_req q) (kr_clock q) (kr_ctx q) s).1) l s.

Lemma serve_writes_auth l (s : hserver) : ∃ ops, h_auth (serve_writes l s) = aexec rand ops (h_auth s).
Proof.
  revert s. induction l as [|q l IH]; intros s; [by exists []|]. simpl.
  destruct (serve_write_auth (kr_write q) (kr_req q) (kr_clock q) (kr_ctx q) s) as (ops & E).
  destruct (IH (serve_write rand (kr_write q) (kr_req q) (kr_clock q) (kr_ctx q) s).1) as (ops' & E').
  exists (ops ++ ops'). by rewrite aexec_app, <- E.
Qed.

Lemma revoke_revokes r k c (s : hserver) :
  keyed (keys s) → resp_status (respond (handleAdminRevokeKey r k c s).2) = 204 →
  ∃ key, keys (handleAdminRevokeKey r k c s).1 !! r_PathValue r "id" = Some key ∧ Revoked key = true ∧
    keyed (keys (handleAdminRevokeKey r k c s).1) ∧
    Service_reads (h_auth (handleAdminRevokeKey r k c s).1) = Service_reads (h_auth s).
Proof.
  intros Hk. unfold handleAdminRevokeKey. destruct (Revoke _ _ _) as [a [e|]] eqn:E; cbn [fst snd].
  { intros H. pose proof (keyError_over e). lia. }
  intros _. rewrite recordAudit_auth. cbn [h_auth set_auth]. unfold Revoke in E. rewrite GetAPIKey_spec in E.
  destruct (keys s !! r_PathValue r "id") as [key|] eqn:Hid; [|done].
  destruct (Revoked key) eqn:Er; [injection E as <-; by exists key|].
  pose proof (PutAPIKey_spec (set_revoked (UTC (hk_op k)) key) (Service_store (h_auth s))) as Hp.
  destruct (PutAPIKey _ _) as [st [e|]]; [done|]. injection E as <-. destruct Hp as [Hp|[? _]]; [|done].
  simpl in *. rewrite (Hk _ _ Hid) in Hp. exists (set_revoked (UTC (hk_op k)) key). rewrite Hp.
  split_and!; [apply lookup_insert_eq|done| |done].
  rewrite <- (Hk _ _ Hid) at 1. apply (keyed_insert _ (set_revoked (UTC (hk_op k)) key) Hk).
Qed.

(** Revoking a key locks its holder out for good. Once a revoke has been
    answered 204, then after any further run of key-management requests by anyone
    (creates, rotations, permission and quota changes, revocations, replays
    included) whose minted ids do not collide with it, every request bearing a
    token for that key gets 401 on every authenticated route and changes nothing. *)
Theorem revoked_key_locked_out r k c (s : hserver) later (next : context → handler) k' r' c' secret :
  keyed (keys s) → never_minted rand (r_PathValue r "id") (h_auth s) →
  resp_status (respond (handleAdminRevokeKey r k c s).2) = 204 →
  tokenFromRequest r' = Some (formatToken (r_PathValue r "id") secret) →
  parseToken (formatToken (r_PathValue r "id") secret) = Some (r_PathValue r "id", secret) →
  let s1 := serve_writes later (handleAdminRevokeKey r k c s).1 in
  let '(s2, acts) := authMiddleware next k' r' c' s1 in s2 = s1 ∧ resp_status (respond acts) = 401.
Proof.
  intros Hk Hn Hst Ht Hp. destruct (revoke_revokes r k c s Hk Hst) as (key & Hid & Hr & Hk1 & Hrd).
  set (s0 := (handleAdminRevokeKey r k c s).1) in *. intros s1.
  destruct (serve_writes_auth later s0) as (ops & Ho). fold s1 in Ho.
  assert (never_minted rand (r_PathValue r "id") (h_auth s0)) as Hn1 by (intros i b; rewrite Hrd; apply Hn).
  destruct (aexec_evolves rand ops (h_auth s0) _ key Hk1 Hn1 Hid) as (_ & key' & Hk' & Hev).
  rewrite <- Ho in Hk'. apply auth_refused. intros k2 (tok & Ht2 & (id & sec & Hp2 & Hm & _ & Hr2 & _)).
  rewrite Ht in Ht2. injection Ht2 as <-. rewrite Hp in Hp2. injection Hp2 as <- <-.
  rewrite Hk' in Hm. injection Hm as <-. unfold Revoked in Hr, Hr2.
  destruct (APIKey_RevokedAt key) as [t|] eqn:Et; [|done].
  destruct (ev_revoked _ _ Hev t Et) as (E' & _). by rewrite E' in Hr2.
Qed.
End access.

(** ** Secrets *)

(** A key without its secret hash and salt. *)
Definition erase (k : APIKey) : APIKey := set_secret [] [] k.

Lemma view_erase k : newAdminKeyView (erase k) = newAdminKeyView k.
Proof. by destruct k. Qed.
Lemma values_erase k : auditKeyValues (erase k) = auditKeyValues k.
Proof. by destruct k. Qed.
Lemma erase_erase k : erase (erase k) = erase k.
Proof. by destruct k. Qed.

#[export] Instance id_less_order : StrictWeakOrder id_less := string_order APIKey_ID.

Section secrets.
Context (range_keys : keyset → list APIKey) (Hrange : range_spec range_keys).
Context {CS SS : Type} `{!CounterStore CS} `{!SessionStore SS}.
Context (rand : nat → nat → result bytes).
#[local] Instance secrets_keys : KeyStore Memory := Memory_KeyStore range_keys (Hrange := Hrange).
Notation hserver := (HServer Memory CS SS).
Notation service := (@Service Memory).

Definition erase_keys (a : service) : service :=
  mkService (mkMemory (erase <$> Memory_keys (Service_store a))) (Service_reads a).
Definition erase_server (s : hserver) : hserver := set_auth (erase_keys (h_auth s)) s.

(** Results equal up to the secrets in the key store. *)
Definition same_upto {B} (x y : service * B) : Prop := erase_keys x.1 = erase_keys y.1 ∧ x.2 = y.2.

Lemma get_erase id (a : service) :
  GetAPIKey id (Service_store (erase_keys a)) =
  match GetAPIKey id (Service_store a) with Ok k => Ok (erase k) | Err e => Err e end.
Proof.
  rewrite !GetAPIKey_spec. simpl. rewrite lookup_fmap. by destruct (Memory_keys (Service_store a) !! id).
Qed.

Lemma put_erase k k' m : erase k = erase k' →
  (erase <$> <[APIKey_ID k := k]> (erase <$> m) : keyset) = erase <$> <[APIKey_ID k' := k']> m.
Proof.
  intros E. assert (APIKey_ID k = APIKey_ID k') as -> by exact (f_equal APIKey_ID E).
  rewrite !fmap_insert, E, <- map_fmap_compose. f_equal.
Qed.

Lemma erase_keys_idem (a : service) : erase_keys (erase_keys a) = erase_keys a.
Proof.
  unfold erase_keys. cbn [Service_store Service_reads Memory_keys]. do 2 f_equal.
  rewrite <- map_fmap_compose. apply map_fmap_ext. intros i x _. apply erase_erase.
Qed.

(** Storing versions of a key that differ only in the secrets. *)
Lemma store_erase k k' (a : service) : erase k = erase k' →
  erase_keys (with_store (PutAPIKey k (Service_store (erase_keys a))).1 (erase_keys a)) =
  erase_keys (with_store (PutAPIKey k' (Service_store a)).1 a).
Proof. intros E. unfold erase_keys. simpl. rewrite !cloneAPIKey_eq. do 2 f_equal. by apply put_erase. Qed.

Lemma mintSecret_erase (a : service) :
  mintSecret rand (erase_keys a) = (erase_keys (mintSecret rand a).1, (mintSecret rand a).2).
Proof. unfold mintSecret, randBytes. simpl. by destruct (rand _ _); [destruct (rand _ _)|]. Qed.

Lemma mint_erase (a : service) : mint rand (erase_keys a) = (erase_keys (mint rand a).1, (mint rand a).2).
Proof.
  unfold mint, randBytes. cbn [Service_store Service_reads erase_keys]. destruct (rand _ _) as [b|e]; [|done].
  change (mkService (mkMemory (erase <$> Memory_keys (Service_store a))) (S (Service_reads a)))
    with (erase_keys (mkService (Service_store a) (S (Service_reads a)))).
  rewrite mintSecret_erase. by destruct (mintSecret rand _) as [s [[[sec salt] hash]|e]].
Qed.

Lemma create_erase now name perms (a : service) :
  same_upto (CreateWithPermissions rand now name perms (erase_keys a)) (CreateWithPermissions rand now name perms a).
Proof.
  unfold CreateWithPermissions. rewrite mint_erase.
  destruct (mint rand a) as [a1 [[[[id secret] salt] hash]|e]]; cbn [fst snd]; [|by split; [apply erase_keys_idem|]].
  split; [|done]. by apply store_erase.
Qed.

Lemma revoke_erase now id (a : service) :
  same_upto (Revoke now id (erase_keys a)) (Revoke now id a).
Proof.
  unfold Revoke. rewrite get_erase. destruct (GetAPIKey id (Service_store a)) as [k|e]; [|by split; [apply erase_keys_idem|]].
  change (Revoked (erase k)) with (Revoked k). destruct (Revoked k); [by split; [apply erase_keys_idem|]|].
  split; [|done]. by apply store_erase.
Qed.

Lemma rotate_erase id (a : service) : same_upto (Rotate rand id (erase_keys a)) (Rotate rand id a).
Proof.
  unfold Rotate. rewrite get_erase. destruct (GetAPIKey id (Service_store a)) as [k|e]; [|by split; [apply erase_keys_idem|]].
  change (Revoked (erase k)) with (Revoked k). destruct (Revoked k); [by split; [apply erase_keys_idem|]|].
  rewrite mintSecret_erase. destruct (mintSecret rand a) as [a1 [[[secret salt] hash]|e]]; cbn [fst snd].
  - split; [|done]. by apply store_erase.
  - by split; [apply erase_keys_idem|].
Qed.

(** An update of the other fields returns the same key up to its secrets. *)
Lemma update_erase what f id (a : service) :
  (∀ k, erase (f (erase k)) = erase (f k)) →
  let x := update what f id (erase_keys a) in let y := update what f id a in
  erase_keys x.1 = erase_keys y.1 ∧
  match x.2, y.2 with Ok k, Ok k' => erase k = erase k' | Err e, Err e' => e = e' | _, _ => False end.
Proof.
  intros Hf. unfold update. rewrite get_erase.
  destruct (GetAPIKey id (Service_store a)) as [k|e]; [|by split; [apply erase_keys_idem|]].
  split; [|apply Hf]. by apply store_erase.
Qed.

Lemma record_erase now c op t o b af (s1 s2 : hserver) :
  erase_server s1 = erase_server s2 →
  erase_server (recordAudit now c op t o b af s1) = erase_server (recordAudit now c op t o b af s2).
Proof.
  intros E. pose proof (f_equal h_auditLog E) as Em. simpl in Em. unfold recordAudit. rewrite Em.
  destruct (h_auditLog s2) as [log|]; [|done].
  exact (f_equal (set_log _) E).
Qed.

Lemma get_or_zero_erase id (s : hserver) : auditKeyValues (get_or_zero id (erase_server s)) = auditKeyValues (get_or_zero id s).
Proof.
  unfold get_or_zero, Auth.Get. cbn [h_auth erase_server set_auth]. rewrite get_erase.
  destruct (GetAPIKey _ _); [apply values_erase|done].
Qed.

(** The server after a key operation, up to its secrets. *)
Lemma set_auth_erase a a' (s : hserver) :
  erase_keys a = erase_keys a' → erase_server (set_auth a (erase_server s)) = erase_server (set_auth a' s).
Proof. intros E. unfold erase_server. simpl. by rewrite E. Qed.

Definition alike (x y : hserver * list wact) : Prop := erase_server x.1 = erase_server y.1 ∧ x.2 = y.2.

Lemma finish_update_erase op id k c what f (s : hserver) :
  (∀ k, erase (f (erase k)) = erase (f k)) →
  alike (finish_update op id (get_or_zero id (erase_server s)) k c (update what f id (h_auth (erase_server s))) (erase_server s))
        (finish_update op id (get_or_zero id s) k c (update what f id (h_auth s)) s).
Proof.
  intros Hf. destruct (update_erase what f id (h_auth s) Hf) as [E1 E2].
  change (h_auth (erase_server s)) with (erase_keys (h_auth s)).
  destruct (update what f id (erase_keys (h_auth s))) as [a [key|e]], (update what f id (h_auth s)) as [a' [key'|e']];
    simpl in E1, E2; try done; unfold finish_update; rewrite get_or_zero_erase.
  - rewrite <- (values_erase key), <- (view_erase key), E2, values_erase, view_erase.
    split; [|done]. by apply record_erase, set_auth_erase.
  - subst e'. split; [|done]. by apply record_erase, set_auth_erase.
Qed.

Lemma handle_write_erase w r k c (s : hserver) :
  alike (handle_write rand w r k c (erase_server s)) (handle_write rand w r k c s).
Proof.
  assert (∀ acts, alike (erase_server s, acts) (s, acts)) as Hsame.
  { intros acts. split; [|done]. unfold erase_server. simpl. by rewrite erase_keys_idem. }
  destruct w as [body| | |body|body]; simpl.
  - unfold handleAdminCreateKey. destruct body as [req|]; [|apply Hsame].
    destruct (validateRoles _); [apply Hsame|]. destruct (validateScopes _); [apply Hsame|].
    destruct (parseExpiresAt _ _) as [|exp]; [apply Hsame|].
    change (h_auth (erase_server s)) with (erase_keys (h_auth s)).
    match goal with |- context [CreateWithPermissions rand ?n ?nm ?p (erase_keys _)] =>
      destruct (create_erase n nm p (h_auth s)) as [E1 E2] end.
    destruct (CreateWithPermissions _ _ _ _ (erase_keys _)) as [a r1],
      (CreateWithPermissions _ _ _ _ (h_auth s)) as [a' r2]. simpl in E1, E2. subst r2.
    destruct r1 as [[tok key]|e]; (split; [|done]); by apply record_erase, set_auth_erase.
  - unfold handleAdminRevokeKey. change (h_auth (erase_server s)) with (erase_keys (h_auth s)).
    rewrite get_or_zero_erase. destruct (revoke_erase (hk_op k) (r_PathValue r "id") (h_auth s)) as [E1 E2].
    destruct (Revoke _ _ (erase_keys _)) as [a r1], (Revoke _ _ (h_auth s)) as [a' r2]. simpl in E1, E2. subst r2.
    destruct r1 as [e|]; (split; [|done]); [by apply record_erase, set_auth_erase|].
    pose proof (set_auth_erase a a' s E1) as E. cbn [fst].
    rewrite <- (get_or_zero_erase _ (set_auth a _)), E, get_or_zero_erase. by apply record_erase.
  - unfold handleAdminRotateKey. change (h_auth (erase_server s)) with (erase_keys (h_auth s)).
    destruct (rotate_erase (r_PathValue r "id") (h_auth s)) as [E1 E2].
    destruct (Rotate _ _ (erase_keys _)) as [a r1], (Rotate _ _ (h_auth s)) as [a' r2]. simpl in E1, E2. subst r2.
    destruct r1 as [tok|e]; (split; [|done]); by apply record_erase, set_auth_erase.
  - unfold handleAdminSetPermissions. destruct body as [req|]; [|apply Hsame].
    destruct (validateRoles _); [apply Hsame|]. destruct (validateScopes _); [apply Hsame|].
    by apply finish_update_erase.
  - unfold handleAdminSetQuota. destruct body as [req|]; [|apply Hsame]. by apply finish_update_erase.
Qed.

Lemma list_erase r (s : hserver) :
  keyed (Memory_keys (Service_store (h_auth s))) →
  alike (handleAdminListKeys r (erase_server s)) (handleAdminListKeys r s).
Proof.
  intros Hk. unfold handleAdminListKeys, alike. destruct (parsePageParams r) as [limit offset]. cbn [fst snd].
  split; [unfold erase_server; simpl; by rewrite erase_keys_idem|].
  assert (SliceStable id_less (Auth.List (h_auth (erase_server s))) =
          map erase (SliceStable id_less (Auth.List (h_auth s)))) as ->.
  { rewrite <- SliceStable_map by done. apply SliceStable_proper; [apply id_less_order| |].
    - intros a b Ha Hb Hab Hba. unfold Auth.List in Ha, Hb. rewrite ListAPIKeys_spec in Ha, Hb.
      apply list_elem_of_fmap in Ha as ([i a'] & -> & Ha), Hb as ([j b'] & -> & Hb).
      apply elem_of_map_to_list in Ha, Hb. simpl in *. rewrite lookup_fmap in Ha, Hb.
      destruct (_ !! i) as [ka|] eqn:Ei; [|done]. destruct (_ !! j) as [kb|] eqn:Ej; [|done].
      injection Ha as <-. injection Hb as <-. unfold GoHeap.le, id_less in Hab, Hba. rewrite ltb_false in Hab, Hba.
      assert (APIKey_ID ka = APIKey_ID kb) as Hid by (by apply (anti_symm String.le)).
      rewrite (Hk _ _ Ei), (Hk _ _ Ej) in Hid. subst. rewrite Ei in Ej. by injection Ej as ->.
    - unfold Auth.List. rewrite !ListAPIKeys_spec. simpl. rewrite map_to_list_fmap.
      rewrite <- list_fmap_compose. change (map erase) with (fmap (M:=list) erase). by rewrite <- list_fmap_compose. }
  rewrite map_map. rewrite (map_ext _ (λ k, RKey (newAdminKeyView k)))
    by (intros key; by rewrite view_erase). done.
Qed.

(** C22: Secrets never leave the key service. Whatever a key-management request
    asks, its response, the audit entry it leaves and every other effect are the
    same as on a server whose stored hashes and salts have been blanked: creates,
    revocations, rotations, permission and quota changes, and the list, read,
    quota and audit queries do not depend on a stored hash or salt (the one-time
    token of a create or a rotation is made of fresh entropy alone). *)
Theorem secrets_not_disclosed w r k c now (s : hserver) :
  keyed (Memory_keys (Service_store (h_auth s))) →
  alike (handle_write rand w r k c (erase_server s)) (handle_write rand w r k c s) ∧
  alike (handleAdminListKeys r (erase_server s)) (handleAdminListKeys r s) ∧
  alike (handleAdminGetKey r (erase_server s)) (handleAdminGetKey r s) ∧
  alike (handleAdminGetQuota r now (erase_server s)) (handleAdminGetQuota r now s) ∧
  alike (handleAdminAudit r (erase_server s)) (handleAdminAudit r s).
Proof.
  intros Hk. assert (erase_server (erase_server s) = erase_server s) as Hee.
  { unfold erase_server. simpl. by rewrite erase_keys_idem. }
  split_and!; [apply handle_write_erase|by apply list_erase| | |].
  - unfold handleAdminGetKey, Auth.Get. change (h_auth (erase_server s)) with (erase_keys (h_auth s)).
    rewrite get_erase. destruct (GetAPIKey _ _) as [key|e]; [|done]. by rewrite view_erase.
  - unfold handleAdminGetQuota, Auth.Get. change (h_auth (erase_server s)) with (erase_keys (h_auth s)).
    rewrite get_erase. destruct (GetAPIKey _ _) as [key|e]; [|done].
    change (UsageForKey now (erase key)) with (UsageForKey (S := CS) now key).
    change (h_ctl (erase_server s)) with (h_ctl s). destruct (UsageForKey _ _ _) as [q [snap|e]]; (split; [|done]);
    exact (f_equal (set_ctl (set_quota q (h_ctl s))) Hee).
  - unfold handleAdminAudit. by destruct (parsePageParams r).
Qed.
End secrets.

(** ** Witnesses *)

#[local] Instance admin_demo_keys : KeyStore Memory := Memory_KeyStore Auth.demo_range (Hrange := Auth.demo_range_ok).
#[local] Instance admin_demo_sess : SessionStore MemorySessionStore := MSS_SessionStore demo_sessions demo_sessions_ok.

Definition demo_delete : Request :=
  mkRequest "DELETE" "/v1/admin/keys/0000000000000000" (λ _, "") (λ _, "")
    (λ p, if String.eqb p "id" then Auth.demo_id else "") (λ _, None).
Definition demo_bearer : Request :=
  mkRequest "GET" "/v1/models" (λ h, if String.eqb h "Authorization" then "Bearer agpu_0000000000000000_s" else "")
    (λ _, "") (λ _, "") (λ _, None).

Lemma demo_live_keyed : keyed (Memory_keys (Service_store (h_auth demo_http))).
Proof. intros id k. simpl. by intros [<- <-]%lookup_singleton_Some. Defined.

Lemma admin_write_audited_witness :
  ∃ target before after outcome,
    h_auditLog (handle_write Auth.demo_rand WRevoke demo_delete (demo_hclock 5) (demo_ctx demo_actor) demo_http).1 =
    Some (AuditLog.Append 5 (AuditLog.mkEntry 0 "k1" "key.revoke" target before after "req-1" outcome) (NewMemoryStore 10)).1.
Proof.
  pose proof (admin_write_audited Auth.demo_rand WRevoke demo_delete (demo_hclock 5) (demo_ctx demo_actor) demo_http
    (NewMemoryStore 10) eq_refl) as H.
  assert (resp_status (respond (handle_write Auth.demo_rand WRevoke demo_delete (demo_hclock 5) (demo_ctx demo_actor)
    demo_http).2) = 204) as E by (vm_compute; reflexivity).
  destruct (handle_write _ _ _ _ _ _) as [s' acts]. cbn [fst snd] in *. rewrite E in H.
  destruct H as (_ & _ & _ & t & b & a & o & H & _). exists t, b, a, o. exact H.
Defined.

Lemma admin_write_gated_witness :
  resp_status (respond (requireScopeWrite ScopeKeysWrite demo_handler (demo_hclock 5) demo_delete
    (demo_ctx demo_actor) demo_http).2) = 401.
Proof.
  pose proof (proj1 (admin_write_gated ScopeKeysWrite demo_handler (demo_hclock 5) demo_delete (demo_ctx demo_actor)
    demo_http)) as H.
  destruct (requireScopeWrite _ _ _ _ _ _) as [s' acts]. apply H. intros key (tok & Ht & _). vm_compute in Ht. discriminate Ht.
Defined.

Lemma demo_never_minted : never_minted Auth.demo_rand Auth.demo_id (mkService (S := Memory) (mkMemory ∅) 1).
Proof. intros i b Hi Hb. unfold Auth.demo_rand in Hb. injection Hb as <-. destruct i as [|i]; simpl in Hi; [lia|]. discriminate. Defined.

Definition demo_started : HServer Memory MemoryCounterStore MemorySessionStore :=
  set_auth (mkService (Service_store (h_auth demo_http)) 1) demo_http.

Lemma revoked_key_locked_out_witness :
  let s1 := serve_writes Auth.demo_rand [mkKeyRequest WRotate demo_delete (demo_hclock 7) (demo_ctx demo_actor)]
    (handleAdminRevokeKey demo_delete (demo_hclock 5) (demo_ctx demo_actor) demo_started).1 in
  resp_status (respond (authMiddleware demo_handler (demo_hclock 9) demo_bearer (demo_ctx demo_actor) s1).2) = 401.
Proof.
  intros s1.
  pose proof (revoked_key_locked_out Auth.demo_rand demo_delete (demo_hclock 5) (demo_ctx demo_actor) demo_started
    [mkKeyRequest WRotate demo_delete (demo_hclock 7) (demo_ctx demo_actor)] demo_handler (demo_hclock 9) demo_bearer
    (demo_ctx demo_actor) "s" demo_live_keyed demo_never_minted ltac:(vm_compute; reflexivity)
    ltac:(vm_compute; reflexivity) ltac:(vm_compute; reflexivity)) as H.
  cbv zeta in H. fold s1 in H. destruct (authMiddleware _ _ _ _ s1) as [s2 acts]. apply H.
Defined.

Lemma secrets_not_disclosed_witness :
  alike (handleAdminGetKey demo_delete (erase_server demo_http)) (handleAdminGetKey demo_delete demo_http).
Proof.
  exact (proj1 (proj2 (proj2 (secrets_not_disclosed Auth.demo_range Auth.demo_range_ok Auth.demo_rand WRevoke demo_delete
    (demo_hclock 5) (demo_ctx demo_actor) 5 demo_http demo_live_keyed)))).
Defined.
