(* ===== verification/RuntimeConfig.v ===== *)
(** * RuntimeConfig.v: settings changed while the server runs

    GET and PUT /v1/admin/config (httpapi/admin_config.go), the checkpoint of the
    overrides (admin_config_checkpoint.go) and the appliers that push a change into
    the running components (cmd/agentgpu/config_wiring.go).

    The keys of the settings are an enumeration with their JSON names; the switches
    of the code over the name are matches on it.  A request body is its decoded
    object, [None] when it is not one.  The text of an error message quotes values
    with strconv.Quote, here [quote], which nothing depends on. *)

From S2P Require Import Prelude Errors AtomicFile GoTime GoStrings GoConv GoDuration GoHeap GoSort Types Store Authz Scheduler Auth AuditLog Quota History Session Server Http HttpServer AdminApi.
Open Scope Z_scope.

(** ** JSON values *)

(** A decoded value, as far as the decoders here look: null, a string, an integer
    literal, the literal -0, anything else. *)
Inductive rawjson := JNull | JStr (s : string) | JInt (n : Z) | JNegZero | JElse.
#[export] Instance rawjson_eq_dec : EqDecision rawjson.
Proof. solve_decision. Defined.

(** [json.Unmarshal] into a string, uint64 and int; null leaves the zero value. *)
Definition unmarshal_string (j : rawjson) : option string :=
  match j with JNull => Some "" | JStr s => Some s | _ => None end.
Definition unmarshal_uint (j : rawjson) : option Z :=
  match j with JNull => Some 0 | JInt n => if (0 <=? n) && (n <? 2 ^ 64) then Some n else None | _ => None end.
Definition unmarshal_int (j : rawjson) : option Z :=
  match j with
  | JNull | JNegZero => Some 0
  | JInt n => if (minInt64 <=? n) && (n <=? maxInt64) then Some n else None
  | _ => None
  end.

(** ** The settings *)

Inductive field :=
| FLogLevel | FDefaultRPM | FDefaultTPM | FDefaultDaily | FDefaultMonthly | FGlobalRPM | FGlobalTPM
| FSessionTTL | FMaxTurns | FMaxBytes | FMaxContext | FMaxPerKey | FOverflow | FWarmMax | FHeartbeat.
#[export] Instance field_eq_dec : EqDecision field.
Proof. solve_decision. Defined.

Definition field_name (f : field) : string :=
  match f with
  | FLogLevel => "log_level"
  | FDefaultRPM => "quota_default_rpm" | FDefaultTPM => "quota_default_tpm"
  | FDefaultDaily => "quota_default_daily_tokens" | FDefaultMonthly => "quota_default_monthly_tokens"
  | FGlobalRPM => "quota_global_rpm" | FGlobalTPM => "quota_global_tpm"
  | FSessionTTL => "session_ttl" | FMaxTurns => "session_max_turns" | FMaxBytes => "session_max_bytes"
  | FMaxContext => "session_max_context_tokens" | FMaxPerKey => "session_max_sessions_per_key"
  | FOverflow => "session_overflow_policy" | FWarmMax => "model_warm_max" | FHeartbeat => "heartbeat_timeout"
  end.
Definition all_fields : list field :=
  [FLogLevel; FDefaultRPM; FDefaultTPM; FDefaultDaily; FDefaultMonthly; FGlobalRPM; FGlobalTPM; FSessionTTL;
   FMaxTurns; FMaxBytes; FMaxContext; FMaxPerKey; FOverflow; FWarmMax; FHeartbeat].

(** The case of a switch over the keys that a key selects. *)
Definition field_of (key : string) : option field := find (λ f, String.eqb (field_name f) key) all_fields.
Definition isTunableField (key : string) : bool := match field_of key with Some _ => true | None => false end.

Definition readOnlyFields : list string :=
  ["log_format"; "log_output"; "quota_path"; "server_http_listen"; "server_listen"; "server_metrics_listen";
   "session_path"].
Definition isReadOnlyField (key : string) : bool := existsb (String.eqb key) readOnlyFields.

(** [fieldValue], as the value and as the audit log carries it. *)
Definition fieldValue (c : ConfigSettings) (f : field) : string + Z :=
  match f with
  | FLogLevel => inl (LogLevel c)
  | FDefaultRPM => inr (QuotaDefaultRPM c) | FDefaultTPM => inr (QuotaDefaultTPM c)
  | FDefaultDaily => inr (QuotaDefaultDailyTokens c) | FDefaultMonthly => inr (QuotaDefaultMonthlyTokens c)
  | FGlobalRPM => inr (QuotaGlobalRPM c) | FGlobalTPM => inr (QuotaGlobalTPM c)
  | FSessionTTL => inl (SessionTTL c) | FMaxTurns => inr (SessionMaxTurns c)
  | FMaxBytes => inr (SessionMaxBytes c) | FMaxContext => inr (SessionMaxContextTokens c)
  | FMaxPerKey => inr (SessionMaxSessionsPerKey c) | FOverflow => inl (SessionOverflowPolicy c)
  | FWarmMax => inl (SettingModelWarmMax c) | FHeartbeat => inl (SettingHeartbeatTimeout c)
  end.
Definition audit_value (v : string + Z) : anyv := match v with inl s => AStr s | inr n => AInt n end.

(** The assignments of [applyConfigPatch]. *)
Definition set_text (f : field) (v : string) (c : ConfigSettings) : ConfigSettings :=
  let '(mkSettings l a b d m g h ttl t by_ cx pk o w hb) := c in
  match f with
  | FLogLevel => mkSettings v a b d m g h ttl t by_ cx pk o w hb
  | FSessionTTL => mkSettings l a b d m g h v t by_ cx pk o w hb
  | FOverflow => mkSettings l a b d m g h ttl t by_ cx pk v w hb
  | FWarmMax => mkSettings l a b d m g h ttl t by_ cx pk o v hb
  | FHeartbeat => mkSettings l a b d m g h ttl t by_ cx pk o w v
  | _ => c
  end.
Definition set_number (f : field) (v : Z) (c : ConfigSettings) : ConfigSettings :=
  let '(mkSettings l a b d m g h ttl t by_ cx pk o w hb) := c in
  match f with
  | FDefaultRPM => mkSettings l v b d m g h ttl t by_ cx pk o w hb
  | FDefaultTPM => mkSettings l a v d m g h ttl t by_ cx pk o w hb
  | FDefaultDaily => mkSettings l a b v m g h ttl t by_ cx pk o w hb
  | FDefaultMonthly => mkSettings l a b d v g h ttl t by_ cx pk o w hb
  | FGlobalRPM => mkSettings l a b d m v h ttl t by_ cx pk o w hb
  | FGlobalTPM => mkSettings l a b d m g v ttl t by_ cx pk o w hb
  | FMaxTurns => mkSettings l a b d m g h ttl v by_ cx pk o w hb
  | FMaxBytes => mkSettings l a b d m g h ttl t v cx pk o w hb
  | FMaxContext => mkSettings l a b d m g h ttl t by_ v pk o w hb
  | FMaxPerKey => mkSettings l a b d m g h ttl t by_ cx v o w hb
  | _ => c
  end.

(** ** Validation *)

Definition validLogLevel (name : string) : bool :=
  existsb (String.eqb (ToLower (TrimSpace name))) ["debug"; "info"; "warn"; "warning"; "error"].

Section patch.
Context (quote : string → string).
Definition bad {A} (msg : string) : result A := Err (ENew msg).

Definition decodeString (field : string) (msg : rawjson) : result string :=
  match unmarshal_string msg with Some v => Ok v | None => bad ("invalid " +:+ field +:+ ": must be a string") end.
Definition decodeUint (field : string) (msg : rawjson) : result Z :=
  match unmarshal_uint msg with
  | Some v => Ok v
  | None => bad ("invalid " +:+ field +:+ ": must be a non-negative integer")
  end.
Definition decodeNonNegInt (field : string) (msg : rawjson) : result Z :=
  match unmarshal_int msg with
  | None => bad ("invalid " +:+ field +:+ ": must be a non-negative integer")
  | Some v => if v <? 0 then bad ("invalid " +:+ field +:+ " " +:+ Itoa v +:+ ": must be non-negative") else Ok v
  end.
Definition decodeDuration (field : string) (msg : rawjson) : result Duration :=
  match unmarshal_string msg with
  | None => bad ("invalid " +:+ field +:+ ": must be a duration string (e.g. " +:+ quote "30m" +:+ ")")
  | Some s =>
      match ParseDuration (TrimSpace s) with
      | Some d => Ok d
      | None => bad ("invalid " +:+ field +:+ " " +:+ quote s +:+ ": must be a duration string (e.g. " +:+ quote "30m" +:+ ")")
      end
  end.

(** The three cases for a duration. *)
Definition positive_duration (key : string) (msg : rawjson) : result string :=
  match decodeDuration key msg with
  | Err e => Err e
  | Ok d => if d <=? 0 then bad ("invalid " +:+ key +:+ " " +:+ quote (Duration_String d) +:+ ": must be a positive duration")
            else Ok (Duration_String d)
  end.

(** One case of the switch in [applyConfigPatch]. *)
Definition patch_field (f : field) (msg : rawjson) (dst : ConfigSettings) : result ConfigSettings :=
  let key := field_name f in
  match f with
  | FLogLevel =>
      match decodeString key msg with
      | Err e => Err e
      | Ok v => if negb (validLogLevel v)
                then bad ("invalid " +:+ key +:+ " " +:+ quote v +:+ ": must be one of debug, info, warn, error")
                else Ok (set_text f (ToLower (TrimSpace v)) dst)
      end
  | FDefaultRPM | FDefaultTPM | FDefaultDaily | FDefaultMonthly | FGlobalRPM | FGlobalTPM =>
      match decodeUint key msg with Err e => Err e | Ok v => Ok (set_number f v dst) end
  | FSessionTTL | FWarmMax | FHeartbeat =>
      match positive_duration key msg with Err e => Err e | Ok v => Ok (set_text f v dst) end
  | FMaxTurns | FMaxBytes | FMaxContext | FMaxPerKey =>
      match decodeNonNegInt key msg with Err e => Err e | Ok v => Ok (set_number f v dst) end
  | FOverflow =>
      match decodeString key msg with
      | Err e => Err e
      | Ok v =>
          let norm := ToLower (TrimSpace v) in
          if negb (String.eqb norm "trim") && negb (String.eqb norm "reject")
          then bad ("invalid " +:+ key +:+ " " +:+ quote v +:+ ": must be trim or reject")
          else Ok (set_text f norm dst)
      end
  end.

Definition sortedKeys (m : gmap string rawjson) : list string := sort_Strings (map fst (map_to_list m)).

Fixpoint patch_loop (keys : list string) (raw : gmap string rawjson) (dst : ConfigSettings) (changed : gset string)
    : result (ConfigSettings * gset string) :=
  match keys with
  | [] => Ok (dst, changed)
  | key :: keys =>
      match field_of key with
      | None => bad ("unknown config field " +:+ quote key)
      | Some f =>
          match patch_field f (default JElse (raw !! key)) dst with
          | Err e => Err e
          | Ok dst => patch_loop keys raw dst ({[key]} ∪ changed)
          end
      end
  end.

Definition applyConfigPatch (dst : ConfigSettings) (raw : gmap string rawjson) : result (ConfigSettings * gset string) :=
  patch_loop (sortedKeys raw) raw dst ∅.
End patch.

(** ** The running components *)

Inductive Level := LevelDebug | LevelInfo | LevelWarn | LevelError.

(** [parseLevel] (cmd/agentgpu/logging.go). *)
Definition parseLevel (name : string) : Level * bool :=
  let n := ToLower (TrimSpace name) in
  if String.eqb n "debug" then (LevelDebug, true)
  else if String.eqb n "info" || String.eqb n "" then (LevelInfo, true)
  else if String.eqb n "warn" || String.eqb n "warning" then (LevelWarn, true)
  else if String.eqb n "error" then (LevelError, true)
  else (LevelInfo, false).

(** [session.ParseOverflowPolicy]. *)
Definition ParseOverflowPolicy (s : string) : OverflowPolicy * bool :=
  let n := ToLower (TrimSpace s) in
  if String.eqb n "" || String.eqb n "trim" then (OverflowTrim, true)
  else if String.eqb n "reject" then (OverflowReject, true)
  else (OverflowTrim, false).

Section config.
Context {KS CS SS : Type} (quote : string → string).
Notation hserver := (HServer KS CS SS).
Notation ctl := (Server CS SS).

(** What the appliers act on: the log level and the control plane with its quota
    engine, session manager and history store. *)
Record live := mkLive { l_level : Level; l_ctl : ctl }.

(** [None] is a nil hook. *)
Record ConfigAppliers := mkAppliers {
  SetLogLevel : option (string → live → live * option error);
  SetQuotaDefaults : option (Z → Z → Z → Z → live → live);
  SetQuotaGlobal : option (Z → Z → live → live);
  SetSessionTTL : option (Duration → live → live);
  SetSessionCaps : option (Z → Z → Z → Z → string → live → live * option error);
  ApplyModelWarmMax : option (Duration → live → live);
  ApplyHeartbeatTimeout : option (Duration → live → live) }.

Definition on_manager (g : Manager SS → Manager SS) (l : live) : live :=
  match s_sessionMgr (l_ctl l) with
  | Some m => mkLive (l_level l) (set_session (g m) (l_ctl l))
  | None => l
  end.
Definition set_history (h : MemoryHistoryStore) (m : Manager SS) : Manager SS :=
  mkManager (m_sessions m) h (m_ttl m) (m_counts m) (m_maxPerKey m) (m_obs m) (m_ended m) (m_sweepInterval m)
    (m_reads m).

Definition buildConfigAppliers : ConfigAppliers :=
  mkAppliers
    (Some (λ level l,
       let '(lvl, ok) := parseLevel level in
       if negb ok then (l, Some (ENew ("unrecognized log level " +:+ quote level))) else (mkLive lvl (l_ctl l), None)))
    (Some (λ rpm tpm daily monthly l,
       mkLive (l_level l) (set_quota (SetDefaults (mkLimits rpm tpm daily monthly) (s_quota (l_ctl l))) (l_ctl l))))
    (Some (λ rpm tpm l, mkLive (l_level l) (set_quota (SetGlobalLimits rpm tpm (s_quota (l_ctl l))) (l_ctl l))))
    (Some (λ d, on_manager (Session.SetTTL d)))
    (Some (λ maxTurns maxBytes maxCtxTokens maxPerKey overflowPolicy l,
       let '(pol, ok) := ParseOverflowPolicy overflowPolicy in
       if negb ok then (l, Some (ENew ("unrecognized session overflow policy " +:+ quote overflowPolicy)))
       else (on_manager (λ m, Session.SetMaxSessionsPerKey maxPerKey
               (set_history (SetCaps (mkHistoryCaps maxTurns maxBytes maxCtxTokens pol) (m_history m)) m)) l, None)))
    (Some (λ d l, mkLive (l_level l) (Server.SetModelWarmMax d (l_ctl l))))
    (Some (λ d l, mkLive (l_level l) (Server.SetHeartbeatTimeout d (l_ctl l)))).

Definition any_changed (fs : list field) (changed : gset string) : bool :=
  existsb (λ f, bool_decide (field_name f ∈ changed)) fs.
Definition quotaDefaultsChanged : gset string → bool :=
  any_changed [FDefaultRPM; FDefaultTPM; FDefaultDaily; FDefaultMonthly].
Definition quotaGlobalChanged : gset string → bool := any_changed [FGlobalRPM; FGlobalTPM].
Definition sessionCapsChanged : gset string → bool :=
  any_changed [FMaxTurns; FMaxBytes; FMaxContext; FMaxPerKey; FOverflow].
Definition fieldChanged (f : field) : gset string → bool := any_changed [f].

(** A duration text that was validated; a parse error would give zero. *)
Definition duration_of (s : string) : Duration := default 0 (ParseDuration s).

(** The calls of [apply] up to the commit, in order; an error stops them. *)
Definition apply_log (a : ConfigAppliers) (next : ConfigSettings) (changed : gset string) (l : live) : live * option error :=
  match SetLogLevel a with
  | Some f => if fieldChanged FLogLevel changed then f (LogLevel next) l else (l, None)
  | None => (l, None)
  end.
Definition apply_quota (a : ConfigAppliers) (next : ConfigSettings) (changed : gset string) (l : live) : live :=
  let l := match SetQuotaDefaults a with
           | Some f => if quotaDefaultsChanged changed
                       then f (QuotaDefaultRPM next) (QuotaDefaultTPM next) (QuotaDefaultDailyTokens next)
                              (QuotaDefaultMonthlyTokens next) l else l
           | None => l
           end in
  match SetQuotaGlobal a with
  | Some f => if quotaGlobalChanged changed then f (QuotaGlobalRPM next) (QuotaGlobalTPM next) l else l
  | None => l
  end.
Definition apply_duration (f : option (Duration → live → live)) (fld : field) (text : string) (changed : gset string)
    (l : live) : live :=
  match f with
  | Some f => if fieldChanged fld changed then f (duration_of text) l else l
  | None => l
  end.
Definition apply_caps (a : ConfigAppliers) (next : ConfigSettings) (changed : gset string) (l : live) : live * option error :=
  match SetSessionCaps a with
  | Some f => if sessionCapsChanged changed
              then f (SessionMaxTurns next) (SessionMaxBytes next) (SessionMaxContextTokens next)
                     (SessionMaxSessionsPerKey next) (SessionOverflowPolicy next) l
              else (l, None)
  | None => (l, None)
  end.
Definition apply_live (a : ConfigAppliers) (next : ConfigSettings) (changed : gset string) (l : live) : live * option error :=
  match apply_log a next changed l with
  | (l, Some e) => (l, Some e)
  | (l, None) =>
      let l := apply_quota a next changed l in
      let l := apply_duration (SetSessionTTL a) FSessionTTL (SessionTTL next) changed l in
      match apply_caps a next changed l with
      | (l, Some e) => (l, Some e)
      | (l, None) =>
          let l := apply_duration (ApplyModelWarmMax a) FWarmMax (SettingModelWarmMax next) changed l in
          (apply_duration (ApplyHeartbeatTimeout a) FHeartbeat (SettingHeartbeatTimeout next) changed l, None)
      end
  end.

(** ** The holder *)

Record runtimeConfig := mkConfig {
  rc_cur : ConfigSettings; rc_boot : ConfigReadOnly; rc_appliers : ConfigAppliers; rc_path : string;
  rc_persisted : gset string }.

(** The server with what the configuration endpoints reach: the log level and the
    override file. *)
Record cserver := mkCServer {
  cs_http : hserver; cs_level : Level; cs_config : option runtimeConfig; cs_disk : option bytes }.

Definition WithRuntimeConfig (initial : ConfigSettings) (boot : ConfigReadOnly) (a : ConfigAppliers) (path : string)
    (s : cserver) : cserver :=
  mkCServer (cs_http s) (cs_level s) (Some (mkConfig initial boot a path ∅)) (cs_disk s).

Definition live_of (s : cserver) : live := mkLive (cs_level s) (h_ctl (cs_http s)).
Definition set_live (l : live) (s : cserver) : cserver :=
  mkCServer (set_ctl (l_ctl l) (cs_http s)) (l_level l) (cs_config s) (cs_disk s).
Definition set_config (rc : runtimeConfig) (s : cserver) : cserver :=
  mkCServer (cs_http s) (cs_level s) (Some rc) (cs_disk s).
Definition set_http (h : hserver) (s : cserver) : cserver := mkCServer h (cs_level s) (cs_config s) (cs_disk s).

Definition apply (rc : runtimeConfig) (next : ConfigSettings) (changed : gset string) (s : cserver)
    : cserver * option error :=
  match apply_live (rc_appliers rc) next changed (live_of s) with
  | (l, Some e) => (set_live l s, Some e)
  | (l, None) =>
      (set_config (mkConfig next (rc_boot rc) (rc_appliers rc) (rc_path rc) (rc_persisted rc ∪ changed)) (set_live l s),
       None)
  end.

Definition named_value (c : ConfigSettings) (key : string) : option (string + Z) :=
  match field_of key with Some f => Some (fieldValue c f) | None => None end.
Definition project (c : ConfigSettings) (fields : gset string) : gmap string (string + Z) :=
  set_fold (λ key m, match named_value c key with Some v => <[key := v]> m | None => m end) ∅ fields.
Definition snapshotFields (c : ConfigSettings) (fields : gset string) : RedactedValues :=
  if (size fields =? 0)%nat then None else Some (audit_value <$> project c fields).

Definition configResponse (rc : runtimeConfig) : payload := PConfig (rc_cur rc) (rc_boot rc) readOnlyFields.

Definition handleAdminGetConfig (s : cserver) : cserver * list wact :=
  match cs_config s with
  | None => (s, writeError StatusServiceUnavailable "unavailable" "runtime config is not enabled")
  | Some rc => (s, writeJSON StatusOK (configResponse rc))
  end.

(** ** The checkpoint *)

Section checkpoint.
Context (marshal : gmap string rawjson → result bytes) (unmarshal : bytes → result (gmap string rawjson)).

Definition raw_value (v : string + Z) : rawjson := match v with inl s => JStr s | inr n => JInt n end.

Definition checkpoint (io : checkpointIO) (rc : runtimeConfig) (disk : option bytes) : option bytes * option error :=
  if String.eqb (rc_path rc) "" then (disk, None)
  else write_json "config" marshal io (raw_value <$> project (rc_cur rc) (rc_persisted rc)) disk.

Definition auditOpConfigUpdate : string := "config.update".

(** The first key that may not be set, in sorted order. *)
Fixpoint rejected_key (keys : list string) : option string :=
  match keys with
  | [] => None
  | key :: keys =>
      if isReadOnlyField key then Some ("field " +:+ quote key +:+ " is read-only; restart to change it")
      else if negb (isTunableField key) then Some ("unknown config field " +:+ quote key)
      else rejected_key keys
  end.

Definition handleAdminPutConfig (body : option (gmap string rawjson)) (io : checkpointIO) (now : Time) (c : context)
    (s : cserver) : cserver * list wact :=
  match cs_config s with
  | None => (s, writeError StatusServiceUnavailable "unavailable" "runtime config is not enabled")
  | Some rc =>
  match body with
  | None => (s, writeError StatusBadRequest "invalid_request_error" "malformed request body")
  | Some raw =>
  match rejected_key (sortedKeys raw) with
  | Some msg => (s, writeError StatusBadRequest "invalid_request_error" msg)
  | None =>
  match applyConfigPatch quote (rc_cur rc) raw with
  | Err e => (s, writeError StatusBadRequest "invalid_request_error" (error_string e))
  | Ok (pending, changed) =>
      if (size changed =? 0)%nat then (s, writeJSON StatusOK (configResponse rc))
      else
        let before := snapshotFields (rc_cur rc) changed in
        match apply rc pending changed s with
        | (s, Some e) =>
            (set_http (recordAudit now c auditOpConfigUpdate "config" OutcomeFailure before None (cs_http s)) s,
             writeError StatusBadRequest "invalid_request_error" (error_string e))
        | (s, None) =>
            match cs_config s with
            | None => (s, [])
            | Some rc =>
                let after := snapshotFields (rc_cur rc) changed in
                let s := set_http (recordAudit now c auditOpConfigUpdate "config" OutcomeSuccess before after (cs_http s)) s in
                let disk := (checkpoint io rc (cs_disk s)).1 in
                (mkCServer (cs_http s) (cs_level s) (cs_config s) disk, writeJSON StatusOK (configResponse rc))
            end
        end
  end end end end.

Definition LoadConfigCheckpoint (path : string) (readErr : option error) (s : cserver) : cserver * option error :=
  match cs_config s with
  | None => (s, None)
  | Some rc =>
  if String.eqb path "" then (s, None)
  else
  match read_json "config" path unmarshal readErr (cs_disk s) with
  | Err e => (s, Some e)
  | Ok None => (s, None)
  | Ok (Some loaded) =>
      let raw := filter (λ kv, isReadOnlyField kv.1 = false ∧ isTunableField kv.1 = true) loaded in
      if (size raw =? 0)%nat then (s, None)
      else match applyConfigPatch quote (rc_cur rc) raw with
           | Err _ => (s, None)
           | Ok (pending, changed) => ((apply rc pending changed s).1, None)
           end
  end end.
End checkpoint.
End config.

(** ** Well-formed settings *)

Definition levels : list string := ["debug"; "info"; "warn"; "warning"; "error"].

Definition fits (f : field) (v : string + Z) : Prop :=
  match f, v with
  | FLogLevel, inl s => s ∈ levels
  | (FDefaultRPM | FDefaultTPM | FDefaultDaily | FDefaultMonthly | FGlobalRPM | FGlobalTPM), inr n => is_u64 n
  | (FMaxTurns | FMaxBytes | FMaxContext | FMaxPerKey), inr n => 0 <= n < 2 ^ 63
  | (FSessionTTL | FWarmMax | FHeartbeat), inl s => ∃ d, 0 < d < 2 ^ 63 ∧ s = Duration_String d
  | FOverflow, inl s => s = "trim" ∨ s = "reject"
  | _, _ => False
  end.
Definition well_formed (c : ConfigSettings) : Prop := ∀ f, fits f (fieldValue c f).

(** The value a message gives a field. *)
Definition set_value (f : field) (v : string + Z) (c : ConfigSettings) : ConfigSettings :=
  match v with inl s => set_text f s c | inr n => set_number f n c end.

Lemma set_value_eq f v c : fits f v → fieldValue (set_value f v c) f = v.
Proof. destruct c, f, v; done. Qed.
Lemma set_value_ne f g v c : f ≠ g → fieldValue (set_value f v c) g = fieldValue c g.
Proof. destruct c, f, g, v; done. Qed.

Lemma settings_ext c c' : (∀ f, fieldValue c f = fieldValue c' f) → c = c'.
Proof.
  intros H. destruct c, c'.
  injection (H FLogLevel) as ->; injection (H FDefaultRPM) as ->; injection (H FDefaultTPM) as ->;
  injection (H FDefaultDaily) as ->; injection (H FDefaultMonthly) as ->; injection (H FGlobalRPM) as ->;
  injection (H FGlobalTPM) as ->; injection (H FSessionTTL) as ->; injection (H FMaxTurns) as ->;
  injection (H FMaxBytes) as ->; injection (H FMaxContext) as ->; injection (H FMaxPerKey) as ->;
  injection (H FOverflow) as ->; injection (H FWarmMax) as ->; injection (H FHeartbeat) as ->. done.
Qed.

Section patches.
Context (quote : string → string).

Lemma positive_duration_ok key msg s : positive_duration quote key msg = Ok s → ∃ d, 0 < d < 2 ^ 63 ∧ s = Duration_String d.
Proof.
  unfold positive_duration, decodeDuration. destruct (unmarshal_string msg) as [t|]; [|done].
  destruct (ParseDuration (TrimSpace t)) as [d|] eqn:E; [|done]. apply parse_duration_range in E.
  destruct (Z.leb_spec d 0); [done|]. intros [= <-]. exists d. split; [lia|done].
Qed.

(** A message that is accepted gives its field a fitting value, and only its field. *)
Lemma patch_field_ok f msg dst dst' :
  patch_field quote f msg dst = Ok dst' → ∃ v, fits f v ∧ ∀ c, patch_field quote f msg c = Ok (set_value f v c).
Proof.
  destruct f; cbn [patch_field].
  1: { destruct (decodeString _ msg) as [v|]; [|done]. destruct (validLogLevel v) eqn:El; [|done]. intros _.
       exists (inl (ToLower (TrimSpace v))). split; [|done]. unfold validLogLevel in El.
       apply existsb_exists in El as (x & Hx & E). apply String.eqb_eq in E as ->. by apply list_elem_of_In. }
  12: { destruct (decodeString _ msg) as [v|]; [|done].
        destruct (String.eqb_spec (ToLower (TrimSpace v)) "trim") as [E|_], (String.eqb_spec (ToLower (TrimSpace v)) "reject") as [E'|_];
          cbn [negb andb]; try done; intros _; [exists (inl "trim")|exists (inl "trim")|exists (inl "reject")];
          (split; [cbn; auto|]); intros c; by rewrite ?E, ?E'. }
  1-6: unfold decodeUint; destruct (unmarshal_uint msg) as [v|] eqn:E; [|done]; intros _; exists (inr v);
       (split; [|done]); unfold unmarshal_uint in E; destruct msg; simplify_eq; [done|];
       case_match; [|done]; zbool; simplify_eq; cbn; unfold is_u64; lia.
  all: try (destruct (positive_duration quote _ msg) as [v|] eqn:E; [|done]; intros _; exists (inl v);
       (split; [|done]); by eapply positive_duration_ok).
  all: unfold decodeNonNegInt; destruct (unmarshal_int msg) as [v|] eqn:E; [|done]; destruct (Z.ltb_spec v 0); [done|];
       intros _; exists (inr v); (split; [|done]); cbn; split; [done|]; unfold unmarshal_int, maxInt64 in E;
       destruct msg; simplify_eq; try lia; case_match; [|done]; zbool; simplify_eq; lia.
Qed.

Lemma field_of_name f : field_of (field_name f) = Some f.
Proof. by destruct f. Qed.
Lemma field_of_Some key f : field_of key = Some f → field_name f = key.
Proof. intros [_ H]%find_some. by apply String.eqb_eq. Qed.

Lemma sortedKeys_spec (raw : gmap string rawjson) :
  NoDup (sortedKeys raw) ∧ ∀ key, key ∈ sortedKeys raw ↔ is_Some (raw !! key).
Proof.
  unfold sortedKeys. split.
  - rewrite sort_Strings_Permutation. apply NoDup_fst_map_to_list.
  - intros key. rewrite sort_Strings_Permutation, list_elem_of_fmap. split.
    + intros ([k v] & -> & H). apply elem_of_map_to_list in H. by eexists.
    + intros [v H]. exists (key, v). split; [done|]. by apply elem_of_map_to_list.
Qed.

(** An accepted patch: every key names a field, the fields named take the values of
    their messages, the others keep theirs. *)
Definition patched (keys : list string) (raw : gmap string rawjson) (dst dst' : ConfigSettings) : Prop :=
  (∀ key, key ∈ keys → ∃ f, field_of key = Some f) ∧
  (∀ f, field_name f ∈ keys → fits f (fieldValue dst' f) ∧
     ∀ c, patch_field quote f (default JElse (raw !! field_name f)) c = Ok (set_value f (fieldValue dst' f) c)) ∧
  (∀ f, field_name f ∉ keys → fieldValue dst' f = fieldValue dst f).

Lemma patch_loop_ok keys raw : ∀ dst ch dst' ch',
  NoDup keys → patch_loop quote keys raw dst ch = Ok (dst', ch') →
  ch' = list_to_set keys ∪ ch ∧ patched keys raw dst dst'.
Proof.
  induction keys as [|key keys IH]; intros dst ch dst' ch' Hnd H; cbn [patch_loop] in H.
  { simplify_eq. split; [set_solver|]. split_and!; [set_solver..|done]. }
  apply NoDup_cons in Hnd as [Hk Hnd]. destruct (field_of key) as [f|] eqn:Ef; [|done].
  destruct (patch_field quote f _ dst) as [d1|] eqn:Ep; [|done].
  destruct (patch_field_ok f _ _ _ Ep) as (v & Hv & Hpf). rewrite Hpf in Ep. simplify_eq.
  destruct (IH _ _ _ _ Hnd H) as (-> & Hn & Hin & Hout). pose proof (field_of_Some _ _ Ef) as <-.
  assert (Ev : fieldValue dst' f = v) by (rewrite Hout by done; by apply set_value_eq).
  split; [set_solver|]. split_and!.
  - intros k [->|Hi]%elem_of_cons; [by exists f|by apply Hn].
  - intros g [Hg|Hi]%elem_of_cons; [|by apply Hin].
    apply (f_equal field_of) in Hg. rewrite !field_of_name in Hg. simplify_eq. done.
  - intros g Hg. rewrite not_elem_of_cons in Hg. destruct Hg as [Hne Hg]. rewrite Hout by done.
    apply set_value_ne. congruence.
Qed.

Lemma applyConfigPatch_ok dst raw dst' ch' :
  applyConfigPatch quote dst raw = Ok (dst', ch') → ch' = dom raw ∧ patched (sortedKeys raw) raw dst dst'.
Proof.
  intros H. destruct (sortedKeys_spec raw) as [Hn Hk]. destruct (patch_loop_ok _ _ _ _ _ _ Hn H) as [-> Hp].
  split; [|done]. apply set_eq. intros key. rewrite elem_of_union, elem_of_list_to_set, elem_of_dom, Hk. set_solver.
Qed.

(** Conversely, messages that are each accepted make an accepted patch. *)
Lemma patch_loop_accepts keys raw : ∀ dst ch,
  Forall (λ key, ∃ f v, field_of key = Some f ∧
            ∀ c, patch_field quote f (default JElse (raw !! key)) c = Ok (set_value f v c)) keys →
  ∃ r, patch_loop quote keys raw dst ch = Ok r.
Proof.
  induction keys as [|key keys IH]; intros dst ch H; [by eexists|]. apply Forall_cons in H as [(f & v & Ef & Hp) H].
  cbn [patch_loop]. rewrite Ef, Hp. by apply IH.
Qed.

Lemma patched_well_formed keys raw dst dst' : patched keys raw dst dst' → well_formed dst → well_formed dst'.
Proof.
  intros (_ & Hin & Hout) Hw f. destruct (decide (field_name f ∈ keys)) as [Hi|Hi]; [by apply Hin|].
  rewrite Hout by done. apply Hw.
Qed.
End patches.

(** ** What is in force *)

Section in_force.
Context {KS CS SS : Type} (quote : string → string).
Notation live := (@live CS SS).

(** The running components have the values the settings show. *)
Record in_force (c : ConfigSettings) (l : live) : Prop := {
  if_level : parseLevel (LogLevel c) = (l_level l, true);
  if_defaults : Engine_defaults (s_quota (l_ctl l)) =
    mkLimits (QuotaDefaultRPM c) (QuotaDefaultTPM c) (QuotaDefaultDailyTokens c) (QuotaDefaultMonthlyTokens c);
  if_global : Engine_global (s_quota (l_ctl l)) = mkLimits (QuotaGlobalRPM c) (QuotaGlobalTPM c) 0 0;
  if_warm : s_modelWarmMax (l_ctl l) = duration_of (SettingModelWarmMax c);
  if_heartbeat : s_heartbeatTimeout (l_ctl l) = duration_of (SettingHeartbeatTimeout c);
  if_manager : ∃ m, s_sessionMgr (l_ctl l) = Some m ∧ m_ttl m = duration_of (SessionTTL c) ∧
    mhs_caps (m_history m) = mkHistoryCaps (SessionMaxTurns c) (SessionMaxBytes c) (SessionMaxContextTokens c)
                               (ParseOverflowPolicy (SessionOverflowPolicy c)).1 ∧
    m_maxPerKey m = SessionMaxSessionsPerKey c }.

(** Everything else the components hold. *)
Definition data (l : live) :=
  (s_heap (l_ctl l), s_workers (l_ctl l), s_queue (l_ctl l), s_waiters (l_ctl l), s_chans (l_ctl l),
   Engine_cs (s_quota (l_ctl l)), s_audit (l_ctl l),
   (λ m, (m_sessions m, m_counts m, mhs_history (m_history m))) <$> s_sessionMgr (l_ctl l)).

(** The settings of a group of fields agree. *)
Definition agree (fs : list field) (c c' : ConfigSettings) : Prop := Forall (λ f, fieldValue c f = fieldValue c' f) fs.

Lemma unchanged_agree fs changed next cur :
  (∀ f, field_name f ∉ changed → fieldValue next f = fieldValue cur f) → any_changed fs changed = false →
  agree fs next cur.
Proof.
  intros H Ha. apply Forall_forall. intros f Hf. apply H. intros Hin.
  assert (any_changed fs changed = true); [|congruence]. apply existsb_exists. exists f.
  split; [by apply list_elem_of_In|by apply bool_decide_eq_true_2].
Qed.

Lemma level_parses s : s ∈ levels → (parseLevel s).2 = true.
Proof. unfold levels. rewrite !elem_of_cons. intros [->|[->|[->|[->|[->|H]]]]]; [done..|by apply elem_of_nil in H]. Qed.
Lemma policy_parses s : s = "trim" ∨ s = "reject" → (ParseOverflowPolicy s).2 = true.
Proof. by intros [->| ->]. Qed.
Lemma duration_fits s : (∃ d, 0 < d < 2 ^ 63 ∧ s = Duration_String d) → 0 < duration_of s.
Proof.
  intros (d & Hd & ->). unfold duration_of. rewrite duration_roundtrip by (unfold is_i64; lia). simpl. lia.
Qed.

(** Applying an accepted patch succeeds, puts the new settings in force and touches
    no data. *)
Lemma apply_log_in_force next cur changed l :
  well_formed next → in_force cur l → (∀ f, field_name f ∉ changed → fieldValue next f = fieldValue cur f) →
  ∃ lv, apply_log (buildConfigAppliers quote) next changed l = (mkLive lv (l_ctl l), None) ∧
    parseLevel (LogLevel next) = (lv, true).
Proof.
  intros Hw Hf Hc. unfold apply_log. cbn [SetLogLevel buildConfigAppliers].
  destruct (fieldChanged FLogLevel changed) eqn:E.
  - pose proof (level_parses _ (Hw FLogLevel)) as Hl. destruct (parseLevel (LogLevel next)) as [lv ok]. simpl in Hl. subst ok.
    by exists lv.
  - exists (l_level l). split; [by destruct l|]. apply (unchanged_agree [FLogLevel] changed _ _ Hc) in E.
    unfold agree in E. rewrite Forall_singleton in E. cbn in E. injection E as ->. apply (if_level _ _ Hf).
Qed.

Lemma apply_quota_in_force next cur changed (l : live) :
  Engine_defaults (s_quota (l_ctl l)) =
    mkLimits (QuotaDefaultRPM cur) (QuotaDefaultTPM cur) (QuotaDefaultDailyTokens cur) (QuotaDefaultMonthlyTokens cur) →
  Engine_global (s_quota (l_ctl l)) = mkLimits (QuotaGlobalRPM cur) (QuotaGlobalTPM cur) 0 0 → (∀ f, field_name f ∉ changed → fieldValue next f = fieldValue cur f) →
  ∃ q, apply_quota (buildConfigAppliers quote) next changed l = mkLive (l_level l) (set_quota q (l_ctl l)) ∧
    Engine_cs q = Engine_cs (s_quota (l_ctl l)) ∧
    Engine_defaults q = mkLimits (QuotaDefaultRPM next) (QuotaDefaultTPM next) (QuotaDefaultDailyTokens next)
                          (QuotaDefaultMonthlyTokens next) ∧
    Engine_global q = mkLimits (QuotaGlobalRPM next) (QuotaGlobalTPM next) 0 0.
Proof.
  intros Hd Hg Hc. unfold apply_quota. cbn [SetQuotaDefaults SetQuotaGlobal buildConfigAppliers].
  assert (Ed : quotaDefaultsChanged changed = false → Engine_defaults (s_quota (l_ctl l)) =
    mkLimits (QuotaDefaultRPM next) (QuotaDefaultTPM next) (QuotaDefaultDailyTokens next) (QuotaDefaultMonthlyTokens next)).
  { intros E. apply (unchanged_agree _ changed _ _ Hc) in E. unfold agree in E.
    rewrite !Forall_cons in E. cbn [fieldValue] in E. destruct E as ([= ->] & [= ->] & [= ->] & [= ->] & _). done. }
  assert (Eg : quotaGlobalChanged changed = false → Engine_global (s_quota (l_ctl l)) =
    mkLimits (QuotaGlobalRPM next) (QuotaGlobalTPM next) 0 0).
  { intros E. apply (unchanged_agree _ changed _ _ Hc) in E. unfold agree in E.
    rewrite !Forall_cons in E. cbn [fieldValue] in E. destruct E as ([= ->] & [= ->] & _). done. }
  destruct (quotaDefaultsChanged changed), (quotaGlobalChanged changed); destruct l as [lv ctl];
    [| | |exists (s_quota ctl); split; [by destruct ctl|by auto]]; eexists; (split; [reflexivity|]); cbn; auto.
Qed.

Lemma single_unchanged f changed next cur :
  (∀ f, field_name f ∉ changed → fieldValue next f = fieldValue cur f) → fieldChanged f changed = false →
  fieldValue next f = fieldValue cur f.
Proof. intros Hc E. apply (unchanged_agree [f] changed _ _ Hc) in E. unfold agree in E. by rewrite Forall_singleton in E. Qed.

(** The manager after the session appliers. *)
Lemma apply_session_in_force next cur changed lv (ctl : Server CS SS) m :
  well_formed next → (∀ f, field_name f ∉ changed → fieldValue next f = fieldValue cur f) →
  s_sessionMgr ctl = Some m → m_ttl m = duration_of (SessionTTL cur) →
  mhs_caps (m_history m) = mkHistoryCaps (SessionMaxTurns cur) (SessionMaxBytes cur) (SessionMaxContextTokens cur)
                             (ParseOverflowPolicy (SessionOverflowPolicy cur)).1 →
  m_maxPerKey m = SessionMaxSessionsPerKey cur →
  ∃ m', apply_caps (buildConfigAppliers quote) next changed
          (apply_duration (SetSessionTTL (buildConfigAppliers quote)) FSessionTTL (SessionTTL next) changed (mkLive lv ctl))
        = (mkLive lv (set_session m' ctl), None) ∧
    m_ttl m' = duration_of (SessionTTL next) ∧
    mhs_caps (m_history m') = mkHistoryCaps (SessionMaxTurns next) (SessionMaxBytes next) (SessionMaxContextTokens next)
                               (ParseOverflowPolicy (SessionOverflowPolicy next)).1 ∧
    m_maxPerKey m' = SessionMaxSessionsPerKey next ∧
    (m_sessions m', m_counts m', mhs_history (m_history m')) = (m_sessions m, m_counts m, mhs_history (m_history m)).
Proof.
  intros Hw Hc Em Ht Hcaps Hpk.
  pose proof (duration_fits _ (Hw FSessionTTL)) as Hd. pose proof (policy_parses _ (Hw FOverflow)) as Hp.
  assert (Hn : 0 <= SessionMaxSessionsPerKey next) by (pose proof (Hw FMaxPerKey) as H; cbn in H; lia).
  assert (Et : ∃ m1, apply_duration (SetSessionTTL (buildConfigAppliers quote)) FSessionTTL (SessionTTL next) changed (mkLive lv ctl)
      = mkLive lv (set_session m1 ctl) ∧ m1 = mkManager (m_sessions m) (m_history m) (duration_of (SessionTTL next)) (m_counts m)
          (m_maxPerKey m) (m_obs m) (m_ended m) (m_sweepInterval m) (m_reads m)).
  { unfold apply_duration. cbn [SetSessionTTL buildConfigAppliers]. destruct (fieldChanged FSessionTTL changed) eqn:E.
    - unfold on_manager. cbn [l_ctl l_level]. rewrite Em. eexists. split; [reflexivity|]. unfold Session.SetTTL.
      by destruct (Z.leb_spec (duration_of (SessionTTL next)) 0); [lia|].
    - apply (single_unchanged _ _ _ _ Hc) in E. cbn in E. injection E as E. exists m. split.
      + destruct ctl; cbn in *. by rewrite Em.
      + destruct m; cbn in *. by rewrite E, Ht. }
  destruct Et as (m1 & -> & ->). unfold apply_caps. cbn [SetSessionCaps buildConfigAppliers].
  destruct (sessionCapsChanged changed) eqn:E.
  - destruct (ParseOverflowPolicy (SessionOverflowPolicy next)) as [pol ok]. simpl in Hp. subst ok. cbn [negb].
    eexists. split; [reflexivity|]. cbn. split_and!; [done..| |done].
    by destruct (Z.ltb_spec (SessionMaxSessionsPerKey next) 0); [lia|].
  - apply (unchanged_agree _ changed _ _ Hc) in E. unfold agree in E. rewrite !Forall_cons in E. cbn [fieldValue] in E.
    destruct E as ([= ->] & [= ->] & [= ->] & [= ->] & [= ->] & _). eexists. split; [reflexivity|]. cbn. by split_and!.
Qed.

Lemma apply_warm next cur changed lv (ctl : Server CS SS) :
  well_formed next → (∀ f, field_name f ∉ changed → fieldValue next f = fieldValue cur f) →
  s_modelWarmMax ctl = duration_of (SettingModelWarmMax cur) →
  apply_duration (ApplyModelWarmMax (buildConfigAppliers quote)) FWarmMax (SettingModelWarmMax next) changed (mkLive lv ctl)
  = mkLive lv (set_tuning (s_heartbeatTimeout ctl) (s_evictScan ctl) (s_placeScan ctl)
                 (duration_of (SettingModelWarmMax next)) ctl).
Proof.
  intros Hw Hc Hs. pose proof (duration_fits _ (Hw FWarmMax)). unfold apply_duration.
  cbn [ApplyModelWarmMax buildConfigAppliers]. destruct (fieldChanged FWarmMax changed) eqn:E.
  - unfold Server.SetModelWarmMax. cbn [l_level l_ctl]. by destruct (Z.leb_spec (duration_of (SettingModelWarmMax next)) 0); [lia|].
  - apply (single_unchanged _ _ _ _ Hc) in E. cbn in E. injection E as ->. rewrite <- Hs. by destruct ctl.
Qed.

Lemma apply_heartbeat next cur changed lv (ctl : Server CS SS) :
  well_formed next → (∀ f, field_name f ∉ changed → fieldValue next f = fieldValue cur f) →
  s_heartbeatTimeout ctl = duration_of (SettingHeartbeatTimeout cur) →
  apply_duration (ApplyHeartbeatTimeout (buildConfigAppliers quote)) FHeartbeat (SettingHeartbeatTimeout next) changed (mkLive lv ctl)
  = mkLive lv (set_tuning (duration_of (SettingHeartbeatTimeout next)) (s_evictScan ctl) (s_placeScan ctl)
                 (s_modelWarmMax ctl) ctl).
Proof.
  intros Hw Hc Hs. pose proof (duration_fits _ (Hw FHeartbeat)). unfold apply_duration.
  cbn [ApplyHeartbeatTimeout buildConfigAppliers]. destruct (fieldChanged FHeartbeat changed) eqn:E.
  - unfold Server.SetHeartbeatTimeout. cbn [l_level l_ctl].
    by destruct (Z.leb_spec (duration_of (SettingHeartbeatTimeout next)) 0); [lia|].
  - apply (single_unchanged _ _ _ _ Hc) in E. cbn in E. injection E as ->. rewrite <- Hs. by destruct ctl.
Qed.

Lemma apply_live_in_force next cur changed l :
  well_formed next → in_force cur l → (∀ f, field_name f ∉ changed → fieldValue next f = fieldValue cur f) →
  ∃ l', apply_live (buildConfigAppliers quote) next changed l = (l', None) ∧ in_force next l' ∧ data l' = data l.
Proof.
  intros Hw Hf Hc. unfold apply_live.
  destruct (apply_log_in_force next cur changed l Hw Hf Hc) as (lv & -> & Hlv). set (l1 := mkLive lv (l_ctl l)).
  destruct Hf as [F1 F2 F3 F4 F5 (m & Em & F6 & F7 & F8)].
  destruct (apply_quota_in_force next cur changed l1 F2 F3 Hc) as (q & -> & Q1 & Q2 & Q3). cbn [l_level l_ctl l1] in *.
  destruct (apply_session_in_force next cur changed lv (set_quota q (l_ctl l)) m Hw Hc Em F6 F7 F8)
    as (m' & -> & M1 & M2 & M3 & M4).
  rewrite (apply_warm next cur changed lv (set_session m' (set_quota q (l_ctl l))) Hw Hc F4).
  rewrite (apply_heartbeat next cur changed lv (set_tuning _ _ _ _ _) Hw Hc F5).
  eexists. split; [reflexivity|]. split.
  - split; cbn; try done. exists m'. done.
  - unfold data. cbn. rewrite Q1, Em. cbn. by rewrite M4.
Qed.
End in_force.

(** ** Duration texts contain no white space *)

Inductive plain : bytes → Prop :=
| plain_nil : plain []
| plain_cons b l : 46 <= b <= 122 → plain l → plain (b :: l)
| plain_micro l : plain l → plain (194 :: 181 :: l).

Lemma plain_space b l : plain (b :: l) → space_len (b :: l) = 0%nat ∧ (plain l ∨ ∃ r, l = 181 :: r ∧ plain r).
Proof.
  inversion 1; subst; (split; [|by eauto]); cbn [space_len].
  - repeat match goal with |- context [?x =? ?n] => destruct (Z.eqb_spec x n) as [->|]; [lia|] end.
    destruct (Z.leb_spec 9 b), (Z.leb_spec b 13); try lia; cbn; repeat case_match; done.
  - cbn. by repeat case_match.
Qed.

Lemma plain_181 l : space_len (181 :: l) = 0%nat.
Proof. destruct l as [|? [|? ?]]; reflexivity. Qed.

Lemma trim_left_plain l : plain l → trim_left 0 l = l.
Proof. intros H. destruct l as [|b l]; [done|]. cbn [trim_left]. by rewrite (proj1 (plain_space _ _ H)). Qed.

Lemma kept_len_plain n : ∀ l i, (length l ≤ n)%nat → plain l ∨ (∃ r, l = 181 :: r ∧ plain r) →
  (length l ≤ kept_len 0 i l - i ∨ l = [])%nat.
Proof.
  induction n as [|n IH]; intros [|b l] i Hn H; simpl in Hn; [by right|lia|by right|]. left.
  assert (Hs : space_len (b :: l) = 0%nat ∧ (plain l ∨ ∃ r, l = 181 :: r ∧ plain r)).
  { destruct H as [H|(r & [= -> ->] & H)]; [by apply plain_space|]. split; [apply plain_181|by left]. }
  destruct Hs as [Hs Hl]. cbn [kept_len]. rewrite Hs. cbn [length].
  destruct (IH l (S i) ltac:(lia) Hl) as [H1| ->]; cbn [length kept_len]; lia.
Qed.

Lemma TrimSpace_plain s : plain (bytes_of_string s) → TrimSpace s = s.
Proof.
  intros H. unfold TrimSpace. rewrite trim_left_plain by done.
  destruct (kept_len_plain _ (bytes_of_string s) 0 (Nat.le_refl _) (or_introl H)) as [Hk|E].
  - rewrite take_ge by lia. apply string_of_bytes_of.
  - rewrite E. cbn. destruct s; [done|]. by cbn in E.
Qed.

Lemma plain_digit d s : 0 <= d < 10 → plain (bytes_of_string s) → plain (bytes_of_string (String (digit_char d) s)).
Proof.
  intros Hd Hs. cbn. constructor; [|done]. pose proof (byte_digit d Hd) as E. unfold byte_of in E.
  cbn in *. lia.
Qed.

Lemma plain_itoa fuel : ∀ n s, plain (bytes_of_string s) → plain (bytes_of_string (itoa_loop fuel n s)).
Proof.
  induction fuel as [|fuel IH]; intros n s Hs; [done|]. cbn [itoa_loop].
  pose proof (Z.mod_pos_bound n 10 ltac:(lia)). case_match; [|apply IH]; by apply plain_digit.
Qed.

Lemma plain_frac n : ∀ v p s, plain (bytes_of_string s) → plain (bytes_of_string (fmtFrac_loop n v p s).1.2).
Proof.
  induction n as [|n IH]; intros v p s Hs; [done|]. cbn [fmtFrac_loop]. apply IH. case_match; [|done].
  apply plain_digit; [apply Z.mod_pos_bound; lia|done].
Qed.

Lemma plain_fmtFrac v n s : plain (bytes_of_string s) → plain (bytes_of_string (fmtFrac v n s).1).
Proof.
  intros Hs. unfold fmtFrac. pose proof (plain_frac n v false s Hs) as H. destruct (fmtFrac_loop n v false s) as [[p t] w].
  destruct p; cbn in *; [constructor; [lia|done]|done].
Qed.

Lemma plain_Itoa v s : 0 <= v → plain (bytes_of_string s) → plain (bytes_of_string (Itoa v +:+ s)).
Proof. intros Hv Hs. rewrite Itoa_app by done. by apply plain_itoa. Qed.

Lemma plain_duration d : 0 < d < 2 ^ 63 → plain (bytes_of_string (Duration_String d)).
Proof.
  intros Hd. unfold Duration_String. destruct (Z.ltb_spec d 0) as [|_]; [lia|]. rewrite u64_id by (unfold is_u64; lia).
  destruct (Z.eqb_spec d 0) as [|_]; [lia|]. unfold format.
  assert (Hu : plain (bytes_of_string "s") ∧ plain (bytes_of_string "ns") ∧ plain (bytes_of_string "ms") ∧
               plain (bytes_of_string "µs")).
  { split_and!; [change (plain [115])|change (plain [110; 115])|change (plain [109; 115])|change (plain [194; 181; 115])];
      repeat first [apply plain_micro|apply plain_cons; [lia|]]; apply plain_nil. }
  destruct Hu as (U1 & U2 & U3 & U4).
  assert (Hq : ∀ n u, (n ≤ 9)%nat → 0 <= (fmtFrac d n u).2).
  { intros n u Hn. rewrite fmtFrac_quot by lia. apply Z.div_pos; [lia|]. apply Z.pow_pos_nonneg; lia. }
  destruct (d <? Second).
  - assert (H : ∀ n u, (n ≤ 9)%nat → plain (bytes_of_string u) →
      plain (bytes_of_string (let '(s, u) := fmtFrac d n u in Itoa u +:+ s))).
    { intros n u Hn Hu. pose proof (plain_fmtFrac d n u Hu) as Hf. pose proof (Hq n u Hn) as Hz.
      destruct (fmtFrac d n u) as [t w]. by apply plain_Itoa. }
    destruct (d <? Microsecond); [apply H; [lia|done]|]. destruct (d <? Millisecond); (apply H; [lia|done]).
  - pose proof (plain_fmtFrac d 9 "s" U1) as H1. pose proof (Hq 9%nat "s" ltac:(lia)) as H2.
    destruct (fmtFrac d 9 "s") as [t u]. cbn [fst snd] in *.
    assert (P1 : plain (bytes_of_string (Itoa (u mod 60) +:+ t)))
      by (apply plain_Itoa; [apply Z.mod_pos_bound; lia|done]).
    assert (0 <= u / 60) by (apply Z.div_pos; lia). destruct (0 <? u / 60); [|done].
    assert (P2 : plain (bytes_of_string (Itoa (u / 60 mod 60) +:+ "m" +:+ Itoa (u mod 60) +:+ t))).
    { apply plain_Itoa; [apply Z.mod_pos_bound; lia|]. apply (plain_cons 109); [lia|done]. }
    assert (0 <= u / 60 / 60) by (apply Z.div_pos; lia). destruct (0 <? u / 60 / 60); [|done].
    apply plain_Itoa; [done|]. apply (plain_cons 104); [lia|done].
Qed.

(** A fitting value is accepted as it is. *)
Lemma value_accepted quote f v c : fits f v → patch_field quote f (raw_value v) c = Ok (set_value f v c).
Proof.
  destruct f, v as [s|n]; cbn [fits patch_field raw_value]; try done; intros H.
  1: { unfold levels in H. rewrite !elem_of_cons in H.
       destruct H as [->|[->|[->|[->|[->|H]]]]]; [done..|by apply elem_of_nil in H]. }
  12: by destruct H as [->| ->].
  1-6: unfold decodeUint, unmarshal_uint, is_u64 in *;
       by destruct (Z.leb_spec 0 n), (Z.ltb_spec n (2 ^ 64)); try lia.
  all: try (destruct H as (d & Hd & ->); unfold positive_duration, decodeDuration; cbn [unmarshal_string];
       rewrite TrimSpace_plain by (by apply plain_duration); rewrite duration_roundtrip by (unfold is_i64; lia);
       by destruct (Z.leb_spec d 0); [lia|]).
  all: unfold decodeNonNegInt, unmarshal_int, minInt64, maxInt64;
       destruct (Z.leb_spec (- 2 ^ 63) n), (Z.leb_spec n (2 ^ 63 - 1)); try lia; cbn [andb];
       by destruct (Z.ltb_spec n 0); [lia|].
Qed.

Lemma read_only_not_tunable f : isReadOnlyField (field_name f) = false.
Proof. by destruct f. Qed.

Lemma tunable_field key : isTunableField key = true ↔ ∃ f, field_of key = Some f.
Proof. unfold isTunableField. destruct (field_of key); naive_solver. Qed.

Lemma project_lookup c fields key :
  project c fields !! key = if bool_decide (key ∈ fields) then named_value c key else None.
Proof.
  unfold project.
  pose (P := λ (m : gmap string (string + Z)) (X : gset string),
               m !! key = if bool_decide (key ∈ X) then named_value c key else None).
  apply (set_fold_ind_L P); unfold P.
  - by rewrite bool_decide_eq_false_2 by set_solver.
  - intros k X m Hk IH. destruct (decide (key = k)) as [<-|Hne].
    + rewrite bool_decide_eq_true_2 by set_solver. rewrite bool_decide_eq_false_2 in IH by done.
      destruct (named_value c key); [by rewrite lookup_insert_eq|done].
    + assert (bool_decide (key ∈ {[k]} ∪ X) = bool_decide (key ∈ X)) as -> by (apply bool_decide_ext; set_solver).
      destruct (named_value c k); [by rewrite lookup_insert_ne|done].
Qed.

(** ** What a value means *)

(** The setting a JSON value stands for, [None] when it stands for none. *)
Definition reading (f : field) (j : rawjson) : option (string + Z) :=
  match f, j with
  | FLogLevel, JStr s => let n := ToLower (TrimSpace s) in if bool_decide (n ∈ levels) then Some (inl n) else None
  | (FDefaultRPM | FDefaultTPM | FDefaultDaily | FDefaultMonthly | FGlobalRPM | FGlobalTPM), JInt n =>
      if bool_decide (0 <= n < 2 ^ 64) then Some (inr n) else None
  | (FMaxTurns | FMaxBytes | FMaxContext | FMaxPerKey), JInt n =>
      if bool_decide (0 <= n < 2 ^ 63) then Some (inr n) else None
  | (FMaxTurns | FMaxBytes | FMaxContext | FMaxPerKey), JNegZero => Some (inr 0)
  | (FDefaultRPM | FDefaultTPM | FDefaultDaily | FDefaultMonthly | FGlobalRPM | FGlobalTPM
     | FMaxTurns | FMaxBytes | FMaxContext | FMaxPerKey), JNull => Some (inr 0)
  | (FSessionTTL | FWarmMax | FHeartbeat), JStr s =>
      match ParseDuration (TrimSpace s) with
      | Some d => if bool_decide (0 < d) then Some (inl (Duration_String d)) else None
      | None => None
      end
  | FOverflow, JStr s =>
      let n := ToLower (TrimSpace s) in if bool_decide (n = "trim" ∨ n = "reject") then Some (inl n) else None
  | _, _ => None
  end.

Lemma valid_level_levels s : validLogLevel s = bool_decide (ToLower (TrimSpace s) ∈ levels).
Proof.
  unfold validLogLevel. apply Bool.eq_iff_eq_true. rewrite bool_decide_eq_true, existsb_exists. split.
  - intros (x & Hx & E). apply String.eqb_eq in E as ->. by apply list_elem_of_In.
  - intros H. exists (ToLower (TrimSpace s)). split; [by apply list_elem_of_In|apply String.eqb_refl].
Qed.

Lemma patch_field_reading quote f j c :
  match reading f j with
  | Some v => patch_field quote f j c = Ok (set_value f v c)
  | None => ∃ e, patch_field quote f j c = Err e
  end.
Proof.
  destruct f, j as [|s|n| |]; cbn [reading patch_field]; unfold decodeString, decodeUint, decodeNonNegInt, positive_duration,
    decodeDuration, bad; cbn [unmarshal_string unmarshal_uint unmarshal_int];
    try by (eexists; reflexivity); try by eauto.
  all: try (unfold maxInt64, minInt64; case_bool_decide;
    repeat (match goal with |- context [?a <=? ?b] => destruct (Z.leb_spec a b) | |- context [?a <? ?b] => destruct (Z.ltb_spec a b) end;
            cbn [andb]);
    try lia; by eauto).
  all: try (match goal with |- context [ParseDuration ?t] => destruct (ParseDuration t) as [d|] end; [|by eauto]; case_bool_decide;
    destruct (Z.leb_spec d 0); try lia; by eauto).
  - rewrite valid_level_levels. case_bool_decide; cbn [negb]; eauto.
  - destruct (String.eqb_spec (ToLower (TrimSpace s)) "trim") as [E|E1],
      (String.eqb_spec (ToLower (TrimSpace s)) "reject") as [E'|E2]; case_bool_decide as H; cbn [negb andb]; eauto; naive_solver.
Qed.

Lemma reading_fits f j v : reading f j = Some v → fits f v.
Proof.
  destruct f, j as [|s|n| |]; cbn [reading]; try done; intros H; try (injection H as <-; cbn; unfold is_u64; lia).
  all: try (destruct (ParseDuration (TrimSpace s)) as [d|] eqn:E; [|done]; apply parse_duration_range in E).
  all: case_bool_decide; [|done]; injection H as <-; cbn; eauto.
Qed.

(** Every key names a setting and carries a value for it. *)
Definition readable (raw : gmap string rawjson) (key : string) : option (string + Z) :=
  match raw !! key, field_of key with Some j, Some f => reading f j | _, _ => None end.

Lemma apply_patch_total quote c raw :
  (∀ key, is_Some (raw !! key) → is_Some (readable raw key)) → ∃ c', applyConfigPatch quote c raw = Ok (c', dom raw).
Proof.
  intros H. destruct (patch_loop_accepts quote (sortedKeys raw) raw c ∅) as [[c' ch] E].
  { apply Forall_forall. intros key [j Ej]%(proj2 (sortedKeys_spec raw)).
    destruct (H key (ex_intro _ j Ej)) as [v Hv]. unfold readable in Hv. rewrite Ej in *.
    destruct (field_of key) as [f|]; [|done]. exists f, v. split; [done|]. intros d.
    pose proof (patch_field_reading quote f j d) as Hp. by rewrite Hv in Hp. }
  exists c'. pose proof E as Ep. apply applyConfigPatch_ok in Ep as [-> _]. done.
Qed.

(** An accepted patch gives the named settings their readings. *)
Lemma apply_patch_values quote c raw c' ch :
  applyConfigPatch quote c raw = Ok (c', ch) →
  ch = dom raw ∧ (∀ key, is_Some (raw !! key) → ∃ v, readable raw key = Some v ∧ named_value c' key = Some v) ∧
  (∀ f, field_name f ∉ ch → fieldValue c' f = fieldValue c f) ∧ (well_formed c → well_formed c').
Proof.
  intros H. apply applyConfigPatch_ok in H as [-> Hp]. split; [done|].
  split_and!; [| |by eapply patched_well_formed].
  - destruct Hp as (Hn & Hin & _). intros key Hk. pose proof Hk as Hk'. apply (proj2 (sortedKeys_spec raw)) in Hk'.
    destruct Hk as [j Ej]. destruct (Hn key Hk') as [f Ef]. pose proof (field_of_Some _ _ Ef) as <-.
    destruct (Hin f Hk') as [Hfit Hpf]. unfold readable, named_value. rewrite Ej, Ef in *. cbn in Hpf.
    pose proof (patch_field_reading quote f j c) as Hr. rewrite Hpf in Hr.
    destruct (reading f j) as [v|] eqn:Er; [|by destruct Hr]. exists v. split; [done|]. f_equal.
    injection Hr as Hr. apply (f_equal (λ d, fieldValue d f)) in Hr.
    by rewrite !set_value_eq in Hr by eauto using reading_fits.
  - destruct Hp as (_ & _ & Hout). intros f Hf. apply Hout. intros Hk. apply Hf. apply elem_of_dom.
    by apply (proj2 (sortedKeys_spec raw)).
Qed.

(** ** The requests *)

Section runs.
Context {KS CS SS : Type} (quote : string → string).
Context (marshal : gmap string rawjson → result bytes) (unmarshal : bytes → result (gmap string rawjson)).
Notation cserver := (@cserver KS CS SS).
Notation put := (handleAdminPutConfig quote marshal).
Notation load := (LoadConfigCheckpoint quote unmarshal).

(** The requests that reach the settings, and the load at start. *)
Inductive config_step : cserver → cserver → Prop :=
| step_get s : config_step s (handleAdminGetConfig s).1
| step_put body io now c s : config_step s (put body io now c s).1
| step_load path readErr s : config_step s (load path readErr s).1.

(** [apply] changes the holder only when every applier accepted. *)
Lemma apply_config rc next changed (s s' : cserver) e :
  cs_config s = Some rc → apply rc next changed s = (s', e) →
  cs_config s' = match e with
                 | Some _ => Some rc
                 | None => Some (mkConfig next (rc_boot rc) (rc_appliers rc) (rc_path rc) (rc_persisted rc ∪ changed))
                 end.
Proof.
  intros Hc. unfold apply. destruct (apply_live _ _ _ _) as [l [e'|]]; intros [= <- <-]; [by rewrite <- Hc|done].
Qed.

Lemma config_step_settings (s s' : cserver) rc :
  config_step s s' → cs_config s = Some rc → well_formed (rc_cur rc) →
  ∃ rc', cs_config s' = Some rc' ∧ well_formed (rc_cur rc').
Proof.
  intros Hs Hc Hw. destruct Hs as [s|body io now c s|path re s].
  - exists rc. unfold handleAdminGetConfig. by rewrite Hc.
  - unfold handleAdminPutConfig. rewrite Hc. destruct body as [raw|]; [|by exists rc].
    destruct (rejected_key quote _); [by exists rc|].
    destruct (applyConfigPatch quote _ _) as [[next ch]|] eqn:Ep; [|by exists rc].
    destruct (size ch =? 0)%nat; [by exists rc|]. apply apply_patch_values in Ep as (_ & _ & _ & Hw').
    destruct (apply rc next ch s) as [s1 e] eqn:Ea. pose proof (apply_config _ _ _ _ _ _ Hc Ea) as Hc1.
    destruct e; [by exists rc|]. rewrite Hc1. cbn [fst cs_config set_http]. rewrite Hc1. eexists. split; [done|]. by apply Hw'.
  - unfold LoadConfigCheckpoint. rewrite Hc. destruct (String.eqb path ""); [by exists rc|].
    destruct (read_json _ _ _ _ _) as [[loaded|]|]; [|by exists rc..]. case_match; [by exists rc|].
    destruct (applyConfigPatch quote _ _) as [[next ch]|] eqn:Ep; [|by exists rc].
    apply apply_patch_values in Ep as (_ & _ & _ & Hw'). cbn [fst].
    destruct (apply rc next ch s) as [s1 e] eqn:Ea. pose proof (apply_config _ _ _ _ _ _ Hc Ea) as Hc1.
    cbn [fst]. destruct e; [by exists rc|]. eexists. split; [done|]. by apply Hw'.
Qed.

(** C26: The settings keep their types. Whatever requests arrive, whatever the checkpoint
    file holds and however the appliers and the file system answer, the settings held
    (and shown by GET) stay well formed: the level is one of the five names, the
    policy trim or reject, the request and token limits are unsigned 64-bit values, the
    session caps non-negative, and each duration is the printed form of a positive
    duration. *)
Theorem settings_well_typed (s s' : cserver) rc :
  rtc config_step s s' → cs_config s = Some rc → well_formed (rc_cur rc) →
  ∃ rc', cs_config s' = Some rc' ∧ well_formed (rc_cur rc') ∧
    (handleAdminGetConfig s').2 = writeJSON StatusOK (PConfig (rc_cur rc') (rc_boot rc') readOnlyFields).
Proof.
  intros Hr. revert rc. induction Hr as [s|s s1 s' H1 _ IH]; intros rc Hc Hw.
  - exists rc. unfold handleAdminGetConfig. by rewrite Hc.
  - destruct (config_step_settings _ _ _ H1 Hc Hw) as (rc1 & Hc1 & Hw1). by apply (IH rc1).
Qed.

(** The state the server wires: the appliers of config_wiring.go, the settings in
    force, and only names of settings among the fields to persist. *)
Record governed (rc : runtimeConfig) (s : cserver) : Prop := {
  gov_config : cs_config s = Some rc;
  gov_appliers : rc_appliers rc = buildConfigAppliers quote;
  gov_fits : well_formed (rc_cur rc);
  gov_force : in_force (rc_cur rc) (live_of s);
  gov_names : ∀ key, key ∈ rc_persisted rc → isTunableField key = true }.

Lemma apply_governed rc next changed (s : cserver) :
  governed rc s → well_formed next → (∀ f, field_name f ∉ changed → fieldValue next f = fieldValue (rc_cur rc) f) →
  (∀ key, key ∈ changed → isTunableField key = true) →
  ∃ l, let rc' := mkConfig next (rc_boot rc) (rc_appliers rc) (rc_path rc) (rc_persisted rc ∪ changed) in
    apply rc next changed s = (set_config rc' (set_live l s), None) ∧
    governed rc' (set_config rc' (set_live l s)) ∧ data l = data (live_of s).
Proof.
  intros [Hc Ha Hw Hf Hn] Hw' Hsame Htun. unfold apply. rewrite Ha.
  destruct (apply_live_in_force quote next (rc_cur rc) changed (live_of s) Hw' Hf Hsame) as (l & -> & Hin & Hd).
  exists l. split; [done|]. split; [|done]. split; cbn; try done.
  - by destruct l.
  - intros key. rewrite elem_of_union. intros [H|H]; auto.
Qed.

Lemma readable_tunable raw key v : readable raw key = Some v → isTunableField key = true.
Proof. unfold readable, isTunableField. destruct (raw !! key); [|done]. by destruct (field_of key). Qed.

Lemma rejected_key_None keys : rejected_key quote keys = None ↔ Forall (λ key, isTunableField key = true) keys.
Proof.
  induction keys as [|key keys IH]; [by split; [constructor|]|]. cbn [rejected_key]. rewrite Forall_cons.
  destruct (isReadOnlyField key) eqn:Er.
  - split; [done|]. intros [Ht _]. apply tunable_field in Ht as [f Ef]. apply field_of_Some in Ef as <-.
    by rewrite read_only_not_tunable in Er.
  - destruct (isTunableField key); cbn [negb]; [|naive_solver]. naive_solver.
Qed.

(** PUT on a governed server. *)
Definition audited (now : Time) (c : context) (before after : RedactedValues) (s : cserver) : option MemoryStore :=
  h_auditLog (recordAudit now c auditOpConfigUpdate "config" OutcomeSuccess before after (cs_http s)).

Lemma set_live_audit l (s : cserver) now c before after :
  h_auditLog (recordAudit now c auditOpConfigUpdate "config" OutcomeSuccess before after (cs_http (set_live l s))) =
  audited now c before after s.
Proof. unfold audited, recordAudit. cbn. by destruct (h_auditLog (cs_http s)). Qed.

Lemma recordAudit_ctl now c op t o before after (h : HServer KS CS SS) :
  h_ctl (recordAudit now c op t o before after h) = h_ctl h.
Proof. unfold recordAudit. by destruct (h_auditLog h). Qed.

Lemma put_accepted rc raw io now c (s : cserver) :
  governed rc s → raw ≠ ∅ → (∀ key, is_Some (raw !! key) → is_Some (readable raw key)) →
  ∃ rc' s', put (Some raw) io now c s = (s', writeJSON StatusOK (configResponse rc')) ∧ governed rc' s' ∧
    data (live_of s') = data (live_of s) ∧
    applyConfigPatch quote (rc_cur rc) raw = Ok (rc_cur rc', dom raw) ∧
    (rc_persisted rc', rc_path rc', rc_boot rc') = (rc_persisted rc ∪ dom raw, rc_path rc, rc_boot rc) ∧
    h_auditLog (cs_http s') = audited now c (snapshotFields (rc_cur rc) (dom raw)) (snapshotFields (rc_cur rc') (dom raw)) s ∧
    cs_disk s' = (checkpoint marshal io rc' (cs_disk s)).1.
Proof.
  intros Hg Hne Hok. destruct (apply_patch_total quote (rc_cur rc) raw Hok) as [next Ep].
  pose proof Ep as Ev. apply apply_patch_values in Ev as (_ & Hv & Hsame & Hw).
  destruct (apply_governed rc next (dom raw) s Hg (Hw (gov_fits _ _ Hg)) Hsame) as (l & Ea & Hg' & Hd).
  { intros key [j Ej]%elem_of_dom. destruct (Hok key (ex_intro _ j Ej)) as [v Hr]. by eapply readable_tunable. }
  unfold handleAdminPutConfig. rewrite (gov_config _ _ Hg).
  assert (rejected_key quote (sortedKeys raw) = None) as ->.
  { apply rejected_key_None, Forall_forall. intros key Hk. apply (proj2 (sortedKeys_spec raw)) in Hk.
    destruct (Hok key Hk) as [v Hr]. by eapply readable_tunable. }
  rewrite Ep. assert ((size (dom raw) =? 0)%nat = false) as ->.
  { apply Nat.eqb_neq. rewrite size_dom. intros H%map_size_empty_inv. done. }
  rewrite Ea. cbn [cs_config set_config].
  eexists _, _. split; [reflexivity|]. destruct Hg' as [G1 G2 G3 G4 G5].
  split; [|split_and!; try done].
  - split; try done. unfold live_of in *. cbn [cs_http set_http cs_level] in *. by rewrite recordAudit_ctl.
  - unfold live_of, data in *. cbn [cs_http set_http cs_level l_ctl] in *. by rewrite recordAudit_ctl.
  - cbn [cs_http set_http]. apply (set_live_audit l s).
Qed.

Lemma put_refused rc raw io now c (s : cserver) :
  governed rc s → (∃ key, is_Some (raw !! key) ∧ readable raw key = None) →
  ∃ msg, put (Some raw) io now c s = (s, writeError StatusBadRequest "invalid_request_error" msg).
Proof.
  intros Hg (key & Hk & Hn). unfold handleAdminPutConfig. rewrite (gov_config _ _ Hg).
  destruct (rejected_key quote _); [by eexists|].
  destruct (applyConfigPatch quote _ _) as [[next ch]|e] eqn:Ep; [|by eexists]. exfalso.
  apply apply_patch_values in Ep as (_ & Hv & _). destruct (Hv key Hk) as (v & Hr & _). congruence.
Qed.

Lemma readable_or_not raw :
  (∀ key, is_Some (raw !! key) → is_Some (readable raw key)) ∨ (∃ key, is_Some (raw !! key) ∧ readable raw key = None).
Proof.
  destruct (decide (Forall (λ key, is_Some (readable raw key)) (sortedKeys raw))) as [H|H].
  - left. rewrite Forall_forall in H. by setoid_rewrite (proj2 (sortedKeys_spec raw)) in H.
  - right. apply not_Forall_Exists in H; [|intros ?; apply _].
    apply Exists_exists in H as (key & Hk%(proj2 (sortedKeys_spec raw)) & Hn).
    cbn in Hn. apply eq_None_not_Some in Hn. by eauto.
Qed.

(** C24: A PUT is all or nothing. On a running server, a body with a key that is unknown,
    read-only, or whose value is not one for that setting is answered 400 and changes
    nothing at all, not even the other keys of the body. Any other body is answered
    200 with the new settings: exactly the settings it names take exactly the values
    it gives, they are in force in the running components before the answer, every
    other piece of data is untouched, and one audit entry carries the old and the new
    values of exactly those settings. *)
Theorem put_config_exact rc raw io now c (s : cserver) :
  governed rc s → raw ≠ ∅ →
  (∃ key msg, is_Some (raw !! key) ∧ readable raw key = None ∧
     put (Some raw) io now c s = (s, writeError StatusBadRequest "invalid_request_error" msg)) ∨
  (∃ rc' s', put (Some raw) io now c s = (s', writeJSON StatusOK (configResponse rc')) ∧
     (∀ key, is_Some (raw !! key) → ∃ v, readable raw key = Some v ∧ named_value (rc_cur rc') key = Some v) ∧
     (∀ f, raw !! field_name f = None → fieldValue (rc_cur rc') f = fieldValue (rc_cur rc) f) ∧
     governed rc' s' ∧ data (live_of s') = data (live_of s) ∧
     h_auditLog (cs_http s') =
       audited now c (snapshotFields (rc_cur rc) (dom raw)) (snapshotFields (rc_cur rc') (dom raw)) s).
Proof.
  intros Hg Hne. destruct (readable_or_not raw) as [H|(key & Hk & Hn)].
  - right. destruct (put_accepted rc raw io now c s Hg Hne H) as (rc' & s' & E & Hg' & Hd & Ep & _ & Ha & _).
    apply apply_patch_values in Ep as (_ & Hv & Hsame & _). exists rc', s'. split_and!; try done.
    intros f Hf. apply Hsame. rewrite elem_of_dom, Hf. by intros [? ?].
  - left. destruct (put_refused rc raw io now c s Hg) as [msg E]; [by eauto|]. by exists key, msg.
Qed.

Lemma load_overrides rc path readErr (s : cserver) :
  governed rc s → ∃ rc', governed rc' (load path readErr s).1 ∧ data (live_of (load path readErr s).1) = data (live_of s) ∧
    ∀ f, field_name f ∉ rc_persisted rc' → fieldValue (rc_cur rc') f = fieldValue (rc_cur rc) f.
Proof.
  intros Hg. unfold LoadConfigCheckpoint. rewrite (gov_config _ _ Hg).
  destruct (String.eqb path ""); [by exists rc|]. destruct (read_json _ _ _ _ _) as [[loaded|]|]; [|by exists rc..].
  case_match; [by exists rc|]. destruct (applyConfigPatch quote _ _) as [[next ch]|] eqn:Ep; [|by exists rc].
  apply apply_patch_values in Ep as (-> & Hv & Hsame & Hw). cbn [fst].
  destruct (apply_governed rc next _ s Hg (Hw (gov_fits _ _ Hg)) Hsame) as (l & -> & Hg' & Hd).
  { intros key Hk%elem_of_dom. destruct (Hv key Hk) as (v & Hr & _). by eapply readable_tunable. }
  eexists. split; [exact Hg'|]. split; [by destruct l|]. intros f Hf. apply Hsame. cbn in Hf. set_solver.
Qed.
Lemma load_governed rc path readErr (s : cserver) :
  governed rc s → ∃ rc', governed rc' (load path readErr s).1 ∧ data (live_of (load path readErr s).1) = data (live_of s).
Proof. intros Hg. destruct (load_overrides rc path readErr s Hg) as (rc' & H1 & H2 & _). by exists rc'. Qed.

Lemma put_governed rc body io now c (s : cserver) :
  governed rc s → ∃ rc', governed rc' (put body io now c s).1 ∧ data (live_of (put body io now c s).1) = data (live_of s).
Proof.
  intros Hg. destruct body as [raw|].
  - destruct (decide (raw = ∅)) as [->|Hne].
    + exists rc. unfold handleAdminPutConfig. by rewrite (gov_config _ _ Hg).
    + destruct (readable_or_not raw) as [H|H].
      * destruct (put_accepted rc raw io now c s Hg Hne H) as (rc' & s' & -> & Hg' & Hd & _). by exists rc'.
      * destruct (put_refused rc raw io now c s Hg H) as [msg ->]. by exists rc.
  - exists rc. unfold handleAdminPutConfig. by rewrite (gov_config _ _ Hg).
Qed.

(** C25: What the settings show is what runs. From a server with its settings in force,
    after any sequence of configuration requests and loads, accepted or refused,
    whatever the file system does: the settings GET shows are the ones the log
    handler, the quota engine, the session manager, the history store and the control
    plane use, and no job, worker, session, history or counter was touched. *)
Theorem config_always_in_force rc (s s' : cserver) :
  governed rc s → rtc config_step s s' →
  ∃ rc', cs_config s' = Some rc' ∧ in_force (rc_cur rc') (live_of s') ∧ data (live_of s') = data (live_of s).
Proof.
  intros Hg Hr. revert rc Hg. induction Hr as [s|s s1 s' H1 _ IH]; intros rc Hg.
  - exists rc. split_and!; [apply Hg..|done].
  - assert (∃ rc1, governed rc1 s1 ∧ data (live_of s1) = data (live_of s)) as (rc1 & Hg1 & <-).
    { destruct H1 as [s|body io now c s|path re s]; [|by eapply put_governed|by eapply load_governed].
      exists rc. unfold handleAdminGetConfig. by rewrite (gov_config _ _ Hg). }
    by apply (IH rc1).
Qed.

Lemma reading_value f v : fits f v → reading f (raw_value v) = Some v.
Proof.
  intros H. set (c := mkSettings "" 0 0 0 0 0 0 "" 0 0 0 0 "" "" "").
  pose proof (patch_field_reading quote f (raw_value v) c) as Hp. rewrite value_accepted in Hp by done.
  destruct (reading f (raw_value v)) as [w|] eqn:E; [|by destruct Hp]. injection Hp as Hp.
  apply (f_equal (λ d, fieldValue d f)) in Hp. rewrite !set_value_eq in Hp by eauto using reading_fits. by subst.
Qed.

(** The overrides of a governed server are read as they were written. *)
Lemma overrides_readable rc (s : cserver) key :
  governed rc s → let raw := raw_value <$> project (rc_cur rc) (rc_persisted rc) in
  is_Some (raw !! key) ↔ key ∈ rc_persisted rc ∧ is_Some (named_value (rc_cur rc) key) ∧
    readable raw key = named_value (rc_cur rc) key.
Proof.
  intros Hg raw. unfold readable, raw. rewrite lookup_fmap, project_lookup. case_bool_decide as Hk.
  - unfold named_value. destruct (field_of key) as [f|]; [|split; [by intros [? ?]|by intros (_ & [? ?] & _)]].
    cbn. rewrite reading_value by apply Hg. naive_solver.
  - split; [by intros [? ?]|naive_solver].
Qed.

(** The overrides survive a restart. When the checkpoint reports success for a
    non-empty path, a server started on that file has, for every setting an operator
    changed, the value it had, for every other setting its own start value, and has
    them in force before it serves. *)
Theorem config_restart rc1 (s1 : cserver) rc2 (s2 : cserver) io disk :
  governed rc1 s1 → governed rc2 s2 → rc_path rc1 ≠ "" →
  let overrides := raw_value <$> project (rc_cur rc1) (rc_persisted rc1) in
  (∀ b, marshal overrides = Ok b → b ≠ [] ∧ unmarshal b = Ok overrides) →
  checkpoint marshal io rc1 disk = (cs_disk s2, None) →
  ∃ rc' s', load (rc_path rc1) None s2 = (s', None) ∧ governed rc' s' ∧ data (live_of s') = data (live_of s2) ∧
    ∀ f, fieldValue (rc_cur rc') f =
         if bool_decide (field_name f ∈ rc_persisted rc1) then fieldValue (rc_cur rc1) f else fieldValue (rc_cur rc2) f.
Proof.
  intros Hg1 Hg2 Hp overrides Hj. unfold checkpoint, LoadConfigCheckpoint. rewrite (gov_config _ _ Hg2).
  destruct (String.eqb_spec (rc_path rc1) "") as [|_]; [done|]. fold overrides.
  intros Hw. apply write_json_disk in Hw as (b & Hb & Hdisk). destruct (Hj b Hb) as [Hne Hu].
  rewrite Hdisk, (read_json_data _ _ _ _ _ Hne Hu).
  pose proof (λ key, overrides_readable rc1 s1 key Hg1) as Ho. cbv zeta in Ho. fold overrides in Ho.
  rewrite (map_filter_id _ overrides).
  2: { intros key j Ej. cbn. destruct (proj1 (Ho key) (ex_intro _ j Ej)) as (Hk & _ & Hr).
       pose proof (gov_names _ _ Hg1 key Hk) as Ht. split; [|done].
       apply tunable_field in Ht as [f Ef]. apply field_of_Some in Ef as <-. apply read_only_not_tunable. }
  assert (Hval : ∀ f, is_Some (overrides !! field_name f) ↔ field_name f ∈ rc_persisted rc1).
  { intros f. rewrite (Ho (field_name f)). unfold readable, named_value, overrides. rewrite lookup_fmap, project_lookup, field_of_name.
    unfold named_value. rewrite field_of_name. split; [by intros (? & _)|]. intros Hf. split_and!; [done|by eexists|].
    rewrite bool_decide_eq_true_2 by done. cbn. by rewrite reading_value by apply Hg1. }
  destruct (Nat.eqb_spec (size overrides) 0) as [Hs|Hs].
  - apply map_size_empty_inv in Hs. exists rc2, s2. split_and!; [done..|]. intros f.
    rewrite bool_decide_eq_false_2; [done|]. rewrite <- Hval, Hs, lookup_empty. by intros [? ?].
  - destruct (apply_patch_total quote (rc_cur rc2) overrides) as [next Ep].
    { intros key Hk. destruct (proj1 (Ho key) Hk) as (_ & Hn & ->). done. }
    rewrite Ep. pose proof Ep as Ev. apply apply_patch_values in Ev as (_ & Hv & Hsame & Hwf).
    destruct (apply_governed rc2 next _ s2 Hg2 (Hwf (gov_fits _ _ Hg2)) Hsame) as (l & -> & Hg' & Hd).
    { intros key Hk%elem_of_dom. destruct (Hv key Hk) as (v & Hr & _). by eapply readable_tunable. }
    eexists _, _. split; [reflexivity|]. split; [exact Hg'|]. split; [by destruct l|]. intros f. cbn [rc_cur].
    case_bool_decide as Hf.
    + apply Hval in Hf. destruct (Hv _ Hf) as (v & Hr & Hn). destruct (proj1 (Ho _) Hf) as (_ & _ & Hr').
      rewrite Hr' in Hr. unfold named_value in *. rewrite field_of_name in *. congruence.
    + apply Hsame. by rewrite elem_of_dom, Hval.
Qed.
End runs.

(** ** Witnesses *)

(** A server with [turns] turns per session, some settings marked as overridden and
    an override file. *)
Definition demo_settings_of (turns : Z) : ConfigSettings :=
  mkSettings "info" 60 0 0 0 0 0 "30m0s" turns 0 0 0 "trim" "5m0s" "30s".
Definition demo_manager_of (turns : Z) : Manager MemorySessionStore :=
  mkManager NewMemorySessionStore (NewMemoryHistoryStoreWithPolicy turns 0 0 OverflowTrim) (30 * Minute) ∅ 0 false [] 0 0.
Definition demo_tuned_of (turns : Z) : Server MemoryCounterStore MemorySessionStore :=
  set_tuning (30 * Second) 0 0 (5 * Minute)
    (set_session (demo_manager_of turns)
       (set_quota (mkEngine NewMemoryCounterStore (mkLimits 60 0 0 0) (mkLimits 0 0 0 0)) ex_one)).
Definition demo_quote (s : string) : string := "'" +:+ s +:+ "'".
Definition demo_boot : ConfigReadOnly := mkReadOnly ":9090" ":8080" ":9091" "q.json" "s.json" "text" "stderr".
Definition demo_rc_of (turns : Z) (persisted : gset string)
    : runtimeConfig (CS := MemoryCounterStore) (SS := MemorySessionStore) :=
  mkConfig (demo_settings_of turns) demo_boot (buildConfigAppliers demo_quote) "c.json" persisted.
Definition demo_config_of (turns : Z) (persisted : gset string) (disk : option bytes) : cserver (KS := Memory) :=
  mkCServer (set_ctl (demo_tuned_of turns) demo_http) LevelInfo (Some (demo_rc_of turns persisted)) disk.

Lemma demo_well_formed turns : 0 <= turns < 2 ^ 63 → well_formed (demo_settings_of turns).
Proof.
  intros Ht f. destruct f; cbn; try (unfold is_u64; lia); try (by left).
  - unfold levels. set_solver.
  - exists (30 * Minute). split; [done|reflexivity].
  - exists (5 * Minute). split; [done|reflexivity].
  - exists (30 * Second). split; [done|reflexivity].
Qed.

Lemma demo_governed turns persisted disk :
  0 <= turns < 2 ^ 63 → (∀ key, key ∈ persisted → isTunableField key = true) →
  governed demo_quote (demo_rc_of turns persisted) (demo_config_of turns persisted disk).
Proof.
  intros Ht Hp. split; try done; [by apply demo_well_formed|].
  split; try reflexivity. exists (demo_manager_of turns). split_and!; reflexivity.
Qed.

Definition demo_rc := demo_rc_of 100 ∅.
Definition demo_config := demo_config_of 100 ∅ None.
Lemma demo_config_governed : governed demo_quote demo_rc demo_config.
Proof. apply demo_governed; [lia|]. intros key H. by apply elem_of_empty in H. Qed.

Definition demo_no_json {A B} (_ : A) : result B := Err (ENew "unsupported").
Definition demo_patch : gmap string rawjson := {["session_ttl" := JStr "90m"; "quota_global_rpm" := JInt 600]}.

Lemma settings_well_typed_witness :
  ∃ rc, cs_config (handleAdminPutConfig demo_quote demo_no_json (Some demo_patch) cio_good 7 (demo_ctx demo_actor) demo_config).1
        = Some rc ∧ well_formed (rc_cur rc).
Proof.
  destruct (settings_well_typed demo_quote demo_no_json demo_no_json demo_config _ demo_rc
    (rtc_once _ _ (step_put demo_quote demo_no_json demo_no_json (Some demo_patch) cio_good 7 (demo_ctx demo_actor) demo_config))
    eq_refl (demo_well_formed 100 ltac:(lia))) as (rc & E & H & _).
  exists rc. exact (conj E H).
Defined.

Lemma put_config_exact_witness :
  ∃ (rc' : runtimeConfig (CS := MemoryCounterStore) (SS := MemorySessionStore)) s', handleAdminPutConfig demo_quote demo_no_json (Some demo_patch) cio_good 7 (demo_ctx demo_actor) demo_config
    = (s', writeJSON StatusOK (configResponse rc')) ∧
    named_value (rc_cur rc') "session_ttl" = Some (inl "1h30m0s") ∧ fieldValue (rc_cur rc') FLogLevel = inl "info".
Proof.
  destruct (put_config_exact demo_quote demo_no_json demo_rc demo_patch cio_good 7 (demo_ctx demo_actor) demo_config
    demo_config_governed) as [(key & msg & _ & _ & E)|(rc' & s' & E & Hv & Hsame & _)].
  - discriminate.
  - exfalso. apply (f_equal (λ r, resp_status (respond r.2))) in E. vm_compute in E. discriminate.
  - exists rc', s'. split; [exact E|]. split.
    + destruct (Hv "session_ttl") as (v & Hr & Hn); [by eexists|]. rewrite Hn. rewrite <- Hr. vm_compute. reflexivity.
    + rewrite (Hsame FLogLevel eq_refl). reflexivity.
Defined.

Lemma config_always_in_force_witness :
  ∃ rc, let s' := (handleAdminPutConfig demo_quote demo_no_json (Some demo_patch) cio_good 7 (demo_ctx demo_actor) demo_config).1 in
    cs_config s' = Some rc ∧ in_force (rc_cur rc) (live_of s') ∧ Engine_global (s_quota (h_ctl (cs_http s'))) = mkLimits 600 0 0 0.
Proof.
  destruct (config_always_in_force demo_quote demo_no_json demo_no_json demo_rc demo_config _ demo_config_governed
    (rtc_once _ _ (step_put demo_quote demo_no_json demo_no_json (Some demo_patch) cio_good 7 (demo_ctx demo_actor) demo_config)))
    as (rc & E & H & _).
  exists rc. split; [exact E|]. split; [exact H|]. vm_compute. reflexivity.
Defined.

Definition demo_overrides : gmap string rawjson :=
  raw_value <$> project (demo_settings_of 50) {["session_max_turns"]}.

Lemma config_restart_witness :
  let marshal m := if decide (m = demo_overrides) then Ok [7] else Err (ENew "unsupported") in
  ∃ (rc' : runtimeConfig (CS := MemoryCounterStore) (SS := MemorySessionStore)) s',
    LoadConfigCheckpoint demo_quote (λ _, Ok demo_overrides) "c.json" None (demo_config_of 100 ∅ (Some [7])) = (s', None) ∧
    governed demo_quote rc' s' ∧ fieldValue (rc_cur rc') FMaxTurns = inr 50 ∧ fieldValue (rc_cur rc') FLogLevel = inl "info".
Proof.
  intros marshal.
  destruct (config_restart demo_quote marshal (λ _, Ok demo_overrides) (demo_rc_of 50 {["session_max_turns"]})
    (demo_config_of 50 {["session_max_turns"]} None) (demo_rc_of 100 ∅) (demo_config_of 100 ∅ (Some [7])) cio_good None)
    as (rc' & s' & E & Hg & _ & Hv).
  - apply demo_governed; [lia|]. intros key ->%elem_of_singleton. reflexivity.
  - apply demo_governed; [lia|]. intros key H. by apply elem_of_empty in H.
  - discriminate.
  - intros b. fold demo_overrides. unfold marshal. rewrite decide_True by reflexivity. intros [= <-]. split; [discriminate|reflexivity].
  - unfold checkpoint, write_json. cbn [rc_path demo_rc_of String.eqb]. fold demo_overrides. unfold marshal.
    rewrite decide_True by reflexivity. reflexivity.
  - exists rc', s'. split; [exact E|]. split; [exact Hg|]. rewrite !Hv. split; reflexivity.
Defined.

(** JSON null counts as zero, which is no limit: a body meant to leave the limit unset
    removes it. *)
Example null_removes_limit :
  ∃ s', (handleAdminPutConfig demo_quote demo_no_json (Some {["quota_default_rpm" := JNull]}) cio_good 7
           (demo_ctx demo_actor) demo_config) = s' ∧
    resp_status (respond s'.2) = 200 ∧
    Engine_defaults (s_quota (h_ctl (cs_http demo_config))) = mkLimits 60 0 0 0 ∧
    Engine_defaults (s_quota (h_ctl (cs_http s'.1))) = mkLimits 0 0 0 0.
Proof. eexists. split; [reflexivity|]. split_and!; vm_compute; reflexivity. Qed.
