(* ===== verification/Boot.v ===== *)
(** * Boot.v: starting and stopping the server process (src/cmd/agentgpu/server.go)

    [runServerCmd] resolves the command line and the environment; [serveControlPlane]
    opens the stores, restores every checkpoint, wires quota engine, session manager,
    control plane, settings holder and HTTP API together, and on shutdown writes the
    checkpoints back.  The files are their contents, one field of [files] for each:
    path flags that make two of them the same file are not modelled.  The outcome
    of each system or library call is an argument. *)

From Stdlib Require Import Ascii.
From S2P Require Import Config.
From S2P Require Import Prelude Errors AtomicFile GoTime GoDuration GoStrings GoConv GoText Types Queue Store Authz Auth AuditLog Scheduler Quota History Session ServerWorker Server Http HttpServer UsageSeries RuntimeConfig.
Open Scope Z_scope.

(** ** The command line *)

(** [None] for --metrics-listen is a flag that was not passed. *)
Record serverFlags := mkFlags {
  fl_listen : string; fl_httpListen : string; fl_metricsListen : option string; fl_store : string;
  fl_quotaPath : string; fl_rpm : Z; fl_tpm : Z; fl_daily : Z; fl_monthly : Z; fl_globalRPM : Z; fl_globalTPM : Z;
  fl_hbTimeout : Duration; fl_sessionPath : string; fl_sessionTTL : Duration; fl_maxSessionsPerKey : Z;
  fl_maxSessionTurns : Z; fl_maxSessionContextTokens : Z; fl_sessionOverflow : string; fl_modelWarmMax : Duration;
  fl_uiPath : string }.

Record resolved := mkResolved {
  r_cfg : ServerConfig; r_heartbeatTimeout : Duration; r_qcfg : QuotaConfig; r_scfg : SessionConfig; r_lcfg : LogConfig }.

Section start.
Context (os_LookupEnv : EnvLookup) (os_UserHomeDir : result string).

Definition metricsListenOff (flag : option string) : bool :=
  let flagValue := default "" flag in
  match flag with
  | Some _ => String.eqb flagValue ""
  | None => match os_LookupEnv Config.EnvMetricsListen with Some v => String.eqb v "" | None => false end
  end.

Definition runServerCmd_resolve (f : serverFlags) : resolved :=
  let metricsFlag :=
    if metricsListenOff (fl_metricsListen f) then Config.MetricsListenDisabled else default "" (fl_metricsListen f) in
  mkResolved
    (Config.ResolveServer os_LookupEnv (Config.mkServerConfig (fl_listen f) (fl_httpListen f) metricsFlag) None)
    (Config.ResolveHeartbeatTimeout os_LookupEnv (fl_hbTimeout f) None)
    (Config.ResolveQuota os_LookupEnv os_UserHomeDir
       (Config.mkQuotaConfig (fl_quotaPath f) (fl_rpm f) (fl_tpm f) (fl_daily f) (fl_monthly f) (fl_globalRPM f) (fl_globalTPM f))
       None None)
    (Config.ResolveSession os_LookupEnv os_UserHomeDir
       (Config.mkSessionConfig (fl_sessionPath f) (fl_sessionTTL f) (fl_maxSessionTurns f) 0 (fl_maxSessionContextTokens f)
          (fl_maxSessionsPerKey f) (fl_sessionOverflow f) (fl_modelWarmMax f)) None None)
    (Config.ResolveLog os_LookupEnv (Config.mkLogConfig "" "" "") None).

(** ** Logging *)

(** [quote] is fmt's %q. *)
Context (quote : string → string).

Inductive sink := Stderr | Stdout | LogFile (path : string).
Definition openLogOutput (name : string) (openErr : option error) : result sink :=
  let n := ToLower (TrimSpace name) in
  if String.eqb n "stderr" || String.eqb n "" then Ok Stderr
  else if String.eqb n "stdout" then Ok Stdout
  else match openErr with
       | Some e => Err (EWrap ("open log output " +:+ quote name) e)
       | None => Ok (LogFile name)
       end.
Inductive encoding := TextLog | JSONLog.
Record logHandle := mkLogHandle { lh_level : Level; lh_sink : sink; lh_encoding : encoding }.
Definition newLoggerHandle (cfg : LogConfig) (openErr : option error) : result logHandle :=
  let '(initial, _) := parseLevel (Config.Log_Level cfg) in
  match openLogOutput (Config.Log_Output cfg) openErr with
  | Err e => Err e
  | Ok out =>
      Ok (mkLogHandle initial out
            (if String.eqb (ToLower (TrimSpace (Config.Log_Format cfg))) "text" then TextLog else JSONLog))
  end.

(** ** The state files *)

(** One field per file: the paths are taken to be distinct. *)
Record files := mkFiles {
  fi_keys : option bytes; fi_quota : option bytes; fi_sessions : option bytes; fi_history : option bytes;
  fi_audit : option bytes; fi_usage : option bytes; fi_config : option bytes }.
(** The failures of the calls of one start. *)
Record startIO := mkStartIO {
  io_listen : option error; io_mkdirKeys : option error; io_readKeys : option error; io_readQuota : option error;
  io_readSessions : option error; io_readHistory : option error; io_sessionCollector : option error;
  io_serverCollector : option error; io_readAudit : option error; io_readUsage : option error;
  io_assets : option error; io_readConfig : option error }.
Definition start_good : startIO := mkStartIO None None None None None None None None None None None None.

Definition sessionHistoryPath (sessionPath : string) : string := path_Join [path_Dir sessionPath; "history.json"].
Definition auditCheckpointPath (quotaPath : string) : string := path_Join [path_Dir quotaPath; "audit.json"].
Definition usageCheckpointPath (quotaPath : string) : string := path_Join [path_Dir quotaPath; "usage.json"].
Definition configCheckpointPath (quotaPath : string) : string := path_Join [path_Dir quotaPath; "config.json"].

Definition auditLogCapacity : Z := 100000.

(** encoding/json on each file's value, and the iteration orders of the maps. *)
Context (range_sessions : sessmap → list Session) (range_spec : ∀ m, range_sessions m ≡ₚ (map_to_list m).*2).
Context (marshal_keys : list APIKey → result bytes) (unmarshal_keys : bytes → result (list APIKey)).
Context (marshal_quota : gmap string Counters → result bytes) (unmarshal_quota : bytes → result (option (gmap string Counters))).
Context (marshal_sessions : list Session → result bytes) (unmarshal_sessions : bytes → result (list Session)).
Context (marshal_history : gmap string (list Message) → result bytes)
        (unmarshal_history : bytes → result (gmap string (list Message))).
Context (marshal_audit : list Entry → result bytes) (unmarshal_audit : bytes → result (list Entry)).
Context (marshal_usage : gmap string (list DailySample) → result bytes)
        (unmarshal_usage : bytes → result (gmap string (list DailySample))).
Context (sortSlice : list DailySample → list DailySample).
Context (unmarshal_config : bytes → result (gmap string rawjson)).

Let MSS_store : SessionStore MemorySessionStore := MSS_SessionStore range_sessions range_spec.
Local Existing Instance MSS_store.

Definition openStore (storeFlag : string) (io : startIO) (disk : files) (flushes : list flushIO) : result File :=
  NewFile unmarshal_keys (Config.ResolveStorePath os_LookupEnv os_UserHomeDir storeFlag None None) (io_mkdirKeys io)
    (io_readKeys io) (fi_keys disk) flushes.

Definition boot_quota (qcfg : QuotaConfig) (io : startIO) (disk : files) : result (Engine MemoryCounterStore) :=
  match Quota.LoadCheckpoint unmarshal_quota (Config.Quota_Path qcfg) (io_readQuota io) (fi_quota disk) NewMemoryCounterStore with
  | (_, Some e) => Err e
  | (cs, None) =>
      Ok (NewEngine cs
            [WithDefaults (mkLimits (Config.DefaultRPM qcfg) (Config.DefaultTPM qcfg) (Config.DefaultDailyTokens qcfg)
                             (Config.DefaultMonthlyTokens qcfg));
             WithGlobalLimits (Config.GlobalRPM qcfg) (Config.GlobalTPM qcfg)])
  end.

Definition sessionKeepSet (st : MemorySessionStore) : gset string := list_to_set (map Session_ID (Session.List st)).

Definition boot_sessions (scfg : SessionConfig) (io : startIO) (disk : files) (now : Time)
    : result (Manager MemorySessionStore) :=
  let sessPath := Config.Session_Path scfg in
  let histPath := sessionHistoryPath sessPath in
  let '(overflow, _) := ParseOverflowPolicy (Config.OverflowPolicy_ scfg) in
  let histStore := NewMemoryHistoryStoreWithPolicy (Config.MaxTurns scfg) (Config.MaxBytes scfg)
                     (Config.MaxContextTokens scfg) overflow in
  match MSS_LoadCheckpoint unmarshal_sessions sessPath (io_readSessions io) (fi_sessions disk) now NewMemorySessionStore with
  | (_, Err e) => Err (EWrap "load session checkpoint" e)
  | (sessStore, Ok _) =>
  match History_LoadCheckpoint unmarshal_history histPath (io_readHistory io) (fi_history disk)
          (Some (sessionKeepSet sessStore)) histStore with
  | (_, Some e) => Err (EWrap "load history checkpoint" e)
  | (histStore, None) =>
      Ok (NewManager sessStore histStore
            [WithTTL (Config.TTL scfg); WithMaxSessionsPerKey (Config.MaxSessionsPerKey scfg); WithSessionObserver])
  end end.

Definition boot_control (r : resolved) (eng : Engine MemoryCounterStore) (mgr : Manager MemorySessionStore)
    : Server MemoryCounterStore MemorySessionStore :=
  Server.New NewMemoryCounterStore
    [WithQuota (Some eng); WithHeartbeatTimeout (r_heartbeatTimeout r); WithSessionManager (Some mgr);
     WithModelWarmMax (Config.ModelWarmMax (r_scfg r))].

(** [OverflowPolicy.String]. *)
Definition policy_name (p : OverflowPolicy) : string := match p with OverflowTrim => "trim" | OverflowReject => "reject" end.

Definition config_initial (r : resolved) : ConfigSettings :=
  let '(overflow, _) := ParseOverflowPolicy (Config.OverflowPolicy_ (r_scfg r)) in
  mkSettings (Config.Log_Level (r_lcfg r))
    (Config.DefaultRPM (r_qcfg r)) (Config.DefaultTPM (r_qcfg r)) (Config.DefaultDailyTokens (r_qcfg r))
    (Config.DefaultMonthlyTokens (r_qcfg r)) (Config.GlobalRPM (r_qcfg r)) (Config.GlobalTPM (r_qcfg r))
    (Duration_String (Config.TTL (r_scfg r)))
    (Config.MaxTurns (r_scfg r)) (Config.MaxBytes (r_scfg r)) (Config.MaxContextTokens (r_scfg r))
    (Config.MaxSessionsPerKey (r_scfg r)) (policy_name overflow)
    (Duration_String (Config.ModelWarmMax (r_scfg r))) (Duration_String (r_heartbeatTimeout r)).

Definition metricsAddr (r : resolved) : string := Config.MetricsListenAddr (Config.MetricsListen (r_cfg r)).

Definition config_boot (r : resolved) : ConfigReadOnly :=
  mkReadOnly (Config.Listen (r_cfg r)) (Config.HTTPListen (r_cfg r)) (metricsAddr r) (Config.Quota_Path (r_qcfg r))
    (Config.Session_Path (r_scfg r)) (Config.Log_Format (r_lcfg r)) (Config.Log_Output (r_lcfg r)).

Record running := mkRunning {
  ru_server : cserver (KS := File) (CS := MemoryCounterStore) (SS := MemorySessionStore);
  ru_usage : UStore;
  ru_metrics : option string }.      (* the address of the metrics listener, when there is one *)

Definition serveControlPlane_start (lh : logHandle) (r : resolved) (storeFlag uiPath : string) (io : startIO)
    (disk : files) (flushes : list flushIO) (now : Time) : result running :=
  match io_listen io with
  | Some e => Err (EWrap ("listen on " +:+ Config.Listen (r_cfg r)) e)
  | None =>
  match openStore storeFlag io disk flushes with
  | Err e => Err e
  | Ok st =>
  match boot_quota (r_qcfg r) io disk with
  | Err e => Err e
  | Ok eng =>
  match boot_sessions (r_scfg r) io disk now with
  | Err e => Err e
  | Ok mgr =>
  match io_sessionCollector io with
  | Some e => Err (EWrap "register session metrics collector" e)
  | None =>
  let srv := boot_control r eng mgr in
  match io_serverCollector io with
  | Some e => Err (EWrap "register metrics collector" e)
  | None =>
  match AuditLog.LoadCheckpoint unmarshal_audit (auditCheckpointPath (Config.Quota_Path (r_qcfg r))) (io_readAudit io)
          (fi_audit disk) (NewMemoryStore auditLogCapacity) with
  | (_, Some e) => Err (EWrap "load audit checkpoint" e)
  | (auditLog, None) =>
  match UsageSeries.LoadCheckpoint unmarshal_usage sortSlice (usageCheckpointPath (Config.Quota_Path (r_qcfg r)))
          (io_readUsage io) (fi_usage disk) UsageSeries.New with
  | (_, Some e) => Err (EWrap "load usage checkpoint" e)
  | (usageStore, None) =>
  let configPath := configCheckpointPath (Config.Quota_Path (r_qcfg r)) in
  match (if String.eqb uiPath "" then None else io_assets io) with
  | Some e => Err (EWrap ("ui-path " +:+ quote uiPath) e)
  | None =>
  let httpSrv :=
    WithRuntimeConfig (config_initial r) (config_boot r) (buildConfigAppliers quote) configPath
      (mkCServer (HttpServer.NewServer srv (NewService st) (Some auditLog)) (lh_level lh) None (fi_config disk)) in
  match LoadConfigCheckpoint quote unmarshal_config configPath (io_readConfig io) httpSrv with
  | (_, Some e) => Err (EWrap "load config checkpoint" e)
  | (httpSrv, None) =>
      Ok (mkRunning httpSrv usageStore (if String.eqb (metricsAddr r) "" then None else Some (metricsAddr r)))
  end end end end end end end end end end.

(** ** While running *)





(** ** What a start gives *)

(** The numbers of the command line fit their Go types. *)
Definition flags_ok (f : serverFlags) : Prop :=
  Forall is_u64 [fl_rpm f; fl_tpm f; fl_daily f; fl_monthly f; fl_globalRPM f; fl_globalTPM f] ∧
  Forall is_i64 [fl_hbTimeout f; fl_sessionTTL f; fl_maxSessionsPerKey f; fl_maxSessionTurns f;
                 fl_maxSessionContextTokens f; fl_modelWarmMax f].

Lemma boot_control_tuned r eng mgr :
  0 < r_heartbeatTimeout r → 0 < Config.ModelWarmMax (r_scfg r) →
  let ctl := boot_control r eng mgr in
  s_quota ctl = eng ∧ s_sessionMgr ctl = Some mgr ∧ s_heartbeatTimeout ctl = r_heartbeatTimeout r ∧
  s_modelWarmMax ctl = Config.ModelWarmMax (r_scfg r).
Proof.
  intros H1 H2. unfold boot_control, Server.New, WithHeartbeatTimeout, WithModelWarmMax. cbn [fold_left].
  rewrite (proj2 (Z.ltb_lt _ _) H1), (proj2 (Z.ltb_lt _ _) H2). cbn.
  by rewrite (proj2 (Z.leb_gt (Config.ModelWarmMax (r_scfg r)) 0)) by done.
Qed.

Lemma boot_manager scfg io disk now mgr :
  boot_sessions scfg io disk now = Ok mgr → 0 < Config.TTL scfg → 0 <= Config.MaxSessionsPerKey scfg →
  m_ttl mgr = Config.TTL scfg ∧ m_maxPerKey mgr = Config.MaxSessionsPerKey scfg ∧
  mhs_caps (m_history mgr) = mkHistoryCaps (Config.MaxTurns scfg) (Config.MaxBytes scfg) (Config.MaxContextTokens scfg)
                               (ParseOverflowPolicy (Config.OverflowPolicy_ scfg)).1.
Proof.
  unfold boot_sessions. destruct (ParseOverflowPolicy _) as [ov ok]. destruct (MSS_LoadCheckpoint _ _ _ _ _ _) as [st [d|]]; [|done].
  destruct (History_LoadCheckpoint _ _ _ _ _ _) as [h [e|]] eqn:Eh; [done|]. intros [= <-] Ht Hm.
  assert (mhs_caps h = mkHistoryCaps (Config.MaxTurns scfg) (Config.MaxBytes scfg) (Config.MaxContextTokens scfg) ov) as Hc.
  { unfold History_LoadCheckpoint in Eh. by repeat case_match; simplify_eq/=. }
  unfold NewManager, WithTTL, WithMaxSessionsPerKey. cbn [fold_left]. rewrite (proj2 (Z.ltb_lt _ _) Ht).
  destruct (Z.ltb_spec 0 (Config.MaxSessionsPerKey scfg)); case_match; cbn; split_and!; try done; try lia.
Qed.

Lemma boot_engine qcfg io disk eng :
  boot_quota qcfg io disk = Ok eng →
  Engine_defaults eng = mkLimits (Config.DefaultRPM qcfg) (Config.DefaultTPM qcfg) (Config.DefaultDailyTokens qcfg)
                          (Config.DefaultMonthlyTokens qcfg) ∧
  Engine_global eng = mkLimits (Config.GlobalRPM qcfg) (Config.GlobalTPM qcfg) 0 0.
Proof. unfold boot_quota. destruct (Quota.LoadCheckpoint _ _ _ _ _) as [cs [e|]]; [done|]. by intros [= <-]. Qed.

Lemma policy_name_parse s : (ParseOverflowPolicy (policy_name (ParseOverflowPolicy s).1)).1 = (ParseOverflowPolicy s).1.
Proof. by destruct (ParseOverflowPolicy s).1. Qed.

Lemma duration_of_string d : 0 < d < 2 ^ 63 → duration_of (Duration_String d) = d.
Proof. intros. unfold duration_of. rewrite duration_roundtrip; [done|]. unfold is_i64. lia. Qed.

Lemma level_recognized s : s ∈ levels → parseLevel s = ((parseLevel s).1, true).
Proof. intros H. apply level_parses in H. by destruct (parseLevel s) as [l ok]; simpl in *; subst. Qed.

(** The settings shown first are well formed. *)
Lemma initial_well_formed r :
  Config.usable_session (r_scfg r) → 0 < r_heartbeatTimeout r < 2 ^ 63 → Config.Log_Level (r_lcfg r) ∈ levels →
  Forall is_u64 [Config.DefaultRPM (r_qcfg r); Config.DefaultTPM (r_qcfg r); Config.DefaultDailyTokens (r_qcfg r);
                 Config.DefaultMonthlyTokens (r_qcfg r); Config.GlobalRPM (r_qcfg r); Config.GlobalTPM (r_qcfg r)] →
  well_formed (config_initial r).
Proof.
  intros [_ Ht Hw Hn Hb Hc Hk _] Hh Hl Hu. repeat match goal with H : Forall _ (_ :: _) |- _ => inversion_clear H end.
  intros f. unfold config_initial. destruct (ParseOverflowPolicy _) as [ov ok].
  destruct f; cbn; try done; try lia; eauto. destruct ov; auto.
Qed.

Lemma resolve_usable f : flags_ok f → let r := runServerCmd_resolve f in
  Config.usable_session (r_scfg r) ∧ 0 < r_heartbeatTimeout r < 2 ^ 63 ∧
  Forall is_u64 [Config.DefaultRPM (r_qcfg r); Config.DefaultTPM (r_qcfg r); Config.DefaultDailyTokens (r_qcfg r);
                 Config.DefaultMonthlyTokens (r_qcfg r); Config.GlobalRPM (r_qcfg r); Config.GlobalTPM (r_qcfg r)] ∧
  Config.Quota_Path (r_qcfg r) ≠ "".
Proof.
  intros [Hu Hi]. repeat match goal with H : Forall _ (_ :: _) |- _ => inversion_clear H end.
  cbv zeta. unfold runServerCmd_resolve. cbn [r_scfg r_heartbeatTimeout r_qcfg]. split_and!.
  - apply Config.session_usable. unfold Config.session_flags_ok. cbn. split_and!; try done; unfold is_i64; lia.
  - by apply Config.heartbeat_usable.
  - by apply Config.heartbeat_usable.
  - destruct (Config.quota_usable os_LookupEnv os_UserHomeDir
      (Config.mkQuotaConfig (fl_quotaPath f) (fl_rpm f) (fl_tpm f) (fl_daily f) (fl_monthly f) (fl_globalRPM f) (fl_globalTPM f))
      None None) as (? & ? & _); [done..|]. by repeat (apply Forall_cons_2; [done|]).
  - by apply Config.quota_usable.
Qed.



(** The parts of a start that can fail, each succeeding. *)
Record parts (r : resolved) (storeFlag uiPath : string) (io : startIO) (disk : files) (flushes : list flushIO) (now : Time)
    (st : File) (eng : Engine MemoryCounterStore) (mgr : Manager MemorySessionStore) (al : MemoryStore) (us : UStore) : Prop := {
  pt_listen : io_listen io = None;
  pt_store : openStore storeFlag io disk flushes = Ok st;
  pt_quota : boot_quota (r_qcfg r) io disk = Ok eng;
  pt_sessions : boot_sessions (r_scfg r) io disk now = Ok mgr;
  pt_collectors : io_sessionCollector io = None ∧ io_serverCollector io = None;
  pt_audit : AuditLog.LoadCheckpoint unmarshal_audit (auditCheckpointPath (Config.Quota_Path (r_qcfg r))) (io_readAudit io)
               (fi_audit disk) (NewMemoryStore auditLogCapacity) = (al, None);
  pt_usage : UsageSeries.LoadCheckpoint unmarshal_usage sortSlice (usageCheckpointPath (Config.Quota_Path (r_qcfg r)))
               (io_readUsage io) (fi_usage disk) UsageSeries.New = (us, None);
  pt_assets : uiPath = "" ∨ io_assets io = None }.

Definition wired (lh : logHandle) (r : resolved) (disk : files) st eng mgr al
    : cserver (KS := File) (CS := MemoryCounterStore) (SS := MemorySessionStore) :=
  WithRuntimeConfig (config_initial r) (config_boot r) (buildConfigAppliers quote)
    (configCheckpointPath (Config.Quota_Path (r_qcfg r)))
    (mkCServer (HttpServer.NewServer (boot_control r eng mgr) (NewService st) (Some al)) (lh_level lh) None (fi_config disk)).

Lemma start_parts lh r storeFlag uiPath io disk flushes now ru :
  serveControlPlane_start lh r storeFlag uiPath io disk flushes now = Ok ru ↔
  ∃ st eng mgr al us s, parts r storeFlag uiPath io disk flushes now st eng mgr al us ∧
    LoadConfigCheckpoint quote unmarshal_config (configCheckpointPath (Config.Quota_Path (r_qcfg r))) (io_readConfig io)
      (wired lh r disk st eng mgr al) = (s, None) ∧
    ru = mkRunning s us (if String.eqb (metricsAddr r) "" then None else Some (metricsAddr r)).
Proof.
  unfold serveControlPlane_start. split.
  - destruct (io_listen io) eqn:E1; [done|]. destruct (openStore _ _ _ _) as [st|] eqn:E2; [|done].
    destruct (boot_quota _ _ _) as [eng|] eqn:E3; [|done]. destruct (boot_sessions _ _ _ _) as [mgr|] eqn:E4; [|done].
    destruct (io_sessionCollector io) eqn:E5; [done|]. destruct (io_serverCollector io) eqn:E6; [done|].
    destruct (AuditLog.LoadCheckpoint _ _ _ _ _) as [al [e|]] eqn:E7; [done|].
    destruct (UsageSeries.LoadCheckpoint _ _ _ _ _ _) as [us [e|]] eqn:E8; [done|].
    destruct (if String.eqb uiPath "" then None else io_assets io) eqn:E9; [done|].
    destruct (LoadConfigCheckpoint _ _ _ _ _) as [s [e|]] eqn:E10; [done|]. intros [= <-].
    exists st, eng, mgr, al, us, s. split; [|done]. split; try done. destruct (String.eqb_spec uiPath ""); auto.
  - intros (st & eng & mgr & al & us & s & [E1 E2 E3 E4 [E5 E6] E7 E8 E9] & E10 & ->).
    rewrite E1, E2, E3, E4, E5, E6, E7, E8. fold (wired lh r disk st eng mgr al). rewrite E10.
    destruct (String.eqb_spec uiPath ""); [done|]. by destruct E9 as [?| ->].
Qed.

(** The freshly wired server has its settings in force. *)
Lemma wired_governed f openErr lh io disk storeFlag uiPath flushes now st eng mgr al us :
  flags_ok f → let r := runServerCmd_resolve f in
  Config.Log_Level (r_lcfg r) ∈ levels → newLoggerHandle (r_lcfg r) openErr = Ok lh →
  parts r storeFlag uiPath io disk flushes now st eng mgr al us →
  governed quote (mkConfig (config_initial r) (config_boot r) (buildConfigAppliers quote)
                    (configCheckpointPath (Config.Quota_Path (r_qcfg r))) ∅) (wired lh r disk st eng mgr al).
Proof.
  intros Hf r Hl Hlh [_ _ Eq Em _ _ _ _]. destruct (resolve_usable f Hf) as (Hs & Hh & Hu & _). fold r in Hs, Hh, Hu.
  assert (lh_level lh = (parseLevel (Config.Log_Level (r_lcfg r))).1) as Hlv.
  { unfold newLoggerHandle in Hlh. destruct (parseLevel _) as [lv ok]. destruct (openLogOutput _ _); [|done]. by injection Hlh as <-. }
  pose proof Hs as [_ Ht Hw Hn Hb Hc Hk _].
  destruct (boot_engine _ _ _ _ Eq) as [Ed Eg]. destruct (boot_manager _ _ _ _ _ Em) as (M1 & M2 & M3); [lia..|].
  destruct (boot_control_tuned r eng mgr) as (C1 & C2 & C3 & C4); [lia..|].
  split; try done; [by apply initial_well_formed|]. unfold config_initial.
  destruct (ParseOverflowPolicy (Config.OverflowPolicy_ (r_scfg r))) as [ov ok] eqn:Eo.
  split; cbn -[boot_control duration_of Duration_String parseLevel].
  - rewrite Hlv. by apply level_recognized.
  - by rewrite C1.
  - by rewrite C1.
  - rewrite C4. symmetry. by apply duration_of_string.
  - rewrite C3. symmetry. by apply duration_of_string.
  - exists mgr. split; [done|]. rewrite duration_of_string by done. split_and!; [done| |done].
    rewrite M3. f_equal. by destruct ov.
Qed.

(** What the command line and the environment ask of each setting: the flag if it
    says anything, else its variable if that parses, else the default.  The
    per-key quota defaults have no variable, the log level has no flag, the byte
    cap has neither, and an overflow policy that is not a known name is read as
    the default one. *)
Definition wanted (f : serverFlags) (fld : field) : string + Z :=
  let text := Config.set_text os_LookupEnv in
  let duration flag var d :=
    inl (Duration_String (Config.first_of (Config.when Config.positive flag)
           (Config.from_env ParseDuration Config.positive os_LookupEnv var) d)) in
  let count flag var d :=
    inr (Config.first_of (Config.when Config.positive flag) (Config.from_env Atoi Config.counting os_LookupEnv var) d) in
  let global flag var :=
    inr (Config.first_of (Config.when (λ n, negb (n =? 0)) flag) (Config.from_env ParseUint (λ _, true) os_LookupEnv var) 0) in
  match fld with
  | FLogLevel => inl (Config.first_of None (text Config.EnvLogLevel) Config.DefaultLogLevel)
  | FDefaultRPM => inr (fl_rpm f)
  | FDefaultTPM => inr (fl_tpm f)
  | FDefaultDaily => inr (fl_daily f)
  | FDefaultMonthly => inr (fl_monthly f)
  | FGlobalRPM => global (fl_globalRPM f) Config.EnvGlobalRPM
  | FGlobalTPM => global (fl_globalTPM f) Config.EnvGlobalTPM
  | FSessionTTL => duration (fl_sessionTTL f) Config.EnvSessionTTL Config.DefaultSessionTTL
  | FMaxTurns => count (fl_maxSessionTurns f) Config.EnvSessionMaxTurns Config.DefaultSessionMaxTurns
  | FMaxBytes => inr Config.DefaultSessionMaxBytes
  | FMaxContext => count (fl_maxSessionContextTokens f) Config.EnvSessionMaxContextTokens Config.DefaultSessionMaxContextTokens
  | FMaxPerKey => count (fl_maxSessionsPerKey f) Config.EnvMaxSessionsPerKey Config.DefaultMaxSessionsPerKey
  | FOverflow =>
      let name := Config.first_of (Config.when Config.nonempty (fl_sessionOverflow f))
                    (text Config.EnvSessionOverflowPolicy) Config.DefaultSessionOverflowPolicy in
      inl (policy_name (ParseOverflowPolicy name).1)
  | FWarmMax => duration (fl_modelWarmMax f) Config.EnvModelWarmMax Config.DefaultModelWarmMax
  | FHeartbeat => duration (fl_hbTimeout f) Config.EnvHeartbeatTimeout Config.DefaultHeartbeatTimeout
  end.

Lemma initial_wanted f fld : fieldValue (config_initial (runServerCmd_resolve f)) fld = wanted f fld.
Proof.
  pose proof (Config.session_precedence os_LookupEnv os_UserHomeDir
    (Config.mkSessionConfig (fl_sessionPath f) (fl_sessionTTL f) (fl_maxSessionTurns f) 0 (fl_maxSessionContextTokens f)
       (fl_maxSessionsPerKey f) (fl_sessionOverflow f) (fl_modelWarmMax f)) None None) as (E1 & E2 & E3 & E4 & E5 & E6 & E7 & _).
  unfold config_initial, runServerCmd_resolve. cbn [r_scfg r_lcfg r_qcfg r_heartbeatTimeout].
  set (sc := Config.ResolveSession _ _ _ _ _) in *.
  destruct (ParseOverflowPolicy (Config.OverflowPolicy_ sc)) as [overflow ok] eqn:Eo.
  assert (Hg : ∀ flag var, (if flag =? 0 then Config.uintEnvOr os_LookupEnv var 0 else flag) =
    Config.first_of (Config.when (λ n, negb (n =? 0)) flag) (Config.from_env ParseUint (λ _, true) os_LookupEnv var) 0).
  { intros flag var. rewrite Config.uintEnvOr_first. unfold Config.when. by destruct (flag =? 0). }
  destruct fld; cbn [fieldValue wanted LogLevel QuotaDefaultRPM QuotaDefaultTPM QuotaDefaultDailyTokens
    QuotaDefaultMonthlyTokens QuotaGlobalRPM QuotaGlobalTPM SessionTTL SessionMaxTurns SessionMaxBytes
    SessionMaxContextTokens SessionMaxSessionsPerKey SessionOverflowPolicy SettingModelWarmMax SettingHeartbeatTimeout];
    rewrite ?E1, ?E2, ?E3, ?E4, ?E5, ?E6; try done.
  - cbn. by rewrite Config.envOr_first.
  - cbn. by rewrite Hg.
  - cbn. by rewrite Hg.
  - rewrite E7 in Eo. cbn in Eo. by rewrite Eo.
  - unfold Config.ResolveHeartbeatTimeout. change (0 <? fl_hbTimeout f) with (Config.positive (fl_hbTimeout f)).
    by rewrite Config.duration_first.
Qed.

(** C32: A server that started runs with the configuration it shows. For any command
    line, and any environment whose log level is one of the names a settings file
    may use (in lower case): once the start has succeeded, the settings GET shows
    are in force in every component, and each setting without an override in the
    settings file has the value of its flag, else its variable, else its default,
    as [wanted] spells out for each of them. *)
Theorem boot_in_force f openErr lh io disk flushes now ru :
  flags_ok f →
  let r := runServerCmd_resolve f in
  Config.Log_Level (r_lcfg r) ∈ levels → newLoggerHandle (r_lcfg r) openErr = Ok lh →
  serveControlPlane_start lh r (fl_store f) (fl_uiPath f) io disk flushes now = Ok ru →
  ∃ rc, cs_config (ru_server ru) = Some rc ∧ well_formed (rc_cur rc) ∧ in_force (rc_cur rc) (live_of (ru_server ru)) ∧
    (∀ fld, field_name fld ∉ rc_persisted rc → fieldValue (rc_cur rc) fld = wanted f fld).
Proof.
  intros Hf r Hl Hlh (st & eng & mgr & al & us & s & Hp & Hload & ->)%start_parts.
  pose proof (wired_governed f openErr lh _ _ _ _ _ _ _ _ _ _ _ Hf Hl Hlh Hp) as Hg.
  destruct (load_overrides quote (λ _, Err CtxDone) unmarshal_config _
    (configCheckpointPath (Config.Quota_Path (r_qcfg r))) (io_readConfig io) _ Hg) as (rc & Hg' & _ & Hsame).
  fold r in Hg'. rewrite Hload in Hg'. destruct Hg' as [Hc _ Hw Hi _]. exists rc. do 3 (split; [done|]).
  intros fld Hn. rewrite <- initial_wanted. by apply Hsame.
Qed.

(** The metrics listener is on unless it is switched off: an empty or dash value of the
    flag, or of the variable when the flag was not passed, turns it off; otherwise it
    listens on the flag, else the variable, else the default. *)
Theorem metrics_listener_exact f :
  metricsAddr (runServerCmd_resolve f) =
  match (match fl_metricsListen f with Some v => Some v | None => os_LookupEnv Config.EnvMetricsListen end) with
  | None => Config.DefaultMetricsListen
  | Some v => if str_mem v [""; "-"] then "" else v
  end.
Proof.
  unfold metricsAddr, Config.MetricsListenAddr, runServerCmd_resolve, Config.ResolveServer, metricsListenOff, Config.reader.
  cbn [r_cfg Config.MetricsListen default]. unfold Config.envOr, Config.MetricsListenDisabled, str_mem.
  destruct (fl_metricsListen f) as [v|]; cbn [default]; [|destruct (os_LookupEnv _) as [v|]; [|done]];
    (destruct (String.eqb_spec v "") as [->|Hv]; [done|]); cbn [negb];
    rewrite ?(proj2 (String.eqb_neq _ _) Hv), ?(proj2 (String.eqb_neq _ _) (not_eq_sym Hv)), ?(String.eqb_sym "-" v).
  all: cbn -[String.eqb]; rewrite ?(proj2 (String.eqb_neq _ _) Hv), ?(proj2 (String.eqb_neq _ _) (not_eq_sym Hv)), ?String.eqb_refl.
  all: by destruct (String.eqb v "-").
Qed.

(** ** Restarting *)












End start.

(** ** Witnesses *)

Definition demo_flags : serverFlags := mkFlags "" "" None "" "" 60 0 0 0 0 0 0 "" 0 0 0 0 "" 0 "".
Definition demo_env (v : string) : option string :=
  if String.eqb v Config.EnvSessionTTL then Some "90m" else if String.eqb v Config.EnvLogLevel then Some "warn" else None.
Definition demo_home : result string := Ok "/home/ada".
Definition no_files : files := mkFiles None None None None None None None.
Definition demo_lh : logHandle := mkLogHandle LevelWarn Stderr JSONLog.
Definition no_codec {A B} (_ : A) : result B := Err (ENew "unsupported").
Definition demo_start disk := serveControlPlane_start demo_env demo_home demo_quote demo_sessions demo_sessions_ok no_codec no_codec
  no_codec no_codec no_codec no_codec (λ l, l) no_codec demo_lh (runServerCmd_resolve demo_env demo_home demo_flags) "" ""
  start_good disk [] 5.

Lemma demo_flags_ok : flags_ok demo_flags.
Proof. split; repeat (apply Forall_cons_2; [by vm_compute|]); apply Forall_nil_2. Qed.
Lemma demo_level : Config.Log_Level (r_lcfg (runServerCmd_resolve demo_env demo_home demo_flags)) ∈ levels.
Proof. change ("warn" ∈ levels). unfold levels. set_solver. Qed.

Lemma demo_start_ttl :
  match demo_start no_files with
  | Ok ru => (λ rc, SessionTTL (rc_cur rc)) <$> cs_config (ru_server ru) = Some "1h30m0s"
  | Err _ => False
  end.
Proof. vm_compute. reflexivity. Qed.

Lemma boot_in_force_witness :
  ∃ ru rc, demo_start no_files = Ok ru ∧ cs_config (ru_server ru) = Some rc ∧
    SessionTTL (rc_cur rc) = "1h30m0s" ∧ in_force (rc_cur rc) (live_of (ru_server ru)).
Proof.
  pose proof demo_start_ttl as Ht. destruct (demo_start no_files) as [ru|e] eqn:E; [|done].
  destruct (boot_in_force demo_env demo_home demo_quote demo_sessions demo_sessions_ok no_codec no_codec no_codec no_codec no_codec
    no_codec (λ l, l) no_codec demo_flags None demo_lh start_good no_files [] 5 ru demo_flags_ok demo_level) as (rc & H1 & _ & H3 & _).
  - vm_compute. reflexivity.
  - exact E.
  - exists ru, rc. split_and!; try done. rewrite H1 in Ht. by injection Ht.
Defined.




