(* ===== verification/ChatApi.v ===== *)
(** * ChatApi.v: inference and sessions over HTTP (internal/httpapi)

    chat.go, completions.go, sessions.go, sse.go and the inference plumbing of
    inference.go and metrics.go.

    The handlers reach the control plane through the interface inferenceEngine, a
    record of its two operations here: what [eng_submit] and [eng_stream] do to the
    server stands for everything that happens to it until they return (for a
    stream, until its channel is closed).  A channel of chunks is the list it
    delivers.  A decoded request body is an argument, [None] when decoding failed.
    [rnd] gives the entropy reads of one request in order.  One SSE frame (three
    writes and a flush) is one [Write]. *)

From Stdlib Require Import Ascii.
From S2P Require Import Prelude Errors GoTime GoStrings GoConv Types Store Auth Quota History Session ServerWorker Server Http HttpServer.
Open Scope Z_scope.

(** ** Requests *)

Record chatTool := mkChatTool {
  CT_Type : string; CT_Name : string; CT_Description : string; CT_Parameters : string }.

Record chatCompletionRequest := mkChatRequest {
  CC_Model : string; CC_Messages : list chatMessage; CC_Stream : bool; CC_Tools : list chatTool;
  CC_SessionID : string }.

Definition sessionHeader : string := "X-Session-Id".

Inductive chatMode := modeStateless | modeAffinity | modeStateful.
#[export] Instance chatMode_eq_dec : EqDecision chatMode.
Proof. solve_decision. Defined.

Definition resolveSession (r : Request) (req : chatCompletionRequest) : chatMode * string :=
  let header := r_Header r sessionHeader in
  if negb (String.eqb (CC_SessionID req) "") then (modeStateful, CC_SessionID req)
  else if negb (String.eqb header "") then (modeAffinity, header)
  else (modeStateless, "").

(** ** Conversions *)

Definition function_type (typ : string) : string := if String.eqb typ "" then "function" else typ.

Definition toDomainToolCalls (cs : list chatToolCallWire) : list ToolCall :=
  map (λ c, mkToolCall (TW_ID c) (function_type (TW_Type c)) (TW_Name c) (TW_Arguments c)) cs.

Definition toDomainMessages (ms : list chatMessage) : list Message :=
  map (λ m, mkMessage (CM_Role m) (CM_Content m) (CM_ToolCallID m) (CM_Name m) (toDomainToolCalls (CM_ToolCalls m))) ms.

Definition toDomainTools (ts : list chatTool) : list Tool :=
  map (λ t, mkTool (function_type (CT_Type t))
              (mkToolFunction (CT_Name t) (CT_Description t) (CT_Parameters t))) ts.

(** The conversions back assign an id to a call without one; [i] counts the
    entropy reads made before. *)
Fixpoint fromDomainToolCalls (rnd : nat → result bytes) (i : nat) (cs : list ToolCall)
    : nat * list chatToolCallWire :=
  match cs with
  | [] => (i, [])
  | c :: cs =>
      let '(i, id) := if String.eqb (ToolCall_ID c) "" then (S i, Http.newID (rnd i) "call_")
                      else (i, ToolCall_ID c) in
      let w := mkToolCallWire id (function_type (ToolCall_Type c)) (ToolCall_FunctionName c) (ToolCall_Arguments c) in
      let '(i, ws) := fromDomainToolCalls rnd i cs in
      (i, w :: ws)
  end.

Fixpoint fromDomainMessages (rnd : nat → result bytes) (i : nat) (ms : list Message) : nat * list chatMessage :=
  match ms with
  | [] => (i, [])
  | m :: ms =>
      let '(i, calls) := fromDomainToolCalls rnd i (Message_ToolCalls m) in
      let w := mkChatMessage (Message_Role m) (Message_Content m) (Message_Name m) (Message_ToolCallID m) calls in
      let '(i, ws) := fromDomainMessages rnd i ms in
      (i, w :: ws)
  end.

(** ** Completion prompts *)

(** As much of a JSON value as the prompt decoder tells apart: a null, a string, an
    array of such scalars and other values, anything else. *)
Inductive scalar := JNull | JString (s : string) | JOther.
Inductive json := JScalar (v : scalar) | JArray (l : list scalar).

(** [json.Unmarshal] into a string or a slice of strings; a null leaves it zero. *)
Definition unmarshal_scalar (v : scalar) : option string :=
  match v with JNull => Some "" | JString s => Some s | JOther => None end.
Definition unmarshal_string (j : json) : option string :=
  match j with JScalar v => unmarshal_scalar v | JArray _ => None end.
Definition unmarshal_strings (j : json) : option (list string) :=
  match j with JScalar JNull => Some [] | JScalar _ => None | JArray l => mapM unmarshal_scalar l end.

Fixpoint Join (l : list string) (sep : string) : string :=
  match l with [] => "" | [x] => x | x :: l => x +:+ sep +:+ Join l sep end.

Definition newline : string := String "010" "".

Definition promptField_UnmarshalJSON (j : json) : option string :=
  match unmarshal_string j with
  | Some s => Some s
  | None => match unmarshal_strings j with Some arr => Some (Join arr newline) | None => None end
  end.

(** A well-formed body; [CP_Prompt] is [None] when the field is absent. *)
Record completionRequest := mkCompletionRequest {
  CP_Model : string; CP_Prompt : option json; CP_Stream : bool }.

(** ** Server-sent events *)

Definition beginSSE : list wact :=
  [SetHeader "Content-Type" "text/event-stream"; SetHeader "Cache-Control" "no-cache";
   SetHeader "Connection" "keep-alive"; SetHeader "X-Accel-Buffering" "no"; WriteHeader StatusOK].
Definition writeSSEDone : list wact := [Write PDone].

(** What the loop over the chunks has gathered. *)
Record streamAcc := mkAcc {
  sa_content : string; sa_toolCalls : list ToolCall; sa_roleSent : bool; sa_prompt : Z; sa_completion : Z;
  sa_total : Z; sa_failed : bool; sa_sawDone : bool; sa_reads : nat }.

Definition acc_fail (a : streamAcc) : streamAcc :=
  mkAcc (sa_content a) (sa_toolCalls a) (sa_roleSent a) (sa_prompt a) (sa_completion a) (sa_total a) true
    (sa_sawDone a) (sa_reads a).

Definition finish_of (ch : JobChunk) : option string :=
  if JobChunk_Done ch then Some (finishReasonOrStop (JobChunk_FinishReason ch)) else None.

(** One clean chunk; [reads] is the entropy counter after its frame. *)
Definition acc_chunk (ch : JobChunk) (reads : nat) (a : streamAcc) : streamAcc :=
  let done := JobChunk_Done ch in
  mkAcc (sa_content a +:+ JobChunk_Delta ch) (sa_toolCalls a ++ JobChunk_ToolCalls ch) true
    (if done then JobChunk_PromptTokens ch else sa_prompt a)
    (if done then JobChunk_CompletionTokens ch else sa_completion a)
    (if done then JobChunk_Tokens ch else sa_total a)
    (sa_failed a) (sa_sawDone a || done) reads.

Fixpoint chat_loop (rnd : nat → result bytes) (id : string) (created : Z) (model : string)
    (chunks : list JobChunk) (a : streamAcc) : streamAcc * list wact :=
  match chunks with
  | [] => (a, [])
  | ch :: chunks =>
      match JobChunk_Err ch with
      | Some e => (acc_fail a, [Write (streamErrorBody (Some e))])
      | None =>
          let '(reads, tools) := fromDomainToolCalls rnd (sa_reads a) (JobChunk_ToolCalls ch) in
          let frame := PChatChunk id created model (if negb (sa_roleSent a) then "assistant" else "")
                         (JobChunk_Delta ch) tools (finish_of ch) in
          let '(a, frames) := chat_loop rnd id created model chunks (acc_chunk ch reads a) in
          (a, Write frame :: frames)
      end
  end.

Fixpoint completion_loop (id : string) (created : Z) (model : string) (chunks : list JobChunk) (a : streamAcc)
    : streamAcc * list wact :=
  match chunks with
  | [] => (a, [])
  | ch :: chunks =>
      match JobChunk_Err ch with
      | Some e => (acc_fail a, [Write (streamErrorBody (Some e))])
      | None =>
          let frame := PCompletionChunk id created model (JobChunk_Delta ch) (finish_of ch) in
          let '(a, frames) := completion_loop id created model chunks (acc_chunk ch (sa_reads a) a) in
          (a, Write frame :: frames)
      end
  end.

(** The clock readings of one inference request. *)
Record chatClock := mkChatClock {
  ck_check : Time; ck_hist : Time; ck_created : Time; ck_persist : Time;
  ck_usage : Time; ck_hint : Time; ck_wait : Time }.

(** What the connection does during the request: whether its writer can flush, and
    whether its context is done once the stream has ended. *)
Record conn := mkConn { cn_flusher : bool; cn_gone : bool }.

Section chat.
Context {KS CS SS : Type} `{!KeyStore KS} `{!CounterStore CS} `{!SessionStore SS}.
Notation hserver := (HServer KS CS SS).
Notation handler := (hserver → hserver * list wact).

(** [inferenceEngine]. *)
Record inferenceEngine := mkEngineI {
  eng_submit : APIKey → Job → hserver → hserver * result JobResult;
  eng_stream : APIKey → Job → hserver → hserver * result (list JobChunk) }.

Definition set_mgr (m : Manager SS) (s : hserver) : hserver := set_ctl (set_session m (h_ctl s)) s.
Definition mgr (s : hserver) : option (Manager SS) := s_sessionMgr (h_ctl s).

(** *** Plumbing *)

Definition recordTokens (model : string) (prompt completion total : Z) (s : hserver) : hserver :=
  if u64 (prompt + completion) =? 0 then add_tokens model 0 total s
  else add_tokens model prompt completion s.

Definition jobIDFor (rnd : nat → result bytes) (i : nat) (c : context) : nat * string :=
  match c_requestID c with
  | Some id => if negb (String.eqb id "") then (i, id) else (S i, Http.newID (rnd i) "job-")
  | None => (S i, Http.newID (rnd i) "job-")
  end.

(** The method and body checks of [decodePost]. *)
Definition decodePost {B} (r : Request) (body : option B) : list wact + B :=
  if negb (String.eqb (r_Method r) "POST")
  then inl (SetHeader "Allow" "POST" :: writeError StatusMethodNotAllowed "method_not_allowed" "method not allowed")
  else match body with
       | None => inl (writeError StatusBadRequest "invalid_request_error" "malformed request body")
       | Some v => inr v
       end.

Definition unauthorized : list wact := writeError StatusUnauthorized "unauthorized" "missing api key".
Definition sessionsDisabled : list wact :=
  writeError StatusNotImplemented "not_implemented" "sessions are not enabled".

Definition writeSessionLookupError (err : error) : list wact :=
  if errors_Is err ErrSessionNotFound then writeError StatusNotFound "not_found" "session not found"
  else if errors_Is err ErrSessionLimitExceeded
  then writeError StatusConflict "session_limit_exceeded" "session history limit reached"
  else writeError StatusInternalServerError "internal_error" "internal error".

Definition submit_error (k : chatClock) (c : context) (err : error) (s : hserver) : hserver * list wact :=
  writeSubmitError (ck_usage k) (ck_hint k) (ck_wait k) c err s.

(** *** Chat *)

(** An append error is logged and swallowed. *)
Definition persistTurn (now : Time) (sessionID owner : string) (newMessages : list chatMessage) (output : string)
    (toolCalls : list ToolCall) (s : hserver) : hserver :=
  match mgr s with
  | None => s
  | Some m =>
      let turns := toDomainMessages newMessages ++ [mkMessage "assistant" output "" "" toolCalls] in
      set_mgr (AppendTurns now sessionID owner turns m).1 s
  end.

(** Everything up to the dispatch: an early response, or the job. *)
Definition chat_prepare (req : chatCompletionRequest) (rnd : nat → result bytes) (r : Request) (k : chatClock)
    (c : context) (key : APIKey) (s : hserver) : list wact + nat * chatMode * string * Job :=
  let '(mode, sessionID) := resolveSession r req in
  let '(i, jobID) := jobIDFor rnd 0 c in
  let job := mkJob jobID (CC_Model req) "" (toDomainMessages (CC_Messages req)) (toDomainTools (CC_Tools req))
               sessionID 0 in
  match mode, mgr s with
  | modeStateless, _ => inr (i, mode, sessionID, job)
  | _, None => inl sessionsDisabled
  | modeAffinity, Some _ => inr (i, mode, sessionID, job)
  | modeStateful, Some m =>
      let newTurns := toDomainMessages (CC_Messages req) in
      match CheckAppendable (ck_check k) sessionID (APIKey_ID key) newTurns m with
      | Some err => inl (writeSessionLookupError err)
      | None =>
          match Manager_History (ck_hist k) sessionID (APIKey_ID key) m with
          | Err err => inl (writeSessionLookupError err)
          | Ok hist =>
              inr (i, mode, sessionID,
                   mkJob jobID (CC_Model req) "" (hist ++ newTurns) (toDomainTools (CC_Tools req)) sessionID 0)
          end
      end
  end.

Definition streamChat (eng : inferenceEngine) (rnd : nat → result bytes) (i : nat) (cn : conn) (k : chatClock)
    (c : context) (key : APIKey) (job : Job) (model : string) (mode : chatMode) (sessionID : string)
    (newMessages : list chatMessage) : handler :=
  λ s,
  let '(s, res) := eng_stream eng key job s in
  match res with
  | Err err => submit_error k c err s
  | Ok chunks =>
      if negb (cn_flusher cn)
      then (s, writeError StatusInternalServerError "internal_error" "streaming unsupported")
      else
        let id := Http.newID (rnd i) "chatcmpl-" in
        let created := Time_Unix (ck_created k) in
        let '(a, frames) := chat_loop rnd id created model chunks (mkAcc "" [] false 0 0 0 false false (S i)) in
        let s := if sa_sawDone a && negb (sa_failed a)
                 then recordTokens model (sa_prompt a) (sa_completion a) (sa_total a) s else s in
        let s := if bool_decide (mode = modeStateful) && negb (sa_failed a) && sa_sawDone a && negb (cn_gone cn)
                 then persistTurn (ck_persist k) sessionID (APIKey_ID key) newMessages (sa_content a) (sa_toolCalls a) s
                 else s in
        (s, beginSSE ++ frames ++ writeSSEDone)
  end.

Definition handleChatCompletions (eng : inferenceEngine) (body : option chatCompletionRequest)
    (rnd : nat → result bytes) (cn : conn) (r : Request) (k : chatClock) (c : context) : handler :=
  λ s,
  match decodePost r body with
  | inl bad => (s, bad)
  | inr req =>
  match c_key c with
  | None => (s, unauthorized)
  | Some key =>
  match chat_prepare req rnd r k c key s with
  | inl bad => (s, bad)
  | inr (i, mode, sessionID, job) =>
      if CC_Stream req
      then streamChat eng rnd i cn k c key job (CC_Model req) mode sessionID (CC_Messages req) s
      else
        let '(s, out) := eng_submit eng key job s in
        match out with
        | Err err => submit_error k c err s
        | Ok res =>
            let '(i, calls) := fromDomainToolCalls rnd i (JobResult_ToolCalls res) in
            let assistant := mkChatMessage "assistant" (JobResult_Output res) "" "" calls in
            let s := recordTokens (CC_Model req) (JobResult_PromptTokens res) (JobResult_CompletionTokens res)
                       (JobResult_Tokens res) s in
            let s := if bool_decide (mode = modeStateful)
                     then persistTurn (ck_persist k) sessionID (APIKey_ID key) (CC_Messages req)
                            (JobResult_Output res) (JobResult_ToolCalls res) s
                     else s in
            (s, writeJSON StatusOK (PChat (Http.newID (rnd i) "chatcmpl-") (Time_Unix (ck_created k)) (CC_Model req)
                  assistant (finishReasonOrStop (JobResult_FinishReason res))
                  (usageFrom (JobResult_PromptTokens res) (JobResult_CompletionTokens res) (JobResult_Tokens res))))
        end
  end end end.

(** *** Completions *)

(** The decoder fails the whole body on a prompt of another shape. *)
Definition decode_completion (body : option completionRequest) : option (string * string * bool) :=
  match body with
  | None => None
  | Some req =>
      match CP_Prompt req with
      | None => Some (CP_Model req, "", CP_Stream req)
      | Some j =>
          match promptField_UnmarshalJSON j with
          | Some p => Some (CP_Model req, p, CP_Stream req)
          | None => None
          end
      end
  end.

Definition streamCompletion (eng : inferenceEngine) (rnd : nat → result bytes) (i : nat) (cn : conn) (k : chatClock)
    (c : context) (key : APIKey) (job : Job) (model : string) : handler :=
  λ s,
  let '(s, res) := eng_stream eng key job s in
  match res with
  | Err err => submit_error k c err s
  | Ok chunks =>
      if negb (cn_flusher cn)
      then (s, writeError StatusInternalServerError "internal_error" "streaming unsupported")
      else
        let id := Http.newID (rnd i) "cmpl-" in
        let created := Time_Unix (ck_created k) in
        let '(a, frames) := completion_loop id created model chunks (mkAcc "" [] false 0 0 0 false false (S i)) in
        let s := if sa_sawDone a && negb (sa_failed a)
                 then recordTokens model (sa_prompt a) (sa_completion a) (sa_total a) s else s in
        (s, beginSSE ++ frames ++ writeSSEDone)
  end.

Definition handleCompletions (eng : inferenceEngine) (body : option completionRequest) (rnd : nat → result bytes)
    (cn : conn) (r : Request) (k : chatClock) (c : context) : handler :=
  λ s,
  match decodePost r (decode_completion body) with
  | inl bad => (s, bad)
  | inr (model, prompt, stream) =>
  match c_key c with
  | None => (s, unauthorized)
  | Some key =>
      let '(i, jobID) := jobIDFor rnd 0 c in
      let job := mkJob jobID model prompt [] [] "" 0 in
      if (stream : bool) then streamCompletion eng rnd i cn k c key job model s
      else
        let '(s, out) := eng_submit eng key job s in
        match out with
        | Err err => submit_error k c err s
        | Ok res =>
            let s := recordTokens model (JobResult_PromptTokens res) (JobResult_CompletionTokens res)
                       (JobResult_Tokens res) s in
            (s, writeJSON StatusOK (PCompletion (Http.newID (rnd i) "cmpl-") (Time_Unix (ck_created k)) model
                  (JobResult_Output res) (finishReasonOrStop (JobResult_FinishReason res))
                  (usageFrom (JobResult_PromptTokens res) (JobResult_CompletionTokens res) (JobResult_Tokens res))))
        end
  end end.

(** *** Sessions *)

(** Runs [f] on the caller's key and the session manager. *)
Definition with_session (c : context) (s : hserver) (f : APIKey → Manager SS → hserver * list wact)
    : hserver * list wact :=
  match c_key c with
  | None => (s, unauthorized)
  | Some key => match mgr s with None => (s, sessionsDisabled) | Some m => f key m end
  end.

(** [body] is the requested model. *)
Definition handleCreateSession (rand : nat → nat → result bytes) (body : option string) (now : Time) (c : context)
    : handler :=
  λ s, with_session c s (λ key m,
  match body with
  | None => (s, writeError StatusBadRequest "invalid_request_error" "malformed request body")
  | Some model =>
      let '(m, res) := Session.Create rand now (APIKey_ID key) model m in
      let s := set_mgr m s in
      match res with
      | Err err =>
          if errors_Is err ErrSessionLimitExceeded
          then (s, writeError StatusTooManyRequests "session_limit_exceeded" "concurrent session limit reached")
          else (s, writeError StatusInternalServerError "internal_error" "could not create session")
      | Ok sess =>
          (s, writeJSON StatusCreated (PSession (Session_ID sess) (Session_Model sess)
                (Time_Unix (Session_CreatedAt sess))))
      end
  end).

Definition handleGetSession (rnd : nat → result bytes) (r : Request) (now now' : Time) (c : context) : handler :=
  λ s, with_session c s (λ key m,
  let id := r_PathValue r "id" in
  match Manager_Get now id (APIKey_ID key) m with
  | Err err => (s, writeSessionLookupError err)
  | Ok sess =>
      match Manager_History now' id (APIKey_ID key) m with
      | Err err => (s, writeSessionLookupError err)
      | Ok hist =>
          (s, writeJSON StatusOK (PSessionDetail (Session_ID sess) (Session_Model sess)
                (Time_Unix (Session_CreatedAt sess)) (Time_Unix (Session_LastActiveAt sess))
                (fromDomainMessages rnd 0 hist).2))
      end
  end).

Definition unloadSessionModel (ctxDone takeDone : bool) (workerID model : string) (s : hserver) : hserver :=
  if String.eqb workerID "" || String.eqb model "" then s
  else set_ctl (UnloadSessionModel ctxDone takeDone workerID model (h_ctl s)) s.

Definition handleDeleteSession (r : Request) (now now' : Time) (ctxDone takeDone : bool) (c : context) : handler :=
  λ s, with_session c s (λ key m,
  let id := r_PathValue r "id" in
  let '(boundWorker, model) :=
    match Manager_Get now id (APIKey_ID key) m with
    | Ok sess => (Session_BoundWorkerID sess, Session_Model sess)
    | Err _ => ("", "")
    end in
  let '(m, err) := Manager_Delete now' id (APIKey_ID key) m in
  let s := set_mgr m s in
  match err with
  | Some err => (s, writeSessionLookupError err)
  | None => (unloadSessionModel ctxDone takeDone boundWorker model s, [WriteHeader StatusNoContent])
  end).
End chat.
Arguments inferenceEngine : clear implicits.

(** ** Streams *)

(** The chunks before the first error, and that error. *)
Fixpoint clean_prefix (chunks : list JobChunk) : list JobChunk * option JobError :=
  match chunks with
  | [] => ([], None)
  | ch :: chunks =>
      match JobChunk_Err ch with
      | Some e => ([], Some e)
      | None => let '(l, e) := clean_prefix chunks in (ch :: l, e)
      end
  end.

Definition chunk_text (chunks : list JobChunk) : string := foldr (λ ch t, JobChunk_Delta ch +:+ t) "" chunks.
Definition calls (chunks : list JobChunk) : list ToolCall := chunks ≫= JobChunk_ToolCalls.
(** The counts of the terminal chunk; the last one wins. *)
Definition tokens_of (chunks : list JobChunk) (t : Z * Z * Z) : Z * Z * Z :=
  fold_left (λ t ch, if JobChunk_Done ch
                     then (JobChunk_PromptTokens ch, JobChunk_CompletionTokens ch, JobChunk_Tokens ch) else t) chunks t.
Definition seen_done (chunks : list JobChunk) : bool := existsb JobChunk_Done chunks.

(** The text and the finish reason a client reads off a frame. *)
Definition frame_text (p : payload) : string :=
  match p with
  | PChatChunk _ _ _ _ content _ _ => content
  | PCompletionChunk _ _ _ text _ => text
  | PChat _ _ _ m _ _ => CM_Content m
  | PCompletion _ _ _ text _ _ => text
  | _ => ""
  end.
Definition frame_finish (p : payload) : option string :=
  match p with
  | PChatChunk _ _ _ _ _ _ f => f
  | PCompletionChunk _ _ _ _ f => f
  | PChat _ _ _ _ f _ => Some f
  | PCompletion _ _ _ _ f _ => Some f
  | _ => None
  end.
Definition frame_role (p : payload) : string :=
  match p with PChatChunk _ _ _ role _ _ _ => role | PChat _ _ _ m _ _ => CM_Role m | _ => "" end.
Definition frame_calls (p : payload) : list chatToolCallWire :=
  match p with PChatChunk _ _ _ _ _ tools _ => tools | PChat _ _ _ m _ _ => CM_ToolCalls m | _ => [] end.

(** A tool call without its id, which the server may have to invent. *)
Definition call_of (w : chatToolCallWire) : string * string * string := (TW_Type w, TW_Name w, TW_Arguments w).
Definition named_call (c : ToolCall) : string * string * string :=
  (function_type (ToolCall_Type c), ToolCall_FunctionName c, ToolCall_Arguments c).

Lemma fromDomainToolCalls_spec rnd i cs :
  map call_of (fromDomainToolCalls rnd i cs).2 = map named_call cs ∧
  (i ≤ (fromDomainToolCalls rnd i cs).1)%nat ∧
  Forall2 (λ c w, ToolCall_ID c ≠ "" → TW_ID w = ToolCall_ID c) cs (fromDomainToolCalls rnd i cs).2.
Proof.
  revert i. induction cs as [|c cs IH]; intros i; simpl; [done|].
  destruct (String.eqb_spec (ToolCall_ID c) "") as [E|E].
  - specialize (IH (S i)). destruct (fromDomainToolCalls rnd (S i) cs) as [j ws]. destruct IH as (H1 & H2 & H3).
    cbn in *. rewrite H1. split_and!; [done|lia|]. constructor; [done|exact H3].
  - specialize (IH i). destruct (fromDomainToolCalls rnd i cs) as [j ws]. destruct IH as (H1 & H2 & H3).
    cbn in *. rewrite H1. split_and!; [done|lia|]. constructor; [done|exact H3].
Qed.

(** A frame renders its chunk. *)
Definition renders (ch : JobChunk) (p : payload) : Prop :=
  frame_text p = JobChunk_Delta ch ∧ frame_finish p = finish_of ch.

(** The frames of a stream: one per clean chunk, then the error if there is one;
    the role is announced by the first only. *)
Definition roles_ok (sent : bool) (frames : list payload) : Prop :=
  match frames with
  | [] => True
  | p :: l => frame_role p = (if sent then "" else "assistant") ∧ Forall (λ p, frame_role p = "") l
  end.

Lemma chat_loop_spec rnd id created model chunks a :
  let '(a', acts) := chat_loop rnd id created model chunks a in
  let '(l, e) := clean_prefix chunks in
  ∃ frames, acts = map Write (frames ++ match e with Some e => [streamErrorBody (Some e)] | None => [] end) ∧
    Forall2 renders l frames ∧ roles_ok (sa_roleSent a) frames ∧
    map call_of (frames ≫= frame_calls) = map named_call (calls l) ∧
    sa_content a' = sa_content a +:+ chunk_text l ∧ sa_toolCalls a' = sa_toolCalls a ++ calls l ∧
    sa_sawDone a' = sa_sawDone a || seen_done l ∧
    sa_failed a' = match e with Some _ => true | None => sa_failed a end ∧
    (sa_prompt a', sa_completion a', sa_total a') = tokens_of l (sa_prompt a, sa_completion a, sa_total a).
Proof.
  revert a. induction chunks as [|ch chunks IH]; intros a; simpl.
  { exists []. rewrite string_app_nil_r, orb_false_r. split_and!; rewrite ?app_nil_r; try reflexivity; repeat constructor. }
  destruct (JobChunk_Err ch) as [e|] eqn:Ee.
  { exists []. simpl. rewrite string_app_nil_r, orb_false_r. split_and!; rewrite ?app_nil_r; try reflexivity; repeat constructor. }
  destruct (fromDomainToolCalls rnd (sa_reads a) (JobChunk_ToolCalls ch)) as [reads tools] eqn:Et.
  pose proof (fromDomainToolCalls_spec rnd (sa_reads a) (JobChunk_ToolCalls ch)) as (Hc & _ & _).
  rewrite Et in Hc. cbn [snd] in Hc.
  specialize (IH (acc_chunk ch reads a)).
  destruct (chat_loop rnd id created model chunks (acc_chunk ch reads a)) as [a' acts].
  destruct (clean_prefix chunks) as [l e]. destruct IH as (frames & -> & Hf & Hr & Hcs & H1 & H2 & H3 & H4 & H5).
  simpl in Hr. eexists (_ :: frames). simpl. split_and!; try done.
  - constructor; [done|exact Hf].
  - by destruct (sa_roleSent a).
  - destruct frames as [|p frames]; [constructor|]. destruct Hr as [Hp Hr]. by constructor.
  - change (map call_of (tools ++ (frames ≫= frame_calls)) = map named_call (JobChunk_ToolCalls ch ++ calls l)).
    by rewrite !map_app, Hc, Hcs.
  - rewrite H1. simpl. by rewrite string_app_assoc.
  - rewrite H2. simpl. unfold calls. simpl. by rewrite app_assoc.
  - rewrite H3. simpl. by rewrite orb_assoc.
  - rewrite H5. simpl. by destruct (JobChunk_Done ch).
Qed.

Lemma completion_loop_spec id created model chunks a :
  let '(a', acts) := completion_loop id created model chunks a in
  let '(l, e) := clean_prefix chunks in
  ∃ frames, acts = map Write (frames ++ match e with Some e => [streamErrorBody (Some e)] | None => [] end) ∧
    Forall2 renders l frames ∧
    sa_sawDone a' = sa_sawDone a || seen_done l ∧
    sa_failed a' = match e with Some _ => true | None => sa_failed a end ∧
    (sa_prompt a', sa_completion a', sa_total a') = tokens_of l (sa_prompt a, sa_completion a, sa_total a).
Proof.
  revert a. induction chunks as [|ch chunks IH]; intros a; simpl.
  { exists []. rewrite orb_false_r. split_and!; try reflexivity; repeat constructor. }
  destruct (JobChunk_Err ch) as [e|] eqn:Ee.
  { exists []. simpl. rewrite orb_false_r. split_and!; try reflexivity; repeat constructor. }
  specialize (IH (acc_chunk ch (sa_reads a) a)).
  destruct (completion_loop id created model chunks (acc_chunk ch (sa_reads a) a)) as [a' acts].
  destruct (clean_prefix chunks) as [l e]. destruct IH as (frames & -> & Hf & H3 & H4 & H5).
  eexists (_ :: frames). simpl. split_and!; try done.
  - constructor; [done|exact Hf].
  - rewrite H3. simpl. by rewrite orb_assoc.
  - rewrite H5. simpl. by destruct (JobChunk_Done ch).
Qed.


Lemma wexec_writes l w :
  fold_left wexec (map Write l) w =
  match l with [] => w | _ => mkWState (Some (default StatusOK (w_sent w))) (w_header w) (w_body w ++ l) end.
Proof.
  revert w. induction l as [|p l IH]; intros w; [done|]. simpl. rewrite IH. destruct l as [|q l]; [done|].
  simpl. by rewrite <- app_assoc.
Qed.

Lemma respond_sse l :
  l ≠ [] → let resp := respond (beginSSE ++ map Write l) in
  resp_status resp = 200 ∧ resp_body resp = l ∧ resp_header resp !! "Content-Type" = Some "text/event-stream".
Proof. intros Hl. unfold respond. rewrite fold_left_app, wexec_writes. destruct l; [done|]. by vm_compute. Qed.

Section chat_props.
Context {KS CS SS : Type} `{!KeyStore KS} `{!CounterStore CS} `{!SessionStore SS}.
Notation hserver := (HServer KS CS SS).
Notation engine := (inferenceEngine KS CS SS).

Lemma decodePost_ok {B} r (b : B) : r_Method r = "POST" → decodePost r (Some b) = inr b.
Proof. intros H. unfold decodePost. by rewrite H. Qed.

(** What a stream leaves behind and puts on the wire. *)
Lemma streamChat_spec (eng : engine) rnd i gone k c key job model mode sid news (s s1 : hserver) chunks :
  eng_stream eng key job s = (s1, Ok chunks) →
  let '(l, e) := clean_prefix chunks in
  let '(s', acts) := streamChat eng rnd i (mkConn true gone) k c key job model mode sid news s in
  let ok := match e with None => seen_done l | Some _ => false end in
  let '(p, cm, t) := tokens_of l (0, 0, 0) in
  let s2 := if ok then recordTokens model p cm t s1 else s1 in
  s' = (if bool_decide (mode = modeStateful) && ok && negb gone
        then persistTurn (ck_persist k) sid (APIKey_ID key) news (chunk_text l) (calls l) s2 else s2) ∧
  resp_status (respond acts) = 200 ∧ resp_header (respond acts) !! "Content-Type" = Some "text/event-stream" ∧
  ∃ frames, resp_body (respond acts) =
      frames ++ match e with Some e => [streamErrorBody (Some e)] | None => [] end ++ [PDone] ∧
    Forall2 renders l frames ∧ roles_ok false frames ∧
    map call_of (frames ≫= frame_calls) = map named_call (calls l).
Proof.
  intros He. unfold streamChat. rewrite He. cbn [cn_flusher cn_gone negb].
  pose proof (chat_loop_spec rnd (Http.newID (rnd i) "chatcmpl-") (Time_Unix (ck_created k)) model chunks
    (mkAcc "" [] false 0 0 0 false false (S i))) as H.
  destruct (chat_loop _ _ _ _ _ _) as [a acts]. destruct (clean_prefix chunks) as [l e].
  destruct H as (frames & -> & Hf & Hr & Hc & H1 & H2 & H3 & H4 & H5). cbn in H1, H2, H3, H4, H5, Hr.
  destruct (tokens_of l (0, 0, 0)) as [[p cm] t]. injection H5 as -> -> ->. rewrite H1, H2, H3, H4.
  assert (beginSSE ++ map Write (frames ++ match e with Some e => [streamErrorBody (Some e)] | None => [] end) ++ writeSSEDone =
          beginSSE ++ map Write (frames ++ match e with Some e => [streamErrorBody (Some e)] | None => [] end ++ [PDone])) as ->.
  { f_equal. rewrite !map_app. by rewrite <- app_assoc. }
  destruct (respond_sse (frames ++ match e with Some e => [streamErrorBody (Some e)] | None => [] end ++ [PDone])) as (R1 & R2 & R3).
  { destruct frames; [|done]. by destruct e. }
  split_and!; [|exact R1|exact R3|by exists frames].
  destruct e; cbn; [rewrite ?andb_false_r; by destruct (bool_decide (mode = modeStateful))|].
  destruct (seen_done l); cbn; rewrite ?andb_true_r, ?andb_false_r; done.
Qed.

(** *** Streaming and not *)


(** What the control plane makes of it ([ServerWorker.result_of]): the text of all
    chunks, the rest from the terminal one. *)
Definition whole (chunks : list JobChunk) : JobResult :=
  match last chunks with
  | Some fin => result_of fin (chunk_text chunks)
  | None => mkJobResult "" "" None 0 [] "" 0 0
  end.










(** *** Conversations *)

(** The server remembers [tr] for the owner's session: its stored history is what
    the caps keep of [tr], and the session cannot expire between [t0] and [t1]. *)
Definition remembers (t0 t1 : Time) (caps : HistoryCaps) (sid owner : string) (tr : list Message) (s : hserver) : Prop :=
  ∃ m sess, mgr s = Some m ∧ mhs_caps (m_history m) = caps ∧ mhs_get (m_history m) sid = trim caps tr ∧
    sessions_of (m_sessions m) !! sid = Some sess ∧ Session_ID sess = sid ∧ Session_OwnerKeyID sess = owner ∧
    (Session_TTL sess <= 0 ∨ t0 <= Session_LastActiveAt sess ∧ t1 - t0 <= Session_TTL sess).

(** A turn of a conversation, with the engine's behaviour during it. *)
Record turn := mkTurn {
  t_req : chatCompletionRequest; t_eng : engine; t_rnd : nat → result bytes; t_gone : bool; t_r : Request;
  t_clock : chatClock; t_ctx : context }.

Definition serve_turn (t : turn) (s : hserver) : hserver * list wact :=
  handleChatCompletions (t_eng t) (Some (t_req t)) (t_rnd t) (mkConn true (t_gone t)) (t_r t) (t_clock t) (t_ctx t) s.

(** The job a turn dispatches, and the reply that completes it. *)
Definition dispatched (t : turn) (key : APIKey) (s : hserver) : option Job :=
  match chat_prepare (t_req t) (t_rnd t) (t_r t) (t_clock t) (t_ctx t) key s with
  | inl _ => None
  | inr (_, _, _, job) => Some job
  end.
Definition reply (t : turn) (key : APIKey) (job : Job) (s : hserver) : option Message :=
  if CC_Stream (t_req t) then
    match (eng_stream (t_eng t) key job s).2 with
    | Err _ => None
    | Ok chunks =>
        match clean_prefix chunks with
        | (l, None) => if seen_done l && negb (t_gone t)
                       then Some (mkMessage "assistant" (chunk_text l) "" "" (calls l)) else None
        | (_, Some _) => None
        end
    end
  else
    match (eng_submit (t_eng t) key job s).2 with
    | Err _ => None
    | Ok res => Some (mkMessage "assistant" (JobResult_Output res) "" "" (JobResult_ToolCalls res))
    end.

(** A stateful request of the owner in the window, while the engine and the rest of
    the system leave the session alone. *)
Record in_conversation (t0 t1 : Time) (caps : HistoryCaps) (sid : string) (key : APIKey) (t : turn) : Prop := {
  ic_key : c_key (t_ctx t) = Some key;
  ic_post : r_Method (t_r t) = "POST";
  ic_sid : CC_SessionID (t_req t) = sid;
  ic_clock : Forall (λ now, t0 <= now <= t1) [ck_check (t_clock t); ck_hist (t_clock t); ck_persist (t_clock t)];
  ic_engine : ∀ tr job s, remembers t0 t1 caps sid (APIKey_ID key) tr s →
    remembers t0 t1 caps sid (APIKey_ID key) tr (eng_submit (t_eng t) key job s).1 ∧
    remembers t0 t1 caps sid (APIKey_ID key) tr (eng_stream (t_eng t) key job s).1 }.

Lemma expired_window t0 t1 sess now :
  Session_TTL sess <= 0 ∨ t0 <= Session_LastActiveAt sess ∧ t1 - t0 <= Session_TTL sess →
  t0 <= now <= t1 → expired sess now = false.
Proof.
  intros Ht Hn. unfold expired. destruct (Z.leb_spec (Session_TTL sess) 0) as [|H0]; [done|].
  destruct Ht as [|[Ht1 Ht2]]; [lia|]. apply Z.ltb_ge. unfold Sub.
  unfold minInt64, maxInt64. lia.
Qed.

Lemma remembers_active t0 t1 caps sid owner tr (s : hserver) now :
  remembers t0 t1 caps sid owner tr s → t0 <= now <= t1 →
  ∃ m sess, mgr s = Some m ∧ mhs_caps (m_history m) = caps ∧ mhs_get (m_history m) sid = trim caps tr ∧
    ownedActive sid owner now m = Ok sess ∧
    sessions_of (m_sessions m) !! sid = Some sess ∧ Session_ID sess = sid ∧ Session_OwnerKeyID sess = owner ∧
    (Session_TTL sess <= 0 ∨ t0 <= Session_LastActiveAt sess ∧ t1 - t0 <= Session_TTL sess).
Proof.
  intros (m & sess & Hm & Hcaps & Hh & Hs & Hid & Ho & Ht) Hn. exists m, sess. split_and!; try done.
  unfold ownedActive. rewrite Get_spec, Hs, Ho, String.eqb_refl. cbn [negb].
  by rewrite (expired_window t0 t1).
Qed.

(** The dispatched context. *)
Lemma prepare_remembers t0 t1 caps sid key tr t (s : hserver) :
  Policy caps = OverflowTrim → sid ≠ "" → in_conversation t0 t1 caps sid key t →
  remembers t0 t1 caps sid (APIKey_ID key) tr s →
  ∃ i job, chat_prepare (t_req t) (t_rnd t) (t_r t) (t_clock t) (t_ctx t) key s = inr (i, modeStateful, sid, job) ∧
    Job_Messages job = trim caps tr ++ toDomainMessages (CC_Messages (t_req t)) ∧
    Job_SessionID job = sid ∧ Job_Model job = CC_Model (t_req t).
Proof.
  intros Hp Hne [_ _ Hsid Hck _] Hr. apply Forall_cons in Hck as [Hck1 Hck]. apply Forall_cons in Hck as [Hck2 _].
  destruct (remembers_active _ _ _ _ _ _ _ _ Hr Hck1) as (m & sess & Hm & Hcaps & Hh & Ha & Hs).
  destruct (remembers_active _ _ _ _ _ _ _ _ Hr Hck2) as (m' & sess' & Hm' & _ & _ & Ha' & _).
  assert (m' = m) as -> by congruence.
  unfold chat_prepare, resolveSession. rewrite Hsid. destruct (String.eqb_spec sid "") as [|_]; [done|]. cbn [negb].
  destruct (jobIDFor _ _ _) as [i jid]. rewrite Hm.
  unfold CheckAppendable. rewrite Ha. unfold WouldReject. rewrite Hcaps, Hp.
  rewrite (bool_decide_eq_false_2 (OverflowTrim = OverflowReject)) by done. cbn [negb orb].
  unfold Manager_History. rewrite Ha'. do 2 eexists. split; [reflexivity|].
  unfold History_Get. by rewrite cloneMessages_eq, Hh.
Qed.

Lemma mgr_set_mgr m (s : hserver) : mgr (set_mgr m s) = Some m.
Proof. done. Qed.

Lemma persist_remembers t0 t1 caps sid owner tr now news out tcs (s : hserver) :
  Policy caps = OverflowTrim → t0 <= now <= t1 → remembers t0 t1 caps sid owner tr s →
  remembers t0 t1 caps sid owner (tr ++ toDomainMessages news ++ [mkMessage "assistant" out "" "" tcs])
    (persistTurn now sid owner news out tcs s).
Proof.
  intros Hp Hn Hr. destruct (remembers_active _ _ _ _ _ _ _ _ Hr Hn) as (m & sess & Hm & Hcaps & Hh & Ha & Hs & Hid & Ho & Ht).
  unfold persistTurn. rewrite Hm. set (turns := toDomainMessages news ++ _).
  assert (turns ≠ []) as Hne by (by destruct (toDomainMessages news)).
  unfold AppendTurns. rewrite Ha. unfold append_with, AppendBatch.
  destruct (length turns =? 0)%nat eqn:El; [apply Nat.eqb_eq, nil_length_inv in El; done|].
  rewrite Hcaps, Hp, (bool_decide_eq_false_2 (OverflowTrim = OverflowReject)) by done. cbn [andb].
  rewrite Hh, cloneMessages_eq, trim_app by done.
  cbn [m_sessions set_history]. pose proof (Put_spec (touch now sess) (m_sessions m)) as Hput.
  destruct (Put (touch now sess) (m_sessions m)) as [st e]. cbn [fst].
  set (m' := set_sessions _ _). 
  assert (mhs_get (m_history m') sid = trim caps (tr ++ turns)) as Hget by apply get_put.
  assert (mhs_caps (m_history m') = caps) as Hc' by done.
  destruct e as [e|].
  - exists m', sess. split_and!; try done. cbn. by rewrite Hput.
  - exists m', (touch now sess). split_and!; try done.
    + cbn. rewrite Hput. cbn. rewrite Hid. apply lookup_insert_eq.
    + cbn. destruct Ht as [?|[? ?]]; [by left|right; lia].
Qed.

Lemma tokens_remember t0 t1 caps sid owner tr model p c t (s : hserver) :
  remembers t0 t1 caps sid owner tr s → remembers t0 t1 caps sid owner tr (recordTokens model p c t s).
Proof. unfold recordTokens, remembers. by case_match. Qed.

Lemma submit_error_mgr k c e (s : hserver) : mgr (submit_error k c e s).1 = mgr s.
Proof.
  unfold submit_error, writeSubmitError. destruct (statusForError e) as [[status code] msg].
  destruct (_ && _); [|done]. unfold annotatePerKey429. destruct (c_key c) as [key|]; [|done].
  destruct (UsageForKey _ _ _) as [q [snap|err]]; [|done]. by destruct (RetryAfter _ _).
Qed.

Lemma remembers_mgr t0 t1 caps sid owner tr (s s' : hserver) :
  mgr s' = mgr s → remembers t0 t1 caps sid owner tr s → remembers t0 t1 caps sid owner tr s'.
Proof. unfold remembers. by intros ->. Qed.

Definition extend (tr new : list Message) (rep : option Message) : list Message :=
  match rep with Some a => tr ++ new ++ [a] | None => tr end.

Lemma serve_turn_remembers t0 t1 caps sid key tr t (s : hserver) job :
  Policy caps = OverflowTrim → sid ≠ "" → in_conversation t0 t1 caps sid key t →
  remembers t0 t1 caps sid (APIKey_ID key) tr s → dispatched t key s = Some job →
  remembers t0 t1 caps sid (APIKey_ID key)
    (extend tr (toDomainMessages (CC_Messages (t_req t))) (reply t key job s)) (serve_turn t s).1.
Proof.
  intros Hp Hne Hin Hr Hd. destruct (prepare_remembers t0 t1 caps sid key tr t s Hp Hne Hin Hr) as (i & job' & Ep & _).
  unfold dispatched in Hd. rewrite Ep in Hd. injection Hd as ->. destruct Hin as [Hkey Hpost _ Hck Heng].
  assert (t0 <= ck_persist (t_clock t) <= t1) as Hnow by (rewrite Forall_forall in Hck; apply Hck; set_solver).
  destruct (Heng tr job s Hr) as [Hsub Hstr]. unfold serve_turn, handleChatCompletions, reply.
  rewrite decodePost_ok, Hkey, Ep by done. destruct (CC_Stream (t_req t)).
  - destruct (eng_stream (t_eng t) key job s) as [s1 [chunks|e]] eqn:Es; cbn [fst snd] in Hstr |- *.
    2:{ unfold streamChat. rewrite Es. eapply remembers_mgr; [apply submit_error_mgr|done]. }
    pose proof (streamChat_spec (t_eng t) (t_rnd t) i (t_gone t) (t_clock t) (t_ctx t) key job (CC_Model (t_req t))
      modeStateful sid (CC_Messages (t_req t)) s s1 chunks Es) as H.
    destruct (clean_prefix chunks) as [l e].
    destruct (streamChat _ _ _ _ _ _ _ _ _ _ _ _ _) as [s' acts]. cbv zeta in H.
    destruct (tokens_of l (0, 0, 0)) as [[p cm] tk]. destruct H as (-> & _). cbn [fst].
    destruct e as [e|]; cbn [andb bool_decide]; [by rewrite andb_false_r|]. rewrite bool_decide_eq_true_2 by done.
    cbn [andb]. destruct (seen_done l); cbn [andb]; [|done]. destruct (t_gone t); cbn [negb extend].
    + by apply tokens_remember.
    + apply persist_remembers; [done..|]. by apply tokens_remember.
  - destruct (eng_submit (t_eng t) key job s) as [s1 [res|e]]; cbn [fst snd] in Hsub |- *.
    2:{ eapply remembers_mgr; [apply submit_error_mgr|done]. }
    destruct (fromDomainToolCalls _ _ _) as [j ws]. cbn [fst extend]. rewrite bool_decide_eq_true_2 by done.
    apply persist_remembers; [done..|]. by apply tokens_remember.
Qed.

(** A conversation as a sequence of turns, with for each turn the messages
    dispatched to the worker, the client's new messages and the completed reply. *)
Fixpoint talk (key : APIKey) (turns : list turn) (s : hserver)
    : hserver * list (option (list Message) * list Message * option Message) :=
  match turns with
  | [] => (s, [])
  | t :: turns =>
      let job := dispatched t key s in
      let rep := match job with Some job => reply t key job s | None => None end in
      let '(s', log) := talk key turns (serve_turn t s).1 in
      (s', (Job_Messages <$> job, toDomainMessages (CC_Messages (t_req t)), rep) :: log)
  end.

(** The transcript [tr] grows by exactly the completed turns, and each turn was
    dispatched with what the caps keep of it in front of the new messages. *)
Fixpoint transcribes (caps : HistoryCaps) (tr : list Message)
    (log : list (option (list Message) * list Message * option Message)) (tr' : list Message) : Prop :=
  match log with
  | [] => tr' = tr
  | (sent, new, rep) :: log =>
      sent = Some (trim caps tr ++ new) ∧ transcribes caps (extend tr new rep) log tr'
  end.

(** C18: A stateful conversation is remembered exactly. Under the trim policy, for a
    session that does not expire in the period the turns fall in, and an engine
    that leaves the session and its history alone: over any sequence of turns of
    that session, streamed or not, failed and abandoned ones among them, the
    worker receives at every turn the transcript so far, cut to the newest turns
    the caps allow, followed by the client's new messages; the transcript grows by
    the new messages and the reply of each turn that completed and by nothing else;
    and reading the session afterwards returns what the caps keep of it. *)
Theorem conversation_remembered t0 t1 caps sid key turns tr (s : hserver) :
  Policy caps = OverflowTrim → sid ≠ "" → Forall (in_conversation t0 t1 caps sid key) turns →
  remembers t0 t1 caps sid (APIKey_ID key) tr s →
  let '(s', log) := talk key turns s in
  ∃ tr', transcribes caps tr log tr' ∧
    ∀ rnd r now c, c_key c = Some key → r_PathValue r "id" = sid → t0 <= now <= t1 →
      ∃ model created active, handleGetSession rnd r now now c s' =
        (s', writeJSON StatusOK (PSessionDetail sid model created active (fromDomainMessages rnd 0 (trim caps tr')).2)).
Proof.
  intros Hp Hne Hall. revert tr s. induction Hall as [|t turns Hin _ IH]; intros tr s Hr; simpl.
  - exists tr. split; [done|]. intros rnd r now c Hk Hid Hn.
    destruct (remembers_active _ _ _ _ _ _ _ _ Hr Hn) as (m & sess & Hm & _ & Hh & Ha & _ & Hsid & _).
    unfold handleGetSession, with_session, Manager_Get, Manager_History. rewrite Hk, Hm, Hid, Ha.
    unfold History_Get. rewrite cloneMessages_eq, Hh, Hsid. by do 3 eexists.
  - destruct (prepare_remembers _ _ _ _ _ _ _ _ Hp Hne Hin Hr) as (i & job & Ep & Hmsgs & _).
    assert (dispatched t key s = Some job) as Hd by (unfold dispatched; by rewrite Ep).
    specialize (IH _ _ (serve_turn_remembers _ _ _ _ _ _ _ _ _ Hp Hne Hin Hr Hd)). rewrite Hd.
    destruct (talk key turns (serve_turn t s).1) as [s' log]. destruct IH as (tr' & Htr & Hget).
    exists tr'. split; [|done]. cbn. by rewrite Hmsgs.
Qed.

(** *** Other people's sessions *)

Lemma set_mgr_same m (s : hserver) : mgr s = Some m → set_mgr m s = s.
Proof.
  unfold mgr, set_mgr. destruct s as [ctl ? ? ? ? ? ?]. cbn. destruct ctl. cbn. by intros ->.
Qed.

(** The existence of a session is hidden from other keys. For a caller that
    does not own the session a stateful chat turn (streamed or not), a read and a
    deletion get the same 404 as for an id nobody has, the engine is not called and
    nothing changes. *)
Theorem session_existence_hidden (eng : engine) req rnd cn r k c now now' cd td (s : hserver) key m :
  c_key c = Some key → mgr s = Some m → r_Method r = "POST" →
  (∀ id sess, id = CC_SessionID req ∨ id = r_PathValue r "id" →
     sessions_of (m_sessions m) !! id = Some sess → Session_OwnerKeyID sess ≠ APIKey_ID key) →
  let not_found := (s, writeError StatusNotFound "not_found" "session not found") in
  (CC_SessionID req ≠ "" → handleChatCompletions eng (Some req) rnd cn r k c s = not_found) ∧
  handleGetSession rnd r now now' c s = not_found ∧
  handleDeleteSession r now now' cd td c s = not_found.
Proof.
  intros Hk Hm Hpost Hother not_found.
  assert (∀ id now, id = CC_SessionID req ∨ id = r_PathValue r "id" →
    ownedActive id (APIKey_ID key) now m = Err ErrSessionNotFound) as Ho.
  { intros id t Hid. unfold ownedActive. rewrite Get_spec. destruct (_ !! id) as [sess|] eqn:E; [|done].
    destruct (String.eqb_spec (Session_OwnerKeyID sess) (APIKey_ID key)) as [E'|]; [|done].
    by destruct (Hother id sess Hid E). }
  split_and!.
  - intros Hne. unfold handleChatCompletions. rewrite decodePost_ok, Hk by done.
    unfold chat_prepare, resolveSession. destruct (String.eqb_spec (CC_SessionID req) "") as [|_]; [done|]. cbn [negb].
    destruct (jobIDFor _ _ _). rewrite Hm. unfold CheckAppendable. by rewrite Ho by (by left).
  - unfold handleGetSession, with_session, Manager_Get. rewrite Hk, Hm. by rewrite Ho by (by right).
  - unfold handleDeleteSession, with_session, Manager_Get, Manager_Delete. rewrite Hk, Hm, Ho by (by right).
    rewrite Get_spec. destruct (_ !! _) as [sess|] eqn:E.
    + destruct (String.eqb_spec (Session_OwnerKeyID sess) (APIKey_ID key)) as [E'|].
      { by destruct (Hother _ sess (or_intror eq_refl) E). }
      cbn [negb]. by rewrite set_mgr_same.
    + by rewrite set_mgr_same.
Qed.

(** *** Metering *)

(** What is metered is what the client is told. A completed chat request
    answers 200 with the engine's output as the assistant's message and its usage,
    and adds to the token meter exactly the prompt and completion counts of that
    usage, under the requested model; a failed one answers the mapped status and
    meters nothing. *)
Theorem metered_as_reported (eng : engine) req rnd cn r k c (s : hserver) key i mode sid job :
  c_key c = Some key → r_Method r = "POST" → CC_Stream req = false →
  chat_prepare req rnd r k c key s = inr (i, mode, sid, job) →
  let '(s1, out) := eng_submit eng key job s in
  let '(s', acts) := handleChatCompletions eng (Some req) rnd cn r k c s in
  match out with
  | Ok res => ∃ id msg u,
      resp_body (respond acts) = [PChat id (Time_Unix (ck_created k)) (CC_Model req) msg
                                    (finishReasonOrStop (JobResult_FinishReason res)) u] ∧
      resp_status (respond acts) = 200 ∧ CM_Role msg = "assistant" ∧ CM_Content msg = JobResult_Output res ∧
      map call_of (CM_ToolCalls msg) = map named_call (JobResult_ToolCalls res) ∧
      h_tokens s' = h_tokens s1 ++ [(CC_Model req, U_PromptTokens u, U_CompletionTokens u)] ∧
      (0 <= JobResult_Tokens res → 0 <= JobResult_PromptTokens res → 0 <= JobResult_CompletionTokens res →
       JobResult_PromptTokens res + JobResult_CompletionTokens res < 2 ^ 64 →
       U_PromptTokens u + U_CompletionTokens u <= U_TotalTokens u)
  | Err e => resp_status (respond acts) = (statusForError e).1.1 ∧ h_tokens s' = h_tokens s1 ∧ mgr s' = mgr s1
  end.
Proof.
  intros Hk Hm Hs Hp. destruct (eng_submit eng key job s) as [s1 [res|e]] eqn:Ee; unfold handleChatCompletions;
    rewrite decodePost_ok, Hk, Hp, Hs, Ee by done.
  - pose proof (fromDomainToolCalls_spec rnd i (JobResult_ToolCalls res)) as (Hw & _ & _).
    destruct (fromDomainToolCalls rnd i (JobResult_ToolCalls res)) as [j ws]. cbn [snd] in Hw.
    do 3 eexists. split; [reflexivity|]. split; [reflexivity|]. split; [reflexivity|]. split; [reflexivity|].
    split; [exact Hw|]. split.
    + set (s2 := recordTokens _ _ _ _ _).
      assert (∀ s', h_tokens (if bool_decide (mode = modeStateful) then persistTurn (ck_persist k) sid (APIKey_ID key)
        (CC_Messages req) (JobResult_Output res) (JobResult_ToolCalls res) s' else s') = h_tokens s') as ->.
      { intros s'. case_match; [|done]. unfold persistTurn. by destruct (mgr s'). }
      unfold s2, recordTokens, usageFrom. by case_match.
    + intros Ht Hpt Hct Hlt. unfold usageFrom. rewrite u64_id by (unfold is_u64; lia).
      destruct (Z.eqb_spec (JobResult_PromptTokens res + JobResult_CompletionTokens res) 0); cbn; [lia|].
      destruct (Z.ltb_spec (JobResult_Tokens res) (JobResult_PromptTokens res + JobResult_CompletionTokens res)); lia.
  - pose proof (submit_error_mgr k c e s1) as Hmgr. unfold submit_error, writeSubmitError in *.
    destruct (statusForError e) as [[status code] msg]. cbn [fst].
    assert (∀ s2 hdr, annotatePerKey429 (ck_usage k) (ck_hint k) (ck_wait k) c s1 = (s2, hdr) →
      h_tokens s2 = h_tokens s1 ∧ resp_status (respond (hdr ++ writeError status code msg)) = status) as Ha.
    { intros s2 hdr. unfold annotatePerKey429. destruct (c_key c) as [key'|]; [|by intros [= <- <-]].
      destruct (UsageForKey _ _ _) as [q [snap|err]]; [|by intros [= <- <-]].
      destruct (RetryAfter _ _); by intros [= <- <-]. }
    destruct (_ && _); [|done]. destruct (annotatePerKey429 _ _ _ c s1) as [s2 hdr].
    destruct (Ha _ _ eq_refl) as [H1 H2]. split_and!; done.
Qed.
End chat_props.

(** ** Witnesses *)

#[local] Instance chat_demo_keys : KeyStore Memory := Memory_KeyStore Auth.demo_range (Hrange := Auth.demo_range_ok).
#[local] Instance chat_demo_sess : SessionStore MemorySessionStore := MSS_SessionStore demo_sessions demo_sessions_ok.
Notation demo_hserver := (HServer Memory MemoryCounterStore MemorySessionStore).

Definition demo_owner : APIKey := mkAPIKey "k" "" "" [] [] 0 0 0 None "" "" None "" [] [] [] [] None.
Definition demo_chunk (d : string) (fin : bool) : JobChunk := mkJobChunk "j" d fin None 3 [] "" 1 2.
Definition demo_chunks : list JobChunk := [demo_chunk "he" false; demo_chunk "llo" true].
Definition demo_engine : inferenceEngine Memory MemoryCounterStore MemorySessionStore :=
  mkEngineI (λ _ _ s, (incKeyThrottled s, Ok (whole demo_chunks)))
    (λ _ _ s, (incKeyThrottled s, Ok demo_chunks)).
Definition demo_chat (stream : bool) : chatCompletionRequest :=
  mkChatRequest "m" [mkChatMessage "user" "hi" "" "" []] stream [] "sess_1".
Definition demo_clock : chatClock := mkChatClock 6 6 6 6 6 6 6.
Definition demo_chat_http : Request := mkRequest "POST" "/v1/chat/completions" (λ _, "") (λ _, "") (λ _, "sess_1") (λ _, None).
Definition demo_rnd (i : nat) : result bytes := Ok [Z.of_nat i].
Definition demo_sessions_http : demo_hserver := set_mgr demo_manager demo_http.
Definition demo_turn (stream : bool) : turn :=
  mkTurn (demo_chat stream) demo_engine demo_rnd false demo_chat_http demo_clock (demo_ctx demo_owner).




Lemma demo_remembers :
  remembers 5 50 (mhs_caps (m_history demo_manager)) "sess_1" "k" (mhs_get (m_history demo_manager) "sess_1") demo_sessions_http.
Proof.
  exists demo_manager, demo_session. split_and!; try reflexivity. right. vm_compute. split; discriminate.
Defined.

Lemma demo_in_conversation stream :
  in_conversation 5 50 (mhs_caps (m_history demo_manager)) "sess_1" demo_owner (demo_turn stream).
Proof.
  split; [reflexivity..| |].
  - repeat constructor; vm_compute; discriminate.
  - intros tr job s H. split; exact H.
Defined.

Lemma conversation_remembered_witness :
  let '(s', log) := talk demo_owner [demo_turn false; demo_turn true] demo_sessions_http in
  ∃ tr', transcribes (mhs_caps (m_history demo_manager)) (mhs_get (m_history demo_manager) "sess_1") log tr'.
Proof.
  pose proof (conversation_remembered 5 50 (mhs_caps (m_history demo_manager)) "sess_1" demo_owner
    [demo_turn false; demo_turn true] _ demo_sessions_http eq_refl ltac:(discriminate)
    (Forall_cons_2 _ _ _ (demo_in_conversation false) (Forall_cons_2 _ _ _ (demo_in_conversation true) (Forall_nil_2 _)))
    demo_remembers) as H.
  destruct (talk _ _ _) as [s' log]. destruct H as (tr' & H & _). exists tr'. exact H.
Defined.

Lemma session_existence_hidden_witness :
  handleGetSession demo_rnd demo_chat_http 6 6 (demo_ctx demo_actor) demo_sessions_http =
  (demo_sessions_http, writeError StatusNotFound "not_found" "session not found").
Proof.
  apply (session_existence_hidden demo_engine (demo_chat false) demo_rnd (mkConn true false) demo_chat_http demo_clock
    (demo_ctx demo_actor) 6 6 false false demo_sessions_http demo_actor demo_manager eq_refl eq_refl eq_refl).
  intros id sess [-> | ->]; vm_compute; intros [= <-]; discriminate.
Defined.

Lemma metered_as_reported_witness :
  h_tokens (handleChatCompletions demo_engine (Some (demo_chat false)) demo_rnd (mkConn true false) demo_chat_http
              demo_clock (demo_ctx demo_owner) demo_sessions_http).1 = [("m", 1, 2)].
Proof.
  destruct (chat_prepare (demo_chat false) demo_rnd demo_chat_http demo_clock (demo_ctx demo_owner) demo_owner
    demo_sessions_http) as [bad|[[[i mode] sid] job]] eqn:E; [vm_compute in E; discriminate E|].
  pose proof (metered_as_reported demo_engine (demo_chat false) demo_rnd (mkConn true false) demo_chat_http demo_clock
    (demo_ctx demo_owner) demo_sessions_http demo_owner i mode sid job eq_refl eq_refl eq_refl E) as H.
  cbn [demo_engine eng_submit] in H.
  assert (resp_body (respond (handleChatCompletions demo_engine (Some (demo_chat false)) demo_rnd (mkConn true false)
    demo_chat_http demo_clock (demo_ctx demo_owner) demo_sessions_http).2) =
    [PChat (Http.newID (demo_rnd 0) "chatcmpl-") (Time_Unix 6) "m" (mkChatMessage "assistant" "hello" "" "" []) "stop" (mkUsage 1 2 3)]) as Hb
    by (vm_compute; reflexivity).
  destruct (handleChatCompletions _ _ _ _ _ _ _ _) as [s' acts]. cbn [fst snd] in *.
  destruct H as (id & msg & u & H1 & _ & _ & _ & _ & H2 & _). rewrite Hb in H1. injection H1 as _ _ <-. exact H2.
Defined.
