(* ===== verification/LogRing.v ===== *)
(** * LogRing.v: the in-memory log and its endpoints

    The ring of recent log records and the slog handler that feeds it
    (cmd/agentgpu/ringlog.go, the redaction of logging.go), the adapter
    (logsource.go), and GET /v1/admin/logs with its live tail
    (httpapi/admin_logs.go).

    The HTTP side reads the log through the interface [LogSource]; its theorems are
    proved from the laws of that class and the ring's theorems discharge them.

    A slog attribute is given as its value resolves ([slog.Value.Resolve]).  A
    [slog.Level] is an integer.  The ring's mutex makes each method one step. *)

From Stdlib Require Import Ascii.
From S2P Require Import Prelude Errors GoTime GoStrings GoConv GoHeap GoSort Http AdminApi ChatApi.
Open Scope Z_scope.

(** ** Levels *)

Definition LevelDebug : Z := -4.
Definition LevelInfo : Z := 0.
Definition LevelWarn : Z := 4.
Definition LevelError : Z := 8.

(** [slog.Level.String]; [fmt]'s [%+d] always prints the sign. *)
Definition level_name (base : string) (val : Z) : string :=
  if val =? 0 then base else base +:+ (if 0 <? val then "+" +:+ Itoa val else Itoa val).
Definition Level_String (l : Z) : string :=
  if l <? LevelInfo then level_name "DEBUG" (l - LevelDebug)
  else if l <? LevelWarn then level_name "INFO" (l - LevelInfo)
  else if l <? LevelError then level_name "WARN" (l - LevelWarn)
  else level_name "ERROR" (l - LevelError).

(** ** Attributes and redaction *)

Inductive Attr := Leaf (key : string) (v : attrv) | Group (key : string) (attrs : list Attr).

Definition redactedPlaceholder : string := "[REDACTED]".
Definition sensitiveKeys : list string :=
  ["secret"; "secret_hash"; "secrethash"; "salt"; "token"; "authorization"; "password"; "api_key"; "apikey"; "bearer"].
Definition sensitive (key : string) : bool := existsb (String.eqb (ToLower key)) sensitiveKeys.
Definition redactAttr (key : string) (v : attrv) : attrv := if sensitive key then VStr redactedPlaceholder else v.

Fixpoint collectPrefixed (prefix : string) (a : Attr) (dst : gmap string attrv) : gmap string attrv :=
  match a with
  | Group key attrs =>
      let next := if String.eqb key "" then prefix
                  else if String.eqb prefix "" then key else prefix +:+ "." +:+ key in
      fold_left (λ dst ga, collectPrefixed next ga dst) attrs dst
  | Leaf key v =>
      if String.eqb key "" then dst
      else <[if String.eqb prefix "" then key else prefix +:+ "." +:+ key := redactAttr key v]> dst
  end.

(** ** The ring *)

Record logRecord := mkLogRecord { R_Time : Z; R_Level : Z; R_Message : string; R_Attrs : gmap string attrv }.
Definition logRecord_zero : logRecord := mkLogRecord 0 0 "" ∅.

(** [r_count] is an int. *)
Record logRing := mkRing { r_buf : list logRecord; r_next : Z; r_full : bool; r_cap : Z; r_count : Z }.

Definition newLogRing (capacity : Z) : logRing :=
  if capacity <=? 0 then mkRing [] 0 false 0 0
  else mkRing (replicate (Z.to_nat capacity) logRecord_zero) 0 false capacity 0.

(** The index is in range by [ring_of_index] below. *)
Definition ring_append (rec : logRecord) (r : logRing) : logRing :=
  if r_cap r =? 0 then r
  else
    let next := Z.rem (r_next r + 1) (r_cap r) in
    mkRing (<[Z.to_nat (r_next r) := rec]> (r_buf r)) next (if next =? 0 then true else r_full r) (r_cap r)
      (i64 (r_count r + 1)).

Definition ring_at (r : logRing) (i : Z) : logRecord := default logRecord_zero (r_buf r !! Z.to_nat i).
Definition snapshotLocked (r : logRing) : list logRecord :=
  let n := r_next r in
  if r_full r then map (λ i, ring_at r (Z.rem (n + Z.of_nat i) (r_cap r))) (seq 0 (Z.to_nat (r_cap r)))
  else take (Z.to_nat n) (r_buf r).
Definition ring_Snapshot (r : logRing) : list logRecord := if r_cap r =? 0 then [] else snapshotLocked r.
Definition ring_SnapshotCount (r : logRing) : list logRecord * Z :=
  if r_cap r =? 0 then ([], 0) else (snapshotLocked r, u64 (r_count r)).
Definition ring_Len (r : logRing) : Z :=
  if r_cap r =? 0 then 0 else if r_full r then r_cap r else r_next r.
Definition ring_Count (r : logRing) : Z := if r_cap r =? 0 then 0 else u64 (r_count r).

(** ** The handler *)

(** A [slog.Record], and the part of a ringHandler the ring sees. *)
Record slogRecord := mkRecord { L_Time : Time; L_Level : Z; L_Message : string; L_Attrs : list Attr }.
Record ringHandler := mkHandler { rh_attrs : list Attr; rh_groups : list string }.
Definition newRingHandler : ringHandler := mkHandler [] [].
Definition WithAttrs (attrs : list Attr) (h : ringHandler) : ringHandler := mkHandler (rh_attrs h ++ attrs) (rh_groups h).
Definition WithGroup (name : string) (h : ringHandler) : ringHandler := mkHandler (rh_attrs h) (rh_groups h ++ [name]).

(** [t.UnixNano()] and [time.Unix(0, n)]. *)
Definition UnixNano (t : Time) : Z := i64 (t - unixToInternal * Second).
Definition Unix_nano (n : Z) : Time := n + unixToInternal * Second.

Definition captured (h : ringHandler) (rec : slogRecord) : logRecord :=
  let groupPrefix := Join (rh_groups h) "." in
  let attrs := fold_left (λ dst a, collectPrefixed groupPrefix a dst) (rh_attrs h) ∅ in
  let attrs := fold_left (λ dst a, collectPrefixed groupPrefix a dst) (L_Attrs rec) attrs in
  mkLogRecord (UnixNano (L_Time rec)) (L_Level rec) (L_Message rec) attrs.

(** [Enabled] and [Handle] with the terminal handler's answers [wrapped_enabled] and
    [wrapped]; a logger asks the first before it calls the second. *)
Definition Enabled (wrapped_enabled : Z → bool) (level : Z) : bool := wrapped_enabled level.
Definition Handle (wrapped : option error) (h : ringHandler) (rec : slogRecord) (r : option logRing)
    : option logRing * option error :=
  (match r with
   | Some ring => Some (if 0 <? r_cap ring then ring_append (captured h rec) ring else ring)
   | None => None
   end, wrapped).
Definition log_call (wrapped_enabled : Z → bool) (wrapped : option error) (h : ringHandler) (rec : slogRecord)
    (r : option logRing) : option logRing :=
  if Enabled wrapped_enabled (L_Level rec) then (Handle wrapped h rec r).1 else r.

(** ** The source *)

Record LogRecord := mkLog { Log_Time : Time; Log_Level : string; Log_Message : string; Log_Attrs : gmap string attrv }.
Definition mapLogRecord (rec : logRecord) : LogRecord :=
  mkLog (Unix_nano (R_Time rec)) (Level_String (R_Level rec)) (R_Message rec) (R_Attrs rec).
Definition mapLogRecords (recs : list logRecord) : list LogRecord := map mapLogRecord recs.

(** What the endpoints are promised: with [ls_cap] records of room and the records
    [rs] ever appended, a read gives the newest of them and their number. *)
Class LogSource (S : Type) := {
  Snapshot : S → list LogRecord;
  Count : S → Z;
  SnapshotCount : S → list LogRecord * Z;
  ls_cap : S → nat;
  ls_log : S → list LogRecord → Prop;
  Snapshot_log s rs : ls_log s rs → Snapshot s = lastn (ls_cap s) rs;
  Count_log s rs : ls_log s rs → Count s = Z.of_nat (length rs);
  SnapshotCount_log s rs : ls_log s rs → SnapshotCount s = (lastn (ls_cap s) rs, Z.of_nat (length rs));
  log_bounded s rs : ls_log s rs → Z.of_nat (length rs) < 2 ^ 63 }.

(** [logRingSource]: a ring or nil. *)
Definition source_Snapshot (s : option logRing) : list LogRecord :=
  match s with Some ring => mapLogRecords (ring_Snapshot ring) | None => [] end.
Definition source_Count (s : option logRing) : Z := match s with Some ring => ring_Count ring | None => 0 end.
Definition source_SnapshotCount (s : option logRing) : list LogRecord * Z :=
  match s with
  | Some ring => let '(recs, count) := ring_SnapshotCount ring in (mapLogRecords recs, count)
  | None => ([], 0)
  end.

(** ** The endpoints *)

Definition levelRank (name : string) : Z :=
  let n := ToLower (TrimSpace name) in
  if String.eqb n "debug" then -4
  else if String.eqb n "info" then 0
  else if String.eqb n "warn" || String.eqb n "warning" then 4
  else if String.eqb n "error" then 8
  else -8.
Definition defaultMinLevelRank : Z := levelRank "warn".

(** The text before the first separator, [None] when it is absent or at the start. *)
Definition before_sep (sep : Ascii.ascii) (s : string) : option string :=
  match cut sep s with Some (EmptyString, _) | None => None | Some (x, _) => Some x end.
Definition recordLevelRank (level : string) : Z :=
  let base := match before_sep (Ascii.ascii_of_nat 43) level with
              | Some b => b
              | None => match before_sep (Ascii.ascii_of_nat 45) level with Some b => b | None => level end
              end in
  let n := ToLower (TrimSpace base) in
  if String.eqb n "debug" then -4
  else if String.eqb n "info" then 0
  else if String.eqb n "warn" || String.eqb n "warning" then 4
  else if String.eqb n "error" then 8
  else 8.

Record logFilter := mkLogFilter {
  lf_minLevel : Z; lf_attrMatch : gmap string string; lf_since : Time; lf_until : Time }.
Definition logFilterAttrKeys : list string := ["request_id"; "session_id"; "worker"].

Definition parseLogFilter (r : Request) : logFilter :=
  let lvl := r_Query r "level" in
  let minLevel := if negb (String.eqb lvl "") then
                    let rk := levelRank lvl in if -4 <=? rk then rk else defaultMinLevelRank
                  else defaultMinLevelRank in
  let attrMatch := fold_left (λ m key, let v := r_Query r key in if negb (String.eqb v "") then <[key := v]> m else m)
                     logFilterAttrKeys ∅ in
  mkLogFilter minLevel attrMatch (parseUnixSeconds (r_Query r "since")) (parseUnixSeconds (r_Query r "until")).

Definition attrString (v : attrv) : string := match v with VStr s => s | VAny text => text end.

Definition attrs_match (want : gmap string string) (attrs : gmap string attrv) : bool :=
  forallb (λ '(key, w), match attrs !! key with Some got => String.eqb (attrString got) w | None => false end)
    (map_to_list want).
Definition log_matches (f : logFilter) (rec : LogRecord) : bool :=
  if recordLevelRank (Log_Level rec) <? lf_minLevel f then false
  else if negb (attrs_match (lf_attrMatch f) (Log_Attrs rec)) then false
  else if negb (IsZero (lf_since f)) && Before (Log_Time rec) (lf_since f) then false
  else if negb (IsZero (lf_until f)) && negb (Before (Log_Time rec) (lf_until f)) then false
  else true.

(** A nil map is [∅] here. *)
Definition toLogEntryView (rec : LogRecord) : logEntryView :=
  mkLogEntry (Log_Time rec) (Log_Level rec) (Log_Message rec) (Log_Attrs rec).

Definition log_newer (a b : logEntryView) : bool := After (LE_Time a) (LE_Time b).

Section endpoints.
Context {S : Type} `{!LogSource S}.

Definition not_enabled : list wact := writeError StatusNotImplemented "not_implemented" "log streaming is not enabled".

Definition handleAdminLogs (r : Request) (logs : option S) : list wact :=
  match logs with
  | None => not_enabled
  | Some src =>
      let filter := parseLogFilter r in
      let views := map toLogEntryView (List.filter (log_matches filter) (Snapshot src)) in
      let '(limit, offset) := parsePageParams r in
      writeList (map RLog (SliceStable log_newer views)) limit offset
  end.

Definition emitNewLogs (filter : logFilter) (lastCount : Z) (src : S) : list wact * Z :=
  let '(snap, count) := SnapshotCount src in
  if count <=? lastCount then ([], count)
  else
    let newN := i64 (u64 (count - lastCount)) in
    let n := Z.of_nat (length snap) in
    let newN := if n <? newN then n else newN in
    (map (λ rec, Write (PLogFrame (toLogEntryView rec)))
       (List.filter (log_matches filter) (drop (Z.to_nat (n - newN)) snap)), count).

Definition writeSSEComment : list wact := [Write PComment].

(** The source as each tick finds it, until the client goes. *)
Fixpoint tail_loop (filter : logFilter) (lastCount : Z) (ticks : list S) : list wact :=
  match ticks with
  | [] => []
  | src :: ticks =>
      let '(out, lastCount) := emitNewLogs filter lastCount src in
      out ++ writeSSEComment ++ tail_loop filter lastCount ticks
  end.

(** [flushable]: the ResponseWriter is a Flusher; [opened] is the source when the
    request starts. *)
Definition handleAdminLogsStream (r : Request) (flushable : bool) (opened : option S) (ticks : list S) : list wact :=
  match opened with
  | None => not_enabled
  | Some src =>
      let filter := parseLogFilter r in
      if negb flushable then writeError StatusInternalServerError "internal_error" "streaming unsupported"
      else beginSSE ++ tail_loop filter (Count src) ticks
  end.
End endpoints.

(** ** The ring holds the newest records *)

(** [rs] is everything appended, oldest first. *)
Record ring_of (rs : list logRecord) (r : logRing) : Prop := {
  ro_cap : 0 < r_cap r;
  ro_len : Z.of_nat (length (r_buf r)) = r_cap r;
  ro_next : r_next r = Z.of_nat (length rs) mod r_cap r;
  ro_full : r_full r = (r_cap r <=? Z.of_nat (length rs));
  ro_count : r_count r = Z.of_nat (length rs);
  ro_slots : ∀ i x, rs !! i = Some x → (length rs ≤ i + Z.to_nat (r_cap r))%nat →
               r_buf r !! Z.to_nat (Z.of_nat i mod r_cap r) = Some x }.

Lemma ring_of_index rs r : ring_of rs r → (Z.to_nat (r_next r) < length (r_buf r))%nat.
Proof.
  intros [Hc Hl Hn _ _ _]. pose proof (Z.mod_pos_bound (Z.of_nat (length rs)) (r_cap r) ltac:(lia)). lia.
Qed.

Lemma ring_of_new capacity : 0 < capacity → ring_of [] (newLogRing capacity).
Proof.
  intros H. unfold newLogRing. destruct (Z.leb_spec capacity 0); [lia|]. split; cbn.
  - done.
  - rewrite length_replicate. lia.
  - by rewrite Z.mod_0_l by lia.
  - symmetry. apply Z.leb_gt. done.
  - done.
  - intros i x Hx. by rewrite lookup_nil in Hx.
Qed.

Lemma succ_mod n c : 0 < c → 0 <= n → Z.rem (n mod c + 1) c = (n + 1) mod c.
Proof.
  intros Hc Hn. pose proof (Z.mod_pos_bound n c Hc). rewrite Z.rem_mod_nonneg by lia. by rewrite Zplus_mod_idemp_l.
Qed.

Lemma ring_of_append rs r x :
  ring_of rs r → Z.of_nat (length rs) + 1 < 2 ^ 63 → ring_of (rs ++ [x]) (ring_append x r).
Proof.
  intros Hr Hb. pose proof (ring_of_index _ _ Hr) as Hi. destruct Hr as [Hc Hl Hn Hf Hk Hs].
  unfold ring_append. destruct (Z.eqb_spec (r_cap r) 0) as [|_]; [lia|].
  rewrite Hn, succ_mod by lia.
  assert (E : Z.of_nat (length (rs ++ [x])) = Z.of_nat (length rs) + 1) by (rewrite length_app; cbn; lia).
  split; cbn [r_cap r_buf r_next r_full r_count].
  - done.
  - by rewrite length_insert.
  - by rewrite E.
  - rewrite E, Hf. pose proof (Z.div_mod (Z.of_nat (length rs) + 1) (r_cap r) ltac:(lia)) as D.
    destruct (Z.eqb_spec ((Z.of_nat (length rs) + 1) mod r_cap r) 0) as [Em|Em].
    + symmetry. apply Z.leb_le. rewrite Em in D.
      assert (0 < (Z.of_nat (length rs) + 1) / r_cap r) by nia. nia.
    + destruct (Z.leb_spec (r_cap r) (Z.of_nat (length rs))), (Z.leb_spec (r_cap r) (Z.of_nat (length rs) + 1)); try done; [lia|].
      assert (r_cap r = Z.of_nat (length rs) + 1) as Ec by lia. rewrite Ec, Z_mod_same_full in Em. done.
  - rewrite E, Hk. apply i64_id. unfold is_i64. lia.
  - intros i y Hy Hle. rewrite length_app in Hle. cbn [length] in Hle.
    apply lookup_snoc_Some in Hy as [[Hlt Hy]|[-> ->]].
    + rewrite list_lookup_insert_ne; [apply Hs; [done|lia]|]. intros Heq. apply Z2Nat.inj in Heq; try (apply Z.mod_pos_bound; lia).
      assert (Hd : (Z.of_nat (length rs) - Z.of_nat i) mod r_cap r = 0)
        by (rewrite Zminus_mod, Heq, Z.sub_diag; apply Z.mod_0_l; lia).
      rewrite Z.mod_small in Hd by lia. lia.
    + rewrite list_lookup_insert_eq by (rewrite <- Hn; exact Hi). done.
Qed.

Lemma ring_of_appends cap rs :
  0 < cap → Z.of_nat (length rs) < 2 ^ 63 →
  ring_of rs (fold_left (λ r x, ring_append x r) rs (newLogRing cap)).
Proof.
  intros Hc. induction rs as [|x rs IH] using rev_ind; intros Hb; [by apply ring_of_new|].
  rewrite fold_left_app. rewrite length_app in Hb. cbn in *. apply ring_of_append; [apply IH|]; lia.
Qed.

Lemma ring_snapshot rs r : ring_of rs r → snapshotLocked r = lastn (Z.to_nat (r_cap r)) rs.
Proof.
  intros Hr. pose proof (ring_of_index _ _ Hr) as Hi. destruct Hr as [Hc Hl Hn Hf Hk Hs].
  unfold snapshotLocked. rewrite Hf. apply list_eq. intros i. destruct (Z.leb_spec (r_cap r) (Z.of_nat (length rs))) as [Hfull|Hnot].
  - unfold lastn. rewrite lookup_drop, list_lookup_fmap. destruct (decide (i < Z.to_nat (r_cap r))%nat) as [Hlt|Hge].
    + rewrite lookup_seq_lt by lia. cbn [fmap option_fmap option_map]. set (j := (length rs - Z.to_nat (r_cap r) + i)%nat).
      destruct (lookup_lt_is_Some_2 rs j) as [x Hx]; [lia|]. rewrite Hx. unfold ring_at.
      assert (Z.rem (r_next r + Z.of_nat (0 + i)) (r_cap r) = Z.of_nat j mod r_cap r) as ->; [|by rewrite (Hs j x Hx) by lia].
      rewrite Hn, Z.rem_mod_nonneg; [|pose proof (Z.mod_pos_bound (Z.of_nat (length rs)) (r_cap r) Hc); lia|done].
      rewrite Zplus_mod_idemp_l. replace (Z.of_nat (length rs) + Z.of_nat (0 + i)) with (Z.of_nat j + 1 * r_cap r) by lia.
      apply Z_mod_plus_full.
    + rewrite lookup_seq_ge by lia. symmetry. apply lookup_ge_None. lia.
  - rewrite lastn_all by lia. rewrite Z.mod_small in Hn by lia. destruct (decide (i < length rs)%nat) as [Hlt|Hge].
    + rewrite lookup_take_lt by lia. destruct (lookup_lt_is_Some_2 rs i Hlt) as [x Hx]. rewrite Hx.
      rewrite <- (Hs i x Hx) by lia. rewrite Z.mod_small by lia. by rewrite Nat2Z.id.
    + rewrite lookup_take_ge by lia. symmetry. apply lookup_ge_None. lia.
Qed.

(** The ring refines the window of its newest records. After any sequence of
    appends to a new ring, the snapshot is exactly the last [cap] records appended,
    oldest first, the count is the number ever appended and the length that of the
    window; a ring with no capacity stays empty. *)
Theorem ring_refines_window cap rs :
  Z.of_nat (length rs) < 2 ^ 63 →
  let r := fold_left (λ r x, ring_append x r) rs (newLogRing cap) in
  let kept := lastn (Z.to_nat cap) rs in
  if 0 <? cap then
    ring_Snapshot r = kept ∧ ring_SnapshotCount r = (kept, Z.of_nat (length rs)) ∧
    ring_Count r = Z.of_nat (length rs) ∧ ring_Len r = Z.of_nat (length kept)
  else r = newLogRing cap ∧ ring_SnapshotCount r = ([], 0) ∧ ring_Len r = 0.
Proof.
  intros Hb r kept. destruct (Z.ltb_spec 0 cap) as [Hc|Hc].
  - pose proof (ring_of_appends cap rs Hc Hb) as Hr. fold r in Hr. pose proof (ring_snapshot _ _ Hr) as Hs.
    assert (Ec : r_cap r = cap).
    { unfold r. clear -Hc. assert (E : r_cap (newLogRing cap) = cap) by (unfold newLogRing; by destruct (Z.leb_spec cap 0); [lia|]).
      revert E. generalize (newLogRing cap). induction rs as [|x rs IH]; intros g E; [done|]. cbn. apply IH.
      unfold ring_append. by case_match. }
    destruct Hr as [H0 Hl Hn Hf Hk _]. unfold ring_Snapshot, ring_SnapshotCount, ring_Count, ring_Len.
    rewrite Hs, Hk, Ec in *. fold kept. destruct (Z.eqb_spec cap 0) as [|_]; [lia|].
    rewrite u64_id by (unfold is_u64; lia). split_and!; [done..|]. unfold kept. rewrite length_lastn, Hf, Hn.
    destruct (Z.leb_spec cap (Z.of_nat (length rs))); [lia|]. rewrite Z.mod_small by lia. lia.
  - assert (E0 : newLogRing cap = mkRing [] 0 false 0 0) by (unfold newLogRing; by destruct (Z.leb_spec cap 0); [|lia]).
    assert (E : r = newLogRing cap); [|by rewrite E, E0].
    unfold r. rewrite E0. clear. by induction rs as [|x rs IH].
Qed.

(** ** The adapter is a log source *)

Definition source_log (s : option logRing) (log : list LogRecord) : Prop :=
  match s with
  | None => log = []
  | Some ring =>
      if r_cap ring =? 0 then log = []
      else ∃ rs, ring_of rs ring ∧ log = mapLogRecords rs ∧ Z.of_nat (length rs) < 2 ^ 63
  end.
Definition source_cap (s : option logRing) : nat := match s with Some ring => Z.to_nat (r_cap ring) | None => O end.

Lemma map_lastn {A B} (f : A → B) n l : map f (lastn n l) = lastn n (map f l).
Proof. unfold lastn. by rewrite skipn_map, length_map. Qed.

Lemma source_SnapshotCount_log s log :
  source_log s log → source_SnapshotCount s = (lastn (source_cap s) log, Z.of_nat (length log)).
Proof.
  destruct s as [ring|]; cbn; [|by intros ->]. unfold ring_SnapshotCount.
  destruct (Z.eqb_spec (r_cap ring) 0) as [->|Hc]; [by intros ->|]. intros (rs & Hr & -> & Hb).
  rewrite (ring_snapshot _ _ Hr). unfold mapLogRecords. rewrite map_lastn, length_map, (ro_count _ _ Hr).
  by rewrite u64_id by (unfold is_u64; lia).
Qed.

#[export, refine] Instance ring_source : LogSource (option logRing) := {
  Snapshot := source_Snapshot; Count := source_Count; SnapshotCount := source_SnapshotCount;
  ls_cap := source_cap; ls_log := source_log }.
Proof.
  - intros s log H. pose proof (source_SnapshotCount_log _ _ H) as E.
    destruct s as [ring|]; cbn in *; [|by subst]. unfold ring_Snapshot, ring_SnapshotCount in *.
    destruct (r_cap ring =? 0); cbn in *; congruence.
  - intros s log H. pose proof (source_SnapshotCount_log _ _ H) as E.
    destruct s as [ring|]; cbn in *; [|by subst]. unfold ring_Count, ring_SnapshotCount in *.
    destruct (r_cap ring =? 0); cbn in *; congruence.
  - apply source_SnapshotCount_log.
  - intros s log H. destruct s as [ring|]; cbn in *; [|by subst]. destruct (r_cap ring =? 0); [by subst|].
    destruct H as (rs & _ & -> & Hb). unfold mapLogRecords. by rewrite length_map.
Defined.

(** A log call keeps the source's history: it adds the captured record when the level
    is enabled. *)
Lemma log_call_log enabled err h rec s log :
  source_log s log → Z.of_nat (length log) + 1 < 2 ^ 63 →
  source_log (log_call enabled err h rec s)
    (match s with
     | Some ring => if (0 <? r_cap ring) && enabled (L_Level rec) then log ++ [mapLogRecord (captured h rec)] else log
     | None => log
     end).
Proof.
  intros H Hb. unfold log_call, Enabled. destruct (enabled (L_Level rec)).
  - destruct s as [ring|]; [|done]. cbn [Handle fst]. destruct (Z.ltb_spec 0 (r_cap ring)) as [Hc|Hc]; [|done].
    cbn in *. destruct (Z.eqb_spec (r_cap ring) 0) as [|_]; [lia|]. destruct H as (rs & Hr & -> & _).
    unfold mapLogRecords in Hb. rewrite length_map in Hb. pose proof (ring_of_append _ _ (captured h rec) Hr Hb) as Ha.
    destruct (Z.eqb_spec (r_cap (ring_append (captured h rec) ring)) 0) as [E|_]; [pose proof (ro_cap _ _ Ha); lia|].
    exists (rs ++ [captured h rec]). split_and!; [done| |rewrite length_app; cbn; lia].
    unfold mapLogRecords. by rewrite map_app.
  - destruct s as [ring|]; [|done]. by rewrite andb_false_r.
Qed.

(** ** The tail *)

Definition frame (rec : LogRecord) : wact := Write (PLogFrame (toLogEntryView rec)).

Lemma drop_lastn {A} n (l m : list A) :
  drop (length (lastn n (l ++ m)) - min (length (lastn n (l ++ m))) (length m)) (lastn n (l ++ m)) = lastn n m.
Proof.
  rewrite length_lastn, length_app. unfold lastn. rewrite drop_drop, length_app.
  rewrite drop_app, (drop_ge l) by lia. cbn. f_equal. lia.
Qed.

Section tail.
Context {S : Type} `{!LogSource S}.

(** The source at the ticks, with the records appended before each since the last. *)
Inductive tail_run (cap : nat) : list LogRecord → list S → list (list LogRecord) → Prop :=
| tail_nil rs : tail_run cap rs [] []
| tail_cons rs src new ticks news :
    ls_log src (rs ++ new) → ls_cap src = cap → tail_run cap (rs ++ new) ticks news →
    tail_run cap rs (src :: ticks) (new :: news).

Lemma emit_new filter src rs new :
  ls_log src (rs ++ new) →
  emitNewLogs filter (Z.of_nat (length rs)) src =
  (map frame (List.filter (log_matches filter) (lastn (ls_cap src) new)), Z.of_nat (length (rs ++ new))).
Proof.
  intros H. pose proof (log_bounded _ _ H) as Hb. unfold emitNewLogs. rewrite (SnapshotCount_log _ _ H).
  rewrite length_app in *. destruct (Z.leb_spec (Z.of_nat (length rs + length new)) (Z.of_nat (length rs))) as [Hle|Hgt].
  - destruct new; cbn in *; [|lia]. unfold lastn. by rewrite drop_nil.
  - replace (Z.of_nat (length rs + length new) - Z.of_nat (length rs)) with (Z.of_nat (length new)) by lia.
    rewrite u64_id, i64_id by (unfold is_u64, is_i64; lia). cbv zeta. f_equal. unfold frame. do 2 f_equal.
    rewrite <- (drop_lastn (ls_cap src) rs new). f_equal.
    destruct (Z.ltb_spec (Z.of_nat (length (lastn (ls_cap src) (rs ++ new)))) (Z.of_nat (length new))); lia.
Qed.

Lemma tail_loop_exact cap filter rs ticks news :
  tail_run cap rs ticks news →
  tail_loop filter (Z.of_nat (length rs)) ticks =
  concat (map (λ new, map frame (List.filter (log_matches filter) (lastn cap new)) ++ [Write PComment]) news).
Proof.
  induction 1 as [rs|rs src new ticks news Hl Hc _ IH]; [done|]. cbn [tail_loop map concat].
  rewrite (emit_new _ _ _ _ Hl), Hc. rewrite IH. by rewrite <- app_assoc.
Qed.

Definition frames (out : list wact) : list logEntryView :=
  omap (λ a, match a with Write (PLogFrame v) => Some v | _ => None end) out.

Lemma frames_app a b : frames (a ++ b) = frames a ++ frames b.
Proof. apply omap_app. Qed.
Lemma frames_map rs : frames (map frame rs) = map toLogEntryView rs.
Proof. induction rs as [|x rs IH]; [done|]. unfold frames in *. cbn. by rewrite IH. Qed.

(** C27: The live tail delivers exactly the new lines. Whatever was logged before, a tail
    sends, at each poll, the matching ones of the last [cap] records logged since the
    poll before (or since it was opened), oldest first, and a keepalive. So as long as
    no more than the ring's capacity is logged between two polls, every matching
    record logged after the connection opened is sent exactly once, in order, and
    nothing older is. *)
Theorem live_tail_exact r src rs ticks news :
  ls_log src rs → tail_run (ls_cap src) rs ticks news →
  let filter := parseLogFilter r in
  let out := handleAdminLogsStream r true (Some src) ticks in
  out = beginSSE ++ concat (map (λ new, map frame (List.filter (log_matches filter) (lastn (ls_cap src) new))
                                        ++ [Write PComment]) news) ∧
  (Forall (λ new, (length new ≤ ls_cap src)%nat) news →
     frames out = map toLogEntryView (List.filter (log_matches filter) (concat news))).
Proof.
  intros Hl Ht filter out.
  assert (E : out = beginSSE ++ concat (map (λ new, map frame (List.filter (log_matches filter) (lastn (ls_cap src) new))
                                        ++ [Write PComment]) news)).
  { unfold out, handleAdminLogsStream. cbn [negb]. rewrite (Count_log _ _ Hl). by rewrite (tail_loop_exact _ _ _ _ _ Ht). }
  split; [done|]. rewrite E, frames_app. cbn [frames beginSSE omap list_omap app]. clear. intros Hs.
  induction Hs as [|new news Hn _ IH]; [done|]. cbn [map concat].
  rewrite !frames_app, frames_map, IH, lastn_all by done. cbn. by rewrite app_nil_r, List.filter_app, map_app.
Qed.
End tail.

(** ** Redaction *)

(** Attributes that differ at most in the values of leaves whose own name is a secret
    one, which is what the code redacts; the name of a group around them does not
    count ([secret_group_in_clear]). *)
Inductive alike_attr : Attr → Attr → Prop :=
| alike_same key v : alike_attr (Leaf key v) (Leaf key v)
| alike_secret key v v' : sensitive key = true → alike_attr (Leaf key v) (Leaf key v')
| alike_group key l l' : Forall2 alike_attr l l' → alike_attr (Group key l) (Group key l').

Fixpoint collect_alike a a' (H : alike_attr a a') {struct H} :
  ∀ prefix dst, collectPrefixed prefix a dst = collectPrefixed prefix a' dst.
Proof.
  destruct H as [key v|key v v' Hs|key l l' Hl]; intros prefix dst; [done| |].
  - cbn. unfold redactAttr. by rewrite Hs.
  - cbn. set (next := if String.eqb key "" then _ else _). clearbody next. revert dst.
    induction Hl as [|x x' l l' Hx Hl IH]; intros dst; [done|]. cbn. rewrite (collect_alike _ _ Hx). apply IH.
Qed.

Lemma collects_alike prefix l l' dst :
  Forall2 alike_attr l l' →
  fold_left (λ dst a, collectPrefixed prefix a dst) l dst = fold_left (λ dst a, collectPrefixed prefix a dst) l' dst.
Proof.
  intros H. revert dst. induction H as [|x x' l l' Hx _ IH]; intros dst; [done|]. cbn.
  rewrite (collect_alike _ _ Hx). apply IH.
Qed.

(** Calls to the logger that differ at most in such values. *)
Definition alike_call (c c' : ringHandler * slogRecord) : Prop :=
  Forall2 alike_attr (rh_attrs c.1) (rh_attrs c'.1) ∧ rh_groups c.1 = rh_groups c'.1 ∧
  L_Time c.2 = L_Time c'.2 ∧ L_Level c.2 = L_Level c'.2 ∧ L_Message c.2 = L_Message c'.2 ∧
  Forall2 alike_attr (L_Attrs c.2) (L_Attrs c'.2).

Definition logged (enabled : Z → bool) (calls : list (ringHandler * slogRecord)) (s : option logRing) : option logRing :=
  fold_left (λ s c, log_call enabled None c.1 c.2 s) calls s.

Lemma captured_alike c c' : alike_call c c' → captured c.1 c.2 = captured c'.1 c'.2.
Proof.
  intros (Ha & Hg & Ht & Hl & Hm & Hr). unfold captured. by rewrite Hg, Ht, Hl, Hm, (collects_alike _ _ _ _ Ha), (collects_alike _ _ _ _ Hr).
Qed.

(** A leaf inside a group with a secret name is stored as it is, under the joined
    name: only the leaf's own name is looked at. *)
Theorem secret_group_in_clear group key v dst :
  sensitive group = true → sensitive key = false → key ≠ "" →
  collectPrefixed "" (Group group [Leaf key v]) dst = <[group +:+ "." +:+ key := v]> dst.
Proof.
  intros Hg Hk Hne. cbn. apply String.eqb_neq in Hne. rewrite Hne. unfold redactAttr. rewrite Hk.
  destruct (String.eqb_spec group "") as [->|Hng]; [by vm_compute in Hg|]. apply String.eqb_neq in Hng. by rewrite !Hng.
Qed.

(** C28: Secrets are redacted by the name of the attribute that holds them. Two
    programs that log the same records except for the values of leaf attributes
    whose own name is a secret one in any case (in any group, at any depth, bound
    to the logger or given in the call) leave the same ring, and the page and the
    live tail served from it are the same: what an operator with logs:read sees is
    independent of those values. (A value whose secret name is only that of a
    group around it is not redacted: [secret_group_in_clear].) *)
Theorem log_secrets_redacted enabled calls calls' s r :
  Forall2 alike_call calls calls' →
  logged enabled calls s = logged enabled calls' s ∧
  handleAdminLogs r (Some (logged enabled calls s)) = handleAdminLogs r (Some (logged enabled calls' s)) ∧
  ∀ ticks ticks', Forall2 (Forall2 alike_call) ticks ticks' →
    handleAdminLogsStream r true (Some s) (map (λ cs, logged enabled cs s) ticks) =
    handleAdminLogsStream r true (Some s) (map (λ cs, logged enabled cs s) ticks').
Proof.
  assert (E : ∀ cs cs' s, Forall2 alike_call cs cs' → logged enabled cs s = logged enabled cs' s).
  { clear. intros cs cs' s H. revert s. induction H as [|c c' cs cs' Hc _ IH]; intros s; [done|]. cbn.
    unfold logged in IH. rewrite IH. f_equal. unfold log_call. destruct Hc as (H1 & H2 & H3 & H4 & H5 & H6).
    rewrite H4. case_match; [|done]. unfold Handle. by rewrite (captured_alike c c'). }
  intros H. split_and!; [by apply E|by rewrite (E _ _ s H)|]. intros ticks ticks' Ht. f_equal.
  induction Ht as [|cs cs' ticks ticks' Hc _ IH]; [done|]. cbn. by rewrite IH, (E _ _ s Hc).
Qed.

(** ** The query *)

Lemma digit_not_plus d : 0 <= d < 10 → digit_char d ≠ Ascii.ascii_of_nat 43.
Proof.
  intros Hd H. apply (f_equal byte_of) in H. rewrite byte_digit in H by done. change (byte_of (Ascii.ascii_of_nat 43)) with 43 in H.
  lia.
Qed.

Lemma itoa_no_plus fuel : ∀ n s, no_sep (Ascii.ascii_of_nat 43) s → no_sep (Ascii.ascii_of_nat 43) (itoa_loop fuel n s).
Proof.
  induction fuel as [|fuel IH]; intros n s Hs; [done|]. cbn [itoa_loop].
  pose proof (Z.mod_pos_bound n 10 ltac:(lia)).
  case_match; [|apply IH]; (split; [by apply digit_not_plus|done]).
Qed.

Lemma rank_above base l : no_sep (Ascii.ascii_of_nat 43) base → base ≠ "" → 0 < l →
  recordLevelRank (level_name base l) = recordLevelRank (base +:+ "+").
Proof.
  intros Hb Hne Hl. unfold level_name. destruct (Z.eqb_spec l 0); [lia|]. destruct (Z.ltb_spec 0 l); [|lia].
  unfold recordLevelRank, before_sep. change "+" with (String (Ascii.ascii_of_nat 43) "").
  change (String (Ascii.ascii_of_nat 43) "" +:+ Itoa l) with (String (Ascii.ascii_of_nat 43) (Itoa l)).
  rewrite !cut_app by done. by destruct base.
Qed.

Lemma rank_below l : l < 0 → recordLevelRank (level_name "DEBUG" l) = -4.
Proof.
  intros Hl. unfold level_name. destruct (Z.eqb_spec l 0); [lia|]. destruct (Z.ltb_spec 0 l); [lia|].
  unfold Itoa. destruct (Z.ltb_spec l 0); [|lia]. unfold recordLevelRank, before_sep.
  rewrite (cut_none (Ascii.ascii_of_nat 43)).
  2: { do 6 (split; [discriminate|]). by apply itoa_no_plus. }
  change (String "-" (itoa_loop 20 (- l) "")) with (String (Ascii.ascii_of_nat 45) (itoa_loop 20 (- l) "")).
  rewrite cut_app by (cbn; repeat (split; [discriminate|]); done). done.
Qed.

(** The rank of a record is that of the highest named level it reaches. *)
Lemma record_rank l :
  recordLevelRank (Level_String l) = if l <? 0 then -4 else if l <? 4 then 0 else if l <? 8 then 4 else 8.
Proof.
  assert (H : ∀ base d, no_sep (Ascii.ascii_of_nat 43) base → base ≠ "" → 0 <= d →
    recordLevelRank (base +:+ "+") = recordLevelRank base → recordLevelRank (level_name base d) = recordLevelRank base).
  { intros base d Hb Hne Hd E. destruct (decide (d = 0)) as [->|]; [done|]. rewrite rank_above by (done || lia). done. }
  unfold Level_String, LevelInfo, LevelDebug, LevelWarn, LevelError.
  destruct (Z.ltb_spec l 0); [destruct (decide (l < -4)); [apply rank_below; lia|]|destruct (Z.ltb_spec l 4); [|destruct (Z.ltb_spec l 8)]];
    rewrite H; first [done|lia|cbn; repeat (split; [discriminate|]); done].
Qed.

(** What the filter asks for. *)
Definition selected (f : logFilter) (rec : LogRecord) : Prop :=
  lf_minLevel f <= recordLevelRank (Log_Level rec) ∧
  (∀ key want, lf_attrMatch f !! key = Some want → ∃ got, Log_Attrs rec !! key = Some got ∧ attrString got = want) ∧
  (lf_since f ≠ 0 → lf_since f <= Log_Time rec) ∧ (lf_until f ≠ 0 → Log_Time rec < lf_until f).

Lemma attrs_match_spec want attrs :
  attrs_match want attrs = true ↔ ∀ key w, want !! key = Some w → ∃ got, attrs !! key = Some got ∧ attrString got = w.
Proof.
  unfold attrs_match. rewrite forallb_forall. split.
  - intros H key w Hk. apply elem_of_map_to_list in Hk. specialize (H (key, w) (proj1 (list_elem_of_In _ _) Hk)). cbn in H.
    destruct (attrs !! key) as [got|]; [|done]. apply String.eqb_eq in H. by eauto.
  - intros H [key w] Hk. apply list_elem_of_In, elem_of_map_to_list in Hk. destruct (H _ _ Hk) as (got & -> & <-).
    by apply String.eqb_eq.
Qed.

Lemma log_matches_selected f rec : log_matches f rec = true ↔ selected f rec.
Proof.
  unfold log_matches, selected, IsZero, Before. rewrite <- attrs_match_spec.
  destruct (Z.ltb_spec (recordLevelRank (Log_Level rec)) (lf_minLevel f)); [split; [done|lia]|].
  destruct (attrs_match _ _); cbn [negb]; [|naive_solver].
  destruct (Z.eqb_spec (lf_since f) 0), (Z.ltb_spec (Log_Time rec) (lf_since f)); cbn [negb andb]; try (naive_solver lia);
  destruct (Z.eqb_spec (lf_until f) 0), (Z.ltb_spec (Log_Time rec) (lf_until f)); cbn [negb andb]; naive_solver lia.
Qed.

#[export] Instance log_newer_order : StrictWeakOrder log_newer.
Proof. apply (rank_order_desc LE_Time). Qed.

(** The floors a request can set. *)
Lemma rank_floor m l : m ∈ [0; 4; 8] → m <= recordLevelRank (Level_String l) ↔ m <= l.
Proof.
  rewrite record_rank, !elem_of_cons. intros Hm.
  destruct (Z.ltb_spec l 0), (Z.ltb_spec l 4), (Z.ltb_spec l 8); destruct Hm as [->|[->|[->|Hm]]]; try lia; by apply elem_of_nil in Hm.
Qed.

Lemma levelRank_values name : levelRank name ∈ [-8; -4; 0; 4; 8].
Proof. unfold levelRank. repeat case_match; set_solver. Qed.

Lemma parsed_floor r : 0 <= lf_minLevel (parseLogFilter r) → lf_minLevel (parseLogFilter r) ∈ [0; 4; 8].
Proof.
  cbn. pose proof (levelRank_values (r_Query r "level")) as Hl. rewrite !elem_of_cons in *.
  change defaultMinLevelRank with 4. repeat case_match; zbool; intros; naive_solver lia.
Qed.

(** The query returns the retained records that match, newest first: it answers the
    page of a list that holds exactly the records among the last [cap] logged that
    satisfy every filter given, ordered by time, the latest first, and in the order
    they were logged where the times are equal. A level floor of info or above selects
    exactly the records logged at that severity or higher. *)
Theorem log_query_exact {S} `{!LogSource S} r (src : S) rs :
  ls_log src rs →
  let f := parseLogFilter r in
  ∃ views, handleAdminLogs r (Some src) =
    writeList (map RLog views) (parsePageParams r).1 (parsePageParams r).2 ∧
    (∀ v, v ∈ views ↔ ∃ rec, rec ∈ lastn (ls_cap src) rs ∧ selected f rec ∧ v = toLogEntryView rec) ∧
    length views = length (List.filter (log_matches f) (lastn (ls_cap src) rs)) ∧
    StronglySorted (λ a b, LE_Time b <= LE_Time a) views ∧
    (∀ t, filter (λ v, LE_Time v = t) views =
          filter (λ v, LE_Time v = t) (map toLogEntryView (List.filter (log_matches f) (lastn (ls_cap src) rs)))) ∧
    (∀ l, 0 <= lf_minLevel f → lf_minLevel f <= recordLevelRank (Level_String l) ↔ lf_minLevel f <= l).
Proof.
  intros Hl f. set (views := SliceStable log_newer (map toLogEntryView (List.filter (log_matches f) (lastn (ls_cap src) rs)))).
  exists views. split.
  { unfold handleAdminLogs. rewrite (Snapshot_log _ _ Hl). by destruct (parsePageParams r). }
  split_and!.
  - intros v. unfold views. rewrite SliceStable_perm, list_elem_of_In, in_map_iff.
    setoid_rewrite filter_In. setoid_rewrite <- list_elem_of_In. setoid_rewrite log_matches_selected. naive_solver.
  - unfold views. by rewrite SliceStable_length, length_map.
  - eapply StronglySorted_weaken; [|apply (SliceStable_sorted log_newer)].
    intros a b. unfold le, log_newer, After. intros H%Z.ltb_ge. done.
  - intros t. apply (SliceStable_filter log_newer). intros a b Ha. unfold log_newer, After. intros Hb. zbool. lia.
  - intros l H0. by apply rank_floor, parsed_floor.
Qed.

(** ** Witnesses *)

Definition demo_calls (msgs : list string) : list (ringHandler * slogRecord) :=
  map (λ m, (WithGroup "req" newRingHandler, mkRecord (Unix 5) LevelError "m" [Group "auth" [Leaf "Token" (VStr m)]])) msgs.
Definition demo_stream_req : Request := mkRequest "GET" "/v1/admin/logs/stream" (λ _, "") (λ _, "") (λ _, "") (λ _, None).

Definition demo_rec (n : Z) : logRecord := mkLogRecord n LevelWarn (Itoa n) ∅.
Definition demo_ring (rs : list logRecord) : logRing := fold_left (λ r x, ring_append x r) rs (newLogRing 2).

Lemma ring_refines_window_witness :
  ring_Snapshot (demo_ring (map demo_rec [1; 2; 3; 4; 5])) = map demo_rec [4; 5].
Proof.
  pose proof (ring_refines_window 2 (map demo_rec [1; 2; 3; 4; 5]) ltac:(cbn; lia)) as H.
  cbv zeta in H. exact (proj1 H).
Defined.

Lemma demo_source rs : Z.of_nat (length rs) < 2 ^ 63 → source_log (Some (demo_ring rs)) (mapLogRecords rs).
Proof.
  intros Hb. pose proof (ring_of_appends 2 rs ltac:(lia) Hb) as Hr. fold (demo_ring rs) in Hr. cbn.
  pose proof (ro_cap _ _ Hr). destruct (Z.eqb_spec (r_cap (demo_ring rs)) 0); [lia|]. by exists rs.
Qed.

Lemma live_tail_exact_witness :
  frames (handleAdminLogsStream demo_stream_req true (Some (Some (demo_ring (map demo_rec [1; 2; 3]))))
    [Some (demo_ring (map demo_rec [1; 2; 3; 4; 5])); Some (demo_ring (map demo_rec [1; 2; 3; 4; 5]));
     Some (demo_ring (map demo_rec [1; 2; 3; 4; 5; 6]))])
  = map (λ n, toLogEntryView (mapLogRecord (demo_rec n))) [4; 5; 6].
Proof.
  destruct (live_tail_exact demo_stream_req (Some (demo_ring (map demo_rec [1; 2; 3])))
    (mapLogRecords (map demo_rec [1; 2; 3]))
    [Some (demo_ring (map demo_rec [1; 2; 3; 4; 5])); Some (demo_ring (map demo_rec [1; 2; 3; 4; 5]));
     Some (demo_ring (map demo_rec [1; 2; 3; 4; 5; 6]))]
    [mapLogRecords (map demo_rec [4; 5]); []; mapLogRecords (map demo_rec [6])]) as [_ H].
  - apply demo_source. cbn. lia.
  - apply tail_cons; [apply (demo_source (map demo_rec [1; 2; 3; 4; 5])); cbn; lia|reflexivity|].
    apply tail_cons; [apply (demo_source (map demo_rec [1; 2; 3; 4; 5])); cbn; lia|reflexivity|].
    apply tail_cons; [apply (demo_source (map demo_rec [1; 2; 3; 4; 5; 6])); cbn; lia|reflexivity|apply tail_nil].
  - rewrite H; [vm_compute; reflexivity|]. repeat constructor.
Defined.

Lemma log_secrets_redacted_witness :
  logged (λ _, true) (demo_calls ["hunter2"]) (Some (newLogRing 2)) =
  logged (λ _, true) (demo_calls ["swordfish"]) (Some (newLogRing 2)) ∧
  source_Snapshot (logged (λ _, true) (demo_calls ["hunter2"]) (Some (newLogRing 2))) =
  [mkLog (Unix 5) "ERROR" "m" {["req.auth.Token" := VStr "[REDACTED]"]}].
Proof.
  split; [|vm_compute; reflexivity].
  apply (log_secrets_redacted (λ _, true) (demo_calls ["hunter2"]) (demo_calls ["swordfish"]) (Some (newLogRing 2))
    demo_stream_req).
  repeat constructor.
Defined.

Lemma log_query_exact_witness :
  ∃ views, handleAdminLogs demo_stream_req (Some (Some (demo_ring (map demo_rec [1; 2; 3])))) =
    writeList (map RLog views) 50 0 ∧ length views = 2%nat.
Proof.
  destruct (log_query_exact demo_stream_req (Some (demo_ring (map demo_rec [1; 2; 3]))) (mapLogRecords (map demo_rec [1; 2; 3])))
    as (views & E & _ & Hn & _).
  - apply demo_source. cbn. lia.
  - exists views. split; [exact E|]. rewrite Hn. vm_compute. reflexivity.
Defined.
