(* ===== verification/UsageApi.v ===== *)
(** * UsageApi.v: the usage report

    GET /v1/admin/usage (httpapi/admin_usage.go): for every key its consumption
    against its limits, its daily series and the forecast, as a page of rows or as a
    CSV export.

    [sort.Slice] is the parameter [sortRows]; the CSV writer's quoting is that of
    encoding/csv, so a record is the list of its fields. *)

From S2P Require Import Prelude Errors GoTime GoStrings GoConv GoHeap GoSort Types Store Authz Auth AuditLog Quota UsageSeries Forecast History Session Server Http HttpServer AdminApi.
Open Scope Z_scope.

Definition usageKeyMatches (k : APIKey) (keyID owner team : string) : bool :=
  if negb (String.eqb keyID "") && negb (String.eqb (APIKey_ID k) keyID) then false
  else if negb (String.eqb owner "") && negb (String.eqb (APIKey_Owner k) owner) then false
  else if negb (String.eqb team "") && negb (String.eqb (APIKey_Team k) team) then false
  else true.

(** [usageSeries] is [None] when no series store is wired. *)
Definition newUsageRow (usageSeries : option UStore) (k : APIKey) (snap : Snapshot) (now : Time) : adminUsageRow :=
  let '(series, daily, monthly) :=
    match usageSeries with
    | None => ([], None, None)
    | Some store =>
        let series := SeriesForKey (APIKey_ID k) store in
        let f := Project series (Snapshot_Limits snap) snap now in
        (map (λ p, (Time_Unix (Sample_Day p), Sample_Tokens p, Sample_Requests p)) series,
         Time_Unix <$> DailyExhaustionAt f, Time_Unix <$> MonthlyExhaustionAt f)
    end in
  mkUsageRow (APIKey_ID k) (APIKey_Name k) (APIKey_Owner k) (APIKey_Team k) (limits_view (Snapshot_Limits snap))
    (RequestsThisMinute snap) (TokensThisMinute snap) (TokensToday snap) (TokensThisMonth snap)
    (Time_Unix (MinuteResetsAt snap)) (Time_Unix (DayResetsAt snap)) (Time_Unix (MonthResetsAt snap))
    series daily monthly.

Definition usageCSVHeader : list string :=
  ["key_id"; "name"; "owner"; "team"; "rpm_limit"; "tpm_limit"; "daily_tokens_limit"; "monthly_tokens_limit";
   "requests_this_minute"; "tokens_this_minute"; "tokens_today"; "tokens_this_month"; "daily_exhaustion_at";
   "monthly_exhaustion_at"].
Definition formatUnixPtr (p : option Z) : string := match p with None => "" | Some n => Itoa n end.
Definition usageCSVRecord (row : adminUsageRow) : list string :=
  [UR_KeyID row; UR_Name row; UR_Owner row; UR_Team row;
   Itoa (LV_RPM (UR_Limits row)); Itoa (LV_TPM (UR_Limits row)); Itoa (LV_DailyTokens (UR_Limits row));
   Itoa (LV_MonthlyTokens (UR_Limits row)); Itoa (UR_RequestsThisMinute row); Itoa (UR_TokensThisMinute row);
   Itoa (UR_TokensToday row); Itoa (UR_TokensThisMonth row); formatUnixPtr (UR_DailyExhaustionAt row);
   formatUnixPtr (UR_MonthlyExhaustionAt row)].

Definition dquote : string := String (Ascii.ascii_of_nat 34) "".
Definition writeUsageCSV (rows : list adminUsageRow) : list wact :=
  [SetHeader "Content-Type" "text/csv; charset=utf-8";
   SetHeader "Content-Disposition" ("attachment; filename=" +:+ dquote +:+ "usage.csv" +:+ dquote);
   WriteHeader StatusOK; Write (PCsv (usageCSVHeader :: map usageCSVRecord rows))].

Section usage.
Context {KS CS SS : Type} `{!KeyStore KS} `{!CounterStore CS} `{!SessionStore SS}.
Context (sortRows : list adminUsageRow → list adminUsageRow).
Notation hserver := (HServer KS CS SS).

(** The loop over the keys; the [i]-th snapshot reads the clock as [clock i]. *)
Fixpoint usage_rows (usageSeries : option UStore) (now : Time) (clock : nat → Time) (i : nat) (keys : list APIKey)
    (q : Engine CS) : Engine CS * result (list adminUsageRow) :=
  match keys with
  | [] => (q, Ok [])
  | k :: keys =>
      match UsageForKey (clock i) k q with
      | (q, Err e) => (q, Err e)
      | (q, Ok snap) =>
          match usage_rows usageSeries now clock (S i) keys q with
          | (q, Err e) => (q, Err e)
          | (q, Ok rows) => (q, Ok (newUsageRow usageSeries k snap now :: rows))
          end
      end
  end.

Definition handleAdminUsage (enabled : bool) (usageSeries : option UStore) (now : Time) (clock : nat → Time) (r : Request)
    (s : hserver) : hserver * list wact :=
  if negb enabled then (s, writeError StatusNotImplemented "not_implemented" "quota is not enabled")
  else
    let keys := List.filter (λ k, usageKeyMatches k (r_Query r "key_id") (r_Query r "owner") (r_Query r "team"))
                  (Auth.List (h_auth s)) in
    let '(q, res) := usage_rows usageSeries now clock 0 keys (s_quota (h_ctl s)) in
    let s := set_ctl (set_quota q (h_ctl s)) s in
    match res with
    | Err _ => (s, writeError StatusInternalServerError "internal_error" "could not read usage")
    | Ok rows =>
        let rows := sortRows rows in
        if String.eqb (r_Query r "format") "csv" then (s, writeUsageCSV rows)
        else
          let '(limit, offset) := parsePageParams r in
          let '(page, next) := paginate rows limit offset in
          (s, writeJSON StatusOK (PUsage (Z.of_nat (length rows)) (h_globalThrottled s) (h_keyThrottled s) page next))
    end.
End usage.

(** ** What the report says *)

(** The snapshot of a key at an instant. *)
Definition snapshot_of {CS} `{!CounterStore CS} (k : APIKey) (t : Time) (q : Engine CS) : Snapshot :=
  let c := roll t (counters_of (Engine_cs q) (APIKey_ID k)) in
  mkSnapshot (APIKey_ID k) (effectiveLimits q k) (MinuteRequests c) (MinuteTokens c) (DayTokens c) (MonthTokens c)
    (WindowReset windowMinute t) (WindowReset windowDay t) (WindowReset windowMonth t).

Definition row_less (a b : adminUsageRow) : bool := String.ltb (UR_KeyID a) (UR_KeyID b).

(** What the handler relies on of [sort.Slice]. *)
Definition sorts_rows (sortRows : list adminUsageRow → list adminUsageRow) : Prop :=
  ∀ l, sortRows l ≡ₚ l ∧ StronglySorted (λ a b, String.le (UR_KeyID a) (UR_KeyID b)) (sortRows l).

Section report.
Context {KS CS SS : Type} `{!KeyStore KS} `{!CounterStore CS} `{!SessionStore SS}.

Lemma UsageForKey_snapshot t k (q : Engine CS) :
  let '(q', r) := UsageForKey t k q in
  r = Ok (snapshot_of k t q) ∧ (Engine_defaults q', Engine_global q') = (Engine_defaults q, Engine_global q) ∧
  ∀ id, counters_of (Engine_cs q') id =
        if decide (id = APIKey_ID k) then roll t (counters_of (Engine_cs q) id) else counters_of (Engine_cs q) id.
Proof.
  unfold UsageForKey, Usage, UTC. pose proof (Quota.Get_spec (APIKey_ID k) t (Engine_cs q)) as Hg.
  destruct (Quota.Get _ _ _) as [cs r]. destruct Hg as [-> Hc]. split_and!; [done..|]. intros id. cbn. rewrite Hc.
  by case_decide; subst.
Qed.

(** Reading one key's usage does not show in another's. *)
Lemma snapshot_other t t' k k' (q q' : Engine CS) :
  APIKey_ID k ≠ APIKey_ID k' → (Engine_defaults q', Engine_global q') = (Engine_defaults q, Engine_global q) →
  (∀ id, counters_of (Engine_cs q') id =
        if decide (id = APIKey_ID k) then roll t (counters_of (Engine_cs q) id) else counters_of (Engine_cs q) id) →
  snapshot_of k' t' q' = snapshot_of k' t' q.
Proof.
  intros Hne [= Hd Hg] Hc. unfold snapshot_of, effectiveLimits. rewrite Hc, decide_False by congruence. by rewrite Hd.
Qed.

Definition row_at (usageSeries : option UStore) (now : Time) (q : Engine CS) (k : APIKey) (t : Time) : adminUsageRow :=
  newUsageRow usageSeries k (snapshot_of k t q) now.

Lemma usage_rows_exact usageSeries now clock keys : ∀ i (q : Engine CS),
  NoDup (map APIKey_ID keys) →
  ∃ q', usage_rows usageSeries now clock i keys q =
          (q', Ok (imap (λ j k, row_at usageSeries now q k (clock (i + j)%nat)) keys)) ∧
    (Engine_defaults q', Engine_global q') = (Engine_defaults q, Engine_global q) ∧
    ∀ id, counters_of (Engine_cs q') id = counters_of (Engine_cs q) id ∨
          ∃ t, id ∈ map APIKey_ID keys ∧ counters_of (Engine_cs q') id = roll t (counters_of (Engine_cs q) id).
Proof.
  induction keys as [|k keys IH]; intros i q Hnd; [exists q; cbn; auto|].
  apply NoDup_cons in Hnd as [Hk Hnd]. cbn [usage_rows]. pose proof (UsageForKey_snapshot (clock i) k q) as Hu.
  destruct (UsageForKey (clock i) k q) as [q1 r]. destruct Hu as (-> & Hd & Hc).
  destruct (IH (S i) q1 Hnd) as (q' & -> & Hd' & Hc'). exists q'. split; [|split; [congruence|]].
  - assert (E : imap (λ j k, row_at usageSeries now q1 k (clock (S i + j)%nat)) keys =
                imap ((λ j k, row_at usageSeries now q k (clock (i + j)%nat)) ∘ S) keys).
    { apply imap_ext. intros j k' Hj. unfold compose, row_at. rewrite Nat.add_succ_comm.
      rewrite (snapshot_other (clock i) _ k k' q q1); [done| |done|done].
      intros E. apply Hk. rewrite E. apply list_elem_of_fmap. exists k'. split; [done|]. by eapply list_elem_of_lookup_2. }
    rewrite E, imap_cons, Nat.add_0_r. reflexivity.
  - intros id. destruct (Hc' id) as [->|(t & Hin & ->)]; rewrite Hc; case_decide as E; [|by auto| |].
    + subst. right. eexists. split; [left|done].
    + subst. done.
    + right. exists t. split; [by right|done].
Qed.

Lemma imap_rows usageSeries now clock (q : Engine CS) keys row i :
  imap (λ j k, row_at usageSeries now q k (clock j)) keys !! i = Some row →
  ∃ k, keys !! i = Some k ∧ row = row_at usageSeries now q k (clock i).
Proof. rewrite list_lookup_imap, fmap_Some. naive_solver. Qed.

Lemma row_key usageSeries now (q : Engine CS) k t : UR_KeyID (row_at usageSeries now q k t) = APIKey_ID k.
Proof. unfold row_at, newUsageRow. by destruct usageSeries. Qed.

Lemma imap_ids usageSeries now clock (q : Engine CS) keys :
  map UR_KeyID (imap (λ j k, row_at usageSeries now q k (clock j)) keys) = map APIKey_ID keys.
Proof.
  apply list_eq. intros i. rewrite !list_lookup_fmap, list_lookup_imap. destruct (keys !! i); [|done]. cbn. by rewrite row_key.
Qed.

Lemma filtered_ids (P : APIKey → bool) (a : @Service KS) :
  keyed (keys_of (Service_store a)) → NoDup (map APIKey_ID (List.filter P (Auth.List a))).
Proof.
  intros Hk. assert (Hn : NoDup (map APIKey_ID (Auth.List a))).
  { unfold Auth.List. rewrite ListAPIKeys_spec, (filed_keys APIKey_ID) by done. apply NoDup_fst_map_to_list. }
  induction (Auth.List a) as [|k l IH]; [constructor|]. cbn in *. apply NoDup_cons in Hn as [Hi Hn].
  destruct (P k); [|by auto]. cbn. constructor; [|by auto]. intros (k' & E & H)%list_elem_of_fmap. apply Hi.
  rewrite E. apply list_elem_of_fmap. exists k'. split; [done|]. apply list_elem_of_In in H. apply filter_In in H as [H _].
  by apply list_elem_of_In.
Qed.

(** The keys a report covers. *)
Definition reported (r : Request) (s : HServer KS CS SS) (k : APIKey) : Prop :=
  keys_of (Service_store (h_auth s)) !! APIKey_ID k = Some k ∧
  (r_Query r "key_id" ≠ "" → APIKey_ID k = r_Query r "key_id") ∧
  (r_Query r "owner" ≠ "" → APIKey_Owner k = r_Query r "owner") ∧
  (r_Query r "team" ≠ "" → APIKey_Team k = r_Query r "team").

Lemma usageKeyMatches_spec k a b c :
  usageKeyMatches k a b c = true ↔
  (a ≠ "" → APIKey_ID k = a) ∧ (b ≠ "" → APIKey_Owner k = b) ∧ (c ≠ "" → APIKey_Team k = c).
Proof.
  unfold usageKeyMatches.
  destruct (String.eqb_spec a ""), (String.eqb_spec (APIKey_ID k) a), (String.eqb_spec b ""), (String.eqb_spec (APIKey_Owner k) b),
    (String.eqb_spec c ""), (String.eqb_spec (APIKey_Team k) c); cbn; naive_solver.
Qed.

(** The report is exact. With the keys filed under their ids, the report answers 200
    from one list of rows: one row for each stored key that satisfies every filter and
    none other, in increasing order of id; each row shows the key's own limits and the
    counters of its windows at the instant it was read, whatever was read before it,
    with its series and forecast. The page is cut from that list and the CSV export
    holds all of it, fourteen fields a row. Nothing but the expiry of windows is
    changed. *)
Theorem usage_report_exact sortRows usageSeries now clock r (s : HServer KS CS SS) :
  sorts_rows sortRows → keyed (keys_of (Service_store (h_auth s))) →
  ∃ rows s', handleAdminUsage sortRows true usageSeries now clock r s =
      (s', if String.eqb (r_Query r "format") "csv" then writeUsageCSV rows
           else let '(page, next) := paginate rows (parsePageParams r).1 (parsePageParams r).2 in
                writeJSON StatusOK (PUsage (Z.of_nat (length rows)) (h_globalThrottled s) (h_keyThrottled s) page next)) ∧
    (∀ row, row ∈ rows → ∃ k i, reported r s k ∧ row = row_at usageSeries now (s_quota (h_ctl s)) k (clock i)) ∧
    (∀ k, reported r s k → ∃ i, row_at usageSeries now (s_quota (h_ctl s)) k (clock i) ∈ rows) ∧
    NoDup (map UR_KeyID rows) ∧ StronglySorted (λ a b, String.le (UR_KeyID a) (UR_KeyID b)) rows ∧
    Forall (λ rec, length rec = length usageCSVHeader) (map usageCSVRecord rows) ∧
    (∀ id, let c := counters_of (Engine_cs (s_quota (h_ctl s))) id in
           let c' := counters_of (Engine_cs (s_quota (h_ctl s'))) id in c' = c ∨ ∃ t, c' = roll t c).
Proof.
  intros Hsort Hkeyed. unfold handleAdminUsage. cbn [negb].
  set (keys := List.filter _ (Auth.List (h_auth s))).
  assert (Hin : ∀ k, k ∈ keys ↔ reported r s k).
  { intros k. unfold keys. rewrite list_elem_of_In, filter_In, <- list_elem_of_In. unfold Auth.List.
    rewrite ListAPIKeys_spec, list_elem_of_fmap, usageKeyMatches_spec. unfold reported. split.
    - intros [([id k'] & -> & H%elem_of_map_to_list) ?]. cbn in *.
      pose proof (Hkeyed _ _ H) as E. split; [congruence|done].
    - intros [H ?]. split; [|done]. exists (APIKey_ID k, k). split; [done|]. by apply elem_of_map_to_list. }
  assert (Hnd : NoDup (map APIKey_ID keys)) by (by apply filtered_ids).
  destruct (usage_rows_exact usageSeries now clock keys 0 (s_quota (h_ctl s)) Hnd) as (q & -> & _ & Hc).
  set (rows := imap _ keys). destruct (Hsort rows) as [Hp Hs]. exists (sortRows rows).
  exists (set_ctl (set_quota q (h_ctl s)) s). split; [|split_and!].
  - case_match; [done|]. destruct (parsePageParams r) as [limit offset]. cbn. by destruct (paginate _ _ _).
  - intros row. rewrite Hp. intros [i Hi]%list_elem_of_lookup. apply imap_rows in Hi as (k & Hk & ->).
    exists k, i. split; [|done]. apply Hin. by eapply list_elem_of_lookup_2.
  - intros k Hk%Hin. apply list_elem_of_lookup in Hk as [i Hi]. exists i. rewrite Hp.
    apply list_elem_of_lookup. exists i. unfold rows. rewrite list_lookup_imap, Hi. done.
  - rewrite Hp. unfold rows. rewrite (imap_ids usageSeries now clock). done.
  - done.
  - apply Forall_forall. intros rec Hrec. apply list_elem_of_fmap in Hrec as (row & -> & _). done.
  - intros id. cbn. destruct (Hc id) as [->|(t & _ & ->)]; eauto.
Qed.
End report.

(** ** Witness *)

#[local] Instance usage_demo_keys : KeyStore Memory := Memory_KeyStore Auth.demo_range (Hrange := Auth.demo_range_ok).
#[local] Instance usage_demo_sess : SessionStore MemorySessionStore := MSS_SessionStore demo_sessions demo_sessions_ok.
Definition demo_usage_req : Request := mkRequest "GET" "/v1/admin/usage" (λ _, "") (λ _, "") (λ _, "") (λ _, None).

Lemma usage_report_exact_witness :
  ∃ rows s', handleAdminUsage (SliceStable row_less) true None 9 (λ _, 9) demo_usage_req demo_http =
    (s', let '(page, next) := paginate rows 50 0 in
         writeJSON StatusOK (PUsage (Z.of_nat (length rows)) 0 0 page next)) ∧
    ∀ row, row ∈ rows → ∃ k, reported demo_usage_req demo_http k ∧ UR_KeyID row = APIKey_ID k.
Proof.
  destruct (usage_report_exact (SliceStable row_less) None 9 (λ _, 9) demo_usage_req demo_http) as (rows & s' & E & Hr & _).
  - intros l. split; [apply SliceStable_perm|].
    eapply StronglySorted_weaken; [|apply (SliceStable_sorted row_less (StrictWeakOrder0 := string_order UR_KeyID))].
    intros a b. apply ltb_false.
  - exact demo_live_keyed.
  - exists rows, s'. split; [exact E|]. intros row Hrow. destruct (Hr row Hrow) as (k & i & Hk & ->).
    exists k. split; [exact Hk|]. reflexivity.
Defined.
