(* ===== verification/FleetApi.v ===== *)
(** * FleetApi.v: the fleet over HTTP (internal/httpapi)

    models.go (the per-key model catalog), the worker, statistics and model
    handlers of admin.go, admin_gpu.go and admin_roles.go.  [range_agg] is the order
    in which Go visits the aggregation maps. *)

From S2P Require Import Prelude Errors GoTime GoFloat GoStrings GoConv GoHeap GoSort Types Queue Store Authz Auth AuditLog Scheduler Quota History Session ServerWorker Server Http HttpServer AdminApi.
Open Scope Z_scope.

(** ** The model catalog *)

Record catalogModel := mkCatalogModel { CM_name : string; CM_Digest : string; CM_Workers : list string }.
Record agg := mkAgg { agg_digest : string; agg_workers : gset string }.
Notation aggmap := (gmap string agg).

(** One model of one online worker. *)
Definition catalog_add (id : string) (m : Model) (byName : aggmap) : aggmap :=
  let a := default (mkAgg "" ∅) (byName !! Model_Name m) in
  let digest := if String.eqb (agg_digest a) "" then Model_Digest m else agg_digest a in
  <[Model_Name m := mkAgg digest ({[ id ]} ∪ agg_workers a)]> byName.

Definition catalog_worker (byName : aggmap) (wk : Worker) : aggmap :=
  if negb (bool_decide (Worker_Status wk = WorkerOnline)) then byName
  else fold_left (λ b m, catalog_add (Worker_ID wk) m b) (Worker_Models wk) byName.

Definition aggregate (fleet : list Worker) : aggmap := fold_left catalog_worker fleet ∅.

Definition name_less (a b : catalogModel) : bool := String.ltb (CM_name a) (CM_name b).

Section catalog.
Context {KS CS SS : Type} `{!KeyStore KS} `{!CounterStore CS} `{!SessionStore SS}.
Context (range_agg : aggmap → list (string * agg)).
Notation hserver := (HServer KS CS SS).
Notation handler := (hserver → hserver * list wact).

(** The permission filter, each decision audited. *)
Definition catalog_entry (key : APIKey) (acc : hserver * list catalogModel) (p : string * agg)
    : hserver * list catalogModel :=
  let '(s, out) := acc in
  let '(rec, err) := Authorize key p.1 Infer in
  let s := set_ctl (Server.audited rec (h_ctl s)) s in
  match err with
  | Some _ => (s, out)
  | None => (s, out ++ [mkCatalogModel p.1 (agg_digest p.2) (sort_Strings (elements (agg_workers p.2)))])
  end.

Definition catalog (now : Time) (key : APIKey) (s : hserver) : hserver * list catalogModel :=
  let byName := aggregate (Fleet now (h_ctl s)) in
  let '(s, out) := fold_left (catalog_entry key) (range_agg byName) (s, []) in
  (s, SliceStable name_less out).

Definition getOnly : list wact :=
  SetHeader "Allow" "GET" :: writeError StatusMethodNotAllowed "method_not_allowed" "method not allowed".

Definition handleOpenAIModels (r : Request) (now : Time) (c : context) : handler :=
  λ s,
  if negb (String.eqb (r_Method r) "GET") then (s, getOnly)
  else match c_key c with
       | None => (s, writeError StatusUnauthorized "unauthorized" "missing api key")
       | Some key =>
           let '(s, models) := catalog now key s in
           (s, writeJSON StatusOK (PModels (map CM_name models)))
       end.

Fixpoint find_model (name : string) (models : list catalogModel) : list wact :=
  match models with
  | [] => writeError StatusNotFound "model_not_found" "model not found"
  | m :: models =>
      if String.eqb (CM_name m) name then writeJSON StatusOK (PModel (CM_name m)) else find_model name models
  end.

Definition handleOpenAIModelRetrieve (r : Request) (now : Time) (c : context) : handler :=
  λ s,
  match c_key c with
  | None => (s, writeError StatusUnauthorized "unauthorized" "missing api key")
  | Some key =>
      let '(s, models) := catalog now key s in
      (s, find_model (r_PathValue r "model") models)
  end.

Definition handleModels (r : Request) (now : Time) (c : context) : handler :=
  λ s,
  if negb (String.eqb (r_Method r) "GET") then (s, getOnly)
  else match c_key c with
       | None => (s, writeError StatusUnauthorized "unauthorized" "missing api key")
       | Some key =>
           let '(s, models) := catalog now key s in
           (s, writeJSON StatusOK (PCatalog (map (λ m, (CM_name m, CM_Digest m, CM_Workers m)) models)))
       end.
End catalog.

(** ** Workers *)

Definition model_names (wk : Worker) : list string := map Model_Name (Worker_Models wk).

Definition workerView (wk : Worker) : adminWorkerView :=
  mkWorkerView (Worker_ID wk) (model_names wk) (WorkerStatus_String (Worker_Status wk)) (Worker_ActiveJobs wk)
    (Worker_TotalVRAM wk) (Worker_FreeVRAM wk) (Worker_Load wk) (Worker_GPUType wk) (Time_Unix (Worker_LastSeen wk)).

Definition newAdminWorkerDetailView (wk : Worker) : adminWorkerDetailView :=
  let '(registered, up) :=
    if negb (IsZero (Worker_RegisteredAt wk)) then
      let up := Sub (Worker_LastSeen wk) (Worker_RegisteredAt wk) in
      (Time_Unix (Worker_RegisteredAt wk), if 0 <? up then ftrunc (Seconds up) else 0)
    else (0, 0) in
  mkWorkerDetail (workerView wk) (bool_decide (Worker_Status wk = WorkerDraining)) registered up.

Definition worker_less (a b : Worker) : bool := String.ltb (Worker_ID a) (Worker_ID b).

Definition priorityName (p : Z) : string :=
  if p =? PriorityLow then "low" else if p =? PriorityHigh then "high" else "normal".

(** ** Capacity *)

(** The aggregates of the pass over the fleet. *)
Record gpuAcc := mkGpuAcc {
  ga_total : Z; ga_free : Z; ga_load : Z; ga_max : Z; ga_byType : gmap string adminGPUByType;
  ga_cells : list adminGPUCell }.

Definition gpu_worker (a : gpuAcc) (wk : Worker) : gpuAcc :=
  let row := default (mkGPUByType (Worker_GPUType wk) 0 0 0) (ga_byType a !! Worker_GPUType wk) in
  mkGpuAcc (u64 (ga_total a + Worker_TotalVRAM wk)) (u64 (ga_free a + Worker_FreeVRAM wk))
    (u64 (ga_load a + Worker_Load wk)) (if ga_max a <? Worker_Load wk then Worker_Load wk else ga_max a)
    (<[Worker_GPUType wk := mkGPUByType (GT_GPUType row) (GT_WorkerCount row + 1)
         (u64 (GT_TotalVRAM row + Worker_TotalVRAM wk)) (u64 (GT_FreeVRAM row + Worker_FreeVRAM wk))]> (ga_byType a))
    (ga_cells a ++ [mkGPUCell (Worker_ID wk) (Worker_GPUType wk) (Worker_TotalVRAM wk) (Worker_FreeVRAM wk)
                      (Worker_Load wk) (WorkerStatus_String (Worker_Status wk)) (Worker_ActiveJobs wk)]).

Definition type_less (a b : adminGPUByType) : bool := String.ltb (GT_GPUType a) (GT_GPUType b).
Definition cell_less (a b : adminGPUCell) : bool := String.ltb (GC_ID a) (GC_ID b).

Definition aggregateGPUs (range_types : gmap string adminGPUByType → list adminGPUByType) (fleet : list Worker)
    : adminGPUsResponse :=
  let a := fold_left gpu_worker fleet (mkGpuAcc 0 0 0 0 ∅ []) in
  let n := Z.of_nat (length fleet) in
  let meanLoad := if 0 <? n then u32 (Z.quot (ga_load a) n) else 0 in
  mkGPUs (mkGPUFleet n (ga_total a) (ga_free a) meanLoad (ga_max a))
    (SliceStable type_less (range_types (ga_byType a))) (SliceStable cell_less (ga_cells a)).

(** ** Handlers *)

Definition auditOpWorkerDrain : string := "worker.drain".
Definition auditOpModelPull : string := "model.pull".
Definition auditOpModelUnload : string := "model.unload".

(** [time.Duration(n) * time.Second]: an int64 product. *)
Definition seconds_duration (n : Z) : Duration := i64 (n * Second).

Section fleet.
Context {KS CS SS : Type} `{!KeyStore KS} `{!CounterStore CS} `{!SessionStore SS}.
Notation hserver := (HServer KS CS SS).
Notation handler := (hserver → hserver * list wact).

Definition handleAdminListWorkers (r : Request) (now : Time) : handler :=
  λ s,
  let fleet := SliceStable worker_less (Fleet now (h_ctl s)) in
  let '(limit, offset) := parsePageParams r in
  (s, writeList (map (λ wk, RWorker (workerView wk)) fleet) limit offset).

Definition worker_missing : list wact := writeError StatusNotFound "not_found" "worker not found".

Definition handleAdminGetWorker (r : Request) (now : Time) : handler :=
  λ s,
  match WorkerByID now (r_PathValue r "id") (h_ctl s) with
  | None => (s, worker_missing)
  | Some wk => (s, writeJSON StatusOK (PWorker (newAdminWorkerDetailView wk)))
  end.

Definition handleAdminStats (now : Time) : handler :=
  λ s,
  let qs := QStats (s_queue (h_ctl s)) in
  let byPriority := map_fold (λ p n m, <[priorityName p := default 0 (m !! priorityName p) + n]> m) ∅
                      (Stats_ByPriority qs) in
  let workers := map (λ wk, mkStatWorker (Worker_ID wk) (Worker_ActiveJobs wk) (Worker_Load wk)
                              (WorkerStatus_String (Worker_Status wk))) (Fleet now (h_ctl s)) in
  let wt := WaitTimeStats (h_ctl s) in
  let meanMs := if 0 <? WTS_Count wt then Z.quot (WTS_SumMs wt) (WTS_Count wt) else 0 in
  (s, writeJSON StatusOK (PStats (Stats_Total qs) byPriority workers
        (mkWaitTime (WTS_Count wt) (WTS_SumMs wt) (WTS_MaxMs wt) meanMs
           (map (λ b, (LeMs b, Count b)) (WTS_Buckets wt))))).

Definition handleAdminGPUs (range_types : gmap string adminGPUByType → list adminGPUByType) (now : Time) : handler :=
  λ s, (s, writeJSON StatusOK (PGPUs (aggregateGPUs range_types (Fleet now (h_ctl s))))).

Definition handleAdminRoles : handler := λ s, (s, writeJSON StatusOK (PRoles AllRoles AllScopes)).

(** The body is [None] when malformed, [Some None] when empty.  The second component
    is the reaper a forced drain starts. *)
Definition handleAdminDrainWorker (body : option (option Z)) (r : Request) (now : Time) (c : context)
    : hserver → hserver * option (nat * Duration) * list wact :=
  λ s,
  let id := r_PathValue r "id" in
  match body with
  | None => (s, None, malformed)
  | Some req =>
      let n := default 0 req in
      if n <? 0
      then (s, None, writeError StatusBadRequest "invalid_request_error" "deadline_seconds must be >= 0")
      else
        let deadline := seconds_duration n in
        let '(ctl, reaper, err) := DrainWorkerWithDeadline id deadline (h_ctl s) in
        let s := set_ctl ctl s in
        match err with
        | Some err =>
            (recordAudit now c auditOpWorkerDrain id OutcomeFailure None None s, reaper,
             if errors_Is err ErrWorkerNotFound then worker_missing
             else writeError StatusInternalServerError "internal_error" "could not drain worker")
        | None =>
            let after := {[ "status" := AStr "draining" ]} in
            let after := if 0 <? deadline then <["deadline_seconds" := AInt n]> after else after in
            (recordAudit now c auditOpWorkerDrain id OutcomeSuccess None (Some after) s, reaper,
             [WriteHeader StatusNoContent])
        end
  end.

(** The tail of the two model handlers; [None] is a handler still blocked on the
    worker's channel. *)
Definition finish_model (op id model failed : string) (status : Z) (now : Time) (c : context)
    (res : option (Server CS SS * option error)) (s : hserver) : option (hserver * list wact) :=
  let target := id +:+ "/" +:+ model in
  match res with
  | None => None
  | Some (ctl, Some err) =>
      Some (recordAudit now c op target OutcomeFailure None None (set_ctl ctl s),
            if errors_Is err ErrWorkerNotFound then worker_missing
            else writeError StatusInternalServerError "internal_error" failed)
  | Some (ctl, None) =>
      Some (recordAudit now c op target OutcomeSuccess None
              (Some {[ "worker" := AStr id; "model" := AStr model ]}) (set_ctl ctl s), [WriteHeader status])
  end.

Definition handleAdminPullModel (body : option string) (ctxDone takeDone : bool) (r : Request) (now : Time)
    (c : context) (s : hserver) : option (hserver * list wact) :=
  let id := r_PathValue r "id" in
  match body with
  | None => Some (s, malformed)
  | Some model =>
      if String.eqb model ""
      then Some (s, writeError StatusBadRequest "invalid_request_error" "model is required")
      else finish_model auditOpModelPull id model "could not pull model" StatusAccepted now c
             (AdminPullModel ctxDone takeDone id model (h_ctl s)) s
  end.

Definition handleAdminUnloadModel (ctxDone takeDone : bool) (r : Request) (now : Time) (c : context) (s : hserver)
    : option (hserver * list wact) :=
  let id := r_PathValue r "id" in
  let model := r_PathValue r "model" in
  finish_model auditOpModelUnload id model "could not unload model" StatusNoContent now c
    (AdminUnloadModel ctxDone takeDone id model (h_ctl s)) s.
End fleet.

(** ** The catalog lists exactly what the key may use *)

(** An online worker [id] of the fleet has a model of that name and digest. *)
Definition offers (fleet : list Worker) (name id digest : string) : Prop :=
  ∃ wk m, wk ∈ fleet ∧ Worker_Status wk = WorkerOnline ∧ Worker_ID wk = id ∧
    m ∈ Worker_Models wk ∧ Model_Name m = name ∧ Model_Digest m = digest.

(** The aggregation of the offers [O] seen so far. *)
Definition aggregates (O : string → string → string → Prop) (b : aggmap) : Prop :=
  (∀ name a, b !! name = Some a →
     (∀ id, id ∈ agg_workers a ↔ ∃ d, O name id d) ∧ (∃ id, O name id (agg_digest a)) ∧
     (agg_digest a = "" → ∀ id d, O name id d → d = "")) ∧
  (∀ name id d, O name id d → is_Some (b !! name)).

Lemma catalog_add_aggregates O b id m :
  aggregates O b →
  aggregates (λ n i d, O n i d ∨ (n = Model_Name m ∧ i = id ∧ d = Model_Digest m)) (catalog_add id m b).
Proof.
  intros [H1 H2]. unfold catalog_add. split.
  - intros name a. destruct (decide (name = Model_Name m)) as [->|Hne].
    2:{ rewrite lookup_insert_ne by done. intros Hb. destruct (H1 _ _ Hb) as (Ha & Hb' & Hc).
        split_and!; [intros i; rewrite Ha; naive_solver|naive_solver|naive_solver]. }
    rewrite lookup_insert_eq. intros [= <-]. cbn. destruct (b !! Model_Name m) as [a|] eqn:E; cbn.
    + destruct (H1 _ _ E) as (Ha & (i0 & Hb') & Hc). split_and!.
      * intros i. rewrite elem_of_union, elem_of_singleton, Ha. naive_solver.
      * destruct (String.eqb_spec (agg_digest a) ""); [exists id; by right|exists i0; by left].
      * destruct (String.eqb_spec (agg_digest a) "") as [E'|E']; [|done]. intros Hd i d [Ho|(_ & _ & ->)]; [by apply (Hc E' i)|done].
    + split_and!.
      * intros i. rewrite union_empty_r_L, elem_of_singleton. split; [intros ->; exists (Model_Digest m); by right|].
        intros [d [Ho|(_ & -> & _)]]; [|done]. destruct (H2 _ _ _ Ho) as [x Hx]. congruence.
      * exists id. by right.
      * intros Hd i d [Ho|(_ & _ & ->)]; [|done]. destruct (H2 _ _ _ Ho) as [x Hx]. congruence.
  - intros name i d [Ho|(-> & _)]; [|rewrite lookup_insert_eq; by eexists].
    destruct (decide (name = Model_Name m)) as [->|Hne]; [rewrite lookup_insert_eq; by eexists|].
    rewrite lookup_insert_ne by done. by eapply H2.
Qed.

Lemma aggregates_ext O O' b : (∀ n i d, O n i d ↔ O' n i d) → aggregates O b → aggregates O' b.
Proof.
  intros E [H1 H2]. split; [|intros n i d Ho; apply E in Ho; eauto]. intros n a Ha.
  destruct (H1 n a Ha) as (A & (i & B) & C). split_and!.
  - intros j. rewrite A. by setoid_rewrite E.
  - exists i. by apply E.
  - intros Hd j d Ho. apply E in Ho. eauto.
Qed.

Lemma offers_snoc l wk n i d :
  offers (l ++ [wk]) n i d ↔ offers l n i d ∨
    (Worker_Status wk = WorkerOnline ∧ i = Worker_ID wk ∧
     ∃ m, m ∈ Worker_Models wk ∧ Model_Name m = n ∧ Model_Digest m = d).
Proof.
  unfold offers. split.
  - intros (w & m & Hin & H). apply elem_of_app in Hin as [Hin|Hin]; [left; by exists w, m|right].
    apply list_elem_of_singleton in Hin as ->. naive_solver.
  - intros [(w & m & Hin & H)|(H1 & -> & m & H2)].
    + exists w, m. split; [apply elem_of_app; by left|done].
    + exists wk, m. split; [apply elem_of_app; right; by apply list_elem_of_singleton|naive_solver].
Qed.

Lemma catalog_worker_aggregates l b wk :
  aggregates (offers l) b → aggregates (offers (l ++ [wk])) (catalog_worker b wk).
Proof.
  intros Hb. unfold catalog_worker. case_bool_decide as Hon; cbn [negb].
  - assert (∀ ms, (∀ m, m ∈ ms → m ∈ Worker_Models wk) → ∀ O b, aggregates O b →
      aggregates (λ n i d, O n i d ∨ (i = Worker_ID wk ∧ ∃ m, m ∈ ms ∧ Model_Name m = n ∧ Model_Digest m = d))
        (fold_left (λ b m, catalog_add (Worker_ID wk) m b) ms b)) as Hms.
    { clear. induction ms as [|m ms IH]; intros Hin O b H; simpl.
      - eapply aggregates_ext; [|exact H]. intros n i d. setoid_rewrite elem_of_nil. naive_solver.
      - eapply aggregates_ext; [|apply IH; [intros; apply Hin; by right|by apply catalog_add_aggregates]].
        intros n i d. cbn. setoid_rewrite elem_of_cons. naive_solver. }
    eapply aggregates_ext; [|apply (Hms (Worker_Models wk)); [done|exact Hb]]. cbn. intros n i d. rewrite offers_snoc. naive_solver.
  - eapply aggregates_ext; [|exact Hb]. intros n i d. rewrite offers_snoc. naive_solver.
Qed.

Lemma aggregate_aggregates fleet : aggregates (offers fleet) (aggregate fleet).
Proof.
  unfold aggregate. induction fleet as [|wk l IH] using rev_ind.
  - split; [intros ? ?; cbn; by rewrite lookup_empty|]. intros n i d (wk & m & Hin & _). by apply not_elem_of_nil in Hin.
  - rewrite fold_left_app. by apply catalog_worker_aggregates.
Qed.

Section catalog_props.
Context {KS CS SS : Type} `{!KeyStore KS} `{!CounterStore CS} `{!SessionStore SS}.
Context (range_agg : aggmap → list (string * agg)) (Hrange : ∀ m, range_agg m ≡ₚ map_to_list m).
Notation hserver := (HServer KS CS SS).

Definition entry_of (p : string * agg) : catalogModel :=
  mkCatalogModel p.1 (agg_digest p.2) (sort_Strings (elements (agg_workers p.2))).

(** Everything but the authorization records. *)
Definition audit_only (s s' : hserver) : Prop :=
  ∃ recs, h_ctl s' = set_books (s_sessionMgr (h_ctl s)) (s_quota (h_ctl s)) (s_affinity (h_ctl s)) (s_wait (h_ctl s))
                       (s_audit (h_ctl s) ++ recs) (h_ctl s) ∧ s' = set_ctl (h_ctl s') s.

Lemma audit_only_refl s : audit_only s s.
Proof. exists []. destruct s as [ctl ? ? ? ? ? ?]. destruct ctl. cbn. by rewrite app_nil_r. Qed.

Lemma audit_only_step rec (s s' : hserver) :
  audit_only (set_ctl (Server.audited rec (h_ctl s)) s) s' → audit_only s s'.
Proof.
  intros (recs & H1 & H2). exists (rec :: recs). split; [|by rewrite H2].
  rewrite H1. cbn. by rewrite <- app_assoc.
Qed.

Lemma catalog_fold key l (s : hserver) out :
  let '(s', out') := fold_left (catalog_entry key) l (s, out) in
  out' = out ++ map entry_of (filter (λ p, (decide_key key p.1 Infer).2 = true) l) ∧ audit_only s s'.
Proof.
  revert s out. induction l as [|p l IH]; intros s out.
  { simpl. rewrite app_nil_r. split; [done|]. apply audit_only_refl. }
  cbn [fold_left]. rewrite filter_cons.
  destruct (catalog_entry key (s, out) p) as [s1 out1] eqn:E. unfold catalog_entry, Authorize in E.
  destruct (decide_key key p.1 Infer) as [[role reason] allowed]. cbn [snd] in *.
  specialize (IH s1 out1). destruct (fold_left _ l (s1, out1)) as [s' out']. destruct IH as [-> Ha].
  destruct allowed; injection E as <- <-; apply audit_only_step in Ha; (split; [|done]).
  - rewrite decide_True by done. by rewrite <- app_assoc.
  - by rewrite decide_False.
Qed.

#[local] Instance name_less_order : StrictWeakOrder name_less := string_order CM_name.

(** The catalog is exact. The models a key is shown are exactly those that an
    online worker has and that the key is authorized to run: listed once each, in
    ascending order, each with the exact set of online workers that have it (never
    empty, ascending) and the digest one of them reports.  The decision does not
    depend on the order Go visits its maps in, and nothing but the authorization
    audit changes; so a listed model is never refused as forbidden at dispatch. *)
Theorem catalog_exact now key (s : hserver) :
  let fleet := Fleet now (h_ctl s) in
  let '(s', models) := catalog range_agg now key s in
  audit_only s s' ∧ StronglySorted String.le (map CM_name models) ∧ NoDup (map CM_name models) ∧
  (∀ name, name ∈ map CM_name models ↔ permitted key name Infer ∧ ∃ id d, offers fleet name id d) ∧
  Forall (λ m, StronglySorted String.le (CM_Workers m) ∧ NoDup (CM_Workers m) ∧ CM_Workers m ≠ [] ∧
               (∀ id, id ∈ CM_Workers m ↔ ∃ d, offers fleet (CM_name m) id d) ∧
               ∃ id, offers fleet (CM_name m) id (CM_Digest m)) models ∧
  (∀ job (ctl : Server CS SS), Job_Model job ∈ map CM_name models → Job_Validate job = None →
     (gate now key job ctl).2 ≠ Some ErrForbidden).
Proof.
  intros fleet. unfold catalog. fold fleet. destruct (aggregate_aggregates fleet) as [H1 H2].
  set (b := aggregate fleet) in *. pose proof (catalog_fold key (range_agg b) s []) as H.
  destruct (fold_left _ (range_agg b) (s, [])) as [s' out]. destruct H as [-> Ha]. cbn [app].
  set (out := map entry_of _). 
  assert (∀ m, m ∈ SliceStable name_less out ↔
     ∃ name a, m = entry_of (name, a) ∧ b !! name = Some a ∧ permitted key name Infer) as Hin.
  { intros m. rewrite SliceStable_perm. unfold out. rewrite list_elem_of_fmap. split.
    - intros ([name a] & -> & Hf). apply list_elem_of_filter in Hf as [Hp Hf]. rewrite Hrange, elem_of_map_to_list in Hf.
      exists name, a. split_and!; [done|done|by apply decide_permitted].
    - intros (name & a & -> & Hb & Hp). exists (name, a). split; [done|]. apply list_elem_of_filter.
      split; [by apply decide_permitted|]. by rewrite Hrange, elem_of_map_to_list. }
  assert (∀ name, name ∈ map CM_name (SliceStable name_less out) ↔
     permitted key name Infer ∧ ∃ id d, offers fleet name id d) as Hnames.
  { intros name. rewrite list_elem_of_fmap. split.
    - intros (m & -> & (n & a & -> & Hb & Hp)%Hin). split; [done|]. destruct (H1 _ _ Hb) as (_ & [i Hi] & _). eauto.
    - intros [Hp (id & d & Ho)]. destruct (H2 _ _ _ Ho) as [a Hb]. exists (entry_of (name, a)). split; [done|].
      apply Hin. eauto. }
  split_and!; [done| | |exact Hnames| |].
  - apply (string_keys_sorted CM_name).
  - assert (map CM_name (SliceStable name_less out) ≡ₚ
            (filter (λ p, (decide_key key p.1 Infer).2 = true) (range_agg b)).*1) as ->.
    { rewrite SliceStable_perm. unfold out. by rewrite map_map. }
    apply NoDup_fmap_fst; [|apply NoDup_filter; rewrite Hrange; apply NoDup_map_to_list].
    intros n a1 a2 [_ Hx]%list_elem_of_filter [_ Hy]%list_elem_of_filter.
    rewrite Hrange, elem_of_map_to_list in Hx, Hy. congruence.
  - apply Forall_forall. intros m (n & a & -> & Hb & Hp)%Hin. destruct (H1 _ _ Hb) as (A & [i Hi] & _).
    assert (∀ id, id ∈ CM_Workers (entry_of (n, a)) ↔ ∃ d, offers fleet n id d) as Hw.
    { intros id. cbn. by rewrite sort_Strings_Permutation, elem_of_elements, A. }
    split_and!.
    + apply sort_Strings_sorted.
    + cbn. rewrite sort_Strings_Permutation. apply NoDup_elements.
    + intros E. assert (i ∈ CM_Workers (entry_of (n, a))) as Hc by (apply Hw; eauto). rewrite E in Hc.
      by apply not_elem_of_nil in Hc.
    + exact Hw.
    + eauto.
  - intros job ctl [Hp _]%Hnames Hv. unfold gate. rewrite Hv.
    pose proof (decide_permitted key (Job_Model job) Infer) as Hd. unfold Authorize.
    destruct (decide_key key (Job_Model job) Infer) as [[role reason] allowed]. cbn in Hd.
    rewrite (proj2 Hd Hp). unfold CheckAndReserve, reserve_with.
    match goal with |- context [Reserve ?i ?t ?ck ?e] => pose proof (Reserve_spec i t ck e) as Hr end. cbv zeta in Hr.
    destruct (Reserve _ _ _ _) as [cs e]. destruct Hr as [-> _]. unfold as_check. cbn. by case_match.
Qed.
End catalog_props.

(** ** The capacity inventory *)

Definition sum_by (f : Worker → Z) (l : list Worker) : Z := foldr (λ wk n, f wk + n) 0 l.
Definition of_type (t : string) (fleet : list Worker) : list Worker := filter (λ wk, Worker_GPUType wk = t) fleet.
Definition cell_of (wk : Worker) : adminGPUCell :=
  mkGPUCell (Worker_ID wk) (Worker_GPUType wk) (Worker_TotalVRAM wk) (Worker_FreeVRAM wk) (Worker_Load wk)
    (WorkerStatus_String (Worker_Status wk)) (Worker_ActiveJobs wk).
Definition row_of (t : string) (l : list Worker) : adminGPUByType :=
  mkGPUByType t (Z.of_nat (length l)) (u64 (sum_by Worker_TotalVRAM l)) (u64 (sum_by Worker_FreeVRAM l)).
Definition max_load (l : list Worker) : Z := foldr (λ wk n, Z.max (Worker_Load wk) n) 0 l.

Lemma sum_by_snoc f l wk : sum_by f (l ++ [wk]) = sum_by f l + f wk.
Proof. unfold sum_by. induction l as [|x l IH]; simpl; [lia|]. rewrite IH. lia. Qed.
Lemma max_load_snoc l wk : max_load (l ++ [wk]) = Z.max (max_load l) (Worker_Load wk).
Proof. unfold max_load. induction l as [|x l IH]; simpl; [lia|]. rewrite IH. lia. Qed.
#[local] Instance sum_by_proper f : Proper ((≡ₚ) ==> (=)) (sum_by f).
Proof. intros l l' H. unfold sum_by. induction H; simpl; lia. Qed.
#[local] Instance max_load_proper : Proper ((≡ₚ) ==> (=)) max_load.
Proof. intros l l' H. unfold max_load. induction H; simpl; lia. Qed.

Lemma u64_add_l a b : u64 (u64 a + b) = u64 (a + b).
Proof. unfold u64. apply Z.add_mod_idemp_l. lia. Qed.

(** What the pass over the fleet computes. *)
Lemma gpu_fold fleet :
  let a := fold_left gpu_worker fleet (mkGpuAcc 0 0 0 0 ∅ []) in
  ga_total a = u64 (sum_by Worker_TotalVRAM fleet) ∧ ga_free a = u64 (sum_by Worker_FreeVRAM fleet) ∧
  ga_load a = u64 (sum_by Worker_Load fleet) ∧ ga_max a = max_load fleet ∧
  ga_cells a = map cell_of fleet ∧
  ∀ t, ga_byType a !! t = match of_type t fleet with [] => None | l => Some (row_of t l) end.
Proof.
  induction fleet as [|wk l IH] using rev_ind.
  { split_and!; try reflexivity. }
  rewrite fold_left_app. cbv zeta in *. set (a := fold_left gpu_worker l _) in *. cbn [fold_left].
  destruct IH as (H1 & H2 & H3 & H4 & H5 & H6). cbn [gpu_worker ga_total ga_free ga_load ga_max ga_cells ga_byType].
  rewrite !sum_by_snoc, max_load_snoc, H1, H2, H3, H4, H5, map_app, !u64_add_l. split_and!; try done.
  - destruct (Z.ltb_spec (max_load l) (Worker_Load wk)); lia.
  - intros t. unfold of_type in *. rewrite filter_app. rewrite (H6 (Worker_GPUType wk)).
    destruct (decide (t = Worker_GPUType wk)) as [->|Hne].
    + rewrite lookup_insert_eq, (filter_cons_True _ wk []) by done. rewrite filter_nil.
      destruct (filter _ l) as [|x l'] eqn:E; cbn [default app].
      * unfold row_of, sum_by. cbn [foldr length GT_GPUType GT_WorkerCount GT_TotalVRAM GT_FreeVRAM]. by rewrite !Z.add_0_r.
      * change (x :: l' ++ [wk]) with ((x :: l') ++ [wk]). unfold row_of. rewrite length_app, !sum_by_snoc.
        cbn [from_option id default GT_GPUType GT_WorkerCount GT_TotalVRAM GT_FreeVRAM]. rewrite !u64_add_l. do 2 f_equal.
        change (length [wk]) with 1%nat. lia.
    + rewrite lookup_insert_ne, H6, (filter_cons_False _ wk []), filter_nil, app_nil_r by done. done.
Qed.

Section inventory.
Context (range_types : gmap string adminGPUByType → list adminGPUByType)
        (Hrange : ∀ m, range_types m ≡ₚ (map_to_list m).*2).

#[local] Instance type_less_order : StrictWeakOrder type_less := string_order GT_GPUType.
#[local] Instance cell_less_order : StrictWeakOrder cell_less := string_order GC_ID.

Lemma byType_rows fleet row :
  row ∈ range_types (ga_byType (fold_left gpu_worker fleet (mkGpuAcc 0 0 0 0 ∅ []))) ↔
  of_type (GT_GPUType row) fleet ≠ [] ∧ row = row_of (GT_GPUType row) (of_type (GT_GPUType row) fleet).
Proof.
  destruct (gpu_fold fleet) as (_ & _ & _ & _ & _ & Ht). rewrite Hrange, list_elem_of_fmap. split.
  - intros ([t r] & -> & Hin). apply elem_of_map_to_list in Hin. rewrite Ht in Hin. cbn [snd].
    destruct (of_type t fleet) as [|x l] eqn:E; [done|]. injection Hin as <-. cbn [GT_GPUType row_of]. by rewrite E.
  - intros [Hne Hr]. exists (GT_GPUType row, row). split; [done|]. apply elem_of_map_to_list. rewrite Ht.
    destruct (of_type _ fleet); [done|]. by rewrite <- Hr.
Qed.

Lemma sums_in_range f l : (∀ wk, wk ∈ l → 0 <= f wk) → 0 <= sum_by f l.
Proof.
  intros H. unfold sum_by. induction l as [|x l IH]; simpl; [lia|].
  pose proof (H x ltac:(by left)). specialize (IH ltac:(intros; apply H; by right)). lia.
Qed.

Lemma load_sum_max l : 0 <= max_load l ∧ sum_by Worker_Load l <= Z.of_nat (length l) * max_load l.
Proof.
  unfold sum_by, max_load. induction l as [|x l IH]; simpl; [lia|]. set (m := foldr _ 0 l) in *.
  set (n := foldr _ 0 l) in *. nia.
Qed.

Lemma max_load_u32 l : (∀ wk, wk ∈ l → is_u32 (Worker_Load wk)) → is_u32 (max_load l).
Proof.
  intros H. unfold max_load, is_u32 in *. induction l as [|x l IH]; simpl; [lia|].
  pose proof (H x ltac:(by left)). specialize (IH ltac:(intros; apply H; by right)). lia.
Qed.

Lemma mean_load_bounds fleet :
  (∀ wk, wk ∈ fleet → is_u32 (Worker_Load wk)) → 0 < Z.of_nat (length fleet) < 2 ^ 31 →
  0 <= u32 (Z.quot (u64 (sum_by Worker_Load fleet)) (Z.of_nat (length fleet))) <= max_load fleet.
Proof.
  intros Hl Hn. pose proof (max_load_u32 fleet Hl) as Hm. destruct (load_sum_max fleet) as [_ Hs].
  pose proof (sums_in_range Worker_Load fleet ltac:(intros wk Hwk; pose proof (Hl wk Hwk); unfold is_u32 in *; lia)) as H0.
  unfold is_u32 in *. rewrite u64_id by (unfold is_u64; nia).
  assert (0 <= Z.quot (sum_by Worker_Load fleet) (Z.of_nat (length fleet)) <= max_load fleet) as Hq.
  { rewrite Z.quot_div_nonneg by lia. split; [apply Z.div_pos; lia|]. apply Z.div_le_upper_bound; lia. }
  unfold u32. rewrite Z.mod_small; lia.
Qed.

(** The pass forgets the order of the fleet. *)
Lemma byType_proper fleet fleet' :
  fleet' ≡ₚ fleet →
  ga_byType (fold_left gpu_worker fleet' (mkGpuAcc 0 0 0 0 ∅ [])) =
  ga_byType (fold_left gpu_worker fleet (mkGpuAcc 0 0 0 0 ∅ [])).
Proof.
  intros Hp. destruct (gpu_fold fleet) as (_ & _ & _ & _ & _ & H). destruct (gpu_fold fleet') as (_ & _ & _ & _ & _ & H').
  apply map_eq. intros t. rewrite H, H'. unfold of_type.
  assert (filter (λ wk, Worker_GPUType wk = t) fleet' ≡ₚ filter (λ wk, Worker_GPUType wk = t) fleet) as Hf by by rewrite Hp.
  destruct (filter _ fleet') as [|x l] eqn:E, (filter _ fleet) as [|y l'] eqn:E'; try done.
  - by apply Permutation_nil_l in Hf.
  - by apply Permutation_nil_r in Hf.
  - unfold row_of. by rewrite Hf.
Qed.

Lemma cells_proper fleet fleet' :
  NoDup (map Worker_ID fleet) → fleet' ≡ₚ fleet →
  SliceStable cell_less (map cell_of fleet') = SliceStable cell_less (map cell_of fleet).
Proof.
  intros Hnd Hp. symmetry. apply SliceStable_proper; [exact _| |by rewrite Hp].
  intros c1 c2 Hc1 Hc2 H12 H21. apply list_elem_of_fmap in Hc1 as (w1 & -> & Hw1), Hc2 as (w2 & -> & Hw2).
  unfold GoHeap.le, cell_less in H12, H21. apply ltb_false in H12, H21. cbn in H12, H21.
  f_equal. assert (Worker_ID w1 = Worker_ID w2) as Hid by by apply (anti_symm String.le).
  apply list_elem_of_lookup in Hw1 as [i Hi], Hw2 as [j Hj].
  assert (i = j) as ->; [|congruence].
  eapply (NoDup_lookup _ _ _ (Worker_ID w1) Hnd); rewrite list_lookup_fmap; [by rewrite Hi|by rewrite Hj, Hid].
Qed.

(** The capacity inventory adds up and is stable. For any fleet snapshot the
    roll-up counts every worker once and sums the memory (modulo 2^64); there is a
    row for a GPU type exactly when a worker reports it, ascending and without
    repetition, and it counts and sums exactly the workers of that type; there is
    one cell per worker, ascending by id; the mean load never exceeds the maximum.
    With distinct worker ids the whole answer does not depend on the order in which
    the fleet or Go's maps are visited. *)
Theorem gpu_inventory_exact fleet :
  (∀ wk, wk ∈ fleet → is_u32 (Worker_Load wk)) → Z.of_nat (length fleet) < 2 ^ 31 →
  let v := aggregateGPUs range_types fleet in
  GF_WorkerCount (GPUs_Fleet v) = Z.of_nat (length fleet) ∧
  GF_TotalVRAM (GPUs_Fleet v) = u64 (sum_by Worker_TotalVRAM fleet) ∧
  GF_FreeVRAM (GPUs_Fleet v) = u64 (sum_by Worker_FreeVRAM fleet) ∧
  0 <= GF_MeanLoad (GPUs_Fleet v) <= GF_MaxLoad (GPUs_Fleet v) ∧
  (∀ row, row ∈ GPUs_ByType v ↔
     of_type (GT_GPUType row) fleet ≠ [] ∧ row = row_of (GT_GPUType row) (of_type (GT_GPUType row) fleet)) ∧
  StronglySorted String.le (map GT_GPUType (GPUs_ByType v)) ∧
  GPUs_Workers v ≡ₚ map cell_of fleet ∧ StronglySorted String.le (map GC_ID (GPUs_Workers v)) ∧
  (∀ fleet', NoDup (map Worker_ID fleet) → fleet' ≡ₚ fleet → aggregateGPUs range_types fleet' = v).
Proof.
  intros Hload Hlen v. unfold v, aggregateGPUs. destruct (gpu_fold fleet) as (H1 & H2 & H3 & H4 & H5 & H6).
  pose proof (byType_rows fleet) as Hrows. set (a := fold_left gpu_worker fleet _) in *.
  cbn [GPUs_Fleet GPUs_ByType GPUs_Workers GF_WorkerCount GF_TotalVRAM GF_FreeVRAM GF_MeanLoad GF_MaxLoad].
  rewrite H1, H2, H3, H4, H5.
  assert (0 <= (if 0 <? Z.of_nat (length fleet) then u32 (Z.quot (u64 (sum_by Worker_Load fleet)) (Z.of_nat (length fleet)))
                else 0) <= max_load fleet) as Hmean.
  { destruct (Z.ltb_spec 0 (Z.of_nat (length fleet))); [by apply mean_load_bounds|]. destruct (load_sum_max fleet). lia. }
  split; [done|]. split; [done|]. split; [done|]. split; [exact Hmean|]. split.
  { intros row. rewrite SliceStable_perm. apply Hrows. }
  split; [by apply (string_keys_sorted GT_GPUType)|]. split; [by rewrite SliceStable_perm|].
  split; [by apply (string_keys_sorted GC_ID)|]. intros fleet' Hnd Hp.
  destruct (gpu_fold fleet') as (H1' & H2' & H3' & H4' & H5' & _). pose proof (byType_proper fleet fleet' Hp) as Hb.
  unfold a. rewrite H1', H2', H3', H4', H5', Hb, (cells_proper fleet fleet' Hnd Hp).
  by rewrite !(sum_by_proper _ _ _ Hp), (max_load_proper _ _ Hp), (Permutation_length Hp).
Qed.
End inventory.

(** ** Fleet writes *)

Section fleet_writes.
Context {KS CS SS : Type} `{!KeyStore KS} `{!CounterStore CS} `{!SessionStore SS}.
Notation hserver := (HServer KS CS SS).

(** The audit log after one entry. *)
Definition logged (now : Time) (c : context) (op target : string) (outcome : Outcome) (after : RedactedValues)
    (s s' : hserver) : Prop :=
  h_auditLog s' = match h_auditLog s with
                  | None => None
                  | Some log => Some (AuditLog.Append now
                      (AuditLog.mkEntry 0 (actor_of c) op target None after (reqid_of c) outcome) log).1
                  end.

Lemma recordAudit_logged now c op target outcome after ctl (s : hserver) :
  let s' := recordAudit now c op target outcome None after (set_ctl ctl s) in
  logged now c op target outcome after s s' ∧ h_ctl s' = ctl ∧ h_auth s' = h_auth s ∧ h_idem s' = h_idem s.
Proof.
  intros s'. unfold s', logged, recordAudit. cbn [h_auditLog set_ctl]. destruct (h_auditLog s) as [log|] eqn:E; cbn; auto.
Qed.

(** Marking a registered worker. *)
Lemma markDrainingAt_spec h id (s : Server CS SS) :
  swf s → s_workers s !! id = Some h →
  let s' := markDrainingAt h s in
  s_heap s' = alter markDraining h (s_heap s) ∧ s_workers s' = s_workers s ∧
  (∀ t, Worker_Status <$> WorkerByID t id s' = Some WorkerDraining) ∧
  (∀ t1 t2 model pref, pickWorker t1 t2 model pref s' ≠ Some h).
Proof.
  intros Hswf Eh s'. destruct (wf_reg _ Hswf _ _ Eh) as (w & Hw & Hid).
  assert (s_heap s' = alter markDraining h (s_heap s)) as Hheap.
  { unfold s', markDrainingAt. rewrite Hw. cbn. apply map_eq. intros i. destruct (decide (i = h)) as [->|Hne].
    - by rewrite lookup_insert_eq, lookup_alter_eq, Hw.
    - by rewrite lookup_insert_ne, lookup_alter_ne. }
  assert (s_workers s' = s_workers s) as Hreg by (unfold s', markDrainingAt; by rewrite Hw).
  assert (s_heap s' !! h = Some (markDraining w)) as Hw' by (by rewrite Hheap, lookup_alter_eq, Hw).
  assert (swf s') as Hswf'.
  { destruct Hswf as [Wa Wr]. split.
    - intros i x. rewrite Hheap. unfold s', markDrainingAt. rewrite Hw. cbn. intros Hx.
      destruct (decide (i = h)) as [->|Hne]; [by eapply Wa|]. rewrite lookup_alter_ne in Hx by done. by eapply Wa.
    - intros i x. rewrite Hreg. intros Hx. destruct (Wr _ _ Hx) as (w1 & Hw1 & Hi). rewrite Hheap.
      destruct (decide (x = h)) as [->|Hne].
      + rewrite lookup_alter_eq, Hw1. by exists (markDraining w1).
      + rewrite lookup_alter_ne by done. eauto. }
  split_and!; [done..| |].
  - intros t. unfold WorkerByID. rewrite Hreg, Eh. cbn. by rewrite Hw'.
  - intros t1 t2 model pref Hp. destruct (pickWorker_sound _ _ _ _ _ _ Hswf' Hp) as (w2 & [Hw2 _] & Ha & _).
    rewrite Hw' in Hw2. by injection Hw2 as <-.
Qed.

(** Draining over HTTP. A malformed body or a negative deadline is refused with
    400 and nothing changes.  For a worker that is not connected the answer is 404
    and only the failure is logged.  Otherwise the answer is 204, one success entry
    says so (with the deadline, when one was given), the worker is draining in every
    snapshot, is not picked for any model, its jobs and stream are as before, no
    other worker is touched, and an eviction is scheduled after exactly the given
    number of seconds, none for 0; this for deadlines an int64 can hold in
    nanoseconds. *)
Theorem drain_request_effect body r now c (s : hserver) :
  (∀ n, body = Some (Some n) → n <= 9223372036) → swf (h_ctl s) →
  let id := r_PathValue r "id" in
  let '(s', reaper, acts) := handleAdminDrainWorker body r now c s in
  let status := resp_status (respond acts) in
  match body with
  | None => s' = s ∧ status = 400
  | Some req =>
      let n := default 0 req in
      if n <? 0 then s' = s ∧ status = 400
      else match s_workers (h_ctl s) !! id with
      | None => status = 404 ∧ reaper = None ∧ h_ctl s' = h_ctl s ∧
                logged now c auditOpWorkerDrain id OutcomeFailure None s s'
      | Some h =>
          status = 204 ∧ reaper = (if 0 <? n then Some (h, n * Second) else None) ∧
          (∃ after, logged now c auditOpWorkerDrain id OutcomeSuccess (Some after) s s' ∧
             after !! "status" = Some (AStr "draining") ∧
             after !! "deadline_seconds" = if 0 <? n then Some (AInt n) else None) ∧
          (∀ t, Worker_Status <$> WorkerByID t id (h_ctl s') = Some WorkerDraining) ∧
          (∀ t1 t2 model pref, pickWorker t1 t2 model pref (h_ctl s') ≠ Some h) ∧
          s_heap (h_ctl s') = alter markDraining h (s_heap (h_ctl s)) ∧ s_workers (h_ctl s') = s_workers (h_ctl s)
      end
  end.
Proof.
  intros Hmax Hswf id. unfold handleAdminDrainWorker. destruct body as [req|]; [|done]. set (n := default 0 req).
  destruct (Z.ltb_spec n 0) as [|Hn]; [done|].
  assert (seconds_duration n = n * Second) as Hd.
  { unfold seconds_duration. apply i64_id. unfold is_i64, Second. destruct req as [m|]; [|cbn in n; lia].
    specialize (Hmax m eq_refl). cbn in n. lia. }
  rewrite Hd. unfold DrainWorkerWithDeadline. fold id. destruct (s_workers (h_ctl s) !! id) as [h|] eqn:Eh.
  2:{ destruct (recordAudit_logged now c auditOpWorkerDrain id OutcomeFailure None (h_ctl s) s) as (H1 & H2 & _).
      cbv beta iota. rewrite errors_Is_refl. split_and!; [done|done|exact H2|exact H1]. }
  destruct (markDrainingAt_spec h id _ Hswf Eh) as (Hheap & Hreg & Hstat & Hpick). set (ctl := markDrainingAt h (h_ctl s)) in *.
  pose proof (recordAudit_logged now c auditOpWorkerDrain id OutcomeSuccess
    (Some (if 0 <? n * Second then <["deadline_seconds" := AInt n]> {[ "status" := AStr "draining" ]}
           else {[ "status" := AStr "draining" ]})) ctl s) as (H1 & H2 & _).
  assert ((n * Second <=? 0) = negb (0 <? n)) as Hle
    by (unfold Second; destruct (Z.leb_spec (n * 1000000000) 0), (Z.ltb_spec 0 n); cbn; lia).
  assert ((0 <? n * Second) = (0 <? n)) as Hlt
    by (unfold Second; destruct (Z.ltb_spec 0 (n * 1000000000)), (Z.ltb_spec 0 n); cbn; lia).
  destruct (if n * Second <=? 0 then _ else _) as [[ctl' reaper] err] eqn:Ereap.
  assert (ctl' = ctl ∧ err = None ∧ reaper = (if 0 <? n then Some (h, n * Second) else None)) as (-> & -> & ->).
  { rewrite Hle in Ereap. destruct (0 <? n); cbn in Ereap; by injection Ereap as <- <- <-. }
  cbv beta iota. rewrite H2. split_and!; try done. eexists. split; [exact H1|]. rewrite Hlt. destruct (0 <? n).
  - by rewrite lookup_insert_ne, lookup_singleton_eq, lookup_insert_eq.
  - by rewrite lookup_singleton_eq, lookup_singleton_ne.
Qed.
(** Deadlines beyond that range wrap: this one asks for 584 years and gets an
    eviction after 0.29 seconds. *)
Lemma drain_deadline_wraps r now c (s : hserver) h :
  s_workers (h_ctl s) !! r_PathValue r "id" = Some h →
  (handleAdminDrainWorker (Some (Some 18446744074)) r now c s).1.2 = Some (h, 290448384).
Proof. intros H. unfold handleAdminDrainWorker, DrainWorkerWithDeadline. by rewrite H. Qed.

(** Pulling and unloading a model over HTTP. Unless the body is refused with 400
    and no effect, the request ends (when it does not wait for room in the worker's
    queue) in one audit entry naming worker and model: 404 when the worker is not
    connected, the fleet untouched; success exactly when the command is the next
    message queued for that worker, no other worker touched; and 500 when the caller
    gave up first, the fleet untouched. *)
Theorem model_request_effect body cd td r now c (s s' : hserver) acts :
  let id := r_PathValue r "id" in
  handleAdminPullModel body cd td r now c s = Some (s', acts) →
  match body with
  | None | Some EmptyString => s' = s ∧ resp_status (respond acts) = 400
  | Some model =>
      let target := id +:+ "/" +:+ model in
      match s_workers (h_ctl s) !! id with
      | None => resp_status (respond acts) = 404 ∧ h_ctl s' = h_ctl s ∧
                logged now c auditOpModelPull target OutcomeFailure None s s'
      | Some h =>
          (resp_status (respond acts) = 202 ∧
           (∃ after, logged now c auditOpModelPull target OutcomeSuccess (Some after) s s') ∧
           ∃ w, s_heap (h_ctl s) !! h = Some w ∧ (length (w_send w) < sendCap)%nat ∧
             h_ctl s' = set_worker h (push (MsgPullModel model) w) (s_chans (h_ctl s)) (h_ctl s)) ∨
          (resp_status (respond acts) = 500 ∧ cd = true ∧ h_ctl s' = h_ctl s ∧
           logged now c auditOpModelPull target OutcomeFailure None s s')
      end
  end.
Proof.
  intros id. unfold handleAdminPullModel. fold id. destruct body as [[|ch rest]|]; [by intros [= <- <-]| |by intros [= <- <-]].
  set (model := String ch rest). change (String.eqb model "") with false. cbv beta iota zeta.
  unfold finish_model, AdminPullModel. destruct (s_workers (h_ctl s) !! id) as [h|].
  2:{ intros [= <- <-]. destruct (recordAudit_logged now c auditOpModelPull (id +:+ "/" +:+ model) OutcomeFailure None
        (h_ctl s) s) as (H1 & H2 & _). split_and!; [done|exact H2|exact H1]. }
  assert (∀ s' acts, Some (recordAudit now c auditOpModelPull (id +:+ "/" +:+ model) OutcomeFailure None None
      (set_ctl (h_ctl s) s), if errors_Is CtxDone ErrWorkerNotFound then worker_missing
      else writeError StatusInternalServerError "internal_error" "could not pull model") = Some (s', acts) →
    resp_status (respond acts) = 500 ∧ h_ctl s' = h_ctl s ∧
    logged now c auditOpModelPull (id +:+ "/" +:+ model) OutcomeFailure None s s') as Hfail.
  { intros s0 acts0 [= <- <-]. destruct (recordAudit_logged now c auditOpModelPull (id +:+ "/" +:+ model)
      OutcomeFailure None (h_ctl s) s) as (H1 & H2 & _). split_and!; [done|exact H2|exact H1]. }
  unfold sendOrDone. destruct (cd && td) eqn:Ecd.
  { intros (H1 & H2 & H3)%Hfail. right. apply andb_true_iff in Ecd as [-> _]. done. }
  unfold trySend. destruct (s_heap (h_ctl s) !! h) as [w|] eqn:Ew.
  2:{ destruct cd; [|done]. intros (H1 & H2 & H3)%Hfail. by right. }
  destruct (Nat.ltb_spec (length (w_send w)) sendCap) as [Hlt|].
  2:{ destruct cd; [|done]. intros (H1 & H2 & H3)%Hfail. by right. }
  intros [= <- <-]. left. split; [done|].
  match goal with |- context [recordAudit now c ?o ?t ?x None ?a (set_ctl ?ctl s)] =>
    destruct (recordAudit_logged now c o t x a ctl s) as (H1 & H2 & _) end.
  split; [eexists; exact H1|]. exists w. split_and!; [done|done|exact H2].
Qed.
End fleet_writes.

(** ** Witnesses *)

#[local] Instance fleet_demo_keys : KeyStore Memory := Memory_KeyStore Auth.demo_range (Hrange := Auth.demo_range_ok).
#[local] Instance fleet_demo_sess : SessionStore MemorySessionStore := MSS_SessionStore demo_sessions demo_sessions_ok.

Definition demo_worker_req : Request :=
  mkRequest "POST" "/v1/admin/workers/w1/drain" (λ _, "") (λ _, "") (λ p, if String.eqb p "id" then "w1" else "") (λ _, None).

Lemma catalog_exact_witness :
  NoDup (map CM_name (catalog (λ m, map_to_list m) ex_time demo_actor demo_http).2).
Proof.
  pose proof (catalog_exact (λ m, map_to_list m) (λ m, reflexivity (map_to_list m)) ex_time demo_actor demo_http) as H.
  destruct (catalog _ _ _ _) as [s' models]. apply H.
Defined.

Definition demo_fleet : list Worker :=
  [mkWorker "w2" [] 5 1 100 50 80 "rtx" WorkerOnline 1; mkWorker "w1" [] 5 0 200 60 10 "rtx" WorkerDraining 1].

Lemma gpu_inventory_exact_witness :
  GF_TotalVRAM (GPUs_Fleet (aggregateGPUs (λ m, (map_to_list m).*2) demo_fleet)) = 300.
Proof.
  rewrite (proj1 (proj2 (gpu_inventory_exact (λ m, (map_to_list m).*2) (λ m, reflexivity _) demo_fleet
    ltac:(intros wk Hwk; unfold demo_fleet in Hwk; rewrite !elem_of_cons in Hwk;
          destruct Hwk as [->|[->|Hwk]]; [vm_compute; split; [discriminate|reflexivity]..|by apply not_elem_of_nil in Hwk])
    ltac:(vm_compute; reflexivity)))).
  reflexivity.
Defined.

Lemma drain_request_effect_witness :
  resp_status (respond (handleAdminDrainWorker (Some (Some 30)) demo_worker_req 5 (demo_ctx demo_actor) demo_http).2) = 204.
Proof.
  pose proof (drain_request_effect (Some (Some 30)) demo_worker_req 5 (demo_ctx demo_actor) demo_http
    ltac:(intros n [= <-]; lia) ex_one_swf) as H.
  destruct (handleAdminDrainWorker _ _ _ _ _) as [[s' reaper] acts]. exact (proj1 H).
Defined.

Lemma model_request_effect_witness :
  ∃ s' acts, handleAdminPullModel (Some "llama3") false false demo_worker_req 5 (demo_ctx demo_actor) demo_http = Some (s', acts) ∧
    resp_status (respond acts) = 202.
Proof.
  destruct (handleAdminPullModel (Some "llama3") false false demo_worker_req 5 (demo_ctx demo_actor) demo_http)
    as [[s' acts]|] eqn:E; [|vm_compute in E; discriminate E].
  exists s', acts. split; [done|].
  destruct (model_request_effect (Some "llama3") false false demo_worker_req 5 (demo_ctx demo_actor) demo_http s' acts E)
    as [[H _]|(_ & H & _)]; [exact H|discriminate H].
Defined.
