(* ===== verification/Telemetry.v ===== *)
(** * Telemetry.v: request metrics and the telemetry endpoint

    The outermost middleware (httpapi/metrics.go), the lock-free request statistics it
    feeds and GET /v1/admin/telemetry (httpapi/telemetry.go).

    [requestStats] is shared by all requests and updated with sync/atomic only, so its
    method is modelled twice: as one update ([record]) and as the sequence of atomic
    operations it is ([act]), of which any number of requests run interleaved
    ([cstep]).  The theorems relate the two. *)

From S2P Require Import Prelude Errors GoTime GoFloat GoStrings GoConv GoSort Types Queue Store Authz Auth AuditLog Scheduler Quota History Session ServerWorker Server Http HttpServer FleetApi.
Open Scope Z_scope.

(** ** Request statistics *)

Definition requestLatencyBucketBounds : list Z := [10; 100; 1000; 10000].

(** The atomics. *)
Record requestStats := mkRS { rs_count : Z; rs_latencySumMs : Z; rs_latencyMaxMs : Z; rs_buckets : list Z }.
Definition requestStats_zero : requestStats := mkRS 0 0 0 [0; 0; 0; 0].

Definition latency_ms (d : Duration) : Z :=
  let ms := Milliseconds d in u64 (if ms <? 0 then 0 else ms).

(** Each atomic operation. *)
Definition add_count (rs : requestStats) : requestStats :=
  mkRS (u64 (rs_count rs + 1)) (rs_latencySumMs rs) (rs_latencyMaxMs rs) (rs_buckets rs).
Definition add_sum (lat : Z) (rs : requestStats) : requestStats :=
  mkRS (rs_count rs) (u64 (rs_latencySumMs rs + lat)) (rs_latencyMaxMs rs) (rs_buckets rs).
Definition set_max (lat : Z) (rs : requestStats) : requestStats :=
  mkRS (rs_count rs) (rs_latencySumMs rs) lat (rs_buckets rs).
Definition add_bucket (i : nat) (lat : Z) (rs : requestStats) : requestStats :=
  if lat <=? default 0 (requestLatencyBucketBounds !! i)
  then mkRS (rs_count rs) (rs_latencySumMs rs) (rs_latencyMaxMs rs) (alter (λ n, u64 (n + 1)) i (rs_buckets rs))
  else rs.

(** [record] run with nothing in between. *)
Definition record (d : Duration) (rs : requestStats) : requestStats :=
  let lat := latency_ms d in
  let rs := add_sum lat (add_count rs) in
  let rs := if lat <=? rs_latencyMaxMs rs then rs else set_max lat rs in
  fold_left (λ rs i, add_bucket i lat rs) (seq 0 (length requestLatencyBucketBounds)) rs.

(** [record] as its atomic steps: where a request stands in the method. *)
Inductive rpc :=
| PCount | PSum
| PLoad                  (* cur := latencyMaxMs.Load() *)
| PCas (cur : Z)         (* CompareAndSwap(cur, latMs) *)
| PBucket (i : nat).     (* the loop over the bounds; past the last, done *)

Definition act (lat : Z) (pc : rpc) (rs : requestStats) : option (rpc * requestStats) :=
  match pc with
  | PCount => Some (PSum, add_count rs)
  | PSum => Some (PLoad, add_sum lat rs)
  | PLoad => Some (if lat <=? rs_latencyMaxMs rs then PBucket 0 else PCas (rs_latencyMaxMs rs), rs)
  | PCas cur => if rs_latencyMaxMs rs =? cur then Some (PBucket 0, set_max lat rs) else Some (PLoad, rs)
  | PBucket i => if (i <? length requestLatencyBucketBounds)%nat then Some (PBucket (S i), add_bucket i lat rs) else None
  end.

(** Requests with their latencies; any one of them makes the next step. *)
Notation thread := (Z * rpc)%type.
Inductive cstep : list thread * requestStats → list thread * requestStats → Prop :=
| cstep_one i lat pc pc' ts rs rs' :
    ts !! i = Some (lat, pc) → act lat pc rs = Some (pc', rs') →
    cstep (ts, rs) (<[i := (lat, pc')]> ts, rs').
Definition arrived (ds : list Duration) : list thread := map (λ d, (latency_ms d, PCount)) ds.
Definition finished (ts : list thread) : Prop := Forall (λ t : thread, act t.1 t.2 requestStats_zero = None) ts.

Record RequestStats := mkRequestStats {
  RS_Count : Z; RS_SumMs : Z; RS_MaxMs : Z; RS_MeanMs : Z; RS_Buckets : list (Z * Z) }.
Definition rs_snapshot (rs : requestStats) : RequestStats :=
  let count := rs_count rs in
  let sumMs := rs_latencySumMs rs in
  let meanMs := if 0 <? count then sumMs / count else 0 in
  mkRequestStats count sumMs (rs_latencyMaxMs rs) meanMs (zip requestLatencyBucketBounds (rs_buckets rs) ++ [(0, count)]).

(** ** The middleware *)

Record route := mkRoute { rt_prefix : string; rt_label : string; rt_exact : bool }.
Definition routeLabels : list route :=
  [mkRoute "/v1/chat/completions" "/v1/chat/completions" true;
   mkRoute "/v1/completions" "/v1/completions" true;
   mkRoute "/v1/models" "/v1/models" true;
   mkRoute "/models" "/models" true;
   mkRoute "/v1/admin/keys/" "/v1/admin/keys/{id}" false;
   mkRoute "/v1/admin/keys" "/v1/admin/keys" true;
   mkRoute "/v1/admin/workers/" "/v1/admin/workers/{id}" false;
   mkRoute "/v1/admin/workers" "/v1/admin/workers" true;
   mkRoute "/v1/admin/stats" "/v1/admin/stats" true;
   mkRoute "/v1/sessions/" "/v1/sessions/{id}" false;
   mkRoute "/v1/sessions" "/v1/sessions" true].

(** [len(path) > len(prefix) && path[:len(prefix)] == prefix]. *)
Definition route_takes (path : string) (r : route) : bool :=
  if rt_exact r then String.eqb path (rt_prefix r)
  else (String.length (rt_prefix r) <? String.length path)%nat &&
       String.eqb (String.substring 0 (String.length (rt_prefix r)) path) (rt_prefix r).
Definition endpointLabel (path : string) : string :=
  match find (route_takes path) routeLabels with Some r => rt_label r | None => "other" end.

(** [statusRecorder]: the status noted and whether anything was written; what is
    forwarded is what it is given. *)
Record statusRecorder := mkSR { sr_status : Z; sr_wroteHeader : bool }.
Definition sr_exec (r : statusRecorder) (a : wact) : statusRecorder :=
  match a with
  | SetHeader _ _ => r
  | WriteHeader code => if sr_wroteHeader r then r else mkSR code true
  | Write _ => if sr_wroteHeader r then r else mkSR StatusOK true
  end.

(** What [metrics.ObserveRequest] is given, apart from the duration. *)
Record observation := mkObs { ob_endpoint : string; ob_method : string; ob_status : Z }.

Definition metricsMiddleware {A} (next : A → A * list wact) (r : Request) (elapsed : Duration)
    (s : A * requestStats) : (A * requestStats) * list wact * observation :=
  let '(a, acts) := next s.1 in
  let rec := fold_left sr_exec acts (mkSR 0 false) in
  ((a, record elapsed s.2), acts, mkObs (endpointLabel (r_Path r)) (r_Method r) (sr_status rec)).

(** ** The endpoint *)

Definition uptimeSeconds (startedAt now : Time) : Z :=
  if IsZero startedAt then 0
  else let d := Sub now startedAt in if d <=? 0 then 0 else ftrunc (Seconds d).

Definition count_status (fleet : list Worker) : gmap string Z :=
  fold_left (λ m wk, let st := WorkerStatus_String (Worker_Status wk) in <[st := default 0 (m !! st) + 1]> m) fleet ∅.

Section endpoint.
Context {KS CS SS : Type} `{!KeyStore KS} `{!CounterStore CS} `{!SessionStore SS}.

(** [fleet_now] and [now] are the clock readings of the fleet snapshot and of the
    uptime. *)
Definition handleAdminTelemetry (startedAt fleet_now now : Time) (s : HServer KS CS SS * requestStats)
    : (HServer KS CS SS * requestStats) * list wact :=
  let '(h, rs) := s in
  let rstat := rs_snapshot rs in
  let fleet := Fleet fleet_now (h_ctl h) in
  let qs := QStats (s_queue (h_ctl h)) in
  let byPriority := map_fold (λ p n m, <[priorityName p := default 0 (m !! priorityName p) + n]> m) ∅
                      (Stats_ByPriority qs) in
  let wt := WaitTimeStats (h_ctl h) in
  let waitMeanMs := if 0 <? WTS_Count wt then WTS_SumMs wt / WTS_Count wt else 0 in
  let aff := GetAffinityStats (h_ctl h) in
  let active := match s_sessionMgr (h_ctl h) with Some m => ActiveSessions m | None => 0 end in
  (s, writeJSON StatusOK (PTelemetry (mkTelemetry
        (mkWaitTime (RS_Count rstat) (RS_SumMs rstat) (RS_MaxMs rstat) (RS_MeanMs rstat) (RS_Buckets rstat))
        (h_globalThrottled h) (h_keyThrottled h)
        (mkTelemetryFleet (Z.of_nat (length fleet)) (count_status fleet) (Stats_Total qs) byPriority
           (mkWaitTime (WTS_Count wt) (WTS_SumMs wt) (WTS_MaxMs wt) waitMeanMs
              (map (λ b, (LeMs b, Count b)) (WTS_Buckets wt))))
        active (aff_Hits aff) (aff_Misses aff) (aff_Rebinds aff) (uptimeSeconds startedAt now)))).
End endpoint.

(** ** Interleavings *)

(** What a request has contributed so far. *)
Definition counted (t : thread) : Z := match t.2 with PCount => 0 | _ => 1 end.
Definition summed (t : thread) : Z := match t.2 with PCount | PSum => 0 | _ => t.1 end.
Definition maxed (t : thread) : Z := match t.2 with PBucket _ => t.1 | _ => 0 end.
Definition bucketed (i : nat) (t : thread) : Z :=
  match t.2 with
  | PBucket j => if (i <? j)%nat && (t.1 <=? default 0 (requestLatencyBucketBounds !! i)) then 1 else 0
  | _ => 0
  end.
Definition total (g : thread → Z) (ts : list thread) : Z := zsum (map g ts).
Definition highest (ts : list thread) : Z := zmax (map maxed ts).

(** The counters are the sums of the contributions. *)
Record tallied (ts : list thread) (rs : requestStats) : Prop := {
  ta_count : rs_count rs = u64 (total counted ts);
  ta_sum : rs_latencySumMs rs = u64 (total summed ts);
  ta_max : rs_latencyMaxMs rs = highest ts;
  ta_len : length (rs_buckets rs) = 4%nat;
  ta_buckets : ∀ i, (i < 4)%nat → rs_buckets rs !! i = Some (u64 (total (bucketed i) ts));
  ta_threads : Forall (λ t : thread, 0 <= t.1 ∧ match t.2 with PCas cur => cur < t.1 | PBucket i => (i ≤ 4)%nat | _ => True end) ts }.

Lemma total_insert g ts i t t' :
  ts !! i = Some t → total g (<[i := t']> ts) = total g ts + (g t' - g t).
Proof.
  unfold total, zsum. revert i. induction ts as [|x ts IH]; intros [|i] H; simplify_eq/=; [lia|]. rewrite (IH i H). lia.
Qed.

Lemma total_same g ts i t t' : ts !! i = Some t → g t' = g t → total g (<[i := t']> ts) = total g ts.
Proof. intros H E. rewrite (total_insert _ _ _ _ _ H). lia. Qed.

Lemma highest_insert ts i t t' :
  ts !! i = Some t → maxed t = 0 → highest (<[i := t']> ts) = Z.max (highest ts) (maxed t').
Proof.
  unfold highest, zmax. revert i. induction ts as [|x ts IH]; intros [|i] H E; simplify_eq/=.
  - rewrite E. pose proof (proj2 (zmax_snoc (map maxed ts) 0)) as H0. unfold zmax in H0. lia.
  - rewrite (IH i H E). lia.
Qed.

Lemma highest_same ts i t t' : ts !! i = Some t → maxed t' = maxed t → highest (<[i := t']> ts) = highest ts.
Proof.
  unfold highest. intros H E. f_equal. revert i H. induction ts as [|x ts IH]; intros [|i] H; simplify_eq/=; [by rewrite E|].
  by rewrite (IH i H).
Qed.

Lemma u64_step a b : u64 (u64 a + b) = u64 (a + b).
Proof. unfold u64. apply Zplus_mod_idemp_l. Qed.

(** A request past the loop on the maximum. *)
Lemma tallied_past ts rs rs' i lat pc :
  ts !! i = Some (lat, pc) → summed (lat, pc) = lat → counted (lat, pc) = 1 → maxed (lat, pc) = 0 →
  (∀ k, bucketed k (lat, pc) = 0) → tallied ts rs →
  rs_latencyMaxMs rs' = Z.max (rs_latencyMaxMs rs) lat →
  (rs_count rs', rs_latencySumMs rs', rs_buckets rs') = (rs_count rs, rs_latencySumMs rs, rs_buckets rs) →
  tallied (<[i := (lat, PBucket 0)]> ts) rs'.
Proof.
  intros Hi Es Ec Em Eb [H1 H2 H3 H4 H5 H6] Hm E. destruct rs' as [c' s' m' b']. cbn in Hm, E.
  injection E as -> -> ->.
  pose proof (Forall_lookup_1 _ _ _ _ H6 Hi) as [Hlat _]. cbn in Hlat.
  split; rewrite ?(total_same _ _ _ _ _ Hi) by done; try done.
  - rewrite (highest_insert _ _ _ _ Hi) by done. cbn. lia.
  - intros k Hk. rewrite H5 by done. rewrite (total_same _ _ _ _ _ Hi); [done|]. rewrite Eb. unfold bucketed. cbn. by destruct k.
  - apply Forall_insert; [done|]. cbn. split; [done|lia].
Qed.

(** A request that has moved without contributing. *)
Lemma tallied_move ts rs i t t' :
  ts !! i = Some t → counted t' = counted t → summed t' = summed t → maxed t' = maxed t →
  (∀ k, bucketed k t' = bucketed k t) → 0 <= t'.1 →
  match t'.2 with PCas cur => cur < t'.1 | PBucket i => (i ≤ 4)%nat | _ => True end →
  tallied ts rs → tallied (<[i := t']> ts) rs.
Proof.
  intros Hi Ec Es Em Eb Hl Ht [H1 H2 H3 H4 H5 H6]. split; rewrite ?(total_same _ _ _ _ _ Hi) by done; try done.
  - by rewrite (highest_same _ _ _ _ Hi).
  - intros k Hk. rewrite H5 by done. by rewrite (total_same _ _ _ _ _ Hi).
  - by apply Forall_insert.
Qed.

Lemma bucketed_step k j lat bound :
  bound = default 0 (requestLatencyBucketBounds !! j) →
  bucketed k (lat, PBucket (S j)) - bucketed k (lat, PBucket j) = if (k =? j)%nat && (lat <=? bound) then 1 else 0.
Proof.
  intros ->. unfold bucketed. cbn [fst snd]. destruct (Nat.eqb_spec k j) as [->|Hne].
  - rewrite (proj2 (Nat.ltb_lt j (S j))), Nat.ltb_irrefl by lia. cbn [andb]. by destruct (_ <=? _).
  - assert (E : (k <? S j)%nat = (k <? j)%nat) by (destruct (Nat.ltb_spec k (S j)), (Nat.ltb_spec k j); lia).
    rewrite E. cbn. lia.
Qed.

Lemma tallied_bucket ts rs i lat j :
  ts !! i = Some (lat, PBucket j) → (j < 4)%nat → tallied ts rs →
  tallied (<[i := (lat, PBucket (S j))]> ts) (add_bucket j lat rs).
Proof.
  intros Hi Hj [H1 H2 H3 H4 H5 H6]. pose proof (Forall_lookup_1 _ _ _ _ H6 Hi) as [Hlat _]. cbn in Hlat.
  unfold add_bucket. pose proof (λ k, bucketed_step k j lat _ eq_refl) as Hb.
  set (bound := default 0 (requestLatencyBucketBounds !! j)) in *.
  assert (Hs : Forall (λ t : thread, 0 <= t.1 ∧ match t.2 with PCas cur => cur < t.1 | PBucket i => (i ≤ 4)%nat | _ => True end)
                 (<[i := (lat, PBucket (S j))]> ts)) by (apply Forall_insert; [done|]; cbn; split; [done|lia]).
  destruct (lat <=? bound) eqn:El; split; cbn [rs_count rs_latencySumMs rs_latencyMaxMs rs_buckets];
    rewrite ?(total_same _ _ _ _ _ Hi) by done; rewrite ?(highest_same _ _ _ _ Hi) by done; try done.
  - by rewrite length_alter.
  - intros k Hk. rewrite (total_insert _ _ _ _ _ Hi), Hb by done. destruct (Nat.eqb_spec k j) as [->|Hne].
    + rewrite list_lookup_alter_eq, H5 by done. cbn. f_equal. apply u64_step.
    + rewrite list_lookup_alter_ne, H5 by (lia || done). cbn. by rewrite Z.add_0_r.
  - intros k Hk. rewrite (total_insert _ _ _ _ _ Hi), Hb, H5 by done. rewrite andb_false_r. by rewrite Z.add_0_r.
Qed.

Lemma cstep_tallied c c' : cstep c c' → tallied c.1 c.2 → tallied c'.1 c'.2.
Proof.
  intros [i lat pc pc' ts rs rs' Hi Ha] HT. cbn [fst snd] in *.
  pose proof (Forall_lookup_1 _ _ _ _ (ta_threads _ _ HT) Hi) as [Hlat Hpc]. cbn in Hlat, Hpc.
  destruct pc as [| | |cur|j]; cbn [act] in Ha.
  - injection Ha as <- <-. destruct HT as [H1 H2 H3 H4 H5 H6]. split; cbn; try done.
    + rewrite (total_insert _ _ _ _ _ Hi), H1, u64_step. f_equal; cbn; lia.
    + by rewrite (total_same _ _ _ _ _ Hi).
    + by rewrite (highest_same _ _ _ _ Hi).
    + intros k Hk. rewrite H5 by done. by rewrite (total_same _ _ _ _ _ Hi).
    + by apply Forall_insert.
  - injection Ha as <- <-. destruct HT as [H1 H2 H3 H4 H5 H6]. split; cbn; try done.
    + by rewrite (total_same _ _ _ _ _ Hi).
    + rewrite (total_insert _ _ _ _ _ Hi), H2, u64_step. f_equal; cbn; lia.
    + by rewrite (highest_same _ _ _ _ Hi).
    + intros k Hk. rewrite H5 by done. by rewrite (total_same _ _ _ _ _ Hi).
    + by apply Forall_insert.
  - injection Ha as <- <-. destruct (Z.leb_spec lat (rs_latencyMaxMs rs)).
    + eapply tallied_past; try done. cbn. lia.
    + by eapply tallied_move.
  - destruct (Z.eqb_spec (rs_latencyMaxMs rs) cur) as [Em|Em]; injection Ha as <- <-.
    + eapply tallied_past; try done. cbn. lia.
    + by eapply tallied_move.
  - destruct (Nat.ltb_spec j (length requestLatencyBucketBounds)) as [Hj|]; [|done]. injection Ha as <- <-.
    by apply tallied_bucket.
Qed.

(** The counters of a list of latencies. *)
Definition tally_of (lats : list Z) : requestStats :=
  mkRS (u64 (Z.of_nat (length lats))) (u64 (zsum lats)) (zmax lats)
    (map (λ b, u64 (count_le b lats)) requestLatencyBucketBounds).

Lemma count_le_cons b x l : count_le b (x :: l) = (if x <=? b then 1 else 0) + count_le b l.
Proof.
  unfold count_le. rewrite filter_cons.
  destruct (Z.leb_spec x b); [rewrite decide_True by done|rewrite decide_False by lia]; cbn [length]; lia.
Qed.

Lemma finished_pc (t : thread) : act t.1 t.2 requestStats_zero = None → ∃ j, t.2 = PBucket j ∧ (4 ≤ j)%nat.
Proof.
  destruct t as [lat [| | |cur|j]]; cbn [act fst snd]; try done; [by case_match|].
  destruct (Nat.ltb_spec j (length requestLatencyBucketBounds)) as [|Hj]; [done|]. intros _. by exists j.
Qed.

Lemma finished_totals ts :
  finished ts →
  total counted ts = Z.of_nat (length ts) ∧ total summed ts = zsum ts.*1 ∧ highest ts = zmax ts.*1 ∧
  ∀ i b, requestLatencyBucketBounds !! i = Some b → total (bucketed i) ts = count_le b ts.*1.
Proof.
  unfold total, highest. induction 1 as [|t ts Ht _ (I1 & I2 & I3 & I4)]; [split_and!; [done..|]; intros; reflexivity|].
  destruct (finished_pc t Ht) as (j & Ej & Hj). destruct t as [lat pc]. cbn in Ej. subst pc.
  cbn [map fmap list_fmap]. split_and!.
  - unfold zsum in *. cbn. lia.
  - unfold zsum in *. cbn. lia.
  - unfold zmax in *. cbn. lia.
  - intros i b Hb. rewrite count_le_cons, <- (I4 i b Hb). unfold zsum. cbn [foldr]. f_equal.
    pose proof (lookup_lt_Some _ _ _ Hb) as Hl. cbn in Hl. unfold bucketed. cbn [fst snd].
    rewrite Hb, (proj2 (Nat.ltb_lt i j)) by lia. done.
Qed.

Lemma finished_tally ts rs : tallied ts rs → finished ts → rs = tally_of ts.*1.
Proof.
  intros [H1 H2 H3 H4 H5 _] Hf. destruct (finished_totals ts Hf) as (F1 & F2 & F3 & F4).
  destruct rs as [c sm mx bs]. cbn in *. unfold tally_of. rewrite length_fmap. f_equal; [congruence..|].
  destruct bs as [|b0 [|b1 [|b2 [|b3 [|? ?]]]]]; try done.
  pose proof (H5 0%nat ltac:(lia)) as B0. rewrite (F4 0%nat 10 eq_refl) in B0.
  pose proof (H5 1%nat ltac:(lia)) as B1. rewrite (F4 1%nat 100 eq_refl) in B1.
  pose proof (H5 2%nat ltac:(lia)) as B2. rewrite (F4 2%nat 1000 eq_refl) in B2.
  pose proof (H5 3%nat ltac:(lia)) as B3. rewrite (F4 3%nat 10000 eq_refl) in B3.
  cbn [lookup list_lookup] in *. cbn [map requestLatencyBucketBounds]. congruence.
Qed.

(** One request after the other. *)
Lemma record_tally d lats : record d (tally_of lats) = tally_of (lats ++ [latency_ms d]).
Proof.
  assert (H : 0 <= latency_ms d) by (unfold latency_ms; apply u64_range).
  unfold record, tally_of. set (lat := latency_ms d) in *. rewrite length_app, zsum_snoc, (proj1 (zmax_snoc lats lat)).
  unfold add_count, add_sum. cbn [rs_count rs_latencySumMs rs_latencyMaxMs rs_buckets].
  rewrite !u64_step. replace (Z.of_nat (length lats + length [lat])) with (Z.of_nat (length lats) + 1) by (cbn; lia).
  unfold requestLatencyBucketBounds. cbn [length seq fold_left map]. rewrite !count_le_snoc. unfold add_bucket, set_max.
  destruct (Z.leb_spec lat (zmax lats)); cbn [requestLatencyBucketBounds lookup list_lookup default from_option id].
  all: rewrite ?Z.max_l, ?Z.max_r by lia.
  all: do 4 (destruct (lat <=? _); cbn [alter list_alter rs_count rs_latencySumMs rs_latencyMaxMs rs_buckets]).
  all: by rewrite ?u64_step, ?Z.add_0_r.
Qed.

Lemma records_tally ds lats :
  fold_left (λ rs d, record d rs) ds (tally_of lats) = tally_of (lats ++ map latency_ms ds).
Proof.
  revert lats. induction ds as [|d ds IH]; intros lats; [by rewrite app_nil_r|].
  cbn [fold_left map]. by rewrite record_tally, IH, <- app_assoc.
Qed.

Lemma arrived_tallied ds : tallied (arrived ds) requestStats_zero.
Proof.
  assert (Z0 : ∀ g : thread → Z, (∀ lat, g (lat, PCount) = 0) → total g (arrived ds) = 0).
  { intros g Hg. unfold total, arrived, zsum. induction ds as [|d ds IH]; [done|]. cbn in *. by rewrite Hg, IH. }
  split; rewrite ?Z0 by done; try done.
  - unfold highest, arrived, zmax. clear. induction ds as [|d ds IH]; [done|]. cbn in *. by rewrite <- IH.
  - intros i Hi. rewrite Z0 by done. cbn. destruct i as [|[|[|[|i]]]]; [done..|lia].
  - unfold arrived. apply Forall_forall. intros t Ht. apply list_elem_of_fmap in Ht as (d & -> & _).
    cbn. split; [unfold latency_ms; apply u64_range|done].
Qed.

Lemma csteps_invariant ds c :
  rtc cstep (arrived ds, requestStats_zero) c → tallied c.1 c.2 ∧ c.1.*1 = map latency_ms ds.
Proof.
  revert c. apply (rtc_ind_r (R := cstep) (λ c, tallied c.1 c.2 ∧ c.1.*1 = map latency_ms ds)).
  - split; [apply arrived_tallied|]. unfold arrived. cbn. rewrite <- list_fmap_compose. by apply list_fmap_ext.
  - clear. intros c c' _ Hs [HT Hm]. split; [by eapply cstep_tallied|].
    destruct Hs as [i lat pc pc' ts rs rs' Hi _]. cbn in *. rewrite list_fmap_insert. cbn.
    rewrite <- Hm. apply list_insert_id. by rewrite list_lookup_fmap, Hi.
Qed.

(** C29: The lock-free statistics lose nothing. However the atomic operations of any
    number of requests interleave, once all have finished the counters are the ones
    that recording the requests one after the other gives, and (while the totals fit
    64 bits) the snapshot reports exactly their number, sum, maximum and integer mean
    in milliseconds, and for each bound the number of requests at most that slow. *)
Theorem stats_linearizable ds ts rs :
  rtc cstep (arrived ds, requestStats_zero) (ts, rs) → finished ts →
  zsum (map latency_ms ds) < 2 ^ 64 → Z.of_nat (length ds) < 2 ^ 64 →
  let l := map latency_ms ds in
  rs = fold_left (λ rs d, record d rs) ds requestStats_zero ∧
  rs_snapshot rs = mkRequestStats (Z.of_nat (length ds)) (zsum l) (zmax l)
    (if 0 <? Z.of_nat (length ds) then zsum l / Z.of_nat (length ds) else 0)
    [(10, count_le 10 l); (100, count_le 100 l); (1000, count_le 1000 l); (10000, count_le 10000 l);
     (0, Z.of_nat (length ds))].
Proof.
  intros H Hf Hs Hn l. fold l in Hs. destruct (csteps_invariant ds _ H) as [HT Hm]. cbn [fst snd] in *.
  rewrite (finished_tally ts rs HT Hf), Hm. split; [symmetry; apply (records_tally ds [])|].
  assert (Hnn : 0 <= zsum l).
  { apply zsum_nonneg, Forall_forall. intros x Hx. apply list_elem_of_fmap in Hx as (d & -> & _). unfold latency_ms. apply u64_range. }
  unfold rs_snapshot, tally_of. fold l. assert (El : length l = length ds) by apply length_map. rewrite El.
  cbn [rs_count rs_latencySumMs rs_latencyMaxMs rs_buckets]. rewrite (u64_id (Z.of_nat (length ds))), (u64_id (zsum l)) by (unfold is_u64; lia).
  f_equal. unfold requestLatencyBucketBounds. cbn [map zip zip_with app].
  pose proof (count_le_range 10 l). pose proof (count_le_range 100 l). pose proof (count_le_range 1000 l).
  pose proof (count_le_range 10000 l). rewrite !u64_id by (unfold is_u64; lia). done.
Qed.

(** ** Progress *)

(** How far a request has to go; a failed CompareAndSwap costs a new round. *)
Definition weight (max : Z) (t : thread) : nat :=
  match t.2 with
  | PCount => 9 | PSum => 8 | PLoad => 7
  | PCas cur => if max =? cur then 6 else 8
  | PBucket i => 4 - i
  end.
Definition before_max (t : thread) : nat := match t.2 with PBucket _ => 0 | _ => 1 end.
Definition sum_nat (g : thread → nat) (ts : list thread) : nat := sum_list_with g ts.
Definition fuel (c : list thread * requestStats) : nat :=
  sum_nat (weight (rs_latencyMaxMs c.2)) c.1 + 2 * length c.1 * sum_nat before_max c.1.

Lemma sum_nat_insert g ts i t t' :
  ts !! i = Some t → (sum_nat g (<[i := t']> ts) + g t = sum_nat g ts + g t')%nat.
Proof.
  unfold sum_nat. revert i. induction ts as [|x ts IH]; intros [|i] H; simplify_eq/=; [lia|]. pose proof (IH i H). lia.
Qed.

Lemma weight_change m m' ts : (sum_nat (weight m') ts ≤ sum_nat (weight m) ts + 2 * length ts)%nat.
Proof.
  unfold sum_nat. induction ts as [|[lat pc] ts IH]; [done|]. cbn [sum_list_with length].
  assert (weight m' (lat, pc) ≤ weight m (lat, pc) + 2)%nat by (destruct pc; cbn; repeat case_match; lia). lia.
Qed.

Lemma cstep_fuel c c' : cstep c c' → (fuel c' < fuel c)%nat.
Proof.
  intros [i lat pc pc' ts rs rs' Hi Ha]. unfold fuel. cbn [fst snd]. rewrite length_insert.
  pose proof (sum_nat_insert before_max ts i _ (lat, pc') Hi) as Hb.
  pose proof (sum_nat_insert (weight (rs_latencyMaxMs rs')) ts i _ (lat, pc') Hi) as Hw.
  set (b := sum_nat before_max ts) in *. set (b' := sum_nat before_max (<[i:=(lat, pc')]> ts)) in *.
  assert (Hlen : (0 < length ts)%nat) by (apply lookup_lt_Some in Hi; lia).
  destruct pc as [| | |cur|j]; cbn [act] in Ha.
  - injection Ha as <- <-. cbn [before_max weight snd add_count rs_latencyMaxMs] in *. replace b' with b by lia. lia.
  - injection Ha as <- <-. cbn [before_max weight snd add_sum rs_latencyMaxMs] in *. replace b' with b by lia. lia.
  - injection Ha as <- <-.
    destruct (lat <=? rs_latencyMaxMs rs); cbn [before_max weight snd Nat.sub] in *; rewrite ?Z.eqb_refl in *.
    + replace b with (S b') by lia. lia.
    + replace b' with b by lia. lia.
  - destruct (Z.eqb_spec (rs_latencyMaxMs rs) cur) as [<-|Hne]; injection Ha as <- <-.
    + pose proof (weight_change (rs_latencyMaxMs rs) lat ts) as Hc.
      cbn [before_max weight snd Nat.sub rs_latencyMaxMs set_max] in *. replace b with (S b') by lia.
      destruct (lat =? rs_latencyMaxMs rs); lia.
    + cbn [before_max weight snd] in *. destruct (Z.eqb_spec (rs_latencyMaxMs rs) cur); [done|]. replace b' with b by lia. lia.
  - destruct (Nat.ltb_spec j (length requestLatencyBucketBounds)) as [Hj|]; [|done]. injection Ha as <- <-. cbn in Hj.
    assert (rs_latencyMaxMs (add_bucket j lat rs) = rs_latencyMaxMs rs) as E by (unfold add_bucket; by case_match).
    rewrite E in *. cbn [before_max weight snd] in *. replace b' with b by lia. lia.
Qed.

Lemma csteps_bounded k c c' : nsteps cstep k c c' → (k + fuel c' ≤ fuel c)%nat.
Proof. induction 1 as [c|k c c1 c' H _ IH]; [lia|]. apply cstep_fuel in H. lia. Qed.

Lemma arrived_fuel ds : (fuel (arrived ds, requestStats_zero) = length ds * (9 + 2 * length ds))%nat.
Proof.
  unfold fuel, arrived, sum_nat. cbn [fst snd]. rewrite length_map.
  assert (E : ∀ g n, (∀ lat, g (lat, PCount) = n) →
    sum_list_with g (map (λ d, (latency_ms d, PCount)) ds) = (length ds * n)%nat).
  { intros g n Hg. induction ds as [|d ds IH]; [done|]. cbn. by rewrite Hg, IH. }
  rewrite (E _ 9%nat), (E _ 1%nat) by done. lia.
Qed.

(** The updates finish. From any number of requests that arrive together, every
    interleaving stops after at most n (2 n + 9) atomic operations, the retries of the
    CompareAndSwap loop included, and it only stops when every request is done: no
    request waits for another. *)
Theorem record_terminates ds k c :
  nsteps cstep k (arrived ds, requestStats_zero) c →
  (k ≤ length ds * (2 * length ds + 9))%nat ∧ (finished c.1 ∨ ∃ c', cstep c c').
Proof.
  intros H. split; [apply csteps_bounded in H; rewrite arrived_fuel in H; lia|].
  destruct c as [ts rs]. cbn. clear H. destruct (decide (Exists (λ t : thread, act t.1 t.2 rs ≠ None) ts)) as [He|He].
  - right. apply Exists_exists in He as ([lat pc] & Hin & Hact). apply list_elem_of_lookup in Hin as [i Hi].
    cbn in Hact. destruct (act lat pc rs) as [[pc' rs']|] eqn:E; [|done]. eexists. by econstructor.
  - left. apply Forall_forall. intros [lat pc] Hin. cbn.
    assert (act lat pc rs = None).
    { destruct (act lat pc rs) eqn:E; [|done]. exfalso. apply He. apply Exists_exists. exists (lat, pc). split; [done|]. cbn. by rewrite E. }
    destruct pc as [| | |cur|j]; cbn [act] in *; try done; [by case_match|]. by case_match.
Qed.

(** ** The middleware observes what is sent *)

Lemma recorder_sees acts :
  let rec := fold_left sr_exec acts (mkSR 0 false) in
  let w := fold_left wexec acts (mkWState None ∅ []) in
  w_sent w = (if sr_wroteHeader rec then Some (sr_status rec) else None) ∧ (sr_wroteHeader rec = false → sr_status rec = 0).
Proof.
  induction acts as [|a acts IH] using rev_ind; [done|]. cbv zeta in *. rewrite !fold_left_app. cbn [fold_left].
  set (rec := fold_left sr_exec acts _) in *. set (w := fold_left wexec acts _) in *. clearbody rec w.
  destruct IH as [Hw H0]. destruct rec as [st []], a; cbn in *; rewrite Hw; cbn; split; done || auto.
Qed.

Definition labels : list string := "other" :: map rt_label routeLabels.

Lemma endpointLabel_bounded path : endpointLabel path ∈ labels.
Proof.
  unfold endpointLabel, labels. destruct (find (route_takes path) routeLabels) as [r|] eqn:E; [|left].
  right. apply find_some in E as [Hin _]. apply list_elem_of_In. by apply in_map.
Qed.

Definition written (acts : list wact) : Prop := Exists (λ a, match a with SetHeader _ _ => False | _ => True end) acts.
#[export] Instance written_dec acts : Decision (written acts).
Proof. apply Exists_dec. intros []; cbn; apply _. Defined.

Lemma written_recorder acts : sr_wroteHeader (fold_left sr_exec acts (mkSR 0 false)) = bool_decide (written acts).
Proof.
  induction acts as [|a acts IH] using rev_ind; [symmetry; apply bool_decide_eq_false_2; by intros H%Exists_nil|].
  rewrite fold_left_app. cbn [fold_left]. set (rec := fold_left sr_exec acts _) in *.
  assert (Hw : bool_decide (written (acts ++ [a])) =
    bool_decide (written acts) || match a with SetHeader _ _ => false | _ => true end).
  { apply Bool.eq_iff_eq_true. rewrite bool_decide_eq_true, orb_true_iff, bool_decide_eq_true. unfold written.
    rewrite Exists_app, Exists_cons, Exists_nil. destruct a; naive_solver. }
  rewrite Hw, <- IH. destruct rec as [st []], a; done.
Qed.

(** Every request is observed as it was answered. The middleware passes the handler's
    response on untouched, folds the latency in once, and reports the method, one of
    twelve endpoint labels whatever the path, and the status the client receives; a
    handler that writes nothing at all is reported with code 0, although the client
    receives 200. *)
Theorem requests_observed {A} (next : A → A * list wact) r elapsed (s : A * requestStats) :
  let '(s', acts, ob) := metricsMiddleware next r elapsed s in
  (s'.1, acts) = next s.1 ∧ s'.2 = record elapsed s.2 ∧
  ob_method ob = r_Method r ∧ ob_endpoint ob ∈ labels ∧ length labels = 12%nat ∧
  ob_status ob = (if bool_decide (written acts) then resp_status (respond acts) else 0) ∧
  (¬ written acts → resp_status (respond acts) = 200).
Proof.
  unfold metricsMiddleware. destruct (next s.1) as [a acts]. cbn [fst snd ob_method ob_endpoint ob_status].
  split_and!; [done..|apply endpointLabel_bounded|done| |].
  - rewrite <- written_recorder. destruct (recorder_sees acts) as [Hw H0]. unfold respond. cbn [resp_status].
    rewrite Hw. destruct (sr_wroteHeader _); [done|by apply H0].
  - intros Hn. destruct (recorder_sees acts) as [Hw _]. cbv zeta in Hw. rewrite written_recorder in Hw.
    rewrite bool_decide_eq_false_2 in Hw by done. unfold respond. cbn [resp_status]. by rewrite Hw.
Qed.

(** ** The telemetry page *)

Lemma count_status_fold fleet (m0 : gmap string Z) st :
  default 0 (fold_left (λ m wk, let st := WorkerStatus_String (Worker_Status wk) in <[st := default 0 (m !! st) + 1]> m)
               fleet m0 !! st) =
  default 0 (m0 !! st) + Z.of_nat (length (filter (λ wk, WorkerStatus_String (Worker_Status wk) = st) fleet)).
Proof.
  revert m0. induction fleet as [|wk fleet IH]; intros m0; [symmetry; apply Z.add_0_r|]. cbn [fold_left]. rewrite IH, filter_cons.
  destruct (decide (WorkerStatus_String (Worker_Status wk) = st)) as [<-|Hne].
  - rewrite lookup_insert_eq. cbn [default from_option length]. unfold id. lia.
  - rewrite lookup_insert_ne by done. done.
Qed.

Lemma count_status_spec fleet st :
  default 0 (count_status fleet !! st) = Z.of_nat (length (filter (λ wk, WorkerStatus_String (Worker_Status wk) = st) fleet)).
Proof. unfold count_status. rewrite count_status_fold, lookup_empty. cbn [default from_option]. lia. Qed.

Lemma status_partition fleet :
  let n st := length (filter (λ wk, WorkerStatus_String (Worker_Status wk) = st) fleet) in
  (n "online" + n "draining" + n "stale" = length fleet)%nat.
Proof.
  cbv zeta. induction fleet as [|wk fleet IH]; [done|]. rewrite !filter_cons.
  destruct (Worker_Status wk) eqn:E; cbn [WorkerStatus_String];
    repeat (destruct (decide _); try done); cbn [length]; lia.
Qed.

(** The telemetry page is a read of the state it describes. Nothing changes; the
    request section is the snapshot of the request statistics, the throttle counts are
    the limiter's; every worker of the fleet is counted under exactly one status, so
    the counts by status add up to the worker count; and the uptime is not negative. *)
Theorem telemetry_exact {KS CS SS} `{!KeyStore KS} `{!CounterStore CS} `{!SessionStore SS} startedAt fleet_now now
    (h : HServer KS CS SS) rs :
  ∃ v, handleAdminTelemetry startedAt fleet_now now (h, rs) = ((h, rs), writeJSON StatusOK (PTelemetry v)) ∧
    TR_Requests v = (let r := rs_snapshot rs in
                     mkWaitTime (RS_Count r) (RS_SumMs r) (RS_MaxMs r) (RS_MeanMs r) (RS_Buckets r)) ∧
    (TR_Global v, TR_Key v) = (h_globalThrottled h, h_keyThrottled h) ∧
    let fleet := Fleet fleet_now (h_ctl h) in
    let n st := default 0 (TF_ByStatus (TR_Fleet v) !! st) in
    TF_WorkerCount (TR_Fleet v) = Z.of_nat (length fleet) ∧
    (∀ st, n st = Z.of_nat (length (filter (λ wk, WorkerStatus_String (Worker_Status wk) = st) fleet))) ∧
    n "online" + n "draining" + n "stale" = TF_WorkerCount (TR_Fleet v) ∧
    0 <= TR_UptimeSeconds v.
Proof.
  eexists. split; [reflexivity|]. cbn [TR_Requests TR_Global TR_Key TR_Fleet TF_ByStatus TF_WorkerCount TR_UptimeSeconds].
  split_and!; try done.
  - intros st. apply count_status_spec.
  - rewrite !count_status_spec. pose proof (status_partition (Fleet fleet_now (h_ctl h))) as Hp. cbv zeta in Hp. lia.
  - unfold uptimeSeconds. case_match; [done|]. case_match; [done|].
    unfold ftrunc, Seconds, fadd. apply Z.div_pos; [|apply f_den_pos]. apply round64_nonneg, Z.mul_pos_pos; apply f_den_pos.
Qed.

(** ** Witnesses *)

(** Two requests of 5 ms and 20 ms; the second loads the maximum before the first has
    raised it, loses its CompareAndSwap and retries. *)
Fixpoint schedule (order : list nat) (c : list thread * requestStats) : list thread * requestStats :=
  match order with
  | [] => c
  | i :: order =>
      match c.1 !! i with
      | Some (lat, pc) =>
          match act lat pc c.2 with Some (pc', rs') => schedule order (<[i := (lat, pc')]> c.1, rs') | None => c end
      | None => c
      end
  end.

Lemma schedule_run order c : rtc cstep c (schedule order c).
Proof.
  revert c. induction order as [|i order IH]; intros c; [done|]. cbn [schedule].
  destruct (c.1 !! i) as [[lat pc]|] eqn:E; [|done]. destruct (act lat pc c.2) as [[pc' rs']|] eqn:Ea; [|done].
  eapply rtc_l; [|apply IH]. destruct c as [ts rs]. by econstructor.
Qed.

Definition demo_ds : list Duration := [5 * Millisecond; 20 * Millisecond].
Definition demo_order : list nat := [0; 1; 0; 1; 0; 1; 0; 1; 1; 1; 0; 0; 1; 0; 1; 0; 1; 1]%nat.
Definition demo_end := schedule demo_order (arrived demo_ds, requestStats_zero).

Lemma stats_linearizable_witness :
  rs_snapshot demo_end.2 = mkRequestStats 2 25 20 12 [(10, 1); (100, 2); (1000, 2); (10000, 2); (0, 2)].
Proof.
  destruct (stats_linearizable demo_ds demo_end.1 demo_end.2) as [_ E].
  - rewrite <- surjective_pairing. apply schedule_run.
  - repeat constructor.
  - vm_compute. reflexivity.
  - vm_compute. reflexivity.
  - rewrite E. vm_compute. reflexivity.
Defined.

Lemma record_terminates_witness :
  ∃ k, nsteps cstep k (arrived demo_ds, requestStats_zero) demo_end ∧ (k ≤ 26)%nat.
Proof.
  destruct (proj1 (rtc_nsteps _ _) (schedule_run demo_order (arrived demo_ds, requestStats_zero))) as [k Hk].
  exists k. split; [exact Hk|]. exact (proj1 (record_terminates demo_ds k _ Hk)).
Defined.
