(* ===== verification/Console.v ===== *)
(** * Console.v: the admin console's login and writes (internal/httpapi)

    The browser side of the admin surface: sign-in and the session cookie, the scope
    gate and the double-submit CSRF check of every route (webui.go), the key, worker
    and settings forms (webui_keys.go, webui_workers.go, webui_settings.go).

    A page is the data its template is given; the templates themselves (generated
    code) only turn it into HTML.  [rnd] is the entropy of newID.  A text setting is
    kept as posted, where json.Marshal would replace bytes that are not UTF-8. *)

From Stdlib Require Import Ascii.
From S2P Require Import Prelude Errors AtomicFile GoTime GoStrings GoConv GoSort Types Queue Store Authz Auth AuditLog Scheduler Quota History Session ServerWorker Server Http HttpServer AdminApi RuntimeConfig FleetApi.
Open Scope Z_scope.

(** ** Requests and responses *)

(** A request with the posted form ([PostForm]; [u_formErr] when ParseForm fails),
    the raw query and whether the connection is TLS. *)
Record ui_request := mkUI {
  u_req : Request; u_form : gmap string (list string); u_formErr : bool; u_rawQuery : string; u_tls : bool }.
Definition PostForm (u : ui_request) (key : string) : list string := default [] (u_form u !! key).
Definition PostFormValue (u : ui_request) (key : string) : string :=
  match PostForm u key with v :: _ => v | [] => "" end.

(** Every cookie has Path / and SameSite Lax. *)
Record cookie := mkCookie {
  ck_name : string; ck_value : string; ck_httpOnly : bool; ck_secure : bool; ck_maxAge : Z }.

Inductive tone := ToneOK | ToneWarn | ToneDanger | ToneInfo | ToneIdle.
Inductive page :=
| PgNone
| PgLogin (csrf error next : string)
| PgError (message : string)
| PgDashboard (viewer : string) (csrf : string) (nav : list (string * bool))
| PgToast (t : tone) (title message : string)
| PgReveal (id name token title : string) (rotated : bool)
| PgSettings (settings : option ConfigSettings) (title message : string)
| PgFieldError (message : string).

(** [ui_location] is the target given to http.Redirect. *)
Record ui_response := mkUIResp {
  ui_status : Z; ui_location : option string; ui_cookies : list cookie; ui_page : page }.
Definition show (status : Z) (p : page) : ui_response := mkUIResp status None [] p.
Definition StatusSeeOther : Z := 303.

(** ** Cookies and tokens *)

Definition uiBasePath : string := "/admin/".
Definition csrfCookieName : string := "agpu_csrf".
Definition sessionTTL : Duration := Hour.

(** [strings.EqualFold] with https; the long s is the only other form of s. *)
Fixpoint fold_bytes (l : bytes) : bytes :=
  match l with
  | [] => []
  | 197 :: 191 :: r => 115 :: fold_bytes r
  | b :: r => (if (65 <=? b) && (b <=? 90) then b + 32 else b) :: fold_bytes r
  end.
Definition requestIsHTTPS (u : ui_request) : bool :=
  u_tls u || bool_decide (fold_bytes (bytes_of_string (r_Header (u_req u) "X-Forwarded-Proto")) = bytes_of_string "https").

Definition max_age : Z := Z.quot sessionTTL Second.
Definition setSessionCookie (token : string) (secure : bool) : cookie := mkCookie sessionCookieName token true secure max_age.
Definition writeCSRFCookie (tok : string) (secure : bool) : cookie := mkCookie csrfCookieName tok false secure max_age.
Definition rotateCSRFCookie (rnd : result bytes) (secure : bool) : cookie := writeCSRFCookie (newID rnd "csrf-") secure.
Definition clearSessionCookies (u : ui_request) : list cookie :=
  let secure := requestIsHTTPS u in
  [mkCookie sessionCookieName "" true secure (-1); mkCookie csrfCookieName "" false secure (-1)].

Definition ensureCSRFCookie (rnd : result bytes) (u : ui_request) : string * list cookie :=
  match r_Cookie (u_req u) csrfCookieName with
  | Some c => if negb (String.eqb c "") then (c, [])
              else let tok := newID rnd "csrf-" in (tok, [writeCSRFCookie tok (requestIsHTTPS u)])
  | None => let tok := newID rnd "csrf-" in (tok, [writeCSRFCookie tok (requestIsHTTPS u)])
  end.

Definition csrfOK (u : ui_request) : bool :=
  if String.eqb (r_Header (u_req u) "Sec-Fetch-Site") "cross-site" then false
  else
    match r_Cookie (u_req u) csrfCookieName with
    | None => false
    | Some c =>
        if String.eqb c "" then false
        else
          let submitted := r_Header (u_req u) "X-CSRF-Token" in
          let submitted := if String.eqb submitted "" then PostFormValue u "csrf_token" else submitted in
          negb (String.eqb submitted "") && String.eqb submitted c
    end.

(** ** Paths *)

Definition HasPrefix (s prefix : string) : bool := String.prefix prefix s.
Fixpoint has_char (p : ascii → bool) (s : string) : bool :=
  match s with EmptyString => false | String c s => p c || has_char p s end.
(** Backslash, carriage return and line feed. *)
Definition unsafe_char (c : ascii) : bool := (byte_of c =? 92) || (byte_of c =? 13) || (byte_of c =? 10).

Definition safeNext (next : string) : string :=
  if String.eqb next "" || negb (HasPrefix next "/") || HasPrefix next "//" then uiBasePath
  else if has_char unsafe_char next then uiBasePath
  else if negb (HasPrefix next uiBasePath) && negb (String.eqb next "/admin") then uiBasePath
  else next.

Definition currentPath (u : ui_request) : string :=
  if negb (HasPrefix (r_Path (u_req u)) "/admin") then ""
  else if negb (String.eqb (u_rawQuery u) "") then r_Path (u_req u) +:+ "?" +:+ u_rawQuery u
  else r_Path (u_req u).

(** [url.QueryEscape]. *)
Definition unreserved (b : Z) : bool :=
  ((48 <=? b) && (b <=? 57)) || ((65 <=? b) && (b <=? 90)) || ((97 <=? b) && (b <=? 122)) ||
  (b =? 45) || (b =? 95) || (b =? 46) || (b =? 126).
Definition upper_hex (x : Z) : Z := if x <? 10 then 48 + x else 55 + x.
Definition escape_byte (b : Z) : bytes :=
  if b =? 32 then [43] else if unreserved b then [b] else [37; upper_hex (b / 16); upper_hex (b mod 16)].
Definition QueryEscape (s : string) : string := string_of_bytes (concat (map escape_byte (bytes_of_string s))).

(** [q.Encode] orders the keys: error before next. *)
Definition login_target (next msg : string) : string :=
  let parts := (if negb (String.eqb msg "") then ["error=" +:+ QueryEscape msg] else []) ++
               (if negb (String.eqb next "") then ["next=" +:+ QueryEscape next] else []) in
  match parts with
  | [] => "/admin/login"
  | [x] => "/admin/login?" +:+ x
  | x :: y :: _ => "/admin/login?" +:+ x +:+ "&" +:+ y
  end.
Definition redirectToLogin (u : ui_request) (msg : string) (cookies : list cookie) : ui_response :=
  let next := currentPath u in
  let next := if String.eqb next "/admin/login" || String.eqb next "/admin/logout" then "" else next in
  mkUIResp StatusSeeOther (Some (login_target next msg)) cookies PgNone.

(** ** The shell *)

Definition nav_entries : list (string * string) :=
  [("Overview", ScopeTelemetryRead); ("Workers", ScopeWorkersRead); ("API keys", ScopeKeysRead);
   ("Usage", ScopeTelemetryRead); ("Telemetry", ScopeTelemetryRead); ("Logs", ScopeLogsRead);
   ("Audit", ScopeAuditRead); ("Settings", ScopeConfigRead)].
Definition buildShell (u : ui_request) (key : APIKey) : page :=
  PgDashboard (APIKey_ID key) (default "" (r_Cookie (u_req u) csrfCookieName))
    (map (λ e, (e.1, HasScope key e.2)) nav_entries).

Definition hasAnyAdminAccess (key : APIKey) : bool :=
  if hasRole (APIKey_Roles key) RoleAdmin then true else (0 <? length (APIKey_AdminScopes key))%nat.

Definition renderLoginError (rnd : result bytes) (u : ui_request) (msg : string) : ui_response :=
  let '(csrf, cookies) := ensureCSRFCookie rnd u in
  mkUIResp StatusUnauthorized None cookies (PgLogin csrf msg (safeNext (PostFormValue u "next"))).

(** [rand] of AdminApi mints keys; a message names the key by its first bytes. *)
Definition shortIDForCrumb (id : string) : string :=
  if (String.length id <=? 8)%nat then id else String.substring 0 8 id +:+ "…".

(** ** Forms *)

(** The separators of a model list; [f] is the field read so far. *)
Definition list_sep (c : ascii) : bool :=
  (byte_of c =? 10) || (byte_of c =? 13) || (byte_of c =? 44) || (byte_of c =? 32) || (byte_of c =? 9).
Fixpoint FieldsFunc (p : ascii → bool) (f s : string) : list string :=
  match s with
  | EmptyString => if String.eqb f "" then [] else [f]
  | String c s =>
      if p c then (if String.eqb f "" then [] else [f]) ++ FieldsFunc p "" s
      else FieldsFunc p (f +:+ String c "") s
  end.
Definition parseModelList (raw : string) : list string :=
  List.filter (λ f, negb (String.eqb f "")) (map TrimSpace (FieldsFunc list_sep "" raw)).

Definition numericConfigField (f : field) : bool :=
  match f with
  | FDefaultRPM | FDefaultTPM | FDefaultDaily | FDefaultMonthly | FGlobalRPM | FGlobalTPM
  | FMaxTurns | FMaxBytes | FMaxContext | FMaxPerKey => true
  | _ => false
  end.
Definition is_digit (c : ascii) : bool := (48 <=? byte_of c) && (byte_of c <=? 57).
Definition isNonNegInteger (s : string) : bool := negb (String.eqb s "") && negb (has_char (λ c, negb (is_digit c)) s).

(** The decoded value of a digit string as JSON: one with a leading zero is none. *)
Definition json_number (s : string) : rawjson :=
  match s with
  | String c (String _ _) => if byte_of c =? 48 then JElse else match digits_loop s 0 with Some n => JInt n | None => JElse end
  | _ => match digits_loop s 0 with Some n => JInt n | None => JElse end
  end.

Definition dq : string := String (ascii_of_nat 34) "".

(** The loop over the form, in the order [keys] in which the map is visited. *)
Fixpoint form_loop (keys : list string) (u : ui_request) (raw : gmap string rawjson) : string + gmap string rawjson :=
  match keys with
  | [] => inr raw
  | key :: keys =>
      if String.eqb key "csrf_token" then form_loop keys u raw
      else if isReadOnlyField key then inl ("field " +:+ dq +:+ key +:+ dq +:+ " is read-only; restart to change it")
      else
        match field_of key with
        | None => form_loop keys u raw
        | Some f =>
            let val := TrimSpace (PostFormValue u key) in
            if String.eqb val "" then form_loop keys u raw
            else if numericConfigField f then
              if negb (isNonNegInteger val)
              then inl ("invalid " +:+ key +:+ " " +:+ val +:+ ": must be a non-negative integer")
              else form_loop keys u (<[key := json_number val]> raw)
            else form_loop keys u (<[key := JStr val]> raw)
        end
  end.
Definition settingsFormToPatch (range : gmap string (list string) → list string) (u : ui_request)
    : string + gmap string rawjson := form_loop (range (u_form u)) u ∅.

(** ** Routes *)

Section console.
Context {KS CS SS : Type} `{!KeyStore KS} `{!CounterStore CS} `{!SessionStore SS}.
Context (rand : nat → nat → result bytes) (quote : string → string).
Context (marshal : gmap string rawjson → result bytes).
Notation hserver := (HServer KS CS SS).
Notation server := (@cserver KS CS SS).

Definition on_auth (a : @Service KS) (s : server) : server := set_http (set_auth a (cs_http s)) s.

Definition expired_msg : string := "Your session has expired. Sign in again.".
Definition broken_msg : string := "Something went wrong on our end. Try again.".
Definition denied_msg : string := "You don't have access to this. Ask for a key with the right admin scope.".

(** The gate of a route; [next] may start a reaper or block ([None]). *)
Notation outcome := (option (server * option (nat * Duration) * ui_response)).
Definition done_ (s : server) (r : ui_response) : outcome := Some (s, None, r).

Definition uiScopeAuth (scope : string) (next : context → server → outcome) (k : hclock) (u : ui_request) (c : context)
    (s : server) : outcome :=
  match tokenFromRequest (u_req u) with
  | None => done_ s (redirectToLogin u "" [])
  | Some token =>
      let '(a, res) := Authenticate (hk_auth k) (hk_used k) token (h_auth (cs_http s)) in
      let s := on_auth a s in
      match res with
      | Err e =>
          if errors_Is e ErrUnauthenticated then done_ s (redirectToLogin u expired_msg (clearSessionCookies u))
          else done_ s (show StatusInternalServerError (PgError broken_msg))
      | Ok key =>
          if negb (HasScope key scope) then done_ s (show StatusForbidden (PgError denied_msg))
          else next (withKey key c) s
      end
  end.

Definition handleUIIndex (k : hclock) (u : ui_request) (s : server) : server * ui_response :=
  if negb (String.eqb (r_Path (u_req u)) uiBasePath)
  then (s, show StatusNotFound (PgError "That console page doesn't exist."))
  else
    match tokenFromRequest (u_req u) with
    | None => (s, redirectToLogin u "" [])
    | Some token =>
        let '(a, res) := Authenticate (hk_auth k) (hk_used k) token (h_auth (cs_http s)) in
        let s := on_auth a s in
        match res with
        | Err _ => (s, redirectToLogin u "" (clearSessionCookies u))
        | Ok key => (s, show StatusOK (buildShell u key))
        end
    end.

Definition login_form (rnd : result bytes) (u : ui_request) : ui_response :=
  let '(csrf, cookies) := ensureCSRFCookie rnd u in
  mkUIResp StatusOK None cookies (PgLogin csrf (r_Query (u_req u) "error") (safeNext (r_Query (u_req u) "next"))).

Definition handleUILoginPage (rnd : result bytes) (k : hclock) (u : ui_request) (s : server) : server * ui_response :=
  match tokenFromRequest (u_req u) with
  | None => (s, login_form rnd u)
  | Some token =>
      let '(a, res) := Authenticate (hk_auth k) (hk_used k) token (h_auth (cs_http s)) in
      let s := on_auth a s in
      match res with
      | Ok _ => (s, mkUIResp StatusSeeOther (Some (safeNext (r_Query (u_req u) "next"))) [] PgNone)
      | Err _ => (s, login_form rnd u)
      end
  end.

Definition handleUILoginSubmit (rnd : result bytes) (k : hclock) (u : ui_request) (s : server) : server * ui_response :=
  if u_formErr u then (s, renderLoginError rnd u "We couldn't read that form. Try again.")
  else if negb (csrfOK u)
  then (s, renderLoginError rnd u "Your session token didn't match. Reload the page and try again.")
  else
    let token := TrimSpace (PostFormValue u "token") in
    if String.eqb token "" then (s, renderLoginError rnd u "Enter an admin API token to sign in.")
    else
      let '(a, res) := Authenticate (hk_auth k) (hk_used k) token (h_auth (cs_http s)) in
      let s := on_auth a s in
      match res with
      | Err _ => (s, renderLoginError rnd u "That token isn't valid. Check it and try again.")
      | Ok key =>
          if negb (hasAnyAdminAccess key)
          then (s, renderLoginError rnd u
                     "That token has no admin access. Ask for a key with an admin role or scope.")
          else
            let secure := requestIsHTTPS u in
            (s, mkUIResp StatusSeeOther (Some (safeNext (PostFormValue u "next")))
                  [setSessionCookie token secure; rotateCSRFCookie rnd secure] PgNone)
      end.

Definition handleUILogout (u : ui_request) : ui_response :=
  if negb (csrfOK u) then redirectToLogin u "" []
  else redirectToLogin u "" (clearSessionCookies u).

(** *** The writes *)

Definition uiWriteGuard (u : ui_request) (s : server) (rest : outcome) : outcome :=
  if negb (csrfOK u)
  then done_ s (show StatusForbidden (PgToast ToneDanger "Couldn't verify that request"
                 "Your session token didn't match. Reload the page and try again."))
  else rest.

Definition unreadable : ui_response :=
  show StatusBadRequest (PgToast ToneDanger "Couldn't read that" "The form was malformed. Reload the page and try again.").

Fixpoint first_bad (valid : string → bool) (l : list string) : option string :=
  match l with [] => None | x :: l => if negb (valid x) then Some x else first_bad valid l end.
Definition validateKeyGrants (roles scopes : list string) : option ui_response :=
  match first_bad ValidRole roles with
  | Some role => Some (show StatusBadRequest (PgToast ToneDanger "Unknown role"
                   ("The role " +:+ role +:+ " isn't recognized. Pick from the listed roles.")))
  | None =>
      match first_bad ValidScope scopes with
      | Some sc => Some (show StatusBadRequest (PgToast ToneDanger "Unknown scope"
                     ("The admin scope " +:+ sc +:+ " isn't recognized. Pick from the listed scopes.")))
      | None => None
      end
  end.

Definition renderKeyWriteError (action id : string) (err : error) : ui_response :=
  if errors_Is err ErrNotFound
  then show StatusNotFound (PgToast ToneDanger "Key not found"
         ("Couldn't " +:+ action +:+ " " +:+ shortIDForCrumb id +:+ " — no such key."))
  else if errors_Is err ErrUnauthenticated
  then show StatusConflict (PgToast ToneWarn "Key is revoked"
         ("Couldn't " +:+ action +:+ " " +:+ shortIDForCrumb id +:+ " — a revoked key can't be rotated."))
  else show StatusInternalServerError (PgToast ToneDanger "That didn't work"
         ("Couldn't " +:+ action +:+ " the key. Try again in a moment.")).

Definition viewerKeyID (c : context) : string := match c_key c with Some k => APIKey_ID k | None => "" end.

Definition handleUIKeyCreate (k : hclock) (u : ui_request) (c : context) (s : server) : outcome :=
  uiWriteGuard u s
    (if u_formErr u then done_ s unreadable
     else
       let name := TrimSpace (PostFormValue u "name") in
       if String.eqb name ""
       then done_ s (show StatusBadRequest (PgToast ToneDanger "Name is required"
                      "Give the key a name so it can be told apart later."))
       else
         let roles := PostForm u "roles" in
         let scopes := PostForm u "admin_scopes" in
         match validateKeyGrants roles scopes with
         | Some bad => done_ s bad
         | None =>
             let perms := mkPermissions roles scopes (parseModelList (PostFormValue u "allow_models"))
                            (parseModelList (PostFormValue u "deny_models")) (TrimSpace (PostFormValue u "owner"))
                            (TrimSpace (PostFormValue u "team")) None (viewerKeyID c) in
             let '(a, r) := CreateWithPermissions rand (hk_op k) name perms (h_auth (cs_http s)) in
             let h := set_auth a (cs_http s) in
             match r with
             | Err _ =>
                 done_ (set_http (recordAudit (hk_audit k) c auditOpKeyCreate "" OutcomeFailure None None h) s)
                   (show StatusInternalServerError (PgToast ToneDanger "Couldn't create the key"
                      "Something went wrong on our end. Try again in a moment."))
             | Ok (token, key) =>
                 done_ (set_http (recordAudit (hk_audit k) c auditOpKeyCreate (APIKey_ID key) OutcomeSuccess None
                                    (auditKeyValues key) h) s)
                   (show StatusCreated (PgReveal (APIKey_ID key) (APIKey_Name key) token "Key created" false))
             end
         end).

Definition handleUIKeyRotate (k : hclock) (u : ui_request) (c : context) (s : server) : outcome :=
  uiWriteGuard u s
    (let id := r_PathValue (u_req u) "id" in
     match Rotate rand id (h_auth (cs_http s)) with
     | (a, Err err) =>
         done_ (set_http (recordAudit (hk_audit k) c auditOpKeyRotate id OutcomeFailure None None
                            (set_auth a (cs_http s))) s) (renderKeyWriteError "rotate" id err)
     | (a, Ok token) =>
         done_ (set_http (recordAudit (hk_audit k) c auditOpKeyRotate id OutcomeSuccess None None
                            (set_auth a (cs_http s))) s) (show StatusOK (PgReveal id "" token "Key rotated" true))
     end).

Definition handleUIKeyRevoke (k : hclock) (u : ui_request) (c : context) (s : server) : outcome :=
  uiWriteGuard u s
    (let id := r_PathValue (u_req u) "id" in
     let before := get_or_zero id (cs_http s) in
     match Revoke (hk_op k) id (h_auth (cs_http s)) with
     | (a, Some err) =>
         done_ (set_http (recordAudit (hk_audit k) c auditOpKeyRevoke id OutcomeFailure (auditKeyValues before) None
                            (set_auth a (cs_http s))) s) (renderKeyWriteError "revoke" id err)
     | (a, None) =>
         let h := set_auth a (cs_http s) in
         let after := get_or_zero id h in
         done_ (set_http (recordAudit (hk_audit k) c auditOpKeyRevoke id OutcomeSuccess (auditKeyValues before)
                            (auditKeyValues after) h) s)
           (show StatusOK (PgToast ToneWarn "Key revoked" ("Key " +:+ shortIDForCrumb id +:+ " can no longer authenticate.")))
     end).

Definition handleUIKeyPermissions (k : hclock) (u : ui_request) (c : context) (s : server) : outcome :=
  uiWriteGuard u s
    (if u_formErr u then done_ s unreadable
     else
       let id := r_PathValue (u_req u) "id" in
       let roles := PostForm u "roles" in
       let scopes := PostForm u "admin_scopes" in
       match validateKeyGrants roles scopes with
       | Some bad => done_ s bad
       | None =>
           let before := get_or_zero id (cs_http s) in
           match SetPermissions id (mkPermissions roles scopes (parseModelList (PostFormValue u "allow_models"))
                   (parseModelList (PostFormValue u "deny_models")) "" "" None "") (h_auth (cs_http s)) with
           | (a, Err err) =>
               done_ (set_http (recordAudit (hk_audit k) c auditOpKeyPermissions id OutcomeFailure
                        (auditKeyValues before) None (set_auth a (cs_http s))) s) (renderKeyWriteError "update" id err)
           | (a, Ok key) =>
               done_ (set_http (recordAudit (hk_audit k) c auditOpKeyPermissions id OutcomeSuccess
                        (auditKeyValues before) (auditKeyValues key) (set_auth a (cs_http s))) s)
                 (show StatusOK (PgToast ToneOK "Permissions updated"
                    ("Key " +:+ shortIDForCrumb id +:+ " now has the roles and scopes you set.")))
           end
       end).

Definition auditOpWorkerEvict : string := "worker.evict".

Definition renderWorkerActionError (action id : string) (err : error) : ui_response :=
  if errors_Is err ErrWorkerNotFound
  then show StatusNotFound (PgToast ToneDanger "Worker not connected"
         ("Couldn't " +:+ action +:+ " " +:+ shortIDForCrumb id +:+ " — it isn't in the fleet right now."))
  else show StatusInternalServerError (PgToast ToneDanger "That didn't work"
         ("Couldn't " +:+ action +:+ " the worker. Try again in a moment.")).

(** The common part of drain and evict. *)
Definition drain_with (op action : string) (deadline : Duration) (after : gmap string anyv) (ok : ui_response)
    (k : hclock) (u : ui_request) (c : context) (s : server) : outcome :=
  let id := r_PathValue (u_req u) "id" in
  let '(ctl, reaper, err) := DrainWorkerWithDeadline id deadline (h_ctl (cs_http s)) in
  let h := set_ctl ctl (cs_http s) in
  match err with
  | Some err =>
      Some (set_http (recordAudit (hk_audit k) c op id OutcomeFailure None None h) s, reaper,
            renderWorkerActionError action id err)
  | None => Some (set_http (recordAudit (hk_audit k) c op id OutcomeSuccess None (Some after) h) s, reaper, ok)
  end.

Definition handleUIWorkerDrain (k : hclock) (u : ui_request) (c : context) (s : server) : outcome :=
  uiWriteGuard u s
    (drain_with auditOpWorkerDrain "drain" 0 {[ "status" := AStr "draining" ]}
       (show StatusOK (PgToast ToneOK ("Draining " +:+ shortIDForCrumb (r_PathValue (u_req u) "id"))
          "No new jobs will be dispatched; in-flight jobs finish first.")) k u c s).

Definition handleUIWorkerEvict (k : hclock) (u : ui_request) (c : context) (s : server) : outcome :=
  uiWriteGuard u s
    (drain_with auditOpWorkerEvict "evict" 1 {[ "status" := AStr "draining"; "forced" := ABool true ]}
       (show StatusOK (PgToast ToneWarn ("Evicting " +:+ shortIDForCrumb (r_PathValue (u_req u) "id"))
          "The worker is being disconnected. It will drop from the fleet shortly.")) k u c s).

(** The common part of pull and unload. *)
Definition model_with (op action id model : string) (ok : ui_response) (k : hclock) (c : context)
    (res : option (Server CS SS * option error)) (s : server) : outcome :=
  let target := id +:+ "/" +:+ model in
  match res with
  | None => None
  | Some (ctl, Some err) =>
      done_ (set_http (recordAudit (hk_audit k) c op target OutcomeFailure None None (set_ctl ctl (cs_http s))) s)
        (renderWorkerActionError action id err)
  | Some (ctl, None) =>
      done_ (set_http (recordAudit (hk_audit k) c op target OutcomeSuccess None
               (Some {[ "worker" := AStr id; "model" := AStr model ]}) (set_ctl ctl (cs_http s))) s) ok
  end.

Definition handleUIWorkerPull (ctxDone takeDone : bool) (k : hclock) (u : ui_request) (c : context) (s : server) : outcome :=
  uiWriteGuard u s
    (let id := r_PathValue (u_req u) "id" in
     if u_formErr u then done_ s unreadable
     else
       let model := PostFormValue u "model" in
       if String.eqb model ""
       then done_ s (show StatusBadRequest (PgToast ToneDanger "Model is required" "Enter a model name to pull, e.g. llama3."))
       else model_with auditOpModelPull "pull" id model
              (show StatusOK (PgToast ToneInfo ("Pulling " +:+ model)
                 "The model is downloading on the worker; it appears after the next heartbeat.")) k c
              (AdminPullModel ctxDone takeDone id model (h_ctl (cs_http s))) s).

Definition handleUIWorkerUnload (ctxDone takeDone : bool) (k : hclock) (u : ui_request) (c : context) (s : server) : outcome :=
  uiWriteGuard u s
    (let id := r_PathValue (u_req u) "id" in
     let model := r_PathValue (u_req u) "model" in
     model_with auditOpModelUnload "unload" id model
       (show StatusOK (PgToast ToneOK ("Unloaded " +:+ model) "The model was unloaded from the worker.")) k c
       (AdminUnloadModel ctxDone takeDone id model (h_ctl (cs_http s))) s).

(** *** Settings *)

Definition renderSettingsOK (s : server) (title msg : string) : ui_response :=
  show StatusOK (PgSettings (rc_cur <$> cs_config s) title msg).
Definition renderSettingsFieldError (msg : string) : ui_response := show StatusBadRequest (PgFieldError msg).

Definition handleUIConfigUpdate (range : gmap string (list string) → list string) (io : checkpointIO) (k : hclock)
    (u : ui_request) (c : context) (s : server) : outcome :=
  uiWriteGuard u s
    match cs_config s with
    | None => done_ s (show StatusServiceUnavailable (PgToast ToneDanger "Settings unavailable"
                        "Runtime configuration isn't enabled on this server."))
    | Some rc =>
    if u_formErr u then done_ s unreadable
    else
    match settingsFormToPatch range u with
    | inl msg => done_ s (renderSettingsFieldError msg)
    | inr raw =>
    match applyConfigPatch quote (rc_cur rc) raw with
    | Err e => done_ s (renderSettingsFieldError (error_string e))
    | Ok (pending, changed) =>
        if (size changed =? 0)%nat then done_ s (renderSettingsOK s "No changes" "Every setting already had that value.")
        else
          let before := snapshotFields (rc_cur rc) changed in
          match apply rc pending changed s with
          | (s, Some e) =>
              done_ (set_http (recordAudit (hk_audit k) c auditOpConfigUpdate "config" OutcomeFailure before None (cs_http s)) s)
                (renderSettingsFieldError (error_string e))
          | (s, None) =>
              match cs_config s with
              | None => None
              | Some rc =>
                  let after := snapshotFields (rc_cur rc) changed in
                  let s := set_http (recordAudit (hk_audit k) c auditOpConfigUpdate "config" OutcomeSuccess before after (cs_http s)) s in
                  let disk := (checkpoint marshal io rc (cs_disk s)).1 in
                  let s := mkCServer (cs_http s) (cs_level s) (cs_config s) disk in
                  done_ s (renderSettingsOK s "Settings applied" "Your changes took effect immediately.")
              end
          end
    end end end.

(** *** The routes of the writes *)

Inductive console_write :=
| CWCreate | CWRotate | CWRevoke | CWPermissions | CWDrain | CWEvict
| CWPull (ctxDone takeDone : bool) | CWUnload (ctxDone takeDone : bool)
| CWConfig (range : gmap string (list string) → list string) (io : checkpointIO).

Definition write_scope (w : console_write) : string :=
  match w with
  | CWCreate | CWRotate | CWRevoke | CWPermissions => ScopeKeysWrite
  | CWDrain | CWEvict => ScopeWorkersWrite
  | CWPull _ _ | CWUnload _ _ => ScopeModelsWrite
  | CWConfig _ _ => ScopeConfigWrite
  end.
Definition handle_console (w : console_write) (k : hclock) (u : ui_request) (c : context) (s : server) : outcome :=
  match w with
  | CWCreate => handleUIKeyCreate k u c s
  | CWRotate => handleUIKeyRotate k u c s
  | CWRevoke => handleUIKeyRevoke k u c s
  | CWPermissions => handleUIKeyPermissions k u c s
  | CWDrain => handleUIWorkerDrain k u c s
  | CWEvict => handleUIWorkerEvict k u c s
  | CWPull d t => handleUIWorkerPull d t k u c s
  | CWUnload d t => handleUIWorkerUnload d t k u c s
  | CWConfig range io => handleUIConfigUpdate range io k u c s
  end.
Definition serve_console (w : console_write) (k : hclock) (u : ui_request) (c : context) (s : server) : outcome :=
  uiScopeAuth (write_scope w) (λ c s, handle_console w k u c s) k u c s.

(** ** Theorems *)

(** The double submit: the token of the cookie came back in the header or the form, and
    the browser does not call the request cross-site. *)
Definition double_submitted (u : ui_request) : Prop :=
  ∃ t, t ≠ "" ∧ r_Cookie (u_req u) csrfCookieName = Some t ∧
    (r_Header (u_req u) "X-CSRF-Token" = t ∨
     r_Header (u_req u) "X-CSRF-Token" = "" ∧ PostFormValue u "csrf_token" = t) ∧
    r_Header (u_req u) "Sec-Fetch-Site" ≠ "cross-site".

Lemma csrfOK_spec u : csrfOK u = true ↔ double_submitted u.
Proof.
  unfold csrfOK, double_submitted. destruct (String.eqb_spec (r_Header (u_req u) "Sec-Fetch-Site") "cross-site"); [naive_solver|].
  destruct (r_Cookie (u_req u) csrfCookieName) as [t|]; [|naive_solver].
  destruct (String.eqb_spec t ""); [naive_solver|].
  destruct (String.eqb_spec (r_Header (u_req u) "X-CSRF-Token") "") as [E|E].
  - destruct (String.eqb_spec (PostFormValue u "csrf_token") ""), (String.eqb_spec (PostFormValue u "csrf_token") t); naive_solver.
  - destruct (String.eqb_spec (r_Header (u_req u) "X-CSRF-Token") ""), (String.eqb_spec (r_Header (u_req u) "X-CSRF-Token") t);
      naive_solver.
Qed.

Lemma handle_console_guard w k u c s :
  ¬ double_submitted u → ∃ p, handle_console w k u c s = done_ s (show StatusForbidden p).
Proof.
  intros H. assert (csrfOK u = false) as E by (apply not_true_is_false; by rewrite csrfOK_spec).
  destruct w; cbn [handle_console]; unfold handleUIKeyCreate, handleUIKeyRotate, handleUIKeyRevoke, handleUIKeyPermissions,
    handleUIWorkerDrain, handleUIWorkerEvict, handleUIWorkerPull, handleUIWorkerUnload, handleUIConfigUpdate, uiWriteGuard;
    rewrite E; by eexists.
Qed.

(** C30: A console write needs all three of a valid credential, the scope of its route and
    the double-submitted token. If one is missing, nothing changes but the use stamp of
    a key that did authenticate, no reaper starts, and the browser is sent to the login
    page (303), refused (403), or told of a failure of the store (500). *)
Theorem console_write_guarded w k u c (s : server) :
  (∃ token key, tokenFromRequest (u_req u) = Some token ∧
     (Authenticate (hk_auth k) (hk_used k) token (h_auth (cs_http s))).2 = Ok key ∧
     HasScope key (write_scope w) = true ∧ double_submitted u) ∨
  (∃ a resp, serve_console w k u c s = Some (on_auth a s, None, resp) ∧
     (a = h_auth (cs_http s) ∨ ∃ token, tokenFromRequest (u_req u) = Some token ∧
        a = (Authenticate (hk_auth k) (hk_used k) token (h_auth (cs_http s))).1) ∧
     ui_status resp ∈ [StatusSeeOther; StatusForbidden; StatusInternalServerError]).
Proof.
  unfold serve_console, uiScopeAuth. destruct (tokenFromRequest (u_req u)) as [token|].
  2: { right. exists (h_auth (cs_http s)), (redirectToLogin u "" []). split; [|split; [by left|left]].
       unfold done_, on_auth, set_http, set_auth. by destruct s as [[] ? ? ?]. }
  destruct (Authenticate _ _ token _) as [a [key|e]] eqn:Ea.
  - destruct (HasScope key (write_scope w)) eqn:Es; cbn [negb].
    + destruct (csrfOK u) eqn:Ec.
      * left. exists token, key. apply csrfOK_spec in Ec. rewrite Ea. by split_and!.
      * right. destruct (handle_console_guard w k u (withKey key c) (on_auth a s)) as [p ->].
        { rewrite <- csrfOK_spec. congruence. }
        exists a. eexists. split; [reflexivity|]. split; [right; exists token; rewrite Ea; by split|]. right; left.
    + right. exists a. eexists. split; [reflexivity|]. split; [right; exists token; rewrite Ea; by split|]. right; left.
  - right. exists a. destruct (errors_Is e ErrUnauthenticated); (eexists; split; [reflexivity|]; split; [right; exists token; rewrite Ea; by split|]);
      [left|right; right; left].
Qed.

(** *** Sign-in *)

Definition sets_session (r : ui_response) : Prop := Exists (λ c, ck_name c = sessionCookieName) (ui_cookies r).

Lemma login_error_cookies rnd u msg : ¬ sets_session (renderLoginError rnd u msg).
Proof.
  unfold sets_session, renderLoginError, ensureCSRFCookie. rewrite Exists_exists.
  destruct (r_Cookie (u_req u) csrfCookieName) as [c|]; [destruct (negb (String.eqb c ""))|]; cbn; set_solver.
Qed.

Lemma login_refused rnd u msg (P Q : Prop) :
  ¬ P → let r := renderLoginError rnd u msg in
  (sets_session r ↔ P) ∧ (sets_session r → Q) ∧
  (¬ sets_session r → ui_status r = StatusUnauthorized ∧ ui_location r = None).
Proof.
  intros HP r. pose proof (login_error_cookies rnd u msg) as Hc. fold r in Hc. split_and!; [naive_solver..|].
  intros _. unfold r, renderLoginError. by destruct (ensureCSRFCookie rnd u).
Qed.

Lemma safeNext_local next :
  let t := safeNext next in
  (HasPrefix t "/admin/" = true ∨ t = "/admin") ∧ HasPrefix t "//" = false ∧ has_char unsafe_char t = false.
Proof.
  unfold safeNext. destruct (String.eqb next "" || negb (HasPrefix next "/") || HasPrefix next "//") eqn:E1; [by split; [left|]|].
  destruct (has_char unsafe_char next) eqn:E2; [by split; [left|]|].
  destruct (HasPrefix next uiBasePath) eqn:E3, (String.eqb_spec next "/admin") as [E4|E4]; cbn [negb andb];
    (split; [|split; [|done]]); try done; try (by left); try (by right).
  all: apply orb_false_iff in E1 as [_ E1]; done.
Qed.

(** Sign-in is exact. The session cookie is set exactly when the form was read, its
    CSRF token was double-submitted, and the posted token (without surrounding space)
    authenticates as a key with the admin role or an admin scope; it then carries that
    token, out of reach of scripts, for one hour, with a new CSRF token beside it. In
    every other case the answer is 401 with the form again. The page the browser is
    sent to afterwards is a path of this server under the console, whatever the next
    field says. *)
Theorem login_exact rnd k u (s : server) :
  let '(s', r) := handleUILoginSubmit rnd k u s in
  let token := TrimSpace (PostFormValue u "token") in
  let auth := Authenticate (hk_auth k) (hk_used k) token (h_auth (cs_http s)) in
  (sets_session r ↔ u_formErr u = false ∧ double_submitted u ∧ token ≠ "" ∧
     ∃ key, auth.2 = Ok key ∧ hasAnyAdminAccess key = true) ∧
  (sets_session r → s' = on_auth auth.1 s ∧ ui_status r = StatusSeeOther ∧
     ui_cookies r = [mkCookie sessionCookieName token true (requestIsHTTPS u) 3600;
                     mkCookie csrfCookieName (newID rnd "csrf-") false (requestIsHTTPS u) 3600] ∧
     ∃ t, ui_location r = Some t ∧ (HasPrefix t "/admin/" = true ∨ t = "/admin") ∧ HasPrefix t "//" = false ∧
       has_char unsafe_char t = false) ∧
  (¬ sets_session r → ui_status r = StatusUnauthorized ∧ ui_location r = None).
Proof.
  unfold handleUILoginSubmit. pose proof (csrfOK_spec u) as Hc.
  set (token := TrimSpace (PostFormValue u "token")).
  destruct (u_formErr u); [apply login_refused; naive_solver|].
  destruct (csrfOK u); cbn [negb]; [apply proj1 in Hc; specialize (Hc eq_refl)|apply login_refused; naive_solver].
  destruct (String.eqb_spec token "") as [Et|Et]; [apply login_refused; naive_solver|].
  destruct (Authenticate _ _ token _) as [a [key|e]]; cbn [fst snd]; [|apply login_refused; naive_solver].
  destruct (hasAnyAdminAccess key) eqn:Eh; cbn [negb];
    [|apply login_refused; intros (_ & _ & _ & key' & E & H'); injection E as <-; congruence].
  assert (Hset : sets_session (mkUIResp StatusSeeOther (Some (safeNext (PostFormValue u "next")))
    [setSessionCookie token (requestIsHTTPS u); rotateCSRFCookie rnd (requestIsHTTPS u)] PgNone)) by (by constructor).
  split_and!; [|intros _|done].
  - split; [intros _|by intros _]. split_and!; try done. by exists key.
  - split_and!; try done. eexists. split; [reflexivity|]. apply safeNext_local.
Qed.

(** *** The console and the API do the same *)

(** The same request through the JSON API: the state and the reaper it leaves.  [None]
    where the handler blocks; an eviction has no counterpart. *)
Definition api_effect (w : console_write) (k : hclock) (u : ui_request) (c : context) (s : server)
    : option (server * option (nat * Duration)) :=
  let r := u_req u in
  let via (h : hserver) := Some (set_http h s, None) in
  let allow := parseModelList (PostFormValue u "allow_models") in
  let deny := parseModelList (PostFormValue u "deny_models") in
  match w with
  | CWCreate =>
      via (handleAdminCreateKey rand (Some (mkCreateReq (TrimSpace (PostFormValue u "name"))
        (TrimSpace (PostFormValue u "owner")) (TrimSpace (PostFormValue u "team")) (PostForm u "roles")
        (PostForm u "admin_scopes") allow deny None)) k c (cs_http s)).1
  | CWRotate => via (handleAdminRotateKey rand r k c (cs_http s)).1
  | CWRevoke => via (handleAdminRevokeKey r k c (cs_http s)).1
  | CWPermissions =>
      via (handleAdminSetPermissions (Some (mkPermReq (PostForm u "roles") (PostForm u "admin_scopes") allow deny))
             r k c (cs_http s)).1
  | CWDrain =>
      let '(h, reaper, _) := handleAdminDrainWorker (Some None) r (hk_audit k) c (cs_http s) in Some (set_http h s, reaper)
  | CWEvict => None
  | CWPull d t =>
      match handleAdminPullModel (Some (PostFormValue u "model")) d t r (hk_audit k) c (cs_http s) with
      | Some (h, _) => via h
      | None => None
      end
  | CWUnload d t =>
      match handleAdminUnloadModel d t r (hk_audit k) c (cs_http s) with Some (h, _) => via h | None => None end
  | CWConfig range io =>
      match settingsFormToPatch range u with
      | inr raw => Some ((handleAdminPutConfig quote marshal (Some raw) io (hk_audit k) c s).1, None)
      | inl _ => Some (s, None)
      end
  end.

Lemma set_http_id (s : server) : set_http (cs_http s) s = s.
Proof. by destruct s. Qed.

Lemma first_bad_roles l : first_bad ValidRole l = None ↔ validateRoles l = None.
Proof. induction l as [|x l IH]; cbn [first_bad validateRoles]; [done|]. destruct (ValidRole x); cbn [negb]; [exact IH|split; done]. Qed.
Lemma first_bad_scopes l : first_bad ValidScope l = None ↔ validateScopes l = None.
Proof. induction l as [|x l IH]; cbn [first_bad validateScopes]; [done|]. destruct (ValidScope x); cbn [negb]; [exact IH|split; done]. Qed.

Lemma grants_agree roles scopes :
  (validateKeyGrants roles scopes = None ∧ validateRoles roles = None ∧ validateScopes scopes = None) ∨
  (is_Some (validateKeyGrants roles scopes) ∧
   (is_Some (validateRoles roles) ∨ validateRoles roles = None ∧ is_Some (validateScopes scopes))).
Proof.
  unfold validateKeyGrants. pose proof (first_bad_roles roles) as Hr. pose proof (first_bad_scopes scopes) as Hs.
  destruct (first_bad ValidRole roles), (validateRoles roles); try (exfalso; naive_solver); [right; split; [|left]; by eexists|].
  destruct (first_bad ValidScope scopes), (validateScopes scopes); try (exfalso; naive_solver); [|by left].
  right. split; [by eexists|]. right. split; [done|by eexists].
Qed.

(** A form only yields settings. *)
Lemma form_loop_tunable keys u : ∀ raw raw',
  form_loop keys u raw = inr raw' → (∀ key, is_Some (raw !! key) → isTunableField key = true) →
  ∀ key, is_Some (raw' !! key) → isTunableField key = true.
Proof.
  induction keys as [|x keys IH]; intros raw raw' H Hr; cbn [form_loop] in H; [by injection H as <-|].
  destruct (String.eqb x "csrf_token"); [by apply (IH raw)|]. destruct (isReadOnlyField x); [done|].
  destruct (field_of x) as [f|] eqn:Ef; [|by apply (IH raw)].
  assert (Hx : ∀ j key, is_Some (<[x := j]> raw !! key) → isTunableField key = true).
  { intros j key. destruct (decide (x = key)) as [<-|Hne]; [intros _; apply tunable_field; by exists f|].
    rewrite lookup_insert_ne by done. apply Hr. }
  destruct (String.eqb _ ""); [by apply (IH raw)|]. destruct (numericConfigField f); [|by apply (IH _ _ H), Hx].
  destruct (negb _); [done|]. by apply (IH _ _ H), Hx.
Qed.

Lemma config_form_effect range io k u c (s : server) :
  csrfOK u = true → u_formErr u = false →
  (λ o : server * option (nat * Duration) * ui_response, o.1) <$> handleUIConfigUpdate range io k u c s =
  api_effect (CWConfig range io) k u c s.
Proof.
  intros Hc Hf. unfold handleUIConfigUpdate, uiWriteGuard, api_effect. rewrite Hc, Hf. cbn [negb].
  destruct (settingsFormToPatch range u) as [msg|raw] eqn:Er; [by destruct (cs_config s)|].
  unfold handleAdminPutConfig. destruct (cs_config s) as [rc|] eqn:Ec; [|done].
  assert (rejected_key quote (sortedKeys raw) = None) as ->.
  { apply rejected_key_None, Forall_forall. intros key Hk. apply (proj2 (sortedKeys_spec raw)) in Hk.
    apply (form_loop_tunable _ _ _ _ Er); [|done]. intros ?. rewrite lookup_empty. by intros [? ?]. }
  destruct (applyConfigPatch quote (rc_cur rc) raw) as [[pending changed]|e]; [|done].
  destruct (size changed =? 0)%nat; [done|]. destruct (apply rc pending changed s) as [s1 [e|]] eqn:Ea; [done|].
  pose proof (apply_config _ _ _ _ _ _ Ec Ea) as Hcfg. by rewrite Hcfg.
Qed.

(** A console action has the effect of its API request. For every form but eviction,
    once the CSRF check has passed and the form is readable (and, for a new key, named),
    the keys, workers, settings, checkpoint file and audit trail are left exactly as the
    JSON endpoint leaves them for the same content, refusals and failures included; the
    audit entry is the same entry. *)
Theorem console_equals_api w k u c (s : server) :
  csrfOK u = true → u_formErr u = false → (w = CWCreate → TrimSpace (PostFormValue u "name") ≠ "") → w ≠ CWEvict →
  (λ o : server * option (nat * Duration) * ui_response, o.1) <$> handle_console w k u c s = api_effect w k u c s.
Proof.
  intros Hc Hf Hn He. destruct w; cbn [handle_console]; [| | | | |done| | |by apply config_form_effect];
    unfold api_effect, handleUIKeyCreate, handleUIKeyRotate, handleUIKeyRevoke, handleUIKeyPermissions, handleUIWorkerDrain,
      handleUIWorkerPull, handleUIWorkerUnload, uiWriteGuard; rewrite Hc; cbn [negb]; rewrite ?Hf.
  - unfold handleAdminCreateKey. destruct (String.eqb_spec (TrimSpace (PostFormValue u "name")) "") as [E|_]; [by apply Hn in E|].
    cbn [CQ_Roles CQ_AdminScopes CQ_ExpiresAt parseExpiresAt].
    destruct (grants_agree (PostForm u "roles") (PostForm u "admin_scopes"))
      as [(-> & -> & ->)|([bad ->] & [[b ->]|[-> [b ->]]])]; [|by cbn; rewrite set_http_id..].
    unfold viewerKeyID. destruct (CreateWithPermissions _ _ _ _ _) as [a [[token key]|e]]; done.
  - unfold handleAdminRotateKey. by destruct (Rotate _ _ _) as [a [token|e]].
  - unfold handleAdminRevokeKey. by destruct (Revoke _ _ _) as [a [e|]].
  - unfold handleAdminSetPermissions. cbn [PQ_Roles PQ_AdminScopes].
    destruct (grants_agree (PostForm u "roles") (PostForm u "admin_scopes"))
      as [(-> & -> & ->)|([bad ->] & [[b ->]|[-> [b ->]]])]; [|by cbn; rewrite set_http_id..].
    unfold finish_update. by destruct (SetPermissions _ _ _) as [a [key|e]].
  - unfold handleAdminDrainWorker, drain_with. cbn [default from_option].
    change (seconds_duration 0) with 0. by destruct (DrainWorkerWithDeadline _ _ _) as [[ctl reaper] [e|]].
  - unfold handleAdminPullModel. destruct (String.eqb _ ""); [by cbn; rewrite set_http_id|].
    unfold model_with, finish_model. by destruct (AdminPullModel _ _ _ _ _) as [[ctl [e|]]|].
  - unfold handleAdminUnloadModel, model_with, finish_model. by destruct (AdminUnloadModel _ _ _ _ _) as [[ctl [e|]]|].
Qed.
End console.

(** ** Witnesses *)

#[local] Instance console_demo_keys : KeyStore Memory := Memory_KeyStore Auth.demo_range (Hrange := Auth.demo_range_ok).
#[local] Instance console_demo_sess : SessionStore MemorySessionStore := MSS_SessionStore demo_sessions demo_sessions_ok.

Definition demo_ui : ui_request :=
  mkUI (mkRequest "POST" "/admin/keys/x/revoke" (λ h, if String.eqb h "X-CSRF-Token" then "csrf-1" else "") (λ _, "")
          (λ p, if String.eqb p "id" then Auth.demo_id else "")
          (λ n, if String.eqb n csrfCookieName then Some "csrf-1" else None)) ∅ false "" false.

Lemma console_equals_api_witness :
  (λ o : @cserver Memory MemoryCounterStore MemorySessionStore * option (nat * Duration) * ui_response, o.1) <$>
    handle_console Auth.demo_rand demo_quote demo_no_json CWRevoke (demo_hclock 5) demo_ui (demo_ctx demo_actor) demo_config =
  Some (set_http (handleAdminRevokeKey (u_req demo_ui) (demo_hclock 5) (demo_ctx demo_actor) (cs_http demo_config)).1
          demo_config, None).
Proof.
  exact (console_equals_api Auth.demo_rand demo_quote demo_no_json CWRevoke (demo_hclock 5) demo_ui (demo_ctx demo_actor)
    demo_config eq_refl eq_refl ltac:(discriminate) ltac:(discriminate)).
Defined.

(** A next path may leave the console by dot segments, though not the server. *)
Example safe_next_dots : safeNext "/admin/../v1/models" = "/admin/../v1/models" ∧ safeNext "//evil.example" = "/admin/".
Proof. split; reflexivity. Qed.

(** The numbers of a form. *)
Example form_numbers : json_number "42" = JInt 42 ∧ json_number "007" = JElse ∧ json_number "0" = JInt 0.
Proof. split_and!; reflexivity. Qed.
