(* ===== verification/ConsoleViews.v ===== *)
(** * ConsoleViews.v: the console's view models and their texts

    The records the console's pages are rendered from (httpapi/webui/view.go), the
    words and classes of the status language (tone.go, helpers.go, keys.go) and the
    functions that turn numbers, sizes, durations and dates into text (the format
    functions of webui_data.go, webui_usage_data.go, webui_workers_data.go,
    webui_telemetry_data.go, webui_keys_data.go and webui_logs_data.go).

    [None] is an index out of range, which panics. *)

From Stdlib Require Import Ascii.
From S2P Require Import Prelude Errors GoTime GoFloat GoStrings GoConv GoText Types Http Console.
Open Scope Z_scope.

(** ** View models (view.go) *)

Record KPI := mkKPI { KPI_Label : string; KPI_Value : string; KPI_Unit : string; KPI_Tone : tone; KPI_Caption : string }.
Record WorkerRow := mkWorkerRow {
  WR_ID : string; WR_Status : string; WR_Tone : tone; WR_ActiveJobs : Z; WR_Load : Z }.
Record QueueDepth := mkQueueDepth { QD_Total : Z; QD_High : Z; QD_Normal : Z; QD_Low : Z }.
Record EventRow := mkEventRow { ER_Time : string; ER_Level : string; ER_Tone : tone; ER_Message : string }.
Record WorkerListItem := mkWorkerItem {
  WI_ID : string; WI_Status : string; WI_Tone : tone; WI_ActiveJobs : Z; WI_Load : Z; WI_GPUType : string;
  WI_VRAM : string; WI_LastSeen : string }.
Record WorkerDetail := mkWorkerDetail {
  WD_ID : string; WD_Status : string; WD_Tone : tone; WD_Draining : bool; WD_ActiveJobs : Z; WD_Load : Z;
  WD_LoadTone : tone; WD_GPUType : string; WD_TotalVRAM : string; WD_FreeVRAM : string; WD_UsedPct : Z;
  WD_LastSeen : string; WD_Uptime : string; WD_Models : list string; WD_LogsHref : string }.
Record HeatCell := mkHeatCell {
  HC_ID : string; HC_Load : Z; HC_Band : tone; HC_BandWord : string; HC_Tone : tone; HC_VRAM : string; HC_Href : string }.
Record HeatmapData := mkHeatmap {
  HM_Cells : list HeatCell; HM_WorkerCount : Z; HM_MeanLoad : Z; HM_MaxLoad : Z; HM_MeanTone : tone;
  HM_TotalVRAM : string; HM_FreeVRAM : string }.
Record KeyRow := mkKeyRow {
  KR_ID : string; KR_Name : string; KR_Owner : string; KR_Team : string; KR_Roles : list string;
  KR_AdminScopes : list string; KR_AllowModels : list string; KR_DenyModels : list string; KR_MaskedSecret : string;
  KR_Created : string; KR_LastUsed : string; KR_Expiry : string; KR_Status : string; KR_Tone : tone;
  KR_Revoked : bool; KR_Expired : bool }.
Record UsageMeter := mkMeter {
  UM_Label : string; UM_Used : string; UM_Limit : string; UM_Pct : Z; UM_Tone : tone; UM_Limited : bool }.
Record Sparkline := mkSpark { SK_Points : string; SK_Has : bool; SK_Last : string; SK_Peak : string }.
(** [None] is a forecast without an exhausted budget. *)
Record UsageForecast := mkForecastView { UF_Phrase : string; UF_Dimension : string; UF_Tone : tone }.
Record UsageRow := mkUsageViewRow {
  UW_KeyID : string; UW_Name : string; UW_Owner : string; UW_Team : string; UW_DailyTokens : UsageMeter;
  UW_MonthlyTokens : UsageMeter; UW_Requests : UsageMeter; UW_TokensPerMin : UsageMeter; UW_Spark : Sparkline;
  UW_Forecast : option UsageForecast }.
Record UsageBoard := mkUsageBoard {
  UB_Enabled : bool; UB_KeyCount : Z; UB_GlobalThrottled : string; UB_KeyThrottled : string; UB_Rows : list UsageRow }.
Record TelemetryStatus := mkTStatus { TS_Status : string; TS_Tone : tone; TS_Count : Z }.
(** No tone is the empty string. *)
Record TelemetryAffinity := mkTAffinity {
  TA_Hits : string; TA_Misses : string; TA_Rebinds : string; TA_HitRate : Z; TA_RateTone : option tone; TA_HasData : bool }.
Record HistogramBar := mkBar { HB_Label : string; HB_Count : Z; HB_Pct : Z }.
Record Histogram := mkHistogram { HG_Count : Z; HG_MeanMs : Z; HG_MaxMs : Z; HG_Bars : list HistogramBar }.
Record TelemetryBoard := mkTBoard {
  TB_KPIs : list KPI; TB_Latency : Histogram; TB_WaitTime : Histogram; TB_Fleet : list TelemetryStatus;
  TB_Affinity : TelemetryAffinity }.
Record LogField := mkLogField { LF_Key : string; LF_Value : string; LF_Primary : bool }.
Record LogLine := mkLogLine {
  LL_Time : string; LL_Level : string; LL_Tone : tone; LL_Message : string; LL_Fields : list LogField }.
Record LogsTable := mkLogsTable { LT_Lines : list LogLine; LT_Count : Z }.
Record LogFilterState := mkFilterState {
  FS_Level : string; FS_RequestID : string; FS_SessionID : string; FS_Worker : string; FS_Since : string; FS_Until : string }.
Record LogsData := mkLogsData {
  LD_Enabled : bool; LD_Filter : LogFilterState; LD_Levels : list string; LD_StreamURL : string; LD_CSVHref : string }.
Inductive FieldKind := FieldNumber | FieldDuration | FieldText | FieldSelect.
Record SettingsField := mkSField {
  SF_Name : string; SF_Label : string; SF_Help : string; SF_Value : string; SF_Kind : FieldKind; SF_Options : list string;
  SF_Warning : string; SF_ReadOnly : bool; SF_Min : string }.
Record SettingsTab := mkSTab { ST_ID : string; ST_Title : string; ST_Fields : list SettingsField }.
Record SettingsData := mkSData {
  SD_Enabled : bool; SD_CanWrite : bool; SD_Tabs : list SettingsTab; SD_ReadOnly : list SettingsField }.
Record RoleOption := mkRoleOption { RO_Name : string; RO_Description : string }.
Record Viewer := mkViewer { V_KeyID : string; V_Name : string; V_Roles : list string; V_IsAdmin : bool }.

(** ** The status language (tone.go, helpers.go, keys.go) *)

Definition toneText (t : option tone) : string :=
  match t with
  | Some ToneOK => "text-ok" | Some ToneWarn => "text-warn" | Some ToneDanger => "text-danger"
  | Some ToneInfo => "text-info" | Some ToneIdle => "text-idle" | None => "text-fg-muted"
  end.
Definition toneBadge (t : option tone) : string :=
  match t with
  | Some ToneOK => "badge-ok" | Some ToneWarn => "badge-warn" | Some ToneDanger => "badge-danger" | _ => "badge-idle"
  end.
Definition toneBar (t : option tone) : string :=
  match t with
  | Some ToneOK => "bg-ok" | Some ToneWarn => "bg-warn" | Some ToneDanger => "bg-danger" | Some ToneInfo => "bg-accent"
  | _ => "bg-idle"
  end.
Definition toastTone (t : option tone) : string :=
  match t with
  | Some ToneOK => "toast-ok" | Some ToneWarn => "toast-warn" | Some ToneDanger => "toast-danger" | _ => "toast-info"
  end.
Definition heatCell (t : option tone) : string :=
  match t with
  | Some ToneOK => "bg-ok-soft text-ok" | Some ToneWarn => "bg-warn-soft text-warn"
  | Some ToneDanger => "bg-danger-soft text-danger" | _ => "bg-surface-2 text-fg-muted"
  end.
Definition toneWord (t : option tone) : string :=
  match t with
  | Some ToneOK => "ok" | Some ToneWarn => "watch" | Some ToneDanger => "alert" | Some ToneInfo => "live" | _ => "idle"
  end.

Definition LoadTone (load : Z) : tone :=
  if 85 <? load then ToneDanger else if 60 <=? load then ToneWarn else ToneOK.
Definition LoadBandWord (load : Z) : string :=
  if 85 <? load then "hot" else if 60 <=? load then "busy" else "ok".
Definition UsageTone (pct : Z) : tone :=
  if 90 <=? pct then ToneDanger else if 75 <=? pct then ToneWarn else ToneOK.
Definition logFieldTone (primary : bool) : string := if primary then "text-accent" else "text-fg-muted".

Definition barWidth (n total : Z) : string :=
  if (total <=? 0) || (n <=? 0) then "width:0%"
  else if total <=? n then "width:100%"
  else
    let pct := Z.quot (i64 (n * 100)) total in
    let pct := if pct <? 2 then 2 else pct in
    "width:" +:+ Itoa pct +:+ "%".

(** The polyline over the 100 by 28 box. *)
Definition spark_y (max v : Z) : float :=
  let pad := float64 2 in
  if max =? 0 then float64 26
  else fadd pad (fmul (fsub (float64 1) (fdiv (float64 v) (float64 max))) (float64 24)).
Fixpoint spark_loop (stepX : float) (max : Z) (i : Z) (values : list Z) : string :=
  match values with
  | [] => ""
  | v :: values =>
      (if 0 <? i then " " else "") +:+ FormatFloat1 (fmul (float64 i) stepX) +:+ "," +:+ FormatFloat1 (spark_y max v) +:+
      spark_loop stepX max (i + 1) values
  end.
Definition zmax_of (values : list Z) : Z := fold_left (λ max v, if max <? v then v else max) values 0.
Definition Sparkpoints (values : list Z) : string :=
  let n := Z.of_nat (length values) in
  if n <? 2 then ""
  else spark_loop (fdiv (float64 100) (float64 (n - 1))) (zmax_of values) 0 values.

Definition pageTitle (suffix : string) : string :=
  if String.eqb suffix "" then "agent-gpu console" else suffix +:+ " · agent-gpu console".
Definition shortID (id : string) : string :=
  if (String.length id <=? 8)%nat then id else String.substring 0 8 id +:+ "…".
Definition roleLabel (v : Viewer) : string :=
  if V_IsAdmin v then "admin"
  else match V_Roles v with _ :: _ => Join (V_Roles v) ", " | [] => "restricted" end.

Definition hasString (xs : list string) (v : string) : bool := existsb (λ x, String.eqb x v) xs.
Definition ownerTeam (owner team : string) : string :=
  if negb (String.eqb owner "") && negb (String.eqb team "") then owner +:+ " · " +:+ team
  else if negb (String.eqb owner "") then owner else team.
Definition joinLines (xs : list string) : string := Join xs (String (ascii_of_nat 10) "").
Definition revealTokenLabel (rotated : bool) : string :=
  if rotated then "New token (replaces the previous one)" else "Token (copy it now)".

(** ** Numbers, sizes and times *)

Definition formatCount (n : Z) : string :=
  if n <? 1000 then FormatUint n
  else if n <? 1000000 then FormatFloat1 (fdiv (float64 n) (float64 1000)) +:+ "k"
  else FormatFloat1 (fdiv (float64 n) (float64 1000000)) +:+ "M".

(** The loop of [formatBytes]; a 64-bit size is divided at most six times. *)
Fixpoint bytes_loop (fuel : nat) (n div : Z) (exp : nat) : Z * nat :=
  match fuel with
  | O => (div, exp)
  | S fuel => if 1024 <=? n then bytes_loop fuel (n / 1024) (u64 (div * 1024)) (S exp) else (div, exp)
  end.
Definition byte_units : list string := ["KiB"; "MiB"; "GiB"; "TiB"; "PiB"].
Definition formatBytes (b : Z) : option string :=
  if b <? 1024 then Some (FormatUint b +:+ " B")
  else
    let '(div, exp) := bytes_loop 6 (b / 1024) 1024 0 in
    match byte_units !! exp with
    | None => None
    | Some unit => Some (FormatFloat1 (fdiv (float64 b) (float64 div)) +:+ " " +:+ unit)
    end.
Definition formatVRAMUsage (free total : Z) : option string :=
  if total =? 0 then Some "—"
  else
    match formatBytes free, formatBytes total with
    | Some f, Some t => Some (f +:+ " free / " +:+ t)
    | _, _ => None
    end.
Definition usedVRAMPercent (free total : Z) : Z :=
  if (total =? 0) || (total <=? free) then 0
  else i64 (u64 ((total - free) * 100) / total).
Definition gpuTypeLabel (t : string) : string := if String.eqb t "" then "unknown" else t.

(** The age of [t] at [now]. *)
Definition relativeSince (now t : Time) : string :=
  if IsZero t then "never"
  else
    let d := Sub now t in
    if d <? 5 * Second then "just now"
    else if d <? Minute then Itoa (ftrunc (Seconds d)) +:+ "s ago"
    else if d <? Hour then Itoa (ftrunc (Minutes d)) +:+ "m ago"
    else if d <? 24 * Hour then Itoa (ftrunc (Hours d)) +:+ "h ago"
    else Itoa (ftrunc (fdiv (Hours d) (float64 24))) +:+ "d ago".

Definition formatDuration (d : Duration) : string :=
  if d <? Second then "0s"
  else
    let days := Z.quot d (24 * Hour) in
    let hours := Z.quot (Z.rem d (24 * Hour)) Hour in
    let mins := Z.quot (Z.rem d Hour) Minute in
    let secs := Z.quot (Z.rem d Minute) Second in
    if 0 <? days then Itoa days +:+ "d " +:+ Itoa hours +:+ "h"
    else if 0 <? hours then Itoa hours +:+ "h " +:+ Itoa mins +:+ "m"
    else if 0 <? mins then Itoa mins +:+ "m " +:+ Itoa secs +:+ "s"
    else Itoa secs +:+ "s".

Definition formatUptime (sec : Z) : string :=
  if sec <=? 0 then "0s"
  else
    let days := Z.quot sec 86400 in
    let hours := Z.quot (Z.rem sec 86400) 3600 in
    let mins := Z.quot (Z.rem sec 3600) 60 in
    let secs := Z.rem sec 60 in
    if 0 <? days then Itoa days +:+ "d " +:+ Itoa hours +:+ "h"
    else if 0 <? hours then Itoa hours +:+ "h " +:+ Itoa mins +:+ "m"
    else if 0 <? mins then Itoa mins +:+ "m"
    else Itoa secs +:+ "s".

Definition formatDate (t : Time) : string := if IsZero t then "—" else format_date t.
Definition formatExpiry (t : option Time) : string := match t with None => "never" | Some t => format_date t end.
Definition toDatetimeLocal (t : Time) : string := if IsZero t then "" else format_minute t.

Definition forecastPhrase (d : Duration) : string :=
  if d <? Hour then "< 1h"
  else if d <? 24 * Hour then "~" +:+ Itoa (ftrunc (Hours d)) +:+ "h"
  else "~" +:+ Itoa (ftrunc (fdiv (Hours d) (float64 24))) +:+ "d".

Definition bucketLabel (leMs : Z) : string :=
  if leMs =? 0 then "slower"
  else if 1000 <=? leMs then "≤ " +:+ FormatUint (leMs / 1000) +:+ "s"
  else "≤ " +:+ FormatUint leMs +:+ "ms".

Definition tokenMeter (label : string) (used limit : Z) : UsageMeter :=
  if limit =? 0 then mkMeter label (formatCount used) "no limit" 0 ToneIdle false
  else
    let pct := i64 (u64 (used * 100) / limit) in
    let pct := if 100 <? pct then 100 else pct in
    mkMeter label (formatCount used) (formatCount limit) pct (UsageTone pct) true.

Definition histBar (leMs count max : Z) : HistogramBar :=
  mkBar (bucketLabel leMs) count (if 0 <? max then i64 (u64 (count * 100) / max) else 0).

Definition affinityView (hits misses rebinds : Z) : TelemetryAffinity :=
  let total := u64 (hits + misses) in
  if 0 <? total then
    let rate := i64 (u64 (hits * 100) / total) in
    mkTAffinity (formatCount hits) (formatCount misses) (formatCount rebinds) rate
      (Some (if 80 <=? rate then ToneOK else if 50 <=? rate then ToneWarn else ToneDanger)) true
  else mkTAffinity (formatCount hits) (formatCount misses) (formatCount rebinds) 0 None false.

Example texts_1 :
  map formatCount [999; 1250; 3400000; 999950] = ["999"; "1.2k"; "3.4M"; "1000.0k"] ∧
  map formatBytes [512; 1536; 25757220864; 2 ^ 60] = [Some "512 B"; Some "1.5 KiB"; Some "24.0 GiB"; None] ∧
  formatVRAMUsage 0 (2 ^ 30) = Some "0 B free / 1.0 GiB" ∧
  map formatUptime [45; 61; 3720; 90000] = ["45s"; "1m"; "1h 2m"; "1d 1h"] ∧
  map forecastPhrase [Minute; 5 * Hour; 50 * Hour] = ["< 1h"; "~5h"; "~2d"] ∧
  Sparkpoints [0; 5; 10] = "0.0,26.0 50.0,14.0 100.0,2.0".
Proof. vm_compute. done. Qed.
