(* ===== verification/ConsolePages.v ===== *)
(** * ConsolePages.v: the pages and partials the console reads

    What every read of the web console collects from the running server (httpapi:
    webui_data.go, webui_usage_data.go, webui_workers_data.go,
    webui_telemetry_data.go, webui_settings_data.go, webui_keys_data.go,
    webui_logs_data.go) and the read handlers behind their scope gates.  The writes
    are in Console, the texts in ConsoleViews; a page is its view model, [None] where
    collecting it panics.

    Map iteration is by parameter ([range_]).  [sort.Slice] orders rows by distinct
    keys here, so its result is that of a stable sort.  [local] prints a time of day
    in the server's own time zone. *)

From Stdlib Require Import Ascii.
From S2P Require Import Prelude Errors ChatApi GoTime GoFloat GoStrings GoConv GoText GoDuration GoHeap GoSort Types Queue Store Authz Auth AuditLog Quota UsageSeries Forecast History Session Server Http HttpServer AdminApi RuntimeConfig LogRing UsageApi FleetApi Telemetry Console ConsoleViews.
Open Scope Z_scope.

(** ** Overview (webui_data.go) *)

Record overviewData := mkOverview {
  ov_kpis : list KPI; ov_queue : QueueDepth; ov_workers : list WorkerRow; ov_events : list EventRow }.
Definition maxEventRows : nat := 8.

Definition is_online (wk : Worker) : bool := bool_decide (Worker_Status wk = WorkerOnline).
Definition count_online (fleet : list Worker) : Z :=
  fold_left (λ n wk, if is_online wk then n + 1 else n) fleet 0.

Definition throttle_kpi (throttled : Z) : KPI :=
  mkKPI "Throttled" (formatCount throttled) "total" (if 0 <? throttled then ToneWarn else ToneOK)
    (if 0 <? throttled then "Requests hit a rate limit" else "No requests throttled").

Definition buildKPIs (fleet : list Worker) (qs : Stats) (globalThrottled keyThrottled : Z) : list KPI :=
  let online := count_online fleet in
  let total := Z.of_nat (length fleet) in
  let queueTotal := Stats_Total qs in
  let '(queueTone, queueCaption) :=
    if queueTotal =? 0 then (ToneIdle, "No jobs waiting")
    else if online =? 0 then (ToneDanger, "Backlog with no online workers")
    else if i64 (online * 4) <? queueTotal then (ToneWarn, "Backlog building — watch capacity")
    else (ToneOK, "Jobs dispatch without waiting") in
  let '(wTone, wCaption) :=
    if total =? 0 then (ToneIdle, "No workers connected")
    else if online =? 0 then (ToneDanger, "No workers online")
    else if online <? total then (ToneWarn, Itoa (total - online) +:+ " not taking jobs")
    else (ToneOK, "All workers online") in
  [mkKPI "Queue depth" (Itoa queueTotal) "jobs" queueTone queueCaption;
   mkKPI "Workers online" (Itoa online +:+ "/" +:+ Itoa total) "" wTone wCaption;
   throttle_kpi (u64 (globalThrottled + keyThrottled))].

Definition buildQueueDepth (qs : Stats) : QueueDepth :=
  let at_ p := default 0 (Stats_ByPriority qs !! p) in
  mkQueueDepth (Stats_Total qs) (at_ PriorityHigh) (at_ PriorityNormal) (at_ PriorityLow).

Definition workerTone (st : WorkerStatus) : tone :=
  match st with WorkerOnline => ToneOK | WorkerDraining => ToneWarn | _ => ToneDanger end.

Definition buildWorkerRows (fleet : list Worker) : list WorkerRow :=
  SliceStable (λ a b, String.ltb (WR_ID a) (WR_ID b))
    (map (λ wk, mkWorkerRow (Worker_ID wk) (WorkerStatus_String (Worker_Status wk)) (workerTone (Worker_Status wk))
                  (Worker_ActiveJobs wk) (Worker_Load wk)) fleet).

Definition levelTone (level : string) : tone :=
  if String.eqb level "ERROR" then ToneDanger else if String.eqb level "WARN" then ToneWarn else ToneInfo.

Definition event_row (local : Time → string) (rec : LogRecord) : EventRow :=
  mkEventRow (local (Log_Time rec)) (Log_Level rec) (levelTone (Log_Level rec)) (Log_Message rec).
Definition buildEvents {S} `{!LogSource S} (local : Time → string) (logs : option S) : list EventRow :=
  match logs with
  | None => []
  | Some src =>
      let recs := Snapshot src in
      let start := if (maxEventRows <? length recs)%nat then (length recs - maxEventRows)%nat else O in
      map (event_row local) (reverse (drop start recs))
  end.

(** ** Usage (webui_usage_data.go) *)

Definition consider (best : option (Z * string)) (at_ : option Z) (dim : string) : option (Z * string) :=
  match at_ with
  | None => best
  | Some t => match best with
              | None => Some (t, dim)
              | Some (b, _) => if t <? b then Some (t, dim) else best
              end
  end.
Definition usageForecastView (daily monthly : option Z) (now : Time) : option UsageForecast :=
  match consider (consider None daily "daily") monthly "monthly" with
  | None => None
  | Some (at_, dim) =>
      let d := Sub (Unix at_) now in
      let t := if d <=? 24 * Hour then ToneDanger else if d <=? 72 * Hour then ToneWarn else ToneInfo in
      Some (mkForecastView (forecastPhrase d) dim t)
  end.

Definition newUsageViewRow (now : Time) (r : adminUsageRow) : UsageRow :=
  let tokens := map (λ p : Z * Z * Z, p.1.2) (UR_Series r) in
  let spark :=
    mkSpark (Sparkpoints tokens) (2 <=? Z.of_nat (length tokens))
      (match last tokens with Some t => formatCount t | None => "" end)
      (match tokens with [] => "" | _ => formatCount (zmax_of tokens) end) in
  mkUsageViewRow (UR_KeyID r) (UR_Name r) (UR_Owner r) (UR_Team r)
    (tokenMeter "Daily tokens" (UR_TokensToday r) (LV_DailyTokens (UR_Limits r)))
    (tokenMeter "Monthly tokens" (UR_TokensThisMonth r) (LV_MonthlyTokens (UR_Limits r)))
    (tokenMeter "Requests / min" (UR_RequestsThisMinute r) (LV_RPM (UR_Limits r)))
    (tokenMeter "Tokens / min" (UR_TokensThisMinute r) (LV_TPM (UR_Limits r)))
    spark (usageForecastView (UR_DailyExhaustionAt r) (UR_MonthlyExhaustionAt r) now).

(** ** Workers (webui_workers_data.go) *)

Definition worker_item (now : Time) (wk : Worker) : option WorkerListItem :=
  match formatVRAMUsage (Worker_FreeVRAM wk) (Worker_TotalVRAM wk) with
  | None => None
  | Some vram =>
      Some (mkWorkerItem (Worker_ID wk) (WorkerStatus_String (Worker_Status wk)) (workerTone (Worker_Status wk))
              (Worker_ActiveJobs wk) (Worker_Load wk) (gpuTypeLabel (Worker_GPUType wk)) vram
              (relativeSince now (Worker_LastSeen wk)))
  end.
Definition worker_list (now : Time) (fleet : list Worker) : option (list WorkerListItem) :=
  SliceStable (λ a b, String.ltb (WI_ID a) (WI_ID b)) <$> mapM (worker_item now) fleet.

Definition worker_detail (now : Time) (wk : Worker) : option WorkerDetail :=
  match formatBytes (Worker_TotalVRAM wk), formatBytes (Worker_FreeVRAM wk) with
  | Some total, Some free =>
      let uptime :=
        if negb (IsZero (Worker_RegisteredAt wk)) then
          let up := Sub (Worker_LastSeen wk) (Worker_RegisteredAt wk) in if 0 <? up then formatDuration up else ""
        else "" in
      Some (mkWorkerDetail (Worker_ID wk) (WorkerStatus_String (Worker_Status wk)) (workerTone (Worker_Status wk))
              (bool_decide (Worker_Status wk = WorkerDraining)) (Worker_ActiveJobs wk) (Worker_Load wk)
              (LoadTone (Worker_Load wk)) (gpuTypeLabel (Worker_GPUType wk)) total free
              (usedVRAMPercent (Worker_FreeVRAM wk) (Worker_TotalVRAM wk)) (relativeSince now (Worker_LastSeen wk))
              uptime (sort_Strings (map Model_Name (Worker_Models wk))) ("/admin/logs?worker=" +:+ Worker_ID wk))
  | _, _ => None
  end.

Definition heat_cell (c : adminGPUCell) : option HeatCell :=
  match formatVRAMUsage (GC_FreeVRAM c) (GC_TotalVRAM c) with
  | None => None
  | Some vram => Some (mkHeatCell (GC_ID c) (GC_Load c) (LoadTone (GC_Load c)) (LoadBandWord (GC_Load c))
                         (LoadTone (GC_Load c)) vram ("/admin/workers/" +:+ GC_ID c))
  end.
Definition heatmap (agg : adminGPUsResponse) : option HeatmapData :=
  let f := GPUs_Fleet agg in
  match mapM heat_cell (GPUs_Workers agg), formatBytes (GF_TotalVRAM f), formatBytes (GF_FreeVRAM f) with
  | Some cells, Some total, Some free =>
      Some (mkHeatmap cells (GF_WorkerCount f) (GF_MeanLoad f) (GF_MaxLoad f) (LoadTone (GF_MeanLoad f)) total free)
  | _, _, _ => None
  end.

(** ** Telemetry (webui_telemetry_data.go) *)

Definition queueTelemetryTone (total online : Z) : tone :=
  if total =? 0 then ToneIdle
  else if online =? 0 then ToneDanger
  else if i64 (online * 4) <? total then ToneWarn
  else ToneOK.
Definition maxBucketCount (counts : list Z) : Z := fold_left (λ max c, if max <? c then c else max) counts 0.
Definition waitMean (sumMs count : Z) : Z := if count =? 0 then 0 else sumMs / count.
Definition histogramView (meanMs maxMs count : Z) (buckets : list (Z * Z)) : Histogram :=
  let max := maxBucketCount (map snd buckets) in
  mkHistogram count meanMs maxMs (map (λ b : Z * Z, histBar b.1 b.2 max) buckets).
Definition statusWordTone (status : string) : tone :=
  if String.eqb status "online" then ToneOK else if String.eqb status "draining" then ToneWarn else ToneDanger.
Definition fleetStatusView (range_status : gmap string Z → list (string * Z)) (byStatus : gmap string Z) : list TelemetryStatus :=
  SliceStable (λ a b, String.ltb (TS_Status a) (TS_Status b))
    (map (λ p : string * Z, mkTStatus p.1 (statusWordTone p.1) p.2) (range_status byStatus)).

(** ** Settings (webui_settings_data.go) *)

Definition numField (name label help : string) (value : Z) : SettingsField :=
  mkSField name label help (FormatUint value) FieldNumber [] "" false "0".
Definition durField (name label help value : string) : SettingsField :=
  mkSField name label help value FieldDuration [] "" false "".
Definition selectField (name label help value : string) (options : list string) (warning : string) : SettingsField :=
  mkSField name label help value FieldSelect options warning false "".
Definition warnField (f : SettingsField) (warning : string) : SettingsField :=
  mkSField (SF_Name f) (SF_Label f) (SF_Help f) (SF_Value f) (SF_Kind f) (SF_Options f) warning (SF_ReadOnly f) (SF_Min f).
Definition roField (name label value : string) : SettingsField :=
  mkSField name label "" value FieldText [] "" true "".
Definition bootFields (boot : ConfigReadOnly) : list SettingsField :=
  [roField "server_listen" "gRPC listen" (ServerListen boot);
   roField "server_http_listen" "HTTP listen" (ServerHTTPListen boot);
   roField "server_metrics_listen" "Metrics listen" (ServerMetricsListen boot);
   roField "quota_path" "Quota checkpoint" (QuotaPath boot);
   roField "session_path" "Session checkpoint" (SessionPath boot);
   roField "log_format" "Log format" (LogFormat boot);
   roField "log_output" "Log output" (LogOutput boot)].

Definition settings_tabs (cur : ConfigSettings) : list SettingsTab :=
  [mkSTab "general" "General"
     [selectField "log_level" "Log level" "Minimum severity written to the server log." (LogLevel cur)
        ["debug"; "info"; "warn"; "error"] "Setting debug greatly increases log volume."];
   mkSTab "quotas" "Quotas"
     [numField "quota_default_rpm" "Default RPM" "Per-key requests/minute for keys without an override (0 = unlimited)." (QuotaDefaultRPM cur);
      numField "quota_default_tpm" "Default TPM" "Per-key tokens/minute for keys without an override (0 = unlimited)." (QuotaDefaultTPM cur);
      numField "quota_default_daily_tokens" "Default daily tokens" "Per-key daily token budget default (0 = unlimited)." (QuotaDefaultDailyTokens cur);
      numField "quota_default_monthly_tokens" "Default monthly tokens" "Per-key monthly token budget default (0 = unlimited)." (QuotaDefaultMonthlyTokens cur);
      warnField (numField "quota_global_rpm" "Global RPM" "Fleet-wide requests/minute ceiling across all keys (0 = unlimited)." (QuotaGlobalRPM cur))
        "Lowering this throttles the whole fleet immediately.";
      warnField (numField "quota_global_tpm" "Global TPM" "Fleet-wide tokens/minute ceiling across all keys (0 = unlimited)." (QuotaGlobalTPM cur))
        "Lowering this throttles the whole fleet immediately."];
   mkSTab "sessions" "Sessions"
     [durField "session_ttl" "Session TTL" "How long an idle conversation session is retained before it expires." (SessionTTL cur);
      numField "session_max_turns" "Max turns" "Maximum turns kept per session (0 = unlimited)." (u64 (SessionMaxTurns cur));
      numField "session_max_bytes" "Max bytes" "Maximum stored bytes per session (0 = unlimited)." (u64 (SessionMaxBytes cur));
      numField "session_max_context_tokens" "Max context tokens" "Maximum context tokens retained per session (0 = unlimited)." (u64 (SessionMaxContextTokens cur));
      warnField (numField "session_max_sessions_per_key" "Max sessions / key" "Maximum live sessions a single key may hold (0 = unlimited)." (u64 (SessionMaxSessionsPerKey cur)))
        "Lowering this may evict a key's oldest live sessions.";
      selectField "session_overflow_policy" "Overflow policy" "What happens when a session exceeds its caps: trim oldest turns, or reject the request."
        (SessionOverflowPolicy cur) ["trim"; "reject"] ""];
   mkSTab "advanced" "Advanced"
     [durField "model_warm_max" "Model warm window" "How long a model stays warm on a worker after its last use." (SettingModelWarmMax cur);
      warnField (durField "heartbeat_timeout" "Heartbeat timeout" "How long a worker may miss heartbeats before it is marked stale." (SettingHeartbeatTimeout cur))
        "Too short a timeout can drop healthy-but-slow workers from the fleet."]].

(** ** Keys (webui_keys_data.go) *)

Definition maskedSecret : string := "agpu_••••••••••••".
Definition keyStatus (k : APIKey) (now : Time) : string * tone :=
  if Revoked k then ("revoked", ToneDanger) else if Expired k now then ("expired", ToneWarn) else ("active", ToneOK).
(** [since] is the clock reading of [relativeSince]. *)
Definition newKeyRow (now since : Time) (k : APIKey) : KeyRow :=
  let '(status, t) := keyStatus k now in
  mkKeyRow (APIKey_ID k) (APIKey_Name k) (APIKey_Owner k) (APIKey_Team k) (APIKey_Roles k) (APIKey_AdminScopes k)
    (APIKey_AllowModels k) (APIKey_DenyModels k) maskedSecret (formatDate (APIKey_CreatedAt k))
    (relativeSince since (APIKey_LastUsedAt k)) (formatExpiry (APIKey_ExpiresAt k)) status t (Revoked k) (Expired k now).
Definition row_before (a b : KeyRow) : bool :=
  if negb (String.eqb (KR_Name a) (KR_Name b)) then String.ltb (KR_Name a) (KR_Name b) else String.ltb (KR_ID a) (KR_ID b).
Definition collectKeys {KS} `{!KeyStore KS} (now since : Time) (a : @Service KS) : list KeyRow :=
  SliceStable row_before (map (newKeyRow now since) (Auth.List a)).
Definition keyRoleOptions : list RoleOption := map (λ r, mkRoleOption (RoleInfo_Name r) (RoleInfo_Description r)) AllRoles.

(** ** Logs (webui_logs_data.go, webui_logs.go) *)

Definition primaryLogFields : list string := ["request_id"; "session_id"; "worker"].
Definition field_before (a b : LogField) : bool :=
  if negb (Bool.eqb (LF_Primary a) (LF_Primary b)) then LF_Primary a else String.ltb (LF_Key a) (LF_Key b).
Definition newLogLine (range_attrs : gmap string attrv → list (string * attrv)) (rec : LogRecord) : LogLine :=
  let fields := map (λ p : string * attrv, mkLogField p.1 (attrString p.2) (str_mem p.1 primaryLogFields)) (range_attrs (Log_Attrs rec)) in
  mkLogLine (format_clock (Log_Time rec)) (Log_Level rec) (levelTone (Log_Level rec)) (Log_Message rec)
    (SliceStable field_before fields).
Definition line_before (a b : LogLine) : bool := String.ltb (LL_Time b) (LL_Time a).
Definition collectLogsTable {S} `{!LogSource S} (range_attrs : gmap string attrv → list (string * attrv)) (r : Request)
    (logs : option S) : LogsTable :=
  match logs with
  | None => mkLogsTable [] 0
  | Some src =>
      let lines := SliceStable line_before
                     (map (newLogLine range_attrs) (List.filter (log_matches (parseLogFilter r)) (Snapshot src))) in
      mkLogsTable lines (Z.of_nat (length lines))
  end.

Definition logFilterState (r : Request) : LogFilterState :=
  let level := ToLower (TrimSpace (r_Query r "level")) in
  let level := if String.eqb level "" then "warn" else level in
  mkFilterState level (r_Query r "request_id") (r_Query r "session_id") (r_Query r "worker")
    (toDatetimeLocal (parseUnixSeconds (r_Query r "since"))) (toDatetimeLocal (parseUnixSeconds (r_Query r "until"))).

(** [out.Encode] lists the keys in order. *)
Definition logQueryKeys : list string := ["level"; "request_id"; "session_id"; "since"; "until"; "worker"].
Definition logQueryString (r : Request) : string :=
  Join (omap (λ key, let v := TrimSpace (r_Query r key) in
                     if String.eqb v "" then None else Some (key +:+ "=" +:+ QueryEscape v)) logQueryKeys) "&".
Definition logs_page (r : Request) (enabled : bool) : LogsData :=
  let query := logQueryString r in
  let streamURL := uiBasePath +:+ "logs/stream" in
  let csvHref := "/v1/admin/logs?format=csv" in
  mkLogsData enabled (logFilterState r) ["debug"; "info"; "warn"; "error"]
    (if String.eqb query "" then streamURL else streamURL +:+ "?" +:+ query)
    (if String.eqb query "" then csvHref else csvHref +:+ "&" +:+ query).

(** ** What the server shows *)

Section pages.
Context {KS CS SS S : Type} `{!KeyStore KS} `{!CounterStore CS} `{!SessionStore SS} `{!LogSource S}.
Context (local : Time → string).
Context (range_types : gmap string adminGPUByType → list adminGPUByType).
Context (range_status : gmap string Z → list (string * Z)) (range_attrs : gmap string attrv → list (string * attrv)).
Notation hserver := (HServer KS CS SS).
Notation server := (@cserver KS CS SS).

(** What a read consults beside the server's state: the request statistics, the log
    source, whether quotas are on, the usage series, the start time; and its clock
    readings, of the fleet snapshot, of the usage report and its snapshots, and of
    everything else.  For the live tail: whether the connection can be flushed, and
    the log source as each tick finds it. *)
Record renv := mkEnv {
  e_stats : requestStats; e_logs : option S; e_quotaOn : bool; e_series : option UStore; e_startedAt : Time;
  e_fleet : Time; e_usage : Time; e_clock : nat → Time; e_now : Time; e_flush : bool; e_ticks : list S }.

Definition collectOverview (e : renv) (key : option APIKey) (h : hserver) : overviewData :=
  let fleet := Fleet (e_fleet e) (h_ctl h) in
  let qs := QStats (s_queue (h_ctl h)) in
  let events := match key with
                | Some key => if HasScope key ScopeLogsRead then buildEvents local (e_logs e) else []
                | None => []
                end in
  mkOverview (buildKPIs fleet qs (h_globalThrottled h) (h_keyThrottled h)) (buildQueueDepth qs) (buildWorkerRows fleet) events.

(** The loop over the keys, which skips a key whose snapshot fails. *)
Fixpoint usage_view_rows (usageSeries : option UStore) (now : Time) (clock : nat → Time) (i : nat) (keys : list APIKey)
    (q : Engine CS) : Engine CS * list UsageRow :=
  match keys with
  | [] => (q, [])
  | k :: keys =>
      let '(q, res) := UsageForKey (clock i) k q in
      let '(q, rows) := usage_view_rows usageSeries now clock (Datatypes.S i) keys q in
      (q, match res with Ok snap => newUsageViewRow now (newUsageRow usageSeries k snap now) :: rows | Err _ => rows end)
  end.
Definition usage_row_before (a b : UsageRow) : bool := String.ltb (UW_KeyID a) (UW_KeyID b).
Definition collectUsage (e : renv) (h : hserver) : hserver * UsageBoard :=
  if negb (e_quotaOn e) then (h, mkUsageBoard false 0 "" "" [])
  else
    let '(q, rows) := usage_view_rows (e_series e) (e_usage e) (e_clock e) 0 (Auth.List (h_auth h)) (s_quota (h_ctl h)) in
    (set_ctl (set_quota q (h_ctl h)) h,
     mkUsageBoard true (Z.of_nat (length rows)) (formatCount (h_globalThrottled h)) (formatCount (h_keyThrottled h))
       (SliceStable usage_row_before rows)).

Definition collectWorkerList (e : renv) (h : hserver) : option (list WorkerListItem) :=
  worker_list (e_now e) (Fleet (e_fleet e) (h_ctl h)).
(** [None] when the worker is not connected. *)
Definition collectWorkerDetail (e : renv) (id : string) (h : hserver) : option (option WorkerDetail) :=
  match WorkerByID (e_fleet e) id (h_ctl h) with
  | None => None
  | Some wk => Some (worker_detail (e_now e) wk)
  end.
Definition collectHeatmap (e : renv) (h : hserver) : option HeatmapData :=
  heatmap (aggregateGPUs range_types (Fleet (e_fleet e) (h_ctl h))).

Definition collectTelemetry (e : renv) (h : hserver) : TelemetryBoard :=
  let reqs := rs_snapshot (e_stats e) in
  let fleet := Fleet (e_fleet e) (h_ctl h) in
  let qs := QStats (s_queue (h_ctl h)) in
  let wt := WaitTimeStats (h_ctl h) in
  let aff := GetAffinityStats (h_ctl h) in
  let active := match s_sessionMgr (h_ctl h) with Some m => ActiveSessions m | None => 0 end in
  let online := 0 in
  let uptime := uptimeSeconds (e_startedAt e) (e_now e) in
  let kpis :=
    [mkKPI "Requests" (formatCount (RS_Count reqs)) "total" ToneOK "Cumulative since start";
     mkKPI "Mean latency" (FormatUint (RS_MeanMs reqs)) "ms" (if 1000 <=? RS_MeanMs reqs then ToneWarn else ToneOK)
       ("p-mean over all requests; max " +:+ FormatUint (RS_MaxMs reqs) +:+ "ms");
     throttle_kpi (u64 (h_globalThrottled h + h_keyThrottled h));
     mkKPI "Active sessions" (Itoa active) "" ToneInfo "Live conversation sessions";
     mkKPI "Queue depth" (Itoa (Stats_Total qs)) "jobs" (queueTelemetryTone (Stats_Total qs) online) "Jobs waiting for a worker";
     mkKPI "Uptime" (formatUptime uptime) "" ToneIdle "Time since the server started"] in
  mkTBoard kpis
    (histogramView (RS_MeanMs reqs) (RS_MaxMs reqs) (RS_Count reqs) (RS_Buckets reqs))
    (histogramView (waitMean (WTS_SumMs wt) (WTS_Count wt)) (WTS_MaxMs wt) (WTS_Count wt)
       (map (λ b, (LeMs b, Server.Count b)) (WTS_Buckets wt)))
    (fleetStatusView range_status (count_status fleet))
    (affinityView (aff_Hits aff) (aff_Misses aff) (aff_Rebinds aff)).

Definition collectSettings (canWrite : bool) (s : server) : SettingsData :=
  match cs_config s with
  | None => mkSData false canWrite [] []
  | Some rc => mkSData true canWrite (settings_tabs (rc_cur rc)) (bootFields (rc_boot rc))
  end.

(** *** The read routes *)

Inductive console_read :=
| RdIndex | RdOverview | RdWorkers | RdWorker (id : string) | RdHeatmap | RdWorkerList | RdKeys | RdKeyList | RdUsage
| RdUsageBoard | RdTelemetry | RdTelemetryBoard | RdLogs | RdLogTable | RdLogStream | RdConfig.

(** The scope [registerUIRoutes] gives [uiScopeAuth]; the console's root has none, it
    authenticates inline. *)
Definition read_scope (p : console_read) : option string :=
  match p with
  | RdIndex => None
  | RdOverview | RdUsage | RdUsageBoard | RdTelemetry | RdTelemetryBoard => Some ScopeTelemetryRead
  | RdWorkers | RdWorker _ | RdHeatmap | RdWorkerList => Some ScopeWorkersRead
  | RdKeys | RdKeyList => Some ScopeKeysRead
  | RdLogs | RdLogTable | RdLogStream => Some ScopeLogsRead
  | RdConfig => Some ScopeConfigRead
  end.

(** What is sent: a shell around a page, a bare partial, another response, or
    nothing (a panic). *)
Inductive shown :=
| ShDashboard (shell : page)
| ShOverview (d : overviewData)
| ShPage (shell : page) (title : string)
| ShWorker (shell : page) (d : WorkerDetail)
| ShWorkerMissing (shell : page)
| ShHeatmap (d : HeatmapData)
| ShWorkerList (l : list WorkerListItem)
| ShKeyPage (shell : page) (roles : list RoleOption) (scopes : list string)
| ShKeyList (rows : list KeyRow) (roles : list RoleOption) (scopes : list string)
| ShUsage (b : UsageBoard)
| ShTelemetry (b : TelemetryBoard)
| ShLogs (shell : page) (d : LogsData)
| ShLogTable (t : LogsTable)
| ShLogStream (acts : list wact)
| ShSettings (shell : page) (d : SettingsData)
| ShOther (r : ui_response)
| ShPanic.

(** The pages authenticate once more. *)
Definition with_shell (k : hclock) (u : ui_request) (render : page → APIKey → server → shown) (s : server) : server * shown :=
  match tokenFromRequest (u_req u) with
  | None => (s, ShOther (redirectToLogin u "" []))
  | Some token =>
      let '(a, res) := Authenticate (hk_auth k) (hk_used k) token (h_auth (cs_http s)) in
      let s := on_auth a s in
      match res with
      | Err _ => (s, ShOther (redirectToLogin u "" (clearSessionCookies u)))
      | Ok key => (s, render (buildShell u key) key s)
      end
  end.

(** The pages. *)
Definition handleUIWorkers (k : hclock) (u : ui_request) (s : server) : server * shown :=
  with_shell k u (λ sh _ _, ShPage sh "Workers") s.
Definition handleUIWorkerDetail (e : renv) (id : string) (k : hclock) (u : ui_request) (s : server) : server * shown :=
  with_shell k u (λ sh _ s,
    match collectWorkerDetail e id (cs_http s) with
    | None => ShWorkerMissing sh
    | Some None => ShPanic
    | Some (Some d) => ShWorker sh d
    end) s.
Definition handleUIKeys (k : hclock) (u : ui_request) (s : server) : server * shown :=
  with_shell k u (λ sh _ _, ShKeyPage sh keyRoleOptions AllScopes) s.
Definition handleUIUsage (k : hclock) (u : ui_request) (s : server) : server * shown :=
  with_shell k u (λ sh _ _, ShPage sh "Usage") s.
Definition handleUITelemetry (k : hclock) (u : ui_request) (s : server) : server * shown :=
  with_shell k u (λ sh _ _, ShPage sh "Telemetry") s.
Definition handleUILogs (e : renv) (k : hclock) (u : ui_request) (s : server) : server * shown :=
  with_shell k u (λ sh _ _, ShLogs sh (logs_page (u_req u) (match e_logs e with Some _ => true | None => false end))) s.
Definition handleUIConfig (k : hclock) (u : ui_request) (s : server) : server * shown :=
  with_shell k u (λ sh key s, ShSettings sh (collectSettings (HasScope key ScopeConfigWrite) s)) s.

(** The partials.  Listing the keys of the file store does not fail. *)
Definition handleUIOverviewPartial (e : renv) (key : APIKey) (s : server) : shown :=
  ShOverview (collectOverview e (Some key) (cs_http s)).
Definition handleUIHeatmapPartial (e : renv) (s : server) : shown :=
  match collectHeatmap e (cs_http s) with Some d => ShHeatmap d | None => ShPanic end.
Definition handleUIWorkerListPartial (e : renv) (s : server) : shown :=
  match collectWorkerList e (cs_http s) with Some l => ShWorkerList l | None => ShPanic end.
Definition handleUIKeyListPartial (e : renv) (s : server) : shown :=
  ShKeyList (collectKeys (e_now e) (e_now e) (h_auth (cs_http s))) keyRoleOptions AllScopes.
Definition handleUIUsagePartial (e : renv) (s : server) : server * shown :=
  let '(h, b) := collectUsage e (cs_http s) in (set_http h s, ShUsage b).
Definition handleUITelemetryPartial (e : renv) (s : server) : shown := ShTelemetry (collectTelemetry e (cs_http s)).
Definition handleUILogsPartial (e : renv) (u : ui_request) : shown :=
  ShLogTable (collectLogsTable range_attrs (u_req u) (e_logs e)).

(** The live tail behind the console's own route. *)
Definition handleUILogsStream (e : renv) (r : Request) : shown :=
  match e_logs e with
  | None => ShOther (show StatusNotImplemented (PgError "Live log streaming isn't enabled on this server."))
  | Some src =>
      let filter := parseLogFilter r in
      if negb (e_flush e)
      then ShOther (show StatusInternalServerError (PgError "Streaming isn't supported here. Try the filtered view instead."))
      else ShLogStream (beginSSE ++ tail_loop filter (LogRing.Count src) (e_ticks e))
  end.

Definition show_read (p : console_read) (e : renv) (k : hclock) (u : ui_request) (key : APIKey) (s : server) : server * shown :=
  match p with
  | RdOverview => (s, handleUIOverviewPartial e key s)
  | RdHeatmap => (s, handleUIHeatmapPartial e s)
  | RdWorkerList => (s, handleUIWorkerListPartial e s)
  | RdKeyList => (s, handleUIKeyListPartial e s)
  | RdUsageBoard => handleUIUsagePartial e s
  | RdTelemetryBoard => (s, handleUITelemetryPartial e s)
  | RdLogTable => (s, handleUILogsPartial e u)
  | RdLogStream => (s, handleUILogsStream e (u_req u))
  | RdWorkers => handleUIWorkers k u s
  | RdUsage => handleUIUsage k u s
  | RdTelemetry => handleUITelemetry k u s
  | RdKeys => handleUIKeys k u s
  | RdLogs => handleUILogs e k u s
  | RdConfig => handleUIConfig k u s
  | RdWorker id => handleUIWorkerDetail e id k u s
  | RdIndex => (s, ShOther (show StatusNotFound PgNone))   (* not behind the gate *)
  end.

(** The console's root: the shell of the dashboard, whose data the partials bring. *)
Definition serve_index (k : hclock) (u : ui_request) (s : server) : server * shown :=
  let '(s, r) := handleUIIndex k u s in
  (s, match ui_page r with PgDashboard _ _ _ => ShDashboard (ui_page r) | _ => ShOther r end).

(** The gate of [registerUIRoutes], [uiScopeAuth]; [k2] are the clock readings of
    the second authentication. *)
Definition serve_read (p : console_read) (e : renv) (k k2 : hclock) (u : ui_request) (s : server) : server * shown :=
  match read_scope p with
  | None => serve_index k u s
  | Some scope =>
  match tokenFromRequest (u_req u) with
  | None => (s, ShOther (redirectToLogin u "" []))
  | Some token =>
      let '(a, res) := Authenticate (hk_auth k) (hk_used k) token (h_auth (cs_http s)) in
      let s := on_auth a s in
      match res with
      | Err e => (s, ShOther (if errors_Is e ErrUnauthenticated then redirectToLogin u expired_msg (clearSessionCookies u)
                              else show StatusInternalServerError (PgError broken_msg)))
      | Ok key =>
          if negb (HasScope key scope) then (s, ShOther (show StatusForbidden (PgError denied_msg)))
          else show_read p e k2 u key s
      end
  end end.
End pages.

Ltac unfold_handlers :=
  unfold handleUIWorkers, handleUIWorkerDetail, handleUIKeys, handleUIUsage, handleUITelemetry, handleUILogs, handleUIConfig,
    handleUIOverviewPartial, handleUIHeatmapPartial, handleUIWorkerListPartial, handleUIKeyListPartial, handleUIUsagePartial,
    handleUITelemetryPartial, handleUILogsPartial, handleUILogsStream.

(** ** Saving the settings page *)

(** What a browser posts for a field: the value of an input; of a select, the option
    marked selected, and the first option when none is (settings_templ.go marks the
    options equal to the value). *)
Definition form_value (f : SettingsField) : string :=
  match SF_Kind f with
  | FieldSelect => if hasString (SF_Options f) (SF_Value f) then SF_Value f else hd "" (SF_Options f)
  | _ => SF_Value f
  end.
Definition form_entries (tabs : list SettingsTab) : list (string * list string) :=
  map (λ f, (SF_Name f, [form_value f])) (concat (map ST_Fields tabs)).
Definition settings_form (tabs : list SettingsTab) : gmap string (list string) := list_to_map (form_entries tabs).

Definition value_text (v : string + Z) : string := match v with inl s => s | inr n => Itoa n end.

Lemma options_of (value : string) (options : list string) name label help warning : value ∈ options →
  form_value (selectField name label help value options warning) = value.
Proof.
  intros H. unfold form_value. cbn [SF_Kind SF_Options SF_Value selectField].
  assert (hasString options value = true) as ->; [|done]. apply existsb_exists. exists value.
  split; [by apply list_elem_of_In|apply String.eqb_refl].
Qed.

(** Every field of a well-formed configuration is posted as its value. *)
Lemma form_entries_values cur : well_formed cur → LogLevel cur ≠ "warning" →
  form_entries (settings_tabs cur) = map (λ f, (field_name f, [value_text (fieldValue cur f)])) all_fields.
Proof.
  intros Hw Hl.
  assert (Hn : ∀ n, 0 <= n < 2 ^ 63 → u64 n = n) by (intros; apply u64_id; unfold is_u64; lia).
  assert (LogLevel cur ∈ ["debug"; "info"; "warn"; "error"]) as L1.
  { pose proof (Hw FLogLevel) as H. cbn in H. unfold levels in H. rewrite !elem_of_cons in H.
    destruct H as [->|[->|[->|[H|[->|H]]]]]; [set_solver..| |set_solver|by apply elem_of_nil in H]. by destruct Hl. }
  assert (SessionOverflowPolicy cur ∈ ["trim"; "reject"]) as L2.
  { destruct (Hw FOverflow) as [-> | ->]; set_solver. }
  unfold form_entries. cbn [map concat settings_tabs ST_Fields app all_fields]. rewrite !options_of by done.
  cbn [SF_Name SF_Kind SF_Value form_value numField durField selectField warnField fieldValue value_text field_name].
  rewrite !Hn by first [exact (Hw FMaxTurns)|exact (Hw FMaxBytes)|exact (Hw FMaxContext)|exact (Hw FMaxPerKey)].
  reflexivity.
Qed.

Lemma field_names_nodup {A} (g : field → A) : NoDup (map (λ f, (field_name f, g f)) all_fields).*1.
Proof.
  assert ((map (λ f, (field_name f, g f)) all_fields).*1 = map field_name all_fields) as -> by reflexivity.
  apply (bool_decide_unpack _). vm_compute. exact I.
Qed.
Lemma all_fields_in f : f ∈ all_fields.
Proof. apply (bool_decide_unpack _). destruct f; vm_compute; exact I. Qed.

Lemma form_posts cur key : well_formed cur → LogLevel cur ≠ "warning" →
  settings_form (settings_tabs cur) !! key = (λ f, [value_text (fieldValue cur f)]) <$> field_of key.
Proof.
  intros Hw Hl. unfold settings_form. rewrite form_entries_values by done. destruct (field_of key) as [f|] eqn:E; cbn [fmap option_fmap option_map].
  - apply field_of_Some in E as <-. apply elem_of_list_to_map_1; [apply field_names_nodup|].
    apply list_elem_of_fmap. exists f. split; [done|apply all_fields_in].
  - apply not_elem_of_list_to_map_1. intros (p & -> & (f & -> & _)%list_elem_of_fmap)%list_elem_of_fmap. cbn [fst] in E.
    by rewrite field_of_name in E.
Qed.

(** *** Reading the texts back *)

Lemma number_text n : is_u64 n → isNonNegInteger (Itoa n) = true ∧ json_number (Itoa n) = JInt n ∧ Itoa n ≠ "" ∧ TrimSpace (Itoa n) = Itoa n.
Proof.
  intros Hn. pose proof Hn as [H0 _]. destruct (Itoa_digits n H0) as [Hd Hne]. pose proof (digits_Itoa n Hn) as Hv.
  assert (Itoa n ≠ "") as Hs by (intros E; by rewrite E in Hne). split_and!; [..|done|].
  - unfold isNonNegInteger. destruct (String.eqb_spec (Itoa n) ""); [done|]. cbn [negb andb].
    assert (∀ s, Forall digit7 (bytes_of_string s) → has_char (λ c, negb (is_digit c)) s = false) as ->; [|done|done].
    clear. induction s as [|c s IH]; [done|]. cbn. inversion 1 as [|?? H1 H2]; subst. rewrite IH by done.
    unfold is_digit, byte_of, digit7 in *. cbn in *. lia.
  - unfold json_number. destruct (decide (n = 0)) as [->|Hz]; [reflexivity|].
    assert (∃ d s, 1 <= d < 10 ∧ Itoa n = String (digit_char d) s) as (d & s & Hd' & E).
    { unfold Itoa. destruct (Z.ltb_spec n 0); [lia|]. apply itoa_loop_lead. unfold is_u64 in Hn. split; [lia|].
      eapply Z.lt_le_trans; [exact (proj2 Hn)|]. vm_compute. discriminate. }
    rewrite E in Hv |- *. rewrite Hv. destruct s; [done|].
    pose proof (byte_digit d ltac:(lia)) as Hb. rewrite Hb. destruct (Z.eqb_spec (48 + d) 48); [lia|done].
  - apply TrimSpace_plain. pose proof (plain_Itoa n "" H0 plain_nil) as H. by rewrite bytes_of_string_app, app_nil_r in H.
Qed.

Lemma duration_text_nonempty d : 0 < d < 2 ^ 63 → Duration_String d ≠ "".
Proof. intros Hd E. pose proof (duration_roundtrip d ltac:(unfold is_i64; lia)) as H. by rewrite E in H. Qed.

Lemma value_text_trim cur f : well_formed cur →
  TrimSpace (value_text (fieldValue cur f)) = value_text (fieldValue cur f) ∧ value_text (fieldValue cur f) ≠ "".
Proof.
  intros Hw. pose proof (Hw f) as Hf. destruct (fieldValue cur f) as [s|n]; cbn [value_text].
  - destruct f; cbn in Hf; try done.
    + unfold levels in Hf. rewrite !elem_of_cons in Hf. destruct Hf as [->|[->|[->|[->|[->|H]]]]]; try by vm_compute. by apply elem_of_nil in H.
    + destruct Hf as (d & Hd & ->). pose proof (plain_duration d Hd). split; [by apply TrimSpace_plain|by apply duration_text_nonempty].
    + destruct Hf as [-> | ->]; by vm_compute.
    + destruct Hf as (d & Hd & ->). pose proof (plain_duration d Hd). split; [by apply TrimSpace_plain|by apply duration_text_nonempty].
    + destruct Hf as (d & Hd & ->). pose proof (plain_duration d Hd). split; [by apply TrimSpace_plain|by apply duration_text_nonempty].
  - assert (is_u64 n) as Hn by (unfold is_u64; destruct f; cbn in Hf; unfold is_u64 in Hf; try done; lia).
    destruct (number_text n Hn) as (_ & _ & H1 & H2). done.
Qed.

Lemma reading_raw_value cur f : well_formed cur → reading f (raw_value (fieldValue cur f)) = Some (fieldValue cur f).
Proof.
  intros Hw. pose proof (patch_field_reading id f (raw_value (fieldValue cur f)) cur) as H.
  rewrite value_accepted in H by apply Hw. destruct (reading f _) as [v|] eqn:E; [|by destruct H].
  injection H as H. apply (f_equal (λ c, fieldValue c f)) in H.
  rewrite !set_value_eq in H by (first [apply Hw|by eapply reading_fits]). by rewrite H.
Qed.

(** Every value the form's loop has put into the patch is the one in force. *)
Definition patch_of (cur : ConfigSettings) (raw : gmap string rawjson) : Prop :=
  ∀ key j, raw !! key = Some j → ∃ f, field_of key = Some f ∧ j = raw_value (fieldValue cur f).

Lemma form_loop_reads cur u : well_formed cur →
  (∀ key f, field_of key = Some f → PostFormValue u key = value_text (fieldValue cur f)) →
  ∀ keys raw, (∀ key, key ∈ keys → key = "csrf_token" ∨ is_Some (field_of key)) → patch_of cur raw →
  ∃ raw', form_loop keys u raw = inr raw' ∧ patch_of cur raw' ∧
    (∀ key, is_Some (raw' !! key) ↔ is_Some (raw !! key) ∨ (key ∈ keys ∧ is_Some (field_of key))).
Proof.
  intros Hw Hp keys. induction keys as [|key keys IH]; intros raw Hk Hraw; cbn [form_loop].
  - exists raw. split; [done|]. split; [done|]. intros key. rewrite elem_of_nil. tauto.
  - assert (Hk' : ∀ k, k ∈ keys → k = "csrf_token" ∨ is_Some (field_of k)) by (intros; apply Hk; by right).
    destruct (String.eqb_spec key "csrf_token") as [->|Hc].
    + destruct (IH raw Hk' Hraw) as (raw' & E & H1 & H2). exists raw'. split; [done|]. split; [done|].
      intros k. rewrite H2, elem_of_cons. split; [tauto|]. intros [H|[[->|H] Hs]]; [by left|by destruct Hs|by right].
    + destruct (Hk key ltac:(by left)) as [|[f Ef]]; [done|]. pose proof (field_of_Some _ _ Ef) as <-.
      rewrite read_only_not_tunable, Ef, (Hp _ _ Ef).
      destruct (value_text_trim cur f Hw) as [-> Hne]. destruct (String.eqb_spec (value_text (fieldValue cur f)) "") as [|_]; [done|].
      assert (∃ raw', form_loop keys u (<[field_name f := raw_value (fieldValue cur f)]> raw) = inr raw' ∧ patch_of cur raw' ∧
        (∀ k, is_Some (raw' !! k) ↔ is_Some (raw !! k) ∨ (k ∈ field_name f :: keys ∧ is_Some (field_of k)))) as Hstep.
      { destruct (IH (<[field_name f := raw_value (fieldValue cur f)]> raw) Hk') as (raw' & E & H1 & H2).
        - intros k j. destruct (decide (k = field_name f)) as [->|Hn]; [rewrite lookup_insert_eq; intros [= <-]; eauto|].
          rewrite lookup_insert_ne by done. apply Hraw.
        - exists raw'. split; [done|]. split; [done|]. intros k. rewrite H2, elem_of_cons.
          destruct (decide (k = field_name f)) as [->|Hn]; [rewrite lookup_insert_eq; naive_solver|].
          rewrite lookup_insert_ne by done. tauto. }
      pose proof (Hw f) as Hf. destruct (numericConfigField f) eqn:En.
      * assert (∃ n, fieldValue cur f = inr n ∧ is_u64 n) as (n & Ev & Hn).
        { destruct (fieldValue cur f) as [s|n]; destruct f; try done; exists n; (split; [done|]); cbn in Hf; unfold is_u64 in *; lia. }
        rewrite Ev in *. destruct (number_text n Hn) as (H1 & H2 & _ & _). cbn [value_text raw_value] in *.
        rewrite H1, H2. exact Hstep.
      * assert (∃ s, fieldValue cur f = inl s) as (s & Ev) by (destruct (fieldValue cur f); [by eauto|by destruct f]).
        rewrite Ev in *. exact Hstep.
Qed.

(** C33: Saving the settings page as it was rendered changes nothing: for every
    well-formed configuration but one whose log level is spelled "warning", the
    form the page posts is accepted, names every setting, and the patch it makes
    leaves each of them as it is. (The level menu has no "warning" entry, so saving
    such a page sets the level to debug: [settings_page_warning_level].) *)
Theorem settings_page_roundtrip quote range cur u csrf :
  (∀ m, range m ≡ₚ (map_to_list m).*1) → well_formed cur → LogLevel cur ≠ "warning" →
  u_form u = <["csrf_token" := csrf]> (settings_form (settings_tabs cur)) →
  ∃ raw, settingsFormToPatch range u = inr raw ∧ applyConfigPatch quote cur raw = Ok (cur, dom raw) ∧
    (∀ f, field_name f ∈ dom raw).
Proof.
  intros Hr Hw Hl Hu.
  assert (Hpost : ∀ key f, field_of key = Some f → PostFormValue u key = value_text (fieldValue cur f)).
  { intros key f Ef. unfold PostFormValue, PostForm. rewrite Hu, lookup_insert_ne by (intros <-; done).
    rewrite form_posts, Ef by done. done. }
  destruct (form_loop_reads cur u Hw Hpost (range (u_form u)) ∅) as (raw & E & H1 & H2).
  - intros key. rewrite Hr, Hu. intros ([k l] & -> & Hin)%list_elem_of_fmap. apply elem_of_map_to_list in Hin. cbn [fst].
    destruct (decide (k = "csrf_token")) as [->|Hn]; [by left|]. right. rewrite lookup_insert_ne, form_posts in Hin by done.
    destruct (field_of k); [by eauto|done].
  - intros key j H. by rewrite lookup_empty in H.
  - exists raw. split; [exact E|].
    assert (Hall : ∀ f, is_Some (raw !! field_name f)).
    { intros f. apply H2. right. split; [|by rewrite field_of_name]. rewrite Hr, Hu. apply list_elem_of_fmap.
      exists (field_name f, [value_text (fieldValue cur f)]). split; [done|]. apply elem_of_map_to_list.
      rewrite lookup_insert_ne by (by destruct f). by rewrite form_posts, field_of_name. }
    assert (Hrd : ∀ key j, raw !! key = Some j → ∃ f, field_of key = Some f ∧ readable raw key = Some (fieldValue cur f)).
    { intros key j Ej. destruct (H1 key j Ej) as (f & Ef & ->). exists f. split; [done|]. unfold readable. rewrite Ej, Ef. by apply reading_raw_value. }
    destruct (apply_patch_total quote cur raw) as [c' Ec]; [intros key [j Ej]; destruct (Hrd key j Ej) as (f & _ & ->); done|].
    split; [|intros f; apply elem_of_dom, Hall]. rewrite Ec. do 2 f_equal. apply settings_ext. intros f.
    apply apply_patch_values in Ec as (_ & Hv & _). destruct (Hv _ (Hall f)) as (v & Hv1 & Hv2).
    destruct (Hall f) as [j Ej]. destruct (Hrd _ j Ej) as (g & Eg & Hg). rewrite field_of_name in Eg. injection Eg as <-.
    unfold named_value in Hv2. rewrite field_of_name in Hv2. congruence.
Qed.

(** A log level set to "warning" has no option on the page, so the browser posts the
    first one: saving the page, whatever else was edited, turns debug logging on. *)
Theorem settings_page_warning_level cur : LogLevel cur = "warning" →
  settings_form (settings_tabs cur) !! "log_level" = Some ["debug"].
Proof.
  intros H. unfold settings_form. apply elem_of_list_to_map_1.
  - assert ((form_entries (settings_tabs cur)).*1 = (map (λ f, (field_name f, tt)) all_fields).*1) as -> by reflexivity. apply field_names_nodup.
  - unfold form_entries. cbn [map concat settings_tabs ST_Fields app]. apply elem_of_cons. left. cbn. by rewrite H.
Qed.

(** ** The usage page and the usage report *)

Lemma SliceStable_fmap {A B} (less : A → A → bool) (less' : B → B → bool) (g : A → B) l :
  (∀ a b, less' (g a) (g b) = less a b) → SliceStable less' (map g l) = map g (SliceStable less l).
Proof.
  intros Hg. induction l as [|x l IH]; simpl; [done|]. rewrite IH. generalize (SliceStable less l) as o.
  induction o as [|y o IHo]; simpl; [done|]. rewrite Hg. destruct (less y x); simpl; [by rewrite IHo|done].
Qed.

Lemma filter_all {A} (P : A → bool) l : (∀ a, P a = true) → List.filter P l = l.
Proof. intros H. induction l as [|a l IH]; [done|]. cbn. by rewrite H, IH. Qed.
Lemma keys_unique {A} (f : A → string) l a b : NoDup (map f l) → a ∈ l → b ∈ l → f a = f b → a = b.
Proof.
  intros Hnd [i Hi]%list_elem_of_lookup [j Hj]%list_elem_of_lookup E. assert (i = j) as ->; [|congruence].
  eapply (NoDup_lookup _ _ _ (f a) Hnd); rewrite list_lookup_fmap; [by rewrite Hi|by rewrite Hj, E].
Qed.

Section usage_page.
Context {KS CS SS S : Type} `{!KeyStore KS} `{!CounterStore CS} `{!SessionStore SS}.

(** The two loops read the same snapshots; neither ever fails. *)
Lemma usage_view_rows_spec usageSeries now clock keys : ∀ i (q : Engine CS),
  ∃ q' rows, usage_rows usageSeries now clock i keys q = (q', Ok rows) ∧
    usage_view_rows usageSeries now clock i keys q = (q', map (newUsageViewRow now) rows) ∧
    map UR_KeyID rows = map APIKey_ID keys.
Proof.
  induction keys as [|k keys IH]; intros i q; cbn [usage_rows usage_view_rows]; [by exists q, []|].
  pose proof (UsageForKey_snapshot (clock i) k q) as Hu. destruct (UsageForKey (clock i) k q) as [q1 r].
  destruct Hu as (-> & _). destruct (IH (Datatypes.S i) q1) as (q2 & rows & -> & -> & E).
  eexists q2, (_ :: rows). split; [done|]. split; [done|]. cbn [map]. rewrite E. f_equal.
  by unfold newUsageRow; destruct usageSeries.
Qed.

(** The usage page shows what GET /v1/admin/usage reports: read at the same instants,
    the page has one row for every row of the unfiltered report, in its order, each
    the rendering of that row, with the report's key count and throttle counters, and
    both leave the server in the same state. *)
Theorem usage_page_exact sortRows (e : renv (S := S)) r (h : HServer KS CS SS) :
  sorts_rows sortRows → keyed (keys_of (Service_store (h_auth h))) → e_quotaOn e = true →
  r_Query r "key_id" = "" → r_Query r "owner" = "" → r_Query r "team" = "" → r_Query r "format" = "" →
  ∃ rows b h', collectUsage e h = (h', b) ∧
    handleAdminUsage sortRows true (e_series e) (e_usage e) (e_clock e) r h =
      (h', let '(page, next) := paginate rows (parsePageParams r).1 (parsePageParams r).2 in
           writeJSON StatusOK (PUsage (UB_KeyCount b) (h_globalThrottled h) (h_keyThrottled h) page next)) ∧
    UB_Rows b = map (newUsageViewRow (e_usage e)) rows ∧
    UB_GlobalThrottled b = formatCount (h_globalThrottled h) ∧ UB_KeyThrottled b = formatCount (h_keyThrottled h).
Proof.
  intros Hsort Hk Hq Q1 Q2 Q3 Q4. unfold collectUsage, handleAdminUsage. rewrite Hq, Q1, Q2, Q3, Q4. cbn [negb].
  rewrite (filter_all (λ k, usageKeyMatches k "" "" "")) by done.
  pose proof (filtered_ids (λ _, true) (h_auth h) Hk) as Hnd.
  rewrite filter_all in Hnd by done.
  destruct (usage_view_rows_spec (e_series e) (e_usage e) (e_clock e) (Auth.List (h_auth h)) 0 (s_quota (h_ctl h)))
    as (q & rows & -> & -> & Ei). rewrite <- Ei in Hnd. destruct (Hsort rows) as [Hp Hs].
  assert (sortRows rows = SliceStable row_less rows) as Es.
  { apply (sorted_unique row_less (StrictWeakOrder0 := string_order UR_KeyID)).
    - intros a b Ha Hb H1 H2. rewrite Hp in Ha, Hb. unfold GoHeap.le, row_less in H1, H2. apply ltb_false in H1, H2.
      apply (keys_unique UR_KeyID rows); [done..|]. by apply (anti_symm String.le).
    - eapply StronglySorted_weaken; [|exact Hs]. intros a b H. by apply ltb_false.
    - apply (SliceStable_sorted row_less (StrictWeakOrder0 := string_order UR_KeyID)).
    - by rewrite Hp, SliceStable_perm. }
  exists (sortRows rows). eexists _, _. split; [reflexivity|]. cbn [UB_KeyCount UB_Rows UB_GlobalThrottled UB_KeyThrottled].
  split; [|split; [|done]].
  - rewrite length_map. rewrite <- (Permutation_length Hp). destruct (parsePageParams r) as [limit offset]. cbn [fst snd].
    by destruct (paginate _ _ _).
  - rewrite Es. by apply SliceStable_fmap.
Qed.
End usage_page.

(** ** Sizes that cannot be printed *)

(** The loop stops at the unit of the size: after [k] divisions, with [1024^(k+1)]. *)
Lemma bytes_loop_exp fuel : ∀ n div exp, 0 <= n < 1024 ^ Z.of_nat (S fuel) →
  ∃ k, (bytes_loop fuel n div exp).2 = (exp + k)%nat ∧ (k ≤ fuel)%nat ∧
    (k = 0%nat ∨ 1024 ^ Z.of_nat k <= n) ∧ n < 1024 ^ Z.of_nat (S k).
Proof.
  induction fuel as [|fuel IH]; intros n div exp Hn; cbn [bytes_loop].
  - exists 0%nat. cbn [snd]. split; [lia|]. split; [lia|]. split; [by left|]. exact (proj2 Hn).
  - destruct (Z.leb_spec 1024 n) as [H|H].
    + destruct (IH (n / 1024) (u64 (div * 1024)) (S exp)) as (k & Ek & Hk & Hlo & Hhi).
      { split; [apply Z.div_pos; lia|]. apply Z.div_lt_upper_bound; [lia|].
        rewrite (Nat2Z.inj_succ (S fuel)), Z.pow_succ_r in Hn by lia. lia. }
      exists (S k). rewrite Ek. split; [lia|]. split; [lia|].
      rewrite (Nat2Z.inj_succ (S k)), Z.pow_succ_r by lia. split.
      * right. rewrite Nat2Z.inj_succ, Z.pow_succ_r by lia. destruct Hlo as [->|Hlo]; [simpl; lia|].
        pose proof (Z.mul_div_le n 1024). nia.
      * pose proof (Z.mul_succ_div_gt n 1024). nia.
    + exists 0%nat. cbn [snd]. split; [lia|]. split; [lia|]. split; [by left|]. simpl. lia.
Qed.

(** A size prints exactly when it is below an exbibyte. *)
Lemma formatBytes_total b : is_u64 b → is_Some (formatBytes b) ↔ b < 2 ^ 60.
Proof.
  unfold is_u64, formatBytes. intros Hb. destruct (Z.ltb_spec b 1024); [split; [lia|by eauto]|].
  destruct (bytes_loop_exp 6 (b / 1024) 1024 0) as (k & Ek & _ & Hlo & Hhi).
  { split; [apply Z.div_pos; lia|]. apply Z.div_lt_upper_bound; [lia|]. simpl. lia. }
  destruct (bytes_loop 6 (b / 1024) 1024 0) as [div exp]. cbn [snd] in Ek. rewrite Nat.add_0_l in Ek. subst exp.
  pose proof (Z.mul_div_le b 1024 ltac:(lia)) as D1. pose proof (Z.mul_succ_div_gt b 1024 ltac:(lia)) as D2.
  destruct (decide (k < 5)%nat) as [Hk|Hk].
  - destruct (lookup_lt_is_Some_2 byte_units k Hk) as [unit ->]. split; [|by eauto]. intros _.
    assert (1024 ^ Z.of_nat (S k) <= 1024 ^ 5) by (apply Z.pow_le_mono_r; lia). lia.
  - rewrite lookup_ge_None_2 by (cbn; lia). split; [by intros [? ?]|]. intros Hb'. exfalso.
    destruct Hlo as [->|Hlo]; [lia|]. assert (1024 ^ 5 <= 1024 ^ Z.of_nat k) by (apply Z.pow_le_mono_r; lia). lia.
Qed.

Definition vram_ok (wk : Worker) : Prop := is_u64 (Worker_FreeVRAM wk) ∧ is_u64 (Worker_TotalVRAM wk).
Definition printable (wk : Worker) : Prop :=
  Worker_TotalVRAM wk = 0 ∨ (Worker_FreeVRAM wk < 2 ^ 60 ∧ Worker_TotalVRAM wk < 2 ^ 60).

Lemma formatVRAMUsage_total free total : is_u64 free → is_u64 total →
  is_Some (formatVRAMUsage free total) ↔ total = 0 ∨ (free < 2 ^ 60 ∧ total < 2 ^ 60).
Proof.
  intros Hf Ht. unfold formatVRAMUsage. destruct (Z.eqb_spec total 0); [split; [by left|by eauto]|].
  rewrite <- formatBytes_total, <- (formatBytes_total total) by done.
  destruct (formatBytes free), (formatBytes total); split; intros; naive_solver.
Qed.

(** The worker list renders exactly when every worker announces less than an
    exbibyte: one worker that announces more takes the page down for the whole fleet,
    while a fleet within the bound is listed completely, once per worker, by id. *)
Theorem worker_page_total now fleet : Forall vram_ok fleet →
  match worker_list now fleet with
  | None => Exists (λ wk, ~ printable wk) fleet
  | Some items => Forall printable fleet ∧ map WI_ID items ≡ₚ map Worker_ID fleet ∧ StronglySorted String.le (map WI_ID items)
  end.
Proof.
  intros Hv. unfold worker_list.
  assert (Hi : ∀ wk, vram_ok wk → is_Some (worker_item now wk) ↔ printable wk).
  { intros wk [H1 H2]. unfold worker_item, printable. rewrite <- formatVRAMUsage_total by done.
    destruct (formatVRAMUsage _ _); split; intros; naive_solver. }
  destruct (mapM (worker_item now) fleet) as [items|] eqn:E; cbn.
  - split_and!.
    + pose proof (mapM_is_Some_1 _ _ (mk_is_Some _ _ E)) as E'. rewrite Forall_forall in *. intros wk Hin. apply Hi; [by apply Hv|]. exact (E' wk Hin).
    + rewrite SliceStable_perm. apply mapM_Some in E. clear Hv Hi. induction E as [|wk it l its Hx _ IH]; [done|]. cbn [map].
      rewrite IH. f_equiv. unfold worker_item in Hx. destruct (formatVRAMUsage _ _); [|done]. by injection Hx as <-.
    + apply string_keys_sorted.
  - apply mapM_None in E. apply Exists_exists in E as (wk & Hin & E). apply Exists_exists. exists wk. split; [done|].
    rewrite <- Hi by (rewrite Forall_forall in Hv; auto). rewrite E. by intros [? ?].
Qed.

(** ** Who sees what *)

Section guard.
Context {KS CS SS S : Type} `{!KeyStore KS} `{!CounterStore CS} `{!SessionStore SS} `{!LogSource S}.
Context (local : Time → string) (range_types : gmap string adminGPUByType → list adminGPUByType).
Context (range_status : gmap string Z → list (string * Z)) (range_attrs : gmap string attrv → list (string * attrv)).
Notation serve := (serve_read (KS := KS) (CS := CS) (SS := SS) (S := S) local range_types range_status range_attrs).

(** Everything beside a redirect or an error page. *)
Definition reveals (x : shown) : Prop := match x with ShOther _ => False | _ => True end.

(** The scopes a viewer of this content must have: those of the JSON endpoints that
    serve the same data. *)
Definition needs (x : shown) : list string :=
  match x with
  | ShOverview d => "telemetry:read" :: match ov_events d with [] => [] | _ => ["logs:read"] end
  | ShUsage _ | ShTelemetry _ => ["telemetry:read"]
  | ShPage _ title => [if String.eqb title "Workers" then "workers:read" else "telemetry:read"]
  | ShWorker _ _ | ShWorkerMissing _ | ShHeatmap _ | ShWorkerList _ => ["workers:read"]
  | ShKeyPage _ _ _ | ShKeyList _ _ _ => ["keys:read"]
  | ShLogs _ _ | ShLogTable _ | ShLogStream _ => ["logs:read"]
  | ShSettings _ _ => ["config:read"]
  | ShDashboard _ | ShOther _ | ShPanic => []
  end.

Lemma with_shell_needs k u (render : page → APIKey → @cserver KS CS SS → shown) (s : @cserver KS CS SS) sc :
  (∀ sh key s, needs (render sh key s) = [sc] ∨ needs (render sh key s) = []) →
  needs (with_shell k u render s).2 = [sc] ∨ needs (with_shell k u render s).2 = [].
Proof.
  intros H. unfold with_shell. destruct (tokenFromRequest _); [|by right].
  destruct (Authenticate _ _ _ _) as [a [key|err]]; [apply H|by right].
Qed.

(** C34: The console's read routes, all but the login form and the static assets; the
    live log tail and the console's root are among them. Whatever is shown, beside a redirect or an error page, is shown for a
    token that authenticates a key; and that key has the scope of the content:
    telemetry:read for overview, usage and telemetry, workers:read for workers and
    GPUs, keys:read for keys, config:read for settings, logs:read for log lines,
    those among the events of the overview too. The root shows a shell without
    data and needs no scope. *)
Theorem console_read_guarded p e k k2 u s :
  reveals (serve p e k k2 u s).2 →
  ∃ token key, tokenFromRequest (u_req u) = Some token ∧
    (Authenticate (hk_auth k) (hk_used k) token (h_auth (cs_http s))).2 = Ok key ∧
    Forall (λ scope, HasScope key scope = true) (needs (serve p e k k2 u s).2).
Proof.
  unfold serve_read. destruct (read_scope p) as [scope|] eqn:Ep.
  2: { unfold serve_index, handleUIIndex. destruct (negb _); [done|]. destruct (tokenFromRequest (u_req u)) as [token|]; [|done].
       destruct (Authenticate _ _ token _) as [a [key|err]] eqn:Ea; [|done]. intros _. exists token, key. rewrite Ea. by cbn. }
  destruct (tokenFromRequest (u_req u)) as [token|] eqn:Et; [|done].
  destruct (Authenticate _ _ token _) as [a [key|err]] eqn:Ea; [|done].
  destruct (HasScope key scope) eqn:Es; cbn [negb]; [|done]. intros _. exists token, key.
  split; [done|]. rewrite Ea. split; [done|].
  assert (Hsc : ∀ l, l = [scope] ∨ l = [] → Forall (λ sc, HasScope key sc = true) l).
  { intros l [-> | ->]; by repeat constructor. }
  destruct p; cbn [show_read read_scope] in *; unfold_handlers; try done; injection Ep as <-.
  all: try (apply Hsc; apply with_shell_needs; intros; by left).
  all: try (apply Hsc; left; reflexivity).
  - cbn [snd needs]. constructor; [done|]. unfold collectOverview. cbn [ov_events].
    destruct (HasScope key ScopeLogsRead) eqn:El; [|done]. case_match; by repeat constructor.
  - apply Hsc, with_shell_needs. intros. case_match; [case_match|]; auto.
  - apply Hsc. cbn. destruct (collectHeatmap _ _ _); cbn; auto.
  - apply Hsc. cbn. destruct (collectWorkerList _ _); cbn; auto.
  - apply Hsc. destruct (collectUsage _ _). by left.
  - apply Hsc. cbn. destruct (e_logs e); [|by right]. destruct (negb _); cbn; auto.
Qed.

(** The telemetry page never counts a worker as online, so its queue figure is
    alarmed whenever a job waits, whatever the fleet. *)
Theorem telemetry_queue_alarm (e : renv (S := S)) (h : HServer KS CS SS) :
  let total := Stats_Total (QStats (s_queue (h_ctl h))) in
  KPI_Tone <$> (TB_KPIs (collectTelemetry range_status e h) !! 4%nat) = Some (if total =? 0 then ToneIdle else ToneDanger).
Proof. cbn. unfold queueTelemetryTone. by destruct (_ =? 0). Qed.
End guard.

(** A row of the keys table is the same for keys that differ only in their secret. *)
Lemma key_row_erase now since k : newKeyRow now since (erase k) = newKeyRow now since k.
Proof. by destruct k. Qed.

(** ** The log table *)

Section logs.
Context {S : Type} `{!LogSource S}.
Context (range_attrs : gmap string attrv → list (string * attrv)) (Hrange : ∀ m, range_attrs m ≡ₚ map_to_list m).

Lemma field_before_order : StrictWeakOrder field_before.
Proof.
  destruct (string_order LF_Key) as [H1 H2]. unfold field_before, GoHeap.le in *.
  split; unfold GoHeap.le, field_before.
  - intros a b. specialize (H1 a b). destruct (LF_Primary a), (LF_Primary b); cbn; auto.
  - intros a b c. specialize (H2 a b c). destruct (LF_Primary a), (LF_Primary b), (LF_Primary c); cbn; auto; congruence.
Qed.

(** The badges of a line do not depend on the order in which the map of its
    attributes is walked. *)
Lemma log_fields_stable (r2 : gmap string attrv → list (string * attrv)) rec :
  (∀ m, r2 m ≡ₚ map_to_list m) → newLogLine range_attrs rec = newLogLine r2 rec.
Proof.
  intros H2. unfold newLogLine. f_equal. apply (SliceStable_proper _ (StrictWeakOrder0 := field_before_order)); [|by rewrite Hrange, H2].
  intros a b. rewrite Hrange. intros ([k v] & -> & Ha)%list_elem_of_fmap ([k' v'] & -> & Hb)%list_elem_of_fmap.
  unfold GoHeap.le, field_before. cbn [LF_Primary LF_Key fst snd]. apply elem_of_map_to_list in Ha, Hb.
  destruct (str_mem k primaryLogFields) eqn:E1, (str_mem k' primaryLogFields) eqn:E2; cbn [Bool.eqb negb]; try done;
    intros L1 L2; apply ltb_false in L1, L2; assert (k = k') as -> by (by apply (anti_symm String.le)); congruence.
Qed.

(** The console's log table holds the lines the API's query selects, each once and
    with the same level and message. *)
Theorem logs_page_same_lines r (src : S) :
  let t := collectLogsTable range_attrs r (Some src) in
  let recs := List.filter (log_matches (parseLogFilter r)) (Snapshot src) in
  LT_Lines t ≡ₚ map (newLogLine range_attrs) recs ∧ LT_Count t = Z.of_nat (length recs) ∧
  map LE_Message (map toLogEntryView recs) ≡ₚ map LL_Message (LT_Lines t).
Proof.
  cbn [collectLogsTable LT_Lines LT_Count]. set (recs := List.filter _ _). split_and!.
  - apply SliceStable_perm.
  - by rewrite SliceStable_length, length_map.
  - rewrite SliceStable_perm, !map_map. done.
Qed.
End logs.

(** ** Witnesses *)

#[local] Instance pages_demo_keys : KeyStore Memory := Memory_KeyStore Auth.demo_range (Hrange := Auth.demo_range_ok).
#[local] Instance pages_demo_sess : SessionStore MemorySessionStore := MSS_SessionStore demo_sessions demo_sessions_ok.

Definition form_keys (m : gmap string (list string)) : list string := (map_to_list m).*1.
Definition demo_form_ui : ui_request :=
  mkUI (u_req demo_ui) (<["csrf_token" := ["csrf-1"]]> (settings_form (settings_tabs (demo_settings_of 100)))) false "" false.
Lemma settings_page_roundtrip_witness :
  ∃ raw, settingsFormToPatch form_keys demo_form_ui = inr raw ∧
    applyConfigPatch demo_quote (demo_settings_of 100) raw = Ok (demo_settings_of 100, dom raw).
Proof.
  destruct (settings_page_roundtrip demo_quote form_keys (demo_settings_of 100) demo_form_ui ["csrf-1"]) as (raw & H1 & H2 & _).
  - intros m. exact (reflexivity (form_keys m)).
  - apply demo_well_formed. lia.
  - discriminate.
  - exact eq_refl.
  - exists raw. exact (conj H1 H2).
Defined.

(** PUT accepts "warning" and keeps it. *)
Example warning_is_kept :
  applyConfigPatch demo_quote (demo_settings_of 100) {["log_level" := JStr "warning"]} =
  Ok (set_text FLogLevel "warning" (demo_settings_of 100), {["log_level"]}).
Proof. reflexivity. Qed.
Lemma settings_page_warning_level_witness :
  settings_form (settings_tabs (set_text FLogLevel "warning" (demo_settings_of 100))) !! "log_level" = Some ["debug"].
Proof. apply settings_page_warning_level. reflexivity. Defined.

Definition demo_env : renv (S := option logRing) := mkEnv requestStats_zero None true None 1 9 9 (λ _, 9) 9 true [].
Lemma usage_page_exact_witness :
  ∃ rows b h', collectUsage demo_env demo_http = (h', b) ∧ UB_Rows b = map (newUsageViewRow 9) rows.
Proof.
  destruct (usage_page_exact (SliceStable row_less) demo_env demo_usage_req demo_http) as (rows & b & h' & E & _ & H & _).
  - intros l. split; [apply SliceStable_perm|].
    eapply StronglySorted_weaken; [|apply (SliceStable_sorted row_less (StrictWeakOrder0 := string_order UR_KeyID))].
    intros a b. apply ltb_false.
  - exact demo_live_keyed.
  - exact eq_refl.
  - exact eq_refl.
  - exact eq_refl.
  - exact eq_refl.
  - exact eq_refl.
  - exists rows, b, h'. exact (conj E H).
Defined.

Definition demo_big (id : string) (free total : Z) : Worker := mkWorker id [] 0 0 total free 0 "" WorkerOnline 0.
Lemma worker_page_total_witness :
  worker_list 9 [demo_big "w1" 5 (2 ^ 30); demo_big "w2" 0 (2 ^ 60)] = None ∧
  Exists (λ wk, ~ printable wk) [demo_big "w1" 5 (2 ^ 30); demo_big "w2" 0 (2 ^ 60)].
Proof.
  assert (E : worker_list 9 [demo_big "w1" 5 (2 ^ 30); demo_big "w2" 0 (2 ^ 60)] = None) by (vm_compute; reflexivity).
  split; [exact E|].
  pose proof (worker_page_total 9 [demo_big "w1" 5 (2 ^ 30); demo_big "w2" 0 (2 ^ 60)]) as H. rewrite E in H. apply H.
  apply Forall_cons_2; [|apply Forall_cons_2; [|apply Forall_nil_2]]; split; unfold is_u64; cbn; lia.
Defined.

Definition page_key : APIKey :=
  mkAPIKey Auth.demo_id "ops" Prefix (hashSecret [2] "s") [2] 5 0 0 None "" "" None "" [] [ScopeTelemetryRead] [] [] None.
Definition page_server : @cserver Memory MemoryCounterStore MemorySessionStore :=
  set_http (set_auth (mkService (mkMemory {[ Auth.demo_id := page_key ]}) 0) demo_http) demo_config.
Definition page_ui : ui_request := mkUI demo_bearer ∅ false "" false.
Definition page_read (p : console_read) :=
  serve_read (S := option logRing) format_clock (λ m, (map_to_list m).*2) (λ m, map_to_list m) (λ m, map_to_list m) p demo_env
    (demo_hclock 9) (demo_hclock 9) page_ui page_server.
Lemma console_read_guarded_witness :
  ∃ key, HasScope key "telemetry:read" = true ∧ reveals (page_read RdOverview).2.
Proof.
  destruct (console_read_guarded (S := option logRing) format_clock (λ m, (map_to_list m).*2) (λ m, map_to_list m)
    (λ m, map_to_list m) RdOverview demo_env (demo_hclock 9) (demo_hclock 9) page_ui page_server) as (token & key & _ & _ & H).
  - vm_compute. exact I.
  - exists key. split; [|vm_compute; exact I].
    assert (E : needs (page_read RdOverview).2 = ["telemetry:read"]) by (vm_compute; reflexivity).
    unfold page_read in E. rewrite E in H. by inversion_clear H.
Defined.

(** The same key is refused the worker list. *)
Example read_refused : (page_read RdWorkerList).2 = ShOther (show StatusForbidden (PgError denied_msg)).
Proof. vm_compute. reflexivity. Qed.

(** *** The order of the log table *)

Definition demo_line (t : Time) (msg : string) : logRecord := mkLogRecord t LogRing.LevelError msg ∅.
Definition demo_logs (rs : list logRecord) : option logRing := Some (fold_left (λ r x, ring_append x r) rs (newLogRing 4)).
Definition table_of (rs : list logRecord) : list string :=
  map LL_Message (LT_Lines (collectLogsTable (λ m, map_to_list m) demo_usage_req (Some (demo_logs rs)))).
(** Lines from before midnight come above lines from after it, and lines of one
    second oldest first. *)
Example log_table_midnight : table_of [demo_line (DayNs - Second) "yesterday"; demo_line DayNs "today"] = ["yesterday"; "today"].
Proof. vm_compute. reflexivity. Qed.
Example log_table_second : table_of [demo_line 0 "first"; demo_line 500000000 "second"; demo_line Second "third"] = ["third"; "first"; "second"].
Proof. vm_compute. reflexivity. Qed.
