(* ===== verification/Ollama.v ===== *)
(** * Ollama.v: the client of the local Ollama server (internal/ollama)

    A call is a function of what the HTTP exchange yields: the request cannot be
    built or sent, or a status and a body arrive.  A streamed body is its scanned
    lines, each with the state of the context when the line is looked at, and the
    scanner's error at the end.  The JSON codec is a parameter. *)

From S2P Require Import Prelude Errors GoStrings GoConv Types Http.
Open Scope Z_scope.

Definition CodeModelNotFound : string := "model_not_found".
Definition CodeUnreachable : string := "ollama_unreachable".
Definition CodeOllamaError : string := "ollama_error".
Definition CodeTimeout : string := "timeout".
Definition CodeInvalidRequest : string := "invalid_request".
Definition DefaultBaseURL : string := "http://localhost:11434".

(** [strings.TrimRight] with a one-character cutset. *)
Fixpoint TrimRight (s : string) (c : Ascii.ascii) : string :=
  match s with
  | EmptyString => EmptyString
  | String a s' =>
      match TrimRight s' c with
      | EmptyString => if Ascii.eqb a c then EmptyString else String a EmptyString
      | t => String a t
      end
  end.

(** [New]: the resolved base URL. *)
Definition New (baseURL : string) : string :=
  TrimRight (if String.eqb baseURL "" then DefaultBaseURL else baseURL) (Ascii.ascii_of_nat 47).

(** ** Errors *)

Fixpoint has_prefix (l p : bytes) : bool :=
  match p, l with
  | [], _ => true
  | x :: p, y :: l => (x =? y) && has_prefix l p
  | _, [] => false
  end.
Fixpoint Contains (l p : bytes) : bool :=
  has_prefix l p || match l with [] => false | _ :: l => Contains l p end.

Definition isModelNotFound (msg : string) : bool :=
  let m := ToLower_bytes (bytes_of_string msg) in
  Contains m (bytes_of_string "not found") || Contains m (bytes_of_string "no such") ||
  Contains m (bytes_of_string "try pulling").

Definition transportError (err : error) (op : string) : JobError :=
  if errors_Is err CtxDone then mkJobError CodeTimeout (op +:+ ": " +:+ error_string err)
  else mkJobError CodeUnreachable (op +:+ ": " +:+ error_string err).

Definition errorFromMessage (msg : string) : JobError :=
  if isModelNotFound msg then mkJobError CodeModelNotFound msg else mkJobError CodeOllamaError msg.

Definition errMessage (op msg : string) (status : Z) : string :=
  if negb (String.eqb msg "") then "ollama " +:+ op +:+ ": " +:+ msg
  else "ollama " +:+ op +:+ ": status " +:+ Itoa status.

(** ** Wire types *)

Record chatToolCall := mkChatToolCall { ctc_Name : string; ctc_Arguments : string }.
Record chatMessage := mkChatMessage {
  cm_Role : string; cm_Content : string; cm_ToolCalls : list chatToolCall; cm_ToolName : string }.
(** [ct_Parameters] is [None] for an omitted schema. *)
Record chatTool := mkChatTool {
  ct_Type : string; ct_Name : string; ct_Description : string; ct_Parameters : option string }.
Record chatRequest := mkChatRequest {
  cr_Model : string; cr_Messages : list chatMessage; cr_Tools : list chatTool; cr_Stream : bool;
  cr_KeepAlive : option Z }.
Record chatResponse := mkChatResponse {
  co_Message : chatMessage; co_Done : bool; co_DoneReason : string; co_EvalCount : Z;
  co_PromptEvalCount : Z; co_Error : string }.
Record ChatResult := mkChatResult {
  Chat_PromptTokens : Z; Chat_CompletionTokens : Z; Chat_Tokens : Z; Chat_ToolCalls : list ToolCall;
  Chat_DoneReason : string }.

Definition rawOrNil (s : string) : option string := if String.eqb s "" then None else Some s.
Definition rawOrNull (s : string) : string := if String.eqb s "" then "{}" else s.

Definition toOllamaMessages (ms : list Message) : list chatMessage :=
  map (λ m, mkChatMessage (Message_Role m) (Message_Content m)
              (map (λ tc, mkChatToolCall (ToolCall_FunctionName tc) (rawOrNull (ToolCall_Arguments tc)))
                 (Message_ToolCalls m))
              (Message_Name m)) ms.

Definition toOllamaTools (ts : list Tool) : list chatTool :=
  map (λ t, mkChatTool (if String.eqb (Tool_Type t) "" then "function" else Tool_Type t)
              (ToolFunction_Name (Tool_Function t)) (ToolFunction_Description (Tool_Function t))
              (rawOrNil (ToolFunction_Parameters (Tool_Function t)))) ts.

Definition fromOllamaToolCalls (calls : list chatToolCall) : list ToolCall :=
  map (λ c, mkToolCall "" "function" (ctc_Name c)
              (if String.eqb (ctc_Arguments c) "" then "{}" else ctc_Arguments c)) calls.

(** ** Calls *)

Record body := mkBody { b_raw : string; b_lines : list (option error * string); b_err : option error }.
Inductive exchange :=
| XBuild (e : error)                    (* http.NewRequestWithContext fails *)
| XDo (e : error)                       (* the request cannot be sent *)
| XResp (status : Z) (b : body).

Section client.
Context (Marshal : chatRequest → result string) (unmarshal_chat : string → result chatResponse)
  (unmarshal_error : string → result string) (unmarshal_tags : string → result (list Model))
  (unmarshal_version : string → result string).

Definition readErrorBody (raw : string) : string :=
  let trimmed := TrimSpace (String.substring 0 (Z.to_nat 8192) raw) in
  if String.eqb trimmed "" then ""
  else match unmarshal_error trimmed with
       | Ok msg => if String.eqb msg "" then trimmed else msg
       | Err _ => trimmed
       end.

Definition statusError (status : Z) (raw : string) (op : string) : JobError :=
  let msg := readErrorBody raw in
  if status =? 404 then mkJobError CodeModelNotFound (errMessage op msg status)
  else if status =? 400 then mkJobError CodeInvalidRequest (errMessage op msg status)
  else if isModelNotFound msg then mkJobError CodeModelNotFound (errMessage op msg status)
  else mkJobError CodeOllamaError (errMessage op msg status).

(** The common front of every call: the body of a 200 answer, or the error. *)
Definition fetch (op : string) (x : exchange) : body + JobError :=
  match x with
  | XBuild e => inr (transportError e ("build " +:+ op +:+ " request"))
  | XDo e => inr (transportError e "contact ollama")
  | XResp status b => if status =? 200 then inl b else inr (statusError status (b_raw b) op)
  end.

Definition Version (x : exchange) : string + JobError :=
  match fetch "version" x with
  | inr e => inr e
  | inl b => match unmarshal_version (b_raw b) with
             | Ok v => inl v
             | Err e => inr (mkJobError CodeOllamaError ("decode version response: " +:+ error_string e))
             end
  end.

Definition ListModels (x : exchange) : list Model + JobError :=
  match fetch "tags" x with
  | inr e => inr e
  | inl b => match unmarshal_tags (b_raw b) with
             | Ok ms => inl (filter (λ m, Model_Name m ≠ "") ms)
             | Err e => inr (mkJobError CodeOllamaError ("decode tags response: " +:+ error_string e))
             end
  end.

(** The progress loop of [Pull]: the first reported error ends it. *)
Fixpoint pull_loop (lines : list (option error * string)) : option JobError :=
  match lines with
  | [] => None
  | (_, raw) :: lines =>
      let line := TrimSpace raw in
      if String.eqb line "" then pull_loop lines
      else match unmarshal_error line with
           | Err _ => pull_loop lines
           | Ok msg => if String.eqb msg "" then pull_loop lines else Some (errorFromMessage msg)
           end
  end.

Definition Pull (x : exchange) : option JobError :=
  match fetch "pull" x with
  | inr e => Some e
  | inl b => match pull_loop (b_lines b) with
             | Some e => Some e
             | None => match b_err b with Some e => Some (transportError e "read pull stream") | None => None end
             end
  end.

Definition Unload (x : exchange) : option JobError :=
  match x with
  | XResp status b =>
      if status =? 200 then None
      else let je := statusError status (b_raw b) "unload" in
           if String.eqb (JobError_Code je) CodeModelNotFound then None else Some je
  | _ => match fetch "unload" x with inr e => Some e | inl _ => None end
  end.

(** The line loop of [ChatStream]: what it passes to the callback, and its return. *)
Fixpoint chat_loop (lines : list (option error * string)) (scanErr : option error) (result : ChatResult)
    : list (string * list ToolCall) * ChatResult * option JobError :=
  match lines with
  | [] =>
      ([], result,
       Some (match scanErr with
             | Some e => transportError e "read chat stream"
             | None => mkJobError CodeOllamaError "chat stream ended without completion"
             end))
  | (Some e, _) :: _ => ([], result, Some (transportError e "chat cancelled"))
  | (None, raw) :: lines =>
      let line := TrimSpace raw in
      if String.eqb line "" then chat_loop lines scanErr result
      else
        match unmarshal_chat line with
        | Err e => ([], result, Some (mkJobError CodeOllamaError ("decode chat chunk: " +:+ error_string e)))
        | Ok co =>
            if negb (String.eqb (co_Error co) "") then ([], result, Some (errorFromMessage (co_Error co)))
            else
              let calls := fromOllamaToolCalls (cm_ToolCalls (co_Message co)) in
              let result := mkChatResult (Chat_PromptTokens result) (Chat_CompletionTokens result)
                (Chat_Tokens result) (Chat_ToolCalls result ++ calls) (Chat_DoneReason result) in
              let content := cm_Content (co_Message co) in
              let emitted := if negb (String.eqb content "") || (0 <? length calls)%nat
                             then [(content, calls)] else [] in
              if co_Done co then
                (emitted,
                 mkChatResult (co_PromptEvalCount co) (co_EvalCount co) (u64 (co_EvalCount co + co_PromptEvalCount co))
                   (Chat_ToolCalls result) (co_DoneReason co), None)
              else
                let '(emits, res, err) := chat_loop lines scanErr result in (emitted ++ emits, res, err)
        end
  end.

Definition ChatResult_zero : ChatResult := mkChatResult 0 0 0 [] "".

Definition chatRequest_of (model : string) (messages : list Message) (tools : list Tool) (keep : option Z)
    : chatRequest :=
  mkChatRequest model (toOllamaMessages messages) (toOllamaTools tools) true keep.

(** [reply] is what the server does with the request body. *)
Definition ChatStream (model : string) (messages : list Message) (tools : list Tool) (keep : option Z)
    (reply : string → exchange) : list (string * list ToolCall) * ChatResult * option JobError :=
  match Marshal (chatRequest_of model messages tools keep) with
  | Err e => ([], ChatResult_zero,
              Some (mkJobError CodeInvalidRequest ("marshal chat request: " +:+ error_string e)))
  | Ok req =>
      match fetch "chat" (reply req) with
      | inr e => ([], ChatResult_zero, Some e)
      | inl b => chat_loop (b_lines b) (b_err b) ChatResult_zero
      end
  end.

(** ** A stream that completes *)

(** The objects of a stream up to and including its terminal one; what follows it
    is not read. *)
Inductive completes : list (option error * string) → list chatResponse → Prop :=
| completes_blank raw lines objs :
    TrimSpace raw = "" → completes lines objs → completes ((None, raw) :: lines) objs
| completes_more raw lines co objs :
    TrimSpace raw ≠ "" → unmarshal_chat (TrimSpace raw) = Ok co → co_Error co = "" → co_Done co = false →
    completes lines objs → completes ((None, raw) :: lines) (co :: objs)
| completes_done raw lines co :
    TrimSpace raw ≠ "" → unmarshal_chat (TrimSpace raw) = Ok co → co_Error co = "" → co_Done co = true →
    completes ((None, raw) :: lines) [co].

Definition text (objs : list chatResponse) : string := foldr (λ co s, cm_Content (co_Message co) +:+ s) "" objs.
Definition calls (objs : list chatResponse) : list ToolCall :=
  concat (map (λ co, fromOllamaToolCalls (cm_ToolCalls (co_Message co))) objs).
Definition emitted_text (emits : list (string * list ToolCall)) : string := foldr (λ d s, d.1 +:+ s) "" emits.

Lemma chat_loop_completes lines objs : completes lines objs → ∀ scanErr r,
  ∃ emits co, chat_loop lines scanErr r =
      (emits, mkChatResult (co_PromptEvalCount co) (co_EvalCount co) (u64 (co_EvalCount co + co_PromptEvalCount co))
                (Chat_ToolCalls r ++ calls objs) (co_DoneReason co), None) ∧
    last objs = Some co ∧ emitted_text emits = text objs ∧ concat (map snd emits) = calls objs.
Proof.
  induction 1 as [raw lines objs Hb H IH|raw lines co objs Hb Hd He Hn H IH|raw lines co Hb Hd He Hn];
    intros scanErr r; cbn [chat_loop].
  - rewrite Hb. apply IH.
  - rewrite (proj2 (String.eqb_neq _ _) Hb), Hd, He, Hn. cbn [negb String.eqb].
    match goal with |- context [chat_loop lines scanErr ?r'] => destruct (IH scanErr r') as (emits & c & -> & Hl & Ht & Hc) end.
    eexists _, c. split; [cbn [Chat_ToolCalls calls map concat]; by rewrite <- app_assoc|]. split.
    { destruct objs; [done|]. exact Hl. }
    change (text (co :: objs)) with (cm_Content (co_Message co) +:+ text objs).
    change (calls (co :: objs)) with (fromOllamaToolCalls (cm_ToolCalls (co_Message co)) ++ calls objs).
    rewrite <- Ht, <- Hc.
    destruct (String.eqb_spec (cm_Content (co_Message co)) "") as [E|E]; cbn [negb orb]; [|done].
    rewrite E. by destruct (fromOllamaToolCalls _).
  - rewrite (proj2 (String.eqb_neq _ _) Hb), Hd, He, Hn. cbn [negb String.eqb].
    eexists _, co. split; [cbn [calls map concat Chat_ToolCalls]; by rewrite app_nil_r|]. split; [done|].
    destruct (String.eqb_spec (cm_Content (co_Message co)) "") as [E|E]; cbn; [|by rewrite app_nil_r].
    rewrite E. by destruct (cm_ToolCalls (co_Message co)).
Qed.

Lemma chat_loop_ok lines : ∀ scanErr r emits res,
  chat_loop lines scanErr r = (emits, res, None) → ∃ objs, completes lines objs.
Proof.
  induction lines as [|[[e|] raw] lines IH]; intros scanErr r emits res H; cbn [chat_loop] in H; [done..|].
  destruct (String.eqb_spec (TrimSpace raw) "") as [E|E].
  { destruct (IH _ _ _ _ H) as [objs Ho]. exists objs. by constructor. }
  destruct (unmarshal_chat (TrimSpace raw)) as [co|e] eqn:Ed; [|done].
  destruct (String.eqb_spec (co_Error co) "") as [Ee|Ee]; cbn [negb] in H; [|done].
  destruct (co_Done co) eqn:En; [exists [co]; by apply completes_done|].
  match type of H with context [chat_loop lines scanErr ?r'] =>
    destruct (chat_loop lines scanErr r') as [[em rs] [je|]] eqn:El; [done|] end.
  destruct (IH _ _ _ _ El) as [objs Ho]. exists (co :: objs). by eapply completes_more.
Qed.

(** The result accumulates exactly the tool calls already handed to the callback. *)
Lemma chat_loop_calls lines : ∀ scanErr r emits res err,
  chat_loop lines scanErr r = (emits, res, err) → Chat_ToolCalls res = Chat_ToolCalls r ++ concat (map snd emits).
Proof.
  induction lines as [|[[e|] raw] lines IH]; intros scanErr r emits res err H; cbn [chat_loop] in H;
    [simplify_eq; by rewrite app_nil_r..|].
  destruct (String.eqb (TrimSpace raw) ""); [by eapply IH|].
  destruct (unmarshal_chat (TrimSpace raw)) as [co|e]; [|simplify_eq; by rewrite app_nil_r].
  destruct (negb (String.eqb (co_Error co) "")); [simplify_eq; by rewrite app_nil_r|].
  set (cs := fromOllamaToolCalls (cm_ToolCalls (co_Message co))) in *.
  assert (Hc : concat (map snd (if negb (String.eqb (cm_Content (co_Message co)) "") || (0 <? length cs)%nat
            then [(cm_Content (co_Message co), cs)] else [])) = cs).
  { destruct cs; [by destruct (String.eqb (cm_Content _) "")|]. rewrite orb_true_r. simpl. by rewrite app_nil_r. }
  destruct (co_Done co); [simplify_eq; cbn [Chat_ToolCalls]; by rewrite Hc|].
  match type of H with context [chat_loop lines scanErr ?r'] =>
    destruct (chat_loop lines scanErr r') as [[em rs] je] eqn:El end.
  simplify_eq. rewrite (IH _ _ _ _ _ El), map_app, concat_app, Hc. cbn [Chat_ToolCalls]. by rewrite app_assoc.
Qed.

(** A chat call succeeds exactly when the answer is a 200 whose lines, blank ones
    aside, decode to objects without error ending in a terminal one; then the text
    handed to the callback is those objects' contents in order, the counts and the
    reason are the terminal object's, and lines after it are not read.  On success
    and failure alike the result carries the tool calls handed to the callback. *)
Theorem chat_stream_exact model messages tools keep reply req b :
  Marshal (chatRequest_of model messages tools keep) = Ok req → reply req = XResp 200 b →
  let '(emits, res, err) := ChatStream model messages tools keep reply in
  (err = None ↔ ∃ objs, completes (b_lines b) objs) ∧
  Chat_ToolCalls res = concat (map snd emits) ∧
  ∀ objs, completes (b_lines b) objs →
    emitted_text emits = text objs ∧ Chat_ToolCalls res = calls objs ∧
    ∃ co, last objs = Some co ∧ Chat_PromptTokens res = co_PromptEvalCount co ∧
      Chat_CompletionTokens res = co_EvalCount co ∧
      Chat_Tokens res = u64 (co_EvalCount co + co_PromptEvalCount co) ∧ Chat_DoneReason res = co_DoneReason co.
Proof.
  intros Hm Hr. replace (ChatStream model messages tools keep reply)
    with (chat_loop (b_lines b) (b_err b) ChatResult_zero) by (unfold ChatStream; by rewrite Hm, Hr).
  destruct (chat_loop (b_lines b) (b_err b) ChatResult_zero) as [[emits res] err] eqn:E. split; [|split].
  - split; [intros ->; by eapply chat_loop_ok|]. intros [objs H].
    destruct (chat_loop_completes _ _ H (b_err b) ChatResult_zero) as (? & ? & E' & _).
    rewrite E in E'. by simplify_eq.
  - apply (chat_loop_calls _ _ _ _ _ _ E).
  - intros objs H. destruct (chat_loop_completes _ _ H (b_err b) ChatResult_zero) as (em & co & E' & Hl & Ht & Hc).
    rewrite E in E'. simplify_eq. split; [done|]. split; [done|]. by exists co.
Qed.

(** ** Error codes *)

Definition stable (e : JobError) : Prop :=
  JobError_Code e ∈ [CodeModelNotFound; CodeUnreachable; CodeOllamaError; CodeTimeout; CodeInvalidRequest].

Lemma stable_code c m :
  c ∈ [CodeModelNotFound; CodeUnreachable; CodeOllamaError; CodeTimeout; CodeInvalidRequest] → stable (mkJobError c m).
Proof. done. Qed.

Ltac coded := apply stable_code; set_solver.

Lemma transportError_stable e op : stable (transportError e op).
Proof. unfold transportError. case_match; coded. Qed.
Lemma errorFromMessage_stable msg : stable (errorFromMessage msg).
Proof. unfold errorFromMessage. case_match; coded. Qed.
Lemma statusError_stable status raw op : stable (statusError status raw op).
Proof. unfold statusError. repeat case_match; coded. Qed.
#[local] Hint Resolve transportError_stable errorFromMessage_stable statusError_stable : agpu.

Lemma fetch_stable op x e : fetch op x = inr e → stable e.
Proof. unfold fetch. repeat case_match; intros; simplify_eq; auto with agpu. Qed.

Lemma pull_loop_stable lines e : pull_loop lines = Some e → stable e.
Proof.
  induction lines as [|[c raw] lines IH]; cbn [pull_loop]; [done|]. repeat case_match; intros; simplify_eq; auto with agpu.
Qed.

Lemma chat_loop_stable lines : ∀ scanErr r emits res e, chat_loop lines scanErr r = (emits, res, Some e) → stable e.
Proof.
  induction lines as [|[[c|] raw] lines IH]; intros scanErr r emits res e H; cbn [chat_loop] in H.
  - simplify_eq. case_match; [auto with agpu|coded].
  - simplify_eq. auto with agpu.
  - repeat case_match; simplify_eq; eauto with agpu. coded.
Qed.

(** Every failure of the Ollama client, whatever the server or the network does,
    carries one of the five documented codes; a 404 is a missing model for every
    call except [Unload], for which there is then nothing to do; and a cancelled or
    expired context is reported as a timeout. *)
Theorem client_error_codes model messages tools keep reply x e :
  Version x = inr e ∨ ListModels x = inr e ∨ Pull x = Some e ∨ Unload x = Some e ∨
  (ChatStream model messages tools keep reply).2 = Some e →
  stable e ∧
  (∀ b, x = XResp 404 b → Unload x ≠ Some e ∧ (Pull x = Some e → JobError_Code e = CodeModelNotFound)) ∧
  (∀ c, x = XDo c → errors_Is c CtxDone = true → Pull x = Some e ∨ Unload x = Some e → JobError_Code e = CodeTimeout).
Proof.
  intros H. split; [|split].
  - destruct H as [H|[H|[H|[H|H]]]].
    + unfold Version in H. destruct (fetch _ x) as [b|] eqn:E; [|by simplify_eq; eapply fetch_stable].
      case_match; simplify_eq. coded.
    + unfold ListModels in H. destruct (fetch _ x) as [b|] eqn:E; [|by simplify_eq; eapply fetch_stable].
      case_match; simplify_eq. coded.
    + unfold Pull in H. destruct (fetch _ x) as [b|] eqn:E; [|by simplify_eq; eapply fetch_stable].
      destruct (pull_loop _) eqn:Ep; [simplify_eq; by eapply pull_loop_stable|]. case_match; simplify_eq. auto with agpu.
    + unfold Unload in H. destruct x as [c|c|status b]; [simplify_eq/=; auto with agpu..|].
      repeat case_match; simplify_eq. auto with agpu.
    + unfold ChatStream in H. destruct (Marshal _); [|simplify_eq/=; coded].
      destruct (fetch _ _) as [b|] eqn:E; [|by simplify_eq/=; eapply fetch_stable].
      destruct (chat_loop _ _ _) as [[em rs] er] eqn:El. simplify_eq/=. by eapply chat_loop_stable.
  - intros b ->. split; [by cbn|]. cbn. by intros [= <-].
  - intros c -> Hc. unfold Pull, Unload. cbn. unfold transportError. rewrite Hc. intros [H'|H']; by simplify_eq/=.
Qed.
End client.

(** A codec for the examples: the line is the content, and a line "." is terminal. *)
Definition ex_unmarshal (line : string) : result chatResponse :=
  if String.eqb line "." then Ok (mkChatResponse (mkChatMessage "assistant" "" [] "") true "stop" 2 5 "")
  else if String.eqb line "call" then
    Ok (mkChatResponse (mkChatMessage "assistant" "" [mkChatToolCall "f" "{}"] "") false "" 0 0 "")
  else if String.eqb line "?" then Err (ENew "invalid character")
  else Ok (mkChatResponse (mkChatMessage "assistant" line [] "") false "" 0 0 "").
Definition ex_marshal (r : chatRequest) : result string := Ok (cr_Model r).
Definition ex_body (lines : list string) : body := mkBody "" (map (λ l, (None, l)) lines) None.

Lemma chat_stream_exact_witness :
  let lines := ["he"; " "; "llo"; "."; "?"] in
  let '(emits, res, err) := ChatStream ex_marshal ex_unmarshal (λ _, Err ErrNotFound) "m" [] [] None
    (λ _, XResp 200 (ex_body lines)) in
  emitted_text emits = "hello" ∧ Chat_Tokens res = 7 ∧ err = None.
Proof.
  cbv zeta. set (lines := ["he"; " "; "llo"; "."; "?"]).
  pose proof (chat_stream_exact ex_marshal ex_unmarshal (λ _, Err ErrNotFound) "m" [] [] None
    (λ _, XResp 200 (ex_body lines)) "m" (ex_body lines) eq_refl eq_refl) as H.
  destruct (ChatStream _ _ _ _ _ _ _ _) as [[emits res] err]. destruct H as (He & _ & H).
  assert (C : completes ex_unmarshal (b_lines (ex_body lines))
    [mkChatResponse (mkChatMessage "assistant" "he" [] "") false "" 0 0 "";
     mkChatResponse (mkChatMessage "assistant" "llo" [] "") false "" 0 0 "";
     mkChatResponse (mkChatMessage "assistant" "" [] "") true "stop" 2 5 ""]).
  { apply completes_more; [done..|]. apply completes_blank; [done|]. apply completes_more; [done..|].
    by apply completes_done. }
  destruct (H _ C) as (-> & _ & co & [= <-] & _ & _ & -> & _). split; [done|]. split; [done|]. apply He. by eexists.
Defined.

Lemma client_error_codes_witness :
  ∃ e, Pull (λ _, Err ErrNotFound) (XResp 404 (ex_body [])) = Some e ∧ stable e ∧ JobError_Code e = CodeModelNotFound.
Proof.
  eexists. split; [reflexivity|].
  destruct (client_error_codes ex_marshal ex_unmarshal (λ _, Err ErrNotFound) (λ _, Err ErrNotFound)
    (λ _, Err ErrNotFound) "m" [] [] None (λ _, XDo CtxDone) (XResp 404 (ex_body []))
    (mkJobError CodeModelNotFound "ollama pull: status 404")) as (Hs & H4 & _).
  { right; right; left. reflexivity. }
  split; [exact Hs|]. apply (H4 _ eq_refl). reflexivity.
Defined.
