(* ===== verification/WorkerNode.v ===== *)
(** * WorkerNode.v: the worker process (internal/worker, internal/gpu)

    One connection of a worker is a step machine over its channels and goroutines:
    the receive loop, the job worker, the pull and unload workers and the send loop,
    which alone writes to the stream.  A step is one channel operation or one stream
    call; any interleaving of them is a run.  What the backend and the vendor tools
    answer is part of the event.  The executor's [Execute] is the parameter [exec]:
    the chunks it emits for a job, in order, and its result.

    worker.go, executor.go, and the aggregation of gpu.go. *)

From S2P Require Import Prelude Errors GoTime GoFloat GoStrings GoConv Types ServerWorker Server ChatApi Ollama.
Open Scope Z_scope.

(** ** GPU capacity (gpu.go) *)

Record Capacity := mkCapacity { Cap_Type : string; Cap_TotalVRAM : Z; Cap_FreeVRAM : Z; Cap_Load : Z }.
Record Device := mkDevice { Device_Name : string; Device_TotalVRAM : Z; Device_FreeVRAM : Z; Device_Load : Z }.

Definition CPUType : string := "cpu".
Definition cpuFallback : Capacity := mkCapacity CPUType 0 0 0.

(** The counts and the first-seen order of the loop of [combineNames]. *)
Definition count_name (acc : gmap string Z * list string) (dev : Device) : gmap string Z * list string :=
  let '(counts, order) := acc in
  let name := Http.TrimSpace (Device_Name dev) in
  let name := if String.eqb name "" then "GPU" else name in
  let order := match counts !! name with Some _ => order | None => order ++ [name] end in
  (<[name := default 0 (counts !! name) + 1]> counts, order).

Definition counted (n : Z) (name : string) : string := Itoa n +:+ "x " +:+ name.

Definition combineNames (devices : list Device) : string :=
  match devices with
  | [] => CPUType
  | _ =>
      let '(counts, order) := fold_left count_name devices (∅, []) in
      match order with
      | [name] =>
          let n := default 0 (counts !! name) in
          if n =? 1 then name else counted n name
      | _ => Join (map (λ name, counted (default 0 (counts !! name)) name) (sort_Strings order)) " + "
      end
  end.

Definition aggregate (devices : list Device) : Capacity :=
  match devices with
  | [] => cpuFallback
  | _ =>
      let '(total, free, loadSum) :=
        fold_left (λ acc dev, let '(t, f, l) := acc in
                     (u64 (t + Device_TotalVRAM dev), u64 (f + Device_FreeVRAM dev), u64 (l + Device_Load dev)))
          devices (0, 0, 0) in
      let n := Z.of_nat (length devices) in
      let mean := Z.quot (u64 (loadSum + Z.quot n 2)) n in
      let mean := if 100 <? mean then 100 else mean in
      mkCapacity (combineNames devices) total free (u32 mean)
  end.

(** [Detect] over the outcomes of the applicable probes, in order. *)
Fixpoint Detect (probes : list (result (list Device))) : Capacity :=
  match probes with
  | [] => cpuFallback
  | Err _ :: probes => Detect probes
  | Ok [] :: probes => Detect probes
  | Ok devices :: _ => aggregate devices
  end.

(** ** Executors (executor.go) *)

Definition EchoExecute (job : Job) : list JobChunk * JobResult :=
  let output := "echo: " +:+ Job_Prompt job in
  let tokens := Fields_count output in
  ([mkJobChunk (Job_ID job) output false None 0 [] "" 0 0],
   mkJobResult (Job_ID job) output None tokens [] "stop" 0 tokens).

Definition keepAlive (seconds : Z) : option Z := if seconds =? 0 then None else Some seconds.

Definition finishReason (res : ChatResult) : string :=
  if (0 <? length (Chat_ToolCalls res))%nat then "tool_calls"
  else if String.eqb (Chat_DoneReason res) "length" then "length"
  else if String.eqb (Chat_DoneReason res) "" || String.eqb (Chat_DoneReason res) "stop" then "stop"
  else Chat_DoneReason res.

Definition chat_messages (job : Job) : list Message :=
  match Job_Messages job with [] => [mkMessage "user" (Job_Prompt job) "" "" []] | ms => ms end.

(** [OllamaExecutor.Execute] over the client's [ChatStream]; [reply] is what the
    Ollama server does with the job's request. *)
Section ollama.
Context (Marshal : chatRequest → result string) (unmarshal_chat : string → result chatResponse)
  (unmarshal_error : string → result string).

Definition OllamaExecute (reply : Job → string → exchange) (job : Job) : list JobChunk * JobResult :=
  let '(deltas, res, err) :=
    ChatStream Marshal unmarshal_chat unmarshal_error (Job_Model job) (chat_messages job) (Job_Tools job)
      (keepAlive (Job_KeepAliveSeconds job)) (reply job) in
  let sb := emitted_text deltas in
  let emitted := filter (λ d, (negb (String.eqb d.1 "") || (0 <? length d.2)%nat) = true) deltas in
  (map (λ d, mkJobChunk (Job_ID job) d.1 false None 0 d.2 "" 0 0) emitted,
   match err with
   | Some e => mkJobResult (Job_ID job) sb (Some e) (Chat_Tokens res) [] "" 0 0
   | None => mkJobResult (Job_ID job) sb None (Chat_Tokens res) (Chat_ToolCalls res) (finishReason res)
               (Chat_PromptTokens res) (Chat_CompletionTokens res)
   end).
End ollama.

(** ** Reconnect backoff *)

Record Backoff := mkBackoff { B_Base : Duration; B_Max : Duration; B_Factor : float }.
Definition DefaultBackoff : Backoff := mkBackoff (500 * Millisecond) (30 * Second) (float64 2).

(** [pow] is [math.Pow], [None] for an infinite result; [jitter] the generator's
    [Float64], absent without a generator. *)
Definition Delay (pow : float → Z → option float) (b : Backoff) (attempt : Z) (jitter : option float) : Duration :=
  let base := if B_Base b <=? 0 then 500 * Millisecond else B_Base b in
  let factor := if flt (B_Factor b) (float64 1) then float64 2 else B_Factor b in
  let max := if B_Max b <=? 0 then 30 * Second else B_Max b in
  let d := match pow factor attempt with
           | None => float64 max
           | Some p => let d := fmul (float64 base) p in if flt (float64 max) d then float64 max else d
           end in
  let d := match jitter with Some j => fmul j d | None => d end in
  ftrunc d.

(** One round of [Run]'s loop: the attempt counter after a cycle that registered or
    not, and the delay it waits. *)
Definition run_cycle (pow : float → Z → option float) (b : Backoff) (registered : bool) (jitter : option float)
    (attempt : Z) : Z * Duration :=
  let attempt := if registered then 0 else attempt in
  (attempt + 1, Delay pow b attempt jitter).

(** ** One connection *)

Record node := mkNode { n_id : string; n_models : option (list Model); n_capacity : Capacity }.

(** The receive loop: waiting for a message, or holding one for a full channel. *)
Inductive recvState := RWait | RHold (m : serverMsg) | RStopped.
(** The job worker: idle, or running a job with these chunks still to emit. *)
Inductive execState := EIdle | ERun (job : Job) (todo : list JobChunk) | EStopped.
Inductive ending := EndShutdown | EndRecv (e : error) | EndSend (e : error).

Record link := mkLink {
  k_node : node;
  k_jobs : list Job;                    (* capacity 8 *)
  k_pulls : list string;                (* capacity 8 *)
  k_unloads : list string;              (* capacity 8 *)
  k_chunks : list JobChunk;             (* capacity 64 *)
  k_active : Z;
  k_recv : recvState;
  k_exec : execState;
  k_recvErr : option error;
  k_sent : list workerMsg;              (* the stream, oldest first *)
  k_end : option ending }.              (* serve has returned *)

Definition chunksCap : nat := 64.
Definition jobsCap : nat := 8.

Definition serve_start (n : node) (sent : list workerMsg) : link :=
  mkLink n [] [] [] [] 0 RWait EIdle None sent None.

Definition set_recv (r : recvState) (k : link) : link :=
  mkLink (k_node k) (k_jobs k) (k_pulls k) (k_unloads k) (k_chunks k) (k_active k) r (k_exec k) (k_recvErr k)
    (k_sent k) (k_end k).
Definition set_inbox (jobs : list Job) (pulls unloads : list string) (k : link) : link :=
  mkLink (k_node k) jobs pulls unloads (k_chunks k) (k_active k) (k_recv k) (k_exec k) (k_recvErr k)
    (k_sent k) (k_end k).
Definition set_exec (e : execState) (chunks : list JobChunk) (active : Z) (k : link) : link :=
  mkLink (k_node k) (k_jobs k) (k_pulls k) (k_unloads k) chunks active (k_recv k) e (k_recvErr k)
    (k_sent k) (k_end k).
Definition set_node (n : node) (k : link) : link :=
  mkLink n (k_jobs k) (k_pulls k) (k_unloads k) (k_chunks k) (k_active k) (k_recv k) (k_exec k) (k_recvErr k)
    (k_sent k) (k_end k).
Definition send (m : workerMsg) (k : link) : link :=
  mkLink (k_node k) (k_jobs k) (k_pulls k) (k_unloads k) (k_chunks k) (k_active k) (k_recv k) (k_exec k)
    (k_recvErr k) (k_sent k ++ [m]) (k_end k).
(** [serve] returns and the deferred cancel stops the goroutines that watch the
    connection's context; the receive loop does not. *)
Definition finish (e : ending) (k : link) : link :=
  mkLink (k_node k) (k_jobs k) (k_pulls k) (k_unloads k) (k_chunks k) (k_active k) (k_recv k) EStopped
    (k_recvErr k) (k_sent k) (Some e).

Definition refreshModels (listed : result (option (list Model))) (n : node) : node :=
  match listed with
  | Err _ => n
  | Ok models => mkNode (n_id n) models (n_capacity n)
  end.

(** [detected] is [None] without a detector. *)
Definition detectCapacity (detected : option Capacity) (full : bool) (n : node) : node :=
  match detected with
  | None => n
  | Some cap =>
      if full then mkNode (n_id n) (n_models n) cap
      else mkNode (n_id n) (n_models n)
             (mkCapacity (Cap_Type (n_capacity n)) (Cap_TotalVRAM (n_capacity n)) (Cap_FreeVRAM cap) (Cap_Load cap))
  end.

(** A fresh copy: [append] of nothing to nil stays nil. *)
Definition currentModels (n : node) : option (list Model) :=
  match n_models n with Some [] => None | ms => ms end.

Definition heartbeat (activeJobs : Z) (n : node) : option PbHeartbeat :=
  Heartbeat_Proto (mkHeartbeat (n_id n) activeJobs (Cap_TotalVRAM (n_capacity n)) (Cap_FreeVRAM (n_capacity n))
    (Cap_Load (n_capacity n)) (Cap_Type (n_capacity n)) (currentModels n)).

(** [New]: the configured models and capacity seed the caches. *)
Definition New (id : string) (models : option (list Model)) (cap : Capacity) : node := mkNode id models cap.

(** The startup probes of [Run]; [version] is [None] for an executor without one. *)
Definition detectBackend (version : option (result string)) (listed : result (option (list Model))) (n : node) : node :=
  match version with
  | Some (Err _) => n
  | _ => refreshModels listed n
  end.

(** The handshake of [runOnce], as the outcomes of its calls: the registration
    message when the stream opened, and the assigned session. *)
Definition runOnce (dial connect sendErr : option error) (ack : result serverMsg) (n : node)
    : list workerMsg * result string :=
  match dial, connect with
  | Some e, _ => ([], Err e)
  | None, Some e => ([], Err e)
  | None, None =>
      let reg := WRegister (n_id n) (ModelsToProto (currentModels n)) in
      match sendErr with
      | Some e => ([], Err e)
      | None =>
          ([reg], match ack with
                  | Err e => Err e
                  | Ok (MsgRegisterAck session) => Ok session
                  | Ok _ => Err (ENew "worker: expected RegisterAck after Register")
                  end)
      end
  end.

Section serve.
Context (exec : Job → list JobChunk * JobResult).

Definition terminal (job : Job) (res : JobResult) : JobChunk :=
  mkJobChunk (Job_ID job) "" true (JobResult_Err res) (JobResult_Tokens res) (JobResult_ToolCalls res)
    (JobResult_FinishReason res) (JobResult_PromptTokens res) (JobResult_CompletionTokens res).

(** Everything the job worker emits for a job. *)
Definition job_stream (job : Job) : list JobChunk :=
  let '(emits, res) := exec job in emits ++ [terminal job res].

(** The receive loop puts a message where it belongs, when there is room. *)
Definition deliver (m : serverMsg) (k : link) : option link :=
  match m with
  | MsgJob p =>
      if (length (k_jobs k) <? jobsCap)%nat
      then Some (set_inbox (k_jobs k ++ [JobFromProto p]) (k_pulls k) (k_unloads k) k) else None
  | MsgPullModel model =>
      if (length (k_pulls k) <? jobsCap)%nat
      then Some (set_inbox (k_jobs k) (k_pulls k ++ [model]) (k_unloads k) k) else None
  | MsgUnloadModel model =>
      if (length (k_unloads k) <? jobsCap)%nat
      then Some (set_inbox (k_jobs k) (k_pulls k) (k_unloads k ++ [model]) k) else None
  | MsgRegisterAck _ => Some k
  end.

Inductive event :=
| NRecv (m : serverMsg)                  (* stream.Recv returns a message *)
| NRecvErr (e : error)                   (* stream.Recv fails *)
| NPush                                  (* the receive loop's blocked channel send *)
| NTake                                  (* the job worker dequeues a job *)
| NEmit                                  (* the job worker's next chunk enters the channel *)
| NPulled (pulled : option error) (listed : result (option (list Model)))
| NUnloaded (unloaded : option error)
| NSend (err : option error)             (* the send loop forwards a chunk *)
| NTick (listed : result (option (list Model))) (detected : option Capacity) (err : option error)
| NErr                                   (* the send loop takes the receive error *)
| NShutdown (err : option error).        (* the Run context is done; Deregister *)

(** [None]: the event cannot happen now. *)
Definition step (ev : event) (k : link) : option link :=
  match ev with
  | NRecv m =>
      match k_recv k with
      | RWait => Some (match deliver m k with Some k => k | None => set_recv (RHold m) k end)
      | _ => None
      end
  | NRecvErr e =>
      match k_recv k with
      | RWait =>
          Some (mkLink (k_node k) (k_jobs k) (k_pulls k) (k_unloads k) (k_chunks k) (k_active k) RStopped (k_exec k)
                  (Some e) (k_sent k) (k_end k))
      | _ => None
      end
  | NPush =>
      match k_recv k with
      | RHold m => match deliver m k with Some k => Some (set_recv RWait k) | None => None end
      | _ => None
      end
  | NTake =>
      match k_exec k, k_jobs k with
      | EIdle, job :: jobs =>
          Some (set_exec (ERun job (job_stream job)) (k_chunks k) (k_active k + 1)
                  (set_inbox jobs (k_pulls k) (k_unloads k) k))
      | _, _ => None
      end
  | NEmit =>
      match k_exec k with
      | ERun job (c :: todo) =>
          if (length (k_chunks k) <? chunksCap)%nat then
            match todo with
            | [] => Some (set_exec EIdle (k_chunks k ++ [c]) (k_active k - 1) k)
            | _ => Some (set_exec (ERun job todo) (k_chunks k ++ [c]) (k_active k) k)
            end
          else None
      | _ => None
      end
  | NPulled pulled listed =>
      match k_end k, k_pulls k with
      | None, _ :: pulls =>
          let k := set_inbox (k_jobs k) pulls (k_unloads k) k in
          Some (match pulled with Some _ => k | None => set_node (refreshModels listed (k_node k)) k end)
      | _, _ => None
      end
  | NUnloaded _ =>
      match k_end k, k_unloads k with
      | None, _ :: unloads => Some (set_inbox (k_jobs k) (k_pulls k) unloads k)
      | _, _ => None
      end
  | NSend err =>
      match k_end k, k_chunks k with
      | None, c :: chunks =>
          let k := set_exec (k_exec k) chunks (k_active k) k in
          Some (match err with Some e => finish (EndSend e) k | None => send (WChunk (JobChunk_Proto c)) k end)
      | _, _ => None
      end
  | NTick listed detected err =>
      match k_end k with
      | None =>
          let n := detectCapacity detected false (refreshModels listed (k_node k)) in
          let k := set_node n k in
          Some (match err with
                | Some e => finish (EndSend e) k
                | None => send (WHeartbeat (heartbeat (u32 (k_active k)) n)) k
                end)
      | Some _ => None
      end
  | NErr =>
      match k_end k, k_recvErr k with None, Some e => Some (finish (EndRecv e) k) | _, _ => None end
  | NShutdown err =>
      match k_end k with
      | None => Some (finish EndShutdown (match err with Some _ => k | None => send WDeregister k end))
      | Some _ => None
      end
  end.

Fixpoint run (evs : list event) (k : link) : option link :=
  match evs with
  | [] => Some k
  | ev :: evs => match step ev k with Some k => run evs k | None => None end
  end.

(** ** What is on its way *)

(** The chunks on the stream, as the server reads them. *)
Definition sent_chunks (ms : list workerMsg) : list JobChunk :=
  omap (λ m, match m with WChunk p => Some (JobChunkFromProto p) | _ => None end) ms.

(** The jobs the server has sent, in order. *)
Definition received (evs : list event) : list Job :=
  omap (λ ev, match ev with NRecv (MsgJob p) => Some (JobFromProto p) | _ => None end) evs.

Definition held (k : link) : list Job :=
  match k_recv k with RHold (MsgJob p) => [JobFromProto p] | _ => [] end.
Definition todo (k : link) : list JobChunk := match k_exec k with ERun _ cs => cs | _ => [] end.
Definition job_streams (js : list Job) : list JobChunk := concat (map job_stream js).

Definition outstanding (k : link) : list JobChunk :=
  k_chunks k ++ todo k ++ job_streams (k_jobs k ++ held k).

(** A live connection accounts for every chunk of every job; one that has ended has
    sent an initial part of them. *)
Record accounted (js : list Job) (k : link) : Prop := {
  a_live : k_end k = None → sent_chunks (k_sent k) ++ outstanding k = job_streams js;
  a_sent : ∃ rest, sent_chunks (k_sent k) ++ rest = job_streams js;
  a_busy : match k_exec k with ERun _ [] => False | EStopped => k_end k ≠ None | _ => True end;
  a_active : k_end k = None → k_active k = if k_exec k is ERun _ _ then 1 else 0 }.

Lemma job_streams_app l1 l2 : job_streams (l1 ++ l2) = job_streams l1 ++ job_streams l2.
Proof. unfold job_streams. by rewrite map_app, concat_app. Qed.

Lemma sent_chunks_app l1 l2 : sent_chunks (l1 ++ l2) = sent_chunks l1 ++ sent_chunks l2.
Proof. apply omap_app. Qed.

Lemma sent_chunks_snoc ms c : sent_chunks (ms ++ [WChunk (JobChunk_Proto c)]) = sent_chunks ms ++ [c].
Proof.
  rewrite sent_chunks_app. unfold sent_chunks at 2. cbn [omap list_omap]. by rewrite jobChunk_roundtrip.
Qed.

Lemma job_stream_cons job : ∃ c cs, job_stream job = c :: cs.
Proof. unfold job_stream. destruct (exec job) as [[|c cs] res]; simpl; eauto. Qed.

(** Delivering a message only moves its job from the receive loop to the channel. *)
Definition job_of (m : serverMsg) : list Job := match m with MsgJob p => [JobFromProto p] | _ => [] end.

Lemma deliver_effect m k k' :
  deliver m k = Some k' →
  k_jobs k' = k_jobs k ++ job_of m ∧ k_chunks k' = k_chunks k ∧ k_exec k' = k_exec k ∧ k_sent k' = k_sent k ∧
  k_end k' = k_end k ∧ k_active k' = k_active k ∧ k_recv k' = k_recv k.
Proof. destruct m; simpl; repeat case_match; intros; simplify_eq; simpl; rewrite ?app_nil_r; done. Qed.

Lemma accounted_moved js more k k' :
  accounted js k →
  job_streams (k_jobs k' ++ held k') = job_streams (k_jobs k ++ held k) ++ job_streams more →
  k_chunks k' = k_chunks k → k_exec k' = k_exec k → k_sent k' = k_sent k → k_end k' = k_end k →
  k_active k' = k_active k → accounted (js ++ more) k'.
Proof.
  intros [Hl [rest Hs] Hb Ha] Hj Hc He Hn Hd Hk.
  split; rewrite ?Hn, ?Hd, ?He, ?Hk; try done.
  - intros E. unfold outstanding, todo. rewrite Hc, He, Hj, (job_streams_app js more), <- (Hl E).
    unfold outstanding, todo. by rewrite <- !app_assoc.
  - exists (rest ++ job_streams more). by rewrite (job_streams_app js more), <- Hs, <- app_assoc.
Qed.

(** The receive loop. *)
Lemma accounted_recv js ev k k' :
  step ev k = Some k' → accounted js k → match ev with NRecv _ | NRecvErr _ | NPush => True | _ => False end → accounted (js ++ received [ev]) k'.
Proof.
  intros Hstep A Hev. destruct ev; try done; cbn [received omap list_omap].
  - cbn [step] in Hstep. destruct (k_recv k) eqn:Er; try done. destruct (deliver m k) as [k1|] eqn:Ed; simplify_eq.
    + destruct (deliver_effect _ _ _ Ed) as (Hj & Hc & He & Hs & Hd & Ha & Hr).
      eapply accounted_moved; [exact A|..]; try done. unfold held. rewrite Hr, Er, Hj, !app_nil_r.
      rewrite job_streams_app. f_equal. by destruct m.
    + eapply accounted_moved; [exact A|..]; try done. unfold held. rewrite Er. cbn [k_jobs k_recv set_recv].
      rewrite !job_streams_app. cbn [job_streams map concat]. rewrite app_nil_r. f_equal. by destruct m.
  - cbn [step] in Hstep. destruct (k_recv k) eqn:Er; simplify_eq.
    eapply accounted_moved; [exact A|..]; try done. unfold held. rewrite Er. simpl. by rewrite !app_nil_r.
  - cbn [step] in Hstep. destruct (k_recv k) as [|m|] eqn:Er; try done.
    destruct (deliver m k) as [k1|] eqn:Ed; simplify_eq.
    destruct (deliver_effect _ _ _ Ed) as (Hj & Hc & He & Hs & Hd & Ha & Hr).
    eapply accounted_moved; [exact A|..]; try done. unfold held. cbn [set_recv k_recv k_jobs]. rewrite Er, Hj.
    rewrite !app_nil_r. by destruct m.
Qed.

(** The job worker. *)
Lemma accounted_exec js ev k k' :
  step ev k = Some k' → accounted js k → match ev with NTake | NEmit => True | _ => False end → accounted (js ++ received [ev]) k'.
Proof.
  intros Hstep A Hev. destruct ev; try done; cbn [received omap list_omap].
  - cbn [step] in Hstep. destruct (k_exec k) eqn:Ee; try done. destruct (k_jobs k) as [|job jobs] eqn:Ej; simplify_eq.
    destruct A as [Hl Hs Hb Ha]. rewrite app_nil_r. split; cbn; try done.
    + intros E. rewrite <- (Hl E). unfold outstanding, todo, held. rewrite Ee, Ej. cbn. done.
    + by destruct (job_stream_cons job) as (c & cs & ->).
    + intros E. rewrite (Ha E), Ee. done.
  - cbn [step] in Hstep. destruct (k_exec k) as [|job [|c cs]|] eqn:Ee; try done.
    destruct (Nat.ltb_spec (length (k_chunks k)) chunksCap); [|done].
    destruct A as [Hl Hs Hb Ha]. rewrite app_nil_r.
    assert (Hlive : k_end k = None →
      sent_chunks (k_sent k) ++ (k_chunks k ++ [c]) ++ cs ++ job_streams (k_jobs k ++ held k) = job_streams js).
    { intros E. rewrite <- (Hl E). unfold outstanding, todo. rewrite Ee. by rewrite <- !app_assoc. }
    destruct cs as [|c2 cs]; simplify_eq; split; cbn; try done.
    + intros E. rewrite (Ha E), Ee. lia.
    + intros E. by rewrite (Ha E), Ee.
Qed.

(** The pull and unload workers and the send loop. *)
Lemma accounted_loop js ev k k' :
  step ev k = Some k' → accounted js k → match ev with NPulled _ _ | NUnloaded _ | NSend _ | NTick _ _ _ | NErr | NShutdown _ => True | _ => False end → accounted (js ++ received [ev]) k'.
Proof.
  intros Hstep A Hev. destruct ev; try done; cbn [received omap list_omap].
  - cbn [step] in Hstep. destruct (k_end k) eqn:Ee; try done. destruct (k_pulls k) as [|m pulls]; simplify_eq.
    destruct pulled; (eapply accounted_moved; [exact A|..]; try done; by rewrite !app_nil_r).
  - cbn [step] in Hstep. destruct (k_end k) eqn:Ee; try done. destruct (k_unloads k) as [|m ul]; simplify_eq.
    eapply accounted_moved; [exact A|..]; try done; by rewrite !app_nil_r.
  - cbn [step] in Hstep. destruct (k_end k) eqn:Ee; try done. destruct (k_chunks k) as [|c cs] eqn:Ec; simplify_eq.
    destruct A as [Hl Hs Hb Ha]. rewrite app_nil_r. destruct err as [e|]; split; cbn -[JobChunk_Proto]; try done.
    + intros _. rewrite sent_chunks_snoc, <- (Hl Ee), <- app_assoc. unfold outstanding. by rewrite Ec.
    + exists (cs ++ todo k ++ job_streams (k_jobs k ++ held k)). rewrite sent_chunks_snoc, <- (Hl Ee), <- app_assoc.
      unfold outstanding. by rewrite Ec.
  - cbn [step] in Hstep. destruct (k_end k) eqn:Ee; simplify_eq.
    destruct A as [Hl Hs Hb Ha]. rewrite app_nil_r. destruct err as [e|]; split; cbn; try done.
    + intros _. rewrite sent_chunks_app, app_nil_r. by apply Hl.
    + rewrite sent_chunks_app, app_nil_r. done.
  - cbn [step] in Hstep. destruct (k_end k) eqn:Ee; try done. destruct (k_recvErr k); simplify_eq.
    destruct A as [Hl Hs Hb Ha]. rewrite app_nil_r. split; cbn; done.
  - cbn [step] in Hstep. destruct (k_end k) eqn:Ee; simplify_eq.
    destruct A as [Hl Hs Hb Ha]. rewrite app_nil_r. destruct err as [e|]; split; cbn; try done.
    by rewrite sent_chunks_app, app_nil_r.
Qed.

Lemma accounted_step js ev k k' :
  step ev k = Some k' → accounted js k → accounted (js ++ received [ev]) k'.
Proof. intros. destruct ev; eauto using accounted_recv, accounted_exec, accounted_loop. Qed.

Lemma received_cons ev evs : received (ev :: evs) = received [ev] ++ received evs.
Proof. apply (omap_app _ [ev] evs). Qed.

Lemma accounted_run evs : ∀ js k k', run evs k = Some k' → accounted js k → accounted (js ++ received evs) k'.
Proof.
  induction evs as [|ev evs IH]; intros js k k' H A.
  - simplify_eq/=. by rewrite app_nil_r.
  - cbn [run] in H. destruct (step ev k) as [k1|] eqn:E; [|done].
    rewrite received_cons, app_assoc. eapply IH; [done|]. by eapply accounted_step.
Qed.

Lemma accounted_start n ms : sent_chunks ms = [] → accounted [] (serve_start n ms).
Proof. intros E. split; cbn -[sent_chunks]; rewrite ?E; [done|by exists []|done|done]. Qed.

(** ** The worker's own progress *)

(** Steps the worker takes without hearing from the server. *)
Definition local (ev : event) : bool :=
  match ev with
  | NPush | NTake | NEmit | NPulled _ _ | NUnloaded _ | NSend None => true
  | _ => false
  end.

(** Work left: a chunk is emitted, then sent; a job is delivered, taken, streamed. *)
Definition job_cost (job : Job) : nat := 1 + 2 * length (job_stream job).
Definition held_cost (k : link) : nat :=
  match k_recv k with
  | RHold (MsgJob p) => 1 + job_cost (JobFromProto p)
  | RHold _ => 2
  | _ => 0
  end.
Definition work (k : link) : nat :=
  length (k_chunks k) + 2 * length (todo k) + list_sum (map job_cost (k_jobs k)) + held_cost k +
  length (k_pulls k) + length (k_unloads k).

Lemma deliver_work m k k' :
  deliver m k = Some k' → (work (set_recv RWait k') < work (set_recv (RHold m) k))%nat.
Proof.
  intros H. destruct m; simpl in H; try (destruct (_ <? _)%nat; [|done]); simplify_eq;
    unfold work, todo, held_cost; simpl; rewrite ?length_app, ?map_app, ?list_sum_app; simpl; unfold job_cost; lia.
Qed.

Lemma set_recv_same k m : k_recv k = RHold m → set_recv (RHold m) k = k.
Proof. intros <-. by destruct k. Qed.

(** Every such step does part of the work and keeps the connection up. *)
Lemma local_step ev k k' :
  local ev = true → step ev k = Some k' → (work k' < work k)%nat ∧ k_end k' = k_end k.
Proof.
  intros Hl Hs. destruct ev as [| | | | |p l|u|[e|]| | |]; try done; cbn [step] in Hs.
  - destruct (k_recv k) as [|m|] eqn:Er; try done. destruct (deliver m k) as [k1|] eqn:Ed; simplify_eq.
    split; [|by apply deliver_effect in Ed as (_ & _ & _ & _ & ? & _)].
    apply deliver_work in Ed. by rewrite (set_recv_same _ _ Er) in Ed.
  - destruct (k_exec k) eqn:Ee; try done. destruct (k_jobs k) eqn:Ej; simplify_eq.
    split; [|done]. unfold work, todo, held_cost. rewrite Ee, Ej. simpl. unfold job_cost. lia.
  - destruct (k_exec k) as [|job [|c [|c2 cs]]|] eqn:Ee; try done; case_match; simplify_eq;
      (split; [|done]; unfold work, todo, held_cost; rewrite Ee; simpl; rewrite length_app; simpl; lia).
  - destruct (k_end k) eqn:Ee; try done. destruct (k_pulls k) eqn:Ep; simplify_eq.
    destruct p; (split; [|done]); unfold work, todo, held_cost; rewrite Ep; simpl; lia.
  - destruct (k_end k) eqn:Ee; try done. destruct (k_unloads k) eqn:Ep; simplify_eq.
    split; [|done]. unfold work, todo, held_cost. rewrite Ep. simpl. lia.
  - destruct (k_end k) eqn:Ee; try done. destruct (k_chunks k) eqn:Ep; simplify_eq.
    split; [|done]. unfold work, todo, held_cost. rewrite Ep. simpl. lia.
Qed.

(** A live connection with chunks outstanding is never stuck. *)
Lemma local_enabled js k :
  accounted js k → k_end k = None → outstanding k ≠ [] → ∃ ev k', local ev = true ∧ step ev k = Some k'.
Proof.
  intros [_ _ Hb _] He Ho. unfold outstanding, todo in Ho.
  destruct (k_chunks k) as [|c cs] eqn:Ec.
  2: { exists (NSend None). cbn [step]. rewrite He, Ec. eauto. }
  destruct (k_exec k) as [|job [|c cs]|] eqn:Ee; try done.
  - destruct (k_jobs k) as [|j jobs] eqn:Ej.
    2: { exists NTake. cbn [step]. rewrite Ee, Ej. eauto. }
    exists NPush. cbn [step]. revert Ho. unfold held. destruct (k_recv k) as [|[]|]; try done. intros _.
    unfold deliver. rewrite Ej. cbn. eauto.
  - exists NEmit. cbn [step]. rewrite Ee, Ec. cbn. destruct cs; eauto.
Qed.

Lemma received_local evs : forallb local evs = true → received evs = [].
Proof.
  induction evs as [|ev evs IH]; [done|]. simpl. intros [H1 H2]%andb_true_iff. specialize (IH H2).
  by destruct ev.
Qed.
End serve.

(** ** What an executor promises *)

Definition concat_deltas (cs : list JobChunk) : string := foldr (λ c s, JobChunk_Delta c +:+ s) "" cs.

Class Executor (exec : Job → list JobChunk * JobResult) : Prop := {
  executor_id job : JobResult_JobID (exec job).2 = Job_ID job;
  executor_emits job : Forall (λ c, JobChunk_JobID c = Job_ID job ∧ JobChunk_Done c = false) (exec job).1;
  executor_output job : JobResult_Output (exec job).2 = concat_deltas (exec job).1 }.

#[export] Instance EchoExecutor : Executor EchoExecute.
Proof.
  split; intros job; [done| |].
  - repeat constructor.
  - cbn. by rewrite string_app_nil_r.
Qed.

(** The Ollama executor keeps the promise whatever the backend answers: a delta it
    does not forward carries no text. *)
#[export] Instance OllamaExecutor Marshal unmarshal_chat unmarshal_error reply :
  Executor (OllamaExecute Marshal unmarshal_chat unmarshal_error reply).
Proof.
  split; intros job; unfold OllamaExecute; destruct (ChatStream _ _ _ _ _ _ _ _) as [[deltas res] err].
  - by destruct err.
  - apply Forall_map, Forall_true. done.
  - cbn [fst snd]. transitivity (emitted_text deltas); [by destruct err|].
    induction deltas as [|[t tc] ds IH]; [done|]. rewrite filter_cons. cbn [emitted_text foldr fst].
    unfold emitted_text in IH. rewrite IH. case_decide as E; [done|]. destruct (String.eqb_spec t ""); [by subst|done].
Qed.

(** The result as the server rebuilds it: a failed job's partial output is dropped. *)
Definition answer (res : JobResult) : JobResult :=
  mkJobResult (JobResult_JobID res) (match JobResult_Err res with None => JobResult_Output res | Some _ => "" end)
    (JobResult_Err res) (JobResult_Tokens res) (JobResult_ToolCalls res) (JobResult_FinishReason res)
    (JobResult_PromptTokens res) (JobResult_CompletionTokens res).

Section answers.
Context (exec : Job → list JobChunk * JobResult) `{!Executor exec}.

Definition other (id : string) (c : JobChunk) : Prop := JobChunk_JobID c ≠ id.

Lemma other_ops id cs : Forall (other id) cs →
  forallb (keeps id) (map OpChunk cs) = true ∧ deltas id (map OpChunk cs) = "".
Proof.
  induction 1 as [|c cs Hc _ [IH1 IH2]]; [done|]. cbn [map forallb keeps deltas foldr delta_of].
  apply String.eqb_neq in Hc. by rewrite Hc, IH1.
Qed.

Lemma emit_ops job cs :
  Forall (λ c, JobChunk_JobID c = Job_ID job ∧ JobChunk_Done c = false) cs →
  forallb (keeps (Job_ID job)) (map OpChunk cs) = true ∧ deltas (Job_ID job) (map OpChunk cs) = concat_deltas cs.
Proof.
  induction 1 as [|c cs [Hi Hd] _ [IH1 IH2]]; [done|]. cbn [map forallb keeps deltas foldr delta_of concat_deltas].
  rewrite Hi, Hd, String.eqb_refl, IH1. unfold deltas in IH2. by rewrite IH2.
Qed.

Lemma stream_other id job : Job_ID job ≠ id → Forall (other id) (job_stream exec job).
Proof.
  intros Hne. unfold job_stream. pose proof (executor_emits job) as He. destruct (exec job) as [emits res]. simpl in He.
  apply Forall_app. split; [|by repeat constructor]. eapply Forall_impl; [exact He|]. intros c [Hi _]. unfold other. by rewrite Hi.
Qed.

Lemma streams_other id js : id ∉ map Job_ID js → Forall (other id) (job_streams exec js).
Proof.
  intros H. unfold job_streams. apply Forall_concat, Forall_map, Forall_forall. intros j Hj. apply stream_other.
  intros <-. apply H, list_elem_of_In, in_map. by apply list_elem_of_In.
Qed.

(** A waiter's channel that nothing is registered for keeps what it holds. *)
Lemma chunks_leave cs : ∀ w c ch l,
  disciplined w c → (∀ j, w_pending w !! j ≠ Some ch) → c_res c !! ch = Some l →
  c_res (wrun (map OpChunk cs) w c).2 !! ch = Some l.
Proof.
  unfold wrun. induction cs as [|chunk cs IH]; intros w c ch l D Hn Hl; [done|]. cbn [map fold_left fst snd wstep].
  destruct (accumulate_ok chunk w c D) as [D' (_ & Hf & _)].
  assert (Hn' : ∀ j, w_pending (accumulate chunk w c).1 !! j ≠ Some ch).
  { unfold accumulate, accumulate_delta, accumulate_done. destruct (JobChunk_Done chunk); cbn [negb]; [|done].
    by apply resolve_pending_none. }
  destruct (accumulate chunk w c) as [w' c']. apply IH; eauto.
Qed.

Lemma wrun_app ops1 ops2 w c : wrun (ops1 ++ ops2) w c = wrun ops2 (wrun ops1 w c).1 (wrun ops1 w c).2.
Proof. unfold wrun. rewrite fold_left_app. by destruct (fold_left _ ops1 _). Qed.

(** The server reads a job's stream and answers its waiter with the execution. *)
Lemma stream_answers job w c ch :
  disciplined w c → w_pending w !! Job_ID job = Some ch → default "" (w_streams w !! Job_ID job) = "" →
  let s := wrun (map OpChunk (job_stream exec job)) w c in
  disciplined s.1 s.2 ∧ (∀ j, w_pending s.1 !! j ≠ Some ch) ∧ c_res s.2 !! ch = Some [answer (exec job).2].
Proof.
  intros D Hp Hs. unfold job_stream. pose proof (executor_emits job) as He. pose proof (executor_output job) as Ho.
  pose proof (executor_id job) as Hi. destruct (exec job) as [emits res]. cbn [fst snd] in *.
  destruct (emit_ops _ _ He) as [Hk Hd]. rewrite map_app, wrun_app.
  pose proof (wrun_disciplined (map OpChunk emits) w c D) as D1.
  destruct (wrun_stream _ _ w c Hk) as [P1 S1]. destruct (wrun (map OpChunk emits) w c) as [w1 c1].
  cbn [fst snd map] in *. rewrite Hp in P1. rewrite Hs, Hd, <- Ho in S1. simpl in S1.
  destruct (accumulate_terminal (terminal job res) w1 c1 ch D1 P1 eq_refl) as (R & Pn & _).
  cbv zeta. unfold wrun. cbn [fold_left wstep fst snd]. destruct (accumulate_ok (terminal job res) w1 c1 D1) as [D2 _].
  destruct (accumulate _ _ _) as [w2 c2] eqn:E. cbn [fst snd] in *. split; [done|]. split.
  - intros j Hj. destruct (decide (j = Job_ID job)) as [->|Hne]; [change (w_pending w2 !! Job_ID job = None) in Pn; congruence|].
    assert (w_pending w1 !! j = Some ch) as Hj1.
    { destruct (wstep_stream j (OpChunk (terminal job res)) w1 c1) as [Hst _].
      { cbn. by rewrite (proj2 (String.eqb_neq _ _)). }
      cbn [wstep] in Hst. rewrite E in Hst. cbn in Hst. by rewrite <- Hst. }
    apply Hne. eapply (d_pending_inj _ _ D1); eauto.
  - rewrite R. cbn [terminal JobChunk_JobID JobChunk_Delta]. rewrite S1, string_app_nil_r. unfold answer. by rewrite Hi.
Qed.
End answers.

(** ** Properties of a connection *)

(** The connection [runOnce] hands to [serve]. *)
Definition registered (n : node) : link :=
  serve_start n [WRegister (n_id n) (ModelsToProto (currentModels n))].

Lemma accounted_registered exec evs n k :
  run exec evs (registered n) = Some k → accounted exec (received evs) k.
Proof. intros H. apply (accounted_run exec evs [] (registered n) k H). by apply accounted_start. Qed.

(** Whatever the interleaving of the receive loop, the job worker, the pull and
    unload workers, the heartbeat ticker and the send loop, the chunks a worker has
    sent are an initial part of the streams of the jobs it received, in the order
    they were dispatched; while the connection is up the chunks sent followed by
    those buffered, being emitted or still to be executed are exactly those streams,
    none lost, duplicated or reordered; and the active-job count is one while a job
    executes and zero otherwise. *)
Theorem worker_streams_jobs exec evs n k :
  run exec evs (registered n) = Some k →
  (∃ rest, sent_chunks (k_sent k) ++ rest = job_streams exec (received evs)) ∧
  (k_end k = None →
     sent_chunks (k_sent k) ++ outstanding exec k = job_streams exec (received evs) ∧
     k_active k = match k_exec k with ERun _ _ => 1 | _ => 0 end).
Proof. intros H. destruct (accounted_registered _ _ _ _ H) as [Hl Hs Hb Ha]. auto. Qed.

(** A worker with one echo job received, emitted and half sent, and a second queued. *)
Definition ex_job (id prompt : string) : Job := mkJob id "m" prompt [] [] "" 0.
Definition ex_node : node := New "w1" None (mkCapacity "RTX" 100 60 5).
Definition ex_events : list event :=
  [NRecv (MsgJob (Job_Proto (ex_job "a" "hi"))); NTake; NRecv (MsgJob (Job_Proto (ex_job "b" "yo"))); NEmit;
   NTick (Err (ENew "refused")) (Some cpuFallback) None; NSend None; NEmit].

Lemma worker_streams_jobs_witness :
  ∃ k, run EchoExecute ex_events (registered ex_node) = Some k ∧
    (∃ rest, sent_chunks (k_sent k) ++ rest = job_streams EchoExecute [ex_job "a" "hi"; ex_job "b" "yo"]).
Proof.
  destruct (run EchoExecute ex_events (registered ex_node)) as [k|] eqn:E; [|vm_compute in E; discriminate E].
  exists k. split; [done|]. exact (proj1 (worker_streams_jobs EchoExecute ex_events ex_node k E)).
Defined.

(** Nothing outstanding: whoever reads the stream has every job's answer. *)
Lemma nothing_left exec `{!Executor exec} js k w c js1 job js2 ch :
  accounted exec js k → k_end k = None → outstanding exec k = [] →
  js = js1 ++ job :: js2 → Job_ID job ∉ map Job_ID (js1 ++ js2) → disciplined w c →
  w_pending w !! Job_ID job = Some ch → w_streams w !! Job_ID job = None →
  c_res (wrun (map OpChunk (sent_chunks (k_sent k))) w c).2 !! ch = Some [answer (exec job).2].
Proof.
  intros [Hlive _ _ _] He Ho -> Hn D Hp Hs. specialize (Hlive He). rewrite Ho, app_nil_r in Hlive. rewrite Hlive.
  rewrite map_app, elem_of_app in Hn.
  rewrite job_streams_app. change (job_streams exec (job :: js2)) with (job_stream exec job ++ job_streams exec js2).
  rewrite !map_app, !wrun_app.
  assert (Ho1 : Forall (other (Job_ID job)) (job_streams exec js1)) by (apply streams_other; [done|tauto]).
  destruct (other_ops _ _ Ho1) as [Hk Hd]. pose proof (wrun_disciplined (map OpChunk (job_streams exec js1)) w c D) as D1.
  destruct (wrun_stream _ _ w c Hk) as [P1 S1]. rewrite Hd, Hs in S1. rewrite Hp in P1.
  destruct (wrun (map OpChunk (job_streams exec js1)) w c) as [w1 c1]. cbn [fst snd] in *.
  destruct (stream_answers exec job w1 c1 ch D1 P1 S1) as (D2 & N3 & R). by apply chunks_leave.
Qed.

Lemma local_run exec evs : ∀ k k',
  forallb local evs = true → run exec evs k = Some k' →
  k_end k' = k_end k ∧ (length evs + work exec k' ≤ work exec k)%nat.
Proof.
  induction evs as [|ev evs IH]; intros k k' Hl H; [simplify_eq/=; by split|]. cbn [run forallb] in *.
  apply andb_true_iff in Hl as [Hl1 Hl2]. destruct (step exec ev k) as [k1|] eqn:E; [|done].
  destruct (local_step exec ev k k1 Hl1 E) as [Hw He]. destruct (IH k1 k' Hl2 H) as [He' Hw'].
  split; [congruence|]. simpl. lia.
Qed.

(** C17: The worker answers. From any point of a live connection, in every order of
    its own steps (without any message from the server, and with its sends going
    through) the connection stays up and at most [work k] steps are taken; and
    when no such step is possible any more, then for every job received whose id
    no other job received on this connection has, a server reading the stream,
    with a waiter and no left-over output registered under that id, delivers to
    the waiter exactly the execution's result (its error, tokens, tool calls and
    finish reason, and its output when it succeeded), once. *)
Theorem dispatched_jobs_answered exec `{!Executor exec} evs n k evs' k' :
  run exec evs (registered n) = Some k → k_end k = None → forallb local evs' = true → run exec evs' k = Some k' →
  k_end k' = None ∧ (length evs' ≤ work exec k)%nat ∧
  ((∀ ev, local ev = true → step exec ev k' = None) →
   ∀ w c js1 job js2 ch,
     received evs = js1 ++ job :: js2 → Job_ID job ∉ map Job_ID (js1 ++ js2) → disciplined w c →
     w_pending w !! Job_ID job = Some ch → w_streams w !! Job_ID job = None →
     c_res (wrun (map OpChunk (sent_chunks (k_sent k'))) w c).2 !! ch = Some [answer (exec job).2]).
Proof.
  intros H He Hl Hr. pose proof (accounted_registered _ _ _ _ H) as A.
  pose proof (accounted_run exec evs' _ _ _ Hr A) as A'. rewrite (received_local _ Hl), app_nil_r in A'.
  destruct (local_run exec evs' k k' Hl Hr) as [He' Hw]. rewrite He in He'. split; [done|]. split; [lia|].
  intros Hstuck w c js1 job js2 ch. eapply (nothing_left exec); [exact A'|done|].
  destruct (outstanding exec k') as [|x xs] eqn:Eo; [done|].
  destruct (local_enabled exec _ k' A' He') as (ev & k2 & Hlo & Hs); [by rewrite Eo|]. by rewrite Hstuck in Hs.
Qed.

(** The rest of the example, in one order. *)
Definition ex_rest : list event := [NSend None; NTake; NEmit; NSend None; NEmit; NSend None].

Lemma dispatched_jobs_answered_witness :
  ∃ k k', run EchoExecute ex_events (registered ex_node) = Some k ∧ run EchoExecute ex_rest k = Some k' ∧
    let '(w, c, ch) := addPending "b" (newWorker "w1" None ex_time) chans_init in
    c_res (wrun (map OpChunk (sent_chunks (k_sent k'))) w c).2 !! ch =
      Some [mkJobResult "b" "echo: yo" None 2 [] "stop" 0 2].
Proof.
  destruct (run EchoExecute ex_events (registered ex_node)) as [k|] eqn:E; [|vm_compute in E; discriminate E].
  assert (k_end k = None) as He by (vm_compute in E; by injection E as <-).
  destruct (run EchoExecute ex_rest k) as [k'|] eqn:Er;
    [|vm_compute in E; injection E as <-; vm_compute in Er; discriminate Er].
  exists k, k'. split; [done|]. split; [done|].
  destruct (dispatched_jobs_answered EchoExecute ex_events ex_node k ex_rest k' E He eq_refl Er) as (_ & _ & H).
  apply (H ltac:(intros ev Hev; vm_compute in E; injection E as <-; vm_compute in Er; injection Er as <-;
                 by destruct ev as [| | | | |? ?|?|[?|]| | |])
           _ _ [ex_job "a" "hi"] (ex_job "b" "yo") [] 0%nat);
    [done|by apply (bool_decide_unpack _); vm_compute|apply addPending_ok, newWorker_disciplined|done|done].
Defined.

(** *** Shutdown and heartbeats *)

(** What a step may add to the stream, and what it leaves of the node's identity. *)
Definition same_identity (n n' : node) : Prop :=
  n_id n' = n_id n ∧ Cap_Type (n_capacity n') = Cap_Type (n_capacity n) ∧
  Cap_TotalVRAM (n_capacity n') = Cap_TotalVRAM (n_capacity n).

#[export] Instance same_identity_preorder : PreOrder same_identity.
Proof. split; [done|]. intros n1 n2 n3 (? & ? & ?) (? & ? & ?). split_and!; congruence. Qed.

Lemma refreshModels_identity listed n : same_identity n (refreshModels listed n).
Proof. by destruct listed. Qed.

Lemma detectCapacity_identity detected n : same_identity n (detectCapacity detected false n).
Proof. by destruct detected. Qed.

Lemma deliver_node m k k' : deliver m k = Some k' → k_node k' = k_node k.
Proof. destruct m; simpl; repeat case_match; intros; by simplify_eq. Qed.

Ltac kept := split; [done|split; [done|by left]].

Lemma step_sent exec ev k k' :
  step exec ev k = Some k' →
  same_identity (k_node k) (k_node k') ∧
  (k_end k ≠ None → k_sent k' = k_sent k ∧ k_end k' = k_end k) ∧
  (k_sent k' = k_sent k ∨
   ∃ m, k_sent k' = k_sent k ++ [m] ∧ (m = WDeregister → k_end k = None ∧ k_end k' = Some EndShutdown)).
Proof.
  intros H. destruct ev; cbn [step] in H.
  - destruct (k_recv k); try done. destruct (deliver m k) as [k1|] eqn:Ed; simplify_eq; [|kept].
    rewrite (deliver_node _ _ _ Ed). destruct (deliver_effect _ _ _ Ed) as (_ & _ & _ & -> & -> & _). kept.
  - destruct (k_recv k); simplify_eq. kept.
  - destruct (k_recv k) as [|m|]; try done. destruct (deliver m k) as [k1|] eqn:Ed; simplify_eq.
    cbn [set_recv k_node k_sent k_end].
    rewrite (deliver_node _ _ _ Ed). destruct (deliver_effect _ _ _ Ed) as (_ & _ & _ & -> & -> & _). kept.
  - repeat case_match; simplify_eq; kept.
  - repeat case_match; simplify_eq; kept.
  - destruct (k_end k) eqn:Ee, (k_pulls k); simplify_eq.
    destruct pulled; cbn [k_node set_node set_inbox k_sent]; (split; [|split; [done|by left]]); [done|apply refreshModels_identity].
  - destruct (k_end k) eqn:Ee, (k_unloads k); simplify_eq. kept.
  - destruct (k_end k) eqn:Ee, (k_chunks k); simplify_eq.
    destruct err; cbn; (split_and!; [done..|]); [by left|]. right. eexists. by split.
  - destruct (k_end k) eqn:Ee; simplify_eq. split; [|split; [done|]].
    + destruct err; (etransitivity; [apply refreshModels_identity|apply detectCapacity_identity]).
    + destruct err; [by left|]. right. eexists. by split.
  - destruct (k_end k) eqn:Ee, (k_recvErr k); simplify_eq. kept.
  - destruct (k_end k) eqn:Ee; simplify_eq.
    destruct err; cbn; (split_and!; [done..|]); [by left|]. right. eexists. by split.
Qed.

(** A Deregister on the stream is the last message of a shutdown. *)
Definition courteous (k : link) : Prop :=
  ∀ i, k_sent k !! i = Some WDeregister → k_end k = Some EndShutdown ∧ S i = length (k_sent k).

Lemma courteous_step exec ev k k' : step exec ev k = Some k' → courteous k → courteous k'.
Proof.
  intros H C. destruct (step_sent _ _ _ _ H) as (_ & Hend & [E|(m & E & Hm)]); intros i Hi; rewrite E in *.
  - destruct (C i Hi) as [E1 ->]. destruct (Hend ltac:(by rewrite E1)) as [_ ->]. done.
  - rewrite length_app. cbn [length]. apply lookup_app_Some in Hi as [Hi|[Hle Hi]].
    + destruct (C i Hi) as [E1 _]. destruct (Hend ltac:(by rewrite E1)) as [E2 _].
      apply (f_equal length) in E2. rewrite length_app in E2. simpl in E2. lia.
    + apply list_lookup_singleton_Some in Hi as [Hi ->]. destruct (Hm eq_refl) as [_ ->]. split; [done|lia].
Qed.

Lemma run_courteous exec evs : ∀ k k', run exec evs k = Some k' →
  same_identity (k_node k) (k_node k') ∧ (courteous k → courteous k').
Proof.
  induction evs as [|ev evs IH]; intros k k' H; [by simplify_eq/=|]. cbn [run] in H.
  destruct (step exec ev k) as [k1|] eqn:E; [|done]. destruct (IH _ _ H) as [I1 C1].
  destruct (step_sent _ _ _ _ E) as [I0 _]. split; [by etransitivity|]. eauto using courteous_step.
Qed.

(** A graceful shutdown is always possible while the connection is up and sends
    exactly one Deregister, the last message of the stream; a connection that ends
    for any other reason (the server closed it, a send failed) never sends one, and
    nothing is sent after the end. *)
Theorem deregister_on_shutdown_only exec evs n k :
  run exec evs (registered n) = Some k →
  (∀ i, k_sent k !! i = Some WDeregister → k_end k = Some EndShutdown ∧ S i = length (k_sent k)) ∧
  (k_end k = None → ∃ k', step exec (NShutdown None) k = Some k' ∧ k_end k' = Some EndShutdown ∧
     k_sent k' = k_sent k ++ [WDeregister]) ∧
  (k_end k ≠ None → ∀ ev k', step exec ev k = Some k' → k_sent k' = k_sent k ∧ k_end k' = k_end k).
Proof.
  intros H. split_and!.
  - apply (run_courteous _ _ _ _ H). intros [|[|i]] Hi; done.
  - intros E. cbn [step]. rewrite E. eexists. split; [reflexivity|]. done.
  - intros E ev k' Hs. by apply (step_sent _ _ _ _ Hs).
Qed.

Lemma deregister_on_shutdown_only_witness :
  ∃ k, run EchoExecute (ex_events ++ [NShutdown None]) (registered ex_node) = Some k ∧
    (∀ i, k_sent k !! i = Some WDeregister → S i = length (k_sent k)).
Proof.
  destruct (run EchoExecute (ex_events ++ [NShutdown None]) (registered ex_node)) as [k|] eqn:E;
    [|vm_compute in E; discriminate E].
  exists k. split; [done|]. intros i Hi.
  by apply (proj1 (deregister_on_shutdown_only EchoExecute (ex_events ++ [NShutdown None]) ex_node k E)).
Defined.

(** A heartbeat reports the worker truthfully: its id and the hardware identity
    captured at startup, whatever was probed since; one active job exactly while one
    executes; the free memory and load just probed, or the last known without a
    detector; and the models just listed, or the last known set when listing fails. *)
Theorem heartbeat_reports exec evs n k listed detected k' :
  run exec evs (registered n) = Some k → step exec (NTick listed detected None) k = Some k' →
  ∃ hb, k_sent k' = k_sent k ++ [WHeartbeat hb] ∧
    HeartbeatFromProto hb = mkHeartbeat (n_id n) (match k_exec k with ERun _ _ => 1 | _ => 0 end)
      (Cap_TotalVRAM (n_capacity n))
      (match detected with Some cap => Cap_FreeVRAM cap | None => Cap_FreeVRAM (n_capacity (k_node k)) end)
      (match detected with Some cap => Cap_Load cap | None => Cap_Load (n_capacity (k_node k)) end)
      (Cap_Type (n_capacity n))
      (currentModels (match listed with Ok ms => refreshModels (Ok ms) n | Err _ => k_node k end)).
Proof.
  intros H Hs. destruct (accounted_registered _ _ _ _ H) as [_ _ _ Ha].
  destruct (run_courteous _ _ _ _ H) as [(I1 & I2 & I3) _]. cbn in I1, I2, I3.
  cbn [step] in Hs. destruct (k_end k) eqn:Ee; simplify_eq. eexists. split; [reflexivity|].
  unfold heartbeat. rewrite heartbeat_roundtrip. cbn [k_active set_node]. rewrite (Ha eq_refl), <- I1, <- I2, <- I3.
  f_equal; try (by destruct detected, listed). by destruct (k_exec k).
Qed.

Lemma heartbeat_reports_witness :
  ∃ k hb, k_sent k = [WRegister "w1" None; WHeartbeat hb] ∧
    HeartbeatFromProto hb = mkHeartbeat "w1" 1 100 40 9 "RTX" (Some [mkModel "llama3" "d7"]).
Proof.
  set (evs := [NRecv (MsgJob (Job_Proto (ex_job "a" "hi"))); NTake]).
  set (tick := NTick (Ok (Some [mkModel "llama3" "d7"])) (Some (mkCapacity "cpu" 0 40 9)) None).
  destruct (run EchoExecute evs (registered ex_node)) as [k|] eqn:E; [|vm_compute in E; discriminate E].
  destruct (step EchoExecute tick k) as [k'|] eqn:E'; [|vm_compute in E; injection E as <-; discriminate E'].
  destruct (heartbeat_reports _ _ _ _ _ _ _ E E') as (hb & Hs & Hh).
  vm_compute in E. injection E as <-. exists k', hb. done.
Defined.

(** *** Reconnect backoff *)

(** The defaults [Delay] fills in. *)
Definition backoff_max (b : Backoff) : Duration := if B_Max b <=? 0 then 30 * Second else B_Max b.
Definition backoff_base (b : Backoff) : Duration := if B_Base b <=? 0 then 500 * Millisecond else B_Base b.

Definition backoff_factor (b : Backoff) : float := if flt (B_Factor b) (float64 1) then float64 2 else B_Factor b.

(** The uncapped, unjittered delay, cut at the maximum. *)
Definition capped (pow : float → Z → option float) (b : Backoff) (attempt : Z) : float :=
  match pow (backoff_factor b) attempt with
  | None => float64 (backoff_max b)
  | Some p =>
      let d := fmul (float64 (backoff_base b)) p in
      if flt (float64 (backoff_max b)) d then float64 (backoff_max b) else d
  end.

Lemma Delay_capped pow b attempt jitter :
  Delay pow b attempt jitter =
  ftrunc (match jitter with Some j => fmul j (capped pow b attempt) | None => capped pow b attempt end).
Proof. reflexivity. Qed.

(** A value between zero and [R]. *)
Definition within (x : float) (R : Z) : Prop := 0 <= f_num x <= R * f_den x.

Lemma float64_within n R : 0 <= n <= R → R < 2 ^ 52 → within (float64 n) R.
Proof. intros. split; [apply round64_nonneg; lia|apply round64_le_int; lia]. Qed.

Lemma fmul_within x y R : f_num x <= f_den x → within y R → 0 <= R < 2 ^ 52 → within (fmul x y) R.
Proof.
  intros Hx [H0 H1] HR. pose proof (f_den_pos x). pose proof (f_den_pos y).
  pose proof (Z.mul_le_mono_nonneg_r _ _ _ H0 Hx). pose proof (Z.mul_le_mono_nonneg_l _ _ (f_den x) ltac:(lia) H1).
  split; [|apply round64_le_int; [|lia|lia]]; [apply round64_nonneg|]; by apply Z.mul_pos_pos.
Qed.

Lemma fmul_nonneg x y : 0 <= f_num (fmul x y).
Proof. pose proof (f_den_pos x). pose proof (f_den_pos y). apply round64_nonneg. nia. Qed.

Lemma flt_false x n : 0 <= n < 2 ^ 52 → flt (float64 n) x = false → f_num x <= n * f_den x.
Proof.
  intros Hn H. unfold flt in H. zbool. destruct (float64_exact n Hn) as [E Hd]. rewrite E in H.
  pose proof (f_den_pos x). nia.
Qed.

Lemma capped_within x R : 0 <= R < 2 ^ 52 → 0 <= f_num x →
  within (if flt (float64 R) x then float64 R else x) R.
Proof.
  intros HR H0. destruct (flt (float64 R) x) eqn:E; [apply float64_within; lia|]. split; [done|].
  by apply flt_false.
Qed.

Lemma jitter_within (jitter : option float) x R :
  (∀ j, jitter = Some j → f_num j <= f_den j) → within x R → 0 <= R < 2 ^ 52 →
  0 <= ftrunc (match jitter with Some j => fmul j x | None => x end) <= R.
Proof.
  intros Hj Hx HR. apply ftrunc_range. destruct jitter as [j|]; [|done]. apply fmul_within; eauto.
Qed.

(** The reconnect delay lies between zero and the configured maximum for every
    attempt, whatever [math.Pow] returns, an infinity included, and every jitter
    draw; and after a cycle that registered, the next delay is at most the base. *)
Theorem backoff_bounded pow b attempt jitter :
  B_Max b < 2 ^ 52 → B_Base b < 2 ^ 52 → (∀ j, jitter = Some j → f_num j <= f_den j) →
  (∀ factor, pow factor 0 = Some (float64 1)) →
  0 <= Delay pow b attempt jitter <= backoff_max b ∧
  (run_cycle pow b true jitter attempt).1 = 1 ∧
  0 <= (run_cycle pow b true jitter attempt).2 <= Z.min (backoff_base b) (backoff_max b).
Proof.
  intros Hm Hb Hj Hpow.
  assert (Rm : 0 <= backoff_max b < 2 ^ 52) by (unfold backoff_max, Second; case_match; zbool; lia).
  assert (Rb : 0 <= backoff_base b < 2 ^ 52) by (unfold backoff_base, Millisecond; case_match; zbool; lia).
  assert (Hmax : ∀ n, 0 <= Delay pow b n jitter <= backoff_max b).
  { intros n. rewrite Delay_capped. apply jitter_within; [done| |done]. unfold capped.
    destruct (pow _ n) as [p|]; [|apply float64_within; lia]. apply capped_within; [done|]. apply fmul_nonneg. }
  split; [done|]. split; [done|]. cbn [run_cycle snd].
  enough (Delay pow b 0 jitter <= backoff_base b) by (specialize (Hmax 0); lia).
  rewrite Delay_capped. apply jitter_within; [done| |done]. unfold capped. rewrite Hpow.
  assert (W : within (fmul (float64 (backoff_base b)) (float64 1)) (backoff_base b)).
  { split; [apply fmul_nonneg|]. pose proof (float64_within (backoff_base b) (backoff_base b)) as [W0 W1]; [lia..|].
    unfold fmul. change (f_num (float64 1)) with (f_den (float64 1)).
    pose proof (f_den_pos (float64 1)). pose proof (f_den_pos (float64 (backoff_base b))).
    apply round64_le_int; nia. }
  destruct (flt (float64 (backoff_max b)) _) eqn:E; [|done].
  destruct W as [W0 W1]. split; [apply round64_nonneg; lia|].
  unfold flt in E. zbool. destruct (float64_exact _ Rm) as [Em Hd].
  set (x := fmul _ _) in *. pose proof (f_den_pos x). nia.
Qed.

(** [math.Pow] of two, infinite from 2^1024 on. *)
Definition ex_pow (factor : float) (n : Z) : option float := if n <? 1024 then Some (float64 (2 ^ n)) else None.

Lemma backoff_bounded_witness :
  0 <= Delay ex_pow DefaultBackoff 5000 (Some (F 1 1)) <= 30 * Second ∧
  (run_cycle ex_pow DefaultBackoff true (Some (F 1 1)) 9).2 <= 500 * Millisecond.
Proof.
  destruct (backoff_bounded ex_pow DefaultBackoff 5000 (Some (F 1 1))) as (H1 & _ & H2);
    [vm_compute; done|vm_compute; done|intros j [= <-]; vm_compute; done|done|].
  split; [done|]. destruct H2 as [_ H2]. etransitivity; [exact H2|apply Z.le_min_l].
Defined.

(** *** Behaviours worth knowing *)

(** Once the connection has ended with the job channel full, the receive loop holds
    its job for ever: it sends on the channel without watching the context. *)
Lemma receive_loop_stuck exec evs : ∀ k k' p,
  k_end k ≠ None → k_exec k = EStopped → (length (k_jobs k) = jobsCap)%nat → k_recv k = RHold (MsgJob p) →
  run exec evs k = Some k' → k_recv k' = RHold (MsgJob p).
Proof.
  induction evs as [|ev evs IH]; intros k k' p He Hx Hj Hr H; [by simplify_eq/=|]. cbn [run] in H.
  destruct (step exec ev k) as [k1|] eqn:Es; [|done].
  destruct ev; cbn [step] in Es; rewrite ?Hr, ?Hx in Es; cbn [deliver] in Es; rewrite ?Hj in Es; try done;
    destruct (k_end k) eqn:Ee; done.
Qed.

Example receive_loop_stuck_reached :
  let job i := NRecv (MsgJob (Job_Proto (ex_job i "hi"))) in
  (λ k, (k_end k, length (k_jobs k), k_exec k, match k_recv k with RHold _ => true | _ => false end)) <$>
    run EchoExecute (map job ["0"; "1"; "2"; "3"; "4"; "5"; "6"; "7"; "8"] ++
      [NTick (Ok None) None (Some (ENew "broken pipe"))]) (registered ex_node)
  = Some (Some (EndSend (ENew "broken pipe")), 8%nat, EStopped, true).
Proof. vm_compute. reflexivity. Qed.

(** *** Tool calls on the stream *)

Definition stream_calls (cs : list JobChunk) : list ToolCall := concat (map JobChunk_ToolCalls cs).

Lemma chat_stream_calls Marshal unmarshal_chat unmarshal_error model messages tools keep reply emits res err :
  ChatStream Marshal unmarshal_chat unmarshal_error model messages tools keep reply = (emits, res, err) →
  Chat_ToolCalls res = concat (map snd emits).
Proof.
  unfold ChatStream. destruct (Marshal _); [|by intros; simplify_eq]. destruct (fetch _ _ _); [|by intros; simplify_eq].
  intros H. apply (chat_loop_calls _ _ _ _ _ _ _ H).
Qed.

(** A streamed answer carries every tool call of the model twice: each one on the
    delta chunk that reported it, and all of them again on the terminal chunk, so a
    reader that collects the calls of all chunks, as the streaming chat handler does,
    gets the list two times over. *)
Theorem streamed_tool_calls_twice Marshal unmarshal_chat unmarshal_error reply job :
  let exec := OllamaExecute Marshal unmarshal_chat unmarshal_error reply in
  JobResult_Err (exec job).2 = None →
  stream_calls (job_stream exec job) = JobResult_ToolCalls (exec job).2 ++ JobResult_ToolCalls (exec job).2.
Proof.
  cbv zeta. unfold job_stream, OllamaExecute. destruct (ChatStream _ _ _ _ _ _ _ _) as [[deltas res] err] eqn:E.
  apply chat_stream_calls in E. destruct err as [e|]; [done|]. intros _. cbn [snd JobResult_ToolCalls].
  unfold stream_calls. rewrite map_app, concat_app. cbn [map concat terminal JobChunk_ToolCalls JobResult_ToolCalls].
  rewrite app_nil_r. f_equal. rewrite E. clear E. induction deltas as [|[t tc] ds IH]; [done|].
  rewrite filter_cons. cbn [map concat snd fst]. rewrite <- IH. case_decide as Ed; [done|].
  by destruct tc; [|rewrite orb_true_r in Ed].
Qed.

Lemma streamed_tool_calls_twice_witness :
  let exec := OllamaExecute ex_marshal ex_unmarshal (λ _, Err ErrNotFound) (λ _ _, XResp 200 (ex_body ["call"; "."])) in
  stream_calls (job_stream exec (ex_job "a" "hi")) =
    [mkToolCall "" "function" "f" "{}"; mkToolCall "" "function" "f" "{}"].
Proof. cbv zeta. by rewrite streamed_tool_calls_twice. Defined.
