(* ===== verification/GpuTools.v ===== *)
(** * GpuTools.v: reading the vendors' command-line tools (internal/gpu)

    nvidia-smi prints one line of comma-separated values per device; amd-smi,
    rocm-smi and system_profiler print JSON, whose text-to-tree step is the
    parameter [parse_json].  [run] answers a command with its standard output or an
    error.  The aggregation of the devices is in WorkerNode. *)

From Stdlib Require Import Ascii.
From S2P Require Import Prelude Errors GoTime GoStrings GoConv Types Scheduler Http WorkerNode GoText GoJson.
Open Scope Z_scope.

Definition mib : Z := 1024 * 1024.
Definition newline : ascii := "010"%char.

(** [strconv.ParseUint]'s two errors. *)
Definition uint_error (quote : string → string) (s : string) : error :=
  ENew ("strconv.ParseUint: parsing " +:+ quote s +:+
        match parse_digits s with Some _ => ": value out of range" | None => ": invalid syntax" end).
Definition parseUint (quote : string → string) (s : string) : result Z :=
  match ParseUint s with Some n => Ok n | None => Err (uint_error quote s) end.

Definition clamp100 (n : Z) : Z := if 100 <? n then 100 else n.

Section tools.
Context (quote : string → string) (parse_json : string → option json).
Context (range : gmap string string → list (string * string)).

(** ** NVIDIA *)

Definition parseUintField (field : string) : result Z := parseUint quote (TrimSpace field).

Definition nvidia_line (line : string) : result Device :=
  match Split line "," with
  | f0 :: f1 :: f2 :: rest =>
      let name := TrimSpace f0 in
      match parseUintField f1 with
      | Err e => Err (EWrap ("gpu: nvidia-smi memory.total " +:+ quote (TrimSpace f1)) e)
      | Ok totalMiB =>
      match parseUintField f2 with
      | Err e => Err (EWrap ("gpu: nvidia-smi memory.free " +:+ quote (TrimSpace f2)) e)
      | Ok freeMiB =>
          let load := match rest with
                      | f3 :: _ => match parseUintField f3 with Ok util => clamp100 util | Err _ => 0 end
                      | [] => 0
                      end in
          Ok (mkDevice name (u64 (totalMiB * mib)) (u64 (freeMiB * mib)) load)
      end end
  | _ => Err (ENew ("gpu: malformed nvidia-smi line " +:+ quote line +:+ ": want at least name,total,free"))
  end.

Fixpoint nvidia_loop (lines : list string) (devices : list Device) : result (list Device) :=
  match lines with
  | [] => Ok devices
  | raw :: lines =>
      let line := TrimSpace raw in
      if String.eqb line "" then nvidia_loop lines devices
      else match nvidia_line line with
           | Err e => Err e
           | Ok dev => nvidia_loop lines (devices ++ [dev])
           end
  end.
Definition parseNvidiaSMI (out : string) : result (list Device) := nvidia_loop (Split out newline) [].

Definition Runner := string → list string → result string.

Definition detectNVIDIA (run : Runner) : result (list Device) :=
  match run "nvidia-smi" ["--query-gpu=name,memory.total,memory.free,utilization.gpu"; "--format=csv,noheader,nounits"] with
  | Err e => Err e
  | Ok out => parseNvidiaSMI out
  end.

(** ** AMD *)

Fixpoint str_by_substr (entry : list (string * string)) (substr : string) : option string :=
  match entry with
  | [] => None
  | (k, v) :: entry =>
      if Contains (ToLower k) substr then
        let v := TrimSpace v in
        if negb (String.eqb v "") then Some v else str_by_substr entry substr
      else str_by_substr entry substr
  end.
Definition rocmStrBySubstr (entry : gmap string string) (substr : string) : option string :=
  str_by_substr (range entry) (ToLower substr).

Definition rocmUintBySubstr (entry : gmap string string) (substr : string) : option Z :=
  match rocmStrBySubstr entry substr with
  | None => None
  | Some v => ParseUint (TrimSpace v)
  end.

Fixpoint name_loop (entry : gmap string string) (wants : list string) : string :=
  match wants with
  | [] => ""
  | want :: wants => match rocmStrBySubstr entry want with Some v => v | None => name_loop entry wants end
  end.
Definition rocmName (entry : gmap string string) : string :=
  name_loop entry ["card series"; "card model"; "card vendor"; "gpu name"; "product name"].

Definition rocm_card (entry : gmap string string) : option Device :=
  let name := rocmName entry in
  let total := rocmUintBySubstr entry "vram total memory" in
  let used := rocmUintBySubstr entry "vram total used memory" in
  let tot := default 0 total in
  let free := match total, used with
              | Some t, Some u => if u <=? t then t - u else 0
              | _, _ => 0
              end in
  let load := match rocmUintBySubstr entry "gpu use" with Some util => clamp100 util | None => 0 end in
  if String.eqb name "" && match total with None => true | Some _ => false end then None
  else Some (mkDevice name tot free load).

Definition is_card (id : string) : bool := String.prefix "card" (ToLower id).

Definition parseRocmSMI (out : string) : result (list Device) :=
  let trimmed := TrimSpace out in
  if String.eqb trimmed "" then Err (ENew "gpu: empty rocm-smi output")
  else match parse_json trimmed with
       | None => Err (ENew "gpu: parse rocm-smi json: syntax")
       | Some j =>
           (* map[string]map[string]string: an entry that is null is a nil map *)
           let '(raw, bad) := dec_map ∅ (λ _ e, dec_map "" dec_string e) j in
           if bad then Err (ENew "gpu: parse rocm-smi json: kind")
           else
             let ids := sort_Strings (map fst (map_to_list raw)) in
             Ok (omap (λ id, if is_card id then rocm_card (default ∅ (raw !! id)) else None) ids)
       end.

(** [amdVRAM]: the value and its lower-case unit. *)
Record amdVRAM := mkAmdVRAM { av_value : Z; av_unit : string }.

Definition amdDecodeQuantity (raw : json) : option (Z * string) :=
  match dec_uint64 0 raw with
  | (n, false) => Some (n, "")
  | _ =>
      let fields :=
        [("value", λ (q : Z * string) j, let '(n, b) := dec_uint64 q.1 j in ((n, q.2), b));
         ("unit", λ q j, let '(s, b) := dec_string q.2 j in ((q.1, s), b))] in
      match dec_struct fields (0, "") raw with
      | ((n, unit), false) => if 0 <? n then Some (n, ToLower (TrimSpace unit)) else None
      | _ => None
      end
  end.

Fixpoint vram_loop (obj : gmap string json) (keys : list string) (v : amdVRAM) : amdVRAM :=
  match keys with
  | [] => v
  | key :: keys =>
      match obj !! key with
      | None => vram_loop obj keys v
      | Some raw => match amdDecodeQuantity raw with
                    | Some (val, unit) => mkAmdVRAM val unit
                    | None => vram_loop obj keys v
                    end
      end
  end.
(** [UnmarshalJSON], which never fails; members that repeat replace one another. *)
Definition UnmarshalVRAM : decoder amdVRAM := λ v data,
  match data with
  | JObj ms => (vram_loop (list_to_map (reverse ms)) ["total"; "size"; "total_vram"] v, false)
  | _ => (v, false)
  end.

Record amdGPU := mkAmdGPU { ag_market_name : string; ag_vram : amdVRAM }.
Definition dec_amdGPU : decoder amdGPU :=
  dec_struct
    [("asic", λ g j, let '(s, b) := dec_struct [("market_name", dec_string)] (ag_market_name g) j in (mkAmdGPU s (ag_vram g), b));
     ("vram", λ g j, let '(v, b) := UnmarshalVRAM (ag_vram g) j in (mkAmdGPU (ag_market_name g) v, b))].

Definition amdVRAMToBytes (v : amdVRAM) : Z :=
  if av_value v =? 0 then 0
  else if str_mem (av_unit v) ["gb"; "gib"] then u64 (av_value v * 1024 * 1024 * 1024)
  else if str_mem (av_unit v) ["kb"; "kib"] then u64 (av_value v * 1024)
  else if str_mem (av_unit v) ["b"; "bytes"] then av_value v
  else u64 (av_value v * mib).

Definition amd_device (g : amdGPU) : option Device :=
  let name := TrimSpace (ag_market_name g) in
  let total := amdVRAMToBytes (ag_vram g) in
  if String.eqb name "" && (total =? 0) then None else Some (mkDevice name total 0 0).

Definition parseAmdSMI (out : string) : result (list Device) :=
  let trimmed := TrimSpace out in
  if String.eqb trimmed "" then Err (ENew "gpu: empty amd-smi output")
  else match parse_json trimmed with
       | None => Err (ENew "gpu: parse amd-smi json: syntax")
       | Some j =>
           let '(gpus, bad) := dec_slice (mkAmdGPU "" (mkAmdVRAM 0 "")) dec_amdGPU j in
           if bad then Err (ENew "gpu: parse amd-smi json: kind") else Ok (omap amd_device gpus)
       end.

Definition detectAMD (run : Runner) : result (list Device) :=
  let rocm := match run "rocm-smi" ["--showproductname"; "--showmeminfo"; "vram"; "--showuse"; "--json"] with
              | Err e => Err e
              | Ok rout => parseRocmSMI rout
              end in
  match run "amd-smi" ["static"; "--json"] with
  | Ok out =>
      match parseAmdSMI out with
      | Ok (d :: devices) => Ok (d :: devices)
      | _ => rocm
      end
  | Err _ => rocm
  end.

(** ** Apple *)

Record spDisplay := mkDisplay { sp_model : string; sp_name : string; sp_vram : string; sp_vram_shared : string }.
Definition dec_spDisplay : decoder spDisplay :=
  let ignored : decoder spDisplay := λ d j, (d, (dec_string "" j).2) in
  dec_struct
    [("sppci_model", λ d j, let '(s, b) := dec_string (sp_model d) j in (mkDisplay s (sp_name d) (sp_vram d) (sp_vram_shared d), b));
     ("_name", λ d j, let '(s, b) := dec_string (sp_name d) j in (mkDisplay (sp_model d) s (sp_vram d) (sp_vram_shared d), b));
     ("spdisplays_vram", λ d j, let '(s, b) := dec_string (sp_vram d) j in (mkDisplay (sp_model d) (sp_name d) s (sp_vram_shared d), b));
     ("spdisplays_vram_shared", λ d j, let '(s, b) := dec_string (sp_vram_shared d) j in (mkDisplay (sp_model d) (sp_name d) (sp_vram d) s, b));
     ("sppci_cores", ignored); ("spdisplays_mtlgpufamilysupport", ignored)].

Definition parseAppleVRAM (s : string) : option Z :=
  match Fields (TrimSpace s) with
  | [v; unit] =>
      match ParseUint v with
      | None => None
      | Some value =>
          let u := ToUpper unit in
          if str_mem u ["GB"; "GIB"] then Some (u64 (value * 1024 * 1024 * 1024))
          else if str_mem u ["MB"; "MIB"] then Some (u64 (value * mib))
          else if str_mem u ["KB"; "KIB"] then Some (u64 (value * 1024))
          else None
      end
  | _ => None
  end.

(** The device of an entry, if it has one, and whether it lacks a memory figure. *)
Definition display_device (d : spDisplay) : option Device * bool :=
  let name := TrimSpace (sp_model d) in
  let name := if String.eqb name "" then TrimSpace (sp_name d) else name in
  let vramStr := if String.eqb (TrimSpace (sp_vram d)) "" then sp_vram_shared d else sp_vram d in
  let '(total, need) := match parseAppleVRAM vramStr with Some bytes => (bytes, false) | None => (0, true) end in
  (if String.eqb name "" && (total =? 0) then None else Some (mkDevice name total total 0), need).

Definition parseSystemProfiler (out : string) : result (list Device * bool) :=
  let trimmed := TrimSpace out in
  if String.eqb trimmed "" then Err (ENew "gpu: empty system_profiler output")
  else match parse_json trimmed with
       | None => Err (ENew "gpu: parse system_profiler json: syntax")
       | Some j =>
           let '(displays, bad) :=
             dec_struct [("SPDisplaysDataType", λ _ j, dec_slice (mkDisplay "" "" "" "") dec_spDisplay j)] [] j in
           if bad then Err (ENew "gpu: parse system_profiler json: kind")
           else Ok (omap (λ d, (display_device d).1) displays, existsb (λ d, (display_device d).2) displays)
       end.

Definition parseMemsize (out : string) : result Z :=
  let s := TrimSpace out in
  if String.eqb s "" then Err (ENew "gpu: empty hw.memsize output") else parseUint quote s.

Definition appleUnifiedMemory (run : Runner) : Z :=
  match run "sysctl" ["-n"; "hw.memsize"] with
  | Err _ => 0
  | Ok out => match parseMemsize out with Ok mem => mem | Err _ => 0 end
  end.

Definition fill_memory (mem : Z) (d : Device) : Device :=
  if Device_TotalVRAM d =? 0 then mkDevice (Device_Name d) mem mem (Device_Load d) else d.

Definition detectApple (run : Runner) : result (list Device) :=
  match run "system_profiler" ["SPDisplaysDataType"; "-json"] with
  | Err e => Err e
  | Ok out =>
      match parseSystemProfiler out with
      | Err e => Err e
      | Ok (devices, needMem) =>
          if needMem then
            let memBytes := appleUnifiedMemory run in
            if 0 <? memBytes then Ok (map (fill_memory memBytes) devices) else Ok devices
          else Ok devices
      end
  end.

(** ** The detector *)

Definition probes (goos : string) (run : Runner) : list (result (list Device)) :=
  if String.eqb goos "linux" then [detectNVIDIA run; detectAMD run]
  else if String.eqb goos "windows" then [detectNVIDIA run]
  else if String.eqb goos "darwin" then [detectApple run]
  else [].

Definition detect_host (goos : string) (run : Runner) : Capacity := Detect (probes goos run).
End tools.


(** ** White space and ASCII text *)

Definition sp (b : Z) : bool := ((9 <=? b) && (b <=? 13)) || (b =? 32).
Definition ascii7 (b : Z) : Prop := 0 <= b < 128.

Lemma space_len_ascii b l : ascii7 b → space_len (b :: l) = if sp b then 1%nat else 0%nat.
Proof.
  unfold ascii7, sp. intros Hb. cbn [space_len]. destruct (_ || _); [done|].
  repeat match goal with |- context [b =? ?n] => destruct (Z.eqb_spec b n) as [->|]; [lia|] end.
  cbn. by repeat case_match.
Qed.

(** ASCII text that neither starts nor ends with white space. *)
Definition tidy (l : bytes) : Prop :=
  Forall ascii7 l ∧ (∃ b r, l = b :: r ∧ sp b = false) ∧ (∃ b r, l = r ++ [b] ∧ sp b = false).

Lemma kept_len_tidy r : ∀ b i, Forall ascii7 (r ++ [b]) → sp b = false →
  kept_len 0 i (r ++ [b]) = (i + S (length r))%nat.
Proof.
  induction r as [|x r IH]; intros b i Ha Hb; cbn [app kept_len]; inversion Ha as [|?? H1 H2]; subst.
  - rewrite space_len_ascii, Hb by done. cbn. lia.
  - rewrite space_len_ascii by done. destruct (sp x); rewrite IH by done; cbn [length]; lia.
Qed.

Lemma TrimSpace_tidy s : tidy (bytes_of_string s) → TrimSpace s = s.
Proof.
  intros (Ha & (b & r & E & Hb) & (b' & r' & E' & Hb')). unfold TrimSpace.
  assert (trim_left 0 (bytes_of_string s) = bytes_of_string s) as ->.
  { rewrite E in Ha |- *. cbn [trim_left]. inversion Ha; subst. by rewrite space_len_ascii, Hb. }
  rewrite E' in Ha |- *. rewrite kept_len_tidy by done. rewrite take_ge by (rewrite length_app; cbn; lia).
  rewrite <- E'. apply string_of_bytes_of.
Qed.

Lemma TrimSpace_space s : TrimSpace (" " +:+ s) = TrimSpace s.
Proof. reflexivity. Qed.

Lemma tidy_app l m n : tidy l → Forall ascii7 m → tidy n → tidy (l ++ m ++ n).
Proof.
  intros (A1 & (b & r & -> & Hb) & _) Am (A2 & _ & (b' & r' & -> & Hb')). split; [rewrite !Forall_app in *; tauto|].
  split; [by exists b, (r ++ m ++ r' ++ [b'])|]. exists b', ((b :: r) ++ m ++ r'). split; [|done]. by rewrite <- !app_assoc.
Qed.

Lemma digits_tidy l : Forall digit7 l → l ≠ [] → tidy l.
Proof.
  intros Hd Hne. assert (Hs : ∀ b, digit7 b → sp b = false) by (unfold digit7, sp; intros; lia).
  split; [eapply Forall_impl; [exact Hd|unfold digit7, ascii7; lia]|]. split.
  - destruct l as [|b r]; [done|]. inversion Hd; subst. eauto.
  - destruct (exists_last Hne) as (r & b & ->). exists b, r. split; [done|]. apply Forall_app in Hd as [_ Hd]. inversion Hd; subst. auto.
Qed.
Lemma tidy_Itoa n : 0 <= n → tidy (bytes_of_string (Itoa n)).
Proof. intros [H1 H2]%Itoa_digits. by apply digits_tidy. Qed.

Lemma no_sep_bytes sep s : Forall (λ b, b ≠ Z.of_N (N_of_ascii sep)) (bytes_of_string s) → no_sep sep s.
Proof.
  induction s as [|a s IH]; cbn; [done|]. inversion 1; subst. split; [|by apply IH]. intros ->. done.
Qed.
Lemma no_sep_Itoa sep n : 0 <= n → ~ digit7 (Z.of_N (N_of_ascii sep)) → no_sep sep (Itoa n).
Proof.
  intros [H _]%Itoa_digits Hs. apply no_sep_bytes. eapply Forall_impl; [exact H|]. cbn. intros b Hb ->. done.
Qed.

(** ** nvidia-smi's table, read back *)

(** A device as nvidia-smi reports it, and its line of the table. *)
Record smi := mkSmi { smi_name : string; smi_total : Z; smi_free : Z; smi_util : option Z }.
Definition smi_field (util : option Z) : string := match util with Some u => Itoa u | None => "[N/A]" end.
Definition smi_line (r : smi) : string :=
  smi_name r +:+ ", " +:+ Itoa (smi_total r) +:+ ", " +:+ Itoa (smi_free r) +:+ ", " +:+ smi_field (smi_util r).
Fixpoint smi_table (rs : list smi) : string :=
  match rs with [] => "" | r :: rs => smi_line r +:+ String newline (smi_table rs) end.

(** Names are ASCII text without comma and line break; the memory in bytes fits 64 bits. *)
Definition smi_ok (r : smi) : Prop :=
  tidy (bytes_of_string (smi_name r)) ∧ no_sep "," (smi_name r) ∧ no_sep newline (smi_name r) ∧
  0 <= smi_total r < 2 ^ 44 ∧ 0 <= smi_free r < 2 ^ 44 ∧ (∀ u, smi_util r = Some u → 0 <= u <= 100).
Definition smi_device (r : smi) : Device :=
  mkDevice (smi_name r) (smi_total r * mib) (smi_free r * mib) (default 0 (smi_util r)).

Section nvidia.
Context (quote : string → string).

Lemma parse_field n : is_u64 n → parseUintField quote (" " +:+ Itoa n) = Ok n.
Proof.
  intros Hn. unfold parseUintField, parseUint. rewrite TrimSpace_space, TrimSpace_tidy by (apply tidy_Itoa; unfold is_u64 in Hn; lia).
  by rewrite ParseUint_Itoa.
Qed.

Lemma smi_field_tidy r : smi_ok r → tidy (bytes_of_string (smi_field (smi_util r))).
Proof.
  intros (_ & _ & _ & _ & _ & H). destruct (smi_util r) as [u|]; cbn [smi_field].
  - apply tidy_Itoa. specialize (H u eq_refl). lia.
  - split; [cbn; repeat (constructor; [unfold ascii7; lia|]); constructor|]. split; [by exists 91, [78; 47; 65; 93]|by exists 93, [91; 78; 47; 65]].
Qed.
Lemma smi_field_sep sep r : smi_ok r → sep = ","%char ∨ sep = newline → no_sep sep (smi_field (smi_util r)).
Proof.
  intros (_ & _ & _ & _ & _ & H) Hs. destruct (smi_util r) as [u|]; cbn [smi_field].
  - specialize (H u eq_refl). apply no_sep_Itoa; [lia|]. unfold digit7. destruct Hs as [-> | ->]; cbn; lia.
  - destruct Hs as [-> | ->]; cbn; repeat split; discriminate.
Qed.

Lemma smi_line_tidy r : smi_ok r → tidy (bytes_of_string (smi_line r)).
Proof.
  intros Hr. pose proof (smi_field_tidy r Hr). destruct Hr as (H1 & _ & _ & H2 & H3 & _). unfold smi_line.
  assert (Hsep : Forall ascii7 (bytes_of_string ", ")) by (cbn; repeat (constructor; [unfold ascii7; lia|]); constructor).
  rewrite !bytes_of_string_app. do 3 (apply tidy_app; [first [done|apply tidy_Itoa; lia]|done|]). done.
Qed.
Lemma smi_line_sep r : smi_ok r → no_sep newline (smi_line r).
Proof.
  intros Hr. pose proof (smi_field_sep newline r Hr (or_intror eq_refl)). destruct Hr as (_ & _ & H1 & H2 & H3 & _).
  unfold smi_line. assert (no_sep newline ", ") by (cbn; repeat split; discriminate).
  repeat (apply no_sep_append; [first [done|apply no_sep_Itoa; [lia|unfold digit7; cbn; lia]]|]). done.
Qed.

Lemma smi_line_fields r : smi_ok r →
  Split (smi_line r) "," = [smi_name r; " " +:+ Itoa (smi_total r); " " +:+ Itoa (smi_free r); " " +:+ smi_field (smi_util r)].
Proof.
  intros Hr. pose proof (smi_field_sep ","%char r Hr (or_introl eq_refl)) as Hu. destruct Hr as (_ & H1 & _ & H2 & H3 & _).
  unfold smi_line. change (", " +:+ ?x) with (String "," (" " +:+ x)).
  rewrite Split_app by done. f_equal.
  assert (Hd : ∀ n, 0 <= n → no_sep "," (" " +:+ Itoa n)).
  { intros n Hn. split; [discriminate|]. apply no_sep_Itoa; [done|unfold digit7; cbn; lia]. }
  etransitivity; [apply (Split_app _ (" " +:+ Itoa (smi_total r))), Hd; lia|]. f_equal.
  etransitivity; [apply (Split_app _ (" " +:+ Itoa (smi_free r))), Hd; lia|]. f_equal. apply Split_none. by split.
Qed.

Lemma nvidia_line_spec r : smi_ok r → nvidia_line quote (smi_line r) = Ok (smi_device r).
Proof.
  intros Hr. unfold nvidia_line. rewrite smi_line_fields by done. destruct Hr as (H1 & _ & _ & H2 & H3 & H4).
  rewrite TrimSpace_tidy, !parse_field by (done || unfold is_u64; lia). unfold smi_device, mib.
  rewrite !u64_id by (unfold is_u64; lia). do 2 f_equal. destruct (smi_util r) as [u|]; cbn [smi_field default].
  - specialize (H4 u eq_refl). rewrite parse_field by (unfold is_u64; lia). unfold clamp100. destruct (Z.ltb_spec 100 u); [lia|done].
  - reflexivity.
Qed.

Lemma nvidia_loop_spec rs : Forall smi_ok rs → ∀ acc,
  nvidia_loop quote (Split (smi_table rs) newline) acc = Ok (acc ++ map smi_device rs).
Proof.
  induction 1 as [|r rs Hr _ IH]; intros acc; cbn [smi_table map].
  - cbn. by rewrite app_nil_r.
  - rewrite Split_app by (by apply smi_line_sep). cbn [nvidia_loop]. pose proof (smi_line_tidy r Hr) as Ht.
    rewrite TrimSpace_tidy, nvidia_line_spec by done. destruct (String.eqb_spec (smi_line r) "") as [E|_].
    + rewrite E in Ht. destruct Ht as (_ & (? & ? & [=] & _) & _).
    + rewrite IH. by rewrite <- app_assoc.
Qed.

(** C35: The table of any list of devices, one line each, is read back as those devices:
    names verbatim, memory converted from MiB to bytes without wrapping, a missing
    utilization as load 0. *)
Theorem nvidia_roundtrip rs : Forall smi_ok rs → parseNvidiaSMI quote (smi_table rs) = Ok (map smi_device rs).
Proof. intros H. unfold parseNvidiaSMI. by rewrite nvidia_loop_spec. Qed.
End nvidia.

Definition demo_smi : list smi := [mkSmi "NVIDIA GeForce RTX 4090" 24564 20000 (Some 7); mkSmi "Tesla T4" 15360 15000 None].
Lemma nvidia_roundtrip_witness :
  parseNvidiaSMI id ("NVIDIA GeForce RTX 4090, 24564, 20000, 7" +:+ String newline ("Tesla T4, 15360, 15000, [N/A]" +:+ String newline "")) =
  Ok [mkDevice "NVIDIA GeForce RTX 4090" 25757220864 20971520000 7; mkDevice "Tesla T4" 16106127360 15728640000 0].
Proof.
  apply (nvidia_roundtrip id demo_smi).
  apply Forall_cons_2; [|apply Forall_cons_2; [|apply Forall_nil_2]].
  all: split; [split; [cbn; repeat (constructor; [unfold ascii7; lia|]); constructor|]|].
  all: try (split; [eexists _, _; by split|]).
  all: try (split; [cbn; repeat split; discriminate|]); try (split; [cbn; repeat split; discriminate|]).
  all: try (cbn; split; [lia|split; [lia|]]; intros u [= <-]; lia).
  - eexists _, (bytes_of_string "NVIDIA GeForce RTX 409"). by split.
  - eexists _, (bytes_of_string "Tesla T"). by split.
Defined.

(** ** What the detector reports is always in range *)

Definition device_ok (d : Device) : Prop :=
  is_u64 (Device_TotalVRAM d) ∧ is_u64 (Device_FreeVRAM d) ∧ 0 <= Device_Load d <= 100.
Definition devices_ok (r : result (list Device)) : Prop := match r with Ok ds => Forall device_ok ds | Err _ => True end.
Definition capacity_ok (c : Capacity) : Prop :=
  is_u64 (Cap_TotalVRAM c) ∧ is_u64 (Cap_FreeVRAM c) ∧ 0 <= Cap_Load c <= 100 ∧ Cap_Type c ≠ "".

Lemma clamp100_range n : 0 <= n → 0 <= clamp100 n <= 100.
Proof. unfold clamp100. destruct (Z.ltb_spec 100 n); lia. Qed.
Lemma parseUint_range quote s n : parseUint quote s = Ok n → is_u64 n.
Proof. unfold parseUint. destruct (ParseUint s) eqn:E; [|done]. intros [= <-]. by eapply ParseUint_range. Qed.
Lemma u64_0 : is_u64 0.
Proof. unfold is_u64. lia. Qed.
#[export] Hint Resolve clamp100_range parseUint_range u64_0 u64_range : agpu.

Section wellformed.
Context (quote : string → string) (parse_json : string → option json) (range : gmap string string → list (string * string)).

Lemma nvidia_line_ok line d : nvidia_line quote line = Ok d → device_ok d.
Proof.
  unfold nvidia_line. destruct (Split line ",") as [|f0 [|f1 [|f2 rest]]]; try done.
  destruct (parseUintField quote f1); [|done]. destruct (parseUintField quote f2); [|done]. intros [= <-].
  split; [apply u64_range|split; [apply u64_range|]]. cbn. destruct rest as [|f3 ?]; [lia|].
  destruct (parseUintField quote f3) eqn:E; [|lia]. apply parseUint_range in E. unfold is_u64 in E. apply clamp100_range. lia.
Qed.
Lemma nvidia_loop_ok lines : ∀ acc, Forall device_ok acc → devices_ok (nvidia_loop quote lines acc).
Proof.
  induction lines as [|raw lines IH]; intros acc Ha; cbn [nvidia_loop]; [done|]. case_match; [by apply IH|].
  destruct (nvidia_line quote (TrimSpace raw)) eqn:E; [|done]. apply IH. apply Forall_app_2; [done|]. constructor; [|done]. by eapply nvidia_line_ok.
Qed.

Lemma rocm_uint_range entry sub n : rocmUintBySubstr range entry sub = Some n → is_u64 n.
Proof. unfold rocmUintBySubstr. destruct (rocmStrBySubstr range entry sub); [|done]. apply ParseUint_range. Qed.
Lemma rocm_card_ok entry d : rocm_card range entry = Some d → device_ok d.
Proof.
  unfold rocm_card. case_match; [done|]. intros [= <-]. unfold device_ok, is_u64; cbn.
  destruct (rocmUintBySubstr range entry "vram total memory") as [t|] eqn:Et;
    destruct (rocmUintBySubstr range entry "vram total used memory") as [u|] eqn:Eu;
    destruct (rocmUintBySubstr range entry "gpu use") as [l|] eqn:El; cbn;
    repeat match goal with H : rocmUintBySubstr _ _ _ = Some _ |- _ => apply rocm_uint_range in H; unfold is_u64 in H end;
    try (pose proof (clamp100_range l ltac:(lia))); try (destruct (Z.leb_spec u t)); lia.
Qed.

Lemma quantity_range raw n unit : amdDecodeQuantity raw = Some (n, unit) → is_u64 n.
Proof.
  unfold amdDecodeQuantity. destruct (dec_uint64 0 raw) as [m [|]] eqn:E.
  - match goal with |- context [dec_struct ?f ?z raw] => pose proof (dec_struct_keeps (λ q : Z * string, is_u64 q.1) f) as H;
      destruct (dec_struct f z raw) as [[k u] [|]] eqn:Es end; [done|].
    destruct (0 <? k); [|done]. intros [= <- _]. ospecialize (H _ (0, "") raw _); [|exact u64_0|by rewrite Es in H].
    apply Forall_cons_2; [|apply Forall_cons_2; [|apply Forall_nil_2]]; intros [a b] j Ha; cbn [fst snd].
    + pose proof (dec_uint64_keeps a j Ha). by destruct (dec_uint64 a j).
    + by destruct (dec_string b j).
  - intros [= <- _]. pose proof (dec_uint64_keeps 0 raw u64_0) as H. by rewrite E in H.
Qed.
Lemma bytes_range v : is_u64 (av_value v) → is_u64 (amdVRAMToBytes v).
Proof. unfold amdVRAMToBytes. intros. repeat case_match; auto using u64_range, u64_0. Qed.
Lemma vram_loop_range obj keys v : is_u64 (av_value v) → is_u64 (av_value (vram_loop obj keys v)).
Proof.
  intros Hv. induction keys as [|k keys IH]; cbn [vram_loop]; [done|]. destruct (obj !! k) as [raw|]; [|done].
  destruct (amdDecodeQuantity raw) as [[n u]|] eqn:E; [|done]. by eapply quantity_range.
Qed.
Lemma dec_amdGPU_range : keeps (λ g, is_u64 (av_value (ag_vram g))) dec_amdGPU.
Proof.
  apply dec_struct_keeps. apply Forall_cons_2; [|apply Forall_cons_2; [|apply Forall_nil_2]]; intros g j Hg; cbn [fst snd].
  - by destruct (dec_struct _ _ j).
  - destruct j; try done. cbn -[vram_loop]. by apply vram_loop_range.
Qed.
Lemma omap_ok {A} (f : A → option Device) (P : A → Prop) l :
  (∀ a d, P a → f a = Some d → device_ok d) → Forall P l → Forall device_ok (omap f l).
Proof.
  intros Hf. induction 1 as [|a l Ha _ IH]; cbn; [done|]. destruct (f a) eqn:E; [|done]. constructor; [by eapply Hf|done].
Qed.

Lemma parseAmdSMI_ok out : devices_ok (parseAmdSMI parse_json out).
Proof.
  unfold parseAmdSMI. case_match; [done|]. destruct (parse_json _) as [j|]; [|done].
  pose proof (dec_slice_keeps _ (mkAmdGPU "" (mkAmdVRAM 0 "")) dec_amdGPU j u64_0 dec_amdGPU_range) as Hk.
  destruct (dec_slice _ dec_amdGPU j) as [gpus [|]]; [done|]. cbn in *. eapply omap_ok; [|exact Hk]. cbn. intros g d Hg.
  unfold amd_device. case_match; [done|]. intros [= <-]. split; [by apply bytes_range|]. split; [apply u64_0|cbn; lia].
Qed.
Lemma parseRocmSMI_ok out : devices_ok (parseRocmSMI parse_json range out).
Proof.
  unfold parseRocmSMI. case_match; [done|]. destruct (parse_json _) as [j|]; [|done].
  destruct (dec_map _ _ j) as [raw [|]]; [done|]. cbn. eapply (omap_ok _ (λ _, True)); [|by apply Forall_true].
  cbn. intros id d _. destruct (is_card id); [|done]. apply rocm_card_ok.
Qed.
Lemma detectAMD_ok run : devices_ok (detectAMD parse_json range run).
Proof.
  unfold detectAMD. set (rocm := match run "rocm-smi" _ with Err _ => _ | Ok _ => _ end).
  assert (devices_ok rocm) by (subst rocm; destruct (run "rocm-smi" _); [apply parseRocmSMI_ok|done]).
  destruct (run "amd-smi" _) as [out|]; [|done]. pose proof (parseAmdSMI_ok out) as Ha.
  by destruct (parseAmdSMI parse_json out) as [[|]|].
Qed.

Lemma apple_vram_range s n : parseAppleVRAM s = Some n → is_u64 n.
Proof.
  unfold parseAppleVRAM. destruct (Fields _) as [|v [|u [|]]]; try done. destruct (ParseUint v); [|done].
  repeat (case_match; [intros [= <-]; apply u64_range|]). done.
Qed.
Lemma parseSystemProfiler_ok out ds need : parseSystemProfiler parse_json out = Ok (ds, need) → Forall device_ok ds.
Proof.
  unfold parseSystemProfiler. case_match; [done|]. destruct (parse_json _) as [j|]; [|done].
  destruct (dec_struct _ [] j) as [displays [|]]; [done|]. intros [= <- _].
  eapply (omap_ok _ (λ _, True)); [|by apply Forall_true]. cbn. intros d dev _. unfold display_device.
  match goal with |- context [parseAppleVRAM ?s] => destruct (parseAppleVRAM s) as [n|] eqn:E end; cbn [fst];
    (match goal with |- (if ?b then _ else _) = _ → _ => destruct b end); try done; intros [= <-].
  - apply apple_vram_range in E. split_and!; cbn; auto; lia.
  - split_and!; cbn; try apply u64_0; lia.
Qed.
Lemma detectApple_ok run : devices_ok (detectApple quote parse_json run).
Proof.
  unfold detectApple. destruct (run "system_profiler" _) as [out|]; [|done].
  destruct (parseSystemProfiler parse_json out) as [[ds need]|] eqn:E; [|done]. apply parseSystemProfiler_ok in E.
  destruct need; [|done]. destruct (Z.ltb_spec 0 (appleUnifiedMemory quote run)); [|done].
  assert (is_u64 (appleUnifiedMemory quote run)) as Hm.
  { unfold appleUnifiedMemory. destruct (run "sysctl" _); [|apply u64_0]. destruct (parseMemsize quote _) eqn:Em; [|apply u64_0].
    unfold parseMemsize in Em. case_match; [done|]. by eapply parseUint_range. }
  cbn. apply Forall_fmap. eapply Forall_impl; [exact E|]. cbn. intros d (H1 & H2 & H3). unfold fill_memory.
  destruct (_ =? 0); [|done]. split; [exact Hm|]. split; [exact Hm|exact H3].
Qed.

Lemma probes_ok goos run : Forall devices_ok (probes quote parse_json range goos run).
Proof.
  unfold probes. repeat case_match; repeat (apply Forall_cons_2; [|]); try apply Forall_nil_2;
    first [apply detectAMD_ok|apply detectApple_ok|unfold detectNVIDIA; destruct (run _ _); [by apply nvidia_loop_ok|done]].
Qed.
End wellformed.

(** *** The aggregate of devices in range is in range, with a type that is not empty *)

Lemma count_name_inv devices : ∀ acc,
  Forall (λ n, n ≠ "") acc.2 → Forall (λ n, n ≠ "") (fold_left count_name devices acc).2 ∧
  (length acc.2 ≤ length (fold_left count_name devices acc).2)%nat ∧
  (devices ≠ [] → acc.2 = [] → acc.1 = ∅ → (fold_left count_name devices acc).2 ≠ []).
Proof.
  induction devices as [|d ds IH]; intros [counts order] Ha; [done|]. cbn [fold_left]. set (acc := count_name (counts, order) d).
  assert (Hn : Forall (λ n, n ≠ "") acc.2 ∧ (length order ≤ length acc.2)%nat ∧ (order = [] → counts = ∅ → acc.2 ≠ [])).
  { subst acc. unfold count_name. destruct (String.eqb_spec (Http.TrimSpace (Device_Name d)) "") as [E|E]; cbn [fst snd];
      (match goal with |- context [counts !! ?n] => destruct (counts !! n) eqn:En end);
      (split; [first [done|apply Forall_app_2; [done|]; by repeat constructor]|split; [rewrite ?length_app; cbn; lia|]]);
      intros -> ->; first [by rewrite lookup_empty in En|done]. }
  destruct Hn as (H1 & H2 & H3). destruct (IH acc H1) as (K1 & K2 & _). split; [done|]. cbn [fst snd] in *. split; [exact (Nat.le_trans _ _ _ H2 K2)|].
  intros _ E1 E2 E3. rewrite E3 in K2. apply (H3 E1 E2). apply nil_length_inv. cbn [length] in K2. lia.
Qed.

Lemma combineNames_nonempty devices : combineNames devices ≠ "".
Proof.
  destruct devices as [|d ds]; [done|]. unfold combineNames.
  destruct (count_name_inv (d :: ds) (∅, [])) as (H1 & _ & H2); [apply Forall_nil_2|].
  destruct (fold_left count_name (d :: ds) (∅, [])) as [counts order]. cbn in H1, H2.
  assert (Hc : ∀ n s, counted n s ≠ "").
  { intros n s. unfold counted, Itoa. destruct (Z.ltb_spec n 0); [done|]. intros E.
    destruct (itoa_loop_head 20 n "") as (c & u & _ & E'); [lia|]. by rewrite E' in E. }
  destruct order as [|name [|name' rest]]; [by destruct H2|..].
  - inversion H1; subst. destruct (_ =? 1); [done|apply Hc].
  - assert (Hl : length (sort_Strings (name :: name' :: rest)) = S (S (length rest))).
    { by rewrite (Permutation_length (sort_Strings_Permutation _)). }
    destruct (sort_Strings _) as [|x [|y l]]; try done. cbn [map Join].
    pose proof (Hc (default 0 (counts !! x)) x). by destruct (counted _ x).
Qed.

Lemma aggregate_ok devices : Forall device_ok devices → capacity_ok (aggregate devices).
Proof.
  intros H. pose proof (combineNames_nonempty devices) as Hn. unfold aggregate. destruct devices as [|d ds].
  - split; [|split; [|split]]; [exact u64_0|exact u64_0|cbn; lia|done].
  - set (n := Z.of_nat (length (d :: ds))) in *. assert (1 <= n) by (unfold n; cbn [length]; lia).
    match goal with |- context [fold_left ?f _ _] => set (step := f) end.
    assert (∀ l acc, Forall device_ok l → is_u64 acc.1.1 → is_u64 acc.1.2 → is_u64 acc.2 →
      is_u64 (fold_left step l acc).1.1 ∧ is_u64 (fold_left step l acc).1.2 ∧ is_u64 (fold_left step l acc).2) as Hf.
    { clear. induction l as [|x l IH]; intros [[t f] s] Hl H1 H2 H3; [done|]. cbn [fold_left]. inversion Hl; subst.
      apply IH; [done|apply u64_range..]. }
    destruct (Hf (d :: ds) (0, 0, 0) H u64_0 u64_0 u64_0) as (H1 & H2 & H3).
    destruct (fold_left step (d :: ds) (0, 0, 0)) as [[t f] s]. cbn [fst snd] in *.
    split; [exact H1|split; [exact H2|split; [|exact Hn]]]. cbn [Cap_Load].
    pose proof (u64_range (s + Z.quot n 2)) as [Hu _].
    assert (0 <= Z.quot (u64 (s + Z.quot n 2)) n) by (apply Z.quot_pos; lia).
    destruct (Z.ltb_spec 100 (Z.quot (u64 (s + Z.quot n 2)) n)); unfold u32; rewrite Z.mod_small; lia.
Qed.

(** Whatever the vendor tools print, on every operating system, the capacity the
    worker announces is usable: the memory figures fit their 64-bit fields, the load
    is a percentage and the type is not empty. *)
Theorem detect_host_wf quote parse_json range goos run :
  capacity_ok (detect_host quote parse_json range goos run).
Proof.
  unfold detect_host. pose proof (probes_ok quote parse_json range goos run) as H.
  induction H as [|r l Hr _ IH]; cbn [Detect].
  - split; [|split; [|split]]; [exact u64_0|exact u64_0|cbn; lia|done].
  - destruct r as [[|d ds]|e]; [exact IH|exact (aggregate_ok (d :: ds) Hr)|exact IH].
Qed.

(** ** amd-smi hides what rocm-smi knows *)

Lemma amd_free parse_json out ds : parseAmdSMI parse_json out = Ok ds → Forall (λ d, Device_FreeVRAM d = 0 ∧ Device_Load d = 0) ds.
Proof.
  unfold parseAmdSMI. case_match; [done|]. destruct (parse_json _) as [j|]; [|done].
  destruct (dec_slice _ dec_amdGPU j) as [gpus [|]]; [done|]. intros [= <-].
  induction gpus as [|g gpus IH]; cbn; [done|]. unfold amd_device at 1. destruct (_ && _); [exact IH|by constructor].
Qed.

Lemma aggregate_idle devices : Forall (λ d, Device_FreeVRAM d = 0 ∧ Device_Load d = 0) devices →
  Cap_FreeVRAM (aggregate devices) = 0.
Proof.
  intros H. unfold aggregate. destruct devices as [|d ds]; [done|]. match goal with |- context [fold_left ?f _ _] => set (step := f) end.
  assert (∀ l acc, Forall (λ d, Device_FreeVRAM d = 0 ∧ Device_Load d = 0) l → acc.1.2 = 0 → (fold_left step l acc).1.2 = 0) as Hf.
  { clear. induction l as [|x l IH]; intros [[t f] s] Hl Hz; [done|]. cbn [fold_left]. inversion Hl as [|?? [E _] ?]; subst.
    apply IH; [done|]. cbn in *. rewrite Hz, E. done. }
  specialize (Hf (d :: ds) (0, 0, 0) H eq_refl). by destruct (fold_left step (d :: ds) (0, 0, 0)) as [[t f] s].
Qed.

(** On a Linux host without an NVIDIA device, when amd-smi reports at least one
    device, the worker announces no free memory, whatever rocm-smi would answer: a
    worker with that capacity is never chosen for a model it has not loaded. *)
Theorem amd_smi_hides_rocm quote parse_json range run out d ds w model :
  (detectNVIDIA quote run = Ok [] ∨ ∃ e, detectNVIDIA quote run = Err e) →
  run "amd-smi" ["static"; "--json"] = Ok out → parseAmdSMI parse_json out = Ok (d :: ds) →
  Worker_FreeVRAM w = Cap_FreeVRAM (detect_host quote parse_json range "linux" run) →
  hasModel w model = false →
  Worker_FreeVRAM w = 0 ∧ runnable w model = false.
Proof.
  intros Hn Ha Hp Hw Hm. assert (Worker_FreeVRAM w = 0) as Hz.
  { rewrite Hw. unfold detect_host, probes. cbn [String.eqb Ascii.eqb Bool.eqb]. unfold detectAMD. rewrite Ha, Hp.
    destruct Hn as [-> |[e ->]]; apply (aggregate_idle (d :: ds)), (amd_free parse_json out (d :: ds) Hp). }
  split; [done|]. unfold runnable. rewrite Hm, Hz. by destruct (negb _).
Qed.

(** ** The order of a JSON object's keys *)

Definition rocm_wanted : list string :=
  ["card series"; "card model"; "card vendor"; "gpu name"; "product name"; "vram total memory"; "vram total used memory"; "gpu use"].
(** No two keys of a card match one and the same wanted name. *)
Definition unambiguous (entry : gmap string string) : Prop :=
  ∀ sub k1 v1 k2 v2, sub ∈ rocm_wanted → entry !! k1 = Some v1 → entry !! k2 = Some v2 →
    Contains (ToLower k1) sub = true → Contains (ToLower k2) sub = true → k1 = k2.

Lemma str_by_substr_some l sub v : str_by_substr l sub = Some v →
  ∃ k x, (k, x) ∈ l ∧ Contains (ToLower k) sub = true ∧ TrimSpace x = v ∧ v ≠ "".
Proof.
  induction l as [|[k x] l IH]; cbn [str_by_substr]; [done|].
  assert (str_by_substr l sub = Some v → ∃ k' x', (k', x') ∈ (k, x) :: l ∧ Contains (ToLower k') sub = true ∧ TrimSpace x' = v ∧ v ≠ "") as H.
  { intros (k' & x' & ? & ?)%IH. exists k', x'. split; [by right|done]. }
  destruct (Contains (ToLower k) sub) eqn:E; [|exact H]. destruct (String.eqb_spec (TrimSpace x) "") as [_|Hne]; [exact H|].
  intros [= <-]. exists k, x. split; [by left|done].
Qed.
Lemma str_by_substr_none l sub k x : str_by_substr l sub = None → (k, x) ∈ l → Contains (ToLower k) sub = true → TrimSpace x = "".
Proof.
  induction l as [|[k' x'] l IH]; cbn [str_by_substr]; [by intros _ ?%elem_of_nil|].
  intros H [[= -> ->]|Hin]%elem_of_cons Hc.
  - rewrite Hc in H. by destruct (String.eqb_spec (TrimSpace x') "").
  - destruct (Contains (ToLower k') sub); [|by apply IH]. destruct (String.eqb_spec (TrimSpace x') ""); [by apply IH|done].
Qed.

Section order.
Context (r1 r2 : gmap string string → list (string * string)).
Context (H1 : ∀ m, r1 m ≡ₚ map_to_list m) (H2 : ∀ m, r2 m ≡ₚ map_to_list m).

Lemma rocmStr_order entry sub : unambiguous entry → sub ∈ rocm_wanted →
  str_by_substr (r1 entry) sub = str_by_substr (r2 entry) sub.
Proof.
  intros Hu Hs. assert (Hin : ∀ k x, (k, x) ∈ r1 entry ↔ (k, x) ∈ r2 entry) by (intros; by rewrite H1, H2).
  assert (Hl : ∀ k x, (k, x) ∈ r1 entry → entry !! k = Some x) by (intros k x; rewrite H1; apply elem_of_map_to_list).
  destruct (str_by_substr (r1 entry) sub) as [v|] eqn:E1, (str_by_substr (r2 entry) sub) as [u|] eqn:E2; try done.
  - apply str_by_substr_some in E1 as (k & x & Hk & Hc & <- & _). apply str_by_substr_some in E2 as (k' & x' & Hk' & Hc' & <- & _).
    apply Hin in Hk'. apply Hl in Hk, Hk'. rewrite (Hu sub k x k' x') in Hk by done. rewrite Hk in Hk'. by injection Hk' as ->.
  - apply str_by_substr_some in E1 as (k & x & Hk & Hc & <- & Hne). apply Hin in Hk. by apply (str_by_substr_none _ _ _ _ E2) in Hk.
  - apply str_by_substr_some in E2 as (k & x & Hk & Hc & <- & Hne). apply Hin in Hk. by apply (str_by_substr_none _ _ _ _ E1) in Hk.
Qed.

(** A rocm-smi card whose keys are unambiguous gives one device, in whatever order
    the map of its keys is walked. *)
Theorem rocm_order_free entry : unambiguous entry → rocm_card r1 entry = rocm_card r2 entry.
Proof.
  intros Hu.
  assert (Hs : ∀ sub, ToLower sub = sub → sub ∈ rocm_wanted → rocmStrBySubstr r1 entry sub = rocmStrBySubstr r2 entry sub).
  { intros sub E Hin. unfold rocmStrBySubstr. rewrite E. by apply rocmStr_order. }
  assert (Hn : rocmName r1 entry = rocmName r2 entry).
  { unfold rocmName. cbn [name_loop]. rewrite !Hs by (done || set_solver). done. }
  unfold rocm_card, rocmUintBySubstr. rewrite Hn, !Hs by (done || set_solver). done.
Qed.
End order.

(** ** A host with both AMD tools *)

Definition demo_amd_doc : json :=
  JArr [JObj [("asic", JObj [("market_name", JText "Instinct MI210")]); ("vram", JObj [("size", JObj [("value", JUint 64); ("unit", JText "GB")])])]].
Definition demo_card : gmap string string :=
  list_to_map [("Card series", "Instinct MI210"); ("VRAM Total Memory (B)", "68702699520"); ("VRAM Total Used Memory (B)", "10747904"); ("GPU use (%)", "3")].
Definition demo_rocm_doc : json :=
  JObj [("system", JObj [("Driver version", JText "6")]);
        ("card0", JObj [("Card series", JText "Instinct MI210"); ("VRAM Total Memory (B)", JText "68702699520");
                        ("VRAM Total Used Memory (B)", JText "10747904"); ("GPU use (%)", JText "3")])].
Definition demo_parse (s : string) : option json :=
  if String.eqb s "amd" then Some demo_amd_doc else if String.eqb s "rocm" then Some demo_rocm_doc else None.
Definition demo_run : Runner := λ name _,
  if String.eqb name "amd-smi" then Ok "amd" else if String.eqb name "rocm-smi" then Ok "rocm" else Err (ENew "not found").
Definition in_order (m : gmap string string) : list (string * string) := map_to_list m.
Definition demo_worker : Worker := mkWorker "w1" [mkModel "llama3" "d1"] 0 0 0 0 0 "" WorkerOnline 0.

Example rocm_answer : parseRocmSMI demo_parse in_order "rocm" = Ok [mkDevice "Instinct MI210" 68702699520 68691951616 3].
Proof. vm_compute. reflexivity. Qed.
Example amd_answer : detect_host id demo_parse in_order "linux" demo_run = mkCapacity "Instinct MI210" 68719476736 0 0.
Proof. vm_compute. reflexivity. Qed.

Lemma amd_smi_hides_rocm_witness : Worker_FreeVRAM demo_worker = 0 ∧ runnable demo_worker "mistral" = false.
Proof.
  apply (amd_smi_hides_rocm id demo_parse in_order demo_run "amd" (mkDevice "Instinct MI210" 68719476736 0 0) []).
  - right. by eexists.
  - reflexivity.
  - vm_compute. reflexivity.
  - vm_compute. reflexivity.
  - reflexivity.
Defined.

Definition backwards (m : gmap string string) : list (string * string) := reverse (map_to_list m).
Lemma rocm_order_free_witness : rocm_card in_order demo_card = rocm_card backwards demo_card.
Proof.
  apply rocm_order_free.
  - done.
  - intros m. apply reverse_Permutation.
  - intros sub k1 v1 k2 v2 Hs Hk1 Hk2 Hc1 Hc2. apply elem_of_list_to_map_2 in Hk1, Hk2.
    unfold rocm_wanted in Hs. repeat (apply elem_of_cons in Hs as [->|Hs]); [..|by apply elem_of_nil in Hs].
    all: repeat (apply elem_of_cons in Hk1 as [[= -> ->]|Hk1]); try (by apply elem_of_nil in Hk1); try discriminate Hc1.
    all: repeat (apply elem_of_cons in Hk2 as [[= -> ->]|Hk2]); try (by apply elem_of_nil in Hk2); try discriminate Hc2; reflexivity.
Defined.
