(* ===== verification/LoadTest.v ===== *)
(** * LoadTest.v: the load generator (internal/loadtest)

    The request mix and its text form (mix.go), the aggregation of the results
    (metrics.go), the saturation poller (stats.go), the report's projection
    (report.go) and the closed-loop driver with its concurrent workers (driver.go).

    A worker's request is answered by the environment: no request could be built, no
    response came (with the state of the context), or a response with its status and
    its body, [None] when it is not JSON.  Quoting in messages is [quote]. *)

From Stdlib Require Import Ascii.
From S2P Require Import Prelude Errors GoTime GoFloat GoStrings GoConv GoText GoJson GoHeap GoSort Http WorkerNode GpuTools.
Open Scope Z_scope.

(** ** The mix *)

Definition EndpointChat : string := "chat".
Definition EndpointCompletions : string := "completions".
Definition EndpointModels : string := "models".
Definition validEndpoints : list string := [EndpointChat; EndpointCompletions; EndpointModels].
Definition ValidEndpoint (ep : string) : bool := str_mem ep validEndpoints.

Record MixEntry := mkEntry { ME_Endpoint : string; ME_Weight : Z }.
Record Mix := mkMix { Mix_entries : list MixEntry; Mix_total : Z }.
Definition SingleEndpointMix (ep : string) : Mix := mkMix [mkEntry ep 1] 1.

Definition entry_less (a b : MixEntry) : bool := String.ltb (ME_Endpoint a) (ME_Endpoint b).

Section mix.
Context (quote : string → string).

(** One entry of the specification: [None] for a blank one. *)
Definition mix_part (part : string) (seen : list MixEntry) : result (option MixEntry) :=
  let part := TrimSpace part in
  if String.eqb part "" then Ok None
  else
    match cut "=" part with
    | None => Err (ENew ("mix entry " +:+ quote part +:+ " is not name=weight"))
    | Some (name, weightStr) =>
        let ep := TrimSpace name in
        if negb (ValidEndpoint ep)
        then Err (ENew ("mix entry " +:+ quote part +:+ ": unknown endpoint " +:+ quote ep +:+ " (want chat|completions|models)"))
        else if existsb (λ e, String.eqb (ME_Endpoint e) ep) seen
        then Err (ENew ("mix entry " +:+ quote part +:+ ": endpoint " +:+ quote ep +:+ " listed twice"))
        else
          match Atoi (TrimSpace weightStr) with
          | None => Err (ENew ("mix entry " +:+ quote part +:+ ": weight " +:+ quote weightStr +:+ " is not an integer"))
          | Some weight =>
              if weight <=? 0 then Err (ENew ("mix entry " +:+ quote part +:+ ": weight must be positive"))
              else Ok (Some (mkEntry ep weight))
          end
    end.
Fixpoint mix_loop (parts : list string) (entries : list MixEntry) (total : Z) : result (list MixEntry * Z) :=
  match parts with
  | [] => Ok (entries, total)
  | part :: parts =>
      match mix_part part entries with
      | Err e => Err e
      | Ok None => mix_loop parts entries total
      | Ok (Some e) => mix_loop parts (entries ++ [e]) (i64 (total + ME_Weight e))
      end
  end.
Definition ParseMix (spec : string) : result Mix :=
  let spec := TrimSpace spec in
  if String.eqb spec "" then Err (ENew "empty mix spec")
  else
    match mix_loop (Split spec ",") [] 0 with
    | Err e => Err e
    | Ok ([], _) => Err (ENew "empty mix spec")
    | Ok (entries, total) => Ok (mkMix (SliceStable entry_less entries) total)
    end.
End mix.

Fixpoint pick_loop (entries : list MixEntry) (slot cum : Z) (last : string) : string :=
  match entries with
  | [] => last
  | e :: entries =>
      let cum := i64 (cum + ME_Weight e) in
      if slot <? cum then ME_Endpoint e else pick_loop entries slot cum (ME_Endpoint e)
  end.
Definition Pick (m : Mix) (i : Z) : string :=
  match Mix_entries m with
  | [] => EndpointChat
  | e :: _ =>
      if Mix_total m <=? 0 then ME_Endpoint e
      else
        let slot := Z.rem i (Mix_total m) in
        let slot := if slot <? 0 then slot + Mix_total m else slot in
        pick_loop (Mix_entries m) slot 0 ""
  end.
Definition entry_text (e : MixEntry) : string := ME_Endpoint e +:+ "=" +:+ Itoa (ME_Weight e).
Definition Mix_String (m : Mix) : string := Join (map entry_text (Mix_entries m)) ",".

(** ** Results and their summary *)

Record Result := mkResult { Res_Latency : Duration; Res_Status : Z; Res_Tokens : Z; Res_Err : option error }.
Inductive StatusBucket := StatusOK | StatusThrottled | StatusUnavailable | StatusError.
#[export] Instance StatusBucket_eq_dec : EqDecision StatusBucket.
Proof. solve_decision. Defined.
Definition bucketFor (status : Z) : StatusBucket :=
  if (200 <=? status) && (status <? 300) then StatusOK
  else if status =? 429 then StatusThrottled
  else if status =? 503 then StatusUnavailable
  else StatusError.

Record Percentiles := mkPercentiles {
  P_Count : Z; P_Min : Duration; P50 : Duration; P90 : Duration; P95 : Duration; P99 : Duration; P999 : Duration;
  P_Max : Duration; P_Mean : Duration }.
Definition Percentiles_zero : Percentiles := mkPercentiles 0 0 0 0 0 0 0 0 0.

(** The rank of the quantile [q], a constant in [0,1], among [n] values. *)
Definition rank (q : float) (n : Z) : Z :=
  let idx := fround (fmul q (float64 (n - 1))) in
  let idx := if idx <? 0 then 0 else idx in
  if n <=? idx then n - 1 else idx.
Definition percentile (sorted : list Duration) (q : float) : Duration :=
  match sorted with
  | [] => 0
  | _ => default 0 (sorted !! Z.to_nat (rank q (Z.of_nat (length sorted))))
  end.
Definition q50 : float := round64 1 2.
Definition q90 : float := round64 9 10.
Definition q95 : float := round64 95 100.
Definition q99 : float := round64 99 100.
Definition q999 : float := round64 999 1000.

Definition sort_durations (l : list Duration) : list Duration := merge_sort Z.le l.
Definition computePercentiles (latencies : list Duration) : Percentiles :=
  match latencies with
  | [] => Percentiles_zero
  | _ =>
      let sorted := sort_durations latencies in
      let n := Z.of_nat (length sorted) in
      let sum := fold_left (λ s d, i64 (s + d)) sorted 0 in
      mkPercentiles n (default 0 (sorted !! 0%nat)) (percentile sorted q50) (percentile sorted q90) (percentile sorted q95)
        (percentile sorted q99) (percentile sorted q999) (default 0 (sorted !! (length sorted - 1)%nat)) (Z.quot sum n)
  end.

Record Summary := mkSummary {
  Sm_Total : Z; Sm_Success : Z; Sm_Throttled : Z; Sm_Unavailable : Z; Sm_Errors : Z; Sm_Elapsed : Duration;
  Sm_Throughput : float; Sm_SuccessThroughput : float; Sm_TokensPerSec : float; Sm_TotalTokens : Z; Sm_ErrorRate : float;
  Sm_Latency : Percentiles; Sm_SuccessLatency : Percentiles }.

(** Success, throttled, unavailable, errors, tokens, all latencies, latencies of successes. *)
Definition tally : Type := Z * Z * Z * Z * Z * list Duration * list Duration.
Definition tally_add (t : tally) (r : Result) : tally :=
  let '(ok, th, un, er, tok, all, oks) := t in
  let all := all ++ [Res_Latency r] in
  match bucketFor (Res_Status r) with
  | StatusOK => (ok + 1, th, un, er, u64 (tok + Res_Tokens r), all, oks ++ [Res_Latency r])
  | StatusThrottled => (ok, th + 1, un, er, tok, all, oks)
  | StatusUnavailable => (ok, th, un + 1, er, tok, all, oks)
  | StatusError => (ok, th, un, er + 1, tok, all, oks)
  end.
Definition Summarize (results : list Result) (elapsed : Duration) : Summary :=
  let total := Z.of_nat (length results) in
  let '(ok, th, un, er, tok, all, oks) := fold_left tally_add results (0, 0, 0, 0, 0, [], []) in
  let per n := if 0 <? elapsed then fdiv (float64 n) (Seconds elapsed) else F 0 0 in
  mkSummary total ok th un er elapsed (per total) (per ok) (per tok) tok
    (if 0 <? total then fdiv (float64 (total - ok)) (float64 total) else F 0 0)
    (computePercentiles all) (computePercentiles oks).

(** ** The saturation poller *)

Record StatsSnapshot := mkStatsSnap { SS_QueueTotal : Z; SS_WaitCount : Z; SS_WaitMaxMs : Z; SS_WaitMeanMs : Z }.
Record SaturationObs := mkObsSat {
  SO_PeakQueueDepth : Z; SO_WaitCount : Z; SO_WaitMaxMs : Z; SO_WaitMeanMs : Z; SO_Samples : Z }.
Definition pollInterval (interval : Duration) : Duration := if interval <=? 0 then 250 * Millisecond else interval.
Definition sample (p : SaturationObs) (snap : result StatsSnapshot) : SaturationObs :=
  match snap with
  | Err _ => p
  | Ok s =>
      let newer := SO_WaitCount p <=? SS_WaitCount s in
      mkObsSat (if SO_PeakQueueDepth p <? SS_QueueTotal s then SS_QueueTotal s else SO_PeakQueueDepth p)
        (if newer then SS_WaitCount s else SO_WaitCount p)
        (if SO_WaitMaxMs p <? SS_WaitMaxMs s then SS_WaitMaxMs s else SO_WaitMaxMs p)
        (if newer then SS_WaitMeanMs s else SO_WaitMeanMs p) (SO_Samples p + 1)
  end.
(** [Run]: a sample at once, one per tick, one when the context is done. *)
Definition poller_run (first : result StatsSnapshot) (ticks : list (result StatsSnapshot)) (final : result StatsSnapshot) : SaturationObs :=
  fold_left sample (first :: ticks ++ [final]) (mkObsSat 0 0 0 0 0).

(** ** The driver *)

Record Config := mkConfig {
  C_BaseURL : string; C_Token : string; C_Concurrency : Z; C_Duration : Duration; C_Requests : Z;
  C_RateNegative : bool; C_Rate : float; C_Mix : Mix; C_Model : string; C_Prompt : string }.
Definition defaultPrompt : string := "ping".
Definition needsModel (m : Mix) : bool :=
  existsb (λ e, String.eqb (ME_Endpoint e) EndpointChat || String.eqb (ME_Endpoint e) EndpointCompletions) (Mix_entries m).
Definition validate (c : Config) : result Config :=
  let url := TrimRight_slash (C_BaseURL c) in
  if String.eqb url "" then Err (ENew "base url is required")
  else if String.eqb (C_Token c) "" then Err (ENew "token is required")
  else if C_Concurrency c <? 1 then Err (ENew "concurrency must be >= 1")
  else if Bool.eqb (0 <? C_Duration c) (0 <? C_Requests c) then Err (ENew "set exactly one of duration or requests")
  else if C_RateNegative c && (0 <? f_num (C_Rate c)) then Err (ENew "rate must be >= 0")
  else match Mix_entries (C_Mix c) with
       | [] => Err (ENew "mix must have at least one endpoint")
       | _ =>
           if needsModel (C_Mix c) && String.eqb (C_Model c) ""
           then Err (ENew "model is required when the mix includes chat or completions")
           else Ok (mkConfig url (C_Token c) (C_Concurrency c) (C_Duration c) (C_Requests c) (C_RateNegative c) (C_Rate c)
                      (C_Mix c) (C_Model c) (if String.eqb (C_Prompt c) "" then defaultPrompt else C_Prompt c))
       end.

(** The request of an endpoint: method, address and the body's fields. *)
Inductive reqBody := NoBody | CompletionsBody (model prompt : string) | ChatBody (model role content : string).
Definition buildRequest (c : Config) (ep : string) : string * string * reqBody :=
  if String.eqb ep EndpointModels then ("GET", C_BaseURL c +:+ "/v1/models", NoBody)
  else if String.eqb ep EndpointCompletions then ("POST", C_BaseURL c +:+ "/v1/completions", CompletionsBody (C_Model c) (C_Prompt c))
  else ("POST", C_BaseURL c +:+ "/v1/chat/completions", ChatBody (C_Model c) "user" (C_Prompt c)).

(** The usage a body reports; what cannot be decoded counts nothing. *)
Definition readTokens (ep : string) (status : Z) (body : option json) : Z :=
  if (status <? 200) || (300 <=? status) || String.eqb ep EndpointModels then 0
  else match body with
       | None => 0
       | Some j => (dec_struct [("usage", dec_struct [("total_tokens", dec_uint64)])] 0 j).1
       end.

Inductive reply := NoRequest (e : error) | NoResponse (e : error) (ctxDone : bool) | Response (status : Z) (body : option json).
Definition issue (c : Config) (i : Z) (latency : Duration) (rp : reply) : option Result :=
  let ep := Pick (C_Mix c) i in
  match rp with
  | NoRequest e => Some (mkResult latency 0 0 (Some e))
  | NoResponse e ctxDone => if ctxDone then None else Some (mkResult latency 0 0 (Some e))
  | Response status body => Some (mkResult latency status (readTokens ep status body) None)
  end.

(** *** The closed loop: workers that claim the next request, send it and wait *)

Inductive wstate := WIdle | WBusy (i : Z) | WDone.
Record cstate := mkLoop {
  cl_issued : Z; cl_workers : list wstate; cl_cancelled : bool; cl_results : list (Z * Result) }.
Definition loop_start (c : Config) : cstate := mkLoop 0 (replicate (Z.to_nat (C_Concurrency c)) WIdle) false [].

Definition claim (c : Config) (issued : Z) : option Z :=
  if (0 <? C_Requests c) && (C_Requests c <=? issued) then None else Some issued.

Inductive event :=
| EvTurn (w : nat)                                  (* an idle worker: stop, or claim and send *)
| EvReply (w : nat) (latency : Duration) (rp : reply)
| EvCancel.                                         (* the duration is over, or the caller's context *)

(** A response is lost only when the context is done. *)
Definition closed_step (c : Config) (ev : event) (s : cstate) : option cstate :=
  match ev with
  | EvCancel => Some (mkLoop (cl_issued s) (cl_workers s) true (cl_results s))
  | EvTurn w =>
      match cl_workers s !! w with
      | Some WIdle =>
          if cl_cancelled s then Some (mkLoop (cl_issued s) (<[w := WDone]> (cl_workers s)) true (cl_results s))
          else match claim c (cl_issued s) with
               | None => Some (mkLoop (cl_issued s) (<[w := WDone]> (cl_workers s)) false (cl_results s))
               | Some i => Some (mkLoop (cl_issued s + 1) (<[w := WBusy i]> (cl_workers s)) false (cl_results s))
               end
      | _ => None
      end
  | EvReply w latency rp =>
      match cl_workers s !! w with
      | Some (WBusy i) =>
          match rp with
          | NoResponse _ true => if cl_cancelled s then Some (mkLoop (cl_issued s) (<[w := WIdle]> (cl_workers s)) true (cl_results s)) else None
          | _ =>
              Some (mkLoop (cl_issued s) (<[w := WIdle]> (cl_workers s)) (cl_cancelled s)
                      (cl_results s ++ match issue c i latency rp with Some r => [(i, r)] | None => [] end))
          end
      | _ => None
      end
  end.
Inductive closed_run (c : Config) : cstate → list event → cstate → Prop :=
| run_nil s : closed_run c s [] s
| run_cons s ev s1 evs s2 : closed_step c ev s = Some s1 → closed_run c s1 evs s2 → closed_run c s (ev :: evs) s2.
Definition loop_done (s : cstate) : Prop := Forall (λ w, w = WDone) (cl_workers s).

Example mix_1 : ParseMix id " models=20, chat=80," = Ok (mkMix [mkEntry "chat" 80; mkEntry "models" 20] 100) ∧
  Mix_String (mkMix [mkEntry "chat" 80; mkEntry "models" 20] 100) = "chat=80,models=20" ∧
  map (Pick (mkMix [mkEntry "chat" 2; mkEntry "models" 1] 3)) [0; 1; 2; 3; -1] = ["chat"; "chat"; "models"; "chat"; "models"].
Proof. vm_compute. done. Qed.
Example mix_2 : ParseMix id "chat=1,chat=2" = Err (ENew "mix entry chat=2: endpoint chat listed twice") ∧
  ParseMix id "chat=0" = Err (ENew "mix entry chat=0: weight must be positive") ∧ ParseMix id " , " = Err (ENew "empty mix spec").
Proof. vm_compute. done. Qed.
Example percentile_1 : let p := computePercentiles (map Z.of_nat (seq 1 100)) in
  (P_Min p, P50 p, P90 p, P95 p, P99 p, P999 p, P_Max p, P_Mean p) = (1, 51, 90, 95, 99, 100, 100, 50).
Proof. vm_compute. reflexivity. Qed.

(** ** The mix is honoured exactly *)

Definition weights (l : list MixEntry) : Z := foldr (λ e n, ME_Weight e + n) 0 l.
(** What [ParseMix] promises of its result when the weights do not overflow. *)
Record mix_ok (m : Mix) : Prop := {
  mo_nonempty : Mix_entries m ≠ [];
  mo_valid : Forall (λ e, ME_Endpoint e ∈ validEndpoints ∧ 0 < ME_Weight e) (Mix_entries m);
  mo_distinct : NoDup (map ME_Endpoint (Mix_entries m));
  mo_sorted : StronglySorted String.le (map ME_Endpoint (Mix_entries m));
  mo_total : Mix_total m = weights (Mix_entries m);
  mo_range : weights (Mix_entries m) < 2 ^ 63 }.

Lemma weights_cons e l : weights (e :: l) = ME_Weight e + weights l.
Proof. reflexivity. Qed.
Lemma weights_app l1 l2 : weights (l1 ++ l2) = weights l1 + weights l2.
Proof. induction l1 as [|e l1 IH]; [done|]. rewrite <- app_comm_cons, !weights_cons, IH. lia. Qed.
Lemma weights_nonneg l : Forall (λ e, ME_Endpoint e ∈ validEndpoints ∧ 0 < ME_Weight e) l → 0 <= weights l.
Proof. induction 1 as [|e l [_ He] _ IH]; [done|]. rewrite weights_cons. lia. Qed.

(** The loop of [Pick] selects the entry whose range of slots holds the slot. *)
Lemma pick_loop_range l : ∀ slot cum last, Forall (λ e, ME_Endpoint e ∈ validEndpoints ∧ 0 < ME_Weight e) l →
  0 <= cum → cum + weights l < 2 ^ 63 → cum <= slot < cum + weights l →
  ∃ l1 e l2, l = l1 ++ e :: l2 ∧ cum + weights l1 <= slot < cum + weights l1 + ME_Weight e ∧
    pick_loop l slot cum last = ME_Endpoint e.
Proof.
  induction l as [|e l IH]; intros slot cum last Hf Hc Hr Hs; [change (weights []) with 0 in Hs; lia|].
  inversion Hf as [|?? [_ He] Hf']; subst. pose proof (weights_nonneg l Hf'). rewrite weights_cons in *. cbn [pick_loop].
  rewrite i64_id by (unfold is_i64; lia). destruct (Z.ltb_spec slot (cum + ME_Weight e)).
  - exists [], e, l. split; [done|]. change (weights []) with 0. split; [lia|done].
  - destruct (IH slot (cum + ME_Weight e) (ME_Endpoint e) Hf' ltac:(lia) ltac:(lia) ltac:(lia)) as (l1 & e' & l2 & -> & Hr' & E).
    exists (e :: l1), e', l2. split; [done|]. rewrite weights_cons. split; [lia|done].
Qed.

(** Where the slots of an entry begin. *)
Lemma pick_slot m l1 e l2 slot : mix_ok m → Mix_entries m = l1 ++ e :: l2 → 0 <= slot < Mix_total m →
  pick_loop (Mix_entries m) slot 0 "" = ME_Endpoint e ↔ weights l1 <= slot < weights l1 + ME_Weight e.
Proof.
  intros [_ Hv Hd _ Ht Hr] E Hs.
  destruct (pick_loop_range (Mix_entries m) slot 0 "" Hv ltac:(lia) ltac:(lia) ltac:(lia)) as (k1 & e' & k2 & E' & Hr' & ->).
  rewrite E in Hv, Hd. apply Forall_app in Hv as [Hv1 Hv2]. inversion Hv2 as [|?? [_ Hw] Hv3]; subst.
  rewrite Z.add_0_l in Hr'.
  assert (Hcmp : length k1 = length l1 → e' = e ∧ k1 = l1).
  { intros El. rewrite E in E'. apply app_inj_1 in E' as [-> [= ->]]; done. }
  split.
  - intros Hn. destruct Hcmp as [-> ->]; [|lia]. rewrite E in E'.
    assert (Hi : map ME_Endpoint (l1 ++ e :: l2) !! length l1 = Some (ME_Endpoint e)) by (rewrite list_lookup_fmap, lookup_app_r, Nat.sub_diag by lia; done).
    eapply (NoDup_lookup _ (length k1) (length l1) _ Hd); [|exact Hi].
    rewrite E', list_lookup_fmap, lookup_app_r, Nat.sub_diag by lia. cbn. by rewrite Hn.
  - intros Hl. destruct (Nat.lt_trichotomy (length k1) (length l1)) as [H|[H|H]].
    + exfalso. rewrite E in E'. assert (weights k1 + ME_Weight e' <= weights l1); [|lia].
      apply (f_equal (take (length l1))) in E'. rewrite take_app_length in E'. rewrite E', take_app_ge by lia.
      destruct (length l1 - length k1)%nat as [|j] eqn:Ej; [lia|]. cbn [take]. rewrite weights_app, weights_cons. assert (0 <= weights (take j k2)); [|lia]. apply weights_nonneg.
      rewrite E', take_app_ge, Ej in Hv1 by lia. cbn [take] in Hv1. apply Forall_app in Hv1 as [_ Hv1]. by inversion Hv1.
    + by destruct (Hcmp H) as [-> _].
    + exfalso. rewrite E in E'. assert (weights l1 + ME_Weight e <= weights k1); [|lia].
      apply (f_equal (take (length k1))) in E'. rewrite take_app_length in E'. rewrite <- E', take_app_ge by lia.
      destruct (length k1 - length l1)%nat as [|j] eqn:Ej; [lia|]. cbn [take]. rewrite weights_app, weights_cons. assert (0 <= weights (take j l2)); [|lia]. apply weights_nonneg. by apply Forall_take.
Qed.

(** How often an endpoint is picked for the requests of a list. *)
Definition picked (m : Mix) (ep : string) (ks : list Z) : nat := length (filter (λ k, Pick m k = ep) ks).

Lemma mix_ok_pos m : mix_ok m → 0 < Mix_total m.
Proof.
  intros [Hne Hv _ _ Ht _]. rewrite Ht. destruct (Mix_entries m) as [|e l]; [done|]. inversion Hv as [|?? [_ ?] Hv']; subst.
  rewrite weights_cons. pose proof (weights_nonneg l Hv'). lia.
Qed.

Lemma Pick_slot m k : mix_ok m → 0 <= k → Pick m k = pick_loop (Mix_entries m) (k mod Mix_total m) 0 "".
Proof.
  intros Hm Hk. pose proof (mix_ok_pos m Hm) as Hp. unfold Pick. destruct (Mix_entries m) as [|e l] eqn:E; [by destruct (mo_nonempty m Hm)|].
  destruct (Z.leb_spec (Mix_total m) 0); [lia|]. rewrite Z.rem_mod_nonneg by lia. pose proof (Z.mod_pos_bound k (Mix_total m) Hp).
  destruct (Z.ltb_spec (k mod Mix_total m) 0); [lia|done].
Qed.

(** A window of consecutive requests runs through every slot once. *)
Lemma window_slots i T : 0 < T → map (λ k, k mod T) (seqZ i T) ≡ₚ seqZ 0 T.
Proof.
  intros HT. apply NoDup_Permutation.
  - apply NoDup_fmap_2_strong; [|apply NoDup_seqZ]. intros x y Hx Hy E. apply elem_of_seqZ in Hx, Hy.
    pose proof (Z.div_mod x T ltac:(lia)). pose proof (Z.div_mod y T ltac:(lia)). assert (x / T = y / T); [nia|lia].
  - apply NoDup_seqZ.
  - intros s. rewrite elem_of_seqZ. split.
    + intros (k & -> & _)%list_elem_of_fmap. pose proof (Z.mod_pos_bound k T HT). lia.
    + intros Hs. apply list_elem_of_fmap. exists (i + (s - i) mod T). pose proof (Z.mod_pos_bound (s - i) T HT). split.
      * rewrite Zplus_mod_idemp_r. replace (i + (s - i)) with s by lia. by rewrite Z.mod_small.
      * apply elem_of_seqZ. lia.
Qed.

Lemma filter_all_false {A} (P : A → Prop) `{!∀ x, Decision (P x)} (l : list A) : (∀ x, x ∈ l → ¬ P x) → filter P l = [].
Proof.
  intros Hl. induction l as [|x l IH]; [done|]. rewrite filter_cons_False by (apply Hl; by left). apply IH. intros y Hy. apply Hl. by right.
Qed.
Lemma filter_all_true {A} (P : A → Prop) `{!∀ x, Decision (P x)} (l : list A) : (∀ x, x ∈ l → P x) → filter P l = l.
Proof.
  intros Hl. induction l as [|x l IH]; [done|]. rewrite filter_cons_True by (apply Hl; by left). f_equal. apply IH. intros y Hy. apply Hl. by right.
Qed.
Lemma filter_iff_in {A} (P Q : A → Prop) `{!∀ x, Decision (P x), !∀ x, Decision (Q x)} (l : list A) :
  (∀ x, x ∈ l → (P x ↔ Q x)) → filter P l = filter Q l.
Proof.
  intros Hl. induction l as [|x l IH]; [done|]. rewrite !filter_cons, IH by (intros y Hy; apply Hl; by right).
  pose proof (Hl x ltac:(by left)). destruct (decide (P x)), (decide (Q x)); tauto.
Qed.
Lemma filter_map_length {A B} (f : A → B) (P : B → Prop) `{!∀ x, Decision (P x)} (l : list A) :
  length (filter P (map f l)) = length (filter (λ a, P (f a)) l).
Proof. induction l as [|x l IH]; [done|]. cbn [map]. rewrite !filter_cons. destruct (decide (P (f x))); cbn; lia. Qed.

Lemma window_exact m e i : mix_ok m → e ∈ Mix_entries m → 0 <= i →
  Z.of_nat (picked m (ME_Endpoint e) (seqZ i (Mix_total m))) = ME_Weight e.
Proof.
  intros Hm He Hi. pose proof (mix_ok_pos m Hm) as Hp. set (T := Mix_total m) in *.
  apply list_elem_of_split in He as (l1 & l2 & E).
  set (f := λ s, pick_loop (Mix_entries m) s 0 "").
  assert (Hval : 0 <= weights l1 ∧ 0 < ME_Weight e ∧ 0 <= weights l2).
  { pose proof (mo_valid m Hm) as Hv. rewrite E in Hv. apply Forall_app in Hv as [H1 H2]. inversion H2 as [|?? [_ ?] H3]; subst.
    pose proof (weights_nonneg _ H1). pose proof (weights_nonneg _ H3). lia. }
  assert (HT : T = weights l1 + (ME_Weight e + weights l2)).
  { unfold T. rewrite (mo_total m Hm), E, weights_app, weights_cons. lia. }
  unfold picked. transitivity (Z.of_nat (length (filter (λ s, f s = ME_Endpoint e) (seqZ 0 T)))).
  - rewrite <- (window_slots i T Hp), filter_map_length. do 2 f_equal. apply filter_iff_in. intros k Hk%elem_of_seqZ. by rewrite Pick_slot by (done || lia).
  - assert (Hs : ∀ s, s ∈ seqZ 0 T → (f s = ME_Endpoint e ↔ weights l1 <= s < weights l1 + ME_Weight e)).
    { intros s Hs%elem_of_seqZ. apply (pick_slot m l1 e l2); [done|done|]. fold T. lia. }
    rewrite HT in Hs |- *. rewrite !seqZ_app, !filter_app in * by lia. rewrite Z.add_0_l in *.
    rewrite (filter_all_false _ (seqZ 0 _)), (filter_all_true _ (seqZ (weights l1) _)), (filter_all_false _ (seqZ (_ + _) _)).
    + rewrite app_nil_l, app_nil_r, length_seqZ. lia.
    + intros s Hin. rewrite Hs by (rewrite !elem_of_app; tauto). apply elem_of_seqZ in Hin. lia.
    + intros s Hin. rewrite Hs by (rewrite !elem_of_app; tauto). apply elem_of_seqZ in Hin. lia.
    + intros s Hin. rewrite Hs by (rewrite !elem_of_app; tauto). apply elem_of_seqZ in Hin. lia.
Qed.

Lemma blocks_exact m e (q : nat) : mix_ok m → e ∈ Mix_entries m →
  Z.of_nat (picked m (ME_Endpoint e) (seqZ 0 (Z.of_nat q * Mix_total m))) = Z.of_nat q * ME_Weight e.
Proof.
  intros Hm He. pose proof (mix_ok_pos m Hm). induction q as [|q IH]; [done|].
  replace (Z.of_nat (S q) * Mix_total m) with (Z.of_nat q * Mix_total m + Mix_total m) by lia. rewrite seqZ_app by lia.
  unfold picked in *. rewrite filter_app, length_app, Nat2Z.inj_add, IH, Z.add_0_l.
  pose proof (window_exact m e (Z.of_nat q * Mix_total m) Hm He ltac:(lia)) as Hw. unfold picked in Hw. rewrite Hw. lia.
Qed.

(** ** The closed loop sends every request of its budget once *)

#[export] Instance wstate_eq_dec : EqDecision wstate.
Proof. solve_decision. Defined.
Definition busy (ws : list wstate) : list Z := omap (λ w, match w with WBusy i => Some i | _ => None end) ws.
Definition working (ws : list wstate) : Z := Z.of_nat (length (filter (λ w, w ≠ WDone) ws)).

Record loop_inv (c : Config) (s : cstate) : Prop := {
  li_live : cl_cancelled s = false;
  li_range : 0 <= cl_issued s <= C_Requests c;
  li_claims : busy (cl_workers s) ++ (cl_results s).*1 ≡ₚ seqZ 0 (cl_issued s);
  li_size : length (cl_workers s) = Z.to_nat (C_Concurrency c);
  li_done : WDone ∈ cl_workers s → cl_issued s = C_Requests c }.

(** What is left to do; every step does some of it. *)
Definition todo (c : Config) (s : cstate) : Z :=
  2 * (C_Requests c - cl_issued s) + Z.of_nat (length (busy (cl_workers s))) + working (cl_workers s).

(** The effect of one worker's move on the claims and on the work left. *)
Definition own (w : wstate) : list Z := match w with WBusy i => [i] | _ => [] end.
Definition live (w : wstate) : Z := match w with WDone => 0 | _ => 1 end.
Lemma working_cons w l : working (w :: l) = live w + working l.
Proof.
  unfold working. destruct w; [rewrite filter_cons_True by done|rewrite filter_cons_True by done|rewrite filter_cons_False by tauto];
    cbn [length live]; lia.
Qed.
Lemma busy_cons w l : busy (w :: l) = own w ++ busy l.
Proof. by destruct w. Qed.

Lemma worker_moves ws w x y : ws !! w = Some x →
  (∃ rest, busy ws ≡ₚ own x ++ rest ∧ busy (<[w := y]> ws) ≡ₚ own y ++ rest) ∧
  working (<[w := y]> ws) = working ws + live y - live x ∧ length (<[w := y]> ws) = length ws ∧
  (WDone ∈ <[w := y]> ws → y = WDone ∨ WDone ∈ ws).
Proof.
  intros H. split_and!.
  - revert w H. induction ws as [|z ws IH]; intros [|w] H; try done; cbn in H.
    + injection H as ->. exists (busy ws). change (<[0%nat := y]> (x :: ws)) with (y :: ws). by rewrite !busy_cons.
    + destruct (IH w H) as (rest & E1 & E2). exists (own z ++ rest).
      change (<[S w := y]> (z :: ws)) with (z :: <[w := y]> ws). rewrite !busy_cons, E1, E2. split; solve_Permutation.
  - revert w H. induction ws as [|z ws IH]; intros [|w] H; try done; cbn in H.
    + injection H as ->. change (<[0%nat := y]> (x :: ws)) with (y :: ws). rewrite !working_cons. lia.
    + change (<[S w := y]> (z :: ws)) with (z :: <[w := y]> ws). rewrite !working_cons, (IH w H). lia.
  - apply length_insert.
  - intros Hin. apply list_elem_of_lookup in Hin as [j Hj]. destruct (decide (j = w)) as [->|Hne].
    + rewrite list_lookup_insert_eq in Hj by (by eapply lookup_lt_Some). injection Hj as ->. by left.
    + rewrite list_lookup_insert_ne in Hj by done. right. by eapply list_elem_of_lookup_2.
Qed.

Section loop.
Context (c : Config) (Hn : 0 < C_Requests c).

Lemma loop_start_inv : loop_inv c (loop_start c).
Proof.
  split; cbn [cl_cancelled cl_issued cl_workers cl_results loop_start]; [done|lia| |by rewrite length_replicate|].
  - assert (busy (replicate (Z.to_nat (C_Concurrency c)) WIdle) = []) as ->; [|done].
    induction (Z.to_nat (C_Concurrency c)) as [|n IH]; [done|]. exact IH.
  - intros [E _]%elem_of_replicate. done.
Qed.

Lemma closed_step_inv ev s s' : ev ≠ EvCancel → loop_inv c s → closed_step c ev s = Some s' →
  loop_inv c s' ∧ todo c s' = todo c s - 1.
Proof.
  intros Hev [Hl Hr Hc Hs Hd]. unfold todo. destruct ev as [w|w lat rp|]; [| |done]; cbn [closed_step].
  - destruct (cl_workers s !! w) as [[| |]|] eqn:Ew; try done. rewrite Hl. unfold claim.
    destruct (Z.ltb_spec 0 (C_Requests c)); [|lia]. cbn [andb]. destruct (Z.leb_spec (C_Requests c) (cl_issued s)); intros [= <-];
      cbn [cl_cancelled cl_issued cl_workers cl_results].
    + destruct (worker_moves _ _ _ WDone Ew) as ((rest & B1 & B2) & Hw & Hlen & _). cbn [own app live] in *.
      rewrite B1 in Hc. split; [split; cbn [cl_cancelled cl_issued cl_workers cl_results]; try done; [by rewrite B2|congruence|lia]|]. rewrite B1, B2, Hw. lia.
    + destruct (worker_moves _ _ _ (WBusy (cl_issued s)) Ew) as ((rest & B1 & B2) & Hw & Hlen & Hin). cbn [own app live] in *.
      rewrite B1 in Hc. split; [split; cbn [cl_cancelled cl_issued cl_workers cl_results]; try done; [lia| |congruence|]|].
      * rewrite B2, seqZ_app, <- Hc by lia. rewrite Z.add_0_l. change (seqZ (cl_issued s) 1) with [cl_issued s]. cbn. solve_Permutation.
      * intros [|Hin']%Hin; [done|]. apply Hd in Hin'. lia.
      * rewrite B1, B2, Hw. cbn [length]. lia.
  - destruct (cl_workers s !! w) as [[|i|]|] eqn:Ew; try done.
    destruct (worker_moves _ _ _ WIdle Ew) as ((rest & B1 & B2) & Hw & Hlen & Hin). cbn [own app live] in *. rewrite B1 in Hc.
    assert (Hgo : ∀ r, loop_inv c (mkLoop (cl_issued s) (<[w := WIdle]> (cl_workers s)) (cl_cancelled s) (cl_results s ++ [(i, r)]))).
    { intros r. split; cbn [cl_cancelled cl_issued cl_workers cl_results]; [done|done| |congruence|intros [|]%Hin; [done|by apply Hd]].
      rewrite B2, fmap_app, <- Hc. cbn. solve_Permutation. }
    intros Hstep. assert (∃ r, s' = mkLoop (cl_issued s) (<[w := WIdle]> (cl_workers s)) (cl_cancelled s) (cl_results s ++ [(i, r)])) as [r ->].
    { destruct rp as [e|e [|]|st b]; cbn [issue] in Hstep; [injection Hstep as <-; by eexists| |injection Hstep as <-; by eexists..].
      by rewrite Hl in Hstep. }
    split; [apply Hgo|]. cbn [cl_issued cl_workers]. rewrite B1, B2, Hw. cbn [length]. lia.
Qed.

Lemma closed_run_inv s evs s' : EvCancel ∉ evs → loop_inv c s → closed_run c s evs s' →
  loop_inv c s' ∧ todo c s' = todo c s - Z.of_nat (length evs).
Proof.
  intros Hev Hi Hrun. revert Hev Hi. induction Hrun as [s|s ev s1 evs s2 Hs _ IH]; intros Hev Hi; [split; [done|cbn; lia]|].
  apply not_elem_of_cons in Hev as [Hne Hev]. destruct (closed_step_inv ev s s1) as [Hi1 Ht]; [congruence|done|done|].
  destruct (IH Hev Hi1) as [Hi2 Ht2]. split; [done|]. cbn [length]. lia.
Qed.

Lemma todo_nonneg s : loop_inv c s → 0 <= todo c s.
Proof. intros [_ Hr _ _ _]. unfold todo, working. lia. Qed.
Lemma todo_start : todo c (loop_start c) = 2 * C_Requests c + Z.of_nat (Z.to_nat (C_Concurrency c)).
Proof.
  unfold todo, loop_start. cbn [cl_issued cl_workers].
  assert (∀ n, length (busy (replicate n WIdle)) = 0%nat ∧ working (replicate n WIdle) = Z.of_nat n) as H.
  { intros n. induction n as [|n [IH1 IH2]]; [done|]. cbn [replicate]. rewrite working_cons, IH2. split; [exact IH1|cbn [live]; lia]. }
  destruct (H (Z.to_nat (C_Concurrency c))) as [-> ->]. lia.
Qed.
End loop.

(** C36: Whatever the interleaving of its workers and whatever the server answers, a
    closed-loop run that is not cancelled sends the requests of its budget, each
    exactly once and each recorded, and when the budget is a multiple of the mix's
    total every endpoint gets exactly its share. *)
Theorem closed_loop_exact c evs s :
  0 < C_Requests c → 1 <= C_Concurrency c → mix_ok (C_Mix c) → EvCancel ∉ evs →
  closed_run c (loop_start c) evs s → loop_done s →
  (cl_results s).*1 ≡ₚ seqZ 0 (C_Requests c) ∧
  ∀ e (q : nat), e ∈ Mix_entries (C_Mix c) → C_Requests c = Z.of_nat q * Mix_total (C_Mix c) →
    Z.of_nat (picked (C_Mix c) (ME_Endpoint e) (cl_results s).*1) = Z.of_nat q * ME_Weight e.
Proof.
  intros Hn Hc Hm Hev Hrun Hdone. unfold loop_done in Hdone. destruct (closed_run_inv c Hn _ _ _ Hev (loop_start_inv c Hn) Hrun) as [[_ _ Hcl Hs Hd] _].
  assert (Hb : busy (cl_workers s) = []).
  { clear -Hdone. induction Hdone as [|w ws -> _ IH]; [done|]. exact IH. }
  assert (cl_issued s = C_Requests c) as Hi.
  { apply Hd. destruct (cl_workers s) as [|w ws]; [cbn in Hs; lia|]. inversion Hdone; subst. by left. }
  rewrite Hb, Hi in Hcl. cbn [app] in Hcl. split; [exact Hcl|]. intros e q He Hq. unfold picked.
  rewrite Hcl, Hq. by apply blocks_exact.
Qed.

(** A run that is not cancelled makes at most two moves per request and one per
    worker, and until every worker has stopped one of them can move: the loop ends
    as soon as the server answers every request. *)
Theorem closed_loop_terminates c evs s :
  0 < C_Requests c → 0 <= C_Concurrency c → EvCancel ∉ evs → closed_run c (loop_start c) evs s →
  Z.of_nat (length evs) <= 2 * C_Requests c + C_Concurrency c ∧
  (¬ loop_done s → ∃ w, ∀ status body, ∃ s', closed_step c (EvTurn w) s = Some s' ∨ closed_step c (EvReply w 0 (Response status body)) s = Some s').
Proof.
  intros Hn Hc Hev Hrun. destruct (closed_run_inv c Hn _ _ _ Hev (loop_start_inv c Hn) Hrun) as [Hi Ht]. split.
  - pose proof (todo_nonneg c s Hi). rewrite (todo_start c) in Ht. lia.
  - intros Hnd. apply not_Forall_Exists in Hnd; [|intros x; apply decide; apply _].
    apply Exists_exists in Hnd as (x & [w Hw]%list_elem_of_lookup & Hx). exists w. intros status body. cbn [closed_step].
    rewrite Hw. destruct x as [|i|]; [|eexists; right; reflexivity|by destruct Hx].
    rewrite (li_live c s Hi). destruct (claim c (cl_issued s)); eexists; left; reflexivity.
Qed.

(** ** The summary counts every request once *)

Lemma tally_spec rs : ∀ t, fold_left tally_add rs t =
  let '(ok, th, un, er, tok, all, oks) := t in
  let by_ b := filter (λ r, bucketFor (Res_Status r) = b) rs in
  (ok + Z.of_nat (length (by_ StatusOK)), th + Z.of_nat (length (by_ StatusThrottled)),
   un + Z.of_nat (length (by_ StatusUnavailable)), er + Z.of_nat (length (by_ StatusError)),
   fold_left (λ n r, u64 (n + Res_Tokens r)) (by_ StatusOK) tok, all ++ map Res_Latency rs, oks ++ map Res_Latency (by_ StatusOK)).
Proof.
  induction rs as [|r rs IH]; intros [[[[[[ok th] un] er] tok] all] oks]; cbn [fold_left map length].
  - rewrite !app_nil_r, !Z.add_0_r. done.
  - cbn [tally_add]. rewrite !filter_cons. destruct (bucketFor (Res_Status r)) eqn:E; rewrite IH; cbv zeta;
      repeat (case_decide; [try discriminate|try done]); cbn [length map fold_left];
      repeat apply (f_equal2 pair); first [reflexivity|lia|by rewrite <- app_assoc].
Qed.

(** *** Quantiles *)

Lemma fround_mono x y : f_num x * f_den y <= f_num y * f_den x → fround x <= fround y.
Proof.
  intros H. unfold fround. pose proof (f_den_pos x). pose proof (f_den_pos y).
  apply Z.div_le_lower_bound; [lia|]. pose proof (Z.mul_div_le (2 * f_num x + f_den x) (2 * f_den x) ltac:(lia)). nia.
Qed.

Lemma gap_arith X Y dx dy pn pd qn qd N :
  2 ^ 12 <= dx → 2 ^ 12 <= dy → 0 < pd → 0 < qd → 1 <= N → 1000 * (qn * pd - pn * qd) >= pd * qd →
  2 * Z.abs (X * pd - pn * N * dx) <= pd → 2 * Z.abs (Y * qd - qn * N * dy) <= qd → X * dy <= Y * dx.
Proof.
  intros Hx Hy Hp Hq HN Hg H1 H2. set (G := qn * pd - pn * qd) in *.
  assert (A : 1000 * (dx + dy) <= 2 * (dx * dy)) by nia.
  assert (0 < pd * qd) as HP by nia. assert (0 < G) as HG by lia. assert (0 < dx * dy) as HM by nia.
  assert (B1 : 1000 * (pd * qd * (dx + dy)) <= pd * qd * (2 * (dx * dy))) by nia.
  assert (B2 : pd * qd * (2 * (dx * dy)) <= 1000 * G * (2 * (dx * dy))) by (apply Z.mul_le_mono_nonneg_r; lia).
  assert (B3 : G * (2 * (dx * dy)) <= N * (G * (2 * (dx * dy)))) by (assert (0 < G * (2 * (dx * dy))) by nia; nia).
  assert (C1 : 2 * (X * pd) <= 2 * (pn * N * dx) + pd) by lia.
  assert (C2 : 2 * (qn * N * dy) - qd <= 2 * (Y * qd)) by lia.
  assert (D1 : 2 * (X * pd) * (dy * qd) <= (2 * (pn * N * dx) + pd) * (dy * qd)) by (apply Z.mul_le_mono_nonneg_r; nia).
  assert (D2 : (2 * (qn * N * dy) - qd) * (dx * pd) <= 2 * (Y * qd) * (dx * pd)) by (apply Z.mul_le_mono_nonneg_r; nia).
  assert (E : (2 * (pn * N * dx) + pd) * (dy * qd) <= (2 * (qn * N * dy) - qd) * (dx * pd)).
  { assert ((2 * (qn * N * dy) - qd) * (dx * pd) - (2 * (pn * N * dx) + pd) * (dy * qd) =
            N * (G * (2 * (dx * dy))) - pd * qd * (dx + dy)) by (unfold G; ring). lia. }
  assert (F : X * dy * (2 * (pd * qd)) <= Y * dx * (2 * (pd * qd))).
  { replace (X * dy * (2 * (pd * qd))) with (2 * (X * pd) * (dy * qd)) by ring.
    replace (Y * dx * (2 * (pd * qd))) with (2 * (Y * qd) * (dx * pd)) by ring. lia. }
  apply Z.mul_le_mono_pos_r in F; [done|lia].
Qed.

(** Quantiles a tenth of a percent apart keep their order on up to [2^40] samples. *)
Lemma quantile_gap p q N :
  0 < f_num p → 0 < f_num q → f_num q <= f_den q → f_num p <= f_den p →
  1000 * (f_num q * f_den p - f_num p * f_den q) >= f_den p * f_den q → 0 <= N < 2 ^ 40 →
  f_num (fmul p (float64 N)) * f_den (fmul q (float64 N)) <= f_num (fmul q (float64 N)) * f_den (fmul p (float64 N)).
Proof.
  intros Hp Hq Hq1 Hp1 Hgap HN. destruct (Z.eq_dec N 0) as [->|Hz].
  { unfold fmul. change (f_num (float64 0)) with 0. rewrite !Z.mul_0_r. done. }
  destruct (float64_exact N ltac:(lia)) as [En Ed]. pose proof (f_den_pos p). pose proof (f_den_pos q).
  unfold fmul. rewrite En. set (D := f_den (float64 N)) in *.
  assert (Hclose : ∀ a b, 0 < a → a <= b → 0 < a * (N * D) ∧ 0 < b * D ∧ a * (N * D) < b * D * 2 ^ 41).
  { intros a b Ha Hab. assert (0 < N * D) by nia. assert (a * (N * D) <= b * (N * D)) by (apply Z.mul_le_mono_nonneg_r; lia).
    assert (0 < b * D) by nia. assert (b * D * N < b * D * 2 ^ 41) by (apply Z.mul_lt_mono_pos_l; lia).
    replace (b * (N * D)) with (b * D * N) in * by ring. lia. }
  destruct (Hclose _ _ Hp Hp1) as (P1 & P2 & P3). destruct (Hclose _ _ Hq Hq1) as (Q1 & Q2 & Q3).
  destruct (round64_close (f_num p * (N * D)) (f_den p * D) 41 P1 P2 ltac:(lia) P3) as (K1 & _ & D1 & E1).
  destruct (round64_close (f_num q * (N * D)) (f_den q * D) 41 Q1 Q2 ltac:(lia) Q3) as (K2 & _ & D2 & E2).
  set (x := round64 _ (f_den p * D)) in *. set (y := round64 _ (f_den q * D)) in *.
  assert (2 ^ 12 <= f_den x) by (rewrite D1; apply Z.pow_le_mono_r; lia).
  assert (2 ^ 12 <= f_den y) by (rewrite D2; apply Z.pow_le_mono_r; lia).
  set (dx := f_den x) in *. set (dy := f_den y) in *. set (pn := f_num p) in *. set (pd := f_den p) in *.
  set (qn := f_num q) in *. set (qd := f_den q) in *. clearbody dx dy pn pd qn qd D. clear D1 D2 K1 K2.
  assert (2 * Z.abs (f_num x * pd - pn * N * dx) <= pd) as F1.
  { assert (2 * Z.abs (f_num x * pd - pn * N * dx) * D <= pd * D); [|nia].
    rewrite <- (Z.abs_eq D) at 1 by lia. rewrite <- Z.mul_assoc, <- Z.abs_mul. replace ((f_num x * pd - pn * N * dx) * D) with (f_num x * (pd * D) - pn * (N * D) * dx) by lia. exact E1. }
  assert (2 * Z.abs (f_num y * qd - qn * N * dy) <= qd) as F2.
  { assert (2 * Z.abs (f_num y * qd - qn * N * dy) * D <= qd * D); [|nia].
    rewrite <- (Z.abs_eq D) at 1 by lia. rewrite <- Z.mul_assoc, <- Z.abs_mul. replace ((f_num y * qd - qn * N * dy) * D) with (f_num y * (qd * D) - qn * (N * D) * dy) by lia. exact E2. }
  apply (gap_arith (f_num x) (f_num y) dx dy pn pd qn qd N); lia.
Qed.

Lemma rank_range q n : 1 <= n → 0 <= rank q n <= n - 1.
Proof. intros Hn. unfold rank. repeat case_match; zbool; lia. Qed.
Lemma rank_mono p q n : 1 <= n <= 2 ^ 40 →
  0 < f_num p → 0 < f_num q → f_num q <= f_den q → f_num p <= f_den p →
  1000 * (f_num q * f_den p - f_num p * f_den q) >= f_den p * f_den q → rank p n <= rank q n.
Proof.
  intros Hn Hp Hq Hq1 Hp1 Hg. pose proof (fround_mono _ _ (quantile_gap p q (n - 1) Hp Hq Hq1 Hp1 Hg ltac:(lia))) as H.
  unfold rank. repeat case_match; zbool; lia.
Qed.
Lemma ranks_ordered n : 1 <= n <= 2 ^ 40 →
  rank q50 n <= rank q90 n ∧ rank q90 n <= rank q95 n ∧ rank q95 n <= rank q99 n ∧ rank q99 n <= rank q999 n.
Proof. intros Hn. split_and!; apply rank_mono; try exact Hn; vm_compute; first [done|discriminate]. Qed.

Lemma sorted_lookup (l : list Z) (i j : nat) : StronglySorted Z.le l → (i ≤ j < length l)%nat → default 0 (l !! i) <= default 0 (l !! j).
Proof.
  intros Hs. revert i j. induction Hs as [|x l _ IH Hx]; intros i j Hij; [cbn in Hij; lia|].
  destruct j as [|j]; [replace i with 0%nat by lia; lia|]. cbn [length] in Hij. destruct i as [|i]; cbn [lookup list_lookup].
  - destruct (lookup_lt_is_Some_2 l j ltac:(lia)) as [y Hy]. unfold lookup in *. rewrite Hy. cbn.
    rewrite Forall_forall in Hx. apply Hx. by eapply list_elem_of_lookup_2.
  - apply IH. lia.
Qed.

Lemma percentile_lookup l q : l ≠ [] → percentile l q = default 0 (l !! Z.to_nat (rank q (Z.of_nat (length l)))).
Proof. by destruct l. Qed.

Definition quantiles (p : Percentiles) : list Duration := [P_Min p; P50 p; P90 p; P95 p; P99 p; P999 p; P_Max p].

Lemma percentiles_ordered l : l ≠ [] → Z.of_nat (length l) <= 2 ^ 40 →
  let p := computePercentiles l in
  P_Count p = Z.of_nat (length l) ∧
  P_Min p <= P50 p ∧ P50 p <= P90 p ∧ P90 p <= P95 p ∧ P95 p <= P99 p ∧ P99 p <= P999 p ∧ P999 p <= P_Max p ∧
  Forall (λ d, d ∈ l) (quantiles p) ∧ Forall (λ d, P_Min p <= d <= P_Max p) l.
Proof.
  intros Hne Hlen. assert (Hp : sort_durations l ≡ₚ l) by apply merge_sort_Permutation.
  assert (Hs : StronglySorted Z.le (sort_durations l)) by (apply StronglySorted_merge_sort; apply _).
  unfold computePercentiles. destruct l as [|d0 l0] eqn:El; [done|]. rewrite <- El in *. clear El d0 l0.
  set (s := sort_durations l) in *. pose proof (Permutation_length Hp) as Hl.
  assert (Hn : (0 < length s)%nat) by (rewrite Hl; destruct l; [done|cbn; lia]).
  assert (Hsne : s ≠ []) by (intros E; rewrite E in Hn; cbn in Hn; lia).
  cbn [P_Count P_Min P50 P90 P95 P99 P999 P_Max quantiles]. rewrite !percentile_lookup by done.
  set (n := Z.of_nat (length s)). destruct (ranks_ordered n ltac:(lia)) as (R1 & R2 & R3 & R4).
  assert (Hr : ∀ q, 0 <= rank q n <= n - 1) by (intros; apply rank_range; lia).
  pose proof (Hr q50). pose proof (Hr q90). pose proof (Hr q95). pose proof (Hr q99). pose proof (Hr q999).
  assert (Hm : ∀ i j, (i ≤ j < length s)%nat → default 0 (s !! i) <= default 0 (s !! j)) by (intros; by apply sorted_lookup).
  assert (Hin : ∀ i, (i < length s)%nat → default 0 (s !! i) ∈ l).
  { intros i Hi. destruct (lookup_lt_is_Some_2 s i Hi) as [y Hy]. unfold Duration in *. rewrite Hy. cbn. rewrite <- Hp. by eapply list_elem_of_lookup_2. }
  split; [unfold n; lia|]. do 6 (split; [apply Hm; unfold n in *; lia|]). split.
  - repeat (apply Forall_cons_2; [apply Hin; unfold n in *; lia|]). apply Forall_nil_2.
  - apply Forall_forall. intros d Hd. rewrite <- Hp in Hd. apply list_elem_of_lookup in Hd as [i Hi]. pose proof (lookup_lt_Some _ _ _ Hi) as Hil.
    pose proof (Hm 0%nat i ltac:(split; [apply Nat.le_0_l|exact Hil])) as M1. pose proof (Hm i (length s - 1)%nat ltac:(change (@length Duration s) with (@length Z s) in *; lia)) as M2. unfold Duration in *. rewrite Hi in M1, M2. cbn in M1, M2. lia.
Qed.

Lemma buckets_partition rs : length rs =
  (length (filter (λ r, bucketFor (Res_Status r) = StatusOK) rs) + length (filter (λ r, bucketFor (Res_Status r) = StatusThrottled) rs) +
   length (filter (λ r, bucketFor (Res_Status r) = StatusUnavailable) rs) + length (filter (λ r, bucketFor (Res_Status r) = StatusError) rs))%nat.
Proof.
  induction rs as [|r rs IH]; [done|]. rewrite !filter_cons. destruct (bucketFor (Res_Status r));
    repeat (case_decide; [try discriminate|try done]); cbn [length]; lia.
Qed.

(** The summary of a run counts every request in exactly one bucket, counts as
    successes the 2xx responses, and for up to [2^40] requests reports quantiles that
    are latencies that occurred, in order from the least to the greatest. *)
Theorem summary_exact rs elapsed :
  rs ≠ [] → Z.of_nat (length rs) <= 2 ^ 40 →
  let s := Summarize rs elapsed in
  let p := Sm_Latency s in
  Sm_Total s = Z.of_nat (length rs) ∧
  Sm_Success s + Sm_Throttled s + Sm_Unavailable s + Sm_Errors s = Sm_Total s ∧
  Sm_Success s = Z.of_nat (length (filter (λ r, 200 <= Res_Status r < 300) rs)) ∧
  P_Count p = Sm_Total s ∧
  (P_Min p <= P50 p ∧ P50 p <= P90 p ∧ P90 p <= P95 p ∧ P95 p <= P99 p ∧ P99 p <= P999 p ∧ P999 p <= P_Max p) ∧
  Forall (λ d, d ∈ map Res_Latency rs) (quantiles p) ∧ Forall (λ d, P_Min p <= d <= P_Max p) (map Res_Latency rs).
Proof.
  intros Hne Hlen. unfold Summarize. rewrite tally_spec. cbn [Sm_Total Sm_Success Sm_Throttled Sm_Unavailable Sm_Errors Sm_Latency app].
  destruct (percentiles_ordered (map Res_Latency rs)) as (H1 & H2 & H3 & H4 & H5 & H6 & H7 & H8 & H9);
    [by destruct rs|rewrite length_map; exact Hlen|]. rewrite length_map in H1.
  pose proof (buckets_partition rs). split_and!; try done; [lia|].
  rewrite Z.add_0_l. do 2 f_equal. apply filter_iff_in. intros r _. unfold bucketFor.
  destruct (Z.leb_spec 200 (Res_Status r)), (Z.ltb_spec (Res_Status r) 300); cbn [andb]; split; intros; try done; try lia; repeat case_match; done.
Qed.

(** ** The poller keeps the worst it saw *)

Definition answered (snaps : list (result StatsSnapshot)) : list StatsSnapshot := omap (λ r, match r with Ok s => Some s | Err _ => None end) snaps.
Lemma poller_fold snaps : ∀ p,
  let o := fold_left sample snaps p in
  SO_PeakQueueDepth o = fold_left Z.max (map SS_QueueTotal (answered snaps)) (SO_PeakQueueDepth p) ∧
  SO_WaitMaxMs o = fold_left Z.max (map SS_WaitMaxMs (answered snaps)) (SO_WaitMaxMs p) ∧
  SO_WaitCount o = fold_left Z.max (map SS_WaitCount (answered snaps)) (SO_WaitCount p) ∧
  SO_Samples o = SO_Samples p + Z.of_nat (length (answered snaps)).
Proof.
  induction snaps as [|[s|e] snaps IH]; intros p; cbn [fold_left answered omap list_omap map length].
  - rewrite Z.add_0_r. done.
  - destruct (IH (sample p (Ok s))) as (H1 & H2 & H3 & H4). fold (answered snaps). cbn [fold_left map length]. rewrite H1, H2, H3, H4. cbn [sample SO_PeakQueueDepth SO_WaitMaxMs SO_WaitCount SO_Samples].
    split_and!; [f_equal|f_equal|f_equal|]; repeat case_match; zbool; lia.
  - exact (IH p).
Qed.

(** ** The text of a mix reads back *)

Lemma endpoint_inv ep : ep ∈ validEndpoints → ep = "chat" ∨ ep = "completions" ∨ ep = "models".
Proof. unfold validEndpoints. rewrite !elem_of_cons, elem_of_nil. naive_solver. Qed.
Ltac by_endpoint H := destruct (endpoint_inv _ H) as [->|[->| ->]].

Lemma tidy_endpoint ep : ep ∈ validEndpoints → tidy (bytes_of_string ep).
Proof.
  intros H. by_endpoint H; (split; [cbn; repeat (constructor; [unfold ascii7; lia|]); constructor|]).
  - split; [by exists 99, [104; 97; 116]|by exists 116, [99; 104; 97]].
  - split; [by eexists 99, _|]. exists 115, (bytes_of_string "completion"). done.
  - split; [by eexists 109, _|]. exists 115, (bytes_of_string "model"). done.
Qed.
Lemma tidy_entry e : ME_Endpoint e ∈ validEndpoints → 0 < ME_Weight e → tidy (bytes_of_string (entry_text e)).
Proof.
  intros He Hw. unfold entry_text. rewrite !bytes_of_string_app. apply tidy_app; [by apply tidy_endpoint| |apply tidy_Itoa; lia].
  constructor; [unfold ascii7; cbn; lia|constructor].
Qed.
Lemma no_sep_entry e : ME_Endpoint e ∈ validEndpoints → 0 < ME_Weight e → no_sep "," (entry_text e).
Proof.
  intros He Hw. unfold entry_text. apply no_sep_append; [destruct e; cbn in He |- *; by_endpoint He; cbn; repeat split; discriminate|].
  apply no_sep_append; [cbn; repeat split; discriminate|]. apply no_sep_Itoa; [lia|unfold digit7; cbn; lia].
Qed.

Section text.
Context (quote : string → string).

Lemma mix_part_entry e seen : ME_Endpoint e ∈ validEndpoints → 0 < ME_Weight e < 2 ^ 63 →
  ME_Endpoint e ∉ map ME_Endpoint seen → mix_part quote (entry_text e) seen = Ok (Some e).
Proof.
  intros He Hw Hs. unfold mix_part. rewrite TrimSpace_tidy by (apply tidy_entry; [done|lia]).
  destruct (String.eqb_spec (entry_text e) "") as [E|_].
  { pose proof (tidy_entry e He ltac:(lia)) as (_ & (b & r & Hb & _) & _). by rewrite E in Hb. }
  unfold entry_text at 1. change (ME_Endpoint e +:+ "=" +:+ Itoa (ME_Weight e)) with (ME_Endpoint e +:+ String "=" (Itoa (ME_Weight e))).
  rewrite cut_app by (destruct e; cbn in He |- *; by_endpoint He; cbn; repeat split; discriminate).
  rewrite (TrimSpace_tidy (ME_Endpoint e)), TrimSpace_tidy by (first [by apply tidy_endpoint|apply tidy_Itoa; lia]).
  assert (ValidEndpoint (ME_Endpoint e) = true) as -> by (destruct e; cbn in He |- *; by_endpoint He; reflexivity). cbn [negb].
  assert (existsb (λ e0, String.eqb (ME_Endpoint e0) (ME_Endpoint e)) seen = false) as ->.
  { apply not_true_iff_false. intros (x & Hx & E%String.eqb_eq)%existsb_exists. apply Hs. rewrite <- E.
    apply list_elem_of_fmap. exists x. split; [done|by apply list_elem_of_In]. }
  rewrite Atoi_Itoa by (unfold is_i64; lia). destruct (Z.leb_spec (ME_Weight e) 0); [lia|]. by destruct e.
Qed.

Lemma mix_loop_entries l : ∀ seen total, Forall (λ e, ME_Endpoint e ∈ validEndpoints ∧ 0 < ME_Weight e) l →
  NoDup (map ME_Endpoint (seen ++ l)) → 0 <= total → total + weights l < 2 ^ 63 →
  mix_loop quote (map entry_text l) seen total = Ok (seen ++ l, total + weights l).
Proof.
  induction l as [|e l IH]; intros seen total Hv Hnd Ht Hr.
  - cbn [map mix_loop]. rewrite app_nil_r. change (weights []) with 0. by rewrite Z.add_0_r.
  - inversion Hv as [|?? [He Hw] Hv']; subst. pose proof (weights_nonneg l Hv'). rewrite weights_cons in *. cbn [map mix_loop].
    assert (ME_Endpoint e ∉ map ME_Endpoint seen) as Hs.
    { rewrite map_app in Hnd. apply NoDup_app in Hnd as (_ & Hd & _). intros Hin. apply (Hd _ Hin). cbn. by left. }
    rewrite mix_part_entry, i64_id by (done || unfold is_i64; lia).
    rewrite IH; [|done|by rewrite <- app_assoc|lia|lia]. rewrite <- app_assoc. cbn [app]. by rewrite Z.add_assoc.
Qed.

(** The text of a mix is read back as that mix: every endpoint with its weight, and
    the total. *)
Theorem mix_roundtrip m : mix_ok m → ParseMix quote (Mix_String m) = Ok m.
Proof.
  intros [Hne Hv Hd Hs Ht Hr]. destruct m as [l total]. cbn [Mix_entries Mix_total] in *. unfold ParseMix, Mix_String. cbn [Mix_entries].
  assert (Htidy : tidy (bytes_of_string (Join (map entry_text l) ","))).
  { clear Hd Hs Ht Hr. induction Hv as [|e l [He Hw] Hv IH]; [done|]. cbn [map]. destruct l as [|e' l]; [by apply tidy_entry|].
    change (Join (entry_text e :: map entry_text (e' :: l)) ",") with (entry_text e +:+ "," +:+ Join (map entry_text (e' :: l)) ",").
    rewrite !bytes_of_string_app. apply tidy_app; [by apply tidy_entry|constructor; [unfold ascii7; cbn; lia|constructor]|by apply IH]. }
  rewrite TrimSpace_tidy by done. destruct (String.eqb_spec (Join (map entry_text l) ",") "") as [E|_].
  { rewrite E in Htidy. by destruct Htidy as (_ & (? & ? & [=] & _) & _). }
  rewrite Split_Join.
  - rewrite mix_loop_entries by (done || lia). cbn [app]. rewrite Z.add_0_l, <- Ht. destruct l as [|e l]; [done|]. do 2 f_equal.
    apply (SliceStable_id entry_less).
    clear -Hs. revert Hs. generalize (e :: l) as k. clear. induction k as [|a k IH]; intros Hs; [constructor|].
    inversion Hs as [|?? H1 H2]; subst. constructor; [by apply IH|]. pose proof (proj1 (Forall_fmap ME_Endpoint _ k) H2) as H3.
    eapply Forall_impl; [exact H3|]. intros b Hb. by apply ltb_false.
  - by destruct l.
  - apply Forall_fmap. eapply Forall_impl; [exact Hv|]. intros e [He Hw]. by apply no_sep_entry.
Qed.
End text.

(** ** Witnesses *)

Definition demo_mix : Mix := mkMix [mkEntry "chat" 2; mkEntry "models" 1] 3.
Lemma demo_mix_ok : mix_ok demo_mix.
Proof.
  split; cbn [Mix_entries Mix_total demo_mix map ME_Endpoint].
  - discriminate.
  - apply Forall_cons_2; [|apply Forall_cons_2; [|apply Forall_nil_2]]; (split; [unfold validEndpoints; set_solver|cbn; lia]).
  - apply (bool_decide_unpack _). vm_compute. exact I.
  - constructor; [constructor; [constructor|constructor]|]. apply Forall_cons_2; [|apply Forall_nil_2]. reflexivity.
  - reflexivity.
  - vm_compute. reflexivity.
Qed.
Lemma mix_roundtrip_witness : ParseMix id "chat=2,models=1" = Ok demo_mix.
Proof. exact (mix_roundtrip id demo_mix demo_mix_ok). Defined.

Definition demo_cfg : Config := mkConfig "http://h" "t" 2 0 3 false (F 0 0) demo_mix "m" "ping".
Definition demo_ok : reply := Response 200 None.
Definition demo_evs : list event :=
  [EvTurn 0; EvTurn 1; EvReply 1 5 demo_ok; EvTurn 1; EvReply 0 9 (Response 503 None); EvTurn 0; EvReply 1 4 demo_ok; EvTurn 1].
Fixpoint exec (c : Config) (evs : list event) (s : cstate) : option cstate :=
  match evs with [] => Some s | ev :: evs => match closed_step c ev s with Some s => exec c evs s | None => None end end.
Lemma exec_run c evs : ∀ s s', exec c evs s = Some s' → closed_run c s evs s'.
Proof.
  induction evs as [|ev evs IH]; intros s s'; cbn [exec]; [intros [= ->]; constructor|].
  destruct (closed_step c ev s) as [s1|] eqn:E; [|done]. intros H. econstructor; [exact E|by apply IH].
Qed.
Definition demo_final : cstate := default (loop_start demo_cfg) (exec demo_cfg demo_evs (loop_start demo_cfg)).
Lemma demo_loop_run : closed_run demo_cfg (loop_start demo_cfg) demo_evs demo_final.
Proof. apply exec_run. vm_compute. reflexivity. Qed.
Lemma demo_no_cancel : EvCancel ∉ demo_evs.
Proof. unfold demo_evs. rewrite !not_elem_of_cons. split_and!; try discriminate. apply not_elem_of_nil. Qed.

Lemma closed_loop_exact_witness :
  (cl_results demo_final).*1 ≡ₚ [0; 1; 2] ∧ picked demo_mix "chat" (cl_results demo_final).*1 = 2%nat.
Proof.
  destruct (closed_loop_exact demo_cfg demo_evs demo_final ltac:(reflexivity) ltac:(discriminate) demo_mix_ok demo_no_cancel demo_loop_run)
    as [H1 H2].
  - vm_compute. repeat constructor.
  - split; [exact H1|]. pose proof (H2 (mkEntry "chat" 2) 1%nat (list_elem_of_here _ _) eq_refl) as H. cbn [ME_Endpoint ME_Weight C_Mix demo_cfg] in H. lia.
Defined.

Lemma closed_loop_terminates_witness : Z.of_nat (length demo_evs) <= 2 * 3 + 2.
Proof.
  exact (proj1 (closed_loop_terminates demo_cfg demo_evs demo_final ltac:(reflexivity) ltac:(discriminate) demo_no_cancel demo_loop_run)).
Defined.

Definition demo_results : list Result := [mkResult 9 503 0 None; mkResult 5 200 7 None; mkResult 4 200 7 None].
Lemma summary_exact_witness :
  let s := Summarize demo_results Second in
  Sm_Success s + Sm_Throttled s + Sm_Unavailable s + Sm_Errors s = 3 ∧ P50 (Sm_Latency s) <= P90 (Sm_Latency s).
Proof.
  destruct (summary_exact demo_results Second) as (_ & H1 & _ & _ & (_ & H2 & _) & _); [discriminate|vm_compute; discriminate|].
  split; [exact H1|exact H2].
Defined.
