(* ===== verification/ApiClient.v ===== *)
(** * ApiClient.v: the admin client (internal/apiclient)

    Each method of the client is one request, or a loop over the pages of a list.
    The transport is a parameter [Do] on a state of its own, so that the client can
    be run against the modelled server; the JSON decoders of the answers are the
    class [Json], and [JsonLaws] is what encoding/json does to a page of audit
    entries: the snapshots are decoded into map[string]any and lose their Go types. *)

From Stdlib Require Import Ascii.
From S2P Require Import Prelude Errors GoTime GoFloat GoStrings GoConv GoText GoHeap GoSort GoUrl Types Queue Store Authz Auth AuditLog Quota History Session Server Http Routes HttpServer AdminApi RuntimeConfig FleetApi.
Open Scope Z_scope.

(** ** Errors *)

Inductive errclass := ClUnauthorized | ClForbidden | ClNotFound | ClRateLimited | ClServer.
#[export] Instance errclass_eq_dec : EqDecision errclass.
Proof. solve_decision. Defined.
Definition class_text (c : errclass) : string :=
  match c with
  | ClUnauthorized => "unauthorized" | ClForbidden => "forbidden" | ClNotFound => "not found"
  | ClRateLimited => "rate limited" | ClServer => "server error"
  end.
Record APIError := mkAPIError { AE_Status : Z; AE_Code : string; AE_Message : string; AE_class : option errclass }.
Definition APIError_Error (e : APIError) : string :=
  if negb (String.eqb (AE_Message e) "") then AE_Message e
  else match AE_class e with Some c => class_text c | None => "http " +:+ Itoa (AE_Status e) end.

(** An API error, or a request that could not be built, sent, or its answer decoded. *)
Inductive cerror :=
| CAPI (e : APIError)
| CBuild (e : error)
| CTransport (method path : string) (e : error)
| CDecode (e : error).

Definition classify (status : Z) : option errclass :=
  if status =? StatusUnauthorized then Some ClUnauthorized
  else if status =? StatusForbidden then Some ClForbidden
  else if status =? StatusNotFound then Some ClNotFound
  else if status =? StatusTooManyRequests then Some ClRateLimited
  else if 500 <=? status then Some ClServer
  else None.

(** ** Wire values *)

(** The request bodies mirror the server's, and the answers are the values of
    [payload]; [None] is no body. *)
Inductive cbody :=
| BCreate (r : adminCreateKeyRequest)
| BPermissions (r : adminPermissionsRequest)
| BQuota (r : adminQuotaRequest)
| BDrain (deadlineSeconds : Z)
| BPull (model : string)
| BPatch (patch : gmap string rawjson).

Record hreq := mkReq {
  q_method : string; q_base : string; q_target : string; q_authorization : string; q_contentType : string;
  q_body : option cbody }.
Record hresp := mkResp { p_status : Z; p_body : list payload }.

Class Json := {
  jd_text : list payload → string;                       (* the text of the body *)
  jd_error : list payload → string * string;             (* message and code, empty when there is no envelope *)
  jd_key : list payload → result adminKeyView;
  jd_created : list payload → result adminCreateKeyResponse;
  jd_rotated : list payload → result (string * string);
  jd_quota : list payload → result adminQuotaUsageResponse;
  jd_roles : list payload → result (list RoleInfo * list string);
  jd_models : list payload → result (list (string * string * list string));
  jd_worker : list payload → result adminWorkerDetailView;
  jd_gpus : list payload → result adminGPUsResponse;
  jd_telemetry : list payload → result adminTelemetryResponse;
  jd_config : list payload → result (ConfigSettings * ConfigReadOnly * list string);
  jd_keys : list payload → result (list adminKeyView * option string);
  jd_workers : list payload → result (list adminWorkerView * option string);
  jd_audit : list payload → result (list Entry * option string);
  jd_logs : list payload → result (list logEntryView * option string);
  jd_usage : list payload → result (Z * Z * Z * (list adminUsageRow * option string)) }.

(** Text encoding/json leaves as it is: well-formed UTF-8 (other bytes are replaced). *)
Definition tail_byte (lo hi : Z) (c : ascii) : bool := let b := Z.of_N (N_of_ascii c) in (lo <=? b) && (b <=? hi).
Fixpoint utf8 (s : string) : bool :=
  match s with
  | "" => true
  | String c s1 =>
      if tail_byte 0 127 c then utf8 s1
      else match s1 with
           | "" => false
           | String c1 s2 =>
               if tail_byte 194 223 c then tail_byte 128 191 c1 && utf8 s2
               else match s2 with
                    | "" => false
                    | String c2 s3 =>
                        if tail_byte 224 239 c then
                          tail_byte (if tail_byte 224 224 c then 160 else 128) (if tail_byte 237 237 c then 159 else 191) c1
                          && tail_byte 128 191 c2 && utf8 s3
                        else match s3 with
                             | "" => false
                             | String c3 s4 =>
                                 tail_byte 240 244 c
                                 && tail_byte (if tail_byte 240 240 c then 144 else 128) (if tail_byte 244 244 c then 143 else 191) c1
                                 && tail_byte 128 191 c2 && tail_byte 128 191 c3 && utf8 s4
                             end
                    end
           end
  end.
(** An entry JSON can carry: a time before the year 10000, and texts of UTF-8. *)
Definition snapshot_utf8 (v : RedactedValues) : Prop := Forall (λ kv : string * _, utf8 kv.1 = true) (map_to_list (default ∅ v)).
Definition json_entry (e : Entry) : Prop :=
  0 <= Entry_Time e < 315537897600 * Second ∧
  Forall (λ s, utf8 s = true) [Entry_Actor e; Entry_Op e; Entry_Target e; Entry_RequestID e; Entry_Outcome e] ∧
  snapshot_utf8 (Entry_Before e) ∧ snapshot_utf8 (Entry_After e).

(** What encoding/json does to a page of such entries. *)
Class JsonLaws `{!Json} : Prop :=
  jl_audit es next more : Forall json_entry es →
    ∃ es', jd_audit [PList (map RAudit es) next more] = Ok (es', next) ∧ Forall2 same_record es es'.

(** ** Requests *)

Record Client := mkClient { cl_baseURL : string; cl_token : string }.
Definition New (baseURL token : string) : Client := mkClient (TrimRight_slash baseURL) token.

Record LogFilter := mkLogFilter {
  LF_Level : string; LF_RequestID : string; LF_SessionID : string; LF_Worker : string; LF_Since : Time; LF_Until : Time }.
Record UsageFilter := mkUsageFilter { UF_KeyID : string; UF_Owner : string; UF_Team : string }.

Definition set_text (k v : string) (q : Values) : Values := if negb (String.eqb v "") then Values_Set k v q else q.
Definition set_time (k : string) (t : Time) (q : Values) : Values := if negb (IsZero t) then Values_Set k (Itoa (Time_Unix t)) q else q.
Definition query_suffix (q : Values) : string := match q with [] => "" | _ => "&" +:+ Encode q end.

Definition audit_values (f : Filter) : Values :=
  set_time "until" (Filter_Until f) (set_time "since" (Filter_Since f)
    (set_text "target" (Filter_Target f) (set_text "op" (Filter_Op f) (set_text "actor" (Filter_Actor f) [])))).
Definition auditQuery (f : Filter) : string := query_suffix (audit_values f).
Definition log_values (f : LogFilter) : Values :=
  set_time "until" (LF_Until f) (set_time "since" (LF_Since f)
    (set_text "worker" (LF_Worker f) (set_text "session_id" (LF_SessionID f)
      (set_text "request_id" (LF_RequestID f) (set_text "level" (LF_Level f) []))))).
Definition logsQuery (f : LogFilter) : string := query_suffix (log_values f).
Definition usage_values (f : UsageFilter) : Values :=
  set_text "team" (UF_Team f) (set_text "owner" (UF_Owner f) (set_text "key_id" (UF_KeyID f) [])).
Definition usageQuery (f : UsageFilter) : string := query_suffix (usage_values f).

Definition modelPathEscape (model : string) : string := Join (map PathEscape (Split model slash)) "/".

(** The page of a list: the largest page size, the filters, the cursor. *)
Definition page_path (base query cursor : string) : string :=
  base +:+ "?limit=" +:+ Itoa maxPageSize +:+ query +:+
  (if negb (String.eqb cursor "") then "&cursor=" +:+ QueryEscape cursor else "").

Section client.
Context `{!Json}.
Context {W : Type} (Do : W → hreq → W * result hresp).
(** The error of building a request to a URL, which net/url cannot read. *)
Context (build : string → option error).
Context (c : Client).

Definition parseError (resp : hresp) : APIError :=
  let '(message, code) := jd_error (p_body resp) in
  mkAPIError (p_status resp) code
    (if String.eqb message "" then TrimSpace (jd_text (p_body resp)) else message)
    (classify (p_status resp)).

Definition do {T} (method path : string) (body : option cbody) (dec : list payload → result T) : W → W * (T + cerror) :=
  λ w,
  match build (cl_baseURL c +:+ path) with
  | Some e => (w, inr (CBuild e))
  | None =>
      let req := mkReq method (cl_baseURL c) path
        (if negb (String.eqb (cl_token c) "") then "Bearer " +:+ cl_token c else "")
        (match body with Some _ => "application/json" | None => "" end) body in
      match Do w req with
      | (w, Err e) => (w, inr (CTransport method path e))
      | (w, Ok resp) =>
          if (p_status resp <? 200) || (300 <=? p_status resp) then (w, inr (CAPI (parseError resp)))
          else match dec (p_body resp) with
               | Err e => (w, inr (CDecode e))
               | Ok v => (w, inl v)
               end
      end
  end.
(** A call whose answer is not read. *)
Definition unread (b : list payload) : result unit := Ok tt.

(** [None] when the pages have not ended after [fuel] requests. *)
Fixpoint list_loop {T} (fuel : nat) (base query : string) (dec : list payload → result (list T * option string))
    (cursor : string) (all : list T) (w : W) : option (W * (list T + cerror)) :=
  match fuel with
  | O => None
  | S fuel =>
      match do "GET" (page_path base query cursor) None dec w with
      | (w, inr e) => Some (w, inr e)
      | (w, inl (data, next)) =>
          match next with
          | None => Some (w, inl (all ++ data))
          | Some cursor => list_loop fuel base query dec cursor (all ++ data) w
          end
      end
  end.

Definition CreateKey (req : adminCreateKeyRequest) := do "POST" "/v1/admin/keys" (Some (BCreate req)) jd_created.
Definition ListKeys (fuel : nat) := list_loop fuel "/v1/admin/keys" "" jd_keys "" [].
Definition GetKey (id : string) := do "GET" ("/v1/admin/keys/" +:+ id) None jd_key.
Definition RevokeKey (id : string) := do "DELETE" ("/v1/admin/keys/" +:+ id) None unread.
Definition RotateKey (id : string) := do "POST" ("/v1/admin/keys/" +:+ id +:+ "/rotate") None jd_rotated.
Definition SetPermissions (id : string) (req : adminPermissionsRequest) :=
  do "PUT" ("/v1/admin/keys/" +:+ id +:+ "/permissions") (Some (BPermissions req)) jd_key.
Definition SetQuota (id : string) (req : adminQuotaRequest) :=
  do "PUT" ("/v1/admin/keys/" +:+ id +:+ "/quota") (Some (BQuota req)) jd_key.
Definition GetQuota (id : string) := do "GET" ("/v1/admin/keys/" +:+ id +:+ "/quota") None jd_quota.
Definition ListRoles := do "GET" "/v1/admin/roles" None jd_roles.
Definition ListModels := do "GET" "/models" None jd_models.
Definition ListWorkers (fuel : nat) := list_loop fuel "/v1/admin/workers" "" jd_workers "" [].
Definition WorkerDetail (id : string) := do "GET" ("/v1/admin/workers/" +:+ PathEscape id) None jd_worker.
Definition FleetCapacity := do "GET" "/v1/admin/gpus" None jd_gpus.
Definition Telemetry := do "GET" "/v1/admin/telemetry" None jd_telemetry.
Definition drain_body (deadline : Duration) : option cbody :=
  if 0 <? deadline then
    let secs := Z.quot deadline Second in
    Some (BDrain (if secs =? 0 then 1 else secs))
  else None.
Definition DrainWorker (id : string) (deadline : Duration) :=
  do "POST" ("/v1/admin/workers/" +:+ PathEscape id +:+ "/drain") (drain_body deadline) unread.
Definition PullModel (workerID model : string) :=
  do "POST" ("/v1/admin/workers/" +:+ PathEscape workerID +:+ "/models") (Some (BPull model)) unread.
Definition UnloadModel (workerID model : string) :=
  do "DELETE" ("/v1/admin/workers/" +:+ PathEscape workerID +:+ "/models/" +:+ modelPathEscape model) None unread.
Definition ListAudit (fuel : nat) (f : Filter) := list_loop fuel "/v1/admin/audit" (auditQuery f) jd_audit "" [].
Definition Logs (fuel : nat) (f : LogFilter) := list_loop fuel "/v1/admin/logs" (logsQuery f) jd_logs "" [].
Definition usage_page (b : list payload) : result (list adminUsageRow * option string) :=
  match jd_usage b with Ok (_, page) => Ok page | Err e => Err e end.
Definition ListUsage (fuel : nat) (f : UsageFilter) := list_loop fuel "/v1/admin/usage" (usageQuery f) usage_page "" [].
Definition GetUsage (f : UsageFilter) :=
  do "GET" ("/v1/admin/usage?limit=" +:+ Itoa maxPageSize +:+ usageQuery f) None jd_usage.
Definition GetConfig := do "GET" "/v1/admin/config" None jd_config.
Definition PutConfig (patch : gmap string rawjson) := do "PUT" "/v1/admin/config" (Some (BPatch patch)) jd_config.
End client.

(** ** The server a call reaches *)

(** A name that survives the cleaning of paths. *)
Definition name_ok (s : string) : Prop := s ≠ "" ∧ s ≠ "." ∧ s ≠ "..".
(** Key ids are put into the path as they are. *)
Definition key_id_ok (s : string) : Prop := name_ok s ∧ all_unreserved s.

Lemma PathEscape_plain s : name_ok s → Routes.plain (PathEscape s).
Proof.
  intros (H1 & H2 & H3). split.
  - intros E. apply H1, (escape_inj PathSegment), E.
  - intros E. apply H2, (escape_inj PathSegment). exact E.
  - intros E. apply H3, (escape_inj PathSegment). exact E.
  - by apply escape_no_sep.
Qed.
Lemma PathEscape_unescape s : pathUnescape (PathEscape s) = s.
Proof. unfold pathUnescape, PathUnescape, PathEscape. by rewrite unescape_escape. Qed.
Lemma PathEscape_question s : no_sep "?" (PathEscape s).
Proof. by apply escape_no_sep. Qed.
Lemma PathEscape_key s : key_id_ok s → PathEscape s = s.
Proof. intros [_ H]. by apply escape_unreserved. Qed.

(** The methods of the client. *)
Inductive call :=
| KCreateKey (req : adminCreateKeyRequest) | KListKeys | KGetKey (id : string) | KRevokeKey (id : string) | KRotateKey (id : string)
| KSetPermissions (id : string) (req : adminPermissionsRequest) | KSetQuota (id : string) (req : adminQuotaRequest)
| KGetQuota (id : string) | KListRoles | KListModels | KListWorkers | KWorkerDetail (id : string) | KFleetCapacity | KTelemetry
| KDrainWorker (id : string) (deadline : Duration) | KPullModel (id model : string) | KUnloadModel (id model : string)
| KListAudit (f : Filter) | KLogs (f : LogFilter) | KListUsage (f : UsageFilter) | KGetUsage (f : UsageFilter)
| KGetConfig | KPutConfig (patch : gmap string rawjson).

(** The requests a call sends and their answers, over any transport: [n] requests are
    answered by [Do], and then the connection fails, so that a list whose pages do not
    end is cut off after [n + 1] requests. *)
Definition exchange : Type := hreq * result hresp.
Definition recorder {W} (Do : W → hreq → W * result hresp) (st : W * nat * list exchange) (q : hreq) :
    (W * nat * list exchange) * result hresp :=
  match st with
  | (w, O, log) => ((w, O, log ++ [(q, Err CtxDone)]), Err CtxDone)
  | (w, S n, log) => let '(w, res) := Do w q in ((w, n, log ++ [(q, res)]), res)
  end.
Definition listed {W T} (r : option ((W * nat * list exchange) * T)) : list exchange := match r with Some ((_, log), _) => log | None => [] end.
Section calls.
Context `{!Json} {W : Type} (Do : W → hreq → W * result hresp) (n : nat) (c : Client) (w : W).
Definition sent (x : call) : list exchange :=
  let ok := λ _ : string, None in
  let tr := recorder Do in
  let st := (w, n, []) in
  match x with
  | KCreateKey req => (CreateKey tr ok c req st).1.2
  | KListKeys => listed (ListKeys tr ok c (S n) st)
  | KGetKey id => (GetKey tr ok c id st).1.2
  | KRevokeKey id => (RevokeKey tr ok c id st).1.2
  | KRotateKey id => (RotateKey tr ok c id st).1.2
  | KSetPermissions id req => (SetPermissions tr ok c id req st).1.2
  | KSetQuota id req => (SetQuota tr ok c id req st).1.2
  | KGetQuota id => (GetQuota tr ok c id st).1.2
  | KListRoles => (ListRoles tr ok c st).1.2
  | KListModels => (ListModels tr ok c st).1.2
  | KListWorkers => listed (ListWorkers tr ok c (S n) st)
  | KWorkerDetail id => (WorkerDetail tr ok c id st).1.2
  | KFleetCapacity => (FleetCapacity tr ok c st).1.2
  | KTelemetry => (Telemetry tr ok c st).1.2
  | KDrainWorker id d => (DrainWorker tr ok c id d st).1.2
  | KPullModel id m => (PullModel tr ok c id m st).1.2
  | KUnloadModel id m => (UnloadModel tr ok c id m st).1.2
  | KListAudit f => listed (ListAudit tr ok c (S n) f st)
  | KLogs f => listed (Logs tr ok c (S n) f st)
  | KListUsage f => listed (ListUsage tr ok c (S n) f st)
  | KGetUsage f => (GetUsage tr ok c f st).1.2
  | KGetConfig => (GetConfig tr ok c st).1.2
  | KPutConfig p => (PutConfig tr ok c p st).1.2
  end.
End calls.

(** What the call is for: the endpoint, its path values and its query. *)
Definition call_endpoint (x : call) : endpoint :=
  match x with
  | KCreateKey _ => EpAdminCreateKey | KListKeys => EpAdminListKeys | KGetKey _ => EpAdminGetKey | KRevokeKey _ => EpAdminRevokeKey
  | KRotateKey _ => EpAdminRotateKey | KSetPermissions _ _ => EpAdminSetPermissions | KSetQuota _ _ => EpAdminSetQuota
  | KGetQuota _ => EpAdminGetQuota | KListRoles => EpAdminRoles | KListModels => EpModels | KListWorkers => EpAdminListWorkers
  | KWorkerDetail _ => EpAdminGetWorker | KFleetCapacity => EpAdminGPUs | KTelemetry => EpAdminTelemetry
  | KDrainWorker _ _ => EpAdminDrainWorker | KPullModel _ _ => EpAdminPullModel | KUnloadModel _ _ => EpAdminUnloadModel
  | KListAudit _ => EpAdminAudit | KLogs _ => EpAdminLogs | KListUsage _ | KGetUsage _ => EpAdminUsage
  | KGetConfig => EpAdminGetConfig | KPutConfig _ => EpAdminPutConfig
  end.
Definition call_values (x : call) : list (string * string) :=
  match x with
  | KGetKey id | KRevokeKey id | KRotateKey id | KSetPermissions id _ | KSetQuota id _ | KGetQuota id | KWorkerDetail id
  | KDrainWorker id _ | KPullModel id _ => [("id", id)]
  | KUnloadModel id m => [("id", id); ("model", m)]
  | _ => []
  end.
Definition first_page : string * string := ("limit", Itoa maxPageSize).
(** The query of the request for the page at [cursor], which is empty on the first. *)
Definition call_query (x : call) (cursor : string) : Values :=
  match x with
  | KListKeys | KListWorkers => [first_page; ("cursor", cursor)]
  | KListAudit f => first_page :: audit_values f ++ [("cursor", cursor)]
  | KLogs f => first_page :: log_values f ++ [("cursor", cursor)]
  | KListUsage f => first_page :: usage_values f ++ [("cursor", cursor)]
  | KGetUsage f => first_page :: usage_values f
  | _ => []
  end.
(** The next page an answer names; no call but the lists asks for one. *)
Definition next_page {T} (dec : list payload → result (list T * option string)) (res : result hresp) : option string :=
  match res with
  | Ok resp => if (200 <=? p_status resp) && (p_status resp <? 300)
               then match dec (p_body resp) with Ok (_, next) => next | Err _ => None end else None
  | Err _ => None
  end.
Definition call_next `{!Json} (x : call) : result hresp → option string :=
  match x with
  | KListKeys => next_page jd_keys | KListWorkers => next_page jd_workers | KListAudit _ => next_page jd_audit
  | KLogs _ => next_page jd_logs | KListUsage _ => next_page usage_page
  | _ => λ _, None
  end.
Definition call_body (x : call) : option cbody :=
  match x with
  | KCreateKey req => Some (BCreate req) | KSetPermissions _ req => Some (BPermissions req) | KSetQuota _ req => Some (BQuota req)
  | KDrainWorker _ d => drain_body d | KPullModel _ m => Some (BPull m) | KPutConfig p => Some (BPatch p)
  | _ => None
  end.
Definition call_ok (x : call) : Prop :=
  match x with
  | KGetKey id | KRevokeKey id | KRotateKey id | KSetPermissions id _ | KSetQuota id _ | KGetQuota id => key_id_ok id
  | KWorkerDetail id | KDrainWorker id _ | KPullModel id _ => name_ok id
  | KUnloadModel id m => name_ok id ∧ Forall name_ok (Split m slash)
  | _ => True
  end.

(** *** Queries *)

Lemma Values_Set_names k v q : NoDup q.*1 → NoDup (Values_Set k v q).*1 ∧ (Values_Set k v q).*1 ⊆ k :: q.*1.
Proof.
  intros H. unfold Values_Set. rewrite fmap_app. change ([(k, v)].*1) with [k].
  assert (Hs : ∀ x, x ∈ (filter (λ p : string * string, p.1 ≠ k) q).*1 → x ≠ k ∧ x ∈ q.*1).
  { intros x ((k' & v') & -> & [H1 H2]%list_elem_of_filter)%list_elem_of_fmap. split; [done|]. apply list_elem_of_fmap. by exists (k', v'). }
  split.
  - apply NoDup_app. split_and!; [|set_solver|apply NoDup_singleton].
    eapply sublist_NoDup; [exact H|]. apply fmap_sublist, sublist_filter.
  - intros x [Hx%Hs| ->%list_elem_of_singleton]%elem_of_app; set_solver.
Qed.
Definition named (ns : list string) (q : Values) : Prop := NoDup q.*1 ∧ q.*1 ⊆ ns.
Lemma set_text_named k v ns q : k ∈ ns → named ns q → named ns (set_text k v q).
Proof.
  intros Hk [H1 H2]. unfold set_text. case_match; [|done]. destruct (Values_Set_names k v q H1) as [H3 H4]. split; [done|].
  intros x [->|Hx]%H4%elem_of_cons; auto.
Qed.
Lemma set_time_named k t ns q : k ∈ ns → named ns q → named ns (set_time k t q).
Proof.
  intros Hk [H1 H2]. unfold set_time. case_match; [|done]. destruct (Values_Set_names k (Itoa (Time_Unix t)) q H1) as [H3 H4].
  split; [done|]. intros x [->|Hx]%H4%elem_of_cons; auto.
Qed.
Lemma named_nil ns : named ns [].
Proof. split; [constructor|]. by intros x ?%elem_of_nil. Qed.
Definition filter_names : list string :=
  ["actor"; "op"; "target"; "since"; "until"; "level"; "request_id"; "session_id"; "worker"; "key_id"; "owner"; "team"].
Lemma filters_named :
  (∀ f, named filter_names (audit_values f)) ∧ (∀ f, named filter_names (log_values f)) ∧ (∀ f, named filter_names (usage_values f)).
Proof.
  unfold filter_names. split_and!; intros f;
    repeat first [apply set_time_named; [set_solver|]|apply set_text_named; [set_solver|]]; apply named_nil.
Qed.

Lemma Get_perm q q' n : NoDup q.*1 → q ≡ₚ q' → Values_Get q n = Values_Get q' n.
Proof.
  intros Hn Hp. assert (NoDup q'.*1) as Hn' by by rewrite <- Hp.
  destruct (decide (n ∈ q.*1)) as [((k & v) & -> & Hin)%list_elem_of_fmap|Hni].
  - cbn [fst]. rewrite (Get_lookup q k v), (Get_lookup q' k v); [done|done|by rewrite <- Hp|done|done].
  - rewrite !Get_none; [done|by rewrite <- Hp|done].
Qed.

(** The query of a page, read back by the server. *)
Definition page_values (q : Values) (cursor : string) : Values :=
  first_page :: SliceStable pair_less q ++ (if negb (String.eqb cursor "") then [("cursor", cursor)] else []).
Lemma pairs_app a b : a ≠ [] → b ≠ [] → pairs_text (a ++ b) = pairs_text a +:+ "&" +:+ pairs_text b.
Proof.
  intros Ha Hb. unfold pairs_text. destruct a as [|x a]; [done|]. clear Ha. revert x.
  induction a as [|y a IH]; intros x; [by destruct b|]. cbn [app map]. rewrite !Join_cons.
  change (map pair_text (y :: a ++ b)) with (map pair_text ((y :: a) ++ b)) in *. cbn [app map] in IH. rewrite IH.
  by rewrite <- ?string_app_assoc.
Qed.
Lemma page_query base q cursor : no_sep "?" base →
  split_target (page_path base (query_suffix q) cursor) = (base, pairs_text (page_values q cursor)).
Proof.
  intros Hb. unfold split_target, page_path.
  change (base +:+ "?limit=" +:+ ?x) with (base +:+ String "?" ("limit=" +:+ x)). rewrite cut_app by done. cbn [from_option id].
  f_equal. unfold page_values. change (first_page :: ?l) with ([first_page] ++ l).
  change ("limit=" +:+ Itoa maxPageSize +:+ ?x) with (pairs_text [first_page] +:+ x).
  destruct q as [|p q].
  - change (SliceStable pair_less []) with (@nil (string * string)). cbn [query_suffix app]. destruct (String.eqb cursor "") eqn:E; [done|].
    done.
  - assert (SliceStable pair_less (p :: q) ≠ []) as Hs.
    { intros E. pose proof (SliceStable_length pair_less (p :: q)) as H. by rewrite E in H. }
    cbn [query_suffix]. unfold Encode. destruct (String.eqb cursor ""); cbn [negb].
    + rewrite app_nil_r, pairs_app by done. rewrite string_app_nil_r. done.
    + rewrite pairs_app; [|done|by destruct (SliceStable _ _)]. rewrite pairs_app by done. by rewrite <- ?string_app_assoc.
Qed.

(** *** Paths *)

Lemma target_plain segs : Forall (λ s, no_sep "?" s) segs → split_target (path_of segs) = (path_of segs, "").
Proof.
  intros H. unfold split_target. rewrite cut_none; [done|]. refine (conj (_ : "/"%char ≠ "?"%char) (_ : no_sep "?" (Join segs "/"))); [discriminate|].
  induction H as [|x l Hx Hl IH]; [done|]. destruct l as [|y l]; [done|]. rewrite Join_cons.
  apply no_sep_append; [done|]. refine (conj (_ : "/"%char ≠ "?"%char) IH). discriminate.
Qed.
Lemma lit_plain s : s ∈ ["v1"; "admin"; "keys"; "workers"; "rotate"; "permissions"; "quota"; "drain"; "models"] →
  Routes.plain s ∧ no_sep "?" s.
Proof. intros H. repeat (apply elem_of_cons in H as [->|H]; [split; [split|]; done|]). by apply elem_of_nil in H. Qed.

Ltac in_words := repeat (apply elem_of_cons; first [left; reflexivity|right]).

(** A path with one name in it, below a collection. *)
Lemma route_below m coll e sub r vs :
  let segs := ["v1"; "admin"; coll; PathEscape e] ++ sub in
  name_ok e → Forall (λ s, Routes.plain s ∧ no_sep "?" s) (coll :: sub) →
  matchPath segs (root m) [] = Some (r, vs) →
  exactMatch (Some (r, vs)) (path_of segs) = true ∨ exactMatch (tree_match m (path_of segs +:+ "/")) (path_of segs +:+ "/") = false →
  route_target m (path_of segs) = Routed r (zip (names (rt_pattern r)) vs) ∧ (split_target (path_of segs)).2 = "".
Proof.
  intros segs He Hs Hm Hx. assert (Forall (λ s, Routes.plain s ∧ no_sep "?" s) segs) as Ha.
  { inversion Hs as [|?? H1 H2]; subst. unfold segs. cbn [app]. repeat (apply Forall_cons_2; [by apply lit_plain; in_words|]).
    do 2 (apply Forall_cons_2; [first [exact H1|split; [by apply PathEscape_plain|apply PathEscape_question]]|]). exact H2. }
  assert (split_target (path_of segs) = (path_of segs, "")) as Et.
  { apply target_plain. eapply Forall_impl; [exact Ha|]. naive_solver. }
  split; [|by rewrite Et]. unfold route_target. rewrite Et. cbn [fst]. apply find_plain; [done| |exact Hm|exact Hx].
  eapply Forall_impl; [exact Ha|]. naive_solver.
Qed.

Lemma name_seg e : name_ok e → PathEscape e ≠ "".
Proof. intros H. apply PathEscape_plain in H. by destruct H. Qed.

Lemma below_routed m coll e sub r :
  let segs := ["v1"; "admin"; coll; PathEscape e] ++ sub in
  name_ok e → Forall (λ s, Routes.plain s ∧ no_sep "?" s) (coll :: sub) →
  matchPath segs (root m) [] = Some (r, [pathUnescape (PathEscape e)]) → names (rt_pattern r) = ["id"] →
  exactMatch (Some (r, [])) (path_of segs) = true →
  route_target m (path_of segs) = Routed r [("id", e)] ∧
  ∀ n, Values_Get (ParseQuery (split_target (path_of segs)).2) n = "".
Proof.
  intros segs He Hs Hm Hn Hx. subst segs. destruct (route_below m coll e sub r _ He Hs Hm (or_introl Hx)) as [H1 H2].
  split; [by rewrite H1, Hn, PathEscape_unescape|]. intros n. by rewrite H2.
Qed.

(** The request of a call, for the page at [cursor], is routed to the endpoint of the
    call with its arguments. *)
Definition reaches (x : call) (cursor : string) (q : hreq) : Prop :=
  ∃ r, route_target (q_method q) (q_target q) = Routed r (call_values x) ∧ rt_endpoint r = call_endpoint x ∧
    (∀ n, Values_Get (ParseQuery (split_target (q_target q)).2) n = Values_Get (call_query x cursor) n) ∧ q_body q = call_body x.

(** A run of requests, each satisfying [P] for its page, one more for every answer
    that names a next page and none after one that does not. *)
Fixpoint follows (P : string → hreq → Prop) (next : result hresp → option string) (cursor : string) (log : list exchange) : Prop :=
  match log with
  | [] => False
  | (q, res) :: log => P cursor q ∧ match next res with Some cursor => follows P next cursor log | None => log = [] end
  end.
Lemma follows_impl (P Q : string → hreq → Prop) next log : (∀ cursor q, P cursor q → Q cursor q) →
  ∀ cursor, follows P next cursor log → follows Q next cursor log.
Proof.
  intros H. induction log as [|[q res] log IH]; intros cursor; cbn; [done|]. intros [H1 H2]. split; [by apply H|].
  destruct (next res); [by apply IH|done].
Qed.

Section sent_requests.
Context `{!Json} {W : Type} (Do : W → hreq → W * result hresp) (c : Client).
Notation ok := (λ _ : string, None).
Definition request (method target : string) (body : option cbody) : hreq :=
  mkReq method (cl_baseURL c) target (if negb (String.eqb (cl_token c) "") then "Bearer " +:+ cl_token c else "")
    (match body with Some _ => "application/json" | None => "" end) body.

(** One call is one request. *)
Lemma do_sent {T} method target body (dec : list payload → result T) n w log :
  ∃ res, (do (recorder Do) ok c method target body dec (w, n, log)).1.2 = log ++ [(request method target body, res)].
Proof.
  unfold do. fold (request method target body). destruct n as [|n]; cbn [recorder].
  - by eexists.
  - destruct (Do w _) as [w' [resp|e]]; [|by eexists]. destruct (_ || _); [by eexists|]. destruct (dec _); by eexists.
Qed.

(** A list is one request per page. *)
Lemma list_sent {T} base query (dec : list payload → result (list T * option string)) : ∀ n w log cursor all,
  ∃ tr, listed (list_loop (recorder Do) ok c (S n) base query dec cursor all (w, n, log)) = log ++ tr ∧
    follows (λ cursor q, q = request "GET" (page_path base query cursor) None) (next_page dec) cursor tr.
Proof.
  induction n as [|n IH]; intros w log cursor all; cbn [list_loop]; unfold do; cbn [recorder].
  - eexists [_]. split; [reflexivity|]. by cbn.
  - set (rq := mkReq "GET" _ _ _ _ _). assert (rq = request "GET" (page_path base query cursor) None) as -> by reflexivity.
    destruct (Do w _) as [w' [resp|e]] eqn:Ed; [|eexists [_]; split; [reflexivity|by cbn]].
    destruct ((p_status resp <? 200) || (300 <=? p_status resp)) eqn:Es.
    { eexists [_]. split; [reflexivity|]. cbn. split; [done|]. rewrite Z.leb_antisym, (Z.ltb_antisym 300).
      by destruct (p_status resp <? 200), (300 <=? p_status resp). }
    assert ((200 <=? p_status resp) && (p_status resp <? 300) = true) as Es'.
    { rewrite Z.leb_antisym, (Z.ltb_antisym 300). by destruct (p_status resp <? 200), (300 <=? p_status resp). }
    destruct (dec (p_body resp)) as [[data [next|]]|e] eqn:Edec.
    + destruct (IH w' (log ++ [(request "GET" (page_path base query cursor) None, Ok resp)]) next (all ++ data)) as (tr & E & Ht).
      exists ((request "GET" (page_path base query cursor) None, Ok resp) :: tr).
      split; [etransitivity; [exact E|]; by rewrite <- app_assoc|]. cbn [follows next_page]. by rewrite Es', Edec.
    + eexists [_]. split; [reflexivity|]. cbn [follows next_page]. by rewrite Es', Edec.
    + eexists [_]. split; [reflexivity|]. cbn [follows next_page]. by rewrite Es', Edec.
Qed.

(** A call that sends one request. *)
Lemma one_request {T} x method target body (dec : list payload → result T) n w :
  (∀ res, call_next x res = None) → reaches x "" (request method target body) →
  follows (reaches x) (call_next x) "" (do (recorder Do) ok c method target body dec (w, n, [])).1.2.
Proof.
  intros Hn Hr. destruct (do_sent method target body dec n w []) as [res ->]. cbn. by rewrite Hn.
Qed.
End sent_requests.

Ltac reach_below Hk m coll id sub :=
  let H := fresh in let Hn := fresh in let H1 := fresh in let H2 := fresh in
  assert (name_ok id) as H by first [assumption|by apply proj1 in Hk]; pose proof (name_seg id H) as Hn;
  edestruct (below_routed m coll id sub) as [H1 H2];
  [exact H|repeat (apply Forall_cons_2; [by apply lit_plain; in_words|]); apply Forall_nil_2|cbn [app]; follow_route; reflexivity|reflexivity|reflexivity|];
  rewrite ?(PathEscape_key id) in H1, H2 by assumption;
  eexists; split; [exact H1|split; [reflexivity|split; [exact H2|reflexivity]]].

Lemma single_routed `{!Json} {W} (Do : W → hreq → W * result hresp) n c w x : call_ok x →
  match x with
  | KGetKey _ | KRevokeKey _ | KRotateKey _ | KSetPermissions _ _ | KSetQuota _ _ | KGetQuota _ | KWorkerDetail _
  | KDrainWorker _ _ | KPullModel _ _ => follows (reaches x) (call_next x) "" (sent Do n c w x)
  | _ => True
  end.
Proof.
  destruct x as [| |id|id|id|id req|id req|id| | | |id| | |id d|id m|id m| | | | | |]; cbn [call_ok]; intros Hk; try done;
    (apply one_request; [done|]); unfold reaches, request; cbn [q_method q_target q_body call_values call_endpoint call_query call_body].
  - reach_below Hk "GET" "keys" id (@nil string).
  - reach_below Hk "DELETE" "keys" id (@nil string).
  - reach_below Hk "POST" "keys" id ["rotate"].
  - reach_below Hk "PUT" "keys" id ["permissions"].
  - reach_below Hk "PUT" "keys" id ["quota"].
  - reach_below Hk "GET" "keys" id ["quota"].
  - reach_below Hk "GET" "workers" id (@nil string).
  - reach_below Hk "POST" "workers" id ["drain"].
  - reach_below Hk "POST" "workers" id ["models"].
Qed.

Lemma Join_slash segs : segs ≠ [] → Join (segs ++ [""]) "/" = Join segs "/" +:+ "/".
Proof.
  intros Hne. destruct segs as [|x segs]; [done|]. clear Hne. revert x. induction segs as [|y segs IH]; intros x; [done|].
  cbn [app] in *. rewrite !Join_cons, IH. by rewrite !string_app_assoc.
Qed.

Lemma unload_match e s rest : e ≠ "" →
  ∃ r, rt_endpoint r = EpAdminUnloadModel ∧ names (rt_pattern r) = ["id"; "model"] ∧
    List.last (pt_segments (rt_pattern r)) (Lit "") = Multi "model" ∧ length (pt_segments (rt_pattern r)) = 6%nat ∧
    matchPath ("v1" :: "admin" :: "workers" :: e :: "models" :: s :: rest) (root "DELETE") [] =
      Some (r, [pathUnescape e; pathUnescape (Join (s :: rest) "/")]).
Proof.
  intros He. eexists. split; [|split; [|split; [|split]]]; cycle 4.
  { follow_route. apply match_multi; reflexivity. }
  all: reflexivity.
Qed.

Lemma unload_routed id m : name_ok id → Forall name_ok (Split m slash) →
  let target := "/v1/admin/workers/" +:+ PathEscape id +:+ "/models/" +:+ modelPathEscape m in
  ∃ r, route_target "DELETE" target = Routed r [("id", id); ("model", m)] ∧ rt_endpoint r = EpAdminUnloadModel ∧
    (split_target target).2 = "".
Proof.
  intros Hid Hm. pose proof (name_seg id Hid) as Hn. pose proof (Join_Split m slash) as Hj.
  unfold modelPathEscape. destruct (Split m slash) as [|p ps] eqn:Em.
  { exfalso. unfold Split in Em. destruct m; [done|]. cbn [String.length split_loop] in Em. by destruct (cut slash _) as [[]|]. }
  set (parts := map PathEscape (p :: ps)).
  assert (Forall (λ s, Routes.plain s ∧ no_sep "?" s) parts) as Hp.
  { unfold parts. apply Forall_map. eapply Forall_impl; [exact Hm|]. intros s Hs. split; [by apply PathEscape_plain|apply PathEscape_question]. }
  assert (Hroute := λ s rest, unload_match (PathEscape id) s rest Hn).
  set (segs := ["v1"; "admin"; "workers"; PathEscape id] ++ "models" :: parts).
  change ("/v1/admin/workers/" +:+ PathEscape id +:+ "/models/" +:+ Join parts "/") with (path_of segs).
  destruct (Hroute (PathEscape p) (map PathEscape ps)) as (r & H1 & H2 & H3 & H4 & H5). exists r.
  assert (exactMatch (tree_match "DELETE" (path_of segs +:+ "/")) (path_of segs +:+ "/") = false) as Hx.
  { assert (Split (path_of segs +:+ "/") slash = "" :: segs ++ [""]) as Hs.
    { change (path_of segs +:+ "/") with ("/" +:+ (Join segs "/" +:+ "/")). rewrite <- Join_slash by done.
      apply (split_path (segs ++ [""])); [by destruct segs|]. apply Forall_app. split; [|by repeat constructor].
      unfold segs. cbn [app]. repeat (apply Forall_cons_2; [first [by apply lit_plain; in_words|by apply PathEscape_plain]|]).
      eapply Forall_impl; [exact Hp|]. by intros s [[]]. }
    destruct (Hroute (PathEscape p) (map PathEscape ps ++ [""])) as (r' & _ & _ & G3 & G4 & G5).
    unfold tree_match. rewrite Hs. cbn [tl].
    change (segs ++ [""]) with ("v1" :: "admin" :: "workers" :: PathEscape id :: "models" :: PathEscape p :: (map PathEscape ps ++ [""])).
    rewrite G5. unfold exactMatch. rewrite G3, G4, Hs. apply andb_false_intro2, Nat.eqb_neq. cbn. rewrite length_app. cbn. lia. }
  edestruct (route_below "DELETE" "workers" id ("models" :: parts) r) as [H6 H7]; [exact Hid| |exact H5|right; exact Hx|].
  - do 2 (apply Forall_cons_2; [by apply lit_plain; in_words|]). exact Hp.
  - assert (pathUnescape (Join (PathEscape p :: map PathEscape ps) "/") = m) as Hu.
    { unfold pathUnescape, PathUnescape. change (PathEscape p :: map PathEscape ps) with (map PathEscape (p :: ps)).
      rewrite unescape_segments. exact Hj. }
    split_and!; [|exact H1|exact H7]. refine (eq_trans H6 _). rewrite H2, Hu, PathEscape_unescape. reflexivity.
Qed.

(** *** Lists *)

Lemma Get_app q q' n : Values_Get (q ++ q') n = if decide (n ∈ q.*1) then Values_Get q n else Values_Get q' n.
Proof.
  induction q as [|[k v] q IH]; [by rewrite decide_False by set_solver|]. unfold Values_Get in *. cbn [app List.find fst fmap list_fmap].
  destruct (String.eqb_spec k n) as [->|Hk]; [by rewrite decide_True by set_solver|]. rewrite IH.
  destruct (decide (n ∈ q.*1)); [by rewrite decide_True by set_solver|by rewrite decide_False by set_solver].
Qed.
(** The names a page adds do not meet those of the filters. *)
Lemma page_get q cursor n : named filter_names q →
  Values_Get (page_values q cursor) n =
    if String.eqb n "limit" then Itoa maxPageSize else if String.eqb n "cursor" then cursor else Values_Get q n.
Proof.
  intros [Hn Hs]. unfold page_values. change (first_page :: ?l) with ([first_page] ++ l). rewrite !Get_app.
  assert ((SliceStable pair_less q).*1 ≡ₚ q.*1) as Hp by by rewrite SliceStable_perm.
  destruct (String.eqb_spec n "limit") as [->|Hl]; [by rewrite decide_True by set_solver|].
  rewrite decide_False by set_solver. destruct (String.eqb_spec n "cursor") as [->|Hc].
  - rewrite decide_False; [by destruct cursor|]. rewrite Hp. intros Hin%Hs. revert Hin.
    apply (bool_decide_unpack ("cursor" ∉ filter_names)). vm_compute. exact I.
  - destruct (decide _) as [Hin|Hni].
    + apply Get_perm; [by rewrite Hp|by rewrite SliceStable_perm].
    + rewrite Hp in Hni. rewrite (Get_none q) by done. apply Get_none. destruct (String.eqb cursor ""); set_solver.
Qed.

Lemma page_reaches base q r cursor n :
  no_sep "?" base → findHandler "GET" base = Routed r [] → named filter_names q →
  let target := page_path base (query_suffix q) cursor in
  route_target "GET" target = Routed r [] ∧
  Values_Get (ParseQuery (split_target target).2) n = Values_Get (first_page :: q ++ [("cursor", cursor)]) n.
Proof.
  intros Hb Hr Hq. cbv zeta. unfold route_target. rewrite page_query by done. cbn [fst snd]. split; [done|].
  rewrite parse_pairs, page_get by done. change (first_page :: ?l) with ([first_page] ++ l). rewrite !Get_app.
  change ([first_page].*1) with ["limit"]. destruct (String.eqb_spec n "limit") as [->|Hl]; [by rewrite decide_True by set_solver|].
  rewrite decide_False by set_solver. destruct Hq as [Hn Hs]. destruct (String.eqb_spec n "cursor") as [->|Hc].
  - rewrite decide_False; [done|]. intros Hin%Hs. revert Hin. apply (bool_decide_unpack ("cursor" ∉ filter_names)). vm_compute. exact I.
  - destruct (decide _) as [|Hni]; [done|]. rewrite (Get_none q) by done. symmetry. apply Get_none. set_solver.
Qed.

(** An empty cursor is as good as none. *)
Lemma page_no_cursor q m : Values_Get (first_page :: q ++ [("cursor", "")]) m = Values_Get (first_page :: q) m.
Proof.
  change (first_page :: ?l) with ([first_page] ++ l). rewrite !Get_app. destruct (decide _); [done|]. destruct (decide (m ∈ q.*1)); [done|].
  rewrite (Get_none q) by done. unfold Values_Get. cbn [List.find fst]. by destruct (String.eqb "cursor" m).
Qed.

Lemma list_routed `{!Json} {W} (Do : W → hreq → W * result hresp) n c w {T} base q (dec : list payload → result (list T * option string)) x r :
  no_sep "?" base → findHandler "GET" base = Routed r [] → named filter_names q →
  rt_endpoint r = call_endpoint x → call_values x = [] → call_body x = None → call_next x = next_page dec →
  (∀ cursor, call_query x cursor = first_page :: q ++ [("cursor", cursor)]) →
  follows (reaches x) (call_next x) "" (listed (list_loop (recorder Do) (λ _, None) c (S n) base (query_suffix q) dec "" [] (w, n, []))).
Proof.
  intros Hb Hr Hq He Hv Hbd Hnx Hcq. destruct (list_sent Do c base (query_suffix q) dec n w [] "" []) as (tr & -> & Ht). rewrite Hnx.
  eapply follows_impl; [|exact Ht]. intros cursor req ->. exists r. rewrite Hv, Hcq.
  destruct (page_reaches base q r cursor "" Hb Hr Hq) as [H1 _].
  split; [exact H1|]. split; [done|]. split; [|done]. intros m. by apply (page_reaches base q r cursor m).
Qed.

Ltac reach_fixed := eexists; split; [vm_compute; reflexivity|split; [reflexivity|split; [intros n'; reflexivity|reflexivity]]].
Ltac reach_list base q Hf :=
  eapply (list_routed _ _ _ _ base q); [by repeat (split; [discriminate|])|vm_compute; reflexivity|exact Hf|reflexivity..].

(** C38: The calls of the admin client reach the endpoint they are for, with their
    arguments, over any transport.  A call sends one request; a list sends one per
    page, the first with no cursor, each next one with the cursor of the answer
    before it, until an answer names none, the exchange fails or [n] answers have
    come.  Every request is routed to the endpoint of the call with its path values,
    its body, and as query the page size, the filters and that cursor.
    The names in the path are restricted: a key id, which is sent unescaped, is made
    of unreserved characters, as minted ids are ([key_id_unescaped] is what happens to
    others), and no key id, worker id or part of a model name between slashes is
    empty, a dot or two dots. *)
Theorem client_calls_routed `{!Json} {W} (Do : W → hreq → W * result hresp) n c w x : call_ok x →
  follows (reaches x) (call_next x) "" (sent Do n c w x).
Proof.
  intros Hk. pose proof (single_routed Do n c w x Hk) as Hs. destruct filters_named as (Fa & Fl & Fu).
  destruct x as [| |id|id|id|id req|id req|id| | | |id| | |id d|id m|id m|f|f|f|f| |]; try exact Hs; clear Hs; cbn [sent].
  - apply one_request; [done|]. reach_fixed.
  - reach_list "/v1/admin/keys" (@nil (string * string)) (named_nil filter_names).
  - apply one_request; [done|]. reach_fixed.
  - apply one_request; [done|]. reach_fixed.
  - reach_list "/v1/admin/workers" (@nil (string * string)) (named_nil filter_names).
  - apply one_request; [done|]. reach_fixed.
  - apply one_request; [done|]. reach_fixed.
  - apply one_request; [done|]. destruct Hk as [H1 H2]. destruct (unload_routed id m H1 H2) as (r & G1 & G2 & G3). exists r.
    split_and!; [exact G1|exact G2|intros n'|reflexivity]. cbn [request q_target]. by rewrite G3.
  - reach_list "/v1/admin/audit" (audit_values f) (Fa f).
  - reach_list "/v1/admin/logs" (log_values f) (Fl f).
  - reach_list "/v1/admin/usage" (usage_values f) (Fu f).
  - apply one_request; [done|].
    assert ("/v1/admin/usage?limit=" +:+ Itoa maxPageSize +:+ usageQuery f = page_path "/v1/admin/usage" (query_suffix (usage_values f)) "") as ->.
    { unfold page_path, usageQuery. cbn [String.eqb negb]. by rewrite string_app_nil_r. }
    assert (∃ r, findHandler "GET" "/v1/admin/usage" = Routed r [] ∧ rt_endpoint r = EpAdminUsage) as (r & Hr & He)
      by (eexists; split; [vm_compute; reflexivity|reflexivity]).
    assert (no_sep "?" "/v1/admin/usage") as Hb by by repeat (split; [discriminate|]).
    exists r. split; [exact (proj1 (page_reaches _ _ r "" "" Hb Hr (Fu f)))|]. split; [exact He|]. split; [|reflexivity]. intros m.
    etransitivity; [exact (proj2 (page_reaches _ _ r "" m Hb Hr (Fu f)))|]. apply page_no_cursor.
  - apply one_request; [done|]. reach_fixed.
  - apply one_request; [done|]. reach_fixed.
Qed.

(** ** Witnesses *)

Definition demo_keys_of (l : list row) : list adminKeyView := omap (λ r, match r with RKey v => Some v | _ => None end) l.
(** The values of the snapshots change their types. *)
Definition demo_any (v : anyv) : anyv := match v with AInt n => AStr (Itoa n) | AUints l => AStrs l.*1 | _ => v end.
Definition demo_decoded (e : Entry) : Entry :=
  AuditLog.mkEntry (Entry_Time e) (Entry_Actor e) (Entry_Op e) (Entry_Target e) (Some (demo_any <$> default ∅ (Entry_Before e)))
    (Some (demo_any <$> default ∅ (Entry_After e))) (Entry_RequestID e) (Entry_Outcome e).
Definition demo_audit_of (l : list row) : list Entry := omap (λ r, match r with RAudit e => Some (demo_decoded e) | _ => None end) l.
Definition undecoded {T} (b : list payload) : result T := Err CtxDone.
#[export] Instance demo_json : Json := {|
  jd_text _ := ""; jd_error b := match b with [PError e] => (Error_Message e, Error_Code e) | _ => ("", "") end;
  jd_key b := match b with [PKey v] => Ok v | _ => Err CtxDone end;
  jd_created b := match b with [PCreated v] => Ok v | _ => Err CtxDone end;
  jd_rotated b := match b with [PRotated id tok] => Ok (id, tok) | _ => Err CtxDone end;
  jd_quota := undecoded; jd_roles := undecoded; jd_models := undecoded; jd_worker := undecoded; jd_gpus := undecoded;
  jd_telemetry := undecoded; jd_config := undecoded;
  jd_keys b := match b with [PList l next _] => Ok (demo_keys_of l, next) | _ => Err CtxDone end;
  jd_workers := undecoded;
  jd_audit b := match b with [PList l next _] => Ok (demo_audit_of l, next) | _ => Err CtxDone end;
  jd_logs := undecoded; jd_usage := undecoded |}.
#[export] Instance demo_json_laws : JsonLaws.
Proof.
  intros es next more _. exists (map demo_decoded es). split.
  - cbn. do 2 f_equal. induction es as [|e es IH]; [done|]. cbn. f_equal. exact IH.
  - induction es as [|e es IH]; [constructor|]. cbn [map]. constructor; [|exact IH]. split; [done|].
    split; symmetry; apply dom_fmap_L.
Qed.

(** A key id is not escaped: with a question mark in it the call acts on another key. *)
Example key_id_unescaped :
  match (sent (λ w _, (w, Err CtxDone)) 0 (mkClient "http://h" "tok") tt (KRevokeKey "k1?x")).*1 with
  | [q] => match route_target (q_method q) (q_target q) with Routed r vs => (rt_endpoint r, vs) = (EpAdminRevokeKey, [("id", "k1")]) | _ => False end
  | _ => False
  end.
Proof. vm_compute. reflexivity. Qed.

(** A server of two pages. *)
Definition demo_pages (i : nat) (q : hreq) : nat * result hresp :=
  (S i, Ok (mkResp 200 [PList [] (match i with O => Some "cur 2" | _ => None end) (Nat.eqb i 0)])).
Lemma client_calls_routed_witness :
  follows (reaches (KUnloadModel "gpu/1" "library/llama 3")) (call_next (KUnloadModel "gpu/1" "library/llama 3")) ""
    (sent demo_pages 3 (mkClient "http://h" "tok") 0%nat (KUnloadModel "gpu/1" "library/llama 3")) ∧
  map q_target (sent demo_pages 3 (mkClient "http://h" "tok") 0%nat (KUnloadModel "gpu/1" "library/llama 3")).*1 =
    ["/v1/admin/workers/gpu%2F1/models/library/llama%203"] ∧
  follows (reaches (KListAudit (mkFilter "k 1" "" "" 0 0))) (call_next (KListAudit (mkFilter "k 1" "" "" 0 0))) ""
    (sent demo_pages 3 (mkClient "http://h" "tok") 0%nat (KListAudit (mkFilter "k 1" "" "" 0 0))) ∧
  map q_target (sent demo_pages 3 (mkClient "http://h" "tok") 0%nat (KListAudit (mkFilter "k 1" "" "" 0 0))).*1 =
    ["/v1/admin/audit?limit=200&actor=k+1"; "/v1/admin/audit?limit=200&actor=k+1&cursor=cur+2"].
Proof.
  split; [|split; [vm_compute; reflexivity|split; [|vm_compute; reflexivity]]].
  - apply (client_calls_routed demo_pages 3 (mkClient "http://h" "tok") 0%nat (KUnloadModel "gpu/1" "library/llama 3")).
    split; [by split_and!|]. change (Forall name_ok ["library"; "llama 3"]).
    do 2 (apply Forall_cons_2; [by split_and!|]). apply Forall_nil_2.
  - apply (client_calls_routed demo_pages 3 (mkClient "http://h" "tok") 0%nat (KListAudit (mkFilter "k 1" "" "" 0 0))). exact I.
Defined.
