(* ===== verification/ClientServer.v ===== *)
(** * ClientServer.v: the admin client run against the server

    The transport of the client is the modelled HTTP server: the route table, the
    request id, the gate of the route and the key and audit handlers.  Endpoints of
    other files, and answers to requests no route takes, are parameters. *)

From Stdlib Require Import Ascii.
From S2P Require Import Prelude Errors GoTime GoStrings GoConv GoText GoDuration GoSort GoUrl Types Store Authz Auth AuditLog Quota Session Server Http Routes HttpServer AdminApi ApiClient.
Open Scope Z_scope.

(** ** The server as a transport *)

(** The request as the handlers see it. *)
Definition received (q : hreq) (values : list (string * string)) : Request :=
  let '(path, query) := split_target (q_target q) in
  mkRequest (q_method q) path
    (λ h, if String.eqb h "Authorization" then q_authorization q
          else if String.eqb h "Content-Type" then q_contentType q else "")
    (Values_Get (ParseQuery query)) (Values_Get values) (λ _, None).

Section transport.
Context {KS CS SS : Type} `{!KeyStore KS} `{!CounterStore CS} `{!SessionStore SS}.
Notation hserver := (HServer KS CS SS).
Notation handler := (hserver → hserver * list wact).
Context (rand : nat → nat → result bytes).
(** The clock readings and the random bytes of the n-th request. *)
Context (clock : nat → hclock) (rnd : nat → result bytes).
Context (other : endpoint → option cbody → Request → context → handler) (unrouted : routed → hresp).

Definition endpoint_handler (e : endpoint) (b : option cbody) (r : Request) (k : hclock) (c : context) : handler :=
  match e with
  | EpAdminCreateKey => handle_write rand (WCreate (match b with Some (BCreate req) => Some req | _ => None end)) r k c
  | EpAdminRevokeKey => handle_write rand WRevoke r k c
  | EpAdminRotateKey => handle_write rand WRotate r k c
  | EpAdminSetPermissions => handle_write rand (WPermissions (match b with Some (BPermissions req) => Some req | _ => None end)) r k c
  | EpAdminSetQuota => handle_write rand (WQuota (match b with Some (BQuota req) => Some req | _ => None end)) r k c
  | EpAdminListKeys => handleAdminListKeys r
  | EpAdminGetKey => handleAdminGetKey r
  | EpAdminGetQuota => handleAdminGetQuota r (hk_op k)
  | EpAdminAudit => handleAdminAudit r
  | _ => other e b r c
  end.
Definition gated (g : gate) (h : context → handler) (k : hclock) (r : Request) (c : context) : handler :=
  match g with
  | Routes.Auth => authMiddleware h k r c
  | AuthLimited => authMiddleware (rateLimitMiddleware h (hk_op k) (hk_op k) (hk_op k)) k r c
  | Scope scope => requireScope scope h k r c
  | ScopeWrite scope => requireScopeWrite scope h k r c
  end.

(** The state is the number of requests served and the server.  The metrics layer only
    observes the response, and the recovery layer acts on panics. *)
Definition serve (w : nat * hserver) (q : hreq) : (nat * hserver) * result hresp :=
  let '(n, s) := w in
  match route_target (q_method q) (q_target q) with
  | Routed rt values =>
      let r := received q values in
      let '(s', acts) :=
        requestIDMiddleware (gated (rt_gate rt) (endpoint_handler (rt_endpoint rt) (q_body q) r (clock n)) (clock n) r) (rnd n) r s in
      ((S n, s'), Ok (mkResp (resp_status (respond acts)) (resp_body (respond acts))))
  | res => ((S n, s), Ok (unrouted res))
  end.
End transport.

(** ** What the server makes of a client's request *)

Lemma substring_full s : String.substring 0 (String.length s) s = s.
Proof. induction s as [|c s IH]; [done|]. simpl. by rewrite IH. Qed.
Lemma Itoa_nonempty n : is_i64 n → Itoa n ≠ "".
Proof. intros H E. apply Atoi_Itoa in H. by rewrite E in H. Qed.

(** Headers set before the status change neither the status nor the body. *)
Lemma respond_set k v acts : resp_status (respond (SetHeader k v :: acts)) = resp_status (respond acts) ∧
  resp_body (respond (SetHeader k v :: acts)) = resp_body (respond acts).
Proof.
  unfold respond. cbn [fold_left wexec w_sent w_header w_body resp_status resp_body].
  assert (∀ w w', w_sent w = w_sent w' → w_body w = w_body w' →
    w_sent (fold_left wexec acts w) = w_sent (fold_left wexec acts w') ∧ w_body (fold_left wexec acts w) = w_body (fold_left wexec acts w')) as H.
  { induction acts as [|x acts IH]; intros w w' H1 H2; [done|]. cbn [fold_left].
    apply IH; destruct x; cbn [wexec]; rewrite ?H1; repeat case_match; cbn; congruence. }
  destruct (H (mkWState None (<[k := v]> ∅) []) (mkWState None ∅ [])) as [-> ->]; done.
Qed.

(** A client's token comes out of the request as it is. *)
Lemma token_received q values tok : tok ≠ "" → TrimSpace tok = tok →
  q_authorization q = "Bearer " +:+ tok → tokenFromRequest (received q values) = Some tok.
Proof.
  intros Hne Ht Ha. unfold received. destruct (split_target _) as [path query]. unfold tokenFromRequest, bearerToken.
  cbn [r_Cookie r_Header String.eqb Ascii.eqb Bool.eqb andb]. rewrite Ha.
  assert (String.eqb ("Bearer " +:+ tok) "" = false) as -> by done. destruct (Z.ltb_spec (len ("Bearer " +:+ tok)) 7) as [Hl|_].
  { exfalso. unfold len in Hl. rewrite length_append in Hl. cbn [String.length] in Hl. lia. }
  assert (String.substring 0 7 ("Bearer " +:+ tok) = "Bearer ") as -> by (cbn; by destruct tok).
  cbn [orb]. assert (String.eqb (map_string lower "Bearer ") "bearer " = true) as -> by done. cbn [negb].
  assert (String.substring 7 (String.length ("Bearer " +:+ tok) - 7) ("Bearer " +:+ tok) = tok) as ->.
  { rewrite length_append. replace (String.length "Bearer " + String.length tok - 7)%nat with (String.length tok) by (cbn [String.length]; lia).
    exact (substring_full tok). }
  rewrite Ht. by apply String.eqb_neq in Hne as ->.
Qed.

(** *** The values of a query *)

Lemma Get_Set k v q n : Values_Get (Values_Set k v q) n = if String.eqb n k then v else Values_Get q n.
Proof.
  unfold Values_Set, Values in *. induction q as [|[k' v'] q IH].
  - unfold Values_Get. cbn. rewrite String.eqb_sym. by destruct (String.eqb n k).
  - rewrite filter_cons. cbn [fst]. destruct (decide (k' ≠ k)) as [Hk|Hk].
    + unfold Values_Get in *. cbn [app List.find fst]. destruct (String.eqb_spec k' n) as [->|Hn]; [|exact IH].
      by apply String.eqb_neq in Hk as ->.
    + apply dec_stable in Hk as ->. rewrite IH. destruct (String.eqb_spec n k) as [E|Hn]; [done|].
      unfold Values_Get. cbn [List.find fst]. rewrite String.eqb_sym. by apply String.eqb_neq in Hn as ->.
Qed.
Lemma Get_set_text k v q n : k ∉ q.*1 → Values_Get (set_text k v q) n = if String.eqb n k then v else Values_Get q n.
Proof.
  intros Hk. unfold set_text. destruct (String.eqb_spec v "") as [->|]; cbn [negb]; [|apply Get_Set].
  destruct (String.eqb_spec n k) as [->|]; [by apply Get_none|done].
Qed.
Definition time_text (t : Time) : string := if IsZero t then "" else Itoa (Time_Unix t).
Lemma Get_set_time k t q n : k ∉ q.*1 → Values_Get (set_time k t q) n = if String.eqb n k then time_text t else Values_Get q n.
Proof.
  intros Hk. unfold set_time, time_text. destruct (IsZero t); cbn [negb]; [|apply Get_Set].
  destruct (String.eqb_spec n k) as [->|]; [by apply Get_none|done].
Qed.

(** The filter the server reads from the query of [f]: whole seconds. *)
Definition wire_time (t : Time) : Time := if IsZero t then 0 else Unix (Time_Unix t).
Definition wire_filter (f : Filter) : Filter :=
  mkFilter (Filter_Actor f) (Filter_Op f) (Filter_Target f) (wire_time (Filter_Since f)) (wire_time (Filter_Until f)).

(** Up to the year 10000 a bound is rounded down to the second. *)
Lemma wire_time_floor t : 0 <= t < 315537897600 * Second → wire_time t = t - t mod Second.
Proof.
  intros Ht. unfold wire_time, IsZero. destruct (Z.eqb_spec t 0) as [->|_]; [done|].
  unfold Unix, Time_Unix. assert (0 <= t / Second < 315537897600) as Hq.
  { split; [apply Z.div_pos; unfold Second in *; lia|]. apply Z.div_lt_upper_bound; unfold Second in *; lia. }
  rewrite (i64_id (t / Second - unixToInternal)), i64_id by (unfold is_i64, unixToInternal, minInt64, maxInt64 in *; lia).
  pose proof (Z.div_mod t Second ltac:(done)). lia.
Qed.

Lemma parse_time_text t : parseUnixSeconds (time_text t) = wire_time t.
Proof.
  unfold parseUnixSeconds, time_text, wire_time. destruct (IsZero t); [done|].
  assert (is_i64 (Time_Unix t)) as H by apply i64_range. pose proof (Itoa_nonempty _ H) as ->%String.eqb_neq.
  pose proof (Atoi_Itoa _ H) as E. unfold Atoi in E. by rewrite E.
Qed.

Lemma named_not_in ns q k : named ns q → bool_decide (k ∈ ns) = false → k ∉ q.*1.
Proof. intros [_ H] Hk%bool_decide_eq_false Hin. by apply Hk, H. Qed.
Lemma audit_get f n :
  Values_Get (audit_values f) n =
    if String.eqb n "until" then time_text (Filter_Until f) else if String.eqb n "since" then time_text (Filter_Since f)
    else if String.eqb n "target" then Filter_Target f else if String.eqb n "op" then Filter_Op f
    else if String.eqb n "actor" then Filter_Actor f else "".
Proof.
  unfold audit_values.
  assert (∀ ns, "actor" ∈ ns → named ns (set_text "actor" (Filter_Actor f) [])) as H1 by eauto using set_text_named, named_nil.
  assert (∀ ns, "actor" ∈ ns → "op" ∈ ns → named ns (set_text "op" (Filter_Op f) (set_text "actor" (Filter_Actor f) []))) as H2
    by eauto using set_text_named.
  assert (∀ ns, "actor" ∈ ns → "op" ∈ ns → "target" ∈ ns → named ns (set_text "target" (Filter_Target f) (set_text "op" (Filter_Op f)
    (set_text "actor" (Filter_Actor f) [])))) as H3 by eauto using set_text_named.
  rewrite (Get_set_time "until"), (Get_set_time "since"), (Get_set_text "target"), (Get_set_text "op"), (Get_set_text "actor"); [done| | | | |].
  - apply not_elem_of_nil.
  - apply (named_not_in ["actor"]); [apply H1; set_solver|done].
  - apply (named_not_in ["actor"; "op"]); [apply H2; set_solver|done].
  - apply (named_not_in ["actor"; "op"; "target"]); [apply H3; set_solver|done].
  - apply (named_not_in ["actor"; "op"; "target"; "since"]); [|done]. apply set_time_named; [set_solver|]. apply H3; set_solver.
Qed.

(** *** Pages *)

Lemma paginate_map {A B} (g : A → B) l limit offset :
  paginate (map g l) limit offset = (map g (paginate l limit offset).1, (paginate l limit offset).2).
Proof.
  unfold paginate. rewrite length_map. destruct (Z.of_nat (length l) <=? _); [done|]. cbn [fst snd].
  by rewrite firstn_map, skipn_map.
Qed.

Lemma paginate_Forall {A} (P : A → Prop) l limit offset : Forall P l → Forall P (paginate l limit offset).1.
Proof.
  intros H. unfold paginate. destruct (Z.of_nat (length l) <=? _); [constructor|]. cbn [fst].
  by apply Forall_drop, Forall_take.
Qed.

(** A page is a prefix of what is left, and its cursor is the rest. *)
Lemma paginate_rest {T} (items : list T) offset :
  0 <= offset <= Z.of_nat (length items) → Z.of_nat (length items) <= maxInt64 - maxPageSize →
  let '(page, next) := paginate items maxPageSize offset in
  match next with
  | None => page = drop (Z.to_nat offset) items
  | Some c => ∃ off, c = encodeCursor off ∧ offset < off <= Z.of_nat (length items) ∧
                page ++ drop (Z.to_nat off) items = drop (Z.to_nat offset) items
  end.
Proof.
  intros Ho Hn. destruct (Z.eq_dec offset (Z.of_nat (length items))) as [->|Hne].
  { unfold paginate. destruct (Z.ltb_spec (Z.of_nat (length items)) 0); [lia|]. rewrite Z.leb_refl. by rewrite drop_ge by lia. }
  rewrite paginate_page by (unfold maxPageSize in *; lia). cbv zeta. set (e := Z.min _ _).
  assert (offset < e <= Z.of_nat (length items)) by (unfold maxPageSize in *; lia).
  destruct (Z.ltb_spec e (Z.of_nat (length items))); [|by rewrite take_ge by lia].
  exists e. split_and!; [done|lia|lia|]. rewrite <- (take_drop (Z.to_nat e) items) at 3. by rewrite drop_app_le by (rewrite length_take; lia).
Qed.

(** ** The audit log through the client *)

Section composed.
Context `{!Json} `{!JsonLaws}.
Context {KS CS SS : Type} `{!KeyStore KS} `{!CounterStore CS} `{!SessionStore SS}.
Notation hserver := (HServer KS CS SS).
Notation handler := (hserver → hserver * list wact).
Notation keys s := (keys_of (Service_store (h_auth s))).
Context (rand : nat → nat → result bytes) (clock : nat → hclock) (rnd : nat → result bytes).
Context (other : endpoint → option cbody → Request → context → handler) (unrouted : routed → hresp).
Notation transport := (serve rand clock rnd other unrouted).
Notation built := (λ _ : string, None).
(** The key store takes every write. *)
Context (Hput : ∀ (k : APIKey) (st : KS), (PutAPIKey k st).2 = None).
Context (c : Client).

(** The client's token is that of a key with the scope, good whenever it is used. *)
Definition holds (scope : string) (s : hserver) : Prop :=
  TrimSpace (cl_token c) = cl_token c ∧
  ∃ key, HasScope key scope = true ∧ ∀ i, credential (keys s) (hk_auth (clock i)) (cl_token c) key.

Lemma credential_used m (ts : nat → Time) tok key t : (∀ i, credential m (ts i) tok key) →
  ∃ key', (key' = key ∨ key' = set_used t key) ∧ ∀ i, credential (<[APIKey_ID key := set_used t key]> m) (ts i) tok key'.
Proof.
  intros Hc. destruct (Hc 0%nat) as (id & sec & Hp & Hm & Hh & Hr & _).
  assert (∀ i, Expired key (ts i) = false) as He by (intros i; by destruct (Hc i) as (? & ? & _ & _ & _ & _ & ?)).
  destruct (decide (APIKey_ID key = id)) as [E|E]; [exists (set_used t key)|exists key]; (split; [by auto|]); intros i; exists id, sec.
  - rewrite E, lookup_insert_eq. split_and!; try done. apply (He i).
  - rewrite lookup_insert_ne by done. by split_and!.
Qed.

(** The gate lets the client's request through and counts the use. *)
Lemma gate_open scope (h : context → handler) n q values ctx (s : hserver) :
  holds scope s → q_authorization q = "Bearer " +:+ cl_token c →
  ∃ a key, requireScope scope h (clock n) (received q values) ctx s = h (withKey key ctx) (set_auth a s) ∧ holds scope (set_auth a s).
Proof.
  intros (Ht & key & Hs & Hc) Hq.
  assert (cl_token c ≠ "") as Hne by (intros E; destruct (Hc 0%nat) as (? & ? & Hp & _); by rewrite E in Hp).
  unfold requireScope, authMiddleware. rewrite (token_received q values _ Hne Ht Hq).
  pose proof (authenticate_good (hk_auth (clock n)) (hk_used (clock n)) (cl_token c) (h_auth s) key (Hc n)) as Ha.
  destruct (Authenticate _ _ _ _) as [a res] eqn:Ea. destruct Ha as [[-> Hk]|(e & -> & _)].
  - exists a, (set_used (hk_used (clock n)) key). unfold scopeMiddleware. cbn [c_key withKey].
    change (HasScope (set_used _ key) scope) with (HasScope key scope). rewrite Hs. split; [done|]. split; [done|].
    destruct (credential_used _ _ _ _ (hk_used (clock n)) Hc) as (key' & Hk' & Hc'). exists key'. split; [by destruct Hk' as [->| ->]|].
    intros i. cbn [h_auth set_auth]. rewrite Hk. apply Hc'.
  - exfalso. clear -Ea Hput. unfold Authenticate in Ea. repeat case_match; simplify_eq.
    match goal with H : PutAPIKey ?k ?st = _ |- _ => pose proof (Hput k st) as Hp; by rewrite H in Hp end.
Qed.

Definition audit_entries (f : Filter) (s : hserver) : list Entry :=
  match h_auditLog s with Some log => AuditLog.List (wire_filter f) 0 log | None => [] end.

Lemma audit_route q : named filter_names q → ∀ cursor, ∃ rt,
  route_target "GET" (page_path "/v1/admin/audit" (query_suffix q) cursor) = Routed rt [] ∧
  rt_endpoint rt = EpAdminAudit ∧ rt_gate rt = Scope ScopeAuditRead.
Proof.
  intros Hq cursor. unfold route_target. rewrite page_query by (repeat (split; [discriminate|]); exact I). cbn [fst].
  eexists. split; [vm_compute; reflexivity|]. done.
Qed.

Lemma audit_answer f cursor q (s : hserver) :
  q_target q = page_path "/v1/admin/audit" (auditQuery f) cursor →
  handleAdminAudit (received q []) s = (s, writeList (map RAudit (audit_entries f s)) maxPageSize (decodeCursor cursor)).
Proof.
  intros Hq. unfold handleAdminAudit, received. rewrite Hq. unfold auditQuery.
  rewrite page_query by (repeat (split; [discriminate|]); exact I).
  unfold parsePageParams. cbn [r_Query]. rewrite parse_pairs, !page_get by apply filters_named. rewrite !audit_get.
  cbn [String.eqb Ascii.eqb Bool.eqb andb]. rewrite !parse_time_text. reflexivity.
Qed.

(** One page. *)
Lemma audit_page n f cursor (s : hserver) : holds ScopeAuditRead s → Forall json_entry (audit_entries f s) →
  let '(page, next) := paginate (audit_entries f s) maxPageSize (decodeCursor cursor) in
  ∃ a got, holds ScopeAuditRead (set_auth a s) ∧ Forall2 same_record page got ∧
    do transport built c "GET" (page_path "/v1/admin/audit" (auditQuery f) cursor) None jd_audit (n, s) =
      ((S n, set_auth a s), inl (got, next)).
Proof.
  intros Hh Hj. pose proof (paginate_Forall _ _ maxPageSize (decodeCursor cursor) Hj) as Hpage.
  destruct (paginate (audit_entries f s) maxPageSize (decodeCursor cursor)) as [page next] eqn:Epage. cbn [fst] in Hpage.
  unfold do. assert (cl_token c ≠ "") as Hne%String.eqb_neq.
  { destruct Hh as (_ & key & _ & Hc). intros E. destruct (Hc 0%nat) as (? & ? & Hp & _). by rewrite E in Hp. }
  rewrite Hne. cbn [negb]. set (q := mkReq _ _ _ _ _ _).
  destruct (audit_route _ (proj1 filters_named f) cursor) as (rt & H1 & H2 & H3).
  unfold serve. rewrite (H1 : route_target (q_method q) (q_target q) = _), H2, H3. unfold requestIDMiddleware, gated.
  destruct (gate_open ScopeAuditRead (endpoint_handler rand other EpAdminAudit (q_body q) (received q []) (clock n)) n q []
    (mkContext None (Some (requestID (rnd n) (received q [])))) s Hh eq_refl) as (a & key & -> & Hh').
  exists a. cbn [endpoint_handler]. rewrite (audit_answer f cursor q) by done.
  change (audit_entries f (set_auth a s)) with (audit_entries f s). unfold writeList. rewrite paginate_map, Epage. cbn [fst snd].
  edestruct (jl_audit page next) as (got & Hd & Hr); [exact Hpage|].
  exists got. split; [done|]. split; [exact Hr|]. unfold respond. cbn. by rewrite Hd.
Qed.

Lemma audit_loop fuel f (items : list Entry) : Z.of_nat (length items) <= maxInt64 - maxPageSize → Forall json_entry items →
  ∀ n cursor all (s : hserver), audit_entries f s = items → holds ScopeAuditRead s →
  0 <= decodeCursor cursor <= Z.of_nat (length items) → (length items - Z.to_nat (decodeCursor cursor) < fuel)%nat →
  ∃ n' a got, list_loop transport built c fuel "/v1/admin/audit" (auditQuery f) jd_audit cursor all (n, s) =
    Some ((n', set_auth a s), inl (all ++ got)) ∧ Forall2 same_record (drop (Z.to_nat (decodeCursor cursor)) items) got.
Proof.
  intros Hn Hj. induction fuel as [|fuel IH]; intros n cursor all s Hi Hh Ho Hf; [lia|]. cbn [list_loop].
  pose proof (audit_page n f cursor s Hh) as Hpg. rewrite Hi in Hpg. specialize (Hpg Hj).
  pose proof (paginate_rest items (decodeCursor cursor) Ho Hn) as Hp.
  destruct (paginate items maxPageSize (decodeCursor cursor)) as [page [next|]]; destruct Hpg as (a & got & Hh' & Hg & ->).
  - destruct Hp as (off & -> & Hoff & Hd).
    assert (decodeCursor (encodeCursor off) = off) as Hdec by (apply decode_encode; unfold maxPageSize, maxInt64 in *; lia).
    destruct (IH (S n) (encodeCursor off) (all ++ got) (set_auth a s)) as (n' & a' & rest & -> & Hr); [done|done|rewrite Hdec; lia..|].
    exists n', a', (got ++ rest). rewrite Hdec in Hr. split; [by rewrite <- app_assoc|]. rewrite <- Hd. by apply Forall2_app.
  - exists (S n), a, got. by rewrite <- Hp.
Qed.

(** A request whose token the server refuses. *)
Lemma page_refused {T} n base q cursor (dec : list payload → result T) rt scope (s : hserver) :
  route_target "GET" (page_path base q cursor) = Routed rt [] → rt_gate rt = Scope scope →
  TrimSpace (cl_token c) = cl_token c → (∀ key, ¬ credential (keys s) (hk_auth (clock n)) (cl_token c) key) →
  ∃ e, do transport built c "GET" (page_path base q cursor) None dec (n, s) = ((S n, s), inr (CAPI e)) ∧
    AE_Status e = 401 ∧ AE_class e = Some ClUnauthorized.
Proof.
  intros Hr Hg Ht Hno. unfold do. set (req := mkReq _ _ _ _ _ _). unfold serve.
  rewrite (Hr : route_target (q_method req) (q_target req) = _), Hg. unfold requestIDMiddleware, gated, requireScope.
  match goal with |- context [authMiddleware ?h ?k ?r ?ctx s] => pose proof (auth_refused h k r ctx s) as Hx end.
  match type of Hx with ?P → _ => assert P as Hp end.
  { intros key (tok & Htok & Hc). apply (Hno key). destruct (String.eqb_spec (cl_token c) "") as [E|E].
    - unfold received in Htok. destruct (split_target _). unfold tokenFromRequest, bearerToken, req in Htok. cbn in Htok.
      by rewrite ?E in Htok.
    - rewrite (token_received req [] (cl_token c)) in Htok; [|done|done|].
      + by injection Htok as <-.
      + done. }
  specialize (Hx Hp). destruct (authMiddleware _ _ _ _ s) as [s' acts]. destruct Hx as [-> Hst].
  destruct (respond_set "X-Request-Id" (requestID (rnd n) (received req [])) acts) as [H1 H2]. rewrite H1, H2, Hst.
  eexists. split; [reflexivity|]. unfold parseError. cbn [p_status p_body]. by destruct (jd_error _).
Qed.

(** C37: The audit trail through the client is the audit trail. A client whose
    key is good throughout and may read the audit log gets, from as many pages as it
    takes, one record for each entry of the log that passes its filter with the time
    bounds rounded down to whole seconds ([wire_time_floor]), newest first, none twice
    and none missing.  A record is that of its entry in time, actor, operation, target,
    request id, outcome and the names of the snapshots' fields; the values of the
    snapshots are what JSON makes of them.  The entries are such that JSON can carry them
    (UTF-8, times before the year 10000).  The log is left as it was, and the calls only
    count as uses of the key.  A token that no key accepts gets the unauthorized error
    from the first page, and the server does not change. *)
Theorem client_lists_audit n f (s : hserver) :
  (holds ScopeAuditRead s → Z.of_nat (length (audit_entries f s)) <= maxInt64 - maxPageSize → Forall json_entry (audit_entries f s) →
   ∀ fuel, (length (audit_entries f s) < fuel)%nat →
   ∃ n' a got, ListAudit transport built c fuel f (n, s) = Some ((n', set_auth a s), inl got) ∧
     Forall2 same_record (audit_entries f s) got) ∧
  (∀ log, h_auditLog s = Some log →
   (∀ e, e ∈ audit_entries f s ↔ e ∈ ms_entries log ∧ selected (wire_filter f) e) ∧
   audit_entries f s ⊆+ ms_entries log ∧
   length (audit_entries f s) = length (filter (λ e, matches (wire_filter f) e = true) (ms_entries log)) ∧
   StronglySorted (λ a b, Entry_Time b <= Entry_Time a) (audit_entries f s)) ∧
  (TrimSpace (cl_token c) = cl_token c → (∀ key, ¬ credential (keys s) (hk_auth (clock n)) (cl_token c) key) →
   ∀ fuel, ∃ e, ListAudit transport built c (S fuel) f (n, s) = Some ((S n, s), inr (CAPI e)) ∧
     AE_Status e = 401 ∧ AE_class e = Some ClUnauthorized).
Proof.
  split; [|split].
  - intros Hh Hn Hj fuel Hf. destruct (audit_loop fuel f _ Hn Hj n "" [] s eq_refl Hh) as (n' & a & got & E & Hg); [cbn; lia..|].
    exists n', a, got. exact (conj E Hg).
  - intros log Hl. unfold audit_entries. rewrite Hl. destruct (audit_list_spec (wire_filter f) 0 log) as (H1 & H2 & H3 & _).
    split_and!; [exact H1| |exact H2|exact H3]. rewrite List_eq. cbv zeta. change (0 <? 0) with false. cbv iota.
    rewrite SliceStable_perm. apply sublist_submseteq, sublist_filter.
  - intros Ht Hno fuel. destruct (audit_route _ (proj1 filters_named f) "") as (rt & H1 & _ & H3).
    destruct (page_refused n "/v1/admin/audit" (auditQuery f) "" jd_audit rt _ s H1 H3 Ht Hno) as (e & E & He).
    exists e. split; [|done]. unfold ListAudit. cbn [list_loop]. by rewrite E.
Qed.
End composed.

(** ** Witnesses *)

#[local] Instance client_demo_keys : KeyStore Memory := Memory_KeyStore Auth.demo_range (Hrange := Auth.demo_range_ok).
#[local] Instance client_demo_sess : SessionStore MemorySessionStore := MSS_SessionStore demo_sessions demo_sessions_ok.
Lemma demo_put (k : APIKey) (st : Memory) : (PutAPIKey k st).2 = None.
Proof. reflexivity. Defined.
Definition demo_admin_key : APIKey :=
  mkAPIKey "k7" "ops" Prefix (hashSecret [1] "s3cret") [1] 5 0 0 None "" "" None "" [] [ScopeAuditRead] [] [] None.
Definition demo_audit_entry (op : string) : Entry := AuditLog.mkEntry 0 "k7" op "k1" None None "" OutcomeSuccess.
Definition demo_audit_log : MemoryStore :=
  (AuditLog.Append 9 (demo_audit_entry "key.rotate") (AuditLog.Append 8 (demo_audit_entry "key.create") (NewMemoryStore 10)).1).1.
Definition demo_audit_server : HServer Memory MemoryCounterStore MemorySessionStore :=
  NewServer ex_one (mkService (mkMemory {[ "k7" := demo_admin_key ]}) 0) (Some demo_audit_log).
Definition demo_other_routes (e : endpoint) (b : option cbody) (r : Request) (c : context)
    (s : HServer Memory MemoryCounterStore MemorySessionStore) := (s, writeError StatusNotFound "not_found" "not served").

Lemma client_lists_audit_witness :
  ∃ n' a got, ListAudit (serve Auth.demo_rand (λ _, demo_hclock 5) (λ _, Ok [1]) demo_other_routes (λ _, mkResp 404 [])) (λ _, None)
    (mkClient "http://h" (formatToken "k7" "s3cret")) 5 (mkFilter "" "key.create" "" 0 0) (0%nat, demo_audit_server) =
  Some ((n', set_auth a demo_audit_server), inl got) ∧
  Forall2 same_record (audit_entries (mkFilter "" "key.create" "" 0 0) demo_audit_server) got ∧ length got = 1%nat.
Proof.
  assert (length (audit_entries (mkFilter "" "key.create" "" 0 0) demo_audit_server) = 1%nat) as Hl by (vm_compute; reflexivity).
  destruct (proj1 (client_lists_audit Auth.demo_rand (λ _, demo_hclock 5) (λ _, Ok [1]) demo_other_routes (λ _, mkResp 404 [])
    demo_put (mkClient "http://h" (formatToken "k7" "s3cret")) 0%nat (mkFilter "" "key.create" "" 0 0) demo_audit_server)) with (fuel := 5%nat)
    as (n' & a & got & E & Hg).
  - split; [vm_compute; reflexivity|]. exists demo_admin_key. split; [vm_compute; reflexivity|]. intros i. exists "k7", "s3cret".
    split_and!; [vm_compute; reflexivity|exact eq_refl..].
  - rewrite Hl. vm_compute. discriminate.
  - vm_compute audit_entries. apply Forall_cons_2; [|apply Forall_nil_2]. split; [vm_compute; split; [discriminate|reflexivity]|].
    split; [repeat (apply Forall_cons_2; [reflexivity|]); apply Forall_nil_2|split; apply Forall_nil_2].
  - rewrite Hl. lia.
  - exists n', a, got. split; [exact E|]. split; [exact Hg|]. rewrite <- (Forall2_length _ _ _ Hg). exact Hl.
Defined.
