(* ===== verification/Cli.v ===== *)
(** * Cli.v: the management commands of the agentgpu binary (cmd/agentgpu)

    main.go's exit codes, mode.go's choice between the running server and the key
    file, and the key, quota, workers, users and config commands.  A command is a
    computation in [cmd]: it changes the files and the server behind the client's
    transport, prints, and returns a value or an error.  [None] is a list of the
    server that has not ended within [fuel] pages. *)

From Stdlib Require Import Ascii.
From S2P Require Import Prelude Errors AtomicFile GoTime GoFloat GoStrings GoConv GoText GoDuration GoFlag GoHeap GoSort GoUrl Config Types Store Authz Auth Quota Http AdminApi RuntimeConfig ConsoleViews ApiClient.
Open Scope Z_scope.

(** ** Errors and exit codes (main.go, dispatch.go) *)

Inductive cli_error :=
| EHelp                                (* flag.ErrHelp *)
| EUsage (msg : string)                (* usagef *)
| EFlags (e : flag_error)              (* a parse error, as a usageError *)
| EClient (e : cerror)
| ELocal (e : error).

Definition exitOK : Z := 0.
Definition exitError : Z := 1.
Definition exitUsage : Z := 2.
Definition exitAuth : Z := 3.
Definition exitNotFound : Z := 4.
Definition exitNetwork : Z := 5.

(** [net] tells the errors of the system and of the decoders that have a net.Error
    in their chain. What [Client.Do] and [http.NewRequest] return is a *url.Error,
    which is one. *)
Definition isNetworkError (net : error → bool) (err : cli_error) : bool :=
  match err with
  | EClient (CTransport _ _ _) | EClient (CBuild _) => true
  | EClient (CDecode e) | ELocal e => net e
  | _ => false
  end.
Definition exitCode (net : error → bool) (err : option cli_error) : Z :=
  match err with
  | None => exitOK
  | Some e =>
      match e with
      | EHelp => exitOK
      | EUsage _ | EFlags _ => exitUsage
      | EClient (CAPI a) =>
          match AE_class a with
          | Some ClUnauthorized | Some ClForbidden => exitAuth
          | Some ClNotFound => exitNotFound
          | _ => exitError
          end
      | _ => if isNetworkError net e then exitNetwork else exitError
      end
  end.

(** ** Commands *)

(** A table is what is written to the tabwriter, by cells. *)
Inductive line := Text (s : string) | Table (rows : list (list string)).

Record world (W : Type) := mkWorld { w_files : gmap string bytes; w_server : W }.
Arguments mkWorld {_}. Arguments w_files {_}. Arguments w_server {_}.
Definition cmd (W A : Type) : Type := world W → option (world W * list line * (A + cli_error)).

Section monad.
Context {W : Type}.
Definition ret {A} (a : A) : cmd W A := λ w, Some (w, [], inl a).
Definition fail {A} (e : cli_error) : cmd W A := λ w, Some (w, [], inr e).
Definition bind {A B} (m : cmd W A) (k : A → cmd W B) : cmd W B := λ w,
  match m w with
  | None => None
  | Some (w, out, inr e) => Some (w, out, inr e)
  | Some (w, out, inl a) =>
      match k a w with
      | None => None
      | Some (w, out', r) => Some (w, out ++ out', r)
      end
  end.
Definition print (l : list line) : cmd W unit := λ w, Some (w, l, inl tt).
Definition call {A} (m : W → W * (A + cerror)) : cmd W A := λ w,
  match m (w_server w) with
  | (s, inl a) => Some (mkWorld (w_files w) s, [], inl a)
  | (s, inr e) => Some (mkWorld (w_files w) s, [], inr (EClient e))
  end.
Definition call_list {A} (m : W → option (W * (A + cerror))) : cmd W A := λ w,
  match m (w_server w) with None => None | Some r => call (λ _, r) w end.
End monad.
Notation "'let*' x ':=' m 'in' k" := (bind m (λ x, k)) (at level 10, x pattern, m at level 100, k at level 200).

(** ** Texts *)

Definition fmtList (xs : list string) : string := match xs with [] => "-" | _ => Join xs "," end.
Definition fmtStr (s : string) : string := if String.eqb s "" then "-" else s.
Definition fmtLimit (v : Z) : string := if v =? 0 then "unlimited" else FormatUint v.
Definition fmtUint (v : Z) : string := FormatUint v.
(** [time.RFC3339] of a time in UTC. *)
Definition RFC3339 (t : Time) : string :=
  let secs := (t mod DayNs) / Second in
  pad4 (Year t) +:+ "-" +:+ pad2 (Month t) +:+ "-" +:+ pad2 (Day t) +:+ "T" +:+ pad2 (secs / 3600) +:+ ":" +:+
  pad2 (secs / 60 mod 60) +:+ ":" +:+ pad2 (secs mod 60) +:+ "Z".
Definition fmtTime (t : Time) : string := if IsZero t then "-" else RFC3339 (UTC t).
Definition fmtUnix (sec : Z) : string := if sec =? 0 then "-" else RFC3339 (UTC (Unix sec)).
Definition fmtBool (b : bool) : string := if b then "true" else "false".
Definition fmtBytes (b : Z) : string :=
  if b =? 0 then "-"
  else if b <? 1024 then FormatUint b +:+ " B"
  else
    let '(div, exp) := bytes_loop 6 (b / 1024) 1024 0 in
    FormatFloat1 (fdiv (float64 b) (float64 div)) +:+ " " +:+ default "" (["K"; "M"; "G"; "T"; "P"; "E"] !! exp) +:+ "iB".
Definition fmtUptime (secs : Z) : string := if secs <=? 0 then "-" else Duration_String (i64 (secs * Second)).
Definition sort_strings : list string → list string := SliceStable String.ltb.
Definition fmtModels (models : list string) : string := match models with [] => "-" | _ => fmtList (sort_strings models) end.
Example cli_texts_1 : fmtUnix 1700000000 = "2023-11-14T22:13:20Z" ∧ fmtBytes 42949672960 = "40.0 GiB" ∧ fmtBytes (2 ^ 64 - 1) = "16.0 EiB" ∧
  fmtUptime 3725 = "1h2m5s" ∧ fmtModels ["b"; "a"] = "a,b".
Proof. vm_compute. done. Qed.

(** ** Arguments *)

Definition isHelpArg (s : string) : bool := String.eqb s "-h" || String.eqb s "--help" || String.eqb s "help".

Definition clientValueFlags : list string := ["server"; "url"; "token"; "store"].
Fixpoint TrimLeft_dashes (s : string) : string :=
  match s with String "-" s => TrimLeft_dashes s | _ => s end.
Definition is_flag (a : string) : bool := match a with String "-" _ => true | _ => false end.
(** The flag consumes the argument after it. *)
Definition takes_next (valueFlags : list string) (a : string) : bool :=
  negb (Contains a "=") && str_mem (TrimLeft_dashes a) valueFlags.
Fixpoint reorder_loop (valueFlags args : list string) (flags positional : list string) : list string :=
  match args with
  | [] => flags ++ positional
  | a :: rest =>
      if is_flag a then
        match rest with
        | v :: rest' => if takes_next valueFlags a then reorder_loop valueFlags rest' (flags ++ [a; v]) positional
                        else reorder_loop valueFlags rest (flags ++ [a]) positional
        | [] => reorder_loop valueFlags rest (flags ++ [a]) positional
        end
      else reorder_loop valueFlags rest flags (positional ++ [a])
  end.
Definition reorderFlagsFirst (args valueFlags : list string) : list string := reorder_loop valueFlags args [] [].
Example reorder_1 : reorderFlagsFirst ["k1"; "--token"; "-t"; "--local"; "x"; "--rpm=5"] ("rpm" :: clientValueFlags) =
  ["--token"; "-t"; "--local"; "--rpm=5"; "k1"; "x"].
Proof. vm_compute. reflexivity. Qed.

(** The mode-selection flags; http-only commands have no --local and --store. *)
Definition registerClientFlags (withLocal : bool) : list flagdef :=
  [mkFlag "server" FString "server"; mkFlag "token" FString "token"; mkFlag "url" FString "server"] ++
  (if withLocal then [mkFlag "local" FBool "local"; mkFlag "store" FString "store"] else []).
Definition isLocal (l : list assignment) : bool := flag_bool "local" l.

(** ** users.go *)

Record userGroup := mkUserGroup { ug_label : string; ug_keys : Z; ug_active : Z; ug_roles : list string }.
Definition unassigned : string := "(unassigned)".
Definition key_label (dim : string) (k : adminKeyView) : string :=
  let label := if String.eqb dim "team" then KV_Team k else KV_Owner k in
  if String.eqb (TrimSpace label) "" then unassigned else label.
(** The counts and the set of roles of a label. *)
Definition agg : Type := Z * Z * gset string.
Definition add_key (k : adminKeyView) (a : option agg) : option agg :=
  let '(keys, active, roles) := default (0, 0, ∅) a in
  Some (keys + 1, if KV_Revoked k then active else active + 1, roles ∪ list_to_set (KV_Roles k)).
Definition by_label (dim : string) (keys : list adminKeyView) : gmap string agg :=
  fold_left (λ m k, partial_alter (add_key k) (key_label dim k) m) keys ∅.
(** The labels and the roles are sorted, whatever order the maps are walked in. *)
Definition groupKeysByLabel (keys : list adminKeyView) (dim : string) : list userGroup :=
  SliceStable (λ a b, String.ltb (ug_label a) (ug_label b))
    (map (λ '(label, (n, active, roles)), mkUserGroup label n active (sort_strings (elements roles))) (map_to_list (by_label dim keys))).

(** ** config.go *)

Definition configIntFields : list string :=
  ["quota_default_rpm"; "quota_default_tpm"; "quota_default_daily_tokens"; "quota_default_monthly_tokens"; "quota_global_rpm";
   "quota_global_tpm"; "session_max_turns"; "session_max_bytes"; "session_max_context_tokens"; "session_max_sessions_per_key"].
Fixpoint parse_pairs_loop (quote : string → string) (pairs : list string) (patch : gmap string rawjson) : gmap string rawjson + cli_error :=
  match pairs with
  | [] => inl patch
  | p :: pairs =>
      match cut "=" p with
      | None => inr (EUsage ("config set: " +:+ quote p +:+ " is not a field=value pair"))
      | Some (k, v) =>
          if String.eqb k "" then inr (EUsage ("config set: " +:+ quote p +:+ " is not a field=value pair"))
          else match patch !! k with
               | Some _ => inr (EUsage ("config set: field " +:+ quote k +:+ " specified more than once"))
               | None =>
                   if str_mem k configIntFields then
                     match ParseUint v with
                     | None => inr (EUsage ("config set: " +:+ k +:+ " must be a non-negative integer, got " +:+ quote v))
                     | Some n => parse_pairs_loop quote pairs (<[k := JInt n]> patch)
                     end
                   else parse_pairs_loop quote pairs (<[k := JStr v]> patch)
               end
      end
  end.
Definition parseConfigPairs (quote : string → string) (pairs : list string) : gmap string rawjson + cli_error :=
  parse_pairs_loop quote pairs ∅.

Definition sortRows : list (string * string) → list (string * string) := SliceStable (λ a b, String.ltb a.1 b.1).
Definition configSettingRows (s : ConfigSettings) : list (string * string) :=
  sortRows [("log_level", LogLevel s); ("quota_default_rpm", fmtUint (QuotaDefaultRPM s)); ("quota_default_tpm", fmtUint (QuotaDefaultTPM s));
    ("quota_default_daily_tokens", fmtUint (QuotaDefaultDailyTokens s)); ("quota_default_monthly_tokens", fmtUint (QuotaDefaultMonthlyTokens s));
    ("quota_global_rpm", fmtUint (QuotaGlobalRPM s)); ("quota_global_tpm", fmtUint (QuotaGlobalTPM s)); ("session_ttl", fmtStr (SessionTTL s));
    ("session_max_turns", Itoa (SessionMaxTurns s)); ("session_max_bytes", Itoa (SessionMaxBytes s));
    ("session_max_context_tokens", Itoa (SessionMaxContextTokens s)); ("session_max_sessions_per_key", Itoa (SessionMaxSessionsPerKey s));
    ("session_overflow_policy", fmtStr (SessionOverflowPolicy s)); ("model_warm_max", fmtStr (SettingModelWarmMax s));
    ("heartbeat_timeout", fmtStr (SettingHeartbeatTimeout s))].
Definition configReadOnlyRows (r : ConfigReadOnly) : list (string * string) :=
  sortRows [("server_listen", fmtStr (ServerListen r)); ("server_http_listen", fmtStr (ServerHTTPListen r));
    ("server_metrics_listen", fmtStr (ServerMetricsListen r)); ("quota_path", fmtStr (QuotaPath r)); ("session_path", fmtStr (SessionPath r));
    ("log_format", fmtStr (LogFormat r)); ("log_output", fmtStr (LogOutput r))].
Definition rows_table (rows : list (string * string)) : line := Table (["SETTING"; "VALUE"] :: map (λ kv, [kv.1; kv.2]) rows).
Definition printConfig (resp : ConfigSettings * ConfigReadOnly * list string) : list line :=
  let '(settings, boot, readOnly) := resp in
  rows_table (configSettingRows settings) ::
  match readOnly with
  | [] => []
  | _ => [Text ""; Text "Read-only (restart to change):"; rows_table (configReadOnlyRows boot)]
  end.

(** ** Commands that keep the files *)

Section files.
Context {W : Type}.
Notation cmd := (Cli.cmd W).
(** The command leaves the files alone. *)
Definition keeps {A} (m : cmd A) : Prop := ∀ w w' out r, m w = Some (w', out, r) → w_files w' = w_files w.

Lemma keeps_ret {A} (a : A) : keeps (ret a).
Proof. intros w w' out r [= <- _ _]. done. Qed.
Lemma keeps_fail {A} e : keeps (@fail W A e).
Proof. intros w w' out r [= <- _ _]. done. Qed.
Lemma keeps_print l : keeps (print l).
Proof. intros w w' out r [= <- _ _]. done. Qed.
Lemma keeps_call {A} (m : W → W * (A + cerror)) : keeps (call m).
Proof. intros w w' out r. unfold call. destruct (m _) as [s [a|e]]; by intros [= <- _ _]. Qed.
Lemma keeps_call_list {A} (m : W → option (W * (A + cerror))) : keeps (call_list m).
Proof. intros w w' out r. unfold call_list. destruct (m _); [|done]. apply keeps_call. Qed.
Lemma bind_inv {A B} (m : cmd A) (k : A → cmd B) w w' out r : bind m k w = Some (w', out, r) →
  (∃ e, m w = Some (w', out, inr e) ∧ r = inr e) ∨
  ∃ w1 a out1 out2, m w = Some (w1, out1, inl a) ∧ k a w1 = Some (w', out2, r) ∧ out = out1 ++ out2.
Proof.
  unfold bind. destruct (m w) as [[[w1 o1] [a|e]]|]; [|intros [= <- <- <-]; left; by exists e|done].
  destruct (k a w1) as [[[w2 o2] r2]|] eqn:E; [|done]. intros [= <- <- <-]. right. by exists w1, a, o1, o2.
Qed.
Lemma keeps_bind {A B} (m : cmd A) (k : A → cmd B) : keeps m → (∀ a, keeps (k a)) → keeps (bind m k).
Proof.
  intros Hm Hk w w' out r [(e & E & _)|(w1 & a & o1 & o2 & E & E' & _)]%bind_inv; [by eapply Hm|].
  etransitivity; [by eapply Hk|by eapply Hm].
Qed.
End files.
Create HintDb cli.
#[export] Hint Resolve keeps_ret keeps_fail keeps_print keeps_call keeps_call_list : cli.

(** Walk through a command that keeps the files. *)
Ltac keeps_walk :=
  repeat first
    [solve [eauto with cli]
    |apply keeps_bind
    |progress intros
    |match goal with |- keeps (match ?x with _ => _ end) => destruct x end
    |match goal with |- keeps (let '(_, _) := ?x in _) => destruct x end].

(** ** The commands *)

(** The system calls of one process: what the file system answers and the clock. *)
Record localIO := mkLocalIO {
  lio_mkdir : option error; lio_read : option error; lio_flush : list flushIO; lio_quotaRead : option error; lio_now : Time }.

Section commands.
Context `{HJson : Json} {W : Type} (Do : W → hreq → W * result hresp) (build : string → option error) (fuel : nat).
Context (os_LookupEnv : EnvLookup) (os_UserHomeDir : result string).
Context (range_keys : keyset → list APIKey) (Hrange : range_spec range_keys).
Context (marshal : list APIKey → result bytes) (unmarshal : bytes → result (list APIKey)).
Context (unmarshal_counters : bytes → result (option (gmap string Counters))).
Context (rand : nat → nat → result bytes) (quote : string → string) (io : localIO).
#[local] Instance cli_store : KeyStore File := File_KeyStore range_keys marshal (Hrange := Hrange).
Notation cmd := (cmd W).
Notation service := (@Service File).

(** *** mode.go *)

Definition parseFlags (defs : list flagdef) (args : list string) : cmd (list assignment * list string) :=
  match flag_Parse defs args with
  | inl r => ret r
  | inr FlagHelp => fail EHelp
  | inr e => fail (EFlags e)
  end.
Definition groupHelp : cmd unit := fail EHelp.

Definition client (withLocal : bool) (l : list assignment) : cmd Client :=
  let base := ResolveHTTPAddr os_LookupEnv (flag_string "server" "" l) None in
  let token := ResolveToken os_LookupEnv (flag_string "token" "" l) None in
  if String.eqb token "" then
    fail (EUsage ("no admin token configured: set --token or $" +:+ EnvToken +:+ " to manage a running server" +:+
      (if withLocal then ", or use --local to manage the on-disk store for offline bootstrap" else "")))
  else ret (New base token).

Definition openStore (storeFlag : string) : cmd File := λ w,
  let path := ResolveStorePath os_LookupEnv os_UserHomeDir storeFlag None None in
  match NewFile unmarshal path (lio_mkdir io) (lio_read io) (w_files w !! path) (lio_flush io) with
  | Ok f => Some (w, [], inl f)
  | Err e => Some (w, [], inr (ELocal e))
  end.
Definition localService (l : list assignment) : cmd service :=
  let* st := openStore (flag_string "store" "" l) in ret (NewService st).

Definition errLocalNotEmpty (op : string) : cli_error :=
  EUsage (op +:+ ": --local is only for bootstrapping the first admin key on an empty store; " +:+
    "the store already has keys, so use --server <addr> (with --token) to manage a running server").
Definition localBootstrapService (l : list assignment) (op : string) : cmd service :=
  let* svc := localService l in
  match Auth.List svc with
  | [] => ret svc
  | _ => fail (errLocalNotEmpty op)
  end.

(** A call of the key service; the keys file is what the store wrote. *)
Definition on_store {A} (f : service → service * result A) (svc : service) : cmd A := λ w,
  let '(svc, r) := f svc in
  let st := Service_store svc in
  let w := mkWorld (partial_alter (λ _, File_disk st) (File_path st) (w_files w)) (w_server w) in
  match r with
  | Ok a => Some (w, [], inl a)
  | Err e => Some (w, [], inr (ELocal e))
  end.

Definition printToken (token : string) : cmd unit :=
  print [Text ""; Text ("Token: " +:+ token); Text "Save it now — it will not be shown again."].
Definition noteLocalRestart : cmd unit :=
  print [Text "(local store updated; restart a running server for it to take effect)"].

(** *** key.go *)

Definition list_line (roles allow deny : list string) : line :=
  Text ("Roles: " +:+ fmtList roles +:+ "  Allow: " +:+ fmtList allow +:+ "  Deny: " +:+ fmtList deny).
Definition created_lines (name id : string) (roles allow deny : list string) : list line :=
  Text ("Created key " +:+ quote name +:+ " (id: " +:+ id +:+ ")") ::
  match roles, allow, deny with [], [], [] => [] | _, _, _ => [list_line roles allow deny] end.

Definition runKeyCreateHTTP (l : list assignment) (name : string) (roles allow deny : list string) : cmd unit :=
  let* c := client true l in
  let* resp := call (CreateKey Do build c (mkCreateReq name "" "" roles [] allow deny None)) in
  let* _ := print (created_lines (CR_Name resp) (CR_ID resp) (CR_Roles resp) (CR_AllowModels resp) (CR_DenyModels resp)) in
  printToken (CR_Token resp).
Definition runKeyCreateLocal (l : list assignment) (name : string) (roles allow deny : list string) : cmd unit :=
  let* svc := localBootstrapService l "key create" in
  let perms := mkPermissions roles [] allow deny "" "" None "" in
  let* (token, key) := on_store (CreateWithPermissions rand (lio_now io) name perms) svc in
  let* _ := print (created_lines (APIKey_Name key) (APIKey_ID key) (APIKey_Roles key) (APIKey_AllowModels key) (APIKey_DenyModels key)) in
  let* _ := printToken token in
  noteLocalRestart.
Definition perm_flags : list flagdef :=
  [mkFlag "role" FString "role"; mkFlag "allow-model" FString "allow-model"; mkFlag "deny-model" FString "deny-model"].
Definition runKeyCreate (args : list string) : cmd unit :=
  let* (l, _) := parseFlags (registerClientFlags true ++ mkFlag "name" FString "name" :: perm_flags) args in
  let name := flag_string "name" "" l in
  let roles := flag_strings "role" l in
  let allow := flag_strings "allow-model" l in
  let deny := flag_strings "deny-model" l in
  if String.eqb name "" then fail (EUsage "key create: --name is required")
  else if isLocal l then runKeyCreateLocal l name roles allow deny
  else runKeyCreateHTTP l name roles allow deny.

Definition runKeyPermsHTTP (l : list assignment) (id : string) (roles allow deny : list string) : cmd unit :=
  let* c := client true l in
  let* key := call (ApiClient.SetPermissions Do build c id (mkPermReq roles [] allow deny)) in
  print [Text ("Updated permissions for key " +:+ KV_ID key); list_line (KV_Roles key) (KV_AllowModels key) (KV_DenyModels key)].
Definition runKeyPermsLocal (l : list assignment) (id : string) (roles allow deny : list string) : cmd unit :=
  let* svc := localBootstrapService l "key perms" in
  let* key := on_store (Auth.SetPermissions id (mkPermissions roles [] allow deny "" "" None "")) svc in
  let* _ := print [Text ("Updated permissions for key " +:+ APIKey_ID key);
                   list_line (APIKey_Roles key) (APIKey_AllowModels key) (APIKey_DenyModels key)] in
  noteLocalRestart.
Definition runKeyPerms (args : list string) : cmd unit :=
  let* (l, rest) := parseFlags (registerClientFlags true ++ perm_flags)
    (reorderFlagsFirst args (["role"; "allow-model"; "deny-model"] ++ clientValueFlags)) in
  match rest with
  | [id] =>
      let roles := flag_strings "role" l in
      let allow := flag_strings "allow-model" l in
      let deny := flag_strings "deny-model" l in
      if isLocal l then runKeyPermsLocal l id roles allow deny else runKeyPermsHTTP l id roles allow deny
  | _ => fail (EUsage "usage: agentgpu key perms <id> [--role r ...] [--allow-model m ...] [--deny-model m ...]")
  end.

Definition key_header : list string := ["ID"; "NAME"; "CREATED"; "LAST USED"; "USAGE"; "REVOKED"; "ROLES"; "ALLOW"; "DENY"].
Definition runKeyListHTTP (l : list assignment) : cmd unit :=
  let* c := client true l in
  let* keys := call_list (ListKeys Do build c fuel) in
  match keys with
  | [] => print [Text "No keys."]
  | _ => print [Table (key_header :: map (λ k, [KV_ID k; KV_Name k; fmtUnix (KV_Created k); fmtUnix (KV_LastUsed k);
           FormatUint (KV_UsageCount k); fmtBool (KV_Revoked k); fmtList (KV_Roles k); fmtList (KV_AllowModels k);
           fmtList (KV_DenyModels k)]) keys)]
  end.
Definition runKeyListLocal (l : list assignment) : cmd unit :=
  let* svc := localService l in
  match Auth.List svc with
  | [] => print [Text "No keys."]
  | keys => print [Table (key_header :: map (λ k, [APIKey_ID k; APIKey_Name k; fmtTime (APIKey_CreatedAt k); fmtTime (APIKey_LastUsedAt k);
           FormatUint (APIKey_UsageCount k); fmtBool (Revoked k); fmtList (APIKey_Roles k); fmtList (APIKey_AllowModels k);
           fmtList (APIKey_DenyModels k)]) keys)]
  end.
Definition runKeyList (args : list string) : cmd unit :=
  let* (l, _) := parseFlags (registerClientFlags true) args in
  if isLocal l then runKeyListLocal l else runKeyListHTTP l.

Definition as_result (r : service * option error) : service * result unit :=
  (r.1, match r.2 with None => Ok tt | Some e => Err e end).
Definition runKeyRevokeLocal (l : list assignment) (id : string) : cmd unit :=
  let* svc := localBootstrapService l "key revoke" in
  let* _ := on_store (λ s, as_result (Revoke (lio_now io) id s)) svc in
  let* _ := print [Text ("Revoked key " +:+ id)] in
  noteLocalRestart.
Definition runKeyRevoke (args : list string) : cmd unit :=
  let* (l, rest) := parseFlags (registerClientFlags true) (reorderFlagsFirst args clientValueFlags) in
  match rest with
  | [id] =>
      if isLocal l then runKeyRevokeLocal l id
      else
        let* c := client true l in
        let* _ := call (RevokeKey Do build c id) in
        print [Text ("Revoked key " +:+ id)]
  | _ => fail (EUsage "usage: agentgpu key revoke <id>")
  end.

Definition rotated_line (id : string) : line := Text ("Rotated key " +:+ id +:+ "; the old token no longer works.").
Definition runKeyRotateLocal (l : list assignment) (id : string) : cmd unit :=
  let* svc := localBootstrapService l "key rotate" in
  let* token := on_store (Rotate rand id) svc in
  let* _ := print [rotated_line id] in
  let* _ := printToken token in
  noteLocalRestart.
Definition runKeyRotate (args : list string) : cmd unit :=
  let* (l, rest) := parseFlags (registerClientFlags true) (reorderFlagsFirst args clientValueFlags) in
  match rest with
  | [id] =>
      if isLocal l then runKeyRotateLocal l id
      else
        let* c := client true l in
        let* (_, token) := call (RotateKey Do build c id) in
        let* _ := print [rotated_line id] in
        printToken token
  | _ => fail (EUsage "usage: agentgpu key rotate <id>")
  end.

(** *** quota.go *)

Definition quota_table (usage : list Z) (lim : Z * Z * Z * Z) (minute day month : string) : line :=
  let '(rpm, tpm, daily, monthly) := lim in
  Table (["DIMENSION"; "USAGE"; "LIMIT"; "RESETS AT"] ::
    zip_with (λ u r, match r with d :: rest => d :: FormatUint u :: rest | [] => [] end) usage
      [["requests/min"; fmtLimit rpm; minute]; ["tokens/min"; fmtLimit tpm; minute]; ["tokens/day"; fmtLimit daily; day];
       ["tokens/month"; fmtLimit monthly; month]]).
Definition view_limits (v : limitsView) : Z * Z * Z * Z := (LV_RPM v, LV_TPM v, LV_DailyTokens v, LV_MonthlyTokens v).
Definition store_limits (v : Limits) : Z * Z * Z * Z := (Limits_RPM v, Limits_TPM v, Limits_DailyTokens v, Limits_MonthlyTokens v).

Definition runQuotaShowHTTP (l : list assignment) (id : string) : cmd unit :=
  let* c := client true l in
  let* u := call (GetQuota Do build c id) in
  print [Text ("Quota for key " +:+ QU_KeyID u);
         quota_table [QU_RequestsThisMinute u; QU_TokensThisMinute u; QU_TokensToday u; QU_TokensThisMonth u] (view_limits (QU_Limits u))
           (fmtUnix (QU_MinuteResetsAt u)) (fmtUnix (QU_DayResetsAt u)) (fmtUnix (QU_MonthResetsAt u))].
Definition runQuotaShowLocal (l : list assignment) (id quotaFlag : string) : cmd unit :=
  let* svc := localService l in
  match List.find (λ k, String.eqb (APIKey_ID k) id) (Auth.List svc) with
  | None => fail (ELocal (EWrap "quota show" ErrNotFound))
  | Some key =>
      let quotaPath := ResolveQuotaPath os_LookupEnv os_UserHomeDir quotaFlag None None in
      let* disk := (λ w, Some (w, [], inl (w_files w !! quotaPath))) in
      match LoadCheckpoint unmarshal_counters quotaPath (lio_quotaRead io) disk NewMemoryCounterStore with
      | (_, Some e) => fail (ELocal e)
      | (cs, None) =>
          match (UsageForKey (lio_now io) key (NewEngine cs [])).2 with
          | Err e => fail (ELocal e)
          | Ok snap =>
              print [Text ("Quota for key " +:+ APIKey_ID key +:+ " (" +:+ APIKey_Name key +:+ ")");
                     Text (match APIKey_Limits key with
                           | None => "Limits: global defaults (no per-key override)"
                           | Some _ => "Limits: per-key override"
                           end);
                     quota_table [RequestsThisMinute snap; TokensThisMinute snap; TokensToday snap; TokensThisMonth snap]
                       (store_limits (Snapshot_Limits snap)) (fmtTime (MinuteResetsAt snap)) (fmtTime (DayResetsAt snap))
                       (fmtTime (MonthResetsAt snap))]
          end
      end
  end.
Definition runQuotaShow (args : list string) : cmd unit :=
  let* (l, rest) := parseFlags (registerClientFlags true ++ [mkFlag "quota-path" FString "quota-path"])
    (reorderFlagsFirst args ("quota-path" :: clientValueFlags)) in
  match rest with
  | [id] => if isLocal l then runQuotaShowLocal l id (flag_string "quota-path" "" l) else runQuotaShowHTTP l id
  | _ => fail (EUsage "usage: agentgpu quota show <id>")
  end.

Definition printQuotaSetResult (id : string) (limits : option (Z * Z * Z * Z)) : cmd unit :=
  match limits with
  | None => print [Text ("Cleared quota override for key " +:+ id +:+ "; now using global defaults.")]
  | Some (rpm, tpm, daily, monthly) =>
      print [Text ("Updated quota for key " +:+ id);
             Text ("RPM: " +:+ fmtLimit rpm +:+ "  TPM: " +:+ fmtLimit tpm +:+ "  Daily: " +:+ fmtLimit daily +:+ "  Monthly: " +:+ fmtLimit monthly)]
  end.
(** The dimensions given on the command line. *)
Definition given (l : list assignment) (name : string) : option Z := if flag_given name l then Some (flag_uint name l) else None.
Definition runQuotaSetHTTP (l : list assignment) (id : string) (clear : bool) : cmd unit :=
  let* c := client true l in
  let req := if clear then mkQuotaReq None None None None
             else mkQuotaReq (given l "rpm") (given l "tpm") (given l "daily-tokens") (given l "monthly-tokens") in
  let* key := call (SetQuota Do build c id req) in
  printQuotaSetResult (KV_ID key) (view_limits <$> KV_Limits key).
Definition runQuotaSetLocal (l : list assignment) (id : string) (clear : bool) (rpm tpm daily monthly : Z) : cmd unit :=
  let* svc := localBootstrapService l "quota set" in
  let limits := if clear then None else Some (mkLimits rpm tpm daily monthly) in
  let* key := on_store (SetLimits id limits) svc in
  let* _ := printQuotaSetResult (APIKey_ID key) (store_limits <$> APIKey_Limits key) in
  noteLocalRestart.
Definition runQuotaSet (args : list string) : cmd unit :=
  let numeric := ["rpm"; "tpm"; "daily-tokens"; "monthly-tokens"] in
  let* (l, rest) := parseFlags (registerClientFlags true ++ map (λ n, mkFlag n FUint n) numeric ++ [mkFlag "clear" FBool "clear"])
    (reorderFlagsFirst args (numeric ++ clientValueFlags)) in
  match rest with
  | [id] =>
      let clear := flag_bool "clear" l in
      let anyNumeric := existsb (λ n, flag_given n l) numeric in
      if negb clear && negb anyNumeric then
        fail (EUsage "quota set: specify at least one of --rpm/--tpm/--daily-tokens/--monthly-tokens, or --clear")
      else if clear && anyNumeric then
        fail (EUsage "quota set: --clear cannot be combined with --rpm/--tpm/--daily-tokens/--monthly-tokens")
      else if isLocal l then
        runQuotaSetLocal l id clear (flag_uint "rpm" l) (flag_uint "tpm" l) (flag_uint "daily-tokens" l) (flag_uint "monthly-tokens" l)
      else runQuotaSetHTTP l id clear
  | _ => fail (EUsage "usage: agentgpu quota set <id> [--rpm N] [--tpm N] [--daily-tokens N] [--monthly-tokens N] [--clear]")
  end.
Definition runQuotaCmd (args : list string) : cmd unit :=
  match args with
  | a :: rest =>
      if isHelpArg a then groupHelp
      else if String.eqb a "set" then runQuotaSet rest
      else if String.eqb a "show" then runQuotaShow rest
      else runQuotaShow args
  | [] => runQuotaShow args
  end.

Definition runKeyCmd (args : list string) : cmd unit :=
  match args with
  | [] => fail (EUsage "usage: agentgpu key <create|list|revoke|rotate|perms|quota> [args]")
  | sub :: rest =>
      if isHelpArg sub then groupHelp
      else if String.eqb sub "create" then runKeyCreate rest
      else if String.eqb sub "list" then runKeyList rest
      else if String.eqb sub "revoke" then runKeyRevoke rest
      else if String.eqb sub "rotate" then runKeyRotate rest
      else if String.eqb sub "perms" then runKeyPerms rest
      else if String.eqb sub "quota" then runQuotaCmd rest
      else fail (EUsage ("unknown key subcommand " +:+ quote sub))
  end.

(** *** workers.go *)

Definition runWorkersList (args : list string) : cmd unit :=
  let* (l, _) := parseFlags (registerClientFlags false) args in
  let* c := client false l in
  let* workers := call_list (ListWorkers Do build c fuel) in
  match workers with
  | [] => print [Text "No workers connected."]
  | _ => print [Table (["ID"; "STATUS"; "ACTIVE"; "LOAD"; "GPU"; "FREE VRAM"; "TOTAL VRAM"; "LAST SEEN"; "MODELS"] ::
           map (λ w, [WV_ID w; WV_Status w; Itoa (WV_ActiveJobs w); Itoa (WV_Load w); fmtStr (WV_GPUType w); fmtBytes (WV_FreeVRAM w);
             fmtBytes (WV_TotalVRAM w); fmtUnix (WV_LastSeen w); fmtModels (WV_Models w)]) workers)]
  end.
Definition runWorkersDetail (args : list string) : cmd unit :=
  let* (l, rest) := parseFlags (registerClientFlags false) (reorderFlagsFirst args clientValueFlags) in
  match rest with
  | [id] =>
      let* c := client false l in
      let* d := call (WorkerDetail Do build c id) in
      let v := Http.WD_view d in
      print [Table [["ID"; WV_ID v]; ["Status"; WV_Status v]; ["Draining"; fmtBool (Http.WD_Draining d)]; ["Active jobs"; Itoa (WV_ActiveJobs v)];
        ["Load"; Itoa (WV_Load v)]; ["GPU type"; fmtStr (WV_GPUType v)]; ["Free VRAM"; fmtBytes (WV_FreeVRAM v)];
        ["Total VRAM"; fmtBytes (WV_TotalVRAM v)]; ["Registered"; fmtUnix (Http.WD_RegisteredAt d)]; ["Uptime"; fmtUptime (Http.WD_UptimeSeconds d)];
        ["Last seen"; fmtUnix (WV_LastSeen v)]; ["Models"; fmtModels (WV_Models v)]]]
  | _ => fail (EUsage "usage: agentgpu workers detail <id>")
  end.
Definition runWorkersDrain (args : list string) : cmd unit :=
  let* (l, rest) := parseFlags (registerClientFlags false ++ [mkFlag "deadline" FDuration "deadline"])
    (reorderFlagsFirst args ("deadline" :: clientValueFlags)) in
  let deadline := flag_duration "deadline" l in
  match rest with
  | [id] =>
      let* c := client false l in
      let* _ := call (DrainWorker Do build c id deadline) in
      print [Text (if 0 <? deadline
        then "Draining worker " +:+ id +:+ " (forced after " +:+ Duration_String deadline +:+ "); in-flight jobs finish first."
        else "Draining worker " +:+ id +:+ "; it stops receiving new jobs while in-flight jobs finish.")]
  | _ => fail (EUsage "usage: agentgpu workers drain <id> [--deadline d]")
  end.
Definition runWorkersPull (args : list string) : cmd unit :=
  let* (l, rest) := parseFlags (registerClientFlags false) (reorderFlagsFirst args clientValueFlags) in
  match rest with
  | [id; model] =>
      let* c := client false l in
      let* _ := call (PullModel Do build c id model) in
      print [Text ("Requested pull of " +:+ quote model +:+ " on worker " +:+ id +:+ "; it appears once the pull completes.")]
  | _ => fail (EUsage "usage: agentgpu workers pull <id> <model>")
  end.
Definition runWorkersUnload (args : list string) : cmd unit :=
  let* (l, rest) := parseFlags (registerClientFlags false) (reorderFlagsFirst args clientValueFlags) in
  match rest with
  | [id; model] =>
      let* c := client false l in
      let* _ := call (UnloadModel Do build c id model) in
      print [Text ("Requested unload of " +:+ quote model +:+ " from worker " +:+ id +:+ ".")]
  | _ => fail (EUsage "usage: agentgpu workers unload <id> <model>")
  end.
Definition runWorkersCmd (args : list string) : cmd unit :=
  match args with
  | [] => fail (EUsage "usage: agentgpu workers <list|detail|drain|pull|unload> [args]")
  | sub :: rest =>
      if isHelpArg sub then groupHelp
      else if String.eqb sub "list" then runWorkersList rest
      else if String.eqb sub "detail" then runWorkersDetail rest
      else if String.eqb sub "drain" then runWorkersDrain rest
      else if String.eqb sub "pull" then runWorkersPull rest
      else if String.eqb sub "unload" then runWorkersUnload rest
      else fail (EUsage ("unknown workers subcommand " +:+ quote sub))
  end.

(** *** The users and config commands *)

Definition run_users (args : list string) : cmd unit :=
  let* (l, _) := parseFlags (registerClientFlags false ++ [mkFlag "by" FString "by"]) args in
  let label := flag_string "by" "owner" l in
  let dim := ToLower (TrimSpace label) in
  if negb (String.eqb dim "owner") && negb (String.eqb dim "team") then
    fail (EUsage ("users: --by must be owner or team, got " +:+ quote label))
  else
    let* c := client false l in
    let* keys := call_list (ListKeys Do build c fuel) in
    match keys with
    | [] => print [Text "No keys."]
    | _ => print [Table ([ToUpper dim; "KEYS"; "ACTIVE"; "ROLES"] ::
             map (λ g, [ug_label g; Itoa (ug_keys g); Itoa (ug_active g); fmtList (ug_roles g)]) (groupKeysByLabel keys dim))]
    end.
Definition runUsersCmd (args : list string) : cmd unit :=
  match args with
  | a :: _ => if isHelpArg a then groupHelp else run_users args
  | [] => run_users args
  end.

Definition runConfigGet (args : list string) : cmd unit :=
  let* (l, _) := parseFlags (registerClientFlags false) args in
  let* c := client false l in
  let* resp := call (GetConfig Do build c) in
  print (printConfig resp).
Definition runConfigSet (args : list string) : cmd unit :=
  let* (l, rest) := parseFlags (registerClientFlags false) (reorderFlagsFirst args clientValueFlags) in
  match rest with
  | [] => fail (EUsage "config set: provide at least one field=value pair (e.g. log_level=debug)")
  | _ =>
      match parseConfigPairs quote rest with
      | inr e => fail e
      | inl patch =>
          let* c := client false l in
          let* resp := call (PutConfig Do build c patch) in
          print (Text "Updated runtime config." :: printConfig resp)
      end
  end.
Definition runConfigCmd (args : list string) : cmd unit :=
  match args with
  | [] => fail (EUsage "usage: agentgpu config <get|set> [field=value ...]")
  | a :: rest =>
      if isHelpArg a then groupHelp
      else if String.eqb a "get" then runConfigGet rest
      else if String.eqb a "set" then runConfigSet rest
      else fail (EUsage ("unknown config subcommand " +:+ quote a))
  end.

(** ** The key file *)

Definition opened (w : world W) (path : string) : result File :=
  NewFile unmarshal path (lio_mkdir io) (lio_read io) (w_files w !! path) (lio_flush io).

Lemma NewFile_same path e1 e2 disk fio f : NewFile unmarshal path e1 e2 disk fio = Ok f → File_path f = path ∧ File_disk f = disk.
Proof.
  unfold NewFile, load. case_match; [done|]. case_match; [done|]. destruct e2; [done|]. cbn.
  repeat case_match; naive_solver.
Qed.

(** A mutating --local command goes on only over a store without keys. *)
Lemma bootstrap_inv l op w w' out r : localBootstrapService l op w = Some (w', out, r) →
  w' = w ∧ out = [] ∧ ((∃ e, r = inr e) ∨ ∃ svc, r = inl svc ∧ opened w (File_path (Service_store svc)) = Ok (Service_store svc) ∧
    File_keys (Service_store svc) = ∅ ∧ File_disk (Service_store svc) = w_files w !! File_path (Service_store svc) ∧ Service_reads svc = 0%nat).
Proof.
  unfold localBootstrapService, localService, openStore, bind, ret. cbn.
  destruct (NewFile _ _ _ _ _ _) as [f|e] eqn:E; cbn; [|intros [= <- <- <-]; naive_solver].
  destruct (File_ListAPIKeys range_keys f) as [|k ks] eqn:El; intros [= <- <- <-]; split_and!; [done|done| |done|done|by left; eexists].
  right. exists (NewService f). split; [done|]. destruct (NewFile_same _ _ _ _ _ _ E) as [Hp Hd]. cbn. rewrite Hp. split_and!; [done| |done|done].
  apply map_empty. intros id. destruct (File_keys f !! id) as [k|] eqn:Ek; [|done]. exfalso.
  unfold File_ListAPIKeys in El. apply map_eq_nil in El. pose proof (Hrange (File_keys f)) as Hr. rewrite El in Hr.
  apply Permutation_nil_l in Hr. symmetry in Hr. apply fmap_nil_inv, map_to_list_empty_iff in Hr. by rewrite Hr in Ek.
Qed.

Lemma bootstrap_refused l op w f :
  opened w (ResolveStorePath os_LookupEnv os_UserHomeDir (flag_string "store" "" l) None None) = Ok f → File_keys f ≠ ∅ →
  localBootstrapService l op w = Some (w, [], inr (errLocalNotEmpty op)).
Proof.
  intros Ho Hne. unfold localBootstrapService, localService, openStore, bind, ret. unfold opened in Ho. rewrite Ho. cbn.
  unfold File_ListAPIKeys. rewrite map_clone. destruct (range_keys (File_keys f)) eqn:E; [|done]. destruct Hne.
  pose proof (Hrange (File_keys f)) as Hr. rewrite E in Hr. apply Permutation_nil_l in Hr. symmetry in Hr.
  by apply fmap_nil_inv, map_to_list_empty_iff in Hr.
Qed.

(** A change of the key file that is allowed: of a store without keys, to one key. *)
Definition first_key (w w' : world W) (path : string) : Prop :=
  (∃ f, opened w path = Ok f ∧ File_keys f = ∅) ∧ ∃ key data, w_files w' !! path = Some data ∧ marshal [key] = Ok data.
Definition tame {A} (m : cmd A) : Prop := ∀ w w' out r, m w = Some (w', out, r) →
  ∀ path, w_files w' !! path = w_files w !! path ∨ first_key w w' path.

Lemma keeps_tame {A} (m : cmd A) : keeps m → tame m.
Proof. intros H w w' out r E path. left. by rewrite (H _ _ _ _ E). Qed.
Lemma tame_bind {A B} (m : cmd A) (k : A → cmd B) : keeps m → (∀ a, tame (k a)) → tame (bind m k).
Proof.
  intros Hm Hk w w' out r [(e & E & _)|(w1 & a & o1 & o2 & E & E' & _)]%bind_inv path; [left; by rewrite (Hm _ _ _ _ E)|].
  pose proof (Hm _ _ _ _ E) as Hf. destruct (Hk a _ _ _ _ E' path) as [H|[(f & H1 & H2) H3]]; [left; congruence|right].
  split; [|exact H3]. exists f. unfold opened in *. by rewrite <- Hf.
Qed.

(** A call of the service, on the store of an empty key file. *)
Lemma on_store_step {A} (f : service → service * result A) svc (w w' : world W) out r :
  on_store f svc w = Some (w', out, r) → File_disk (Service_store svc) = w_files w !! File_path (Service_store svc) →
  File_path (Service_store (f svc).1) = File_path (Service_store svc) →
  (∀ path, path ≠ File_path (Service_store svc) → w_files w' !! path = w_files w !! path) ∧
  w_files w' !! File_path (Service_store svc) = File_disk (Service_store (f svc).1) ∧
  r = match (f svc).2 with Ok a => inl a | Err e => inr (ELocal e) end.
Proof.
  unfold on_store. destruct (f svc) as [svc' [a|e]]; cbn; intros [= <- <- <-] Hd Hp; cbn; rewrite Hp;
    (split_and!; [intros path Hn; by rewrite lookup_partial_alter_ne|by rewrite lookup_partial_alter_eq|done]).
Qed.

Lemma tame_local {A B} l op (f : service → service * result A) (k : A → cmd B) :
  (∀ a, keeps (k a)) →
  (∀ svc, File_keys (Service_store svc) = ∅ →
     File_path (Service_store (f svc).1) = File_path (Service_store svc) ∧
     (File_disk (Service_store (f svc).1) = File_disk (Service_store svc) ∨
      ∃ key data, File_disk (Service_store (f svc).1) = Some data ∧ marshal [key] = Ok data)) →
  tame (bind (localBootstrapService l op) (λ svc, bind (on_store f svc) k)).
Proof.
  intros Hk Hf w w' out r [(e & E & _)|(w1 & svc & o1 & o2 & E & E' & _)]%bind_inv path;
    apply bootstrap_inv in E as (-> & -> & Hr); [by left|].
  destruct Hr as [[e [=]]|(s & [= <-] & Ho & Hkeys & Hd & _)]. destruct (Hf svc Hkeys) as [Hp Hdisk].
  assert (∃ w2 out2 r2, on_store f svc w = Some (w2, out2, r2) ∧ w_files w' = w_files w2) as (w2 & out2 & r2 & Es & Hw).
  { apply bind_inv in E' as [(e & E1 & _)|(w2 & a & o3 & o4 & E1 & E2 & _)]; [by exists w', o2, (inr e)|].
    exists w2, o3, (inl a). split; [done|]. by eapply Hk. }
  destruct (on_store_step f svc w w2 out2 r2 Es Hd Hp) as (H1 & H2 & _). rewrite <- Hw in H1, H2.
  destruct (decide (path = File_path (Service_store svc))) as [->|Hne]; [|left; by apply H1].
  destruct Hdisk as [Hsame|(key & data & Hdata & Hm)]; [left; by rewrite H2, Hsame|right].
  split; [by exists (Service_store svc)|]. exists key, data. split; [|done]. by rewrite H2.
Qed.

(** On a store without keys only the creation of a key writes. *)
Lemma flush_path f : File_path (flush range_keys marshal f).1 = File_path f.
Proof. unfold flush. by split_ifs. Qed.
Lemma create_tame now name perms svc : File_keys (Service_store svc) = ∅ →
  let svc' := (CreateWithPermissions rand now name perms svc).1 in
  File_path (Service_store svc') = File_path (Service_store svc) ∧
  (File_disk (Service_store svc') = File_disk (Service_store svc) ∨
   ∃ key data, File_disk (Service_store svc') = Some data ∧ marshal [key] = Ok data).
Proof.
  intros Hk. unfold CreateWithPermissions. destruct (mint rand svc) as [svc1 [[[[id secret] salt] hash]|e]] eqn:E.
  - assert (Service_store svc1 = Service_store svc) as Hs.
    { clear -E. unfold mint, mintSecret, randBytes in E. cbn in E. repeat case_match; simplify_eq; done. }
    set (rec := mkAPIKey _ _ _ _ _ _ _ _ _ _ _ _ _ _ _ _ _ _). cbn. unfold File_PutAPIKey. rewrite Hs, Hk, cloneAPIKey_eq.
    set (f := File_set_keys _ _). pose proof (flush_path f) as Hp. pose proof (flush_disk range_keys marshal f) as Hd.
    destruct (flush range_keys marshal f) as [f' [e|]]; cbn in *; (split; [done|]); [by left|right].
    destruct Hd as (data & Hm & ->). exists rec, data. split; [done|].
    assert (range_keys (<[id := rec]> ∅) = [rec]) as Hl; [|by rewrite <- Hl].
    apply Permutation_singleton_r. etransitivity; [apply Hrange|]. by rewrite insert_empty, map_to_list_singleton.
  - clear Hk. unfold mint, mintSecret, randBytes in E. cbn in E. repeat case_match; simplify_eq; cbn; by auto.
Qed.

(** Every other call finds no key. *)
Lemma no_key (svc : service) id : File_keys (Service_store svc) = ∅ → GetAPIKey id (Service_store svc) = Err ErrNotFound.
Proof. intros H. rewrite GetAPIKey_spec. cbn. by rewrite H. Qed.
Definition refuses {A} (f : service → service * result A) : Prop :=
  ∀ svc, File_keys (Service_store svc) = ∅ → f svc = (svc, Err ErrNotFound).
Lemma update_refuses what g id : refuses (update what g id).
Proof. intros svc H. unfold update. by rewrite no_key. Qed.
Lemma revoke_refuses now id : refuses (λ s, as_result (Revoke now id s)).
Proof. intros svc H. unfold Revoke, as_result. by rewrite no_key. Qed.
Lemma rotate_refuses id : refuses (Rotate rand id).
Proof. intros svc H. unfold Rotate. by rewrite no_key. Qed.
Lemma refuses_tame {A} (f : service → service * result A) svc : refuses f → File_keys (Service_store svc) = ∅ →
  File_path (Service_store (f svc).1) = File_path (Service_store svc) ∧
  (File_disk (Service_store (f svc).1) = File_disk (Service_store svc) ∨
   ∃ key data, File_disk (Service_store (f svc).1) = Some data ∧ marshal [key] = Ok data).
Proof. intros Hf Hk. rewrite (Hf svc Hk). by split; [|left]. Qed.

Lemma refused_inv {A B} l op (f : service → service * result A) (k : A → cmd B) w w' out r :
  refuses f → bind (localBootstrapService l op) (λ svc, bind (on_store f svc) k) w = Some (w', out, r) →
  w_files w' = w_files w ∧ ∃ e, r = inr e.
Proof.
  intros Hf [(e & E & ->)|(w1 & svc & o1 & o2 & E & E' & _)]%bind_inv; apply bootstrap_inv in E as (-> & -> & Hr); [by eauto|].
  destruct Hr as [[e [=]]|(s & [= <-] & _ & Hkeys & Hd & _)]. unfold bind, on_store in E'. rewrite (Hf svc Hkeys) in E'.
  injection E' as <- <- <-. split; [|by eauto]. apply map_eq. intros p. cbn.
  destruct (decide (p = File_path (Service_store svc))) as [->|Hn]; [by rewrite lookup_partial_alter_eq|by rewrite lookup_partial_alter_ne].
Qed.

(** *** Every command *)

Lemma keeps_parseFlags defs args : keeps (parseFlags defs args).
Proof. unfold parseFlags. keeps_walk. Qed.
Lemma keeps_client b l : keeps (client b l).
Proof. unfold client. keeps_walk. Qed.
Lemma keeps_localService l : keeps (localService l).
Proof.
  unfold localService. apply keeps_bind; [|by eauto with cli]. intros w w' out r. unfold openStore.
  case_match; by intros [= <- _ _].
Qed.
Lemma keeps_printToken t : keeps (printToken t).
Proof. apply keeps_print. Qed.
Lemma keeps_note : keeps noteLocalRestart.
Proof. apply keeps_print. Qed.
Lemma keeps_quotaResult id l : keeps (printQuotaSetResult id l).
Proof. unfold printQuotaSetResult. keeps_walk. Qed.
#[local] Hint Resolve keeps_parseFlags keeps_client keeps_localService keeps_printToken keeps_note keeps_quotaResult keeps_tame : cli.


Ltac tame_walk :=
  repeat first
    [solve [eauto with cli]
    |match goal with |- tame (match ?x with _ => _ end) => destruct x end
    |apply tame_bind; [solve [eauto with cli]|intros]
    |apply keeps_tame; solve [keeps_walk]].

Lemma quota_tame args : tame (runQuotaCmd args).
Proof.
  assert (∀ a, tame (runQuotaShow a)) as Hshow.
  { intros a. unfold runQuotaShow, runQuotaShowLocal, runQuotaShowHTTP. apply keeps_tame. keeps_walk.
    intros w w' out r [= <- _ _]. done. }
  assert (∀ a, tame (runQuotaSet a)) as Hset.
  { intros a. unfold runQuotaSet, runQuotaSetHTTP. tame_walk. unfold runQuotaSetLocal.
    apply tame_local; [keeps_walk|]. intros svc. apply refuses_tame, update_refuses. }
  unfold runQuotaCmd, groupHelp. tame_walk.
Qed.

Lemma key_tame args : tame (runKeyCmd args).
Proof.
  assert (∀ a, tame (runKeyCreate a)) as Hcreate.
  { intros a. unfold runKeyCreate, runKeyCreateHTTP. tame_walk. unfold runKeyCreateLocal.
    apply tame_local; [intros [token key]; keeps_walk|]. intros svc. apply create_tame. }
  assert (∀ a, tame (runKeyList a)) as Hlist.
  { intros a. unfold runKeyList, runKeyListLocal, runKeyListHTTP. apply keeps_tame. keeps_walk. }
  assert (∀ a, tame (runKeyRevoke a)) as Hrevoke.
  { intros a. unfold runKeyRevoke. tame_walk. unfold runKeyRevokeLocal.
    apply tame_local; [keeps_walk|]. intros svc. apply (refuses_tame _ svc (revoke_refuses _ _)). }
  assert (∀ a, tame (runKeyRotate a)) as Hrotate.
  { intros a. unfold runKeyRotate. tame_walk. unfold runKeyRotateLocal.
    apply tame_local; [keeps_walk|]. intros svc. apply refuses_tame, rotate_refuses. }
  assert (∀ a, tame (runKeyPerms a)) as Hperms.
  { intros a. unfold runKeyPerms, runKeyPermsHTTP. tame_walk. unfold runKeyPermsLocal.
    apply tame_local; [keeps_walk|]. intros svc. apply refuses_tame, update_refuses. }
  pose proof quota_tame as Hquota. unfold runKeyCmd, groupHelp. tame_walk.
Qed.

(** C39: The command line writes the key file only to make the first key. Whatever
    the arguments, the environment and the file system do, a key or quota command
    leaves every file as it was, unless it makes a key in a store that had none: then
    the file holds exactly that key.  Over a store that is not empty, and for every
    change but the creation of a key, --local fails and changes nothing. *)
Theorem local_writes_first_key args w w' out r :
  (runKeyCmd args w = Some (w', out, r) ∨ runQuotaCmd args w = Some (w', out, r) →
   ∀ path, w_files w' !! path = w_files w !! path ∨ first_key w w' path) ∧
  (∀ l id roles allow deny clear rpm tpm daily monthly,
     runKeyRevokeLocal l id w = Some (w', out, r) ∨
     runKeyRotateLocal l id w = Some (w', out, r) ∨
     runKeyPermsLocal l id roles allow deny w = Some (w', out, r) ∨
     runQuotaSetLocal l id clear rpm tpm daily monthly w =
       Some (w', out, r) →
     w_files w' = w_files w ∧ ∃ e, r = inr e) ∧
  (∀ l name roles allow deny f,
     opened w (ResolveStorePath os_LookupEnv os_UserHomeDir (flag_string "store" "" l) None None) = Ok f → File_keys f ≠ ∅ →
     runKeyCreateLocal l name roles allow deny w =
       Some (w, [], inr (errLocalNotEmpty "key create"))).
Proof.
  split_and!.
  - intros [H|H]; [by eapply key_tame|by eapply quota_tame].
  - intros l id roles allow deny clear rpm tpm daily monthly [H|[H|[H|H]]]; (eapply refused_inv; [|exact H]);
      first [apply revoke_refuses|apply rotate_refuses|apply update_refuses].
  - intros l name roles allow deny f Ho Hne. unfold runKeyCreateLocal. unfold bind at 1.
    by rewrite (bootstrap_refused l "key create" w f Ho Hne).
Qed.

(** *** The first key *)

Lemma created_on_disk now name perms (svc svc' : service) tok rec :
  CreateWithPermissions rand now name perms svc = (svc', Ok (tok, rec)) → File_keys (Service_store svc) = ∅ →
  on_disk range_keys marshal {[ APIKey_ID rec := rec ]} (Service_store svc').
Proof.
  unfold CreateWithPermissions. destruct (mint rand svc) as [s0 r] eqn:Em. destruct (mint_spec _ _ _ _ Em) as (Hst & _).
  destruct r as [[[[id secret] salt] hash]|]; [|done]. set (k := mkAPIKey _ _ _ _ _ _ _ _ _ _ _ _ _ _ _ _ _ _).
  cbn [PutAPIKey cli_store File_KeyStore]. unfold File_PutAPIKey. intros Hc Hk. rewrite Hst, Hk, cloneAPIKey_eq in Hc.
  set (f := File_set_keys _ _) in Hc. pose proof (flush_disk range_keys marshal f) as Hd.
  destruct (flush range_keys marshal f) as [f' [e|]]; [done|]. injection Hc as <- <- <-. cbn in *.
  destruct Hd as (data & Hm & Hd). right. exists data. rewrite insert_empty in Hm. split_and!; [done|done|].
  intros id' k' [<- <-]%lookup_singleton_Some. done.
Qed.

Definition first_args (name path : string) : list string := ["create"; "--name"; name; "--role"; "admin"; "--local"; "--store"; path].

Lemma first_run name path w : name ≠ "" → path ≠ "" →
  ∃ l, flag_string "store" "" l = path ∧
    runKeyCmd (first_args name path) w =
      runKeyCreateLocal l name ["admin"] [] [] w.
Proof.
  intros Hn Hp. exists [("name", "name", VString name); ("role", "role", VString "admin"); ("local", "local", VBool true); ("store", "store", VString path)].
  split; [done|]. cbn. apply String.eqb_neq in Hn. unfold runKeyCmd, runKeyCreate, bind, parseFlags. cbn. rewrite Hn. unfold bind.
  destruct (runKeyCreateLocal _ _ _ _ _ w) as [[[w' out] r]|]; done.
Qed.

Lemma create_local_inv l name roles (w w' : world W) out : flag_string "store" "" l ≠ "" →
  runKeyCreateLocal l name roles [] [] w = Some (w', out, inl tt) →
  ∃ svc svc' tok rec, File_keys (Service_store svc) = ∅ ∧
    CreateWithPermissions rand (lio_now io) name (mkPermissions roles [] [] [] "" "" None "") svc = (svc', Ok (tok, rec)) ∧
    w_files w' !! flag_string "store" "" l = File_disk (Service_store svc') ∧ Text ("Token: " +:+ tok) ∈ out.
Proof.
  intros Hne. unfold runKeyCreateLocal. intros [(e & _ & [=])|(w1 & svc & o1 & o2 & E & E' & ->)]%bind_inv.
  pose proof E as Eb. apply bootstrap_inv in E as (-> & -> & Hr). destruct Hr as [[e [=]]|(s & [= <-] & _ & Hk & Hd & _)].
  assert (File_path (Service_store svc) = flag_string "store" "" l) as Hpath.
  { unfold localBootstrapService, localService, openStore, bind, ret in Eb. cbn in Eb.
    destruct (NewFile _ _ _ _ _ _) as [f|e] eqn:En; [|done]. cbn in Eb. destruct (File_ListAPIKeys range_keys f); [|done].
    injection Eb as <-. destruct (NewFile_same _ _ _ _ _ _ En) as [Hp _]. cbn. rewrite Hp. unfold ResolveStorePath.
    by apply String.eqb_neq in Hne as ->. }
  apply bind_inv in E' as [(e & _ & [=])|(w2 & [tok rec] & o3 & o4 & E1 & E2 & ->)].
  destruct (CreateWithPermissions rand (lio_now io) name (mkPermissions roles [] [] [] "" "" None "") svc) as [svc' res] eqn:Ec.
  pose proof (create_tame (lio_now io) name (mkPermissions roles [] [] [] "" "" None "") svc Hk) as [Hp _]. rewrite Ec in Hp.
  destruct (on_store_step _ svc w w2 o3 _ E1 Hd) as (_ & H2 & H3); [by rewrite Ec|]. rewrite Ec in H2, H3. cbn in H2, H3.
  destruct res as [[tok' rec']|e]; [|done]. injection H3 as <- <-.
  exists svc, svc', tok, rec. split_and!; [done|done| |].
  - unfold noteLocalRestart, printToken, print, bind in E2. injection E2 as <- <-. by rewrite <- Hpath.
  - unfold noteLocalRestart, printToken, print, bind in E2. injection E2 as <- <-. cbn [app]. set_solver.
Qed.

Lemma bootstrap_empty l op (w : world W) : flag_string "store" "" l ≠ "" → w_files w !! flag_string "store" "" l = None →
  lio_mkdir io = None → lio_read io = None → lio_flush io = [] →
  localBootstrapService l op w = Some (w, [], inl (NewService (mkFile (flag_string "store" "" l) ∅ None []))).
Proof.
  intros Hp Hno Hm Hr Hf. unfold localBootstrapService, localService, openStore, bind, ret, ResolveStorePath, NewFile.
  pose proof Hp as ->%String.eqb_neq. cbn [negb]. pose proof Hp as ->%String.eqb_neq. rewrite Hm, Hr, Hf, Hno. cbn.
  unfold File_ListAPIKeys. rewrite map_clone. cbn. pose proof (Hrange ∅) as He. rewrite map_to_list_empty in He.
  apply Permutation_nil_r in He. by rewrite He.
Qed.
Lemma create_works now name perms (svc : service) : File_io (Service_store svc) = [] →
  (∀ i n, ∃ b, rand i n = Ok b) → (∀ l, ∃ data, marshal l = Ok data) →
  ∃ svc' tok rec, CreateWithPermissions rand now name perms svc = (svc', Ok (tok, rec)).
Proof.
  intros Hio Hrand Hmar. unfold CreateWithPermissions, mint, mintSecret, randBytes.
  destruct (Hrand (Service_reads svc) keyIDBytes) as [b1 ->]. cbn. destruct (Hrand (S (Service_reads svc)) secretBytes) as [b2 ->].
  destruct (Hrand (S (S (Service_reads svc))) saltBytes) as [b3 ->]. unfold File_PutAPIKey, flush. cbn.
  match goal with |- context [marshal ?l] => destruct (Hmar l) as [data ->] end. rewrite Hio. cbn. by do 3 eexists.
Qed.

(** C40: The key the first command makes opens the server. When
    [agentgpu key create --name N --role admin --local --store P] succeeds, it has
    printed a token; a server that opens P afterwards finds exactly one key, the
    token is a good credential for it at any time, and the key passes every admin
    scope.  Over a missing file, with working entropy and file system, it succeeds. *)
Theorem first_key_opens_server name path w :
  name ≠ "" → path ≠ "" → (∀ i n b, rand i n = Ok b → length b = n) →
  (∀ l data, marshal l = Ok data → data ≠ [] ∧ unmarshal data = Ok l) →
  (∀ w' out, runKeyCmd (first_args name path) w = Some (w', out, inl tt) →
   ∃ tok key, Text ("Token: " +:+ tok) ∈ out ∧ ∀ fio, ∃ f,
     NewFile unmarshal path None None (w_files w' !! path) fio = Ok f ∧ File_keys f = {[ APIKey_ID key := key ]} ∧
     (∀ now, credential (File_keys f) now tok key) ∧ ∀ scope, HasScope key scope = true) ∧
  (w_files w !! path = None → lio_mkdir io = None → lio_read io = None → lio_flush io = [] →
   (∀ i n, ∃ b, rand i n = Ok b) → (∀ l, ∃ data, marshal l = Ok data) →
   ∃ w' out, runKeyCmd (first_args name path) w = Some (w', out, inl tt)).
Proof.
  intros Hn Hp Hlen Hcodec. destruct (first_run name path w Hn Hp) as (l & Hl & Hrun). rewrite Hrun. subst path. split.
  - intros w' out H. destruct (create_local_inv l name ["admin"] w w' out Hp H) as (svc & svc' & tok & rec & Hk & Hc & Hd & Ht).
    destruct (create_spec rand _ _ _ _ _ _ _ Hc Hlen) as (_ & Hr & He & secret & Htok & Hh).
    pose proof (created_on_disk _ _ _ _ _ _ _ Hc Hk) as Hdisk. exists tok, rec. split; [done|]. intros fio.
    destruct (on_disk_reopen (Hrange := Hrange) range_keys marshal unmarshal Hcodec _ _ (flag_string "store" "" l) fio Hp Hdisk) as (f & Hf & Hkeys).
    exists f. rewrite Hd. split_and!; [done|done| |].
    + intros now. exists (APIKey_ID rec), secret. rewrite Hkeys, lookup_singleton_eq. split_and!; try done.
      unfold Expired. by rewrite He.
    + intros scope. apply HasScope_spec. left. unfold CreateWithPermissions in Hc. repeat case_match; simplify_eq. cbn. set_solver.
  - intros Hno Hm Hr Hf Hrand Hmar. unfold runKeyCreateLocal. unfold bind at 1.
    rewrite (bootstrap_empty l "key create" w Hp Hno Hm Hr Hf). set (svc := NewService _).
    destruct (create_works (lio_now io) name (mkPermissions ["admin"] [] [] [] "" "" None "") svc eq_refl Hrand Hmar) as (svc' & tok & rec & E).
    unfold bind at 1, on_store. rewrite E. by do 2 eexists.
Qed.
End commands.

(** ** Exit codes *)

Definition error_of {A} (r : A + cli_error) : option cli_error := match r with inl _ => None | inr e => Some e end.

(** The exit code of a request to the server: 5 when it did not reach the server, 3
    for 401 and 403, 4 for 404, 1 for every other refusal, and 0 for an answer that
    decodes. *)
Theorem exit_codes `{!Json} {W A} (Do : W → hreq → W * result hresp) build net c method path body (dec : list payload → result A) (w : world W) :
  (∀ e, net e = false) →
  ∃ w' r, call (do Do build c method path body dec) w = Some (w', [], r) ∧
    exitCode net (error_of r) =
      match build (cl_baseURL c +:+ path) with
      | Some _ => 5
      | None =>
          match (Do (w_server w) (mkReq method (cl_baseURL c) path (if negb (String.eqb (cl_token c) "") then "Bearer " +:+ cl_token c else "")
                   (match body with Some _ => "application/json" | None => "" end) body)).2 with
          | Err _ => 5
          | Ok resp =>
              if (200 <=? p_status resp) && (p_status resp <? 300) then match dec (p_body resp) with Ok _ => 0 | Err _ => 1 end
              else if (p_status resp =? 401) || (p_status resp =? 403) then 3
              else if p_status resp =? 404 then 4 else 1
          end
      end.
Proof.
  intros Hnet. unfold call, do. destruct (build _) as [e|]; [by do 2 eexists|].
  destruct (Do _ _) as [w1 [resp|e]]; cbn [snd]; [|by do 2 eexists].
  rewrite (Z.leb_antisym (p_status resp) 200), (Z.ltb_antisym 300 (p_status resp)), <- negb_orb.
  destruct ((p_status resp <? 200) || (300 <=? p_status resp)) eqn:Es; cbn [negb].
  - do 2 eexists. split; [reflexivity|]. cbn. unfold parseError. destruct (jd_error _). cbn. unfold classify.
    unfold StatusUnauthorized, StatusForbidden, StatusNotFound, StatusTooManyRequests.
    destruct (Z.eqb_spec (p_status resp) 401); [done|]. destruct (Z.eqb_spec (p_status resp) 403); [done|]. cbn [orb].
    destruct (Z.eqb_spec (p_status resp) 404); [done|]. destruct (Z.eqb_spec (p_status resp) 429); [done|]. by destruct (500 <=? p_status resp).
  - destruct (dec _); do 2 eexists; (split; [reflexivity|]); [done|]. cbn. by rewrite Hnet.
Qed.

(** ** Flags and arguments in any order *)

(** A command line as it is typed: flags with their values, and plain arguments. *)
Inductive item :=
| ItemEq (name value : string)      (* --name=value *)
| ItemSep (name value : string)     (* --name value *)
| ItemBool (name : string)          (* --name *)
| ItemArg (arg : string).
Definition tokens (i : item) : list string :=
  match i with
  | ItemEq n v => ["--" +:+ n +:+ "=" +:+ v]
  | ItemSep n v => ["--" +:+ n; v]
  | ItemBool n => ["--" +:+ n]
  | ItemArg a => [a]
  end.
Definition item_args (i : item) : list string := match i with ItemArg a => [a] | _ => [] end.
Definition item_sets (defs : list flagdef) (i : item) : list assignment :=
  let set n v := match lookup_flag defs n with
                 | Some f => match flag_Set (fd_kind f) v with Some x => [(n, fd_dest f, x)] | None => [] end
                 | None => [] end in
  match i with ItemEq n v | ItemSep n v => set n v | ItemBool n => set n "true" | ItemArg _ => [] end.

Definition flag_name (n : string) : Prop := no_sep "=" n ∧ n ≠ "" ∧ is_flag n = false.
(** The flag is defined, takes its value, and [vf] lists the flags with values. *)
Record known (defs : list flagdef) (vf : list string) (n v : string) (f : flagdef) : Prop := {
  kn_name : flag_name n; kn_def : lookup_flag defs n = Some f; kn_value : flag_Set (fd_kind f) v ≠ None;
  kn_listed : n ∈ vf ↔ fd_kind f ≠ FBool }.
Definition item_ok (defs : list flagdef) (vf : list string) (i : item) : Prop :=
  match i with
  | ItemEq n v => ∃ f, known defs vf n v f
  | ItemSep n v => ∃ f, known defs vf n v f ∧ fd_kind f ≠ FBool
  | ItemBool n => ∃ f, known defs vf n "true" f ∧ fd_kind f = FBool
  | ItemArg a => is_flag a = false
  end.

Lemma name_flag n rest : flag_name n → classify_arg ("--" +:+ n +:+ rest) = ArgFlag (n +:+ rest) ∧ TrimLeft_dashes ("--" +:+ n) = n.
Proof.
  intros (H1 & H2 & H3). destruct n as [|c n]; [done|]. destruct H1 as [Hc _].
  assert (c ≠ "-"%char) as Hd by (intros ->; by cbn in H3).
  split.
  - change ("--" +:+ String c n +:+ rest) with (String "-" (String "-" (String c (n +:+ rest)))). unfold classify_arg.
    cbn [Ascii.eqb Bool.eqb andb String.eqb]. by rewrite (proj2 (Ascii.eqb_neq _ _) Hd), (proj2 (Ascii.eqb_neq _ _) Hc).
  - change (TrimLeft_dashes (String c n) = String c n). revert H3. cbn. destruct c as [[] [] [] [] [] [] [] []]; try done.
Qed.
Lemma split_names n v : flag_name n → split_flag (n +:+ "=" +:+ v) = (n, Some v) ∧ split_flag n = (n, None).
Proof.
  intros (H1 & H2 & _). destruct n as [|c n]; [done|]. destruct H1 as [_ H1]. split.
  - change (split_flag (String c n +:+ "=" +:+ v)) with
      (match cut "=" (n +:+ String "=" v) with Some (n', v') => (String c n', Some v') | None => (String c n +:+ "=" +:+ v, None) end).
    by rewrite cut_app.
  - cbn [split_flag]. by rewrite cut_none.
Qed.
Lemma Contains_sep sep x y : Contains (x +:+ String sep y) (String sep "") = true.
Proof.
  induction x as [|c x IH].
  - change ("" +:+ String sep y) with (String sep y). cbn [Contains].
    assert (String.prefix (String sep "") (String sep y) = true) as ->; [|done]. cbn. destruct (ascii_dec sep sep); [by destruct y|done].
  - change (String c x +:+ String sep y) with (String c (x +:+ String sep y)). cbn [Contains]. rewrite IH. apply orb_true_r.
Qed.
Definition prepend (l : list assignment) (r : (list assignment * list string) + flag_error) : (list assignment * list string) + flag_error :=
  match r with inl (l', a) => inl (l ++ l', a) | inr e => inr e end.
Lemma parse_item defs vf i rest : item_ok defs vf i → item_args i = [] →
  flag_Parse defs (tokens i ++ rest) = prepend (item_sets defs i) (flag_Parse defs rest).
Proof.
  destruct i as [n v|n v|n|a]; cbn [item_ok item_args tokens item_sets app]; intros Hok Ha; [| | |done].
  - destruct Hok as (f & [Hn Hd Hv _]). cbn [flag_Parse]. rewrite (proj1 (name_flag n ("=" +:+ v) Hn)).
    rewrite (proj1 (split_names n v Hn)), Hd. revert Hv; destruct (fd_kind f); intros Hv; try done; (destruct (flag_Set _ v) as [x|]; [|done]); by destruct (flag_Parse defs rest) as [[]|].
  - destruct Hok as (f & [Hn Hd Hv _] & Hk). cbn [flag_Parse]. rewrite <- (string_app_nil_r n) at 1. rewrite (proj1 (name_flag n "" Hn)), string_app_nil_r.
    rewrite (proj2 (split_names n "" Hn)), Hd. revert Hv; destruct (fd_kind f); intros Hv; try done; (destruct (flag_Set _ v) as [x|]; [|done]); by destruct (flag_Parse defs rest) as [[]|].
  - destruct Hok as (f & [Hn Hd Hv _] & Hk). cbn [flag_Parse]. rewrite <- (string_app_nil_r n) at 1. rewrite (proj1 (name_flag n "" Hn)), string_app_nil_r.
    rewrite (proj2 (split_names n "" Hn)), Hd, Hk. by destruct (flag_Parse defs rest) as [[]|].
Qed.

Lemma next_item defs vf n v f : known defs vf n v f →
  takes_next vf ("--" +:+ n +:+ "=" +:+ v) = false ∧ takes_next vf ("--" +:+ n) = bool_decide (fd_kind f ≠ FBool).
Proof.
  intros [Hn Hd _ Hl]. unfold takes_next. split.
  - change ("--" +:+ n +:+ "=" +:+ v) with (("--" +:+ n) +:+ String "=" v). by rewrite Contains_sep.
  - rewrite (proj2 (name_flag n "" Hn)). destruct Hn as (H1 & _). rewrite (no_sep_Contains "=" ("--" +:+ n)) by (split; [discriminate|split; [discriminate|exact H1]]).
    cbn [negb andb]. case_bool_decide as Hk; [by apply str_mem_spec, Hl|]. apply str_mem_false. intros Hin%Hl. done.
Qed.

Lemma reorder_item defs vf i rest fl pos : item_ok defs vf i →
  reorder_loop vf (tokens i ++ rest) fl pos =
  reorder_loop vf rest (fl ++ match item_args i with [] => tokens i | _ => [] end) (pos ++ item_args i).
Proof.
  destruct i as [n v|n v|n|a]; cbn [item_ok item_args tokens app]; intros Hok.
  - destruct Hok as (f & Hk). destruct (next_item _ _ _ _ _ Hk) as [H1 _].
    cbn [reorder_loop]. rewrite app_nil_r, H1. change (is_flag ("--" +:+ n +:+ "=" +:+ v)) with true. by destruct rest.
  - destruct Hok as (f & Hk & Hb). destruct (next_item _ _ _ _ _ Hk) as [_ H1].
    cbn [reorder_loop]. rewrite app_nil_r, H1. change (is_flag ("--" +:+ n)) with true. by rewrite bool_decide_true.
  - destruct Hok as (f & Hk & Hb). destruct (next_item _ _ _ _ _ Hk) as [_ H1].
    cbn [reorder_loop]. rewrite app_nil_r, H1. change (is_flag ("--" +:+ n)) with true. rewrite bool_decide_false by naive_solver. by destruct rest.
  - cbn [reorder_loop]. by rewrite Hok, app_nil_r.
Qed.

Definition flags_of (items : list item) : list item := filter (λ i, item_args i = []) items.
Lemma reorder_items defs vf items fl pos : Forall (item_ok defs vf) items →
  reorder_loop vf (concat (map tokens items)) fl pos =
  (fl ++ concat (map tokens (flags_of items))) ++ pos ++ concat (map item_args items).
Proof.
  intros H. revert fl pos. induction H as [|i items Hi _ IH]; intros fl pos; [by rewrite !app_nil_r|].
  cbn [map concat]. rewrite (reorder_item defs) by done. rewrite IH. unfold flags_of. rewrite filter_cons.
  destruct i; cbn [item_args]; [rewrite decide_True by done|rewrite decide_True by done|rewrite decide_True by done|rewrite decide_False by done];
    cbn [map concat]; by rewrite ?app_nil_r, <- ?app_assoc.
Qed.
Lemma parse_flags_first defs vf items args : Forall (item_ok defs vf) items → Forall (λ i, item_args i = []) items →
  Forall (λ a, is_flag a = false) args →
  flag_Parse defs (concat (map tokens items) ++ args) = inl (concat (map (item_sets defs) items), args).
Proof.
  intros H1 H2 Ha. induction items as [|i items IH].
  - destruct args as [|a args]; [done|]. inversion Ha as [|?? Hf _]; subst. cbn. assert (classify_arg a = ArgPlain) as ->; [|done].
    destruct a as [|c a]; [done|]. revert Hf. cbn. by destruct c as [[] [] [] [] [] [] [] []].
  - inversion H1; inversion H2; subst. cbn [map concat]. rewrite <- app_assoc, (parse_item defs vf) by done. by rewrite IH.
Qed.

(** A flag may come after the arguments. A command line of defined flags with
    good values, in any of their spellings, and of plain arguments is read the same
    however they are mixed: reordered, it parses without an error to the assignments
    of the flags in their order and the arguments in theirs. *)
Theorem flags_in_any_order defs vf items : Forall (item_ok defs vf) items →
  flag_Parse defs (reorderFlagsFirst (concat (map tokens items)) vf) =
    inl (concat (map (item_sets defs) items), concat (map item_args items)).
Proof.
  intros H. unfold reorderFlagsFirst. rewrite (reorder_items defs) by done. cbn [app].
  rewrite (parse_flags_first defs vf).
  - do 2 f_equal. clear H. induction items as [|i items IH]; [done|]. unfold flags_of in *. rewrite filter_cons.
    destruct i; cbn [item_args]; [rewrite decide_True by done|rewrite decide_True by done|rewrite decide_True by done|rewrite decide_False by done];
      cbn [map concat]; by rewrite IH.
  - rewrite Forall_forall in H. apply Forall_forall. intros i [_ Hi]%list_elem_of_filter. by apply H.
  - apply Forall_forall. intros i [? _]%list_elem_of_filter. done.
  - induction H as [|i items Hi _ IH]; [constructor|]. cbn [map concat]. apply Forall_app. split; [|done].
    destruct i; cbn in *; by repeat constructor.
Qed.

Lemma flags_in_any_order_witness :
  flag_Parse (registerClientFlags true ++ [mkFlag "rpm" FUint "rpm"])
    (reorderFlagsFirst ["k1"; "--rpm"; "60"; "--token=t"; "--local"] ("rpm" :: clientValueFlags)) =
  inl ([("rpm", "rpm", VUint 60); ("token", "token", VString "t"); ("local", "local", VBool true)], ["k1"]).
Proof.
  apply (flags_in_any_order (registerClientFlags true ++ [mkFlag "rpm" FUint "rpm"]) ("rpm" :: clientValueFlags)
    [ItemArg "k1"; ItemSep "rpm" "60"; ItemEq "token" "t"; ItemBool "local"]).
  assert (∀ n v f, flag_name n → lookup_flag (registerClientFlags true ++ [mkFlag "rpm" FUint "rpm"]) n = Some f →
    flag_Set (fd_kind f) v ≠ None → (str_mem n ("rpm" :: clientValueFlags) = negb (match fd_kind f with FBool => true | _ => false end)) →
    known (registerClientFlags true ++ [mkFlag "rpm" FUint "rpm"]) ("rpm" :: clientValueFlags) n v f) as Hk.
  { intros n v f H1 H2 H3 H4. split; [done..|]. rewrite <- str_mem_spec, H4. by destruct (fd_kind f). }
  assert (flag_name "rpm" ∧ flag_name "token" ∧ flag_name "local") as (N1 & N2 & N3) by (repeat split; discriminate).
  apply Forall_cons_2; [reflexivity|].
  apply Forall_cons_2; [exists (mkFlag "rpm" FUint "rpm"); split; [by apply Hk|discriminate]|].
  apply Forall_cons_2; [exists (mkFlag "token" FString "token"); by apply Hk|].
  apply Forall_cons_2; [exists (mkFlag "local" FBool "local"); split; [by apply Hk|reflexivity]|].
  apply Forall_nil_2.
Defined.

(** ** Witnesses *)

(** A codec that keeps whole keys. *)
#[export] Instance limits_countable : Countable Limits.
Proof.
  apply (inj_countable' (λ l, (Limits_RPM l, Limits_TPM l, Limits_DailyTokens l, Limits_MonthlyTokens l))
    (λ '(a, b, c, d), mkLimits a b c d)). by intros [].
Defined.
#[export] Instance apikey_countable : Countable APIKey.
Proof.
  apply (inj_countable' (λ k,
      ((APIKey_ID k, APIKey_Name k, APIKey_Prefix k, APIKey_SecretHash k, APIKey_Salt k, APIKey_CreatedAt k, APIKey_LastUsedAt k, APIKey_UsageCount k,
        APIKey_RevokedAt k), (APIKey_Owner k, APIKey_Team k, APIKey_ExpiresAt k, APIKey_CreatedBy k, APIKey_Roles k, APIKey_AdminScopes k,
        APIKey_AllowModels k, APIKey_DenyModels k, APIKey_Limits k)))
    (λ '((a, b, c, d, e, f, g, h, i), (j, k, l, m, n, o, p, q, r)), mkAPIKey a b c d e f g h i j k l m n o p q r)). by intros [].
Defined.
Fixpoint pos_bits (p : BinNums.positive) : bytes :=
  match p with xH => [] | xO p => 0 :: pos_bits p | xI p => 1 :: pos_bits p end.
Fixpoint bits_pos (l : bytes) : BinNums.positive :=
  match l with [] => xH | b :: l => if b =? 1 then xI (bits_pos l) else xO (bits_pos l) end.
Definition keys_codec (l : list APIKey) : result bytes := Ok (1 :: pos_bits (encode l)).
Definition keys_decodec (d : bytes) : result (list APIKey) :=
  match decode (bits_pos (tail d)) with Some l => Ok l | None => Err CtxDone end.
Lemma keys_codec_ok l data : keys_codec l = Ok data → data ≠ [] ∧ keys_decodec data = Ok l.
Proof.
  intros [= <-]. split; [done|]. unfold keys_decodec. cbn [tail].
  assert (∀ p, bits_pos (pos_bits p) = p) as -> by (intros p; induction p; cbn; congruence). by rewrite countable.decode_encode.
Qed.

(** A server that is not there. *)
Definition unreachable (w : list hreq) (q : hreq) : list hreq * result hresp := (w ++ [q], Err CtxDone).
Definition demo_cli_io : localIO := mkLocalIO None None [] None 7.
Definition demo_cli (args : list string) : cmd (list hreq) unit :=
  runKeyCmd unreachable (λ _, None) 5 (λ _, None) (Ok "/home/ada") Auth.demo_range Auth.demo_range_ok keys_codec keys_decodec (λ _, Err CtxDone)
    Auth.demo_rand (λ s, s) demo_cli_io args.
Lemma first_key_opens_server_witness :
  ∃ w' out tok key, demo_cli (first_args "ops" "/k.json") (mkWorld ∅ []) = Some (w', out, inl tt) ∧ Text ("Token: " +:+ tok) ∈ out ∧
    ∃ f, NewFile keys_decodec "/k.json" None None (w_files w' !! "/k.json") [] = Ok f ∧ File_keys f = {[ APIKey_ID key := key ]} ∧
      credential (File_keys f) 9 tok key ∧ HasScope key ScopeAuditRead = true.
Proof.
  destruct (first_key_opens_server unreachable (λ _, None) 5 (λ _, None) (Ok "/home/ada") Auth.demo_range Auth.demo_range_ok keys_codec
    keys_decodec (λ _, Err CtxDone) Auth.demo_rand (λ s, s) demo_cli_io "ops" "/k.json" (mkWorld ∅ []) ltac:(discriminate) ltac:(discriminate)
    Auth.demo_rand_length keys_codec_ok) as [H1 H2].
  destruct H2 as (w' & out & E); [exact eq_refl..| | |].
  - intros i n. eexists. reflexivity.
  - intros l. eexists. reflexivity.
  - destruct (H1 w' out E) as (tok & key & Ht & Hf). destruct (Hf []) as (f & F1 & F2 & F3 & F4).
    exists w', out, tok, key. split; [exact E|]. split; [exact Ht|]. exists f. split_and!; [exact F1|exact F2|apply F3|apply F4].
Defined.

(** A revocation in the key file finds no key to revoke, and the file stays as it is. *)
Definition demo_second : option (world (list hreq) * list line * (unit + cli_error)) :=
  demo_cli ["revoke"; "k1"; "--local"; "--store=/k.json"] (mkWorld ∅ []).
Lemma local_writes_first_key_witness :
  ∃ w' out, demo_second = Some (w', out, inr (ELocal ErrNotFound)) ∧ w_files w' = ∅ ∧
    exitCode (λ _, false) (Some (ELocal ErrNotFound)) = 1.
Proof.
  assert (∃ w' out r, runKeyRevokeLocal (W := list hreq) (λ _, None) (Ok "/home/ada") Auth.demo_range Auth.demo_range_ok keys_codec keys_decodec demo_cli_io
    [("local", "local", VBool true); ("store", "store", VString "/k.json")] "k1" (mkWorld ∅ []) = Some (w', out, r) ∧
    r = inr (ELocal ErrNotFound) ∧ demo_second = Some (w', out, r)) as (w' & out & r & E & Hr & Hd).
  { do 3 eexists. split; [reflexivity|]. split; reflexivity. }
  exists w', out. rewrite <- Hr. split; [exact Hd|]. split; [|reflexivity].
  refine (proj1 (proj1 (proj2 (local_writes_first_key (HJson := demo_json) unreachable (λ _, None) 5 (λ _, None) (Ok "/home/ada") Auth.demo_range
    Auth.demo_range_ok keys_codec keys_decodec (λ _, Err CtxDone) Auth.demo_rand (λ s, s) demo_cli_io [] (mkWorld ∅ []) w' out r)) _ _ [] [] [] false 0 0 0 0
    (or_introl E))).
Defined.
